(* ===== verification/_CoqProject ===== *)
-Q . S2P
Prelude.v
Bits.v
GoNet.v
GoNetText.v
CidrSet.v
CidrSetIndex.v
CidrSetOps.v
CidrPool.v
CidrSetProps.v
K8s.v
RangeAllocator.v
RangeAllocatorFacts.v
RangeSystem.v
GceInstances.v
Timeout.v
NetUtils.v
WorkQueue.v
NodeSync.v
NodeSyncProps.v
IpamController.v
RangeProps.v
GoStrings.v
IoLogic.v
Csr.v
Json.v
NetworkAPI.v
MultiNetwork.v
CloudCidrAllocator.v
MultiNetworkProps.v
CloudProps.v
GnpValidations.v
GnpController.v
GnpProps.v
NodeIpamConfig.v
AddressManager.v
AddressManagerProps.v
NodeIdentity.v
NodeCsr.v
CsrApprovers.v
NodeCsrProps.v
CsrApproverProps.v
FakeCsr.v
NodeAnnotator.v
NodeAnnotatorProps.v
LoadBalancer.v
GceHosts.v
ComputeCalls.v
ClusterId.v
InternalLb.v
Goroutines.v
ExternalLb.v
LbDispatch.v
LbLogic.v
InternalLbScope.v
LbStore.v
InternalLbEnsure.v
LbSharing.v
FakeLb.v
ExternalLbTrace.v
ExternalLbEnsure.v
LbDispatchProps.v
LbServing.v
InstanceGroups.v
FakeLbRuns.v
LbServingRuns.v
WorkloadId.v
WorkloadIdProps.v
NodeInstances.v
NodeInstancesProps.v
GceStartup.v
CaCache.v
AuthPlugin.v
Disks.v
DisksProps.v
GceStartupProps.v
DockerConfig.v
DockerConfigProps.v
ClientAuth.v
GceServices.v
ManagerStartup.v
