(* ===== verification/Prelude.v ===== *)
(** * Verification of the GCP cloud provider for Kubernetes

    This library models the controllers of the repository that assign pod
    addresses to nodes, that approve and sign node certificates, that annotate
    nodes, that verify workload identities and that build load balancers, the
    provider's instances, disks, routes and start-up, and the credential
    plugins, with what they stand on, and proves them correct.

    ** The program

    The cloud controller manager ([cmd/cloud-controller-manager]) starts the node
    IPAM controller ([pkg/controller/nodeipam]) with one of three allocators:
    - the range allocator cuts the cluster CIDRs into blocks kept in bitmaps
      ([ipam/cidrset]), reserves one block per address family for a new node and
      writes it to the node from a pool of workers;
    - the legacy controller runs one sync loop per node ([ipam/sync]) that
      reconciles the node's pod CIDR with the alias range of its instance;
    - the cloud allocator copies the alias ranges GCE gave to an instance to the
      node, and in multi-network clusters writes annotations and IP capacities.
    The GKENetworkParamSet (GNP) controller
    ([pkg/controller/gkenetworkparamset]) validates the objects that describe the
    networks of a multi-network cluster.  The service controller calls the
    provider ([providers/gce]) to ensure, update and delete the load balancer of
    a service; an internal one is instance groups, a health check, a backend
    service, a forwarding rule and firewalls, an external one a target pool with
    its health check, a forwarding rule, a firewall and an address.
    The GCP controller manager ([cmd/gcp-controller-manager]) approves
    certificate requests of nodes (attested by the TPM of the VM or by the
    identity of the requester) and of a few services, signs the approved ones,
    deletes node objects of replaced VMs, and copies metadata of the instance
    (zone, labels, taints, instance ID) to the node.  Its direct-path loops keep
    the pairs of Kubernetes and Google service accounts that an authorization
    service has granted, publish them in a config map and send them to nodes.
    The provider is built from a configuration file and the metadata server
    ([gce.go]) and serves instances, zones, disks and routes too.
    Three programs hand out credentials: the plugin of kubectl
    ([cmd/gke-gcloud-auth-plugin]), the credential provider of the kubelet
    ([cmd/auth-provider-gcp]) and the auth provider of client-go
    ([pkg/clientauthplugin]).
    All of them reach the API server and the compute API through clients, and
    objects through informers and work queues.

    ** Files

    Foundations: [Prelude] (machine integers, errors, outcomes, automation),
    [Bits] (big-endian bytes), [GoNet] and [GoNetText] (Go's [net.IP], [IPMask],
    [IPNet], [ParseCIDR] and [String]), [GoStrings] (package strings and strconv),
    [NetUtils] (k8s.io/utils/net with its forked parser), [Json]
    (encoding/json), [K8s] (nodes, conditions, taints, the client as the
    class [KubeClient], the state-and-error monad [io], [pkg/util]), [IoLogic]
    (weakest preconditions for [io]), [NetworkAPI] (crd/apis/network/v1),
    [WorkQueue] (client-go's rate-limiting queue).

    CIDR sets: [CidrSet] is [cidrset/cidr_set.go] operation by operation;
    [CidrSetIndex] and [CidrSetOps] hold its invariant [cidrset_wf] and the
    correctness of the index arithmetic and of each operation; [CidrPool] is the
    interface other components use (the class [CidrPool] with the contract
    [CidrPoolSpec], and the bitmap as an instance); [CidrSetProps] has an
    abstract pool of indices with the simulation, and states the properties.

    Range allocator: [RangeAllocator] is [range_allocator.go];
    [RangeAllocatorFacts] proves each operation against the pool contract;
    [RangeSystem] puts the allocator and the API server into one transition
    system with informers of any staleness, and has a concrete API server;
    [RangeProps] states the properties.

    Legacy controller: [GceInstances] has the instance calls of
    [gce_instances.go]; [Timeout] is [timeout.go]; [NodeSync] is [sync/sync.go];
    [IpamController] is [controller_legacyprovider.go], [adapter.go] and
    [listNodes]; [NodeSyncProps] states the properties of the first.

    Cloud allocator: [MultiNetwork] is [multinetwork_cloud_cidr_allocator.go],
    [CloudCidrAllocator] is [cloud_cidr_allocator.go]; [MultiNetworkProps] and
    [CloudProps] state the properties; the latter on a concrete world.

    GNP controller: [GnpValidations] and [GnpController] are the two files of the
    controller; [GnpProps] states the properties, in a concrete world too.

    Start-up: [NodeIpamConfig] is [nodeipamcontroller.go],
    [node_ipam_controller.go], [legacyprovider.go] and [New] of
    [cidr_allocator.go]; [ManagerStartup] is the rest of
    [cmd/cloud-controller-manager] and, of [cmd/gcp-controller-manager], the table
    of loops, what is started of it, leader election and the health handler, with
    their properties.

    Certificates: [Csr] is [pkg/csrapproval] with its clients as classes;
    [NodeIdentity] is [pkg/nodeidentity] and [pkg/tpmattest]; [NodeCsr] is
    [node_csr_approver.go]; [CsrApprovers] has the istiod, oidc and kubelet
    read-only approvers and the signer; [NodeCsrProps] and [CsrApproverProps]
    have the rules for the reviews and updates a run makes and state the
    properties; [FakeCsr] is a concrete world.  [CaCache] is [ca_cache.go] (the
    verification of endorsement certificates) and [gcp_config.go], with
    its properties.

    Node annotator: [NodeAnnotator] is [node_annotator.go]; [NodeAnnotatorProps]
    states the properties.

    Workload identity: [WorkloadId] is [dpwi/] (the verifier, the authorization
    client, the handlers of service accounts, pods, nodes and the config map);
    [WorkloadIdProps] states the properties, with a service in memory.

    Provider: [NodeInstances] has node addresses, existence and metadata of
    instances and the zones of nodes ([gce_instances.go], [gce_zones.go], the
    handlers of [gce.go]); [Disks] is [gce_disks.go]; [GceStartup] is the rest of
    [gce.go] with [gce_alpha.go], the networks of [gce_util.go] and
    [gce_routes.go]; [NodeInstancesProps], [DisksProps] and [GceStartupProps]
    state the properties, on a compute API in memory.  [GceServices] has the
    counters of the calls, TPUs, clusters, the project and rate of a call
    ([metrics.go], [gce_tpu.go], [gce_clusters.go], [support.go]) and the copy of
    the docker credentials in [providers/gce/gcpcredential], with their
    properties.

    Credentials: [AuthPlugin] is [cmd/gke-gcloud-auth-plugin]; [DockerConfig] is
    [pkg/credentialconfig], [pkg/gcpcredential] and [cmd/auth-provider-gcp], over
    base64; [ClientAuth] is [pkg/clientauthplugin/gcp]; the first and the last
    also state their properties, [DockerConfigProps] the others.

    Load balancers: [AddressManager] is [gce_address_manager.go] over the
    interface of [gce_interfaces.go] and its implementation in
    [gce_addresses.go], with the contracts of both and their proof in
    [AddressManagerProps].  [LoadBalancer] has the services, resources, names and
    annotations ([gce_annotations.go], [gce_loadbalancer_naming.go],
    [gce_util.go]); [GceHosts] the lookups of hosts and tags ([gce_instances.go]);
    [ComputeCalls] every request the code sends, as one type [Call] with the
    class [Compute] that answers it, and the wrappers of the resource files;
    [ClusterId] is [gce_clusterid.go] and [gce_loadbalancer_metrics.go];
    [InternalLb] is [gce_loadbalancer_internal.go]; [Goroutines] has programs of
    calls and their interleavings; [ExternalLb] is
    [gce_loadbalancer_external.go]; [LbDispatch] is [gce_loadbalancer.go].
    [LbLogic] reasons on the trace of the calls a run makes, [LbStore] on the
    tables of the API behind them.  [InternalLbScope] and [InternalLbEnsure] prove
    the internal load balancer, [ExternalLbTrace] and [ExternalLbEnsure] the
    external one, [InstanceGroups] the members of groups and pools and the port
    ranges, [LbDispatchProps] the dispatch, the identifier and the metrics;
    [FakeLb] is a compute API in memory and [FakeLbRuns] applies the theorems to
    runs in it.  [LbSharing] and [LbServing] are about several services: what
    every operation for one leaves of the load balancer of another, against an
    API that refuses to delete what is in use (the class [LbRefs]);
    [LbServingRuns] has such an API and services that share a health check.

    ** How code is modelled

    A Go function is a function on the state it can reach.  Its result is an
    [outcome]: a value, a non-nil error, or a panic (nil dereference, index out
    of range, division by zero, [klog.Fatal]).  Stateful code is in the monad
    [io W A], state to outcome and state; a method of a component runs on the
    pair of the component and the world [W], and [try] is [v, err := f()].
    Clients (API server, listers, event recorder, clock, compute API) are type
    classes on [W]; what a theorem needs of them is a class of laws with a
    concrete instance.  Cryptography, certificate and TPM parsing and SHA-1 are
    classes too.  Errors are identified by their format string or API status:
    formatted arguments are left out, since no code inspects them.
    Integers are [Z] with wrap-around where Go has fixed width; bitmaps are [Z]
    with [Z.testbit], as [big.Int] is.  A mutex makes a method one step; the
    interleavings of workers and handlers are the steps of [RangeSystem.step] and
    [CloudProps.wstep], and those of the goroutines that delete a load balancer
    are the schedules of [Goroutines.par]; between the read lock and the write
    lock of the certificate cache any change of the other goroutines may happen.
    The iteration order of a Go map is
    the class [MapOrder].  Objects a function mutates in place are threaded
    through it (the lister's cache in the annotator, the tags that a firewall
    command sorts), and a shared CIDR set is part of the state of every user.

    ** What the theorems show

    CIDR sets: the bitmap allocates next-fit, occupies and releases exactly the
    blocks a CIDR intersects, on IPv4 and on the three layouts of IPv6, refines
    the abstract pool, and is built as configured.
    Range allocator: no two nodes share addresses as long as no item exhausts
    its patch attempts; what each operation does on every path; what start-up
    reserves; and the executions in which an item that did exhaust its attempts
    is assigned twice, an unknown node keeps its blocks, and a dual-stack
    allocation leaks its first block.
    Legacy controller: a successful sync makes node and alias agree, no operation
    loses a held block, the backoff is bounded, loops of deleted nodes end;
    start-up and handlers keep one open loop per node; the two ways to get stuck.
    Cloud allocator: what it writes is well formed and is what the interface
    says, for every error of every client; annotations name exactly the networks
    later events find; retries are bounded and no node is processed twice at once.
    GNP controller: which parameter sets are accepted, that device-mode sets are
    exclusive, when the finalizer is kept, what the default set collects, and the
    error that is lost.
    Start-up: which flag combinations start node IPAM and the GNP controller, and
    with what; only loops that exist and are enabled are started, each once, and
    every enabled one is when the start succeeds.
    Certificates: an approval implies a validated request and a granted review,
    for nodes with an attested key of a VM of the cluster; the hint never changes
    the answer; only nodes of replaced VMs are deleted; only approved requests
    that were not denied are signed; the approvers of services accept exactly
    their names; and two ways in which a bad attestation is not denied.
    Node annotator: the managed labels follow the instance, what was applied is
    read back, a second run changes nothing, a failed node is tried again, and
    the update that is lost with a modified cache.
    Certificate cache: an endorsement certificate that is verified has a chain to
    the root through an intermediate of the known prefix, and none of the
    revocation lists of its chain, each fetched and signature-checked at most ten
    minutes earlier or now, names it.
    Workload identity: only pairs that the service has granted are remembered,
    published or sent, in every order of events; what a service account event
    does on each answer; how often a node is synchronised.
    Provider: every cloud that is built is well formed; the subnetwork selected is
    the one whose addresses lie in the automatic range; a route is listed as it
    was created; the zones kept are those of the nodes; an instance is reported
    missing only when the API says so; a disk is deleted or was not found, is
    never shrunk, is created only where nodes are, and its labels give its zones
    back.
    Credentials: which token is handed out, in which cases the cache is used, and
    that what is cached, persisted or encoded is read back; a cached docker
    configuration is never older than its lifetime; the registry provider decides
    once the metadata server answers, however long that takes; the copy in the
    provider library agrees with the original.  How a wait for a TPU operation
    ends, and which calls its counters miss.
    Load balancers: the address manager changes no address but its own, and hold
    followed by release restores the store.  An internal load balancer that was
    ensured is established in the tables of the API; its finalizer is attached
    before and removed after everything else; nothing but its own resources is
    touched; its instance groups hold the nodes of their zones.  The address of
    an external one is given up neither while its rule is replaced nor when the
    user owns it; the deletion respects the dependencies in every interleaving
    and leaves nothing; the pool gets the difference in chunks.  Services of
    others are left alone, mixed protocols refused, and the old kind is deleted
    before the new one is created.  An internal load balancer that is established
    stays so, with its address, through every sequence of operations for other
    services, shared resources included, and whatever they return.  Port ranges denote exactly the ports, an
    identifier does not change, the counts are exact, and the zones that are
    ignored when groups are not managed.

    ** Bounds and fuel

    [findCandidate] gets as many turns as the set has blocks, the bound of the
    Go loop.  [listNodes] polls 60 times: ten minutes at ten seconds.
    [parseIPv6] takes at most eight groups.  A number is printed with 20 digits
    of fuel, enough for 64 bits.  The JSON scanner gets twice the length of its
    input and two; [Json.parse_fuel] shows that more does not change the result.
    [TrimSpace] recurs at most once per byte.  [inChunks] gets the length of the
    list, and [InstanceGroups.chunks_trace] shows that all of it is sent.
    Polls have the number of steps of their backoff: ten for the first token of
    the provider, four for a default credential; the time-out of the SSH-key
    update is any number of rounds.  [waitForTPUOp] has no bound in the code
    either; [GceServices.tpu_wait_settles] shows that the fuel beyond the rounds
    that find the operation running does not change the result.  [runWithBackoff] has no bound in the code; its fuel counts
    attempts, and [DockerConfigProps.registry_enabled_decides] shows that any
    fuel beyond the failures ahead gives the answer.  [split_str] and
    [strings_Fields] recur at most once per byte.  The other loops are
    structural.

    ** What is not modelled

    Log lines, metric registration, contexts and timeouts of calls; the
    goroutines of [Run] (the theorems are about the steps they interleave); the
    clock of the delaying queue (a delayed item fires at any later step); the
    generated clients and deep copies (objects are values); fields of API objects
    that no modelled code reads; the lock on shared load balancer resources: the
    operations of two services follow one another, call by call they do not
    interleave, which the lock only guarantees for the shared resources; the order
    in which goroutines append their errors to an aggregate.
    X.509, TPM structures, YAML with JSONPath, RFC 3339 texts and SHA-1 are
    parameters, as are HTTP, files and processes.
    Left out because they decide nothing: the [main] functions (flags are copied
    into a record and a library's command is run), [token_source.go] (one request
    with a decoder of a library), the wrappers of resources that nothing calls
    (URL maps, certificates, target proxies, endpoint groups, security policies),
    and the global, beta and alpha wrappers of the others.
    The theorems on load balancers say what one run does to the tables, and that
    other services keep it; that repeated runs of an external load balancer, or of
    the GNP controller, reach a fixed point is not stated: it depends on how the
    API answers between the runs. *)

From stdpp Require Export base tactics list gmap strings sorting.
From Stdlib Require Export ZArith Lia.

(** ** Machine integers of Go

    Go's [uint32], [uint64], [int] (64 bits) and [byte] are [Z] with the
    wrap-around written out. *)
Declare Scope go_scope.
Delimit Scope go_scope with go.

Local Open Scope Z_scope.

Definition u8 (x : Z) : Z := x mod 2 ^ 8.
Definition u32 (x : Z) : Z := x mod 2 ^ 32.
Definition u64 (x : Z) : Z := x mod 2 ^ 64.
(** Two's complement reading of the low 64 bits. *)
Definition i64 (x : Z) : Z :=
  let y := x mod 2 ^ 64 in if y <? 2 ^ 63 then y else y - 2 ^ 64.

(** [x << k] on an unsigned [w]-bit value: a count of [w] or more gives 0. *)
Definition go_shl (w x k : Z) : Z := if k <? w then Z.shiftl x k mod 2 ^ w else 0.
(** [x >> k] on an unsigned value: a count of [w] or more gives 0. *)
Definition go_shr (w x k : Z) : Z := if k <? w then Z.shiftr x k else 0.
(** [^x] on an unsigned [w]-bit value. *)
Definition go_not (w x : Z) : Z := 2 ^ w - 1 - x.

(** ** Errors and outcomes

    An error is identified by the format string that built it; [fmt.Errorf]
    with the verb [%w] keeps the cause reachable by [errors.As], with [%v] it
    does not.  [ErrSentinel] is a package-level [errors.New] variable, compared
    by identity. *)
Inductive StatusReason : Type :=
| ReasonNotFound | ReasonServerTimeout | ReasonConflict | ReasonTimeout
| ReasonAlreadyExists | ReasonForbidden | ReasonInvalid | ReasonUnknown.

Inductive error : Type :=
| ErrSentinel (msg : string)
| Errorf (fmt : string)
| ErrorfW (fmt : string) (cause : error)
| ErrStatus (reason : StatusReason)
| ErrGoogleAPI (code : Z)
(** an error of the compute API with the reasons it lists *)
| ErrGoogleReasons (code : Z) (reasons : list string)
(** a 400 of the compute API whose message says the resource is being used by another *)
| ErrBeingUsedBy
| ErrAppend (e1 e2 : error).

#[global] Instance StatusReason_eq_dec : EqDecision StatusReason.
Proof. solve_decision. Defined.
#[global] Instance error_eq_dec : EqDecision error.
Proof. solve_decision. Defined.

(** The result of a Go call: a value, a non-nil error, or a run-time panic. *)
Inductive outcome (A : Type) : Type :=
| Ret (a : A)
| Err (e : error)
| Panic.
Arguments Ret {A} a.
Arguments Err {A} e.
Arguments Panic {A}.

#[global] Instance outcome_eq_dec {A} `{!EqDecision A} : EqDecision (outcome A).
Proof. solve_decision. Defined.

#[global] Instance outcome_ret : MRet outcome := @Ret.
#[global] Instance outcome_bind : MBind outcome := λ A B f m,
  match m with Ret a => f a | Err e => Err e | Panic => Panic end.
#[global] Instance outcome_fmap : FMap outcome := λ A B f m,
  match m with Ret a => Ret (f a) | Err e => Err e | Panic => Panic end.

Definition is_ret {A} (o : outcome A) : bool := match o with Ret _ => true | _ => false end.
Definition is_err {A} (o : outcome A) : bool := match o with Err _ => true | _ => false end.

Lemma outcome_bind_ret {A B} (f : A → outcome B) (o : outcome A) b :
  o ≫= f = Ret b ↔ ∃ a, o = Ret a ∧ f a = Ret b.
Proof. destruct o; split; [by eauto|by intros (?&[=->]&?)|..]; naive_solver. Qed.

(** ** Automation *)
Create HintDb ipam.

(** Turn boolean comparisons of integers into propositions. *)
Ltac propify :=
  repeat match goal with
  | H : _ && _ = true |- _ => apply andb_true_iff in H as [??]
  | H : _ || _ = false |- _ => apply orb_false_iff in H as [??]
  | H : negb _ = true |- _ => apply negb_true_iff in H
  | H : negb _ = false |- _ => apply negb_false_iff in H
  | H : bool_decide _ = true |- _ => apply bool_decide_eq_true_1 in H
  | H : bool_decide _ = false |- _ => apply bool_decide_eq_false_1 in H
  | H : (_ <? _) = true |- _ => apply Z.ltb_lt in H
  | H : (_ <? _) = false |- _ => apply Z.ltb_ge in H
  | H : (_ <=? _) = true |- _ => apply Z.leb_le in H
  | H : (_ <=? _) = false |- _ => apply Z.leb_gt in H
  | H : (_ =? _) = true |- _ => apply Z.eqb_eq in H
  | H : (_ =? _) = false |- _ => apply Z.eqb_neq in H
  | H : (_ >=? _) = _ |- _ => rewrite Z.geb_leb in H
  | H : (_ >? _) = _ |- _ => rewrite Z.gtb_ltb in H
  end.

(** Case on every integer comparison of the goal. *)
Ltac zcases :=
  repeat match goal with
  | |- context [?a <? ?b] => destruct (Z.ltb_spec a b)
  | |- context [?a <=? ?b] => destruct (Z.leb_spec a b)
  | |- context [?a =? ?b] => destruct (Z.eqb_spec a b)
  end.

(** A decidable fact, by evaluation of its decision. *)
Ltac by_eval := apply (bool_decide_unpack _); vm_compute; exact I.

(** ** Powers of two *)
Lemma pow2_pos n : 0 <= n → 0 < 2 ^ n.
Proof. intros. apply Z.pow_pos_nonneg; lia. Qed.
#[export] Hint Resolve pow2_pos : ipam.

Lemma pow2_nonneg n : 0 <= 2 ^ n.
Proof. apply Z.pow_nonneg. lia. Qed.
#[export] Hint Resolve pow2_nonneg : ipam.

Lemma u32_small x : 0 <= x < 2 ^ 32 → u32 x = x.
Proof. intros. by apply Z.mod_small. Qed.
Lemma u64_small x : 0 <= x < 2 ^ 64 → u64 x = x.
Proof. intros. by apply Z.mod_small. Qed.
Lemma i64_small x : - 2 ^ 63 <= x < 2 ^ 63 → i64 x = x.
Proof.
  intros [H1 H2]. unfold i64.
  destruct (Z_lt_le_dec x 0).
  - assert (x mod 2 ^ 64 = x + 2 ^ 64) as ->.
    { rewrite <- (Z.mod_small (x + 2 ^ 64) (2 ^ 64)) by lia.
      rewrite <- (Z_mod_plus_full x 1 (2 ^ 64)). f_equal. }
    destruct (Z.ltb_spec (x + 2 ^ 64) (2 ^ 63)); lia.
  - rewrite Z.mod_small by lia. destruct (Z.ltb_spec x (2 ^ 63)); lia.
Qed.

Lemma mod_pow2_testbit x k i :
  0 <= k → Z.testbit (x mod 2 ^ k) i = if i <? k then Z.testbit x i else false.
Proof.
  intros Hk. destruct (Z.ltb_spec i k).
  - destruct (Z_lt_le_dec i 0); [by rewrite !Z.testbit_neg_r|].
    by rewrite Z.mod_pow2_bits_low by lia.
  - by rewrite Z.mod_pow2_bits_high by lia.
Qed.

Lemma testbit_high x k i : 0 <= x < 2 ^ k → 0 <= k → k <= i → Z.testbit x i = false.
Proof.
  intros Hx Hk Hi. rewrite <- (Z.mod_small x (2 ^ k)) by lia.
  by apply Z.mod_pow2_bits_high.
Qed.

(** A non-negative number none of whose bits reaches [k] is below [2 ^ k]. *)
Lemma lt_pow2_of_bits x k :
  0 <= x → 0 <= k → (∀ i, k <= i → Z.testbit x i = false) → x < 2 ^ k.
Proof.
  intros Hx Hk Hb.
  assert (x mod 2 ^ k = x) as <-; [|apply Z.mod_pos_bound; auto with ipam].
  apply Z.bits_inj'. intros i Hi. rewrite mod_pow2_testbit by lia.
  zcases; [done|]. by rewrite Hb.
Qed.

(** Multiples of [2 ^ k] have no low bits. *)
Lemma low_bits_zero x k i :
  0 <= k → x mod 2 ^ k = 0 → i < k → Z.testbit x i = false.
Proof.
  intros Hk Hx Hi. destruct (Z_lt_le_dec i 0); [by apply Z.testbit_neg_r|].
  rewrite <- (Z.mod_pow2_bits_low x k) by lia. by rewrite Hx, Z.testbit_0_l.
Qed.

(** ** Strings *)
Lemma string_length_app s t : String.length (s +:+ t) = (String.length s + String.length t)%nat.
Proof. induction s as [|c s IH]; [done|]. exact (f_equal S IH). Qed.
