(* ===== verification/Bits.v ===== *)
(** * Bits: big-endian byte strings and bit counting

    [encoding/binary]'s big-endian reading and writing of byte slices, the
    bitwise facts that connect a byte slice with the integer it denotes, and
    the number of set bits of a bitmap below a bound (the reading of
    [CidrSet.used] that [CidrSet.allocatedCIDRs] caches). *)

From S2P Require Import Prelude.
Local Open Scope Z_scope.

(** ** Big-endian byte slices *)

Definition byte_ok (b : Z) : Prop := 0 <= b < 256.
Abbreviation bytes_ok l := (Forall byte_ok l).

Fixpoint be_decode (l : list Z) : Z :=
  match l with
  | [] => 0
  | b :: l => b * 2 ^ (8 * Z.of_nat (length l)) + be_decode l
  end.

Fixpoint be_encode (k : nat) (n : Z) : list Z :=
  match k with
  | O => []
  | S k => Z.shiftr n (8 * Z.of_nat k) mod 256 :: be_encode k n
  end.

Lemma be_encode_length k n : length (be_encode k n) = k.
Proof. induction k; simpl; congruence. Qed.

Lemma be_encode_ok k n : bytes_ok (be_encode k n).
Proof. induction k; simpl; constructor; auto. apply Z.mod_pos_bound. lia. Qed.
#[export] Hint Resolve be_encode_length be_encode_ok : ipam.

Lemma be_decode_bound l : bytes_ok l → 0 <= be_decode l < 2 ^ (8 * Z.of_nat (length l)).
Proof.
  induction 1 as [|b l Hb Hl IH]; simpl; [lia|]. unfold byte_ok in Hb.
  replace (8 * Z.of_nat (S (length l))) with (8 + 8 * Z.of_nat (length l)) by lia.
  rewrite Z.pow_add_r by lia. change (2 ^ 8) with 256. nia.
Qed.

Lemma be_decode_testbit b l i :
  byte_ok b → bytes_ok l →
  Z.testbit (be_decode (b :: l)) i =
    if i <? 8 * Z.of_nat (length l) then Z.testbit (be_decode l) i
    else Z.testbit b (i - 8 * Z.of_nat (length l)).
Proof.
  intros Hb Hl. pose proof (be_decode_bound l Hl) as Hd. simpl be_decode.
  set (k := 8 * Z.of_nat (length l)) in *.
  destruct (Z_lt_le_dec i 0).
  { rewrite (Z.testbit_neg_r _ i) by lia.
    destruct (Z.ltb_spec i k); [by rewrite Z.testbit_neg_r|lia]. }
  destruct (Z.ltb_spec i k).
  - rewrite <- (Z.mod_pow2_bits_low _ k) by lia.
    rewrite Z.add_comm, Z_mod_plus_full, Z.mod_small by lia. done.
  - replace i with ((i - k) + k) at 1 by lia.
    rewrite <- Z.shiftr_spec by lia. rewrite Z.shiftr_div_pow2 by lia.
    rewrite Z.div_add_l by (apply Z.pow_nonzero; lia).
    rewrite (Z.div_small (be_decode l)) by lia. f_equal. lia.
Qed.

Lemma byte_high b i : byte_ok b → 8 <= i → Z.testbit b i = false.
Proof. intros Hb Hi. apply (testbit_high b 8); [exact Hb|lia..]. Qed.

(** Bytewise [&] is [&] of the integers denoted. *)
Lemma be_decode_land l1 l2 :
  bytes_ok l1 → bytes_ok l2 → length l1 = length l2 →
  bytes_ok (zip_with Z.land l1 l2) ∧
  be_decode (zip_with Z.land l1 l2) = Z.land (be_decode l1) (be_decode l2).
Proof.
  intros H1. revert l2. induction H1 as [|a l1 Ha Hl1 IH]; intros [|b l2] H2 Hlen;
    simplify_eq/=; [done|]. inversion H2 as [|?? Hb Hl2]; subst.
  destruct (IH l2 Hl2 ltac:(lia)) as [IHok IHeq].
  assert (Hab : byte_ok (Z.land a b)).
  { unfold byte_ok in *. split; [apply Z.land_nonneg; lia|].
    apply (lt_pow2_of_bits _ 8); [apply Z.land_nonneg; lia|lia|].
    intros i Hi. by rewrite Z.land_spec, (byte_high a) by done. }
  split; [by constructor|].
  apply Z.bits_inj'. intros i Hi.
  change (be_decode (?x :: ?y)) with (be_decode (x :: y)).
  rewrite Z.land_spec.
  change (a * 2 ^ (8 * Z.of_nat (length l1)) + be_decode l1) with (be_decode (a :: l1)).
  change (b * 2 ^ (8 * Z.of_nat (length l2)) + be_decode l2) with (be_decode (b :: l2)).
  change (_ * _ + be_decode (zip_with Z.land l1 l2))
    with (be_decode (Z.land a b :: zip_with Z.land l1 l2)).
  rewrite !be_decode_testbit by done. rewrite length_zip_with, IHeq.
  replace (length l1 `min` length l2)%nat with (length l1) by lia.
  replace (length l2) with (length l1) by lia.
  zcases; by rewrite Z.land_spec.
Qed.

Lemma be_decode_app l1 l2 :
  be_decode (l1 ++ l2) = be_decode l1 * 2 ^ (8 * Z.of_nat (length l2)) + be_decode l2.
Proof.
  induction l1 as [|b l1 IH]; simpl; [lia|]. rewrite IH, length_app, Nat2Z.inj_add.
  rewrite Z.mul_add_distr_l, Z.pow_add_r by lia. ring.
Qed.

Lemma be_decode_encode k n : be_decode (be_encode k n) = n mod 2 ^ (8 * Z.of_nat k).
Proof.
  induction k as [|k IH]; [simpl; by rewrite Z.mod_1_r|].
  change (be_encode (S k) n) with (Z.shiftr n (8 * Z.of_nat k) mod 256 :: be_encode k n).
  apply Z.bits_inj'. intros i Hi.
  rewrite be_decode_testbit; [|apply Z.mod_pos_bound; lia|auto with ipam].
  rewrite be_encode_length, IH, !mod_pow2_testbit by lia.
  change 256 with (2 ^ 8). rewrite mod_pow2_testbit by lia.
  zcases; try lia; try done.
  rewrite Z.shiftr_spec by lia. f_equal. lia.
Qed.

Lemma be_decode_inj l1 l2 :
  bytes_ok l1 → bytes_ok l2 → length l1 = length l2 → be_decode l1 = be_decode l2 → l1 = l2.
Proof.
  intros H1. revert l2. induction H1 as [|a l1 Ha Hl1 IH]; intros [|b l2] H2 Hlen Heq;
    simplify_eq/=; [done|]. inversion H2 as [|?? Hb Hl2]; subst.
  pose proof (be_decode_bound l1 Hl1) as B1. pose proof (be_decode_bound l2 Hl2) as B2.
  rewrite <- Hlen in Heq, B2.
  set (p := 2 ^ (8 * Z.of_nat (length l1))) in *.
  assert (a = b) as -> by (destruct (Z.lt_trichotomy a b) as [?|[?|?]]; [nia|done|nia]).
  f_equal. apply IH; [done|done|lia].
Qed.

Lemma be_encode_decode l : bytes_ok l → be_encode (length l) (be_decode l) = l.
Proof.
  intros Hl. apply be_decode_inj; [auto with ipam|done|by rewrite be_encode_length|].
  rewrite be_decode_encode. apply Z.mod_small. by apply be_decode_bound.
Qed.

(** ** Counting set bits below a bound *)

Fixpoint bits_count (n : nat) (z : Z) : Z :=
  match n with
  | O => 0
  | S n => bits_count n z + (if Z.testbit z (Z.of_nat n) then 1 else 0)
  end.

Lemma bits_count_bound n z : 0 <= bits_count n z <= Z.of_nat n.
Proof. induction n; simpl bits_count; [lia|]. destruct (Z.testbit z _); lia. Qed.

Lemma bits_count_ext n x y :
  (∀ i, 0 <= i < Z.of_nat n → Z.testbit x i = Z.testbit y i) → bits_count n x = bits_count n y.
Proof.
  induction n as [|n IH]; intros Hxy; simpl; [done|].
  rewrite IH, Hxy by (intros; try apply Hxy; lia). done.
Qed.

Lemma bits_count_0 n : bits_count n 0 = 0.
Proof. induction n; simpl bits_count; [done|]. rewrite Z.testbit_0_l. lia. Qed.

Lemma bits_count_setbit n z i :
  0 <= i < Z.of_nat n → Z.testbit z i = false →
  bits_count n (Z.setbit z i) = bits_count n z + 1.
Proof.
  induction n as [|n IH]; intros Hi Hz; [lia|]. simpl bits_count.
  destruct (decide (i = Z.of_nat n)) as [->|].
  - rewrite Z.setbit_eq, Hz by lia.
    rewrite (bits_count_ext n _ z); [lia|]. intros j Hj. by rewrite Z.setbit_neq by lia.
  - rewrite IH, Z.setbit_neq by (done || lia). lia.
Qed.

Lemma bits_count_clearbit n z i :
  0 <= i < Z.of_nat n → Z.testbit z i = true →
  bits_count n (Z.clearbit z i) = bits_count n z - 1.
Proof.
  induction n as [|n IH]; intros Hi Hz; [lia|]. simpl bits_count.
  destruct (decide (i = Z.of_nat n)) as [->|].
  - rewrite Z.clearbit_eq, Hz.
    rewrite (bits_count_ext n _ z); [lia|]. intros j Hj. by rewrite Z.clearbit_neq by lia.
  - rewrite IH, Z.clearbit_neq by (done || lia). lia.
Qed.

(** A count below the bound leaves a clear bit. *)
Lemma bits_count_free n z :
  bits_count n z < Z.of_nat n → ∃ i, 0 <= i < Z.of_nat n ∧ Z.testbit z i = false.
Proof.
  induction n as [|n IH]; simpl bits_count; [lia|].
  destruct (Z.testbit z (Z.of_nat n)) eqn:Hz; intros Hlt.
  - destruct IH as (i & Hi & Hb); [lia|]. exists i. split; [lia|done].
  - exists (Z.of_nat n). split; [lia|done].
Qed.

Lemma bits_count_full n z :
  bits_count n z = Z.of_nat n → ∀ i, 0 <= i < Z.of_nat n → Z.testbit z i = true.
Proof.
  induction n as [|n IH]; simpl bits_count; [lia|].
  pose proof (bits_count_bound n z).
  destruct (Z.testbit z (Z.of_nat n)) eqn:Hz; intros Heq i Hi; [|lia].
  destruct (decide (i = Z.of_nat n)) as [->|]; [done|]. apply IH; lia.
Qed.

(** Bit updates keep a bitmap inside its width. *)
Lemma setbit_bound z i n : 0 <= z < 2 ^ n → 0 <= i < n → 0 <= Z.setbit z i < 2 ^ n.
Proof.
  intros Hz Hi. assert (0 <= Z.setbit z i).
  { rewrite Z.setbit_spec'. apply Z.lor_nonneg. split; [lia|apply pow2_nonneg]. }
  split; [done|]. apply lt_pow2_of_bits; [done|lia|]. intros j Hj.
  rewrite Z.setbit_neq by lia. apply (testbit_high z n); lia.
Qed.

Lemma clearbit_bound z i n : 0 <= z < 2 ^ n → 0 <= n → 0 <= i → 0 <= Z.clearbit z i < 2 ^ n.
Proof.
  intros Hz Hn Hi. assert (0 <= Z.clearbit z i).
  { rewrite Z.clearbit_spec'. apply Z.ldiff_nonneg. lia. }
  split; [done|]. apply lt_pow2_of_bits; [done|lia|]. intros j Hj.
  rewrite Z.clearbit_eqb. rewrite (testbit_high z n) by lia. done.
Qed.

(** ** Prefix arithmetic: a number whose low bits are clear *)

(** Adding an offset below the alignment is a bitwise or. *)
Lemma lor_add x y k : 0 <= k → x mod 2 ^ k = 0 → 0 <= y < 2 ^ k → Z.lor x y = x + y.
Proof.
  intros Hk Hx Hy.
  assert (Hd : Z.land x y = 0).
  { apply Z.bits_inj'. intros i Hi. rewrite Z.land_spec, Z.bits_0.
    destruct (Z_lt_le_dec i k).
    - by rewrite (low_bits_zero x k) by lia.
    - rewrite (testbit_high y k) by lia. apply andb_false_r. }
  by rewrite Z.add_nocarry_lxor, Z.lxor_lor.
Qed.

(** Two aligned numbers that agree above the alignment differ, xored, by the offset. *)
Lemma lxor_offset x y k :
  0 <= k → x mod 2 ^ k = 0 → 0 <= y < 2 ^ k → Z.lxor x (x + y) = y.
Proof.
  intros Hk Hx Hy. rewrite <- (lor_add x y k) by done.
  apply Z.bits_inj'. intros i Hi. rewrite Z.lxor_spec, Z.lor_spec.
  destruct (Z_lt_le_dec i k).
  - rewrite (low_bits_zero x k) by lia. by destruct (Z.testbit y i).
  - rewrite (testbit_high y k) by lia. by destruct (Z.testbit x i).
Qed.

(** Masking with a prefix mask of [n] one bits above [w - n] zero bits. *)
Lemma land_prefix_mask x w n :
  0 <= n <= w → 0 <= x < 2 ^ w →
  Z.land x (2 ^ w - 2 ^ (w - n)) = x - x mod 2 ^ (w - n).
Proof.
  intros Hn Hx. set (k := w - n).
  assert (Hm : 2 ^ w - 2 ^ k = Z.shiftl (Z.ones n) k).
  { rewrite Z.shiftl_mul_pow2, Z.ones_equiv by lia.
    replace w with (n + k) by lia. rewrite Z.pow_add_r by lia. lia. }
  assert (Hd : x - x mod 2 ^ k = Z.shiftl (Z.shiftr x k) k).
  { rewrite Z.shiftl_mul_pow2, Z.shiftr_div_pow2 by lia.
    pose proof (Z.div_mod x (2 ^ k) ltac:(apply Z.pow_nonzero; lia)). lia. }
  rewrite Hm, Hd. apply Z.bits_inj'. intros i Hi.
  rewrite Z.land_spec, !Z.shiftl_spec by lia.
  destruct (Z_lt_le_dec i k).
  { rewrite !(Z.testbit_neg_r _ (i - k)) by lia. apply andb_false_r. }
  rewrite Z.shiftr_spec by lia. replace (i - k + k) with i by lia.
  destruct (Z_lt_le_dec i w).
  - rewrite Z.ones_spec_low by lia. apply andb_true_r.
  - rewrite (testbit_high x w) by lia. done.
Qed.
