(* ===== verification/GoNet.v ===== *)
(** * GoNet: the part of Go's package [net] the IPAM code calls

    An [IP] and an [IPMask] are byte slices (a nil slice is the empty list), an
    [IPNet] is a pair of them.  The definitions follow the standard library's
    [net/ip.go] ([IP.To4], [IP.To16], [IP.Mask], [IPMask.Size], [CIDRMask],
    [IPNet.Contains]) and [encoding/binary]'s big-endian accessors.  The
    lemmas read them on the integers the slices denote: a network of width [w]
    and prefix length [k] is the set of addresses that share its top [k] bits. *)

From S2P Require Import Prelude Bits.
Local Open Scope Z_scope.

Definition IPv4len : nat := 4.
Definition IPv6len : nat := 16.

Record IPNet : Type := mkIPNet { net_IP : list Z; net_Mask : list Z }.

#[global] Instance IPNet_eq_dec : EqDecision IPNet.
Proof. solve_decision. Defined.

(** ** [encoding/binary] *)
Definition BE_Uint32 (b : list Z) : outcome Z :=
  if (length b <? 4)%nat then Panic else Ret (be_decode (take 4 b)).
Definition BE_Uint64 (b : list Z) : outcome Z :=
  if (length b <? 8)%nat then Panic else Ret (be_decode (take 8 b)).

(** ** Addresses *)
Definition v4InV6Prefix : list Z := [0;0;0;0;0;0;0;0;0;0;255;255].

Definition To4 (ip : list Z) : option (list Z) :=
  if decide (length ip = IPv4len) then Some ip
  else if decide (length ip = IPv6len ∧ take 12 ip = v4InV6Prefix) then Some (drop 12 ip)
  else None.

Definition To16 (ip : list Z) : option (list Z) :=
  if decide (length ip = IPv4len) then Some (v4InV6Prefix ++ ip)
  else if decide (length ip = IPv6len) then Some ip
  else None.

Definition allFF (b : list Z) : bool := forallb (Z.eqb 255) b.

Definition IP_Mask (ip mask : list Z) : list Z :=
  let mask' :=
    if decide (length mask = IPv6len ∧ length ip = IPv4len ∧ allFF (take 12 mask) = true)
    then drop 12 mask else mask in
  let ip' :=
    if decide (length mask' = IPv4len ∧ length ip = IPv6len ∧ take 12 ip = v4InV6Prefix)
    then drop 12 ip else ip in
  if decide (length ip' = length mask') then zip_with Z.land ip' mask' else [].

(** ** Masks *)
Fixpoint CIDRMask_bytes (l : nat) (n : Z) : list Z :=
  match l with
  | O => []
  | S l => if 8 <=? n then 255 :: CIDRMask_bytes l (n - 8)
           else go_not 8 (Z.shiftr 255 n) :: CIDRMask_bytes l 0
  end.

Definition CIDRMask (ones bits : Z) : list Z :=
  if negb (bits =? 32) && negb (bits =? 128) then []
  else if (ones <? 0) || (bits <? ones) then []
  else CIDRMask_bytes (Z.to_nat (bits / 8)) ones.

(** Leading one bits of a byte and what is left after shifting them out. *)
Fixpoint lead_ones (fuel : nat) (v : Z) : Z * Z :=
  match fuel with
  | O => (0, v)
  | S fuel => if negb (Z.land v 128 =? 0)
              then let '(n, r) := lead_ones fuel (u8 (Z.shiftl v 1)) in (n + 1, r)
              else (0, v)
  end.

Fixpoint simpleMaskLength (mask : list Z) : Z :=
  match mask with
  | [] => 0
  | v :: rest =>
      if v =? 255 then (let r := simpleMaskLength rest in if r =? -1 then -1 else 8 + r)
      else let '(n, r) := lead_ones 8 v in
           if negb (r =? 0) then -1
           else if forallb (Z.eqb 0) rest then n else -1
  end.

Definition IPMask_Size (m : list Z) : Z * Z :=
  let ones := simpleMaskLength m in
  if ones =? -1 then (0, 0) else (ones, Z.of_nat (length m) * 8).

(** ** Networks *)
Definition networkNumberAndMask (n : IPNet) : option (list Z * list Z) :=
  let ip := default (net_IP n) (To4 (net_IP n)) in
  let m := net_Mask n in
  if decide (length ip ≠ IPv4len ∧ length ip ≠ IPv6len) then None
  else if decide (length m = IPv4len) then
    if decide (length ip = IPv4len) then Some (ip, m) else None
  else if decide (length m = IPv6len) then
    Some (ip, if decide (length ip = IPv4len) then drop 12 m else m)
  else None.

Definition IPNet_Contains (n : IPNet) (ip : list Z) : bool :=
  let '(nn, m) := default ([], []) (networkNumberAndMask n) in
  let ip := default ip (To4 ip) in
  if decide (length ip = length nn)
  then bool_decide (zip_with Z.land nn m = zip_with Z.land ip m)
  else false.

(** ** Reading networks as prefixes of integers *)

(** The two address widths. *)
Definition width_ok (w : Z) : Prop := w = 32 ∨ w = 128.
Abbreviation bytes_of w := (Z.to_nat (w / 8)).

(** An address of width [w] held by a slice of its own length, a 128-bit one
    not being an IPv4-mapped one. *)
Record addr_wf (w : Z) (ip : list Z) : Prop := {
  aw_len : length ip = bytes_of w;
  aw_ok : bytes_ok ip;
  aw_plain : w = 128 → be_decode ip / 2 ^ 32 ≠ 65535
}.

(** A network as [net.ParseCIDR] makes it: aligned address, canonical mask. *)
Record net_wf (w k : Z) (n : IPNet) : Prop := {
  nw_w : width_ok w;
  nw_k : 0 <= k <= w;
  nw_addr : addr_wf w (net_IP n);
  nw_aligned : be_decode (net_IP n) mod 2 ^ (w - k) = 0;
  nw_mask : net_Mask n = CIDRMask k w
}.

(** [x] and [y] agree on the bits above [w - k]. *)
Definition same_prefix (w k x y : Z) : Prop := x / 2 ^ (w - k) = y / 2 ^ (w - k).

Lemma width_bytes w : width_ok w → 8 * Z.of_nat (bytes_of w) = w.
Proof. by intros [-> | ->]. Qed.

Lemma addr_bound w ip : width_ok w → addr_wf w ip → 0 <= be_decode ip < 2 ^ w.
Proof.
  intros Hw [Hl Hok _]. pose proof (be_decode_bound ip Hok) as H.
  by rewrite Hl, width_bytes in H.
Qed.

Lemma forall_range (P : Z → bool) (n : nat) :
  forallb P (seqZ 0 (Z.of_nat n)) = true → ∀ k, 0 <= k < Z.of_nat n → P k = true.
Proof.
  intros H k Hk. rewrite forallb_forall in H. apply H.
  apply list_elem_of_In, elem_of_seqZ. lia.
Qed.

(** The facts about a canonical mask, checked for every prefix length. *)
Definition mask_check (w k : Z) : bool :=
  bool_decide (length (CIDRMask k w) = bytes_of w) &&
  forallb (λ b, (0 <=? b) && (b <? 256)) (CIDRMask k w) &&
  (be_decode (CIDRMask k w) =? 2 ^ w - 2 ^ (w - k)) &&
  bool_decide (IPMask_Size (CIDRMask k w) = (k, w)).

Lemma mask_check_true w k : width_ok w → 0 <= k <= w → mask_check w k = true.
Proof.
  intros [-> | ->] Hk.
  - apply (forall_range (mask_check 32) 33); [by vm_compute|lia].
  - apply (forall_range (mask_check 128) 129); [by vm_compute|lia].
Qed.

Lemma CIDRMask_spec w k :
  width_ok w → 0 <= k <= w →
  length (CIDRMask k w) = bytes_of w ∧ bytes_ok (CIDRMask k w) ∧
  be_decode (CIDRMask k w) = 2 ^ w - 2 ^ (w - k) ∧ IPMask_Size (CIDRMask k w) = (k, w).
Proof.
  intros Hw Hk. pose proof (mask_check_true w k Hw Hk) as H. unfold mask_check in H.
  apply andb_true_iff in H as [H H4]. apply andb_true_iff in H as [H H3].
  apply andb_true_iff in H as [H1 H2].
  apply bool_decide_eq_true_1 in H1, H4. apply Z.eqb_eq in H3. repeat split; [done| |done|done].
  apply Forall_forall. intros b Hb. rewrite forallb_forall in H2.
  specialize (H2 b ltac:(by apply list_elem_of_In)). propify. unfold byte_ok. lia.
Qed.

Lemma To4_v4 ip : addr_wf 32 ip → To4 ip = Some ip.
Proof. intros [Hl _ _]. unfold To4. by rewrite decide_True. Qed.

Lemma To4_v6 ip : length ip = IPv6len → bytes_ok ip →
  (To4 ip = None ↔ be_decode ip / 2 ^ 32 ≠ 65535).
Proof.
  intros Hl Hok. unfold To4. rewrite decide_False by (rewrite Hl; done).
  assert (Hq : be_decode ip / 2 ^ 32 = be_decode (take 12 ip)).
  { rewrite <- (take_drop 12 ip) at 1. rewrite be_decode_app, length_drop, Hl.
    change (8 * Z.of_nat (IPv6len - 12)) with 32.
    rewrite Z.div_add_l by lia.
    pose proof (be_decode_bound (drop 12 ip) ltac:(by apply Forall_drop)) as Hb.
    rewrite length_drop, Hl in Hb. change (8 * Z.of_nat (IPv6len - 12)) with 32 in Hb.
    rewrite (Z.div_small _ _ Hb). lia. }
  rewrite Hq. change 65535 with (be_decode v4InV6Prefix).
  case_decide as Hd; split; try done.
  - destruct Hd as [_ Hd]. by rewrite Hd.
  - intros _ Heq. apply Hd. split; [done|].
    apply be_decode_inj; [by apply Forall_take| |by rewrite length_take, Hl|done].
    unfold v4InV6Prefix, byte_ok. repeat constructor; lia.
Qed.

(** [To4] tells the two families apart on well-formed addresses. *)
Lemma To4_wf w ip : width_ok w → addr_wf w ip → To4 ip = if w =? 32 then Some ip else None.
Proof.
  intros [-> | ->] Hip; [by apply To4_v4|]. apply To4_v6; destruct Hip; auto.
Qed.

Lemma To16_wf w ip : width_ok w → addr_wf w ip → is_Some (To16 ip).
Proof.
  intros [-> | ->] [Hl _ _]; unfold To16.
  - rewrite decide_True by done. eauto.
  - rewrite decide_False by (rewrite Hl; done). rewrite decide_True by done. eauto.
Qed.

Lemma IP_Mask_same ip m : length ip = length m → IP_Mask ip m = zip_with Z.land ip m.
Proof.
  intros Hl. unfold IP_Mask, IPv4len, IPv6len.
  rewrite (decide_False (P := length m = 16%nat ∧ _)) by (intros (?&?&_); lia).
  rewrite (decide_False (P := length m = 4%nat ∧ _)) by (intros (?&?&_); lia).
  by rewrite decide_True.
Qed.

(** [IP.Mask] with a canonical mask of the same width clears the host bits. *)
Lemma IP_Mask_spec w k ip :
  width_ok w → 0 <= k <= w → addr_wf w ip →
  addr_wf w (IP_Mask ip (CIDRMask k w)) ∧
  be_decode (IP_Mask ip (CIDRMask k w)) = be_decode ip - be_decode ip mod 2 ^ (w - k).
Proof.
  intros Hw Hk Hip. destruct (CIDRMask_spec w k Hw Hk) as (Hml & Hmok & Hmd & _).
  pose proof (addr_bound w ip Hw Hip) as Hb. destruct Hip as [Hl Hok Hp].
  rewrite IP_Mask_same by congruence.
  destruct (be_decode_land ip (CIDRMask k w)) as [Hzok Hzd]; [done|done|congruence|].
  rewrite Hmd, land_prefix_mask in Hzd by done.
  split; [|done]. split; [|done|].
  - rewrite length_zip_with. lia.
  - intros ->. specialize (Hp eq_refl). rewrite Hzd.
    set (x := be_decode ip) in *. pose proof (pow2_pos (128 - k) ltac:(lia)).
    pose proof (Z.div_mod x (2 ^ (128 - k)) ltac:(lia)) as Hdm.
    destruct (Z_lt_le_dec (128 - k) 33).
    + replace 32 with ((128 - k) + (32 - (128 - k))) by lia.
      replace 32 with ((128 - k) + (32 - (128 - k))) in Hp by lia.
      rewrite Z.pow_add_r, <- Z.div_div in * by (lia || apply Z.pow_nonzero; lia).
      replace (x - x mod 2 ^ (128 - k)) with (x / 2 ^ (128 - k) * 2 ^ (128 - k)) by lia.
      rewrite Z.div_mul by lia. done.
    + replace (x - x mod 2 ^ (128 - k)) with (x / 2 ^ (128 - k) * 2 ^ (95 - k) * 2 * 2 ^ 32).
      * rewrite Z.div_mul by lia. intros Hodd.
        assert (65535 mod 2 = 0) as [=]. rewrite <- Hodd. apply Z_mod_mult.
      * assert (2 ^ (128 - k) = 2 ^ (95 - k) * 2 * 2 ^ 32) as E; [|lia].
        replace (128 - k) with ((95 - k) + 1 + 32) by lia. by rewrite !Z.pow_add_r by lia.
Qed.

Lemma sub_mod_div x y p : 0 < p → x - x mod p = y - y mod p ↔ x / p = y / p.
Proof.
  intros Hp. pose proof (Z.div_mod x p ltac:(lia)). pose proof (Z.div_mod y p ltac:(lia)).
  split; intros E; nia.
Qed.

Lemma networkNumberAndMask_wf w k n :
  net_wf w k n → networkNumberAndMask n = Some (net_IP n, net_Mask n).
Proof.
  intros [Hw Hk Ha _ Hm]. unfold networkNumberAndMask.
  rewrite (To4_wf w) by done.
  replace (default (net_IP n) (if w =? 32 then Some (net_IP n) else None)) with (net_IP n)
    by (by destruct (w =? 32)).
  destruct (CIDRMask_spec w k Hw Hk) as (Hml & _). rewrite Hm.
  destruct Ha as [Hl _ _].
  destruct Hw as [-> | ->]; change (bytes_of 32) with 4%nat in *; change (bytes_of 128) with 16%nat in *;
    unfold IPv4len, IPv6len; rewrite Hl, Hml; simpl; done.
Qed.

Lemma IPNet_Contains_spec w k n ip :
  net_wf w k n → addr_wf w ip →
  IPNet_Contains n ip = true ↔ same_prefix w k (be_decode (net_IP n)) (be_decode ip).
Proof.
  intros Hn Hip. pose proof (networkNumberAndMask_wf w k n Hn) as Hnm.
  destruct Hn as [Hw Hk Ha _ Hm]. unfold IPNet_Contains. rewrite Hnm, (To4_wf w) by done. simpl.
  replace (default ip (if w =? 32 then Some ip else None)) with ip by (by destruct (w =? 32)).
  destruct (CIDRMask_spec w k Hw Hk) as (Hml & _). rewrite Hm.
  pose proof (aw_len _ _ Ha). pose proof (aw_len _ _ Hip).
  rewrite decide_True by congruence. rewrite bool_decide_eq_true.
  rewrite <- !IP_Mask_same by congruence.
  destruct (IP_Mask_spec w k (net_IP n)) as [W1 D1]; [done..|].
  destruct (IP_Mask_spec w k ip) as [W2 D2]; [done..|].
  unfold same_prefix. rewrite <- sub_mod_div, <- D1, <- D2 by (apply pow2_pos; lia).
  split; [congruence|]. intros E.
  apply be_decode_inj; [apply W1|apply W2|rewrite (aw_len _ _ W1), (aw_len _ _ W2); done|done].
Qed.

Lemma IPNet_Contains_family w w' k n ip :
  net_wf w k n → width_ok w' → addr_wf w' ip → w ≠ w' → IPNet_Contains n ip = false.
Proof.
  intros Hn Hw' Hip Hne. unfold IPNet_Contains.
  rewrite (networkNumberAndMask_wf w k n Hn), (To4_wf w') by done. simpl.
  replace (default ip (if w' =? 32 then Some ip else None)) with ip by (by destruct (w' =? 32)).
  destruct Hn as [Hw _ [Hl _ _] _ _]. destruct Hip as [Hl' _ _].
  rewrite decide_False; [done|]. rewrite Hl, Hl'. intros E. apply Hne.
  rewrite <- (width_bytes w Hw), <- (width_bytes w' Hw'). lia.
Qed.

(** Masking an address of the other family leaves nothing the network holds. *)
Lemma IPNet_Contains_masked_family w w' k n ip :
  net_wf w k n → width_ok w' → addr_wf w' ip → w ≠ w' →
  IPNet_Contains n (IP_Mask ip (net_Mask n)) = false.
Proof.
  intros Hn Hw' Hip Hne. pose proof (networkNumberAndMask_wf w k n Hn) as E.
  destruct Hn as [Hw Hk [Hl _ _] _ Hm]. destruct (CIDRMask_spec w k Hw Hk) as (Hml & _).
  pose proof (To4_wf w' ip Hw' Hip) as E4. destruct Hip as [Hl' Hok Hp].
  unfold IPNet_Contains. rewrite E. simpl. rewrite Hm in *.
  assert (Hlen : length (IP_Mask ip (CIDRMask k w)) = 0%nat ∨ (w = 128 ∧ length (IP_Mask ip (CIDRMask k w)) = IPv4len)).
  { unfold IP_Mask. destruct Hw as [-> | ->], Hw' as [-> | ->]; try done;
      change (bytes_of 32) with 4%nat in *; change (bytes_of 128) with 16%nat in *.
    - left. rewrite (decide_False (P := length (CIDRMask k 32) = IPv6len ∧ _)) by (rewrite Hml; intros [[=] _]).
      rewrite (decide_False (P := length (CIDRMask k 32) = IPv4len ∧ _)).
      { by rewrite decide_False by (rewrite Hl', Hml; done). }
      intros (_ & _ & Ht). unfold To4 in E4. rewrite decide_False in E4 by (rewrite Hl'; done).
      rewrite decide_True in E4 by done. done.
    - repeat case_decide; rewrite ?length_zip_with, ?length_drop, ?Hl', ?Hml in *; naive_solver. }
  destruct Hlen as [H0 | [-> H4]].
  - apply nil_length_inv in H0. rewrite H0. simpl. rewrite decide_False; [done|].
    rewrite Hl. by destruct Hw as [-> | ->].
  - unfold To4. rewrite (decide_True (P := length (IP_Mask ip _) = IPv4len)) by done. simpl.
    rewrite decide_False; [done|]. rewrite H4, Hl. done.
Qed.

(** The address of a block: [n] aligned above [w - k], truncated to width [w]. *)
Lemma encode_addr_wf w x :
  width_ok w → 0 <= x < 2 ^ w → (w = 128 → x / 2 ^ 32 ≠ 65535) →
  addr_wf w (be_encode (bytes_of w) x) ∧ be_decode (be_encode (bytes_of w) x) = x.
Proof.
  intros Hw Hx Hp.
  assert (be_decode (be_encode (bytes_of w) x) = x) as E.
  { rewrite be_decode_encode, width_bytes by done. by apply Z.mod_small. }
  split; [|done]. split; [auto with ipam..|]. by rewrite E.
Qed.
