(* ===== verification/GoNetText.v ===== *)
(** * GoNetText: textual CIDRs

    [net.ParseCIDR] and [IPNet.String] of Go 1.22 ([net/ip.go] on top of
    [net/netip]): dotted IPv4, IPv6 with [::] and an embedded IPv4 tail, and
    the canonical printing that compresses the first longest run of zero
    groups.  Node objects carry their pod CIDRs as such strings, so the
    round trip [ParseCIDR (IPNet_String n) = n] is what makes a CIDR that was
    allocated, written to a node and read back the same network. *)

From S2P Require Import Prelude Bits GoNet.
Local Open Scope Z_scope.

(** ** Characters and splitting *)
Abbreviation chr n := (Ascii.ascii_of_N n).
Definition code (c : Ascii.ascii) : Z := Z.of_N (Ascii.N_of_ascii c).
Definition dot : Ascii.ascii := chr 46.
Definition colon : Ascii.ascii := chr 58.
Definition slash : Ascii.ascii := chr 47.
Definition percent : Ascii.ascii := chr 37.

Fixpoint has_char (c : Ascii.ascii) (s : string) : bool :=
  match s with
  | EmptyString => false
  | String d s => bool_decide (d = c) || has_char c s
  end.

(** [strings.Split(s, c)] for a one-character separator. *)
Fixpoint split_on (c : Ascii.ascii) (s : string) : list string :=
  match s with
  | EmptyString => [EmptyString]
  | String d s =>
      if decide (d = c) then EmptyString :: split_on c s
      else match split_on c s with
           | w :: ws => String d w :: ws
           | [] => [String d EmptyString]
           end
  end.

(** The parts before and after the first [c]. *)
Fixpoint cut_on (c : Ascii.ascii) (s : string) : option (string * string) :=
  match s with
  | EmptyString => None
  | String d s =>
      if decide (d = c) then Some (EmptyString, s)
      else '(a, b) ← cut_on c s; Some (String d a, b)
  end.

Fixpoint join_with (sep : string) (l : list string) : string :=
  match l with
  | [] => EmptyString
  | [s] => s
  | s :: l => (s +:+ sep +:+ join_with sep l)%string
  end.

(** ** Decimal numbers *)
Definition digit (c : Ascii.ascii) : option Z :=
  if (48 <=? code c) && (code c <=? 57) then Some (code c - 48) else None.

(** The value of a string of decimal digits; [None] on any other character. *)
Fixpoint dec_value (s : string) (acc : Z) : option Z :=
  match s with
  | EmptyString => Some acc
  | String c s => d ← digit c; dec_value s (acc * 10 + d)
  end.

Definition digit_char (d : Z) : Ascii.ascii := chr (Z.to_N (48 + d)).

Fixpoint utoa_fuel (fuel : nat) (n : Z) : string :=
  match fuel with
  | O => EmptyString
  | S fuel =>
      let last := String (digit_char (n mod 10)) EmptyString in
      if n <? 10 then last else (utoa_fuel fuel (n / 10) +:+ last)%string
  end.
(** [itoa.Uitoa] on a 64-bit unsigned value has at most 20 digits. *)
Definition Uitoa (n : Z) : string := utoa_fuel 20 n.

(** ** IPv4 *)
Definition parse_octet (s : string) : option Z :=
  match s with
  | EmptyString => None
  | String c s' =>
      if decide (c = chr 48 ∧ s' ≠ EmptyString) then None
      else v ← dec_value s 0; if v <=? 255 then Some v else None
  end.

Definition parseIPv4Fields (s : string) : option (list Z) :=
  match split_on dot s with
  | [a; b; c; d] =>
      x ← parse_octet a; y ← parse_octet b; z ← parse_octet c; t ← parse_octet d;
      Some [x; y; z; t]
  | _ => None
  end.

Definition v4_string (ip : list Z) : string := join_with "." (map Uitoa ip).

(** ** IPv6 *)
Definition hex_digit (c : Ascii.ascii) : option Z :=
  let n := code c in
  if (48 <=? n) && (n <=? 57) then Some (n - 48)
  else if (97 <=? n) && (n <=? 102) then Some (n - 97 + 10)
  else if (65 <=? n) && (n <=? 70) then Some (n - 65 + 10)
  else None.

(** The hexadecimal number at the head of [s]: digits read, value, rest.
    [None] when the group has more than four digits. *)
Fixpoint scan_hex (s : string) (off : nat) (acc : Z) : option (nat * Z * string) :=
  match s with
  | EmptyString => Some (off, acc, EmptyString)
  | String c s' =>
      match hex_digit c with
      | Some d => if (3 <? off)%nat then None else scan_hex s' (S off) (acc * 16 + d)
      | None => Some (off, acc, s)
      end
  end.

Definition group_bytes (g : Z) : list Z := [Z.shiftr g 8; g mod 256].

(** The loop of [netip.parseIPv6]: the bytes read so far and the position of
    the ellipsis.  Each turn adds a group, so eight turns are enough. *)
Fixpoint parseIPv6_loop (fuel : nat) (s : string) (ip : list Z) (ellipsis : option nat) :
    option (list Z * option nat * string) :=
  match fuel with
  | O => Some (ip, ellipsis, s)
  | S fuel =>
      '(off, acc, rest) ← scan_hex s 0 0;
      if (off =? 0)%nat then None
      else match rest with
      | EmptyString => Some (ip ++ group_bytes acc, ellipsis, EmptyString)
      | String c rest' =>
          if decide (c = dot) then
            if bool_decide (ellipsis = None) && negb (length ip =? 12)%nat then None
            else if (16 <? length ip + 4)%nat then None
            else v4 ← parseIPv4Fields s; Some (ip ++ v4, ellipsis, EmptyString)
          else if decide (c = colon) then
            let ip := ip ++ group_bytes acc in
            match rest' with
            | EmptyString => None
            | String c2 rest'' =>
                if decide (c2 = colon) then
                  match ellipsis with
                  | Some _ => None
                  | None =>
                      match rest'' with
                      | EmptyString => Some (ip, Some (length ip), EmptyString)
                      | _ => parseIPv6_loop fuel rest'' ip (Some (length ip))
                      end
                  end
                else parseIPv6_loop fuel rest' ip ellipsis
            end
          else None
      end
  end.

(** The end of [netip.parseIPv6]: expand the ellipsis to sixteen bytes. *)
Definition parseIPv6_finish (r : list Z * option nat * string) : option (list Z) :=
  let '(ip, ellipsis, s) := r in
  match s with
  | EmptyString =>
      if (length ip <? 16)%nat then
        e ← ellipsis; Some (take e ip ++ replicate (16 - length ip) 0 ++ drop e ip)
      else match ellipsis with Some _ => None | None => Some ip end
  | _ => None
  end.

Definition parseIPv6 (s : string) : option (list Z) :=
  match s with
  | String c1 (String c2 s') =>
      if decide (c1 = colon ∧ c2 = colon) then
        match s' with
        | EmptyString => Some (replicate 16 0)
        | _ => parseIPv6_loop 8 s' [] (Some 0%nat) ≫= parseIPv6_finish
        end
      else parseIPv6_loop 8 s [] None ≫= parseIPv6_finish
  | _ => parseIPv6_loop 8 s [] None ≫= parseIPv6_finish
  end.

(** The 16-bit groups of a 16-byte address. *)
Fixpoint groups (ip : list Z) : list Z :=
  match ip with
  | a :: b :: ip => a * 256 + b :: groups ip
  | _ => []
  end.

Definition hex_char (d : Z) : Ascii.ascii :=
  if d <? 10 then chr (Z.to_N (48 + d)) else chr (Z.to_N (97 + d - 10)).

Definition appendHex (x : Z) : string :=
  let d k := Z.shiftr x k mod 16 in
  let tail0 := String (hex_char (d 0)) EmptyString in
  let tail1 := if 16 <=? x then String (hex_char (d 4)) tail0 else tail0 in
  let tail2 := if 256 <=? x then String (hex_char (d 8)) tail1 else tail1 in
  if 4096 <=? x then String (hex_char (d 12)) tail2 else tail2.

(** Length of the run of zero groups at the head. *)
Fixpoint zero_run (gs : list Z) : nat :=
  match gs with 0 :: gs => S (zero_run gs) | _ => 0 end.

(** First longest run of at least two zero groups, as (start, end). *)
Fixpoint best_run (gs : list Z) (i : nat) (best : option (nat * nat)) : option (nat * nat) :=
  match gs with
  | [] => best
  | _ :: gs' =>
      let l := zero_run gs in
      let best_len := match best with Some (a, b) => (b - a)%nat | None => 0%nat end in
      best_run gs' (S i)
        (if (2 <=? l)%nat && (best_len <? l)%nat then Some (i, (i + l)%nat) else best)
  end.

Definition v6_string (ip : list Z) : string :=
  let gs := groups ip in
  match best_run gs 0 None with
  | Some (a, b) =>
      (join_with ":" (map appendHex (take a gs)) +:+ "::" +:+
       join_with ":" (map appendHex (drop b gs)))%string
  | None => join_with ":" (map appendHex gs)
  end.

(** ** CIDRs *)

(** [netip.ParseAddr], rejecting zones as [net.ParseCIDR] does: the bytes of
    the address (four or sixteen). *)
Fixpoint addr_kind (s : string) : option Ascii.ascii :=
  match s with
  | EmptyString => None
  | String c s => if decide (c = dot ∨ c = colon ∨ c = percent) then Some c else addr_kind s
  end.

Definition ParseAddr (s : string) : option (list Z) :=
  c ← addr_kind s;
  if has_char percent s then None
  else if decide (c = dot) then parseIPv4Fields s else parseIPv6 s.

Definition parse_prefix_len (s : string) : option Z :=
  match s with EmptyString => None | _ => dec_value s 0 end.

(** [net.ParseCIDR]: the network it returns (the second result). *)
Definition ParseCIDR (s : string) : outcome IPNet :=
  match cut_on slash s with
  | None => Err (Errorf "invalid CIDR address")
  | Some (addr, mask) =>
      match ParseAddr addr, parse_prefix_len mask with
      | Some ip, Some n =>
          let bits := 8 * Z.of_nat (length ip) in
          if bits <? n then Err (Errorf "invalid CIDR address")
          else let m := CIDRMask n bits in
               Ret {| net_IP := IP_Mask ip m; net_Mask := m |}
      | _, _ => Err (Errorf "invalid CIDR address")
      end
  end.

(** [net.hexString]: two lower-case hexadecimal digits per byte. *)
Fixpoint hexString (b : list Z) : string :=
  match b with
  | [] => EmptyString
  | x :: b => String (hex_char (Z.shiftr x 4)) (String (hex_char (x mod 16)) (hexString b))
  end.

Definition IP_String (ip : list Z) : string :=
  match ip with
  | [] => "<nil>"
  | _ =>
      match To4 ip with
      | Some p4 => v4_string p4
      | None => if (length ip =? 16)%nat then v6_string ip else ("?" +:+ hexString ip)%string
      end
  end.

Definition IPNet_String (n : IPNet) : string :=
  match networkNumberAndMask n with
  | None => "<nil>"
  | Some (nn, m) =>
      let l := simpleMaskLength m in
      if l =? -1 then (IP_String nn +:+ "/" +:+ hexString m)%string
      else (IP_String nn +:+ "/" +:+ Uitoa l)%string
  end.

Example parse_v4 : IPNet_String <$> ParseCIDR "10.20.30.40/20" = Ret "10.20.16.0/20"%string.
Proof. by vm_compute. Qed.
Example parse_v6 : IPNet_String <$> ParseCIDR "2001:DB8:0:0:1::7/64" = Ret "2001:db8::/64"%string.
Proof. by vm_compute. Qed.
Example parse_v6_mid : IPNet_String <$> ParseCIDR "1:0:0:2::1.2.3.4/128" = Ret "1::2:0:0:102:304/128"%string.
Proof. by vm_compute. Qed.
Example parse_bad : is_err (ParseCIDR "10.20.030.40/20") = true ∧ is_err (ParseCIDR "10.0.0.0/33") = true
  ∧ is_err (ParseCIDR "fe80::1%eth0/64") = true ∧ is_err (ParseCIDR "1:2:3:4:5:6:7:8::/64") = true.
Proof. by vm_compute. Qed.

(** ** Splitting what was joined *)
Lemma has_char_app c s t : has_char c (s +:+ t) = has_char c s || has_char c t.
Proof. induction s as [|d s IH]; simpl; [done|]. by rewrite IH, orb_assoc. Qed.

Lemma split_on_none c s : has_char c s = false → split_on c s = [s].
Proof.
  induction s as [|d s IH]; simpl; [done|]. intros [H1 H2]%orb_false_iff.
  apply bool_decide_eq_false_1 in H1. by rewrite decide_False, IH.
Qed.

Lemma split_on_app c s t :
  has_char c s = false → split_on c (s +:+ String c t) = s :: split_on c t.
Proof.
  induction s as [|d s IH]; simpl; [by rewrite decide_True|]. intros [H1 H2]%orb_false_iff.
  apply bool_decide_eq_false_1 in H1. by rewrite decide_False, IH.
Qed.

Lemma cut_on_app c s t : has_char c s = false → cut_on c (s +:+ String c t) = Some (s, t).
Proof.
  induction s as [|d s IH]; simpl; [by rewrite decide_True|]. intros [H1 H2]%orb_false_iff.
  apply bool_decide_eq_false_1 in H1. by rewrite decide_False, IH.
Qed.

Lemma cut_on_none c s : has_char c s = false → cut_on c s = None.
Proof.
  induction s as [|d s IH]; cbn; [done|]. intros [H1 H2]%orb_false_iff. apply bool_decide_eq_false_1 in H1.
  rewrite decide_False by done. by rewrite IH.
Qed.
Lemma split_after c s t : has_char c t = false → ∃ l, split_on c (s +:+ String c t) = l ++ [t] ∧ l ≠ [].
Proof.
  intros Ht. induction s as [|d s (l & IH & Hl)].
  - exists [EmptyString]. change (EmptyString +:+ String c t)%string with (String c t). cbn [split_on]. rewrite decide_True, split_on_none by done. by split.
  - change (String d s +:+ String c t)%string with (String d (s +:+ String c t)). cbn [split_on]. rewrite IH. case_decide.
    + exists (EmptyString :: l). done.
    + destruct l as [|w l]; [done|]. exists (String d w :: l). done.
Qed.

Lemma addr_kind_app s t : addr_kind s = None → addr_kind (s +:+ t) = addr_kind t.
Proof. induction s as [|d s IH]; simpl; [done|]. case_decide; naive_solver. Qed.

Lemma join_cons sep s l : l ≠ [] → join_with sep (s :: l) = (s +:+ sep +:+ join_with sep l)%string.
Proof. by destruct l. Qed.

Lemma string_app_assoc s t u : ((s +:+ t) +:+ u = s +:+ (t +:+ u))%string.
Proof. induction s as [|c s IH]; [done|]. exact (f_equal (String c) IH). Qed.

Lemma string_app_nil s : (s +:+ "" = s)%string.
Proof. induction s as [|c s IH]; [done|]. exact (f_equal (String c) IH). Qed.

(** ** IPv4 round trip *)
Definition octet_check (b : Z) : bool :=
  bool_decide (parse_octet (Uitoa b) = Some b) && bool_decide (addr_kind (Uitoa b) = None) &&
  negb (has_char dot (Uitoa b)) && negb (has_char slash (Uitoa b)) &&
  negb (has_char percent (Uitoa b)) && bool_decide (parse_prefix_len (Uitoa b) = Some b).

Lemma octet_facts b : 0 <= b < 256 →
  parse_octet (Uitoa b) = Some b ∧ addr_kind (Uitoa b) = None ∧ has_char dot (Uitoa b) = false ∧
  has_char slash (Uitoa b) = false ∧ has_char percent (Uitoa b) = false ∧
  parse_prefix_len (Uitoa b) = Some b.
Proof.
  intros Hb. pose proof (forall_range octet_check 256 ltac:(by vm_compute) b Hb) as H.
  unfold octet_check in H. propify. done.
Qed.

Lemma list4 {A} (l : list A) : length l = 4%nat → ∃ a b c d, l = [a; b; c; d].
Proof. destruct l as [|a [|b [|c [|d [|]]]]]; try done. by eexists _, _, _, _. Qed.

Lemma dot_app x : ("." +:+ x)%string = String dot x.
Proof. done. Qed.

Lemma v4_text ip : addr_wf 32 ip →
  ParseAddr (v4_string ip) = Some ip ∧ has_char slash (v4_string ip) = false.
Proof.
  intros [Hl Hok _]. destruct (list4 ip Hl) as (a & b & c & d & ->).
  repeat match goal with H : bytes_ok (_ :: _) |- _ => inversion H; clear H; subst end.
  destruct (octet_facts a) as (Pa&Ka&Da&Sa&Ca&_), (octet_facts b) as (Pb&Kb&Db&Sb&Cb&_),
    (octet_facts c) as (Pc&Kc&Dc&Sc&Cc&_), (octet_facts d) as (Pd&Kd&Dd&Sd&Cd&_); try done.
  unfold v4_string. simpl map. rewrite !join_cons by done. simpl join_with.
  split; [|by rewrite !has_char_app, Sa, Sb, Sc, Sd].
  rewrite !dot_app. set (str := (_ +:+ String dot _)%string).
  assert (addr_kind str = Some dot) as E1 by (unfold str; by rewrite addr_kind_app).
  assert (has_char percent str = false) as E2.
  { unfold str. rewrite has_char_app, Ca. cbn [has_char]. rewrite has_char_app, Cb.
    cbn [has_char]. rewrite has_char_app, Cc. cbn [has_char]. by rewrite Cd. }
  unfold ParseAddr. rewrite E1, E2. cbn [mbind option_bind].
  rewrite decide_True by done. unfold parseIPv4Fields, str.
  rewrite !split_on_app by done. rewrite split_on_none by done.
  by rewrite Pa, Pb, Pc, Pd.
Qed.

(** ** IPv6 round trip *)
Definition group_ok (g : Z) : Prop := 0 <= g < 65536.

(** What the parser needs of a printed digit. *)
Definition hex_check (d : Z) : bool :=
  bool_decide (hex_digit (hex_char d) = Some d) &&
  negb (bool_decide (hex_char d = colon)) && negb (bool_decide (hex_char d = dot)) &&
  negb (bool_decide (hex_char d = slash)) && negb (bool_decide (hex_char d = percent)).

Lemma hex_facts d : 0 <= d < 16 →
  hex_digit (hex_char d) = Some d ∧ hex_char d ≠ colon ∧ hex_char d ≠ dot ∧
  hex_char d ≠ slash ∧ hex_char d ≠ percent.
Proof.
  intros Hd. pose proof (forall_range hex_check 16 ltac:(by vm_compute) d Hd) as H.
  unfold hex_check in H. by propify.
Qed.

(** The digits of [s] are hexadecimal and stand for [v] with [n] of them. *)
Fixpoint hex_word (ds : list Z) : string :=
  match ds with [] => EmptyString | d :: ds => String (hex_char d) (hex_word ds) end.

Lemma hex_word_facts ds : Forall (λ d, 0 <= d < 16) ds →
  addr_kind (hex_word ds) = None ∧ has_char slash (hex_word ds) = false ∧
  has_char percent (hex_word ds) = false ∧
  ∀ off acc, (off + length ds <= 4)%nat →
    scan_hex (hex_word ds) off acc =
      Some ((off + length ds)%nat, fold_left (λ a d, a * 16 + d) ds acc, EmptyString).
Proof.
  induction 1 as [|d ds Hd Hds (IH1 & IH2 & IH3 & IH4)]; simpl.
  { split_and!; try done. intros. by rewrite Nat.add_0_r. }
  destruct (hex_facts d Hd) as (H1 & H2 & H3 & H4 & H5).
  rewrite decide_False by naive_solver. rewrite !bool_decide_eq_false_2 by done.
  split_and!; [done..|]. intros off acc Hlen. rewrite H1.
  destruct (Nat.ltb_spec 3 off); [lia|]. rewrite IH4 by lia. by rewrite Nat.add_succ_r.
Qed.

(** The digits [appendHex] writes. *)
Definition group_digits (x : Z) : list Z :=
  let d k := Z.shiftr x k mod 16 in
  (if 4096 <=? x then [d 12] else []) ++ (if 256 <=? x then [d 8] else []) ++
  (if 16 <=? x then [d 4] else []) ++ [d 0].

Lemma appendHex_digits x : 0 <= x → appendHex x = hex_word (group_digits x).
Proof.
  intros Hx. unfold appendHex, group_digits. zcases; try lia; done.
Qed.

Lemma group_digits_value x : group_ok x →
  Forall (λ d, 0 <= d < 16) (group_digits x) ∧ (0 < length (group_digits x) <= 4)%nat ∧
  fold_left (λ a d, a * 16 + d) (group_digits x) 0 = x.
Proof.
  unfold group_ok. intros Hx. unfold group_digits.
  split_and!; [zcases; repeat constructor; apply Z.mod_pos_bound; lia|zcases; simpl; lia..|].
  rewrite !Z.shiftr_div_pow2 by lia.
  change (2 ^ 12) with 4096. change (2 ^ 8) with 256. change (2 ^ 4) with 16. change (2 ^ 0) with 1.
  zcases; simpl; Z.div_mod_to_equations; lia.
Qed.

Lemma group_facts g : group_ok g →
  (∃ c s, appendHex g = String c s ∧ c ≠ colon) ∧ addr_kind (appendHex g) = None ∧
  has_char slash (appendHex g) = false ∧ has_char percent (appendHex g) = false ∧
  ∃ off, scan_hex (appendHex g) 0 0 = Some (S off, g, EmptyString).
Proof.
  intros Hg. rewrite appendHex_digits by apply Hg.
  destruct (group_digits_value g Hg) as (Hd & Hl & Hv).
  destruct (hex_word_facts _ Hd) as (F1 & F2 & F3 & F4).
  specialize (F4 0%nat 0 ltac:(lia)). rewrite Hv in F4.
  destruct (group_digits g) as [|d ds]; simpl in Hl; [lia|].
  inversion Hd as [|?? Hd0 _]; subst. destruct (hex_facts d Hd0) as (_ & Hc & _).
  split_and!; [by eexists _, _|done..|by eexists].
Qed.

Lemma scan_hex_app s rest off acc o a :
  scan_hex s off acc = Some (o, a, EmptyString) →
  (∀ c r, rest = String c r → hex_digit c = None) →
  scan_hex (s +:+ rest) off acc = Some (o, a, rest).
Proof.
  intros Hs Hr. revert off acc Hs. induction s as [|c s IH]; intros off acc Hs; simpl in *.
  - simplify_eq. destruct rest as [|c r]; [done|]. simpl. by rewrite (Hr c r).
  - destruct (hex_digit c); [|done]. destruct (3 <? off)%nat; [done|]. by apply IH.
Qed.

Abbreviation hexjoin gs := (join_with ":" (map appendHex gs)).
Abbreviation bytes_of_groups gs := (concat (map group_bytes gs)).

Lemma colon_app x : (":" +:+ x)%string = String colon x.
Proof. done. Qed.
Lemma colons_app x : ("::" +:+ x)%string = String colon (String colon x).
Proof. done. Qed.

Lemma hexjoin_head gs : gs ≠ [] → Forall group_ok gs →
  ∃ c s, hexjoin gs = String c s ∧ c ≠ colon.
Proof.
  intros Hne Hok. destruct gs as [|g gs]; [done|]. inversion Hok; subst.
  destruct (group_facts g) as ((c & s & E & Hc) & _); [done|].
  destruct gs as [|g2 gs]; [by simpl; eauto|].
  simpl map. rewrite join_cons by done. rewrite E. by eexists _, _.
Qed.

(** One turn of the parser on a group followed by a colon or the end. *)
Lemma loop_end gs : ∀ fuel ip e,
  gs ≠ [] → Forall group_ok gs → (length gs <= fuel)%nat →
  parseIPv6_loop fuel (hexjoin gs) ip e = Some (ip ++ bytes_of_groups gs, e, EmptyString).
Proof.
  induction gs as [|g gs IH]; intros [|fuel] ip e Hne Hok Hf; try done; simpl in Hf; [lia|].
  inversion Hok as [|?? Hg Hgs]; subst.
  destruct (group_facts g Hg) as (_&_&_&_&off&Hs).
  destruct gs as [|g2 gs].
  - simpl. by rewrite Hs.
  - simpl map. rewrite join_cons, colon_app by done. cbn [parseIPv6_loop].
    erewrite scan_hex_app by (done || by intros ?? [= <- <-]). cbn [mbind option_bind].
    destruct (hexjoin_head (g2 :: gs)) as (c & s & E & Hc); [done..|].
    simpl map in E. rewrite E. simpl Nat.eqb. cbn iota.
    rewrite decide_False by done. rewrite decide_True by done. rewrite decide_False by done.
    rewrite <- E. change (appendHex g2 :: map appendHex gs) with (map appendHex (g2 :: gs)).
    rewrite IH by (done || simpl in *; lia). simpl. by rewrite <- app_assoc.
Qed.

Lemma loop_mid gs post : ∀ fuel ip,
  gs ≠ [] → Forall group_ok gs → (length gs <= fuel)%nat →
  parseIPv6_loop fuel (hexjoin gs +:+ "::" +:+ hexjoin post) ip None =
    let ip' := ip ++ bytes_of_groups gs in
    match hexjoin post with
    | EmptyString => Some (ip', Some (length ip'), EmptyString)
    | _ => parseIPv6_loop (fuel - length gs) (hexjoin post) ip' (Some (length ip'))
    end.
Proof.
  induction gs as [|g gs IH]; intros [|fuel] ip Hne Hok Hf; try done; simpl in Hf; [lia|].
  inversion Hok as [|?? Hg Hgs]; subst.
  destruct (group_facts g Hg) as (_&_&_&_&off&Hs).
  destruct gs as [|g2 gs].
  - simpl map. rewrite colons_app. cbn [parseIPv6_loop join_with].
    erewrite scan_hex_app by (done || by intros ?? [= <- <-]). cbn [mbind option_bind].
    simpl Nat.eqb. cbn iota. rewrite decide_False by done. rewrite !decide_True by done.
    simpl. rewrite Nat.sub_0_r. by destruct (hexjoin post).
  - simpl map at 1. rewrite join_cons, colon_app by done.
    rewrite string_app_assoc. change ((String colon ?x +:+ ?y)%string) with (String colon (x +:+ y)).
    cbn [parseIPv6_loop].
    erewrite scan_hex_app by (done || by intros ?? [= <- <-]). cbn [mbind option_bind].
    destruct (hexjoin_head (g2 :: gs)) as (c & s & E & Hc); [done..|].
    change (appendHex g2 :: map appendHex gs) with (map appendHex (g2 :: gs)).
    rewrite E. change ((String c s +:+ ?y)%string) with (String c (s +:+ y)).
    simpl Nat.eqb. cbn iota.
    rewrite decide_False by done. rewrite decide_True by done. rewrite decide_False by done.
    change (String c (s +:+ ?y)) with ((String c s +:+ y)%string). rewrite <- E.
    rewrite IH by (done || simpl in *; lia). cbn zeta.
    change (bytes_of_groups (g :: g2 :: gs)) with (group_bytes g ++ bytes_of_groups (g2 :: gs)).
    by rewrite <- !app_assoc.
Qed.

Lemma group_bytes_length gs : length (bytes_of_groups gs) = (2 * length gs)%nat.
Proof. induction gs as [|g gs IH]; simpl in *; lia. Qed.

(** Sixteen bytes and their eight groups determine each other. *)
Lemma groups_bytes : ∀ n ip, length ip = (2 * n)%nat → bytes_ok ip →
  bytes_of_groups (groups ip) = ip ∧ Forall group_ok (groups ip) ∧ length (groups ip) = n.
Proof.
  induction n as [|n IH]; intros ip Hl Hok.
  - destruct ip; [by split_and!; constructor|done].
  - destruct ip as [|a [|b ip]]; simpl in Hl; try lia.
    inversion Hok as [|?? Ha Hok']; inversion Hok' as [|?? Hb Hok'']; subst.
    destruct (IH ip) as (IH1 & IH2 & IH3); [lia|done|]. unfold byte_ok in *.
    simpl. rewrite IH1, IH3. split_and!; [|constructor; [unfold group_ok; lia|done]|done].
    f_equal; [|f_equal].
    + rewrite Z.shiftr_div_pow2 by lia. rewrite Z.div_add_l by lia.
      rewrite Z.div_small by lia. lia.
    + rewrite Z.add_comm, Z_mod_plus_full. by apply Z.mod_small.
Qed.

Lemma zero_run_spec gs : take (zero_run gs) gs = replicate (zero_run gs) 0 ∧ (zero_run gs <= length gs)%nat.
Proof.
  induction gs as [|g gs [IH1 IH2]]; simpl; [done|].
  destruct g; simpl; split; (lia || congruence).
Qed.

(** A run found by the printer: at least two groups, all zero. *)
Definition run_ok (gs : list Z) (best : option (nat * nat)) : Prop :=
  match best with
  | None => True
  | Some (a, b) => (a + 2 <= b <= length gs)%nat ∧ take (b - a) (drop a gs) = replicate (b - a) 0
  end.

Lemma best_run_ok all : ∀ gs i best,
  gs = drop i all → run_ok all best → run_ok all (best_run gs i best).
Proof.
  induction gs as [|g gs IH]; intros i best Hgs Hbest; [done|]. cbn [best_run].
  apply IH.
  { apply (f_equal (drop 1)) in Hgs. rewrite drop_drop in Hgs. simpl in Hgs.
    rewrite drop_0 in Hgs. rewrite Hgs. f_equal. lia. }
  destruct (_ && _) eqn:E; [|done]. apply andb_true_iff in E as [E1%Nat.leb_le _].
  destruct (zero_run_spec (g :: gs)) as [Z1 Z2]. unfold run_ok.
  replace (i + zero_run (g :: gs) - i)%nat with (zero_run (g :: gs)) by lia.
  rewrite <- Hgs. split; [|done].
  apply (f_equal length) in Hgs. rewrite length_drop in Hgs. lia.
Qed.

Lemma bytes_of_zeros n : bytes_of_groups (replicate n 0) = replicate (2 * n) 0.
Proof. induction n as [|n IH]; [done|]. replace (2 * S n)%nat with (S (S (2 * n))) by lia. simpl in *. by rewrite IH. Qed.

Lemma hexjoin_chars gs : Forall group_ok gs →
  has_char slash (hexjoin gs) = false ∧ has_char percent (hexjoin gs) = false.
Proof.
  induction 1 as [|g gs Hg Hgs [IH1 IH2]]; [done|].
  destruct (group_facts g Hg) as (_ & _ & H1 & H2 & _).
  destruct gs as [|g2 gs]; [done|]. simpl map. rewrite join_cons by done.
  rewrite !has_char_app, H1, H2. simpl map in IH1, IH2. by rewrite IH1, IH2.
Qed.

(** The head of a printed address never starts an IPv4 or zoned one. *)
Lemma hexjoin_kind gs x : gs ≠ [] → Forall group_ok gs →
  addr_kind (hexjoin gs +:+ String colon x) = Some colon.
Proof.
  intros Hne Hok. destruct gs as [|g gs]; [done|]. inversion Hok as [|?? Hg _]; subst.
  destruct (group_facts g Hg) as (_ & Hk & _).
  destruct gs as [|g2 gs]; simpl map; [|rewrite join_cons, string_app_assoc by done];
    simpl join_with; by rewrite addr_kind_app.
Qed.

Lemma parseIPv6_plain c1 c2 s :
  c1 ≠ colon → parseIPv6 (String c1 (String c2 s)) =
    parseIPv6_loop 8 (String c1 (String c2 s)) [] None ≫= parseIPv6_finish.
Proof. intros Hc. unfold parseIPv6. rewrite decide_False; [done|naive_solver]. Qed.

Lemma string_two s c x : s = String c x → ∀ d y, ∃ c2 r, (s +:+ String d y)%string = String c (String c2 r).
Proof. intros -> d y. destruct x; by eexists _, _. Qed.

Lemma finish_ellipsis P Q n :
  (length P + length Q + n = 16)%nat → (0 < n)%nat →
  parseIPv6_finish (P ++ Q, Some (length P), EmptyString) = Some (P ++ replicate n 0 ++ Q).
Proof.
  intros Hl Hn. cbn [parseIPv6_finish]. rewrite length_app.
  destruct (Nat.ltb_spec (length P + length Q) 16); [|lia]. cbn [mbind option_bind].
  rewrite take_app_length, drop_app_length. do 4 f_equal. lia.
Qed.

Lemma ParseAddr_v6 s c r ip :
  s = String c r → addr_kind s = Some colon → has_char percent s = false → parseIPv6 s = Some ip →
  ParseAddr s = Some ip.
Proof. intros _ H1 H2 H3. unfold ParseAddr. rewrite H1, H2. cbn. done. Qed.

(** The compressed form: groups, [::], groups. *)
Lemma v6_compressed pre post n :
  Forall group_ok pre → Forall group_ok post → (length pre + n + length post = 8)%nat → (2 <= n)%nat →
  parseIPv6 (hexjoin pre +:+ "::" +:+ hexjoin post) =
    Some (bytes_of_groups pre ++ replicate (2 * n) 0 ++ bytes_of_groups post).
Proof.
  intros Hpre Hpost Hlen Hn.
  pose proof (group_bytes_length pre) as L1. pose proof (group_bytes_length post) as L2.
  destruct pre as [|g pre].
  - change ((hexjoin [] +:+ ?x)%string) with x. rewrite colons_app. unfold parseIPv6. rewrite decide_True by done.
    destruct post as [|g2 post].
    { simpl. simpl in Hlen. replace n with 8%nat by lia. done. }
    destruct (hexjoin_head (g2 :: post)) as (c & s & E & _); [done..|].
    rewrite E, <- E. rewrite loop_end by (done || simpl in *; lia). cbn [mbind option_bind].
    apply (finish_ellipsis [] (bytes_of_groups (g2 :: post))); simpl in *; lia.
  - destruct (hexjoin_head (g :: pre)) as (c & s & E & Hc); [done..|].
    rewrite colons_app. destruct (string_two _ c s E colon (String colon (hexjoin post))) as (c2 & r & E2).
    rewrite E2, parseIPv6_plain, <- E2, <- colons_app by done.
    rewrite loop_mid by (done || simpl in *; lia). cbn zeta. rewrite app_nil_l.
    assert (F : parseIPv6_finish (bytes_of_groups (g :: pre) ++ bytes_of_groups post,
        Some (length (bytes_of_groups (g :: pre))), EmptyString)
      = Some (bytes_of_groups (g :: pre) ++ replicate (2 * n) 0 ++ bytes_of_groups post))
      by (apply finish_ellipsis; lia).
    destruct post as [|g2 post]; [by rewrite app_nil_r in F|].
    destruct (hexjoin_head (g2 :: post)) as (c' & s' & E' & _); [done..|].
    rewrite E', <- E'. rewrite loop_end by (done || simpl in *; lia). exact F.
Qed.

Lemma v6_text ip : addr_wf 128 ip →
  ParseAddr (v6_string ip) = Some ip ∧ has_char slash (v6_string ip) = false.
Proof.
  intros [Hl Hok _]. destruct (groups_bytes 8 ip Hl Hok) as (Hb & Hg & Hgl).
  unfold v6_string. pose proof (best_run_ok (groups ip) (groups ip) 0 None eq_refl I) as Hr.
  destruct (best_run (groups ip) 0 None) as [[a b]|]; cbn [run_ok] in Hr.
  - destruct Hr as [Hab Hz].
    assert (Hsplit : groups ip = take a (groups ip) ++ replicate (b - a) 0 ++ drop b (groups ip)).
    { rewrite <- Hz, <- (take_drop a (groups ip)) at 1. f_equal.
      rewrite <- (take_drop (b - a) (drop a (groups ip))) at 1. f_equal.
      rewrite drop_drop. f_equal. lia. }
    set (pre := take a (groups ip)) in *. set (post := drop b (groups ip)) in *.
    assert (Hpre : Forall group_ok pre) by (by apply Forall_take).
    assert (Hpost : Forall group_ok post) by (by apply Forall_drop).
    destruct (hexjoin_chars pre Hpre) as [S1 P1]. destruct (hexjoin_chars post Hpost) as [S2 P2].
    split; [|by rewrite !has_char_app, S1, S2].
    assert (parseIPv6 (hexjoin pre +:+ "::" +:+ hexjoin post) = Some ip) as E.
    { rewrite (v6_compressed pre post (b - a)); [|done|done| |lia].
      - f_equal. transitivity (bytes_of_groups (groups ip)); [|done].
        rewrite Hsplit, !map_app, !concat_app. by rewrite <- bytes_of_zeros.
      - apply (f_equal length) in Hsplit. rewrite !length_app, length_replicate in Hsplit. lia. }
    unfold ParseAddr. rewrite !has_char_app, P1, P2, E.
    destruct pre as [|g pre']; [done|]. rewrite colons_app, hexjoin_kind by done. done.
  - destruct (hexjoin_chars _ Hg) as [S1 P1]. split; [|done].
    destruct (groups ip) as [|g [|g2 gs]] eqn:Egs; [done..|].
    destruct (group_facts g) as ((c & s & E & Hc) & Hk & _); [by inversion Hg|].
    assert (EJ : hexjoin (g :: g2 :: gs) = (appendHex g +:+ String colon (hexjoin (g2 :: gs)))%string)
      by (simpl map; by rewrite join_cons).
    unfold ParseAddr. rewrite P1, EJ, addr_kind_app by done. cbn [addr_kind].
    rewrite decide_True by (by right; left). cbn [mbind option_bind]. rewrite decide_False by done.
    destruct (string_two _ c s E colon (hexjoin (g2 :: gs))) as (c2 & r & E2).
    rewrite E2, parseIPv6_plain, <- E2, <- EJ by done. rewrite loop_end by (done || simpl in *; lia).
    cbn [mbind option_bind]. rewrite app_nil_l. unfold parseIPv6_finish.
    rewrite Hb, Hl. done.
Qed.

(** Printing a network and parsing it back gives the network. *)
Lemma ParseCIDR_String w k n : net_wf w k n → ParseCIDR (IPNet_String n) = Ret n.
Proof.
  intros Hn. unfold IPNet_String. rewrite (networkNumberAndMask_wf w k n Hn).
  destruct Hn as [Hw Hk Ha Hal Hm].
  destruct (CIDRMask_spec w k Hw Hk) as (Hml & _ & _ & Hsz).
  assert (simpleMaskLength (net_Mask n) = k) as ->.
  { rewrite Hm. unfold IPMask_Size in Hsz. destruct (Z.eqb_spec (simpleMaskLength (CIDRMask k w)) (-1)).
    - injection Hsz as _ Hsz. destruct Hw; lia.
    - by injection Hsz. }
  rewrite (proj2 (Z.eqb_neq k (-1))) by lia.
  assert (ParseAddr (IP_String (net_IP n)) = Some (net_IP n) ∧ has_char slash (IP_String (net_IP n)) = false)
    as [P1 P2].
  { unfold IP_String. rewrite (To4_wf w) by done. pose proof (aw_len _ _ Ha) as Hl.
    destruct (net_IP n) as [|z l] eqn:E; [by destruct Hw as [-> | ->]|]. rewrite <- E in *.
    destruct Hw as [-> | ->]; simpl; [by apply v4_text|]. rewrite Hl. by apply v6_text. }
  destruct (octet_facts k) as (_ & _ & _ & _ & _ & Hp); [destruct Hw; lia|].
  unfold ParseCIDR. change ("/" +:+ ?x)%string with (String slash x).
  rewrite cut_on_app, P1, Hp by done. rewrite (aw_len _ _ Ha), width_bytes by done.
  destruct (Z.ltb_spec w k); [lia|]. f_equal. destruct n as [ip m]; simpl in *. subst m. f_equal.
  destruct (IP_Mask_spec w k ip Hw Hk Ha) as [W D].
  apply be_decode_inj; [apply W|apply Ha|by rewrite (aw_len _ _ W), (aw_len _ _ Ha)|].
  rewrite D, Hal. lia.
Qed.

Lemma ParseCIDR_no_panic s : ParseCIDR s ≠ Panic.
Proof.
  unfold ParseCIDR. destruct (cut_on slash s) as [[a m]|]; [|done].
  destruct (ParseAddr a), (parse_prefix_len m); try done. by case_match.
Qed.
