(* ===== verification/CidrSet.v ===== *)
(** * CidrSet: the bitmap allocator of node CIDRs

    [pkg/controller/nodeipam/ipam/cidrset/cidr_set.go].  A [CidrSet] cuts one
    cluster CIDR into [maxCIDRs] equal node blocks and tracks them in the bitmap
    [used] (a [big.Int], hence a [Z]); [allocatedCIDRs] caches the number of set
    bits.  Every exported method holds the set's mutex while it touches the
    mutable fields, and the index computation only reads immutable ones, so a
    method is one atomic step here.  The Prometheus series of the set's label
    are the field [metrics]. *)

From S2P Require Import Prelude Bits GoNet GoNetText.
Local Open Scope Z_scope.

(** ** State *)

(** The four series of [cidrset/metrics.go] for one label; [m_usage] is the
    fraction last stored in the gauge. *)
Record cidrMetrics : Type := mkMetrics {
  m_allocations : Z;
  m_releases : Z;
  m_tries : list Z;
  m_usage : option (Z * Z)
}.

Record CidrSet : Type := mkCidrSet {
  clusterCIDR : IPNet;
  clusterMaskSize : Z;
  nodeMask : list Z;
  nodeMaskSize : Z;
  maxCIDRs : Z;
  allocatedCIDRs : Z;
  nextCandidate : Z;
  used : Z;
  label : string;
  metrics : cidrMetrics
}.

Definition clusterSubnetMaxDiff : Z := 16.
Definition halfIPv6Len : nat := 8.

Definition ErrCIDRRangeNoCIDRsRemaining : error :=
  ErrSentinel "CIDR allocation failed; there are no remaining CIDRs left to allocate in the accepted range".
Definition ErrCIDRSetSubNetTooBig : error :=
  ErrSentinel "New CIDR set failed; the node CIDR size is too big".

(** ** Operations *)

(** [NewCIDRSet]: a nil cluster CIDR is dereferenced. *)
Definition NewCIDRSet (cidr : option IPNet) (subNetMaskSize : Z) : outcome CidrSet :=
  match cidr with
  | None => Panic
  | Some cidr =>
      let '(clusterMaskSize, bits) := IPMask_Size (net_Mask cidr) in
      if bool_decide (To4 (net_IP cidr) = None)
         && (clusterSubnetMaxDiff <? subNetMaskSize - clusterMaskSize)
      then Err ErrCIDRSetSubNetTooBig
      else Ret {|
        clusterCIDR := cidr;
        nodeMask := CIDRMask subNetMaskSize bits;
        clusterMaskSize := clusterMaskSize;
        maxCIDRs := i64 (go_shl 64 1 (u32 (subNetMaskSize - clusterMaskSize)));
        nodeMaskSize := subNetMaskSize;
        label := IPNet_String cidr;
        allocatedCIDRs := 0; nextCandidate := 0; used := 0;
        metrics := mkMetrics 0 0 [] None
      |}
  end.

(** [bits.LeadingZeros64]. *)
Definition LeadingZeros64 (x : Z) : Z := if x =? 0 then 64 else 63 - Z.log2 x.

Definition indexToCIDRBlock (s : CidrSet) (index : Z) : outcome IPNet :=
  let cip := net_IP (clusterCIDR s) in
  ip ← (if To4 cip then
          c ← BE_Uint32 cip;
          let j := go_shl 32 (u32 index) (u32 (32 - nodeMaskSize s)) in
          Ret (be_encode 4 (Z.lor c j))
        else if To16 cip then
          leftClusterIP ← BE_Uint64 (take halfIPv6Len cip);
          rightClusterIP ← BE_Uint64 (drop halfIPv6Len cip);
          if nodeMaskSize s <=? 64 then
            let left := Z.lor leftClusterIP (go_shl 64 (u64 index) (u64 (64 - nodeMaskSize s))) in
            Ret (be_encode 8 left ++ be_encode 8 rightClusterIP)
          else
            let left :=
              if clusterMaskSize s <? 64 then
                let btl := u64 (nodeMaskSize s - 64) in
                let indexMaxBit := u64 (64 - LeadingZeros64 (u64 index)) in
                if btl <? indexMaxBit then Z.lor leftClusterIP (go_shr 64 (u64 index) btl)
                else leftClusterIP
              else leftClusterIP in
            let right := Z.lor rightClusterIP (go_shl 64 (u64 index) (u64 (128 - nodeMaskSize s))) in
            Ret (be_encode 8 left ++ be_encode 8 right)
        else Ret []);
  Ret {| net_IP := ip; net_Mask := nodeMask s |}.

(** The search loop of [AllocateNext]: the turn count and the candidate. *)
Fixpoint findCandidate (fuel : nat) (used max i candidate : Z) : Z * Z :=
  match fuel with
  | O => (i, candidate)
  | S fuel =>
      if i <? max then
        if Z.testbit used candidate
        then findCandidate fuel used max (i + 1) (Z.rem (candidate + 1) max)
        else (i, candidate)
      else (i, candidate)
  end.

Definition AllocateNext (s : CidrSet) : outcome IPNet * CidrSet :=
  if allocatedCIDRs s =? maxCIDRs s then (Err ErrCIDRRangeNoCIDRsRemaining, s)
  else
    let '(i, candidate) :=
      findCandidate (Z.to_nat (maxCIDRs s)) (used s) (maxCIDRs s) 0 (nextCandidate s) in
    if maxCIDRs s =? 0 then (Panic, s) (* integer divide by zero *)
    else
      let s' := {|
        clusterCIDR := clusterCIDR s; clusterMaskSize := clusterMaskSize s;
        nodeMask := nodeMask s; nodeMaskSize := nodeMaskSize s;
        maxCIDRs := maxCIDRs s; label := label s;
        nextCandidate := Z.rem (candidate + 1) (maxCIDRs s);
        used := Z.setbit (used s) candidate;
        allocatedCIDRs := allocatedCIDRs s + 1;
        metrics := {|
          m_allocations := m_allocations (metrics s) + 1;
          m_releases := m_releases (metrics s);
          m_tries := m_tries (metrics s) ++ [i];
          m_usage := Some (allocatedCIDRs s + 1, maxCIDRs s)
        |}
      |} in
      (indexToCIDRBlock s' candidate, s').

(** [big.Int.Rsh]. *)
Definition big_Rsh (x n : Z) : Z := if Z.log2 x <? n then 0 else Z.shiftr x n.

Definition getIndexForIP (s : CidrSet) (ip : list Z) : outcome Z :=
  match To4 ip with
  | Some ip4 =>
      c ← BE_Uint32 (net_IP (clusterCIDR s));
      x ← BE_Uint32 ip4;
      let cidrIndex := go_shr 32 (Z.lxor c x) (u32 (32 - nodeMaskSize s)) in
      if u32 (maxCIDRs s) <=? cidrIndex
      then Err (Errorf "CIDR: %v/%v is out of the range of CIDR allocator")
      else Ret cidrIndex
  | None =>
      match To16 ip with
      | Some _ =>
          let bigIP := Z.lxor (be_decode (net_IP (clusterCIDR s))) (be_decode ip) in
          let cidrIndex := u64 (big_Rsh bigIP (u64 (128 - nodeMaskSize s))) in
          if u64 (maxCIDRs s) <=? cidrIndex
          then Err (Errorf "CIDR: %v/%v is out of the range of CIDR allocator")
          else Ret (i64 cidrIndex)
      | None => Err (Errorf "invalid IP: %v")
      end
  end.

Definition getIndexForCIDR (s : CidrSet) (cidr : IPNet) : outcome Z := getIndexForIP s (net_IP cidr).

(** The last address of [cidr], as [getBeginingAndEndIndices] builds it. *)
Definition lastIP (cidr : IPNet) : outcome (list Z) :=
  if To4 (net_IP cidr) then
    x ← BE_Uint32 (net_IP cidr);
    m ← BE_Uint32 (net_Mask cidr);
    Ret (be_encode 4 (Z.lor x (go_not 32 m)))
  else
    l ← BE_Uint64 (take halfIPv6Len (net_IP cidr));
    ml ← BE_Uint64 (take halfIPv6Len (net_Mask cidr));
    r ← BE_Uint64 (drop halfIPv6Len (net_IP cidr));
    mr ← BE_Uint64 (drop halfIPv6Len (net_Mask cidr));
    Ret (be_encode 8 (Z.lor l (go_not 64 ml)) ++ be_encode 8 (Z.lor r (go_not 64 mr))).

Definition getBeginingAndEndIndices (s : CidrSet) (cidr : option IPNet) : outcome (Z * Z) :=
  match cidr with
  | None => Err (Errorf "error getting indices for cluster cidr %v, cidr is nil")
  | Some cidr =>
      let '(maskSize, _) := IPMask_Size (net_Mask cidr) in
      let cluster := clusterCIDR s in
      if negb (IPNet_Contains cluster (IP_Mask (net_IP cidr) (net_Mask cluster)))
         && negb (IPNet_Contains cidr (IP_Mask (net_IP cluster) (net_Mask cidr)))
      then Err (Errorf "cidr %v is out the range of cluster cidr %v")
      else if clusterMaskSize s <? maskSize then
        begin ← getIndexForCIDR s
          {| net_IP := IP_Mask (net_IP cidr) (nodeMask s); net_Mask := nodeMask s |};
        ip ← lastIP cidr;
        end_ ← getIndexForCIDR s {| net_IP := IP_Mask ip (nodeMask s); net_Mask := nodeMask s |};
        Ret (begin, end_)
      else Ret (0, maxCIDRs s - 1)
  end.

(** Set or clear bit [i] unless it already has that value. *)
Definition releaseBit (s : CidrSet) (i : Z) : CidrSet :=
  if Z.testbit (used s) i then {|
    clusterCIDR := clusterCIDR s; clusterMaskSize := clusterMaskSize s;
    nodeMask := nodeMask s; nodeMaskSize := nodeMaskSize s;
    maxCIDRs := maxCIDRs s; label := label s; nextCandidate := nextCandidate s;
    used := Z.clearbit (used s) i;
    allocatedCIDRs := allocatedCIDRs s - 1;
    metrics := {| m_allocations := m_allocations (metrics s);
                  m_releases := m_releases (metrics s) + 1;
                  m_tries := m_tries (metrics s); m_usage := m_usage (metrics s) |}
  |} else s.

Definition occupyBit (s : CidrSet) (i : Z) : CidrSet :=
  if Z.testbit (used s) i then s else {|
    clusterCIDR := clusterCIDR s; clusterMaskSize := clusterMaskSize s;
    nodeMask := nodeMask s; nodeMaskSize := nodeMaskSize s;
    maxCIDRs := maxCIDRs s; label := label s; nextCandidate := nextCandidate s;
    used := Z.setbit (used s) i;
    allocatedCIDRs := allocatedCIDRs s + 1;
    metrics := {| m_allocations := m_allocations (metrics s) + 1;
                  m_releases := m_releases (metrics s);
                  m_tries := m_tries (metrics s); m_usage := m_usage (metrics s) |}
  |}.

(** [cidrSetUsage.WithLabelValues(s.label).Set(...)]. *)
Definition setUsage (s : CidrSet) : CidrSet := {|
  clusterCIDR := clusterCIDR s; clusterMaskSize := clusterMaskSize s;
  nodeMask := nodeMask s; nodeMaskSize := nodeMaskSize s;
  maxCIDRs := maxCIDRs s; label := label s; nextCandidate := nextCandidate s;
  used := used s; allocatedCIDRs := allocatedCIDRs s;
  metrics := {| m_allocations := m_allocations (metrics s);
                m_releases := m_releases (metrics s);
                m_tries := m_tries (metrics s);
                m_usage := Some (allocatedCIDRs s, maxCIDRs s) |}
|}.

(** [for i := begin; i <= end; i++ { f(i) }]. *)
Definition forRange (f : CidrSet → Z → CidrSet) (begin end_ : Z) (s : CidrSet) : CidrSet :=
  foldl f s (seqZ begin (end_ - begin + 1)).

Definition Release (s : CidrSet) (cidr : option IPNet) : outcome unit * CidrSet :=
  match getBeginingAndEndIndices s cidr with
  | Ret (begin, end_) => (Ret tt, setUsage (forRange releaseBit begin end_ s))
  | Err e => (Err e, s)
  | Panic => (Panic, s)
  end.

Definition Occupy (s : CidrSet) (cidr : option IPNet) : outcome unit * CidrSet :=
  match getBeginingAndEndIndices s cidr with
  | Ret (begin, end_) => (Ret tt, setUsage (forRange occupyBit begin end_ s))
  | Err e => (Err e, s)
  | Panic => (Panic, s)
  end.
