(* ===== verification/CidrSetIndex.v ===== *)
(** * CidrSetIndex: the index arithmetic of a CIDR set

    The invariant of a [CidrSet] and the correctness of its three index
    functions on both address families: [indexToCIDRBlock] maps index [i] to
    the [i]-th block of the cluster CIDR, [getIndexForIP] maps an address of
    the cluster to the block it lies in, and [getBeginingAndEndIndices] maps a
    CIDR to exactly the blocks it intersects. *)

From S2P Require Import Prelude Bits GoNet GoNetText CidrSet.
Local Open Scope Z_scope.

(** Base address of the cluster and size of a node block. *)
Definition base (s : CidrSet) : Z := be_decode (net_IP (clusterCIDR s)).
Definition blockSize (w : Z) (s : CidrSet) : Z := 2 ^ (w - nodeMaskSize s).

(** What never changes after [NewCIDRSet]: a well-formed cluster CIDR of width
    [w], none of whose addresses is an IPv4-mapped one, cut into at most [2^31]
    blocks. *)
Record cidrset_static (w : Z) (s : CidrSet) : Prop := {
  cw_net : net_wf w (clusterMaskSize s) (clusterCIDR s);
  cw_plain : w = 128 → ∀ y, same_prefix 128 (clusterMaskSize s) (base s) y → y / 2 ^ 32 ≠ 65535;
  cw_nm : clusterMaskSize s <= nodeMaskSize s <= w;
  cw_diff : nodeMaskSize s - clusterMaskSize s <= 31;
  cw_mask : nodeMask s = CIDRMask (nodeMaskSize s) w;
  cw_max : maxCIDRs s = 2 ^ (nodeMaskSize s - clusterMaskSize s)
}.

(** The full invariant: the bitmap has no bit beyond [maxCIDRs] and
    [allocatedCIDRs] counts its bits, which the two counters agree with. *)
Record cidrset_wf (w : Z) (s : CidrSet) : Prop := {
  cw_static :: cidrset_static w s;
  cw_next : 0 <= nextCandidate s < maxCIDRs s;
  cw_used : 0 <= used s < 2 ^ maxCIDRs s;
  cw_count : allocatedCIDRs s = bits_count (Z.to_nat (maxCIDRs s)) (used s);
  cw_metrics : m_allocations (metrics s) - m_releases (metrics s) = allocatedCIDRs s
}.

#[export] Hint Resolve cw_static : ipam.

(** The [i]-th block of the cluster CIDR. *)
Definition is_block (w : Z) (s : CidrSet) (i : Z) (n : IPNet) : Prop :=
  net_wf w (nodeMaskSize s) n ∧ be_decode (net_IP n) = base s + i * blockSize w s.

Section static.
Context (w : Z) (s : CidrSet) (Hs : cidrset_static w s).

Let cm := clusterMaskSize s.
Let nm := nodeMaskSize s.

Lemma static_w : width_ok w.
Proof. apply Hs. Qed.
Lemma static_cm : 0 <= cm <= nm.
Proof. pose proof (nw_k _ _ _ (cw_net w s Hs)). pose proof (cw_nm w s Hs). unfold cm, nm. lia. Qed.
Lemma static_nm : nm <= w <= 128.
Proof. pose proof (cw_nm w s Hs). destruct static_w; unfold nm; lia. Qed.
Lemma static_max : 1 <= maxCIDRs s <= 2 ^ 31.
Proof.
  rewrite (cw_max w s Hs). pose proof (cw_diff w s Hs). pose proof static_cm. unfold cm, nm in *.
  split; [pose proof (pow2_pos (nodeMaskSize s - clusterMaskSize s)); lia|].
  apply Z.pow_le_mono_r; lia.
Qed.
Lemma static_base : 0 <= base s < 2 ^ w ∧ base s mod 2 ^ (w - cm) = 0.
Proof.
  split; [apply addr_bound; [apply static_w|apply (cw_net w s Hs)]|apply (cw_net w s Hs)].
Qed.
Lemma static_size : 0 < blockSize w s ∧ maxCIDRs s * blockSize w s = 2 ^ (w - cm).
Proof.
  pose proof static_cm. pose proof static_nm. unfold blockSize. split; [apply pow2_pos; unfold nm in *; lia|].
  rewrite (cw_max w s Hs), <- Z.pow_add_r by (unfold cm, nm in *; lia). f_equal. unfold cm, nm. lia.
Qed.

(** An offset below the size of the cluster stays in the cluster. *)
Lemma static_prefix x : same_prefix w cm (base s) x ↔ 0 <= x - base s < 2 ^ (w - cm).
Proof.
  destruct static_base as [Hb Hm]. pose proof static_cm. pose proof static_nm.
  pose proof (pow2_pos (w - cm) ltac:(lia)) as Hp. unfold same_prefix.
  set (P := 2 ^ (w - cm)) in *.
  pose proof (Z.div_mod (base s) P ltac:(lia)) as D1.
  pose proof (Z.div_mod x P ltac:(lia)) as D2.
  pose proof (Z.mod_pos_bound x P Hp). rewrite Hm in D1.
  split; intros E; [rewrite <- E in D2; lia|].
  apply (Z.div_unique_pos _ _ _ (x - base s)); lia.
Qed.

Lemma static_offset x : same_prefix w cm (base s) x → Z.lxor (base s) x = x - base s.
Proof.
  intros Hx. apply static_prefix in Hx. pose proof static_cm. pose proof static_nm.
  replace x with (base s + (x - base s)) at 1 by lia.
  apply (lxor_offset _ _ (w - cm)); [lia|apply static_base|done].
Qed.

Lemma static_end : base s + 2 ^ (w - cm) <= 2 ^ w.
Proof.
  destruct static_base as [Hb Hm]. pose proof static_cm. pose proof static_nm.
  pose proof (pow2_pos (w - cm) ltac:(lia)). pose proof (pow2_pos cm ltac:(lia)).
  assert (2 ^ w = 2 ^ cm * 2 ^ (w - cm)) as E by (rewrite <- Z.pow_add_r by lia; f_equal; lia).
  set (P := 2 ^ (w - cm)) in *. set (q := base s / P).
  pose proof (Z.div_mod (base s) P ltac:(lia)) as D. rewrite Hm in D. fold q in D.
  rewrite E in Hb |- *. assert (q < 2 ^ cm) by nia. nia.
Qed.

Lemma block_offset i : 0 <= i < maxCIDRs s → 0 <= i * blockSize w s < 2 ^ (w - cm).
Proof. intros Hi. destruct static_size as [H1 <-]. nia. Qed.

(** A number in the cluster is the address of a slice of its own. *)
Lemma static_addr x : same_prefix w cm (base s) x →
  addr_wf w (be_encode (bytes_of w) x) ∧ be_decode (be_encode (bytes_of w) x) = x.
Proof.
  intros Hx. pose proof (proj1 (static_prefix x) Hx). pose proof static_end.
  destruct static_base. apply encode_addr_wf; [apply static_w|lia|].
  intros E. apply (cw_plain w s Hs E). by rewrite <- E.
Qed.

(** The block address as one integer makes the block a network. *)
Lemma block_of_addr i ip :
  0 <= i < maxCIDRs s → length ip = bytes_of w → bytes_ok ip →
  be_decode ip = base s + i * blockSize w s →
  is_block w s i {| net_IP := ip; net_Mask := nodeMask s |}.
Proof.
  intros Hi Hl Hok Hd. pose proof (block_offset i Hi). destruct static_base as [Hb Hm].
  pose proof static_cm. pose proof static_nm. split; [|done]. split; simpl.
  - apply static_w.
  - unfold nm in *. lia.
  - split; [done..|]. intros E. rewrite Hd.
    apply (cw_plain w s Hs E). rewrite <- E. apply static_prefix. lia.
  - rewrite Hd. unfold blockSize. fold nm. rewrite Z_mod_plus_full.
    apply Z.mod_divide in Hm; [|apply Z.pow_nonzero; lia]. apply Z.mod_divide; [apply Z.pow_nonzero; lia|].
    etransitivity; [|exact Hm]. exists (2 ^ (nm - cm)). rewrite <- Z.pow_add_r by lia. f_equal. lia.
  - apply (cw_mask w s Hs).
Qed.
End static.

(** ** Halves of a 16-byte address *)
Lemma be_halves ip : length ip = IPv6len → bytes_ok ip →
  be_decode (take 8 ip) = be_decode ip / 2 ^ 64 ∧ be_decode (drop 8 ip) = be_decode ip mod 2 ^ 64.
Proof.
  intros Hl Hok.
  pose proof (be_decode_bound (drop 8 ip) ltac:(by apply Forall_drop)) as Hb.
  assert (E : be_decode ip = be_decode (take 8 ip) * 2 ^ 64 + be_decode (drop 8 ip)).
  { rewrite <- (take_drop 8 ip) at 1. rewrite be_decode_app, length_drop, Hl. done. }
  rewrite length_drop, Hl in Hb. change (8 * Z.of_nat (IPv6len - 8)) with 64 in Hb.
  rewrite E. split.
  - rewrite Z.div_add_l by lia. rewrite (Z.div_small _ _ Hb). lia.
  - rewrite Z.add_comm, Z_mod_plus_full. by rewrite Z.mod_small.
Qed.

Lemma BE_Uint64_halves ip : length ip = IPv6len → bytes_ok ip →
  BE_Uint64 (take halfIPv6Len ip) = Ret (be_decode ip / 2 ^ 64) ∧
  BE_Uint64 (drop halfIPv6Len ip) = Ret (be_decode ip mod 2 ^ 64).
Proof.
  intros Hl Hok. destruct (be_halves ip Hl Hok) as [<- <-]. unfold BE_Uint64, halfIPv6Len.
  rewrite length_take, length_drop, Hl. simpl.
  split; f_equal; f_equal; rewrite take_ge; (done || rewrite ?length_take, ?length_drop, Hl; simpl; lia).
Qed.

Lemma BE_Uint32_full ip : length ip = IPv4len → BE_Uint32 ip = Ret (be_decode ip).
Proof. intros Hl. unfold BE_Uint32. rewrite Hl. simpl. rewrite take_ge; [done|]. rewrite Hl. done. Qed.

Lemma be_decode_two l r : 0 <= l < 2 ^ 64 → 0 <= r < 2 ^ 64 →
  be_decode (be_encode 8 l ++ be_encode 8 r) = l * 2 ^ 64 + r.
Proof.
  intros Hl Hr. rewrite be_decode_app, !be_decode_encode, be_encode_length.
  change (8 * Z.of_nat 8) with 64. by rewrite !Z.mod_small.
Qed.

(** Shifting a small index does not lose bits. *)
Lemma go_shl_small w' x k : 0 <= x → 0 <= k <= w' → x * 2 ^ k < 2 ^ w' → go_shl w' x k = x * 2 ^ k.
Proof.
  intros Hx Hk Hlt. unfold go_shl. destruct (Z.ltb_spec k w').
  - rewrite Z.shiftl_mul_pow2 by lia. apply Z.mod_small. nia.
  - replace k with w' in * by lia. assert (x = 0) by (pose proof (pow2_pos w'); nia). lia.
Qed.

Section index.
Context (w : Z) (s : CidrSet) (Hs : cidrset_static w s).

Lemma indexToCIDRBlock_v4 i : w = 32 → 0 <= i < maxCIDRs s →
  ∃ n, indexToCIDRBlock s i = Ret n ∧ is_block w s i n.
Proof.
  intros Hw Hi. pose proof (static_cm w s Hs). pose proof (static_nm w s Hs).
  pose proof (static_max w s Hs). destruct (static_base w s Hs) as [Hb Hm].
  pose proof (block_offset w s Hs i Hi) as Ho. pose proof (static_end w s Hs).
  destruct (nw_addr _ _ _ (cw_net w s Hs)) as [Hl Hok _]. unfold blockSize in Ho. subst w.
  unfold indexToCIDRBlock. rewrite To4_v4 by apply (cw_net 32 s Hs).
  rewrite BE_Uint32_full by done. fold (base s). cbn [mbind outcome_bind].
  rewrite (u32_small i), (u32_small (32 - _)) by lia.
  rewrite go_shl_small, (lor_add _ _ (32 - clusterMaskSize s)) by (done || lia).
  eexists. split; [done|].
  apply block_of_addr; [done..|auto with ipam|]. rewrite be_decode_encode.
  apply Z.mod_small. change (8 * Z.of_nat 4) with 32. unfold blockSize. lia.
Qed.

(** The three layouts of an IPv6 block, as sums. *)
Lemma v6_left_only nm i x :
  0 <= nm <= 64 → (x + i * 2 ^ (128 - nm)) = (x / 2 ^ 64 + i * 2 ^ (64 - nm)) * 2 ^ 64 + x mod 2 ^ 64.
Proof.
  intros Hn. replace (128 - nm) with (64 - nm + 64) by lia. rewrite Z.pow_add_r by lia.
  pose proof (Z.div_mod x (2 ^ 64)). lia.
Qed.

Lemma v6_straddle nm i x :
  64 < nm <= 128 →
  x + i * 2 ^ (128 - nm) =
    (x / 2 ^ 64 + i / 2 ^ (nm - 64)) * 2 ^ 64 + x mod 2 ^ 64 + (i mod 2 ^ (nm - 64)) * 2 ^ (128 - nm).
Proof.
  intros Hn. assert (2 ^ 64 = 2 ^ (nm - 64) * 2 ^ (128 - nm)) as E
    by (rewrite <- Z.pow_add_r by lia; f_equal; lia).
  pose proof (pow2_pos (nm - 64) ltac:(lia)).
  pose proof (Z.div_mod x (2 ^ 64) ltac:(lia)) as D1.
  pose proof (Z.div_mod i (2 ^ (nm - 64)) ltac:(lia)) as D2. revert D1 D2. rewrite E.
  generalize (x / (2 ^ (nm - 64) * 2 ^ (128 - nm))), (x mod (2 ^ (nm - 64) * 2 ^ (128 - nm))),
    (i / 2 ^ (nm - 64)), (i mod 2 ^ (nm - 64)). intros q r q' r' -> ->. ring.
Qed.

Lemma go_shl_trunc nm i : 64 < nm <= 128 → 0 <= i →
  go_shl 64 i (128 - nm) = (i mod 2 ^ (nm - 64)) * 2 ^ (128 - nm).
Proof.
  intros Hn Hi. unfold go_shl. destruct (Z.ltb_spec (128 - nm) 64); [|lia].
  rewrite Z.shiftl_mul_pow2 by lia.
  replace (2 ^ 64) with (2 ^ (nm - 64) * 2 ^ (128 - nm)) by (rewrite <- Z.pow_add_r by lia; f_equal; lia).
  by rewrite Z.mul_mod_distr_r by (apply Z.pow_nonzero; lia).
Qed.

(** The bits of the index that reach the left half, computed or skipped. *)
Lemma index_left_bits nm i L k : 64 < nm <= 128 → 0 <= i < 2 ^ 64 → 0 <= k → L mod 2 ^ k = 0 →
  i / 2 ^ (nm - 64) < 2 ^ k →
  (if u64 (nm - 64) <? u64 (64 - LeadingZeros64 (u64 i))
   then Z.lor L (go_shr 64 (u64 i) (u64 (nm - 64))) else L) = L + i / 2 ^ (nm - 64).
Proof.
  intros Hn Hi Hk HL Hlt. rewrite (u64_small i), (u64_small (nm - 64)) by lia.
  pose proof (pow2_pos (nm - 64) ltac:(lia)).
  assert (Hlen : u64 (64 - LeadingZeros64 i) = if i =? 0 then 0 else Z.log2 i + 1).
  { unfold LeadingZeros64. destruct (Z.eqb_spec i 0); [done|].
    pose proof (Z.log2_nonneg i). assert (Z.log2 i < 64) by (apply Z.log2_lt_pow2; lia).
    rewrite u64_small by lia. lia. }
  rewrite Hlen. destruct (Z.ltb_spec (nm - 64) (if i =? 0 then 0 else Z.log2 i + 1)) as [Hb|Hb].
  - destruct (Z.eqb_spec i 0); [lia|].
    assert (Z.log2 i < 64) by (apply Z.log2_lt_pow2; lia).
    unfold go_shr. destruct (Z.ltb_spec (nm - 64) 64); [|lia].
    rewrite Z.shiftr_div_pow2 by lia. apply (lor_add _ _ k); [done..|].
    split; [apply Z.div_pos; lia|done].
  - rewrite Z.div_small; [lia|]. split; [lia|].
    destruct (Z.eqb_spec i 0); [lia|]. apply Z.log2_lt_pow2; lia.
Qed.

Lemma aligned_low x k : 0 <= k <= 64 → x mod 2 ^ k = 0 → (x mod 2 ^ 64) mod 2 ^ k = 0.
Proof.
  intros Hk Hx. rewrite <- Znumtheory.Zmod_div_mod; [done|apply pow2_pos; lia|lia|].
  exists (2 ^ (64 - k)). rewrite <- Z.pow_add_r by lia. f_equal. lia.
Qed.

Lemma aligned_high x k : 64 <= k → x mod 2 ^ k = 0 → x mod 2 ^ 64 = 0 ∧ (x / 2 ^ 64) mod 2 ^ (k - 64) = 0.
Proof.
  intros Hk Hx. apply Z.mod_divide in Hx as [q ->]; [|apply Z.pow_nonzero; lia].
  replace k with ((k - 64) + 64) at 1 2 by lia. rewrite Z.pow_add_r, Z.mul_assoc by lia.
  rewrite Z_mod_mult, Z.div_mul by lia. by rewrite Z_mod_mult.
Qed.

(** The three ways the code lays an index out over the two halves of an
    address [x] aligned on [2 ^ (128 - cm)]. *)
Lemma halves_bound x : 0 <= x < 2 ^ 128 → 0 <= x / 2 ^ 64 < 2 ^ 64 ∧ 0 <= x mod 2 ^ 64 < 2 ^ 64.
Proof.
  intros Hx. split; [|apply Z.mod_pos_bound; lia].
  split; [apply Z.div_pos|apply Z.div_lt_upper_bound]; lia.
Qed.

Lemma layout_left cm nm i x :
  0 <= cm <= nm → nm <= 64 → 0 <= x → x + 2 ^ (128 - cm) <= 2 ^ 128 → x mod 2 ^ (128 - cm) = 0 →
  0 <= i < 2 ^ (nm - cm) → i < 2 ^ 64 →
  let l := Z.lor (x / 2 ^ 64) (go_shl 64 (u64 i) (u64 (64 - nm))) in
  0 <= l < 2 ^ 64 ∧ l * 2 ^ 64 + x mod 2 ^ 64 = x + i * 2 ^ (128 - nm).
Proof.
  intros Hcm Hnm Hx Hend Hal Hi Hi64 l.
  destruct (aligned_high x (128 - cm) ltac:(lia) Hal) as [H0 Hh].
  replace (128 - cm - 64) with (64 - cm) in Hh by lia.
  pose proof (pow2_pos (64 - nm) ltac:(lia)). pose proof (pow2_pos (64 - cm) ltac:(lia)).
  assert (2 ^ (64 - cm) <= 2 ^ 64) by (apply Z.pow_le_mono_r; lia).
  assert (Hlt : i * 2 ^ (64 - nm) < 2 ^ (64 - cm)).
  { replace (64 - cm) with ((nm - cm) + (64 - nm)) by lia. rewrite Z.pow_add_r by lia. nia. }
  assert (El : l = x / 2 ^ 64 + i * 2 ^ (64 - nm)).
  { unfold l. rewrite (u64_small i), (u64_small (64 - nm)) by lia.
    rewrite go_shl_small by lia. apply (lor_add _ _ (64 - cm)); [lia|done|nia]. }
  rewrite El. split; [|by rewrite v6_left_only by lia].
  assert (0 <= x / 2 ^ 64) by (apply Z.div_pos; lia). split; [nia|].
  pose proof (Z.div_mod x (2 ^ 64) ltac:(lia)).
  assert (2 ^ (128 - cm) = 2 ^ (64 - cm) * 2 ^ 64) as E by (rewrite <- Z.pow_add_r by lia; f_equal; lia).
  change (2 ^ 128) with (2 ^ 64 * 2 ^ 64) in Hend. nia.
Qed.

Lemma layout_straddle cm nm i x :
  0 <= cm < 64 → 64 < nm <= 128 → 0 <= x → x + 2 ^ (128 - cm) <= 2 ^ 128 → x mod 2 ^ (128 - cm) = 0 →
  0 <= i < 2 ^ (nm - cm) → i < 2 ^ 64 →
  let l := if u64 (nm - 64) <? u64 (64 - LeadingZeros64 (u64 i))
           then Z.lor (x / 2 ^ 64) (go_shr 64 (u64 i) (u64 (nm - 64))) else x / 2 ^ 64 in
  let r := Z.lor (x mod 2 ^ 64) (go_shl 64 (u64 i) (u64 (128 - nm))) in
  0 <= l < 2 ^ 64 ∧ 0 <= r < 2 ^ 64 ∧ l * 2 ^ 64 + r = x + i * 2 ^ (128 - nm).
Proof.
  intros Hcm Hnm Hx Hend Hal Hi Hi64 l r.
  destruct (aligned_high x (128 - cm) ltac:(lia) Hal) as [H0 Hh].
  replace (128 - cm - 64) with (64 - cm) in Hh by lia.
  pose proof (pow2_pos (nm - 64) ltac:(lia)). pose proof (pow2_pos (128 - nm) ltac:(lia)).
  assert (0 <= i / 2 ^ (nm - 64)) by (apply Z.div_pos; lia).
  assert (Hlt : i / 2 ^ (nm - 64) < 2 ^ (64 - cm)).
  { apply Z.div_lt_upper_bound; [lia|]. rewrite <- Z.pow_add_r by lia.
    replace (nm - 64 + (64 - cm)) with (nm - cm) by lia. apply Hi. }
  assert (El : l = x / 2 ^ 64 + i / 2 ^ (nm - 64)) by (apply (index_left_bits nm i _ (64 - cm)); lia).
  assert (Er : r = (i mod 2 ^ (nm - 64)) * 2 ^ (128 - nm)).
  { unfold r. rewrite H0, Z.lor_0_l, (u64_small i), (u64_small (128 - nm)) by lia.
    apply go_shl_trunc; lia. }
  pose proof (Z.mod_pos_bound i (2 ^ (nm - 64)) ltac:(lia)).
  assert (2 ^ 64 = 2 ^ (nm - 64) * 2 ^ (128 - nm)) as E64 by (rewrite <- Z.pow_add_r by lia; f_equal; lia).
  assert (0 <= x / 2 ^ 64) by (apply Z.div_pos; lia).
  pose proof (v6_straddle nm i x ltac:(lia)) as Hsum. rewrite H0 in Hsum.
  rewrite El, Er. split_and!; [lia| |nia|rewrite E64; nia|lia].
  assert (2 ^ (128 - cm) = 2 ^ (64 - cm) * 2 ^ 64) as E by (rewrite <- Z.pow_add_r by lia; f_equal; lia).
  pose proof (Z.div_mod x (2 ^ 64) ltac:(lia)).
  change (2 ^ 128) with (2 ^ 64 * 2 ^ 64) in Hend. nia.
Qed.

Lemma layout_right cm nm i x :
  64 <= cm <= nm → 64 < nm <= 128 → 0 <= x → x mod 2 ^ (128 - cm) = 0 →
  0 <= i < 2 ^ (nm - cm) → i < 2 ^ 64 →
  let r := Z.lor (x mod 2 ^ 64) (go_shl 64 (u64 i) (u64 (128 - nm))) in
  0 <= r < 2 ^ 64 ∧ x / 2 ^ 64 * 2 ^ 64 + r = x + i * 2 ^ (128 - nm).
Proof.
  intros Hcm Hnm Hx Hal Hi Hi64 r.
  pose proof (aligned_low x (128 - cm) ltac:(lia) Hal) as Hl.
  pose proof (pow2_pos (128 - nm) ltac:(lia)). pose proof (pow2_pos (128 - cm) ltac:(lia)).
  assert (Hlt : i * 2 ^ (128 - nm) < 2 ^ (128 - cm)).
  { replace (128 - cm) with ((nm - cm) + (128 - nm)) by lia. rewrite Z.pow_add_r by lia. nia. }
  assert (2 ^ (128 - cm) <= 2 ^ 64) by (apply Z.pow_le_mono_r; lia).
  assert (Er : r = x mod 2 ^ 64 + i * 2 ^ (128 - nm)).
  { unfold r. rewrite (u64_small i), (u64_small (128 - nm)) by lia.
    rewrite go_shl_small by lia. apply (lor_add _ _ (128 - cm)); [lia|done|nia]. }
  pose proof (Z.mod_pos_bound x (2 ^ 64) ltac:(lia)).
  rewrite Er. split; [|pose proof (Z.div_mod x (2 ^ 64)); lia]. split; [nia|].
  assert (2 ^ 64 = 2 ^ (cm - 64) * 2 ^ (128 - cm)) as E64 by (rewrite <- Z.pow_add_r by lia; f_equal; lia).
  pose proof (Z.div_mod (x mod 2 ^ 64) (2 ^ (128 - cm)) ltac:(lia)) as D. rewrite Hl in D.
  set (q := x mod 2 ^ 64 / 2 ^ (128 - cm)) in D. set (P := 2 ^ (128 - cm)) in *.
  set (A := 2 ^ (cm - 64)) in *. assert (q < A) by nia. nia.
Qed.

Lemma indexToCIDRBlock_v6 i : w = 128 → 0 <= i < maxCIDRs s →
  ∃ n, indexToCIDRBlock s i = Ret n ∧ is_block w s i n.
Proof.
  intros Hw Hi. pose proof (static_cm w s Hs) as Hcm. pose proof (static_nm w s Hs) as Hnm.
  pose proof (static_max w s Hs). destruct (static_base w s Hs) as [Hb Hm].
  pose proof (static_end w s Hs) as He. pose proof (cw_max w s Hs) as Hmax.
  destruct (nw_addr _ _ _ (cw_net w s Hs)) as [Hl Hok Hp]. subst w.
  destruct (BE_Uint64_halves (net_IP (clusterCIDR s)) Hl Hok) as [EL ER]. fold (base s) in EL, ER.
  destruct (halves_bound (base s) Hb) as [HL HR].
  unfold indexToCIDRBlock. rewrite (proj2 (To4_v6 _ Hl Hok)) by auto.
  destruct (To16_wf 128 (net_IP (clusterCIDR s))) as [ip16 ->]; [apply Hs..|].
  rewrite EL, ER. cbn [mbind outcome_bind]. rewrite Hmax in Hi.
  assert (Hnet : ∀ l r, 0 <= l < 2 ^ 64 → 0 <= r < 2 ^ 64 →
    l * 2 ^ 64 + r = base s + i * 2 ^ (128 - nodeMaskSize s) →
    is_block 128 s i {| net_IP := be_encode 8 l ++ be_encode 8 r; net_Mask := nodeMask s |}).
  { intros l r Hl' Hr' E. apply block_of_addr; [done|by rewrite Hmax|..].
    - by rewrite length_app, !be_encode_length.
    - apply Forall_app. auto with ipam.
    - by rewrite be_decode_two. }
  destruct (Z.leb_spec (nodeMaskSize s) 64).
  - destruct (layout_left (clusterMaskSize s) (nodeMaskSize s) i (base s)) as [B1 B2]; try lia.
    eexists. split; [done|]. by apply Hnet.
  - destruct (Z.ltb_spec (clusterMaskSize s) 64).
    + destruct (layout_straddle (clusterMaskSize s) (nodeMaskSize s) i (base s)) as (B1 & B2 & B3); try lia.
      eexists. split; [done|]. by apply Hnet.
    + destruct (layout_right (clusterMaskSize s) (nodeMaskSize s) i (base s)) as [B1 B2]; try lia.
      eexists. split; [done|]. by apply Hnet.
Qed.

(** Index [i] is turned into the [i]-th block, on both families. *)
Lemma indexToCIDRBlock_spec i : 0 <= i < maxCIDRs s →
  ∃ n, indexToCIDRBlock s i = Ret n ∧ is_block w s i n.
Proof.
  intros Hi. destruct (static_w w s Hs); [by apply indexToCIDRBlock_v4|by apply indexToCIDRBlock_v6].
Qed.
End index.

(** ** From addresses back to indices *)

(** The number of the block, counted from the base of the cluster, in which
    address [x] lies. *)
Definition blockIndex (w : Z) (s : CidrSet) (x : Z) : Z := x / blockSize w s - base s / blockSize w s.

Lemma big_Rsh_spec x n : 0 <= x → 0 <= n → big_Rsh x n = x / 2 ^ n.
Proof.
  intros Hx Hn. unfold big_Rsh. destruct (Z.ltb_spec (Z.log2 x) n).
  - symmetry. apply Z.div_small. split; [done|].
    destruct (decide (x = 0)) as [->|]; [by apply pow2_pos|]. apply Z.log2_lt_pow2; lia.
  - by rewrite Z.shiftr_div_pow2.
Qed.

Lemma same_prefix_weaken w k m x y : k <= m <= w → same_prefix w m x y → same_prefix w k x y.
Proof.
  unfold same_prefix. intros Hkm E. replace (w - k) with ((w - m) + (m - k)) by lia.
  rewrite Z.pow_add_r, <- !Z.div_div by (lia || apply Z.pow_nonzero; lia || apply pow2_pos; lia).
  by rewrite E.
Qed.

(** Or on the two halves is or on the whole. *)
Lemma lor_halves x y : 0 <= x → 0 <= y →
  Z.lor (x / 2 ^ 64) (y / 2 ^ 64) * 2 ^ 64 + Z.lor (x mod 2 ^ 64) (y mod 2 ^ 64) = Z.lor x y.
Proof.
  intros Hx Hy. rewrite <- !Z.shiftr_div_pow2, <- Z.shiftr_lor by lia.
  rewrite <- !Z.land_ones, <- Z.land_lor_distr_l by lia.
  rewrite Z.land_ones, Z.shiftr_div_pow2 by lia.
  rewrite (Z.div_mod (Z.lor x y) (2 ^ 64)) at 3 by lia. lia.
Qed.

Lemma go_not_halves n : 0 <= n < 2 ^ 128 →
  go_not 64 ((2 ^ 128 - 1 - n) / 2 ^ 64) = n / 2 ^ 64 ∧ go_not 64 ((2 ^ 128 - 1 - n) mod 2 ^ 64) = n mod 2 ^ 64.
Proof.
  intros Hn. pose proof (Z.div_mod n (2 ^ 64) ltac:(lia)) as D. pose proof (Z.mod_pos_bound n (2 ^ 64) ltac:(lia)).
  set (q := n / 2 ^ 64) in *. set (r := n mod 2 ^ 64) in *.
  assert ((2 ^ 128 - 1 - n) / 2 ^ 64 = 2 ^ 64 - 1 - q) as ->
    by (symmetry; apply (Z.div_unique_pos _ _ _ (2 ^ 64 - 1 - r)); lia).
  assert ((2 ^ 128 - 1 - n) mod 2 ^ 64 = 2 ^ 64 - 1 - r) as ->
    by (symmetry; apply (Z.mod_unique_pos _ _ (2 ^ 64 - 1 - q)); lia).
  unfold go_not. lia.
Qed.

(** [lastIP] is the address with all host bits set. *)
Lemma lastIP_spec w m cidr : net_wf w m cidr →
  ∃ ip, lastIP cidr = Ret ip ∧ length ip = bytes_of w ∧ bytes_ok ip ∧
    be_decode ip = be_decode (net_IP cidr) + 2 ^ (w - m) - 1.
Proof.
  intros [Hw Hm Ha Hal Hmask]. destruct (CIDRMask_spec w m Hw Hm) as (Ml & Mok & Md & _).
  pose proof (addr_bound w _ Hw Ha) as Hb. pose proof (pow2_pos (w - m) ltac:(lia)) as Hp.
  assert (2 ^ (w - m) <= 2 ^ w) as Hle by (apply Z.pow_le_mono_r; lia).
  unfold lastIP. rewrite (To4_wf w) by done.
  assert (Hlor : Z.lor (be_decode (net_IP cidr)) (2 ^ (w - m) - 1) = be_decode (net_IP cidr) + 2 ^ (w - m) - 1)
    by (rewrite (lor_add _ _ (w - m)) by lia; lia).
  assert (Hup : be_decode (net_IP cidr) + 2 ^ (w - m) - 1 < 2 ^ w).
  { assert (2 ^ w = 2 ^ m * 2 ^ (w - m)) as E by (rewrite <- Z.pow_add_r by lia; f_equal; lia).
    pose proof (Z.div_mod (be_decode (net_IP cidr)) (2 ^ (w - m)) ltac:(lia)) as D. rewrite Hal in D.
    set (q := be_decode (net_IP cidr) / 2 ^ (w - m)) in *. set (P := 2 ^ (w - m)) in *.
    assert (q < 2 ^ m) by nia. nia. }
  destruct Ha as [Hl Hok Hpl]. rewrite <- Hmask in *.
  destruct Hw as [-> | ->]; cbn iota beta.
  - rewrite !BE_Uint32_full by done. cbn [mbind outcome_bind]. rewrite Md.
    eexists. split; [done|]. unfold go_not.
    replace (2 ^ 32 - 1 - (2 ^ 32 - 2 ^ (32 - m))) with (2 ^ (32 - m) - 1) by lia. rewrite Hlor.
    split; [done|]. split; [auto with ipam|]. rewrite be_decode_encode. apply Z.mod_small.
    change (8 * Z.of_nat 4) with 32. lia.
  - destruct (BE_Uint64_halves (net_IP cidr) Hl Hok) as [-> ->].
    destruct (BE_Uint64_halves (net_Mask cidr) Ml Mok) as [-> ->]. cbn [mbind outcome_bind]. rewrite Md.
    destruct (go_not_halves (2 ^ (128 - m) - 1)) as [E1 E2]; [lia|].
    replace (2 ^ 128 - 1 - (2 ^ (128 - m) - 1)) with (2 ^ 128 - 2 ^ (128 - m)) in E1, E2 by lia.
    rewrite E1, E2. pose proof (lor_halves (be_decode (net_IP cidr)) (2 ^ (128 - m) - 1)) as E.
    rewrite Hlor in E. set (l := Z.lor (_ / _) _) in *. set (r := Z.lor (_ mod _) _) in *.
    assert (0 <= r < 2 ^ 64).
    { assert (r = Z.lor (be_decode (net_IP cidr)) (2 ^ (128 - m) - 1) mod 2 ^ 64) as ->; [|apply Z.mod_pos_bound; lia].
      unfold r. rewrite <- !Z.land_ones by lia. by rewrite Z.land_lor_distr_l. }
    assert (0 <= l) by (apply Z.lor_nonneg; split; apply Z.div_pos; lia).
    eexists. split; [done|]. rewrite length_app, !be_encode_length. split; [done|].
    split; [apply Forall_app; auto with ipam|].
    rewrite be_decode_two; [lia|split; [done|]|done].
    change (2 ^ 128) with (2 ^ 64 * 2 ^ 64) in Hup. nia.
Qed.

Section indices.
Context (w : Z) (s : CidrSet) (Hs : cidrset_static w s).

Lemma base_aligned : base s mod blockSize w s = 0.
Proof.
  destruct (static_base w s Hs) as [_ Hm]. destruct (static_size w s Hs) as [Hp Hsz].
  apply Z.mod_divide in Hm as [q Hq]; [|rewrite <- Hsz; pose proof (static_max w s Hs); lia].
  rewrite Hq, <- Hsz, Z.mul_assoc. apply Z_mod_mult.
Qed.

Lemma blockIndex_offset x : blockIndex w s x = (x - base s) / blockSize w s.
Proof.
  destruct (static_size w s Hs) as [Hp _]. pose proof base_aligned as Hm. unfold blockIndex.
  pose proof (Z.div_mod (base s) (blockSize w s) ltac:(lia)) as D. rewrite Hm in D.
  set (q := base s / blockSize w s) in *. rewrite D.
  replace (x - (blockSize w s * q + 0)) with (x + (- q) * blockSize w s) by lia.
  rewrite Z_div_plus_full by lia. lia.
Qed.

Lemma blockIndex_range x : same_prefix w (clusterMaskSize s) (base s) x →
  0 <= blockIndex w s x < maxCIDRs s.
Proof.
  intros Hx%(static_prefix w s Hs). destruct (static_size w s Hs) as [Hp Hsz]. rewrite blockIndex_offset.
  split; [apply Z.div_pos; lia|]. apply Z.div_lt_upper_bound; [done|]. lia.
Qed.

(** An address of the cluster is given the number of its block. *)
Lemma getIndexForIP_spec ip : addr_wf w ip →
  same_prefix w (clusterMaskSize s) (base s) (be_decode ip) →
  getIndexForIP s ip = Ret (blockIndex w s (be_decode ip)).
Proof.
  intros Ha Hp. pose proof (blockIndex_range _ Hp) as Hr. rewrite blockIndex_offset in Hr.
  pose proof (static_offset w s Hs _ Hp) as Hx. pose proof (proj1 (static_prefix w s Hs _) Hp) as Hd.
  pose proof (static_max w s Hs). pose proof (static_cm w s Hs). pose proof (static_nm w s Hs).
  pose proof (nw_addr _ _ _ (cw_net w s Hs)) as Hc.
  unfold getIndexForIP. rewrite (To4_wf w) by (done || apply (static_w w s Hs)).
  rewrite blockIndex_offset. unfold blockSize in *. fold (base s) in *.
  destruct (static_w w s Hs) as [-> | ->]; simpl (_ =? 32); cbn iota beta.
  - rewrite !BE_Uint32_full by (apply Ha || apply Hc). cbn [mbind outcome_bind]. fold (base s).
    rewrite Hx, (u32_small (maxCIDRs s)), (u32_small (32 - nodeMaskSize s)) by lia.
    unfold go_shr. rewrite Z.shiftr_div_pow2 by lia.
    assert ((if 32 - nodeMaskSize s <? 32 then (be_decode ip - base s) / 2 ^ (32 - nodeMaskSize s) else 0)
      = (be_decode ip - base s) / 2 ^ (32 - nodeMaskSize s)) as ->.
    { destruct (Z.ltb_spec (32 - nodeMaskSize s) 32); [done|].
      symmetry. apply Z.div_small. replace (nodeMaskSize s) with (clusterMaskSize s) by lia. lia. }
    destruct (Z.leb_spec (maxCIDRs s) ((be_decode ip - base s) / 2 ^ (32 - nodeMaskSize s))); [lia|done].
  - destruct (To16_wf 128 ip) as [ip16 ->]; [by right|done|].
    rewrite Hx, (u64_small (128 - _)), big_Rsh_spec by lia.
    rewrite (u64_small (maxCIDRs s)), u64_small by lia.
    destruct (Z.leb_spec (maxCIDRs s) ((be_decode ip - base s) / 2 ^ (128 - nodeMaskSize s))); [lia|].
    by rewrite i64_small by lia.
Qed.

(** Masking with the node mask stays in the block. *)
Lemma getIndexForCIDR_masked ip nm : length ip = bytes_of w → bytes_ok ip →
  same_prefix w (clusterMaskSize s) (base s) (be_decode ip) →
  getIndexForCIDR s {| net_IP := IP_Mask ip (nodeMask s); net_Mask := nm |}
    = Ret (blockIndex w s (be_decode ip)).
Proof.
  intros Hl Hok Hp. pose proof (static_w w s Hs) as Hw.
  pose proof (static_cm w s Hs). pose proof (static_nm w s Hs).
  assert (Ha : addr_wf w ip).
  { split; [done..|]. intros E. apply (cw_plain w s Hs E). by rewrite <- E. }
  unfold getIndexForCIDR. simpl. rewrite (cw_mask w s Hs).
  destruct (IP_Mask_spec w (nodeMaskSize s) ip) as [Ha' Hd]; [done|lia|done|].
  assert (Hsp : same_prefix w (nodeMaskSize s) (be_decode ip) (be_decode (IP_Mask ip (CIDRMask (nodeMaskSize s) w)))).
  { unfold same_prefix. rewrite Hd. pose proof (pow2_pos (w - nodeMaskSize s) ltac:(lia)).
    pose proof (Z.div_mod (be_decode ip) (2 ^ (w - nodeMaskSize s)) ltac:(lia)).
    replace (be_decode ip - be_decode ip mod 2 ^ (w - nodeMaskSize s))
      with (be_decode ip / 2 ^ (w - nodeMaskSize s) * 2 ^ (w - nodeMaskSize s)) by lia.
    by rewrite Z.div_mul by lia. }
  rewrite getIndexForIP_spec; [|done|].
  - unfold blockIndex, blockSize. f_equal. f_equal. symmetry. exact Hsp.
  - etransitivity; [exact Hp|]. by apply (same_prefix_weaken w _ (nodeMaskSize s)); [lia|].
Qed.
(** Membership in a block, on integers. *)
Lemma block_prefix i n y : is_block w s i n →
  same_prefix w (nodeMaskSize s) (be_decode (net_IP n)) y ↔ blockIndex w s y = i.
Proof.
  intros [_ Hd]. destruct (static_size w s Hs) as [Hp _]. unfold same_prefix, blockIndex.
  fold (blockSize w s). rewrite Hd, Z.div_add by lia. lia.
Qed.

Lemma block_range i : 0 <= i < maxCIDRs s → ∀ y, blockIndex w s y = i →
  same_prefix w (clusterMaskSize s) (base s) y.
Proof.
  intros Hi y Hy. apply (static_prefix w s Hs). rewrite blockIndex_offset in Hy.
  destruct (static_size w s Hs) as [Hp Hsz].
  pose proof (Z.div_mod (y - base s) (blockSize w s) ltac:(lia)) as D. rewrite Hy in D.
  pose proof (Z.mod_pos_bound (y - base s) (blockSize w s) Hp). nia.
Qed.

Lemma blockIndex_mono y z : y <= z → blockIndex w s y <= blockIndex w s z.
Proof.
  intros H. destruct (static_size w s Hs) as [Hp _]. unfold blockIndex.
  pose proof (Z.div_le_mono y z (blockSize w s) Hp H). lia.
Qed.
End indices.

(** ** CIDRs and blocks *)

(** Two networks share an address. *)
Definition overlaps (w : Z) (n1 n2 : IPNet) : Prop :=
  ∃ ip, addr_wf w ip ∧ IPNet_Contains n1 ip = true ∧ IPNet_Contains n2 ip = true.

Section overlap.
Context (w : Z) (s : CidrSet) (Hs : cidrset_static w s).
Context (m : Z) (cidr : IPNet) (Hc : net_wf w m cidr).

Let x := be_decode (net_IP cidr).

(** The test at the top of [getBeginingAndEndIndices]. *)
Definition in_range : bool :=
  IPNet_Contains (clusterCIDR s) (IP_Mask (net_IP cidr) (net_Mask (clusterCIDR s)))
  || IPNet_Contains cidr (IP_Mask (net_IP (clusterCIDR s)) (net_Mask cidr)).

Lemma contains_masked k n ip : net_wf w k n → addr_wf w ip →
  IPNet_Contains n (IP_Mask ip (net_Mask n)) = true ↔ same_prefix w k (be_decode (net_IP n)) (be_decode ip).
Proof.
  intros Hn Ha. destruct (IP_Mask_spec w k ip) as [Ha' Hd]; [apply Hn|apply Hn|done|].
  rewrite (nw_mask _ _ _ Hn), (IPNet_Contains_spec w k) by done. rewrite Hd. unfold same_prefix.
  pose proof (nw_k _ _ _ Hn). pose proof (pow2_pos (w - k) ltac:(lia)).
  pose proof (Z.div_mod (be_decode ip) (2 ^ (w - k)) ltac:(lia)).
  replace (be_decode ip - be_decode ip mod 2 ^ (w - k))
    with (be_decode ip / 2 ^ (w - k) * 2 ^ (w - k)) by lia.
  by rewrite Z.div_mul by lia.
Qed.

Lemma in_range_spec : in_range = true ↔
  same_prefix w (clusterMaskSize s) (base s) x ∨ same_prefix w m x (base s).
Proof.
  unfold in_range. rewrite orb_true_iff.
  rewrite (contains_masked (clusterMaskSize s)) by (apply Hs || apply Hc).
  by rewrite (contains_masked m) by (done || apply (cw_net w s Hs)).
Qed.

Lemma in_range_overlaps : in_range = true ↔ overlaps w (clusterCIDR s) cidr.
Proof.
  rewrite in_range_spec. pose proof (nw_k _ _ _ Hc) as Hm.
  pose proof (nw_k _ _ _ (cw_net w s Hs)) as Hk. split.
  - intros [H|H].
    + exists (net_IP cidr). split; [apply Hc|].
      rewrite (IPNet_Contains_spec w (clusterMaskSize s)) by (apply Hs || apply Hc).
      by rewrite (IPNet_Contains_spec w m) by (done || apply Hc).
    + exists (net_IP (clusterCIDR s)). split; [apply (cw_net w s Hs)|].
      rewrite (IPNet_Contains_spec w (clusterMaskSize s)) by apply Hs.
      by rewrite (IPNet_Contains_spec w m) by (done || apply (cw_net w s Hs)).
  - intros (ip & Ha & H1 & H2).
    apply (IPNet_Contains_spec w (clusterMaskSize s)) in H1; [|apply Hs|done].
    apply (IPNet_Contains_spec w m) in H2; [|done..]. fold x in H2. fold (base s) in H1.
    destruct (Z_le_gt_dec (clusterMaskSize s) m).
    + left. etransitivity; [exact H1|]. symmetry.
      by apply (same_prefix_weaken w _ m); [lia|].
    + right. etransitivity; [exact H2|]. symmetry.
      by apply (same_prefix_weaken w _ (clusterMaskSize s)); [lia|].
Qed.

Lemma getIndices_cases :
  getBeginingAndEndIndices s (Some cidr) =
    if in_range then
      if clusterMaskSize s <? m then
        begin ← getIndexForCIDR s {| net_IP := IP_Mask (net_IP cidr) (nodeMask s); net_Mask := nodeMask s |};
        ip ← lastIP cidr;
        end_ ← getIndexForCIDR s {| net_IP := IP_Mask ip (nodeMask s); net_Mask := nodeMask s |};
        Ret (begin, end_)
      else Ret (0, maxCIDRs s - 1)
    else Err (Errorf "cidr %v is out the range of cluster cidr %v").
Proof.
  unfold getBeginingAndEndIndices. rewrite (nw_mask _ _ _ Hc).
  destruct (CIDRMask_spec w m) as (_ & _ & _ & ->); [apply Hc..|].
  rewrite <- (nw_mask _ _ _ Hc), <- negb_orb. unfold in_range.
  by destruct (_ || _).
Qed.

Lemma getIndices_inside : in_range = true → clusterMaskSize s < m →
  getBeginingAndEndIndices s (Some cidr) = Ret (blockIndex w s x, blockIndex w s (x + 2 ^ (w - m) - 1)) ∧
  same_prefix w (clusterMaskSize s) (base s) x ∧
  same_prefix w (clusterMaskSize s) (base s) (x + 2 ^ (w - m) - 1).
Proof.
  intros Hin Hm. pose proof (nw_k _ _ _ Hc) as Hk. pose proof (static_cm w s Hs).
  pose proof (pow2_pos (w - m) ltac:(lia)) as Hp.
  assert (Hx : same_prefix w (clusterMaskSize s) (base s) x).
  { apply in_range_spec in Hin as [|Hx]; [done|]. symmetry.
    by apply (same_prefix_weaken w _ m); [lia|]. }
  assert (Hl : same_prefix w (clusterMaskSize s) (base s) (x + 2 ^ (w - m) - 1)).
  { etransitivity; [exact Hx|]. apply (same_prefix_weaken w _ m); [lia|]. unfold same_prefix.
    pose proof (nw_aligned _ _ _ Hc) as Hal. fold x in Hal.
    pose proof (Z.div_mod x (2 ^ (w - m)) ltac:(lia)) as D. rewrite Hal in D.
    apply (Z.div_unique_pos _ _ _ (2 ^ (w - m) - 1)); lia. }
  split; [|done]. rewrite getIndices_cases, Hin. rewrite (proj2 (Z.ltb_lt _ _)) by done.
  rewrite (getIndexForCIDR_masked w s Hs) by (done || apply Hc). cbn [mbind outcome_bind].
  destruct (lastIP_spec w m cidr Hc) as (ip & -> & Hlen & Hok & Hd). cbn [mbind outcome_bind].
  fold x in Hd. rewrite (getIndexForCIDR_masked w s Hs) by (done || by rewrite Hd).
  cbn [mbind outcome_bind]. by rewrite Hd.
Qed.

Lemma overlaps_block i n : 0 <= i < maxCIDRs s → is_block w s i n →
  overlaps w n cidr ↔ ∃ y, blockIndex w s y = i ∧ same_prefix w m x y.
Proof.
  intros Hi Hn. split.
  - intros (ip & Ha & H1 & H2). exists (be_decode ip).
    apply (IPNet_Contains_spec w (nodeMaskSize s)) in H1; [|apply Hn|done].
    apply (IPNet_Contains_spec w m) in H2; [|done..]. by rewrite <- (block_prefix w s Hs i n).
  - intros (y & Hy & Hxy). pose proof (block_range w s Hs i Hi y Hy) as Hr.
    destruct (static_addr w s Hs y Hr) as [Ha Hd]. exists (be_encode (bytes_of w) y).
    rewrite (IPNet_Contains_spec w (nodeMaskSize s)), (IPNet_Contains_spec w m) by (done || apply Hn).
    rewrite Hd. by rewrite (block_prefix w s Hs i n).
Qed.

(** The numbers that share the prefix of the aligned [x] form an interval. *)
Lemma prefix_interval y : same_prefix w m x y ↔ x <= y < x + 2 ^ (w - m).
Proof.
  pose proof (nw_k _ _ _ Hc) as Hk. pose proof (pow2_pos (w - m) ltac:(lia)) as Hp.
  pose proof (nw_aligned _ _ _ Hc) as Hal. fold x in Hal. unfold same_prefix.
  set (P := 2 ^ (w - m)) in *.
  pose proof (Z.div_mod x P ltac:(lia)) as D1. pose proof (Z.div_mod y P ltac:(lia)) as D2.
  pose proof (Z.mod_pos_bound y P Hp). rewrite Hal in D1.
  split; intros E; [rewrite <- E in D2; lia|].
  apply (Z.div_unique_pos _ _ _ (y - x)); lia.
Qed.

(** A CIDR inside the cluster: the blocks from its first to its last address. *)
Lemma inside_blocks i n : 0 <= i < maxCIDRs s → is_block w s i n →
  blockIndex w s x <= i <= blockIndex w s (x + 2 ^ (w - m) - 1) ↔ overlaps w n cidr.
Proof.
  pose proof (nw_k _ _ _ Hc) as Hk. pose proof (pow2_pos (w - m) ltac:(lia)) as Hp.
  destruct (static_size w s Hs) as [Hsz _].
  intros Hi Hn. rewrite (overlaps_block i n Hi Hn). split.
  - intros [Hb He]. exists (Z.max x (base s + i * blockSize w s)).
    rewrite prefix_interval, (blockIndex_offset w s Hs).
    rewrite (blockIndex_offset w s Hs) in Hb, He.
    pose proof (Z.div_mod (x - base s) (blockSize w s) ltac:(lia)).
    pose proof (Z.mod_pos_bound (x - base s) (blockSize w s) Hsz).
    pose proof (Z.mul_div_le (x + 2 ^ (w - m) - 1 - base s) (blockSize w s) Hsz).
    split; [|nia]. symmetry. destruct (Z.max_spec x (base s + i * blockSize w s)) as [[? ->]|[? ->]].
    + apply (Z.div_unique_pos _ _ _ 0); lia.
    + assert ((x - base s) / blockSize w s = i) as E by nia. by rewrite E.
  - intros (y & <- & Hy%prefix_interval). split; apply (blockIndex_mono w s Hs); lia.
Qed.

(** A CIDR that covers the cluster meets every block. *)
Lemma cover_blocks i n : in_range = true → m <= clusterMaskSize s →
  0 <= i < maxCIDRs s → is_block w s i n → overlaps w n cidr.
Proof.
  intros Hin Hm Hi Hn. pose proof (nw_k _ _ _ Hc). pose proof (static_cm w s Hs).
  pose proof (static_nm w s Hs). rewrite (overlaps_block i n Hi Hn).
  exists (base s + i * blockSize w s). split.
  { apply (block_prefix w s Hs i n _ Hn). by rewrite (proj2 Hn). }
  assert (same_prefix w m x (base s)) as Hxb.
  { apply in_range_spec in Hin as [Hin|]; [|done]. symmetry.
    by apply (same_prefix_weaken w _ (clusterMaskSize s)); [lia|]. }
  etransitivity; [exact Hxb|]. apply (same_prefix_weaken w _ (clusterMaskSize s)); [lia|].
  apply (static_prefix w s Hs). pose proof (block_offset w s Hs i Hi). lia.
Qed.

(** The index interval computed for a CIDR is exactly the set of blocks that
    intersect it. *)
Lemma getIndices_exact : overlaps w (clusterCIDR s) cidr →
  ∃ b e, getBeginingAndEndIndices s (Some cidr) = Ret (b, e) ∧ 0 <= b ∧ b <= e ∧ e < maxCIDRs s ∧
    ∀ i n, 0 <= i < maxCIDRs s → is_block w s i n → (b <= i <= e ↔ overlaps w n cidr).
Proof.
  intros Hin%in_range_overlaps. pose proof (static_max w s Hs). pose proof (nw_k _ _ _ Hc).
  pose proof (pow2_pos (w - m) ltac:(lia)).
  destruct (Z_lt_le_dec (clusterMaskSize s) m) as [Hm|Hm].
  - destruct (getIndices_inside Hin Hm) as (-> & B1 & B2).
    pose proof (blockIndex_range w s Hs _ B1). pose proof (blockIndex_range w s Hs _ B2).
    eexists _, _. split; [done|]. split_and!; [lia|apply (blockIndex_mono w s Hs); lia|lia|apply inside_blocks].
  - rewrite getIndices_cases, Hin. rewrite (proj2 (Z.ltb_ge _ _)) by done.
    eexists _, _. split; [done|]. split_and!; [lia..|]. intros i n Hi Hn.
    split; [intros _|lia]. by apply (cover_blocks i n).
Qed.

(** A CIDR that misses the cluster is refused. *)
Lemma getIndices_refused : ¬ overlaps w (clusterCIDR s) cidr →
  getBeginingAndEndIndices s (Some cidr) = Err (Errorf "cidr %v is out the range of cluster cidr %v").
Proof.
  intros Hno. rewrite getIndices_cases. destruct in_range eqn:E; [|done].
  by apply in_range_overlaps in E.
Qed.
End overlap.
