(* ===== verification/CidrSetOps.v ===== *)
(** * CidrSetOps: the operations of a CIDR set are correct

    Functional behaviour of [NewCIDRSet], [AllocateNext], [Occupy] and
    [Release] on every branch, preservation of the invariant [cidrset_wf], the
    exhaustion of the set and the allocate/release round trip. *)

From S2P Require Import Prelude Bits GoNet GoNetText CidrSet CidrSetIndex.
Local Open Scope Z_scope.

(** ** What the operations leave alone *)
Definition same_static (s s' : CidrSet) : Prop :=
  clusterCIDR s' = clusterCIDR s ∧ clusterMaskSize s' = clusterMaskSize s ∧
  nodeMask s' = nodeMask s ∧ nodeMaskSize s' = nodeMaskSize s ∧
  maxCIDRs s' = maxCIDRs s ∧ label s' = label s.

#[global] Instance same_static_equiv : Equivalence same_static.
Proof. split; unfold same_static; [intros ?|intros ?? ?|intros ??? ? ?]; intuition congruence. Qed.

Lemma static_ext w s s' : same_static s s' → cidrset_static w s → cidrset_static w s'.
Proof.
  intros (E1 & E2 & E3 & E4 & E5 & _) [H1 H2 H3 H4 H5 H6].
  unfold base in *. split; unfold base; rewrite ?E1, ?E2, ?E3, ?E4, ?E5; done.
Qed.

#[global] Instance is_block_proper w : Proper (same_static ==> eq ==> eq ==> iff) (is_block w).
Proof.
  intros s s' (E1 & E2 & E3 & E4 & E5 & _) ? i -> ? n ->. unfold is_block, base, blockSize.
  by rewrite E1, E4.
Qed.

Lemma is_block_static w s s' i n : same_static s s' → is_block w s' i n ↔ is_block w s i n.
Proof. intros H. by rewrite H. Qed.

(** Blocks are determined by their index, and distinct blocks are disjoint. *)
Lemma is_block_inj w s i n n' : is_block w s i n → is_block w s i n' → n = n'.
Proof.
  intros [W E] [W' E']. destruct n as [ip m], n' as [ip' m']; simpl in *.
  rewrite (nw_mask _ _ _ W : m = _), (nw_mask _ _ _ W' : m' = _). f_equal.
  destruct (nw_addr _ _ _ W) as [L O _], (nw_addr _ _ _ W') as [L' O' _]; simpl in *.
  apply be_decode_inj; congruence.
Qed.

Lemma blocks_disjoint w s i j n n' : cidrset_static w s →
  0 <= i < maxCIDRs s → 0 <= j < maxCIDRs s → is_block w s i n → is_block w s j n' →
  overlaps w n n' ↔ i = j.
Proof.
  intros Hs Hi Hj Hn Hn'. split.
  - intros Hov. rewrite (overlaps_block w s Hs _ n' (proj1 Hn') i n Hi Hn) in Hov.
    destruct Hov as (y & Hy & Hp). apply (block_prefix w s Hs j n' y Hn') in Hp. congruence.
  - intros ->. rewrite (is_block_inj w s j n n') by done. exists (net_IP n').
    rewrite (IPNet_Contains_spec w (nodeMaskSize s)) by apply Hn'. split; [apply Hn'|done].
Qed.

(** ** [NewCIDRSet] *)
Lemma NewCIDRSet_spec w k n nm : net_wf w k n → k <= nm <= w → nm - k <= 31 →
  (w = 128 → ∀ y, same_prefix 128 k (be_decode (net_IP n)) y → y / 2 ^ 32 ≠ 65535) →
  (w = 128 → nm - k <= clusterSubnetMaxDiff) →
  ∃ s, NewCIDRSet (Some n) nm = Ret s ∧ cidrset_wf w s ∧ clusterCIDR s = n ∧ nodeMaskSize s = nm ∧
    maxCIDRs s = 2 ^ (nm - k) ∧ used s = 0 ∧ label s = IPNet_String n.
Proof.
  intros Hn Hk Hd Hp H16. pose proof (nw_k _ _ _ Hn). unfold NewCIDRSet.
  destruct (CIDRMask_spec w k) as (_ & _ & _ & Hsz); [apply Hn|done|].
  rewrite (nw_mask _ _ _ Hn), Hsz. rewrite (To4_wf w) by apply Hn.
  assert ((bool_decide ((if w =? 32 then Some (net_IP n) else None) = None)
    && (clusterSubnetMaxDiff <? nm - k)) = false) as ->.
  { apply andb_false_iff. destruct (nw_w _ _ _ Hn) as [-> | ->]; [by left|right].
    apply Z.ltb_ge. auto. }
  assert (i64 (go_shl 64 1 (u32 (nm - k))) = 2 ^ (nm - k)) as ->.
  { assert (2 ^ (nm - k) <= 2 ^ 31) by (apply Z.pow_le_mono_r; lia).
    rewrite u32_small by lia. rewrite go_shl_small, Z.mul_1_l by lia.
    apply i64_small. pose proof (pow2_pos (nm - k)). lia. }
  eexists. split; [done|]. split; [|done]. pose proof (pow2_pos (nm - k) ltac:(lia)).
  split; simpl; [|lia|pose proof (pow2_pos (2 ^ (nm - k))); lia|by rewrite bits_count_0|done].
  split; simpl; [done|done|lia|lia|done|done].
Qed.

(** A cluster too wide for the bitmap is refused, for IPv6 only. *)
Lemma NewCIDRSet_too_big k n nm : net_wf 128 k n → clusterSubnetMaxDiff < nm - k →
  NewCIDRSet (Some n) nm = Err ErrCIDRSetSubNetTooBig.
Proof.
  intros Hn Hd. unfold NewCIDRSet.
  destruct (CIDRMask_spec 128 k) as (_ & _ & _ & Hsz); [apply Hn|apply Hn|].
  rewrite (nw_mask _ _ _ Hn), Hsz, (To4_wf 128) by apply Hn. simpl.
  by rewrite (proj2 (Z.ltb_lt _ _)).
Qed.

(** ** [AllocateNext] *)

(** Reading the bitmap around the circle from [c]. *)
Abbreviation circ max c k := (((c + k) mod max)).

Lemma findCandidate_spec u max fuel : 0 < max → ∀ i c,
  0 <= c < max → i + Z.of_nat fuel <= max →
  (∃ k, 0 <= k < Z.of_nat fuel ∧ Z.testbit u (circ max c k) = false) →
  ∃ k, 0 <= k < Z.of_nat fuel ∧ findCandidate fuel u max i c = (i + k, circ max c k) ∧
    Z.testbit u (circ max c k) = false ∧ ∀ j, 0 <= j < k → Z.testbit u (circ max c j) = true.
Proof.
  intros Hmax. induction fuel as [|fuel IH]; intros i c Hc Hif (k & Hk & Hfree); [lia|].
  cbn [findCandidate]. destruct (Z.ltb_spec i max); [|lia].
  destruct (Z.testbit u c) eqn:Hu.
  - assert (k ≠ 0) by (intros ->; rewrite Z.add_0_r, Z.mod_small in Hfree by lia; congruence).
    rewrite Z.rem_mod_nonneg by lia.
    assert (Hstep : ∀ j, circ max ((c + 1) mod max) j = circ max c (j + 1)).
    { intros j. rewrite Zplus_mod_idemp_l. f_equal. lia. }
    destruct (IH (i + 1) ((c + 1) mod max)) as (k' & Hk' & E & F & A).
    { apply Z.mod_pos_bound. lia. }
    { lia. }
    { exists (k - 1). split; [lia|]. rewrite Hstep. by replace (k - 1 + 1) with k by lia. }
    exists (k' + 1). split; [lia|]. rewrite E, Hstep. rewrite Hstep in F.
    split; [f_equal; lia|]. split; [done|]. intros j Hj. destruct (decide (j = 0)) as [->|].
    + by rewrite Z.add_0_r, Z.mod_small.
    + replace j with (j - 1 + 1) by lia. rewrite <- Hstep. apply A. lia.
  - exists 0. rewrite !Z.add_0_r, Z.mod_small by lia. split; [lia|]. split; [done|]. split; [done|lia].
Qed.

(** Some block is free as long as not all are counted. *)
Lemma free_from w s : cidrset_wf w s → allocatedCIDRs s ≠ maxCIDRs s →
  ∃ k, 0 <= k < maxCIDRs s ∧ Z.testbit (used s) (circ (maxCIDRs s) (nextCandidate s) k) = false.
Proof.
  intros Hs Hne. pose proof (static_max w s (cw_static w s Hs)). pose proof (cw_next w s Hs).
  rewrite (cw_count w s Hs) in Hne. pose proof (bits_count_bound (Z.to_nat (maxCIDRs s)) (used s)).
  destruct (bits_count_free (Z.to_nat (maxCIDRs s)) (used s)) as (f & Hf & Hb); [lia|].
  exists ((f - nextCandidate s) mod maxCIDRs s). split; [apply Z.mod_pos_bound; lia|].
  rewrite Zplus_mod_idemp_r. replace (nextCandidate s + (f - nextCandidate s)) with f by lia.
  rewrite Z.mod_small by lia. done.
Qed.

(** What a successful allocation of block [i] does. *)
Record allocated_block (w : Z) (s s' : CidrSet) (i : Z) (n : IPNet) : Prop := {
  ab_range : 0 <= i < maxCIDRs s;
  ab_free : Z.testbit (used s) i = false;
  ab_block : is_block w s i n;
  ab_wf : cidrset_wf w s';
  ab_static : same_static s s';
  ab_used : used s' = Z.setbit (used s) i;
  ab_count : allocatedCIDRs s' = allocatedCIDRs s + 1
}.

Lemma AllocateNext_ok w s : cidrset_wf w s → allocatedCIDRs s ≠ maxCIDRs s →
  ∃ k n s', let i := circ (maxCIDRs s) (nextCandidate s) k in
    AllocateNext s = (Ret n, s') ∧ allocated_block w s s' i n ∧
    nextCandidate s' = (i + 1) mod maxCIDRs s ∧ 0 <= k < maxCIDRs s ∧
    ∀ j, 0 <= j < k → Z.testbit (used s) (circ (maxCIDRs s) (nextCandidate s) j) = true.
Proof.
  intros Hs Hne. pose proof (static_max w s (cw_static w s Hs)) as Hm. pose proof (cw_next w s Hs).
  destruct (findCandidate_spec (used s) (maxCIDRs s) (Z.to_nat (maxCIDRs s))) with (i := 0) (c := nextCandidate s)
    as (k & Hk & E & F & A); [lia|lia|lia| |].
  { destruct (free_from w s Hs Hne) as (k & Hk & Hf). exists k. split; [lia|done]. }
  unfold AllocateNext. rewrite (proj2 (Z.eqb_neq _ _) Hne), E, (proj2 (Z.eqb_neq _ _)) by lia.
  set (i := circ (maxCIDRs s) (nextCandidate s) k) in *.
  assert (Hi : 0 <= i < maxCIDRs s) by (apply Z.mod_pos_bound; lia).
  match goal with |- context [(indexToCIDRBlock ?x i, _)] => set (s' := x) end.
  assert (Hst : same_static s s') by done.
  pose proof (static_ext w s s' Hst (cw_static w s Hs)) as Hs'.
  destruct (indexToCIDRBlock_spec w s' Hs' i) as (n & -> & Hb); [done|].
  exists k, n, s'. split; [done|]. split; [|split; [simpl; apply Z.rem_mod_nonneg; lia|split; [lia|done]]].
  split; [done|done|by apply (is_block_static w s s' i n Hst)| |done|done|done].
  split; simpl; [done| | | |pose proof (cw_metrics w s Hs); lia].
  - rewrite Z.rem_mod_nonneg by lia. apply Z.mod_pos_bound. lia.
  - apply setbit_bound; [apply Hs|lia].
  - rewrite bits_count_setbit by (lia || done). by rewrite (cw_count w s Hs).
Qed.

Lemma AllocateNext_full s : allocatedCIDRs s = maxCIDRs s →
  AllocateNext s = (Err ErrCIDRRangeNoCIDRsRemaining, s).
Proof. intros E. unfold AllocateNext. by rewrite E, Z.eqb_refl. Qed.

(** ** [Occupy] and [Release] *)

(** One pass of either loop, seen through the bitmap. *)
Definition bit_step (f : CidrSet → Z → CidrSet) (b : bool) : Prop :=
  ∀ w s i, cidrset_wf w s → 0 <= i < maxCIDRs s →
    cidrset_wf w (f s i) ∧ same_static s (f s i) ∧ nextCandidate (f s i) = nextCandidate s ∧
    ∀ j, Z.testbit (used (f s i)) j = if j =? i then b else Z.testbit (used s) j.

Lemma occupyBit_step : bit_step occupyBit true.
Proof.
  intros w s i Hs Hi. unfold occupyBit. destruct (Z.testbit (used s) i) eqn:E.
  - split_and!; [done..|]. intros j. by zcases; subst.
  - split_and!; [|done..|].
    + split; simpl; [by apply (static_ext w s), Hs|apply Hs| | |pose proof (cw_metrics w s Hs); lia].
      * apply setbit_bound; [apply Hs|lia].
      * rewrite bits_count_setbit by (lia || done). by rewrite (cw_count w s Hs).
    + intros j. simpl. rewrite Z.setbit_eqb by lia. rewrite Z.eqb_sym. by destruct (j =? i).
Qed.

Lemma releaseBit_step : bit_step releaseBit false.
Proof.
  intros w s i Hs Hi. unfold releaseBit. destruct (Z.testbit (used s) i) eqn:E.
  - split_and!; [|done..|].
    + split; simpl; [by apply (static_ext w s), Hs|apply Hs| | |pose proof (cw_metrics w s Hs); lia].
      * apply clearbit_bound; [apply Hs|lia|lia].
      * rewrite bits_count_clearbit by (lia || done). by rewrite (cw_count w s Hs).
    + intros j. simpl. rewrite Z.clearbit_eqb. rewrite Z.eqb_sym. destruct (j =? i); by rewrite ?andb_true_r, ?andb_false_r.
  - split_and!; [done..|]. intros j. by zcases; subst.
Qed.

(** The whole loop sets the bits of the interval and leaves the others. *)
Lemma forRange_spec f b w s lo hi : bit_step f b → cidrset_wf w s →
  0 <= lo → hi < maxCIDRs s → let s' := forRange f lo hi s in
  cidrset_wf w s' ∧ same_static s s' ∧ nextCandidate s' = nextCandidate s ∧
  ∀ j, Z.testbit (used s') j = if (lo <=? j) && (j <=? hi) then b else Z.testbit (used s) j.
Proof.
  intros Hf. unfold forRange.
  remember (Z.to_nat (hi - lo + 1)) as k eqn:Ek. revert lo s Ek.
  induction k as [|k IH]; intros lo s Ek Hs Hlo Hhi.
  - rewrite seqZ_nil by lia. split_and!; [done..|]. intros j. simpl.
    destruct (Z.leb_spec lo j), (Z.leb_spec j hi); simpl; done || lia.
  - rewrite seqZ_cons by lia. simpl.
    destruct (Hf w s lo Hs ltac:(lia)) as (W & S & N & B).
    assert (Em : maxCIDRs (f s lo) = maxCIDRs s) by apply S.
    replace (Z.pred (hi - lo + 1)) with (hi - Z.succ lo + 1) by lia.
    destruct (IH (Z.succ lo) (f s lo)) as (W' & S' & N' & B'); [lia|done|lia|lia|].
    split_and!; [done|by etransitivity|by rewrite N'|].
    intros j. rewrite B', B.
    destruct (Z.leb_spec (Z.succ lo) j), (Z.leb_spec lo j), (Z.leb_spec j hi), (Z.eqb_spec j lo); simpl; done || lia.
Qed.

Lemma setUsage_same w s : cidrset_wf w s →
  cidrset_wf w (setUsage s) ∧ same_static s (setUsage s) ∧ nextCandidate (setUsage s) = nextCandidate s ∧
  used (setUsage s) = used s.
Proof.
  intros Hs. split_and!; [|done..]. split; simpl; try apply Hs. by apply (static_ext w s), Hs.
Qed.

(** The bitmap after an operation that gives bit [b] to the blocks of [c]. *)
Record marked (w : Z) (b : bool) (s s' : CidrSet) (c : IPNet) : Prop := {
  mk_wf : cidrset_wf w s';
  mk_static : same_static s s';
  mk_next : nextCandidate s' = nextCandidate s;
  mk_dec : ∀ i n, 0 <= i < maxCIDRs s → is_block w s i n → overlaps w n c ∨ ¬ overlaps w n c;
  mk_in : ∀ i n, 0 <= i < maxCIDRs s → is_block w s i n → overlaps w n c → Z.testbit (used s') i = b;
  mk_out : ∀ i n, 0 <= i < maxCIDRs s → is_block w s i n → ¬ overlaps w n c →
    Z.testbit (used s') i = Z.testbit (used s) i
}.

(** The indices of the blocks that meet [c] are an interval of the bitmap. *)
Definition touched (w : Z) (s : CidrSet) (c : IPNet) (lo hi : Z) : Prop :=
  0 <= lo <= hi ∧ hi < maxCIDRs s ∧
  ∀ i n, 0 <= i < maxCIDRs s → is_block w s i n → (lo <= i <= hi ↔ overlaps w n c).

Lemma interval_bits f b w s k c : bit_step f b → cidrset_wf w s → net_wf w k c →
  overlaps w (clusterCIDR s) c →
  ∃ lo hi, getBeginingAndEndIndices s (Some c) = Ret (lo, hi) ∧ touched w s c lo hi ∧
    let s' := setUsage (forRange f lo hi s) in
    cidrset_wf w s' ∧ same_static s s' ∧ nextCandidate s' = nextCandidate s ∧
    ∀ j, Z.testbit (used s') j = if (lo <=? j) && (j <=? hi) then b else Z.testbit (used s) j.
Proof.
  intros Hf Hs Hc Hov.
  destruct (getIndices_exact w s (cw_static w s Hs) k c Hc Hov) as (lo & hi & E & H1 & H2 & H3 & H4).
  exists lo, hi. split; [done|]. split; [done|].
  destruct (forRange_spec f b w s lo hi Hf Hs H1 H3) as (W & S & N & B).
  destruct (setUsage_same w _ W) as (W' & S' & N' & U').
  split_and!; [done|by etransitivity|congruence|]. intros j. by rewrite U', B.
Qed.

Lemma marked_bits f b w s k c : bit_step f b → cidrset_wf w s → net_wf w k c →
  overlaps w (clusterCIDR s) c →
  ∃ lo hi, getBeginingAndEndIndices s (Some c) = Ret (lo, hi) ∧ marked w b s (setUsage (forRange f lo hi s)) c.
Proof.
  intros Hf Hs Hc Hov.
  destruct (interval_bits f b w s k c Hf Hs Hc Hov) as (lo & hi & E & (_ & _ & H4) & W & S & N & B).
  exists lo, hi. split; [done|]. split; [done..| | |]; intros i n Hi Hn; [|intros Ho..].
  { rewrite <- (H4 i n Hi Hn). lia. }
  all: rewrite B; specialize (H4 i n Hi Hn);
    destruct (Z.leb_spec lo i), (Z.leb_spec i hi); simpl; try done;
    first [exfalso; apply H4 in Ho; lia | exfalso; apply Ho, H4; lia].
Qed.

(** An address of one family is in no network of the other. *)
Lemma overlaps_family w w' k k' n c : net_wf w k n → net_wf w' k' c → w' ≠ w → ¬ overlaps w n c.
Proof.
  intros Hn Hc Hne (ip & Hip & _ & Hin).
  by rewrite (IPNet_Contains_family w' w k' c ip Hc (nw_w _ _ _ Hn) Hip Hne) in Hin.
Qed.

(** A network of the other family is refused. *)
Lemma getIndices_family w w' s k c : cidrset_static w s → net_wf w' k c → w' ≠ w →
  getBeginingAndEndIndices s (Some c) = Err (Errorf "cidr %v is out the range of cluster cidr %v").
Proof.
  intros Hs Hc Hne. unfold getBeginingAndEndIndices. destruct (IPMask_Size _).
  rewrite (IPNet_Contains_masked_family w w' (clusterMaskSize s)); [|apply Hs|apply Hc|apply Hc|done].
  rewrite (IPNet_Contains_masked_family w' w k); [done|done|apply (cw_net w s Hs)|apply Hs|done].
Qed.

(** A CIDR of either family that misses the cluster. *)
Lemma getIndices_miss w w' s k c : cidrset_static w s → net_wf w' k c → ¬ overlaps w (clusterCIDR s) c →
  getBeginingAndEndIndices s (Some c) = Err (Errorf "cidr %v is out the range of cluster cidr %v").
Proof.
  intros Hs Hc Hno. destruct (decide (w' = w)) as [->|Hne].
  - by apply (getIndices_refused w s Hs k).
  - by apply (getIndices_family w w' s k).
Qed.

(** A network that meets the cluster is of its family. *)
Lemma overlaps_width w w' s k c : cidrset_static w s → net_wf w' k c → overlaps w (clusterCIDR s) c → w' = w.
Proof.
  intros Hs Hc Hov. destruct (decide (w' = w)); [done|].
  by apply (overlaps_family w w' (clusterMaskSize s) k _ c) in Hov; [|apply Hs|..].
Qed.

(** Overlap is decided by the test the code runs. *)
Lemma overlaps_dec w w' s k c : cidrset_static w s → net_wf w' k c → Decision (overlaps w (clusterCIDR s) c).
Proof.
  intros Hs Hc. destruct (decide (w' = w)) as [->|Hne].
  - destruct (in_range s c) eqn:E.
    + left. by apply (in_range_overlaps w s Hs k c Hc).
    + right. intros H. apply (in_range_overlaps w s Hs k c Hc) in H. congruence.
  - right. by apply (overlaps_family w w' (clusterMaskSize s) k); [apply Hs|..].
Qed.

Lemma Occupy_marks w w' s k c : cidrset_wf w s → net_wf w' k c → overlaps w (clusterCIDR s) c →
  ∃ s', Occupy s (Some c) = (Ret tt, s') ∧ marked w true s s' c.
Proof.
  intros Hs Hc Hov. rewrite (overlaps_width w w' s k c (cw_static w s Hs) Hc Hov) in Hc.
  destruct (marked_bits occupyBit true w s k c occupyBit_step Hs Hc Hov) as (lo & hi & E & M).
  unfold Occupy. rewrite E. by eexists.
Qed.

Lemma Release_marks w w' s k c : cidrset_wf w s → net_wf w' k c → overlaps w (clusterCIDR s) c →
  ∃ s', Release s (Some c) = (Ret tt, s') ∧ marked w false s s' c.
Proof.
  intros Hs Hc Hov. rewrite (overlaps_width w w' s k c (cw_static w s Hs) Hc Hov) in Hc.
  destruct (marked_bits releaseBit false w s k c releaseBit_step Hs Hc Hov) as (lo & hi & E & M).
  unfold Release. rewrite E. by eexists.
Qed.

Lemma Occupy_miss w w' s k c : cidrset_static w s → net_wf w' k c → ¬ overlaps w (clusterCIDR s) c →
  Occupy s (Some c) = (Err (Errorf "cidr %v is out the range of cluster cidr %v"), s).
Proof. intros Hs Hc Hno. unfold Occupy. by rewrite (getIndices_miss w w' s k c). Qed.

Lemma Release_miss w w' s k c : cidrset_static w s → net_wf w' k c → ¬ overlaps w (clusterCIDR s) c →
  Release s (Some c) = (Err (Errorf "cidr %v is out the range of cluster cidr %v"), s).
Proof. intros Hs Hc Hno. unfold Release. by rewrite (getIndices_miss w w' s k c). Qed.

(** A block of the set meets the cluster. *)
Lemma block_in_cluster w s i n : cidrset_static w s → 0 <= i < maxCIDRs s → is_block w s i n →
  overlaps w (clusterCIDR s) n.
Proof.
  intros Hs Hi Hn. exists (net_IP n). split; [apply Hn|]. split.
  - rewrite (IPNet_Contains_spec w (clusterMaskSize s)) by (apply Hs || apply Hn).
    apply (static_prefix w s Hs). rewrite (proj2 Hn). pose proof (block_offset w s Hs i Hi). lia.
  - rewrite (IPNet_Contains_spec w (nodeMaskSize s)) by apply Hn. done.
Qed.
