(* ===== verification/CidrPool.v ===== *)
(** * CidrPool: what the allocators rely on in a CIDR set

    The range allocator and the node sync loop call a CIDR set through three
    methods.  [CidrPool] is that interface, [CidrPoolSpec] the contract their
    correctness is proved against, and the instances at the end discharge the
    contract for [CidrSet].  [pool_step] is the abstract pool, a finite set of
    taken indices, that the bitmap implements. *)

From S2P Require Import Prelude Bits GoNet GoNetText CidrSet CidrSetIndex CidrSetOps.
Local Open Scope Z_scope.

(** ** The interface *)
Class CidrPool (P : Type) : Type := {
  pool_alloc : P → outcome IPNet * P;
  pool_occupy : P → option IPNet → outcome unit * P;
  pool_release : P → option IPNet → outcome unit * P
}.

(** A CIDR of either family in the form [net.ParseCIDR] gives. *)
Definition cidr_wf (n : IPNet) : Prop := ∃ w k, net_wf w k n.

(** A CIDR text whose network, if it parses, is no IPv4-mapped one. *)
Definition plain_cidr (x : string) : Prop := ∀ n, ParseCIDR x = Ret n → cidr_wf n.

(** Two CIDRs share an address. *)
Definition meets (n c : IPNet) : Prop := ∃ w, width_ok w ∧ overlaps w n c.

#[global] Instance meets_symmetric : Symmetric meets.
Proof. intros n c (w & Hw & ip & ? & ? & ?). exists w. split; [done|]. exists ip. done. Qed.

Lemma meets_refl n : cidr_wf n → meets n n.
Proof.
  intros (w & k & Hn). exists w. split; [apply Hn|]. exists (net_IP n).
  rewrite (IPNet_Contains_spec w k) by apply Hn. split; [apply Hn|done].
Qed.

(** [pool_becomes b X p p']: [p'] differs from [p] in that the blocks that
    satisfy [X] have become held ([b = true]) or free ([b = false]). *)
Class CidrPoolSpec (P : Type) `{CidrPool P} : Type := {
  pool_ok : P → Prop;
  pool_block : P → IPNet → Prop;
  pool_held : P → IPNet → Prop;
  pool_becomes (b : bool) (X : IPNet → Prop) (p p' : P) : Prop :=
    pool_ok p' ∧ (∀ n, pool_block p' n ↔ pool_block p n) ∧
    ∀ n, pool_block p n →
      (pool_held p' n ↔ if b then pool_held p n ∨ X n else pool_held p n ∧ ¬ X n);

  pool_block_wf p n : pool_ok p → pool_block p n → cidr_wf n;
  pool_block_disjoint p n m : pool_ok p → pool_block p n → pool_block p m → meets n m → n = m;
  pool_held_block p n : pool_held p n → pool_block p n;
  pool_alloc_spec p : pool_ok p →
    match pool_alloc p with
    | (Ret n, p') => pool_block p n ∧ ¬ pool_held p n ∧ pool_becomes true (eq n) p p'
    | (Err _, p') => p' = p ∧ ∀ n, pool_block p n → pool_held p n
    | (Panic, _) => False
    end;
  pool_occupy_spec p c : pool_ok p → cidr_wf c →
    match pool_occupy p (Some c) with
    | (Ret _, p') => pool_becomes true (λ n, meets n c) p p'
    | (Err _, p') => p' = p ∧ ∀ n, pool_block p n → ¬ meets n c
    | (Panic, _) => False
    end;
  pool_release_spec p c : pool_ok p → cidr_wf c →
    match pool_release p (Some c) with
    | (Ret _, p') => pool_becomes false (λ n, meets n c) p p'
    | (Err _, p') => p' = p ∧ ∀ n, pool_block p n → ¬ meets n c
    | (Panic, _) => False
    end
}.

(** ** Consequences of the contract *)
Section contract.
Context {P : Type} `{CidrPoolSpec P}.
Implicit Types p : P.

(** Marking by overlap with a block is marking that block. *)
Lemma becomes_block b p p' n : pool_ok p → pool_block p n →
  pool_becomes b (λ m, meets m n) p p' → pool_becomes b (eq n) p p'.
Proof.
  intros Hp Hn (H1 & H2 & H3). split_and!; [done..|]. intros m Hm. rewrite (H3 m Hm).
  assert (meets m n ↔ n = m) as E; [|destruct b; by rewrite E].
  split; [intros Hmt; symmetry; by apply (pool_block_disjoint p)|].
  intros <-. by apply meets_refl, (pool_block_wf p).
Qed.

(** Occupying or releasing a block of the pool always succeeds. *)
Lemma occupy_block p n : pool_ok p → pool_block p n →
  ∃ p', pool_occupy p (Some n) = (Ret tt, p') ∧ pool_becomes true (eq n) p p'.
Proof.
  intros Hp Hn. pose proof (pool_block_wf p n Hp Hn) as Hw. pose proof (pool_occupy_spec p n Hp Hw) as Hs.
  destruct (pool_occupy p (Some n)) as [[[]|e|] p'].
  - eexists. split; [done|]. by apply becomes_block.
  - destruct Hs as [_ Hs]. destruct (Hs n Hn). by apply meets_refl.
  - done.
Qed.

Lemma release_block p n : pool_ok p → pool_block p n →
  ∃ p', pool_release p (Some n) = (Ret tt, p') ∧ pool_becomes false (eq n) p p'.
Proof.
  intros Hp Hn. pose proof (pool_block_wf p n Hp Hn) as Hw. pose proof (pool_release_spec p n Hp Hw) as Hs.
  destruct (pool_release p (Some n)) as [[[]|e|] p'].
  - eexists. split; [done|]. by apply becomes_block.
  - destruct Hs as [_ Hs]. destruct (Hs n Hn). by apply meets_refl.
  - done.
Qed.

(** A block survives its trip through the text of [node.Spec.PodCIDRs]. *)
Lemma block_text p n : pool_ok p → pool_block p n → ParseCIDR (IPNet_String n) = Ret n.
Proof. intros Hp Hn. destruct (pool_block_wf p n Hp Hn) as (w & k & Hw). by eapply ParseCIDR_String. Qed.

End contract.

(** ** The instance *)
#[global] Instance CidrSet_pool : CidrPool CidrSet := {
  pool_alloc := AllocateNext; pool_occupy := Occupy; pool_release := Release
}.

(** The address width of a set. *)
Definition width (s : CidrSet) : Z := 8 * Z.of_nat (length (net_IP (clusterCIDR s))).

Lemma static_width w s : cidrset_static w s → width s = w.
Proof.
  intros Hs. unfold width. rewrite (aw_len _ _ (nw_addr _ _ _ (cw_net w s Hs))).
  apply width_bytes, (static_w w s Hs).
Qed.

Lemma width_static s s' : same_static s s' → width s' = width s.
Proof. intros (E & _). unfold width. by rewrite E. Qed.

Definition set_ok (s : CidrSet) : Prop := cidrset_wf (width s) s.
Definition set_block (s : CidrSet) (n : IPNet) : Prop := ∃ i, 0 <= i < maxCIDRs s ∧ is_block (width s) s i n.
Definition set_held (s : CidrSet) (n : IPNet) : Prop :=
  ∃ i, 0 <= i < maxCIDRs s ∧ is_block (width s) s i n ∧ Z.testbit (used s) i = true.

Lemma set_ok_intro w s : cidrset_wf w s → set_ok s.
Proof. intros Hs. unfold set_ok. by rewrite (static_width w s (cw_static w s Hs)). Qed.
#[export] Hint Resolve set_ok_intro : ipam.

Lemma set_block_static s s' n : same_static s s' → set_block s' n ↔ set_block s n.
Proof.
  intros Hst. unfold set_block. rewrite (width_static s s' Hst). destruct Hst as (E1 & E2 & E3 & E4 & E5 & E6).
  rewrite E5. apply exist_proper. intros i. apply and_iff_compat_l.
  apply (is_block_static (width s) s s'). done.
Qed.

Lemma is_block_index w s i j n : cidrset_static w s → 0 <= i < maxCIDRs s → 0 <= j < maxCIDRs s →
  is_block w s i n → is_block w s j n → i = j.
Proof.
  intros Hs Hi Hj Hn Hn'. apply (blocks_disjoint w s i j n n Hs Hi Hj Hn Hn').
  by apply (blocks_disjoint w s i i n n Hs Hi Hi Hn Hn).
Qed.

Lemma set_held_bit s i n : set_ok s → 0 <= i < maxCIDRs s → is_block (width s) s i n →
  set_held s n ↔ Z.testbit (used s) i = true.
Proof.
  intros Hs Hi Hn. split; [|by exists i].
  intros (j & Hj & Hn' & Hb). by rewrite (is_block_index _ s i j n (cw_static _ s Hs) Hi Hj Hn Hn').
Qed.

Lemma meets_overlaps w k n c : net_wf w k n → meets n c ↔ overlaps w n c.
Proof.
  intros Hn. split.
  - intros (w' & Hw' & ip & Hip & H1 & H2). destruct (decide (w = w')) as [->|Hne]; [by exists ip|].
    by rewrite (IPNet_Contains_family w w' k n ip Hn Hw' Hip Hne) in H1.
  - intros Ho. exists w. split; [apply Hn|done].
Qed.

(** The contract's relation from the one on bitmaps. *)
Lemma set_becomes b s s' X : set_ok s → set_ok s' → same_static s s' →
  (∀ i n, 0 <= i < maxCIDRs s → is_block (width s) s i n →
    (X n ∨ ¬ X n) ∧ (X n → Z.testbit (used s') i = b) ∧
    (¬ X n → Z.testbit (used s') i = Z.testbit (used s) i)) →
  set_ok s' ∧ (∀ n, set_block s' n ↔ set_block s n) ∧
  ∀ n, set_block s n → (set_held s' n ↔ if b then set_held s n ∨ X n else set_held s n ∧ ¬ X n).
Proof.
  intros Hs Hs' Hst HX. split_and!; [done|intros n; by apply set_block_static|].
  intros n (i & Hi & Hn). destruct (HX i n Hi Hn) as (Hdec & H1 & H2).
  assert (Hn' : is_block (width s') s' i n).
  { rewrite (width_static s s' Hst). by apply (is_block_static _ s s'). }
  assert (Hi' : 0 <= i < maxCIDRs s') by (destruct Hst as (_ & _ & _ & _ & -> & _); done).
  pose proof (set_held_bit s i n Hs Hi Hn) as Q. pose proof (set_held_bit s' i n Hs' Hi' Hn') as Q'.
  destruct Hdec as [Hx|Hx]; [rewrite (H1 Hx) in Q'|rewrite (H2 Hx) in Q']; destruct b; naive_solver.
Qed.

Lemma set_marked b s s' c : set_ok s → marked (width s) b s s' c →
  set_ok s' ∧ (∀ n, set_block s' n ↔ set_block s n) ∧
  ∀ n, set_block s n → (set_held s' n ↔ if b then set_held s n ∨ meets n c else set_held s n ∧ ¬ meets n c).
Proof.
  intros Hs [W S N D I O]. apply (set_becomes b s s' (λ n, meets n c)); [done|by eapply set_ok_intro|done|].
  intros i n Hi Hn. rewrite (meets_overlaps _ _ n c (proj1 Hn)). split; [by eapply D|split; [by apply I|by apply O]].
Qed.

(** A CIDR that misses the cluster meets no block. *)
Lemma miss_blocks s c n : set_ok s → cidr_wf c → ¬ overlaps (width s) (clusterCIDR s) c →
  set_block s n → ¬ meets n c.
Proof.
  intros Hs (w & k & Hc) Hno (i & Hi & Hn) Hm. apply Hno.
  rewrite (meets_overlaps _ _ n c (proj1 Hn)) in Hm. destruct Hm as (ip & Hip & H1 & H2).
  exists ip. split_and!; [done| |done]. pose proof (cw_static _ s Hs) as Hst.
  rewrite (IPNet_Contains_spec _ (nodeMaskSize s)) in H1 by (apply Hn || done).
  rewrite (IPNet_Contains_spec _ (clusterMaskSize s)) by (apply Hst || done).
  apply (block_range _ s Hst i Hi). by apply (block_prefix _ s Hst i n _ Hn).
Qed.

#[global, program] Instance CidrSet_pool_spec : CidrPoolSpec CidrSet := {
  pool_ok := set_ok; pool_block := set_block; pool_held := set_held
}.
Next Obligation. intros s n Hs (i & Hi & Hn). by eexists _, _; apply Hn. Qed.
Next Obligation.
  intros s n m Hs (i & Hi & Hn) (j & Hj & Hm) Hmt. rewrite (meets_overlaps _ _ n m (proj1 Hn)) in Hmt.
  apply (blocks_disjoint _ s i j n m (cw_static _ s Hs) Hi Hj Hn Hm) in Hmt as ->.
  by eapply is_block_inj.
Qed.
Next Obligation. intros s n (i & Hi & Hn & _). by exists i. Qed.
Next Obligation.
  intros s Hs. simpl. destruct (decide (allocatedCIDRs s = maxCIDRs s)) as [E|Hne].
  - rewrite (AllocateNext_full s E). split; [done|]. intros n (i & Hi & Hn). exists i. split; [done|]. split; [done|].
    apply (bits_count_full (Z.to_nat (maxCIDRs s))); [|lia]. rewrite <- (cw_count _ s Hs). lia.
  - destruct (AllocateNext_ok _ s Hs Hne) as (k & n & s' & -> & [R F B W S U C] & _).
    split; [by eexists|]. split; [by rewrite (set_held_bit s _ n Hs R B), F|].
    apply (set_becomes true s s' (eq n)); [done|by eapply set_ok_intro|done|].
    intros i m Hi Hm. rewrite U, Z.setbit_eqb by lia. split; [destruct (decide (n = m)); tauto|]. split.
    + intros <-. rewrite (is_block_index _ s _ i n (cw_static _ s Hs) R Hi B Hm), Z.eqb_refl. done.
    + intros Hnm. destruct (Z.eqb_spec (circ (maxCIDRs s) (nextCandidate s) k) i) as [E|]; [|done].
      exfalso. apply Hnm. rewrite E in B. by eapply is_block_inj.
Qed.
Next Obligation.
  intros s c Hs Hc. pose proof Hc as (w & k & Hk). pose proof (cw_static _ s Hs) as Hst. simpl.
  destruct (overlaps_dec _ w s k c Hst Hk) as [Ho|Hno].
  - destruct (Occupy_marks _ w s k c Hs Hk Ho) as (s' & -> & M). by apply (set_marked true).
  - rewrite (Occupy_miss _ w s k c Hst Hk Hno). split; [done|]. intros n. by apply miss_blocks.
Qed.
Next Obligation.
  intros s c Hs Hc. pose proof Hc as (w & k & Hk). pose proof (cw_static _ s Hs) as Hst. simpl.
  destruct (overlaps_dec _ w s k c Hst Hk) as [Ho|Hno].
  - destruct (Release_marks _ w s k c Hs Hk Ho) as (s' & -> & M). by apply (set_marked false).
  - rewrite (Release_miss _ w s k c Hst Hk Hno). split; [done|]. intros n. by apply miss_blocks.
Qed.

(** ** Construction *)

(** A cluster CIDR and node mask the flags validation lets through. *)
Definition cluster_ok (c : IPNet) (nm : Z) : Prop :=
  ∃ w k, net_wf w k c ∧ k <= nm <= w ∧ nm - k <= 31 ∧
    (w = 128 → ∀ y, same_prefix 128 k (be_decode (net_IP c)) y → y / 2 ^ 32 ≠ 65535).

Lemma NewCIDRSet_ok c nm s : cluster_ok c nm → NewCIDRSet (Some c) nm = Ret s → set_ok s.
Proof.
  intros (w & k & Hn & Hk & Hd & Hp) E.
  destruct (decide (w = 128 ∧ clusterSubnetMaxDiff < nm - k)) as [[-> Hb]|Hb].
  { by rewrite (NewCIDRSet_too_big k) in E. }
  destruct (NewCIDRSet_spec w k c nm Hn Hk Hd Hp) as (s' & E' & Hw & _); [intros ->; lia|].
  rewrite E in E'. injection E' as <-. by eapply set_ok_intro.
Qed.

Lemma NewCIDRSet_empty c nm s n : NewCIDRSet (Some c) nm = Ret s → ¬ set_held s n.
Proof.
  unfold NewCIDRSet. destruct (IPMask_Size _). case_match; [done|]. intros [= <-] (i & _ & _ & Hb).
  simpl in Hb. by rewrite Z.testbit_0_l in Hb.
Qed.

Lemma NewCIDRSet_no_panic c nm : NewCIDRSet (Some c) nm ≠ Panic.
Proof. unfold NewCIDRSet. destruct (IPMask_Size _). by case_match. Qed.

Lemma NewCIDRSet_cluster c k s : NewCIDRSet (Some c) k = Ret s → clusterCIDR s = c.
Proof. unfold NewCIDRSet. destruct (IPMask_Size _). case_match; [done|]. by intros [= <-]. Qed.
