(* ===== verification/CidrSetProps.v ===== *)
(** * CidrSetProps: the properties of the CIDR set

    The abstract pool is a finite set of taken indices below a capacity;
    [pool_step] says how an operation may change it and what it answers.
    [CidrSet] refines it: every run of the code's methods is a run of the
    abstract pool.  Then the theorems about each method, on concrete sets too. *)
From S2P Require Import Prelude Bits GoNet GoNetText CidrSet CidrSetIndex CidrSetOps CidrPool.
Local Open Scope Z_scope.

Inductive pool_op : Type := OpAlloc | OpOccupy (c : IPNet) | OpRelease (c : IPNet).
Inductive pool_resp : Type := RBlock (i : Z) | RFull | RDone | RRefused.

Section abstract.
(** The capacity and the block of each index. *)
Context (cap : Z) (geo : Z → IPNet → Prop).

(** [T] is the set of indices whose block meets [c]. *)
Definition touches (c : IPNet) (T : gset Z) : Prop :=
  ∀ i, i ∈ T ↔ 0 <= i < cap ∧ ∃ n, geo i n ∧ meets n c.

Inductive pool_step : gset Z → pool_op → pool_resp → gset Z → Prop :=
| step_alloc H i : 0 <= i < cap → i ∉ H → pool_step H OpAlloc (RBlock i) ({[ i ]} ∪ H)
| step_full H : (∀ i, 0 <= i < cap → i ∈ H) → pool_step H OpAlloc RFull H
| step_occupy H c T : touches c T → T ≠ ∅ → pool_step H (OpOccupy c) RDone (H ∪ T)
| step_release H c T : touches c T → T ≠ ∅ → pool_step H (OpRelease c) RDone (H ∖ T)
| step_occupy_miss H c : touches c ∅ → pool_step H (OpOccupy c) RRefused H
| step_release_miss H c : touches c ∅ → pool_step H (OpRelease c) RRefused H.

Inductive pool_steps : gset Z → list (pool_op * pool_resp) → gset Z → Prop :=
| steps_nil H : pool_steps H [] H
| steps_cons H H' H'' o r l : pool_step H o r H' → pool_steps H' l H'' → pool_steps H ((o, r) :: l) H''.

(** Taken indices stay below the capacity along every run. *)
Lemma pool_steps_bound H l H' : pool_steps H l H' →
  (∀ i, i ∈ H → 0 <= i < cap) → ∀ i, i ∈ H' → 0 <= i < cap.
Proof.
  induction 1 as [|H H1 H2 o r l Hs Hr IH]; [done|]. intros Hb. apply IH.
  destruct Hs as [? i Hi ?|?|? c T HT ?|? c T HT ?|?|?]; try done; intros j.
  - rewrite elem_of_union, elem_of_singleton. intros [->|]; auto.
  - rewrite elem_of_union. intros [|Hj]; [auto|]. by apply HT in Hj as [? _].
  - rewrite elem_of_difference. intros [? _]. auto.
Qed.
End abstract.

(** ** The concrete side *)
Definition run_op (s : CidrSet) (o : pool_op) : outcome (option IPNet) * CidrSet :=
  match o with
  | OpAlloc => let '(r, s') := AllocateNext s in (Some <$> r, s')
  | OpOccupy c => let '(r, s') := Occupy s (Some c) in ((λ _, None) <$> r, s')
  | OpRelease c => let '(r, s') := Release s (Some c) in ((λ _, None) <$> r, s')
  end.

Fixpoint run_ops (s : CidrSet) (l : list pool_op) : list (outcome (option IPNet)) * CidrSet :=
  match l with
  | [] => ([], s)
  | o :: l => let '(r, s1) := run_op s o in let '(rs, s2) := run_ops s1 l in (r :: rs, s2)
  end.

Definition op_wf (o : pool_op) : Prop :=
  match o with OpAlloc => True | OpOccupy c | OpRelease c => cidr_wf c end.

(** The answers of the code and of the abstract pool. *)
Definition resp_ok (geo : Z → IPNet → Prop) (r : outcome (option IPNet)) (a : pool_resp) : Prop :=
  match a with
  | RBlock i => ∃ n, r = Ret (Some n) ∧ geo i n
  | RFull => r = Err ErrCIDRRangeNoCIDRsRemaining
  | RDone => r = Ret None
  | RRefused => r = Err (Errorf "cidr %v is out the range of cluster cidr %v")
  end.

(** The abstraction of a bitmap. *)
Definition held_indices (s : CidrSet) : gset Z :=
  list_to_set (filter (λ i, Z.testbit (used s) i = true) (seqZ 0 (maxCIDRs s))).

Lemma elem_of_held s i : i ∈ held_indices s ↔ 0 <= i < maxCIDRs s ∧ Z.testbit (used s) i = true.
Proof.
  unfold held_indices. rewrite elem_of_list_to_set, list_elem_of_filter, elem_of_seqZ.
  split; intros [? ?]; split; (done || lia).
Qed.

Definition geometry (s : CidrSet) : Z → IPNet → Prop := is_block (width s) s.

Lemma geometry_static s s' : same_static s s' → ∀ i n, geometry s' i n ↔ geometry s i n.
Proof.
  intros Hst i n. unfold geometry. rewrite (width_static s s' Hst). by apply is_block_static.
Qed.

(** The interval of the code is the set of touched indices. *)
Lemma touched_set s c lo hi : set_ok s → touched (width s) s c lo hi →
  touches (maxCIDRs s) (geometry s) c (list_to_set (seqZ lo (hi - lo + 1))).
Proof.
  intros Hs (H1 & H2 & H3) i. pose proof (cw_static _ s Hs) as Hst.
  rewrite elem_of_list_to_set, elem_of_seqZ. split.
  - intros Hi. assert (Hr : 0 <= i < maxCIDRs s) by lia. split; [done|].
    destruct (indexToCIDRBlock_spec _ s Hst i Hr) as (n & _ & Hn). exists n. split; [done|].
    rewrite (meets_overlaps _ _ n c (proj1 Hn)). apply (H3 i n Hr Hn). lia.
  - intros (Hr & n & Hn & Hm). rewrite (meets_overlaps _ _ n c (proj1 Hn)) in Hm.
    apply (H3 i n Hr Hn) in Hm. lia.
Qed.

Lemma touches_miss s c : set_ok s → cidr_wf c → ¬ overlaps (width s) (clusterCIDR s) c →
  touches (maxCIDRs s) (geometry s) c ∅.
Proof.
  intros Hs Hc Hno i. split; [by intros []%not_elem_of_empty|]. intros (Hi & n & Hn & Hm).
  exfalso. eapply (miss_blocks s c n); [done..| |done]. by exists i.
Qed.

(** ** One step of the simulation *)
Definition simulates (s s' : CidrSet) (r : outcome (option IPNet)) (o : pool_op) : Prop :=
  set_ok s' ∧ same_static s s' ∧
  ∃ a, resp_ok (geometry s) r a ∧
    pool_step (maxCIDRs s) (geometry s) (held_indices s) o a (held_indices s').

Lemma sim_alloc s : set_ok s → let '(r, s') := run_op s OpAlloc in simulates s s' r OpAlloc.
Proof.
  intros Hs. cbn [run_op]. destruct (decide (allocatedCIDRs s = maxCIDRs s)) as [E|Hne].
  - rewrite (AllocateNext_full s E). split; [done|]. split; [done|]. exists RFull. split; [done|].
    constructor. intros i Hi. apply elem_of_held. split; [done|].
    apply (bits_count_full (Z.to_nat (maxCIDRs s))); [|lia]. rewrite <- (cw_count _ s Hs). lia.
  - destruct (AllocateNext_ok _ s Hs Hne) as (k & n & s' & -> & [R F B W S U C] & _). cbn.
    split; [by eapply set_ok_intro|]. split; [done|]. eexists (RBlock _). split; [by exists n|].
    assert (held_indices s' = {[circ (maxCIDRs s) (nextCandidate s) k]} ∪ held_indices s) as ->.
    { apply set_eq. intros j. rewrite elem_of_union, elem_of_singleton, !elem_of_held, U.
      rewrite Z.setbit_eqb by lia. replace (maxCIDRs s') with (maxCIDRs s) by (symmetry; apply S).
      destruct (Z.eqb_spec (circ (maxCIDRs s) (nextCandidate s) k) j) as [<-|]; simpl; naive_solver. }
    constructor; [done|]. rewrite elem_of_held, F. naive_solver.
Qed.

Lemma touched_nonempty (lo hi : Z) : lo <= hi → (list_to_set (seqZ lo (hi - lo + 1)) : gset Z) ≠ ∅.
Proof.
  intros H E. assert (Hin : lo ∈ (list_to_set (seqZ lo (hi - lo + 1)) : gset Z)).
  { rewrite elem_of_list_to_set, elem_of_seqZ. lia. }
  rewrite E in Hin. by apply not_elem_of_empty in Hin.
Qed.

Lemma held_interval s s' lo hi b : same_static s s' → 0 <= lo → hi < maxCIDRs s →
  (∀ j, Z.testbit (used s') j = if (lo <=? j) && (j <=? hi) then b else Z.testbit (used s) j) →
  held_indices s' = if b : bool then held_indices s ∪ list_to_set (seqZ lo (hi - lo + 1))
                    else held_indices s ∖ list_to_set (seqZ lo (hi - lo + 1)).
Proof.
  intros S Hlo Hhi B. apply set_eq. intros j.
  assert (maxCIDRs s' = maxCIDRs s) as Em by apply S.
  destruct b; rewrite ?elem_of_union, ?elem_of_difference, !elem_of_held, elem_of_list_to_set, elem_of_seqZ, Em, B;
    destruct (Z.leb_spec lo j), (Z.leb_spec j hi); simpl; split; intros;
    destruct_and?; destruct_or?; split_and?; first [done | lia | naive_solver lia | idtac].
  all: try (left; split; [lia|done]); try (right; lia); naive_solver lia.
Qed.

Lemma sim_mark s c : set_ok s → cidr_wf c →
  (let '(r, s') := run_op s (OpOccupy c) in simulates s s' r (OpOccupy c)) ∧
  (let '(r, s') := run_op s (OpRelease c) in simulates s s' r (OpRelease c)).
Proof.
  intros Hs Hc. pose proof Hc as (w & k & Hk). pose proof (cw_static _ s Hs) as Hst. cbn [run_op].
  destruct (overlaps_dec _ w s k c Hst Hk) as [Ho|Hno].
  - rewrite (overlaps_width _ w s k c Hst Hk Ho) in Hk. unfold Occupy, Release. split.
    + destruct (interval_bits _ _ _ s k c occupyBit_step Hs Hk Ho) as (lo & hi & -> & T & W & S & _ & B).
      cbn. split; [by eapply set_ok_intro|]. split; [done|]. exists RDone. split; [done|].
      rewrite (held_interval s _ lo hi true S ltac:(apply T) ltac:(apply T) B).
      constructor; [by apply touched_set|apply touched_nonempty, T].
    + destruct (interval_bits _ _ _ s k c releaseBit_step Hs Hk Ho) as (lo & hi & -> & T & W & S & _ & B).
      cbn. split; [by eapply set_ok_intro|]. split; [done|]. exists RDone. split; [done|].
      rewrite (held_interval s _ lo hi false S ltac:(apply T) ltac:(apply T) B).
      constructor; [by apply touched_set|apply touched_nonempty, T].
  - rewrite (Occupy_miss _ w s k c Hst Hk Hno), (Release_miss _ w s k c Hst Hk Hno).
    split; (split; [done|]; split; [done|]; exists RRefused; split; [done|]; constructor; by apply touches_miss).
Qed.

Lemma sim_step s o : set_ok s → op_wf o → let '(r, s') := run_op s o in simulates s s' r o.
Proof.
  intros Hs Ho. destruct o as [|c|c]; [by apply sim_alloc|by apply sim_mark|by apply sim_mark].
Qed.

(** ** Runs *)
Lemma pool_step_ext cap geo geo' H o r H' : (∀ i n, geo i n ↔ geo' i n) →
  pool_step cap geo H o r H' → pool_step cap geo' H o r H'.
Proof.
  intros E. assert (ET : ∀ c T, touches cap geo c T → touches cap geo' c T).
  { intros c T HT i. rewrite (HT i). apply and_iff_compat_l, exist_proper. intros n. by rewrite E. }
  destruct 1; econstructor; eauto.
Qed.

Lemma resp_ok_ext geo geo' r a : (∀ i n, geo i n ↔ geo' i n) → resp_ok geo r a → resp_ok geo' r a.
Proof. intros E. destruct a; simpl; [|done..]. intros (n & -> & Hn). exists n. by rewrite <- E. Qed.

Lemma pool_steps_ext cap geo geo' H l H' : (∀ i n, geo i n ↔ geo' i n) →
  pool_steps cap geo H l H' → pool_steps cap geo' H l H'.
Proof. intros E. induction 1; econstructor; eauto using pool_step_ext. Qed.

Lemma sim_run l s : set_ok s → Forall op_wf l →
  let '(rs, s') := run_ops s l in
  set_ok s' ∧ same_static s s' ∧
  ∃ ans, Forall2 (resp_ok (geometry s)) rs ans ∧
    pool_steps (maxCIDRs s) (geometry s) (held_indices s) (zip l ans) (held_indices s').
Proof.
  revert s. induction l as [|o l IH]; intros s Hs Hl; cbn [run_ops].
  { split; [done|]. split; [done|]. exists []. split; constructor. }
  apply Forall_cons in Hl as [Ho Hl]. pose proof (sim_step s o Hs Ho) as Hsim.
  destruct (run_op s o) as [r s1]. destruct Hsim as (Hs1 & S1 & a & Ra & Ha).
  specialize (IH s1 Hs1 Hl). destruct (run_ops s1 l) as [rs s2].
  destruct IH as (Hs2 & S2 & ans & Rs & Hrun). split; [done|]. split; [by etransitivity|].
  exists (a :: ans). pose proof (geometry_static s s1 S1) as G. split.
  - constructor; [done|]. eapply Forall2_impl; [exact Rs|]. intros ??. by apply resp_ok_ext.
  - simpl. econstructor; [done|]. replace (maxCIDRs s) with (maxCIDRs s1) by apply S1.
    by eapply pool_steps_ext.
Qed.

(** ** Exhaustion *)
Fixpoint allocateMany (k : nat) (s : CidrSet) : list (outcome IPNet) * CidrSet :=
  match k with
  | O => ([], s)
  | S k => let '(r, s1) := AllocateNext s in let '(rs, s2) := allocateMany k s1 in (r :: rs, s2)
  end.

(** [AllocateNext] through the pool contract, with the count. *)
Lemma alloc_one s : set_ok s → allocatedCIDRs s < maxCIDRs s →
  ∃ n s', AllocateNext s = (Ret n, s') ∧ set_ok s' ∧ same_static s s' ∧
    allocatedCIDRs s' = allocatedCIDRs s + 1 ∧ set_block s n ∧ ¬ set_held s n ∧
    ∀ m, set_held s' m ↔ set_held s m ∨ m = n.
Proof.
  intros Hs Hlt. destruct (AllocateNext_ok _ s Hs) as (k & n & s' & E & [R F B W S U C] & _); [lia|].
  pose proof (pool_alloc_spec s Hs) as P. simpl in P. rewrite E in P. destruct P as (P1 & P2 & P3 & P4 & P5).
  exists n, s'. split; [done|]. split; [done|]. split; [done|]. split; [done|]. split; [done|]. split; [done|].
  intros m. split.
  - intros Hm. assert (Hb : set_block s m) by (apply P4; exact (pool_held_block s' m Hm)).
    apply (P5 m Hb) in Hm. naive_solver.
  - intros Hm. assert (Hb : set_block s m).
    { destruct Hm as [Hm| ->]; [exact (pool_held_block s m Hm)|done]. }
    apply (P5 m Hb). naive_solver.
Qed.

Lemma allocateMany_ok k s : set_ok s → allocatedCIDRs s + Z.of_nat k <= maxCIDRs s →
  ∃ ns s', allocateMany k s = (Ret <$> ns, s') ∧ set_ok s' ∧ same_static s s' ∧
    allocatedCIDRs s' = allocatedCIDRs s + Z.of_nat k ∧ length ns = k ∧ NoDup ns ∧
    (∀ n, n ∈ ns → set_block s n ∧ ¬ set_held s n) ∧ ∀ m, set_held s' m ↔ set_held s m ∨ m ∈ ns.
Proof.
  revert s. induction k as [|k IH]; intros s Hs Hle.
  { exists [], s. split; [done|]. split; [done|]. split; [done|]. split; [lia|]. split; [done|]. split; [constructor|].
    split; [by intros ? ?%not_elem_of_nil|]. intros m. rewrite elem_of_nil. naive_solver. }
  destruct (alloc_one s Hs) as (n & s1 & E & Hs1 & S1 & C1 & B1 & F1 & U1); [lia|].
  assert (Em : maxCIDRs s1 = maxCIDRs s) by apply S1.
  destruct (IH s1 Hs1) as (ns & s2 & E2 & Hs2 & S2 & C2 & L2 & D2 & B2 & U2); [lia|].
  exists (n :: ns), s2. cbn [allocateMany]. rewrite E, E2. split; [done|]. split; [done|].
  split; [by etransitivity|]. split; [lia|]. split; [simpl; lia|]. split; [|split].
  - constructor; [|done]. intros Hin. apply (B2 n Hin), U1. by right.
  - intros m [->|Hm]%elem_of_cons; [done|]. destruct (B2 m Hm) as [H1 H2].
    split; [by apply (set_block_static s s1)|]. intros Hh. apply H2, U1. by left.
  - intros m. rewrite U2, U1, elem_of_cons. naive_solver.
Qed.

(** ** The methods

    The theorems about [cidrset/cidr_set.go], with a witness for each on the
    sets [demo4] (10.0.0.0/22 cut into /24) and [demo6] (2001:db8::/60 cut into
    /64). *)

(** ** Concrete sets *)
Definition net4 (a b c d k : Z) : IPNet := mkIPNet [a; b; c; d] (CIDRMask k 32).
Definition net6 (a b c d : Z) (k : Z) : IPNet := mkIPNet ([a; b; c; d] ++ replicate 12 0) (CIDRMask k 128).

Lemma net4_wf a b c d k : byte_ok a → byte_ok b → byte_ok c → byte_ok d → 0 <= k <= 32 →
  be_decode [a; b; c; d] mod 2 ^ (32 - k) = 0 → net_wf 32 k (net4 a b c d k).
Proof.
  intros. split; simpl; [by left|done| |done|done]. split; [done|by repeat (apply Forall_cons; split; [done|])|lia].
Qed.

Lemma demo4_ip_wf : addr_wf 32 [10; 0; 1; 0].
Proof. split; [done|by repeat (apply Forall_cons; split; [unfold byte_ok; lia|])|lia]. Qed.

Definition demo4_net : IPNet := net4 10 0 0 0 22.
Definition demo6_net : IPNet := net6 32 1 13 184 60.

Definition set_of (n : IPNet) (k : Z) : CidrSet :=
  match NewCIDRSet (Some n) k with
  | Ret s => s
  | _ => mkCidrSet n 0 [] 0 0 0 0 0 EmptyString (mkMetrics 0 0 [] None)
  end.
Definition demo4 : CidrSet := set_of demo4_net 24.
Definition demo6 : CidrSet := set_of demo6_net 64.

Lemma set_of_wf w k n nm : net_wf w k n → k <= nm <= w → nm - k <= 31 →
  (w = 128 → ∀ y, same_prefix 128 k (be_decode (net_IP n)) y → y / 2 ^ 32 ≠ 65535) →
  (w = 128 → nm - k <= clusterSubnetMaxDiff) → cidrset_wf w (set_of n nm).
Proof.
  intros H1 H2 H3 H4 H5. unfold set_of. by destruct (NewCIDRSet_spec w k n nm H1 H2 H3 H4 H5) as (s & -> & W & _).
Qed.

Lemma demo4_net_wf : net_wf 32 22 demo4_net.
Proof. by apply net4_wf; unfold byte_ok; try lia. Qed.
Lemma demo4_wf : cidrset_wf 32 demo4.
Proof. apply (set_of_wf 32 22); [apply demo4_net_wf|lia|lia|lia|lia]. Qed.

Lemma demo6_net_wf : net_wf 128 60 demo6_net.
Proof.
  split; [by right|lia| |done|done]. split; [done| |by vm_compute].
  repeat (apply Forall_cons; split; [unfold byte_ok; lia|]). done.
Qed.
Lemma demo6_wf : cidrset_wf 128 demo6.
Proof.
  apply (set_of_wf 128 60); [apply demo6_net_wf|lia|lia| |unfold clusterSubnetMaxDiff; lia].
  intros _ y Hy E. unfold same_prefix in Hy.
  change (be_decode (net_IP demo6_net) / 2 ^ (128 - 60)) with 144133723007221760 in Hy.
  change (2 ^ (128 - 60)) with (2 ^ 32 * 2 ^ 36) in Hy. rewrite <- Z.div_div in Hy by lia. rewrite E in Hy. by vm_compute in Hy.
Qed.

(** C1: as long as a block is free, [AllocateNext] hands out the first free block
    in circular order from [nextCandidate]: every block before it on the circle
    is taken, the block returned is the one of that index in the cluster CIDR,
    exactly its bit is set, the count grows by one, the cursor moves just past
    it and the invariant of the set is kept; once all blocks are taken it
    returns [ErrCIDRRangeNoCIDRsRemaining] and changes nothing. *)
Theorem AllocateNext_next_fit w s (Hs : cidrset_wf w s) :
  (allocatedCIDRs s = maxCIDRs s ∧ AllocateNext s = (Err ErrCIDRRangeNoCIDRsRemaining, s)) ∨
  ∃ k n s', let i := (nextCandidate s + k) mod maxCIDRs s in
    AllocateNext s = (Ret n, s') ∧ 0 <= k < maxCIDRs s ∧
    Z.testbit (used s) i = false ∧
    (∀ j, 0 <= j < k → Z.testbit (used s) ((nextCandidate s + j) mod maxCIDRs s) = true) ∧
    is_block w s i n ∧ used s' = Z.setbit (used s) i ∧
    allocatedCIDRs s' = allocatedCIDRs s + 1 ∧ nextCandidate s' = (i + 1) mod maxCIDRs s ∧
    cidrset_wf w s'.
Proof.
  destruct (decide (allocatedCIDRs s = maxCIDRs s)) as [E|Hne].
  { left. split; [done|]. by apply AllocateNext_full. }
  right. destruct (AllocateNext_ok w s Hs Hne) as (k & n & s' & E & [R F B W S U C] & N & Hk & A).
  exists k, n, s'. by repeat (split; [done|]).
Qed.

Lemma AllocateNext_next_fit_witness :
  cidrset_wf 128 demo6 ∧
  ((allocatedCIDRs demo6 = maxCIDRs demo6 ∧ AllocateNext demo6 = (Err ErrCIDRRangeNoCIDRsRemaining, demo6)) ∨
   ∃ k n s', AllocateNext demo6 = (Ret n, s') ∧
     is_block 128 demo6 ((nextCandidate demo6 + k) mod maxCIDRs demo6) n).
Proof.
  split; [exact demo6_wf|].
  destruct (AllocateNext_next_fit 128 demo6 demo6_wf) as [H|(k & n & s' & E & _ & _ & _ & B & _)];
    [exact (or_introl H)|].
  right. exists k, n, s'. exact (conj E B).
Defined.

(** C2: a set with [f] free blocks serves exactly [f] further allocations: the
    CIDRs they return are pairwise disjoint blocks of the cluster that were free
    at the start, and the next allocation fails. *)
Theorem AllocateNext_exhausts w s (Hs : cidrset_wf w s) :
  ∃ ns s', allocateMany (Z.to_nat (maxCIDRs s - allocatedCIDRs s)) s = (Ret <$> ns, s') ∧
    (∀ i n, ns !! i = Some n → set_block s n ∧ ¬ set_held s n) ∧
    (∀ i j n m, i ≠ j → ns !! i = Some n → ns !! j = Some m → ¬ meets n m) ∧
    Z.of_nat (length ns) = maxCIDRs s - allocatedCIDRs s ∧
    AllocateNext s' = (Err ErrCIDRRangeNoCIDRsRemaining, s').
Proof.
  pose proof (set_ok_intro w s Hs) as Hok. pose proof (static_max w s (cw_static w s Hs)).
  assert (Hc : 0 <= allocatedCIDRs s <= maxCIDRs s).
  { rewrite (cw_count w s Hs). pose proof (bits_count_bound (Z.to_nat (maxCIDRs s)) (used s)). lia. }
  destruct (allocateMany_ok (Z.to_nat (maxCIDRs s - allocatedCIDRs s)) s Hok) as
    (ns & s' & E & Hok' & S & C & L & D & B & _); [lia|].
  exists ns, s'. split; [done|]. split; [intros i n Hi; eapply B, list_elem_of_lookup_2, Hi|].
  split; [|split; [lia|apply AllocateNext_full; destruct S as (_ & _ & _ & _ & -> & _); lia]].
  intros i j n m Hij Hi Hj Hm. apply Hij, (NoDup_lookup ns i j n D Hi). rewrite Hj. f_equal. symmetry.
  eapply (@pool_block_disjoint _ _ CidrSet_pool_spec s n m Hok); [eapply B, list_elem_of_lookup_2, Hi|eapply B, list_elem_of_lookup_2, Hj|done].
Qed.

Lemma AllocateNext_exhausts_witness :
  cidrset_wf 32 demo4 ∧ ∃ ns s', allocateMany 4 demo4 = (Ret <$> ns, s') ∧ length ns = 4%nat ∧
    AllocateNext s' = (Err ErrCIDRRangeNoCIDRsRemaining, s').
Proof.
  split; [exact demo4_wf|].
  destruct (AllocateNext_exhausts 32 demo4 demo4_wf) as (ns & s' & E & _ & _ & L & F).
  exists ns, s'. split; [exact E|]. split; [|exact F].
  assert (Z.of_nat (length ns) = 4) by exact L. lia.
Defined.

(** C3: [Occupy] of a CIDR of either family: when it shares an address with the
    cluster, exactly the blocks it intersects become used, all others keep their
    state and the invariant holds; when it does not, it is refused and the set is
    unchanged. *)
Theorem Occupy_exact w w' k s c (Hs : cidrset_wf w s) (Hc : net_wf w' k c) :
  (overlaps w (clusterCIDR s) c ∧ ∃ s', Occupy s (Some c) = (Ret tt, s') ∧ cidrset_wf w s' ∧ same_static s s' ∧
     ∀ i n, 0 <= i < maxCIDRs s → is_block w s i n →
       (Z.testbit (used s') i = true ↔ Z.testbit (used s) i = true ∨ overlaps w n c)) ∨
  (¬ overlaps w (clusterCIDR s) c ∧
     Occupy s (Some c) = (Err (Errorf "cidr %v is out the range of cluster cidr %v"), s)).
Proof.
  destruct (overlaps_dec w w' s k c (cw_static w s Hs) Hc) as [Ho|Hno].
  - left. split; [done|]. destruct (Occupy_marks w w' s k c Hs Hc Ho) as (s' & E & [W S _ D I O]).
    exists s'. split; [done|]. split; [done|]. split; [done|]. intros i n Hi Hn.
    destruct (D i n Hi Hn) as [Hin|Hout]; [rewrite (I i n Hi Hn Hin)|rewrite (O i n Hi Hn Hout)]; tauto.
  - right. split; [done|]. by apply (Occupy_miss w w' s k c (cw_static w s Hs) Hc).
Qed.

Lemma Occupy_exact_witness : ∃ s', Occupy demo4 (Some (net4 10 0 1 0 25)) = (Ret tt, s').
Proof.
  assert (Ho : overlaps 32 demo4_net (net4 10 0 1 0 25)).
  { exists [10; 0; 1; 0]. split; [|split; reflexivity]. apply demo4_ip_wf. }
  assert (Hc : net_wf 32 25 (net4 10 0 1 0 25)) by (by apply net4_wf; unfold byte_ok; try lia).
  destruct (Occupy_exact 32 32 25 demo4 _ demo4_wf Hc) as [(_ & s' & E & _)|[Hno _]]; [exists s'; exact E|].
  exact (False_ind _ (Hno Ho)).
Defined.

(** C4: [Release] of a CIDR frees exactly the blocks it intersects and keeps the
    invariant (in particular a block that was free stays counted once); a CIDR
    outside the cluster is refused and the set is unchanged. *)
Theorem Release_exact w w' k s c (Hs : cidrset_wf w s) (Hc : net_wf w' k c) :
  (overlaps w (clusterCIDR s) c ∧ ∃ s', Release s (Some c) = (Ret tt, s') ∧ cidrset_wf w s' ∧ same_static s s' ∧
     ∀ i n, 0 <= i < maxCIDRs s → is_block w s i n →
       (Z.testbit (used s') i = true ↔ Z.testbit (used s) i = true ∧ ¬ overlaps w n c)) ∨
  (¬ overlaps w (clusterCIDR s) c ∧
     Release s (Some c) = (Err (Errorf "cidr %v is out the range of cluster cidr %v"), s)).
Proof.
  destruct (overlaps_dec w w' s k c (cw_static w s Hs) Hc) as [Ho|Hno].
  - left. split; [done|]. destruct (Release_marks w w' s k c Hs Hc Ho) as (s' & E & [W S _ D I O]).
    exists s'. split; [done|]. split; [done|]. split; [done|]. intros i n Hi Hn.
    destruct (D i n Hi Hn) as [Hin|Hout]; [rewrite (I i n Hi Hn Hin)|rewrite (O i n Hi Hn Hout)]; naive_solver.
  - right. split; [done|]. by apply (Release_miss w w' s k c (cw_static w s Hs) Hc).
Qed.

Lemma Release_exact_witness :
  Release demo4 (Some demo6_net) = (Err (Errorf "cidr %v is out the range of cluster cidr %v"), demo4).
Proof.
  destruct (Release_exact 32 128 60 demo4 demo6_net demo4_wf demo6_net_wf) as [(Ho & _)|[_ E]]; [|exact E].
  exfalso. eapply (overlaps_family 32 128 22 60 demo4_net demo6_net); [exact demo4_net_wf|exact demo6_net_wf|lia|exact Ho].
Defined.

(** C28: the index of the block built for index [i] is [i] again, on both address
    families and through all three IPv6 layouts of [indexToCIDRBlock]. *)
Theorem index_block_roundtrip w s i (Hs : cidrset_static w s) (Hi : 0 <= i < maxCIDRs s) :
  ∃ n, indexToCIDRBlock s i = Ret n ∧ is_block w s i n ∧ getIndexForCIDR s n = Ret i.
Proof.
  destruct (indexToCIDRBlock_spec w s Hs i Hi) as (n & E & B). exists n. split; [done|]. split; [done|].
  assert (Hb : blockIndex w s (be_decode (net_IP n)) = i) by (by apply (block_prefix w s Hs i n)).
  unfold getIndexForCIDR. rewrite (getIndexForIP_spec w s Hs); [by rewrite Hb|apply B|].
  by apply (block_range w s Hs i Hi).
Qed.

Lemma index_block_roundtrip_witness :
  ∃ n, indexToCIDRBlock demo6 9 = Ret n ∧ getIndexForCIDR demo6 n = Ret 9.
Proof.
  assert (Hi : 0 <= 9 < maxCIDRs demo6) by (assert (maxCIDRs demo6 = 16) as -> by reflexivity; lia).
  destruct (index_block_roundtrip 128 demo6 9 (cw_static _ _ demo6_wf) Hi) as (n & E & _ & G).
  exists n. exact (conj E G).
Defined.

(** C5: refinement. Every run of the methods of a set that starts well-formed is a
    run of the abstract pool: answers correspond one to one and the bitmap
    abstracts to the pool's set of taken indices at the end. *)
Theorem CidrSet_refines_pool w s l (Hs : cidrset_wf w s) (Hl : Forall op_wf l) :
  ∃ rs s' ans, run_ops s l = (rs, s') ∧ cidrset_wf w s' ∧
    Forall2 (resp_ok (geometry s)) rs ans ∧
    pool_steps (maxCIDRs s) (geometry s) (held_indices s) (zip l ans) (held_indices s').
Proof.
  pose proof (sim_run l s (set_ok_intro w s Hs) Hl) as S. destruct (run_ops s l) as [rs s'].
  destruct S as (Hok & S & ans & R & Hsteps). exists rs, s', ans. split; [done|]. split; [|done].
  unfold set_ok in Hok. by rewrite (width_static s s' S), (static_width w s (cw_static w s Hs)) in Hok.
Qed.

Lemma CidrSet_refines_pool_witness :
  ∃ rs s' ans, run_ops demo4 [OpAlloc; OpOccupy demo4_net; OpAlloc; OpRelease demo4_net] = (rs, s') ∧
    pool_steps (maxCIDRs demo4) (geometry demo4) (held_indices demo4)
      (zip [OpAlloc; OpOccupy demo4_net; OpAlloc; OpRelease demo4_net] ans) (held_indices s').
Proof.
  assert (Hc : cidr_wf demo4_net) by (exists 32, 22; exact demo4_net_wf).
  assert (Hl : Forall op_wf [OpAlloc; OpOccupy demo4_net; OpAlloc; OpRelease demo4_net])
    by (repeat (apply Forall_cons; split; [exact Hc || exact I|]); apply Forall_nil_2).
  destruct (CidrSet_refines_pool 32 demo4 _ demo4_wf Hl) as (rs & s' & ans & E & _ & _ & St).
  exists rs, s', ans. exact (conj E St).
Defined.

(** Round trip through the node's text. A CIDR that [AllocateNext] returned,
    written with [IPNet.String], parsed back and released, leaves the bitmap and
    the count as they were before the allocation. *)
Theorem alloc_release_roundtrip w s (Hs : cidrset_wf w s) (Hfree : allocatedCIDRs s ≠ maxCIDRs s) :
  ∃ n s1 m s2, AllocateNext s = (Ret n, s1) ∧ ParseCIDR (IPNet_String n) = Ret m ∧
    Release s1 (Some m) = (Ret tt, s2) ∧ used s2 = used s ∧ allocatedCIDRs s2 = allocatedCIDRs s ∧
    cidrset_wf w s2.
Proof.
  destruct (AllocateNext_ok w s Hs Hfree) as (k & n & s1 & E & [R0 F B W S U C] & _).
  set (i := circ (maxCIDRs s) (nextCandidate s) k) in *. pose proof (cw_static _ _ W) as St1. pose proof (proj2 (is_block_static w s s1 _ n S) B) as B1.
  assert (Em : maxCIDRs s1 = maxCIDRs s) by apply S. assert (R : 0 <= i < maxCIDRs s1) by lia.
  destruct (Release_marks w w s1 _ n W (proj1 B) (block_in_cluster w s1 _ n St1 R B1)) as (s2 & E2 & [W2 S2 _ D I O]).
  exists n, s1, n, s2. split; [done|]. split; [by eapply ParseCIDR_String, B|]. split; [done|].
  assert (Em2 : maxCIDRs s2 = maxCIDRs s) by (rewrite <- Em; apply S2).
  pose proof (static_max _ _ (cw_static _ _ Hs)) as Hm.
  assert (Eu : used s2 = used s); [|split; [done|split; [|done]]].
  - apply Z.bits_inj'. intros j Hj. destruct (Z_lt_le_dec j (maxCIDRs s)) as [Hlt|Hge].
    + destruct (indexToCIDRBlock_spec w s1 St1 j) as (m & _ & Bm); [lia|].
      assert (Hov := blocks_disjoint w s1 j _ m n St1 ltac:(lia) R Bm B1).
      destruct (D j m ltac:(lia) Bm) as [Hin|Hout].
      * rewrite (I j m ltac:(lia) Bm Hin). apply Hov in Hin as ->. done.
      * rewrite (O j m ltac:(lia) Bm Hout), U, Z.setbit_eqb by lia.
        destruct (Z.eqb_spec i j) as [Eij|]; [|done]. exfalso. by apply Hout, Hov.
    + pose proof (cw_used _ _ W2) as Q. rewrite Em2 in Q.
      rewrite (testbit_high (used s2) (maxCIDRs s)), (testbit_high (used s) (maxCIDRs s)); (done || apply Hs || lia).
  - by rewrite (cw_count _ _ W2), (cw_count _ _ Hs), Eu, Em2.
Qed.

Lemma alloc_release_roundtrip_witness :
  ∃ n s1 m s2, AllocateNext demo4 = (Ret n, s1) ∧ ParseCIDR (IPNet_String n) = Ret m ∧
    Release s1 (Some m) = (Ret tt, s2) ∧ used s2 = used demo4.
Proof.
  assert (Hf : allocatedCIDRs demo4 ≠ maxCIDRs demo4) by discriminate.
  destruct (alloc_release_roundtrip 32 demo4 demo4_wf Hf) as (n & s1 & m & s2 & E1 & E2 & E3 & E4 & _).
  exists n, s1, m, s2. exact (conj E1 (conj E2 (conj E3 E4))).
Defined.

(** [NewCIDRSet] builds a well-formed empty set of [2^(nm-k)] blocks for a
    cluster of either family whose node mask is within the limits, and refuses
    an IPv6 cluster cut into more than [2^16] blocks. *)
Theorem NewCIDRSet_builds w k n nm (Hn : net_wf w k n) (Hk : k <= nm <= w) (Hd : nm - k <= 31)
    (Hp : w = 128 → ∀ y, same_prefix 128 k (be_decode (net_IP n)) y → y / 2 ^ 32 ≠ 65535) :
  (w = 128 ∧ clusterSubnetMaxDiff < nm - k ∧ NewCIDRSet (Some n) nm = Err ErrCIDRSetSubNetTooBig) ∨
  ∃ s, NewCIDRSet (Some n) nm = Ret s ∧ cidrset_wf w s ∧ clusterCIDR s = n ∧ nodeMaskSize s = nm ∧
    maxCIDRs s = 2 ^ (nm - k) ∧ used s = 0 ∧ label s = IPNet_String n.
Proof.
  destruct (decide (w = 128 ∧ clusterSubnetMaxDiff < nm - k)) as [[-> Hb]|Hb].
  - left. split; [done|]. split; [done|]. by apply (NewCIDRSet_too_big k).
  - right. apply (NewCIDRSet_spec w k); [done..|]. intros ->. lia.
Qed.

Lemma NewCIDRSet_builds_witness : ∃ s, NewCIDRSet (Some demo4_net) 24 = Ret s ∧ maxCIDRs s = 4.
Proof.
  destruct (NewCIDRSet_builds 32 22 demo4_net 24 demo4_net_wf ltac:(lia) ltac:(lia) ltac:(lia))
    as [(F & _)|(s & E & _ & _ & _ & M & _)]; [lia|]. exists s. exact (conj E M).
Defined.
