(* ===== verification/K8s.v ===== *)
(** * K8s: the Kubernetes objects and the client the controllers use

    The fields of [v1.Node] the node IPAM controllers read or write, the API
    client as an interface over an abstract world [W] (the API server is not
    part of this repository), [pkg/util/node/node.go], [pkg/util/taints] and
    [pkg/util/controller_utils.go]. *)

From S2P Require Import Prelude.
Local Open Scope Z_scope.

(** ** Effects

    A method that talks to the outside is a function on the world that may fail;
    [try] hands the error to the caller as a value, as Go does. *)
Definition io (W A : Type) : Type := W → outcome A * W.

#[global] Instance io_ret {W} : MRet (io W) := λ A a w, (Ret a, w).
#[global] Instance io_bind {W} : MBind (io W) := λ A B f m w,
  match m w with
  | (Ret a, w') => f a w'
  | (Err e, w') => (Err e, w')
  | (Panic, w') => (Panic, w')
  end.

Section io.
Context {W : Type}.

Definition fail {A} (e : error) : io W A := λ w, (Err e, w).
Definition lift {A} (o : outcome A) : io W A := λ w, (o, w).
Definition ask : io W W := λ w, (Ret w, w).
Definition put (f : W → W) : io W unit := λ w, (Ret tt, f w).
(** [v, err := m()]: a panic still unwinds. *)
Definition try {A} (m : io W A) : io W (error + A) := λ w,
  match m w with
  | (Ret a, w') => (Ret (inr a), w')
  | (Err e, w') => (Ret (inl e), w')
  | (Panic, w') => (Panic, w')
  end.
(** [defer f()] around a body. *)
Definition defer {A} (f : W → W) (m : io W A) : io W A := λ w, let '(r, w') := m w in (r, f w').
End io.

(** Run a client call on the second half of a state. *)
Definition on_snd {S W A} (m : io W A) : io (S * W) A := λ sw,
  let '(r, w') := m sw.2 in (r, (sw.1, w')).

(** ** Objects *)
Record Taint : Type := mkTaint { taint_Key : string; taint_Effect : string }.

Record NodeCondition : Type := mkCond {
  cond_Type : string; cond_Status : string; cond_Reason : string; cond_Message : string;
  cond_LastTransitionTime : Z; cond_LastHeartbeatTime : Z
}.

Record NodeSpec : Type := mkSpec {
  PodCIDR : string; PodCIDRs : list string; ProviderID : string; Taints : list Taint
}.

Record NodeStatus : Type := mkStatus {
  Capacity : gmap string Z; Conditions : list NodeCondition
}.

(** [Annotations] and [Labels]: reading a nil map is reading an empty one, and
    the code allocates the map before it writes to it. *)
Record Node : Type := mkNode {
  node_Name : string; node_UID : string;
  Annotations : gmap string string; Labels : gmap string string;
  Spec : NodeSpec; Status : NodeStatus
}.

#[global] Instance Taint_eq_dec : EqDecision Taint. Proof. solve_decision. Defined.
#[global] Instance NodeCondition_eq_dec : EqDecision NodeCondition. Proof. solve_decision. Defined.
#[global] Instance NodeSpec_eq_dec : EqDecision NodeSpec. Proof. solve_decision. Defined.
#[global] Instance NodeStatus_eq_dec : EqDecision NodeStatus. Proof. solve_decision. Defined.
#[global] Instance Node_eq_dec : EqDecision Node. Proof. solve_decision. Defined.

Definition set_Spec (f : NodeSpec → NodeSpec) (n : Node) : Node :=
  mkNode (node_Name n) (node_UID n) (Annotations n) (Labels n) (f (Spec n)) (Status n).
Definition set_Status (f : NodeStatus → NodeStatus) (n : Node) : Node :=
  mkNode (node_Name n) (node_UID n) (Annotations n) (Labels n) (Spec n) (f (Status n)).
Definition set_Annotations (f : gmap string string → gmap string string) (n : Node) : Node :=
  mkNode (node_Name n) (node_UID n) (f (Annotations n)) (Labels n) (Spec n) (Status n).
Definition set_PodCIDRs (l : list string) (s : NodeSpec) : NodeSpec :=
  mkSpec (hd EmptyString l) l (ProviderID s) (Taints s).

Definition NodeNetworkUnavailable : string := "NetworkUnavailable".
Definition ConditionTrue : string := "True".
Definition ConditionFalse : string := "False".
Definition TaintNodeNetworkUnavailable : string := "node.kubernetes.io/network-unavailable".
Definition TaintEffectNoSchedule : string := "NoSchedule".

(** ** The client *)

(** The patches the code sends, before their JSON encoding (the encoding of
    these values cannot fail). *)
Inductive nodePatch : Type :=
| PatchCIDRs (podCIDR : string) (podCIDRs : list string)
| PatchPodCIDR (podCIDR : string)
| PatchConditions (conds : list NodeCondition)
| PatchAnnotations (ann : gmap string string)
| PatchCapacity (cap : gmap string Z).

Record ObjectReference : Type := mkRef { ref_Kind : string; ref_Name : string; ref_UID : string }.

Class KubeClient (W : Type) : Type := {
  Nodes_Get : string → io W Node;
  Nodes_List : io W (list Node);
  Nodes_Patch : string → nodePatch → io W unit;
  NodeLister_Get : string → io W Node;
  NodeLister_List : io W (list Node);
  Recorder_Eventf : ObjectReference → string → io W unit;
  Clock_Now : io W Z
}.

(** ** [apimachinery] errors *)

(** [errors.As(err, &APIStatus)]: only a cause kept by [%w] is reachable. *)
Fixpoint APIStatus_of (e : error) : option StatusReason :=
  match e with
  | ErrStatus r => Some r
  | ErrorfW _ c => APIStatus_of c
  | _ => None
  end.
Definition ReasonForError (e : error) : StatusReason := default ReasonUnknown (APIStatus_of e).
Definition IsServerTimeout (e : error) : bool := bool_decide (ReasonForError e = ReasonServerTimeout).
Definition IsNotFound (e : error) : bool := bool_decide (ReasonForError e = ReasonNotFound).
Definition IsConflict (e : error) : bool := bool_decide (ReasonForError e = ReasonConflict).

(** ** [pkg/util/taints] *)
Definition MatchTaint (t u : Taint) : bool :=
  bool_decide (taint_Key t = taint_Key u) && bool_decide (taint_Effect t = taint_Effect u).

Fixpoint TaintExists (taints : list Taint) (taintToFind : Taint) : bool :=
  match taints with
  | [] => false
  | t :: ts => if MatchTaint t taintToFind then true else TaintExists ts taintToFind
  end.

(** ** [pkg/util/controller_utils.go] *)

(** The index and the condition of the first match. *)
Fixpoint GetNodeCondition_from (i : Z) (cs : list NodeCondition) (ty : string) : Z * option NodeCondition :=
  match cs with
  | [] => (-1, None)
  | c :: cs => if bool_decide (cond_Type c = ty) then (i, Some c) else GetNodeCondition_from (i + 1) cs ty
  end.
Definition GetNodeCondition (status : option NodeStatus) (ty : string) : Z * option NodeCondition :=
  match status with
  | None => (-1, None)
  | Some st => GetNodeCondition_from 0 (Conditions st) ty
  end.

(** The objects an informer may hand to a delete handler. *)
Inductive informerObj : Type :=
| ObjNode (n : Node)
| ObjTombstone (o : informerObj)
| ObjOther.

(** The handlers swallow the error of [f] after reporting it. *)
Definition handled {W} (m : io W unit) : io W unit :=
  r ← try m;
  match r with inl _ => mret tt | inr _ => mret tt end.

Definition CreateAddNodeHandler {W} (f : Node → io W unit) (obj : informerObj) : io W unit :=
  match obj with ObjNode n => handled (f n) | _ => lift Panic end.

Definition CreateUpdateNodeHandler {W} (f : Node → Node → io W unit) (old new : informerObj) : io W unit :=
  match new, old with
  | ObjNode n, ObjNode p => handled (f p n)
  | _, _ => lift Panic
  end.

Definition CreateDeleteNodeHandler {W} (f : Node → io W unit) (obj : informerObj) : io W unit :=
  match obj with
  | ObjNode n | ObjTombstone (ObjNode n) => handled (f n)
  | _ => mret tt
  end.

Section client.
Context {W : Type} `{KubeClient W}.

Definition RecordNodeStatusChange (node : Node) (newStatus : string) : io W unit :=
  Recorder_Eventf (mkRef "Node" (node_Name node) (node_UID node)) newStatus.

(** ** [pkg/util/node/node.go] *)
Definition SetNodeCondition (node : string) (condition : NodeCondition) : io W unit :=
  now ← Clock_Now;
  let condition := mkCond (cond_Type condition) (cond_Status condition) (cond_Reason condition)
    (cond_Message condition) (cond_LastTransitionTime condition) now in
  Nodes_Patch node (PatchConditions [condition]).

Definition PatchNodeCIDRs (node : string) (cidrs : list string) : io W unit :=
  match cidrs with
  | [] => lift Panic
  | c :: _ =>
      r ← try (Nodes_Patch node (PatchCIDRs c cidrs));
      match r with
      | inl _ => fail (Errorf "failed to patch node CIDR: %v")
      | inr _ => mret tt
      end
  end.

Definition NorthInterfacesAnnotationKey : string := "networking.gke.io/north-interfaces".
Definition MultiNetworkAnnotationKey : string := "networking.gke.io/networks".
Definition NodeNetworkAnnotationKey : string := "networking.gke.io/network-status".

(** The two annotations, those the node has. *)
Definition multiNetworkAnnotations (node : Node) : gmap string string :=
  let annotation := match Annotations node !! NorthInterfacesAnnotationKey with
    | Some v => {[ NorthInterfacesAnnotationKey := v ]} | None => ∅ end in
  match Annotations node !! MultiNetworkAnnotationKey with
  | Some v => <[ MultiNetworkAnnotationKey := v ]> annotation | None => annotation end.

Definition PatchNodeMultiNetwork (node : Node) : io W unit :=
  let annotation := multiNetworkAnnotations node in
  _ ← (if bool_decide (annotation = ∅) then mret tt
       else r ← try (Nodes_Patch (node_Name node) (PatchAnnotations annotation));
            match r with
            | inl _ => fail (Errorf "unable to apply patch for multi-network annotation: %v")
            | inr _ => mret tt
            end);
  r ← try (Nodes_Patch (node_Name node) (PatchCapacity (Capacity (Status node))));
  match r with
  | inl e => fail (ErrorfW "failed to patch node for multi-networking: %w" e)
  | inr _ => mret tt
  end.
End client.

(** ** What the API server promises

    [api_nodes] is the state of the server.  The lister answers from a cache, so
    nothing relates its content to [api_nodes].  [spec.podCIDRs] is immutable
    once set; a request may fail after the server has applied it. *)
Definition cidrs_applied (name : string) (l : list string) (api api' : gmap string Node) : Prop :=
  ∃ n, api !! name = Some n ∧ (PodCIDRs (Spec n) = [] ∨ PodCIDRs (Spec n) = l) ∧
    api' = <[ name := set_Spec (set_PodCIDRs l) n ]> api.

Class KubeClientSpec (W : Type) `{KubeClient W} : Type := {
  api_nodes : W → gmap string Node;
  lister_get_spec name w : let '(r, w') := NodeLister_Get name w in
    r ≠ Panic ∧ api_nodes w' = api_nodes w ∧ ∀ n, r = Ret n → node_Name n = name;
  eventf_spec ref s w : let '(r, w') := Recorder_Eventf ref s w in
    r = Ret tt ∧ api_nodes w' = api_nodes w;
  patch_cidrs_spec name c l w : let '(r, w') := Nodes_Patch name (PatchCIDRs c (c :: l)) w in
    r ≠ Panic ∧ (cidrs_applied name (c :: l) (api_nodes w) (api_nodes w') ∨
                 (is_err r = true ∧ api_nodes w' = api_nodes w))
}.

(** ** Facts *)
Lemma io_bind_eq {W A B} (m : io W A) (f : A → io W B) w :
  (m ≫= f) w = match m w with
               | (Ret a, w') => f a w' | (Err e, w') => (Err e, w') | (Panic, w') => (Panic, w') end.
Proof. done. Qed.

(** A sequence that returns went through its first part. *)
Lemma io_bind_Ret {W A B} (m : io W A) (f : A → io W B) w b w' : (m ≫= f) w = (Ret b, w') →
  ∃ a w1, m w = (Ret a, w1) ∧ f a w1 = (Ret b, w').
Proof. rewrite io_bind_eq. destruct (m w) as [[a| |] w1]; [eauto|done..]. Qed.

Lemma try_Ret {W A} (m : io W A) w r w' : try m w = (Ret r, w') →
  match r with inr a => m w = (Ret a, w') | inl e => m w = (Err e, w') end.
Proof. unfold try. destruct (m w) as [[]]; by intros [= <- <-]. Qed.

Lemma TaintExists_spec ts t : TaintExists ts t = true ↔
  ∃ u, u ∈ ts ∧ taint_Key u = taint_Key t ∧ taint_Effect u = taint_Effect t.
Proof.
  induction ts as [|u ts IH]; simpl.
  { split; [done|]. by intros (u & ?%not_elem_of_nil & _). }
  unfold MatchTaint. repeat case_bool_decide; simpl; set_solver.
Qed.

(** The first condition of the type, with its position. *)
Lemma GetNodeCondition_from_spec i cs ty :
  match GetNodeCondition_from i cs ty with
  | (j, Some c) => ∃ k, j = i + Z.of_nat k ∧ cs !! k = Some c ∧ cond_Type c = ty ∧
      ∀ k' c', (k' < k)%nat → cs !! k' = Some c' → cond_Type c' ≠ ty
  | (j, None) => j = -1 ∧ ∀ c, c ∈ cs → cond_Type c ≠ ty
  end.
Proof.
  revert i. induction cs as [|c cs IH]; intros i; simpl.
  { split; [done|]. by intros ? ?%not_elem_of_nil. }
  case_bool_decide as E.
  - exists O. split; [lia|]. split; [done|]. split; [done|]. lia.
  - specialize (IH (i + 1)). destruct (GetNodeCondition_from (i + 1) cs ty) as [j [c'|]].
    + destruct IH as (k & -> & Hk & Ht & Hf). exists (S k). split; [lia|]. split; [done|]. split; [done|].
      intros [|k'] c'' Hlt; simpl; [naive_solver|]. apply Hf. lia.
    + destruct IH as [-> Hf]. split; [done|]. intros c' [->|Hc]%elem_of_cons; [done|]. by apply Hf.
Qed.

(** [PatchNodeCIDRs] hides the status of a failed request from its caller. *)
Lemma PatchNodeCIDRs_err {W} `{KubeClient W} node cidrs w e w' :
  PatchNodeCIDRs node cidrs w = (Err e, w') → ReasonForError e = ReasonUnknown.
Proof.
  unfold PatchNodeCIDRs. destruct cidrs as [|c l]; [done|]. rewrite io_bind_eq. unfold try.
  destruct (Nodes_Patch node _ w) as [[]]; by intros [= <- _].
Qed.

Lemma handled_state {W} (m : io W unit) w : (handled m w).2 = (m w).2.
Proof.
  unfold handled. rewrite io_bind_eq. unfold try. by destruct (m w) as [[]].
Qed.
