(* ===== verification/RangeAllocator.v ===== *)
(** * RangeAllocator: assigning pod CIDRs to nodes

    [pkg/controller/nodeipam/ipam/range_allocator.go] over the pool interface of
    [CidrPool] and the API client of [K8s].  [r.lock] protects
    [nodesInProcessing] only and every CIDR set has its own lock, so the
    handlers and workers interleave at the granularity of those calls; the model
    runs one handler or one work item at a time.  [nodeCIDRUpdateChannel] is the
    list of the items in the channel followed by those of senders blocked on
    it. *)

From S2P Require Import Prelude Bits GoNet GoNetText CidrSet CidrSetIndex CidrSetOps CidrPool K8s.
Local Open Scope Z_scope.

Record nodeReservedCIDRs : Type := mkReserved {
  r_allocatedCIDRs : list IPNet;
  r_nodeName : string
}.

Record rangeAllocator (P : Type) : Type := mkRA {
  clusterCIDRs : list IPNet;
  cidrSets : list P;
  nodeCIDRUpdateChannel : list nodeReservedCIDRs;
  nodesInProcessing : gset string
}.
Arguments mkRA {P} _ _ _ _.
Arguments clusterCIDRs {P} _.
Arguments cidrSets {P} _.
Arguments nodeCIDRUpdateChannel {P} _.
Arguments nodesInProcessing {P} _.

Definition cidrUpdateRetries : nat := 3.

(** [cidrsAsString]. *)
Definition cidrsAsString (inCIDRs : list IPNet) : list string := IPNet_String <$> inCIDRs.

(** [CIDRAllocatorParams] of [cidr_allocator.go]. *)
Record CIDRAllocatorParams : Type := mkParams {
  ClusterCIDRs : list IPNet;
  ServiceCIDR : option IPNet;
  SecondaryServiceCIDR : option IPNet;
  NodeCIDRMaskSizes : list Z
}.

Section allocator.
Context {P : Type} `{CidrPool P} {W : Type} `{KubeClient W}.

Abbreviation RA := (rangeAllocator P).
Abbreviation M := (io (RA * W)).

Definition with_sets (l : list P) (r : RA) : RA :=
  mkRA (clusterCIDRs r) l (nodeCIDRUpdateChannel r) (nodesInProcessing r).
Definition send (item : nodeReservedCIDRs) (r : RA) : RA :=
  mkRA (clusterCIDRs r) (cidrSets r) (nodeCIDRUpdateChannel r ++ [item]) (nodesInProcessing r).

Definition insertNodeToProcessing (nodeName : string) : M bool := λ '(r, w),
  if decide (nodeName ∈ nodesInProcessing r) then (Ret false, (r, w))
  else (Ret true, (mkRA (clusterCIDRs r) (cidrSets r) (nodeCIDRUpdateChannel r)
                     ({[ nodeName ]} ∪ nodesInProcessing r), w)).

Definition removeNodeFromProcessing (nodeName : string) (r : RA) : RA :=
  mkRA (clusterCIDRs r) (cidrSets r) (nodeCIDRUpdateChannel r) (nodesInProcessing r ∖ {[ nodeName ]}).

(** [r.cidrSets[idx].f()]. *)
Definition withSet {A} (idx : nat) (f : P → outcome A * P) : M A := λ '(r, w),
  match cidrSets r !! idx with
  | None => (Panic, (r, w))
  | Some p => let '(res, p') := f p in (res, (with_sets (<[ idx := p' ]> (cidrSets r)) r, w))
  end.

Definition numSets : M nat := λ '(r, w), (Ret (length (cidrSets r)), (r, w)).

(** The loop of [occupyCIDRs] from index [idx] on. *)
Fixpoint occupyLoop (idx : nat) (cidrs : list string) : M unit :=
  match cidrs with
  | [] => mret tt
  | cidr :: rest =>
      podCIDR ← try (lift (ParseCIDR cidr));
      match podCIDR with
      | inl _ => fail (Errorf "failed to parse node %s, CIDR %s")
      | inr podCIDR =>
          n ← numSets;
          if (n <=? idx)%nat
          then fail (Errorf "node:%s has an allocated cidr: %v at index:%v that does not exist in cluster cidrs configuration")
          else
            res ← try (withSet idx (λ p, pool_occupy p (Some podCIDR)));
            match res with
            | inl _ => fail (Errorf "failed to mark cidr[%v] at idx [%v] as occupied for node: %v: %v")
            | inr _ => occupyLoop (S idx) rest
            end
      end
  end.

Definition occupyCIDRs (node : Node) : M unit :=
  defer (λ '(r, w), (removeNodeFromProcessing (node_Name node) r, w))
    (if bool_decide (PodCIDRs (Spec node) = []) then mret tt
     else occupyLoop 0 (PodCIDRs (Spec node))).

(** One [AllocateNext] per set, from index [idx] on. *)
Fixpoint allocateLoop (node : Node) (idx fuel : nat) (allocated : list IPNet) : M (list IPNet) :=
  match fuel with
  | O => mret allocated
  | S fuel =>
      res ← try (withSet idx pool_alloc);
      match res with
      | inl _ =>
          _ ← put (λ '(r, w), (removeNodeFromProcessing (node_Name node) r, w));
          _ ← on_snd (RecordNodeStatusChange node "CIDRNotAvailable");
          fail (Errorf "failed to allocate cidr from cluster cidr at idx:%v: %v")
      | inr podCIDR => allocateLoop node (S idx) fuel (allocated ++ [podCIDR])
      end
  end.

Definition AllocateOrOccupyCIDR (node : option Node) : M unit :=
  match node with
  | None => mret tt
  | Some node =>
      fresh ← insertNodeToProcessing (node_Name node);
      if negb fresh then mret tt
      else if (0 <? length (PodCIDRs (Spec node)))%nat then occupyCIDRs node
      else
        n ← numSets;
        allocated ← allocateLoop node 0 n [];
        put (λ '(r, w), (send (mkReserved allocated (node_Name node)) r, w))
  end.

(** The loop of [ReleaseCIDR] from index [idx] on. *)
Fixpoint releaseLoop (idx : nat) (cidrs : list string) : M unit :=
  match cidrs with
  | [] => mret tt
  | cidr :: rest =>
      podCIDR ← try (lift (ParseCIDR cidr));
      match podCIDR with
      | inl _ => fail (Errorf "failed to parse CIDR %s on Node %v: %v")
      | inr podCIDR =>
          n ← numSets;
          if (n <=? idx)%nat
          then fail (Errorf "node:%s has an allocated cidr: %v at index:%v that does not exist in cluster cidrs configuration")
          else
            res ← try (withSet idx (λ p, pool_release p (Some podCIDR)));
            match res with
            | inl _ => fail (Errorf "error when releasing CIDR %v: %v")
            | inr _ => releaseLoop (S idx) rest
            end
      end
  end.

Definition ReleaseCIDR (node : option Node) : M unit :=
  match node with
  | None => mret tt
  | Some node =>
      if bool_decide (PodCIDRs (Spec node) = []) then mret tt
      else releaseLoop 0 (PodCIDRs (Spec node))
  end.

(** [filterOutServiceRange]: an [Occupy] error is logged only. *)
Fixpoint filterLoop (serviceCIDR : IPNet) (idx : nat) (cidrs : list IPNet) : M unit :=
  match cidrs with
  | [] => mret tt
  | cidr :: rest =>
      if negb (IPNet_Contains cidr (IP_Mask (net_IP serviceCIDR) (net_Mask cidr)))
         && negb (IPNet_Contains serviceCIDR (IP_Mask (net_IP cidr) (net_Mask serviceCIDR)))
      then filterLoop serviceCIDR (S idx) rest
      else
        _ ← try (withSet idx (λ p, pool_occupy p (Some serviceCIDR)));
        filterLoop serviceCIDR (S idx) rest
  end.

Definition filterOutServiceRange (serviceCIDR : IPNet) : M unit := λ '(r, w),
  filterLoop serviceCIDR 0 (clusterCIDRs r) (r, w).

(** Hand the reserved CIDRs of an item back; errors are logged only. *)
Fixpoint releaseReserved (idx : nat) (cidrs : list IPNet) : M unit :=
  match cidrs with
  | [] => mret tt
  | cidr :: rest =>
      _ ← try (withSet idx (λ p, pool_release p (Some cidr)));
      releaseReserved (S idx) rest
  end.

(** Up to [n] attempts; the last error if all fail. *)
Fixpoint patchLoop (n : nat) (err : error) (name : string) (cidrs : list string) : M (error + unit) :=
  match n with
  | O => mret (inl err)
  | S n =>
      res ← try (on_snd (PatchNodeCIDRs name cidrs));
      match res with
      | inr _ => mret (inr tt)
      | inl e => patchLoop n e name cidrs
      end
  end.

Definition updateCIDRsAllocation (data : nodeReservedCIDRs) : M unit :=
  defer (λ '(r, w), (removeNodeFromProcessing (r_nodeName data) r, w)) (
    let cidrsString := cidrsAsString (r_allocatedCIDRs data) in
    node ← on_snd (NodeLister_Get (r_nodeName data));
    if bool_decide (length (PodCIDRs (Spec node)) = length (r_allocatedCIDRs data)
                    ∧ PodCIDRs (Spec node) = cidrsString)
    then mret tt
    else if bool_decide (PodCIDRs (Spec node) ≠ [])
    then releaseReserved 0 (r_allocatedCIDRs data)
    else
      res ← patchLoop cidrUpdateRetries (Errorf "") (node_Name node) cidrsString;
      match res with
      | inr _ => mret tt
      | inl err =>
          _ ← on_snd (RecordNodeStatusChange node "CIDRAssignmentFailed");
          _ ← (if negb (IsServerTimeout err) then releaseReserved 0 (r_allocatedCIDRs data) else mret tt);
          fail err
      end).

(** One turn of [worker]'s loop on a received item: a failed item is sent
    again. *)
Definition workerItem (workItem : nodeReservedCIDRs) : M unit :=
  res ← try (updateCIDRsAllocation workItem);
  match res with
  | inl _ => put (λ '(r, w), (send workItem r, w))
  | inr _ => mret tt
  end.

Definition recv : M (option nodeReservedCIDRs) := λ '(r, w),
  match nodeCIDRUpdateChannel r with
  | [] => (Ret None, (r, w))
  | item :: q => (Ret (Some item), (mkRA (clusterCIDRs r) (cidrSets r) q (nodesInProcessing r), w))
  end.

Definition worker : M unit :=
  item ← recv;
  match item with Some item => workerItem item | None => mret tt end.

(** The handlers [NewCIDRRangeAllocator] registers. *)
Definition addNode : informerObj → M unit := CreateAddNodeHandler (λ n, AllocateOrOccupyCIDR (Some n)).
Definition updateNode : informerObj → informerObj → M unit :=
  CreateUpdateNodeHandler (λ _ newNode,
    if bool_decide (PodCIDRs (Spec newNode) = []) then AllocateOrOccupyCIDR (Some newNode) else mret tt).
Definition deleteNode : informerObj → M unit := CreateDeleteNodeHandler (λ n, ReleaseCIDR (Some n)).

(** The start-up loop over the existing nodes. *)
Fixpoint occupyNodes (nodes : list Node) : M unit :=
  match nodes with
  | [] => mret tt
  | node :: rest =>
      if bool_decide (PodCIDRs (Spec node) = []) then occupyNodes rest
      else _ ← occupyCIDRs node; occupyNodes rest
  end.

(** [if svc != nil { ra.filterOutServiceRange(svc) }]. *)
Definition filterOptional (svc : option IPNet) : M unit :=
  match svc with Some c => filterOutServiceRange c | None => mret tt end.

(** The part of [NewCIDRRangeAllocator] after the sets are built. *)
Definition initAllocator (params : CIDRAllocatorParams) (nodeList : option (list Node)) : M unit :=
  _ ← filterOptional (ServiceCIDR params);
  _ ← filterOptional (SecondaryServiceCIDR params);
  match nodeList with Some l => occupyNodes l | None => mret tt end.
End allocator.

(** [make([]*cidrset.CidrSet, …)] filled by [NewCIDRSet]. *)
Fixpoint newSets (cidrs : list IPNet) (sizes : list Z) : outcome (list CidrSet) :=
  match cidrs with
  | [] => Ret []
  | c :: cidrs =>
      match sizes with
      | [] => Panic
      | k :: sizes =>
          s ← NewCIDRSet (Some c) k;
          ss ← newSets cidrs sizes;
          Ret (s :: ss)
      end
  end.

Definition NewCIDRRangeAllocator {W} `{KubeClient W} (params : CIDRAllocatorParams)
    (nodeList : option (list Node)) (w : W) : outcome (rangeAllocator CidrSet) * W :=
  match newSets (ClusterCIDRs params) (NodeCIDRMaskSizes params) with
  | Ret sets =>
      let '(res, (r, w')) := initAllocator params nodeList (mkRA (ClusterCIDRs params) sets [] ∅, w) in
      (match res with Ret _ => Ret r | Err e => Err e | Panic => Panic end, w')
  | Err e => (Err e, w)
  | Panic => (Panic, w)
  end.
