(* ===== verification/RangeAllocatorFacts.v ===== *)
(** * RangeAllocatorFacts: what the range allocator does to its CIDR sets

    Every operation of the allocator against the pool contract: which blocks it
    may give up ([evolve]), what a successful assignment reserves, and the
    behaviour of each early return. *)

From S2P Require Import Prelude Bits GoNet GoNetText CidrSet CidrSetIndex CidrSetOps CidrPool K8s RangeAllocator.
Local Open Scope Z_scope.

Section facts.
Context {P : Type} `{CidrPoolSpec P} {W : Type} `{KubeClientSpec W}.

Abbreviation RA := (rangeAllocator P).

Definition sets_ok (l : list P) : Prop := Forall pool_ok l.

(** From [l] to [l'] the sets keep their geometry, and only blocks in [D] may
    have become free. *)
Definition evolve (D : nat → IPNet → Prop) (l l' : list P) : Prop :=
  sets_ok l' ∧ ∀ i, match l !! i, l' !! i with
    | Some p, Some p' => (∀ n, pool_block p' n ↔ pool_block p n) ∧
                         ∀ n, pool_held p n → ¬ D i n → pool_held p' n
    | None, None => True
    | _, _ => False
    end.
Definition keeps : list P → list P → Prop := evolve (λ _ _, False).

Lemma evolve_refl D l : sets_ok l → evolve D l l.
Proof. intros Hl. split; [done|]. intros i. by destruct (l !! i). Qed.

Lemma evolve_trans D l1 l2 l3 : evolve D l1 l2 → evolve D l2 l3 → evolve D l1 l3.
Proof.
  intros [O1 E1] [O2 E2]. split; [done|]. intros i. specialize (E1 i). specialize (E2 i).
  destruct (l1 !! i) as [p1|], (l2 !! i) as [p2|], (l3 !! i) as [p3|]; try done.
  destruct E1 as [B1 K1], E2 as [B2 K2]. split; [intros n; by rewrite B2|naive_solver].
Qed.

Lemma evolve_mono (D D' : nat → IPNet → Prop) l l' :
  (∀ i n, D i n → D' i n) → evolve D l l' → evolve D' l l'.
Proof.
  intros HD [O1 E1]. split; [done|]. intros i. specialize (E1 i).
  destruct (l !! i), (l' !! i); try done. naive_solver.
Qed.

Lemma keeps_evolve D l l' : keeps l l' → evolve D l l'.
Proof. by apply evolve_mono. Qed.

Lemma evolve_length D l l' : evolve D l l' → length l' = length l.
Proof.
  intros [_ E]. apply Nat.le_antisymm; apply Nat.nlt_ge; intros Hlt.
  - apply lookup_lt_is_Some in Hlt as [p Hp]. specialize (E (length l)).
    rewrite Hp, (lookup_ge_None_2 l) in E by done. done.
  - apply lookup_lt_is_Some in Hlt as [p Hp]. specialize (E (length l')).
    rewrite Hp, (lookup_ge_None_2 l') in E by done. done.
Qed.

(** Replacing one set. *)
Lemma evolve_insert D l i p p' b X : sets_ok l → l !! i = Some p →
  pool_becomes b X p p' → (b = false → ∀ n, X n → D i n) →
  evolve D l (<[ i := p' ]> l).
Proof.
  intros Hl Hi (B1 & B2 & B3) HD. split.
  { apply Forall_insert; done. }
  intros j. destruct (decide (j = i)) as [->|Hne].
  - rewrite Hi, list_lookup_insert_eq by (by apply lookup_lt_Some in Hi). split; [done|].
    intros n Hn Hd. apply (B3 n (pool_held_block p n Hn)). destruct b; [by left|].
    split; [done|]. intros HX. by eapply Hd, HD.
  - rewrite list_lookup_insert_ne by done. destruct (l !! j); done.
Qed.

(** What a sub-computation of the allocator does: it never panics and only
    replaces the sets, which evolve within [D]. *)
Definition sets_run {A} (D : nat → IPNet → Prop) (r : RA) (w : W) (o : outcome A * (RA * W)) : Prop :=
  ∃ l', o.2 = (with_sets l' r, w) ∧ evolve D (cidrSets r) l' ∧ o.1 ≠ Panic.

Lemma sets_run_here {A} D r w (o : outcome A) : sets_ok (cidrSets r) → o ≠ Panic → sets_run D r w (o, (r, w)).
Proof. intros Hr Ho. exists (cidrSets r). split; [by destruct r|]. split; [by apply evolve_refl|done]. Qed.

Lemma sets_run_seq {A B} D r w (m : io (RA * W) A) (f : A → io (RA * W) B) :
  sets_run D r w (m (r, w)) →
  (∀ a l', m (r, w) = (Ret a, (with_sets l' r, w)) → evolve D (cidrSets r) l' →
     sets_run D (with_sets l' r) w (f a (with_sets l' r, w))) →
  sets_run D r w ((m ≫= f) (r, w)).
Proof.
  intros (l1 & E1 & V1 & N1) Hf. rewrite io_bind_eq. destruct (m (r, w)) as [[a|e|] st]; simpl in *; subst; try done.
  - destruct (Hf a l1 eq_refl V1) as (l2 & E2 & V2 & N2). exists l2. split; [done|].
    split; [by eapply evolve_trans|done].
  - by exists l1.
Qed.

Lemma sets_run_try {A} D r w (m : io (RA * W) A) : sets_run D r w (m (r, w)) → sets_run D r w (try m (r, w)).
Proof.
  intros (l1 & E1 & V1 & N1). exists l1. unfold try.
  destruct (m (r, w)) as [[a|e|] st]; simpl in *; subst; done.
Qed.

(** A call on one set that follows the contract. *)
Lemma withSet_run {A} D r w idx (f : P → outcome A * P) p :
  sets_ok (cidrSets r) → cidrSets r !! idx = Some p →
  match f p with
  | (Ret _, p') => evolve D (cidrSets r) (<[ idx := p' ]> (cidrSets r))
  | (Err _, p') => p' = p
  | (Panic, _) => False
  end → sets_run D r w (withSet idx f (r, w)).
Proof.
  intros Hr Hp Hf. unfold withSet. rewrite Hp. destruct (f p) as [[a|e|] p']; [| |done].
  - eexists. split; [done|]. done.
  - subst. exists (cidrSets r). rewrite list_insert_id by done. split; [done|].
    split; [by apply evolve_refl|done].
Qed.

Lemma occupy_run D r w idx c : sets_ok (cidrSets r) → (idx < length (cidrSets r))%nat → cidr_wf c →
  sets_run D r w (withSet idx (λ p, pool_occupy p (Some c)) (r, w)).
Proof.
  intros Hr [p Hp]%lookup_lt_is_Some Hc. eapply withSet_run; [done..|].
  assert (Hok : pool_ok p) by by eapply Forall_lookup_1.
  pose proof (pool_occupy_spec p c Hok Hc) as S. destruct (pool_occupy p (Some c)) as [[]]; [|naive_solver..].
  by eapply (evolve_insert _ _ _ _ _ true).
Qed.

Lemma release_run (D : nat → IPNet → Prop) r w idx c :
  sets_ok (cidrSets r) → (idx < length (cidrSets r))%nat → cidr_wf c → (∀ n, meets n c → D idx n) →
  sets_run D r w (withSet idx (λ p, pool_release p (Some c)) (r, w)).
Proof.
  intros Hr [p Hp]%lookup_lt_is_Some Hc HD. eapply withSet_run; [done..|].
  assert (Hok : pool_ok p) by by eapply Forall_lookup_1.
  pose proof (pool_release_spec p c Hok Hc) as S. destruct (pool_release p (Some c)) as [[]]; [|naive_solver..].
  by eapply (evolve_insert _ _ _ _ _ false).
Qed.

(** The head of both string loops: parse, bounds check, call. *)
Lemma parse_run (call : nat → IPNet → io (RA * W) unit) (rest : io (RA * W) unit) D r w idx cidr e1 e2 e3 :
  sets_ok (cidrSets r) → plain_cidr cidr →
  (∀ c, ParseCIDR cidr = Ret c → cidr_wf c → (idx < length (cidrSets r))%nat → sets_run D r w (call idx c (r, w))) →
  (∀ l', evolve D (cidrSets r) l' → sets_run D (with_sets l' r) w (rest (with_sets l' r, w))) →
  sets_run D r w ((podCIDR ← try (lift (ParseCIDR cidr));
    match podCIDR with
    | inl _ => fail e1
    | inr podCIDR =>
        n ← numSets;
        if (n <=? idx)%nat then fail e2
        else res ← try (call idx podCIDR); match res with inl _ => fail e3 | inr _ => rest end
    end) (r, w)).
Proof.
  intros Hr Hp Hc Hrest. apply sets_run_seq.
  { apply sets_run_try. apply sets_run_here; [done|]. intros E. by apply ParseCIDR_no_panic in E. }
  unfold try, lift. intros podCIDR l' E V.
  assert (l' = cidrSets r) as ->.
  { apply (f_equal (λ o, cidrSets o.2.1)) in E. by destruct (ParseCIDR cidr). }
  replace (with_sets (cidrSets r) r) with r in * by (by destruct r).
  destruct (ParseCIDR cidr) as [c|e|] eqn:Ec; [|injection E as <-; by apply sets_run_here|done].
  injection E as <-. rewrite io_bind_eq. simpl. destruct (Nat.leb_spec (length (cidrSets r)) idx); [by apply sets_run_here|].
  apply sets_run_seq; [apply sets_run_try, Hc; [done|by apply Hp|done]|].
  intros [e|[]] l1 _ V1; [apply sets_run_here; [apply V1|done]|by apply Hrest].
Qed.

Lemma occupyLoop_run D cidrs idx r w : sets_ok (cidrSets r) → Forall plain_cidr cidrs →
  sets_run D r w (occupyLoop idx cidrs (r, w)).
Proof.
  intros Hr Hp. revert idx r Hr. induction Hp as [|cidr rest Hc Hp IH]; intros idx r Hr.
  { by apply sets_run_here. }
  apply (parse_run (λ idx c, withSet idx (λ p, pool_occupy p (Some c)))); [done..| |].
  - intros c _ Hw Hlt. by apply occupy_run.
  - intros l' V. apply IH, V.
Qed.

(** The blocks [ReleaseCIDR] may free: those that meet the text at their index. *)
Definition named_by (idx : nat) (cidrs : list string) (i : nat) (n : IPNet) : Prop :=
  ∃ k x c, i = (idx + k)%nat ∧ cidrs !! k = Some x ∧ ParseCIDR x = Ret c ∧ meets n c.

Lemma releaseLoop_run (D : nat → IPNet → Prop) cidrs idx r w : sets_ok (cidrSets r) → Forall plain_cidr cidrs →
  (∀ i n, named_by idx cidrs i n → D i n) →
  sets_run D r w (releaseLoop idx cidrs (r, w)).
Proof.
  intros Hr Hp. revert idx r Hr. induction Hp as [|cidr rest Hc Hp IH]; intros idx r Hr HD.
  { by apply sets_run_here. }
  apply (parse_run (λ idx c, withSet idx (λ p, pool_release p (Some c)))); [done..| |].
  - intros c Ec Hw Hlt. apply release_run; [done..|]. intros n Hn. apply HD. exists O, cidr, c.
    split; [lia|done].
  - intros l' V. apply IH; [apply V|]. intros i n (k & x & c & -> & Hk & Hx & Hn).
    apply HD. exists (S k), x, c. split; [lia|done].
Qed.

Lemma releaseReserved_run (D : nat → IPNet → Prop) cidrs idx r w : sets_ok (cidrSets r) → Forall cidr_wf cidrs →
  (idx + length cidrs <= length (cidrSets r))%nat →
  (∀ k c n, cidrs !! k = Some c → meets n c → D (idx + k)%nat n) →
  sets_run D r w (releaseReserved idx cidrs (r, w)).
Proof.
  intros Hr Hp. revert idx r Hr. induction Hp as [|c rest Hc Hp IH]; intros idx r Hr Hlen HD.
  { by apply sets_run_here. }
  simpl in Hlen. cbn [releaseReserved]. apply sets_run_seq.
  { apply sets_run_try, release_run; [done|lia|done|]. intros n Hn. rewrite <- (Nat.add_0_r idx). by eapply HD. }
  intros _ l' _ V. apply IH; [apply V|simpl; rewrite (evolve_length _ _ _ V); lia|].
  intros k c' n Hk Hn. rewrite Nat.add_succ_comm. by eapply HD.
Qed.

(** ** Assignment *)

(** [ns] are blocks of consecutive sets from [idx], free in [l] and held in [l']. *)
Definition reserved (idx : nat) (ns : list IPNet) (l l' : list P) : Prop :=
  ∀ k n, ns !! k = Some n → ∃ p p', l !! (idx + k)%nat = Some p ∧ l' !! (idx + k)%nat = Some p' ∧
    pool_block p n ∧ ¬ pool_held p n ∧ pool_held p' n.

(** The two ways [allocateLoop] ends. *)
Definition alloc_result (node : Node) (idx fuel : nat) (acc : list IPNet) (r : RA) (w : W)
    (o : outcome (list IPNet) * (RA * W)) : Prop :=
  ∃ l', keeps (cidrSets r) l' ∧
    ((∃ ns, o = (Ret (acc ++ ns), (with_sets l' r, w)) ∧ length ns = fuel ∧ reserved idx ns (cidrSets r) l') ∨
     (∃ k w' p, o = (Err (Errorf "failed to allocate cidr from cluster cidr at idx:%v: %v"),
                   (removeNodeFromProcessing (node_Name node) (with_sets l' r), w')) ∧
        api_nodes w' = api_nodes w ∧ (k < fuel)%nat ∧ l' !! (idx + k)%nat = Some p ∧
        ∀ n, pool_block p n → pool_held p n)).

Lemma alloc_at r idx p : sets_ok (cidrSets r) → cidrSets r !! idx = Some p →
  match pool_alloc p with
  | (Ret n, p') => pool_block p n ∧ ¬ pool_held p n ∧ pool_held p' n ∧
      keeps (cidrSets r) (<[ idx := p' ]> (cidrSets r))
  | (Err _, p') => p' = p ∧ ∀ n, pool_block p n → pool_held p n
  | (Panic, _) => False
  end.
Proof.
  intros Hr Hp. assert (Hok : pool_ok p) by by eapply Forall_lookup_1.
  pose proof (pool_alloc_spec p Hok) as S. destruct (pool_alloc p) as [[n|e|] p']; [|done..].
  destruct S as (S1 & S2 & S3). split; [done|]. split; [done|]. split.
  - destruct S3 as (_ & _ & S3). apply (S3 n S1). by right.
  - by eapply (evolve_insert _ _ _ _ _ true).
Qed.

Lemma held_keeps l l' i p n : keeps l l' → l !! i = Some p → pool_held p n →
  ∃ p', l' !! i = Some p' ∧ pool_held p' n.
Proof.
  intros [_ E] Hi Hn. specialize (E i). rewrite Hi in E.
  destruct (l' !! i) as [p'|]; [|done]. exists p'. split; [done|]. apply (proj2 E n Hn). tauto.
Qed.

(** Prefixing one reservation to those of the following sets. *)
Lemma reserved_cons idx n ns l p p1 l2 : l !! idx = Some p → pool_block p n → ¬ pool_held p n →
  pool_held p1 n → keeps (<[ idx := p1 ]> l) l2 → reserved (S idx) ns (<[ idx := p1 ]> l) l2 →
  reserved idx (n :: ns) l l2.
Proof.
  intros Hi Hb Hf Hh K R [|k] m Hm; simpl in Hm.
  - injection Hm as <-. rewrite Nat.add_0_r.
    assert (Hp1 : <[ idx := p1 ]> l !! idx = Some p1) by (apply list_lookup_insert_eq; by apply lookup_lt_Some in Hi).
    destruct (held_keeps _ _ _ _ _ K Hp1 Hh) as (p2 & E2 & H2'). by exists p, p2.
  - destruct (R k m Hm) as (q & q' & Eq & Eq' & Hq). exists q, q'.
    rewrite <- Nat.add_succ_comm. rewrite list_lookup_insert_ne in Eq by lia. done.
Qed.

Lemma allocateLoop_run node fuel idx acc r w : sets_ok (cidrSets r) →
  (idx + fuel <= length (cidrSets r))%nat →
  alloc_result node idx fuel acc r w (allocateLoop node idx fuel acc (r, w)).
Proof.
  revert idx acc r. induction fuel as [|fuel IH]; intros idx acc r Hr Hlen.
  { exists (cidrSets r). split; [by apply evolve_refl|]. left. exists [].
    rewrite app_nil_r. split; [by destruct r|]. split; [done|]. intros k n Hk. by rewrite lookup_nil in Hk. }
  cbn [allocateLoop]. rewrite io_bind_eq. unfold try, withSet.
  destruct (lookup_lt_is_Some_2 (cidrSets r) idx) as [p Hp]; [lia|]. rewrite Hp.
  pose proof (alloc_at r idx p Hr Hp) as A. destruct (pool_alloc p) as [[n|e|] p1]; [| |done].
  - destruct A as (A1 & A2 & A3 & A4).
    destruct (IH (S idx) (acc ++ [n]) (with_sets (<[ idx := p1 ]> (cidrSets r)) r)) as (l2 & K & Res).
    { apply A4. }
    { simpl. rewrite length_insert. lia. }
    exists l2. split; [by eapply evolve_trans|]. destruct Res as [(ns & -> & L & R)|(k & w' & q & -> & H3 & H4 & H5 & H6)].
    + left. exists (n :: ns). rewrite <- (assoc_L (++)). split; [done|]. split; [simpl; lia|].
      by eapply reserved_cons.
    + right. exists (S k), w', q. rewrite <- Nat.add_succ_comm. split; [done|]. split; [done|]. split; [lia|done].
  - destruct A as [-> A]. exists (cidrSets r). split; [by apply evolve_refl|]. right. exists O.
    unfold put, on_snd. rewrite list_insert_id by done. rewrite !io_bind_eq. simpl.
    pose proof (eventf_spec (mkRef "Node" (node_Name node) (node_UID node)) "CIDRNotAvailable" w) as Ev.
    unfold RecordNodeStatusChange. destruct (Recorder_Eventf _ _ w) as [res w']. destruct Ev as [-> Ev].
    exists w', p. rewrite Nat.add_0_r. split; [done|]. split; [done|]. split; [lia|done].
Qed.

(** [AllocateOrOccupyCIDR] on a node: never a panic, every held block stays
    held, the server is not touched, and at most one item is queued, made of
    blocks that were free. *)
Definition assign_result (node : Node) (r : RA) (w : W) (o : outcome unit * (RA * W)) : Prop :=
  ∃ l' q' nip' w', o.2 = (mkRA (clusterCIDRs r) l' q' nip', w') ∧ o.1 ≠ Panic ∧
    keeps (cidrSets r) l' ∧ api_nodes w' = api_nodes w ∧
    (q' = nodeCIDRUpdateChannel r ∨
     ∃ ns, q' = nodeCIDRUpdateChannel r ++ [mkReserved ns (node_Name node)] ∧ o.1 = Ret tt ∧
       length ns = length (cidrSets r) ∧ reserved 0 ns (cidrSets r) l').

Lemma assign_run node r w : sets_ok (cidrSets r) → Forall plain_cidr (PodCIDRs (Spec node)) →
  assign_result node r w (AllocateOrOccupyCIDR (Some node) (r, w)).
Proof.
  intros Hr Hp. unfold AllocateOrOccupyCIDR. rewrite io_bind_eq. unfold insertNodeToProcessing.
  case_decide.
  { exists (cidrSets r), (nodeCIDRUpdateChannel r), (nodesInProcessing r), w. simpl.
    split; [by destruct r|]. split; [done|]. split; [by apply evolve_refl|]. split; [done|by left]. }
  cbv beta iota. cbn [negb]. set (r1 := mkRA _ _ _ _).
  destruct (Nat.ltb_spec 0 (length (PodCIDRs (Spec node)))).
  - unfold occupyCIDRs, defer. case_bool_decide as En; [by rewrite En in *; simpl in *; lia|].
    destruct (occupyLoop_run (λ _ _, False) (PodCIDRs (Spec node)) 0 r1 w Hr Hp) as (l' & E & V & N).
    destruct (occupyLoop 0 _ (r1, w)) as [res st]. simpl in *. subst st.
    eexists l', _, _, w. split; [done|]. split; [done|]. split; [done|]. split; [done|by left].
  - rewrite io_bind_eq. cbn [numSets].
    destruct (allocateLoop_run node (length (cidrSets r1)) 0 [] r1 w Hr (Nat.le_refl _)) as (l' & K & Res).
    rewrite io_bind_eq. exists l'. destruct Res as [(ns & -> & L & R)|(k & w' & q & -> & H3' & _)].
    + simpl. eexists _, _, w. split; [done|]. split; [done|]. split; [done|]. split; [done|].
      right. by exists ns.
    + simpl. eexists _, _, w'. split; [done|]. split; [done|]. split; [done|]. split; [done|by left].
Qed.

(** ** Update *)
Lemma applied_trans name l a b c : cidrs_applied name l a b → cidrs_applied name l b c → cidrs_applied name l a c.
Proof.
  intros (n & E1 & C1 & ->) (m & E2 & _ & ->). rewrite lookup_insert_eq in E2. injection E2 as <-.
  exists n. split; [done|]. split; [done|]. by rewrite insert_insert_eq.
Qed.

(** What the attempts did to the server. *)
Definition patched (name : string) (l : list string) (w w' : W) : Prop :=
  cidrs_applied name l (api_nodes w) (api_nodes w').

Lemma patch_once name c l w : let '(res, w') := PatchNodeCIDRs name (c :: l) w in
  (res = Ret tt ∧ patched name (c :: l) w w') ∨
  (res = Err (Errorf "failed to patch node CIDR: %v") ∧
   (patched name (c :: l) w w' ∨ api_nodes w' = api_nodes w)).
Proof.
  unfold PatchNodeCIDRs. rewrite io_bind_eq. unfold try. pose proof (patch_cidrs_spec name c l w) as S.
  destruct (Nodes_Patch name _ w) as [[[]|e|] w']; destruct S as [S1 S2]; [left|right|done].
  - split; [done|]. by destruct S2 as [|[[=] _]].
  - split; [done|]. destruct S2 as [|[_ ?]]; [by left|by right].
Qed.

Lemma patchLoop_run n err name c l (r : RA) w : ∃ res w', patchLoop n err name (c :: l) (r, w) = (Ret res, (r, w')) ∧
  match res with
  | inr _ => patched name (c :: l) w w'
  | inl e => (n = O ∨ e = Errorf "failed to patch node CIDR: %v") ∧
             (patched name (c :: l) w w' ∨ api_nodes w' = api_nodes w)
  end.
Proof.
  revert err w. induction n as [|n IH]; intros err w; cbn [patchLoop].
  { exists (inl err), w. split; [done|]. split; [by left|by right]. }
  rewrite io_bind_eq. unfold try, on_snd. cbn [snd fst]. pose proof (patch_once name c l w) as S.
  destruct (PatchNodeCIDRs name (c :: l) w) as [res w1].
  destruct S as [[-> S]|[-> S]]; [by exists (inr tt), w1|].
  destruct (IH (Errorf "failed to patch node CIDR: %v") w1) as (res & w2 & E & R).
  exists res, w2. split; [done|]. destruct res as [e|[]].
  - destruct R as [R1 R2]. split.
    + right. destruct R1 as [->|?]; [|done]. cbn [patchLoop] in E. by injection E.
    + destruct S as [S|S], R2 as [R2|R2].
      * left. by eapply applied_trans.
      * left. unfold patched. by rewrite R2.
      * left. unfold patched in *. by rewrite <- S.
      * right. congruence.
  - destruct S as [S|S]; [by eapply applied_trans|]. unfold patched in *. by rewrite <- S.
Qed.

(** The blocks of an item, by set. *)
Definition item_blocks (cidrs : list IPNet) (i : nat) (n : IPNet) : Prop :=
  ∃ c, cidrs !! i = Some c ∧ meets n c.

Inductive update_case (data : nodeReservedCIDRs) (r : RA) (w : W) : outcome unit → list P → W → Prop :=
| upd_lister e w' : (NodeLister_Get (r_nodeName data) w).1 = Err e → api_nodes w' = api_nodes w →
    update_case data r w (Err e) (cidrSets r) w'
| upd_match node w' : (NodeLister_Get (r_nodeName data) w).1 = Ret node →
    PodCIDRs (Spec node) = cidrsAsString (r_allocatedCIDRs data) → api_nodes w' = api_nodes w →
    update_case data r w (Ret tt) (cidrSets r) w'
| upd_other node l' w' : (NodeLister_Get (r_nodeName data) w).1 = Ret node →
    PodCIDRs (Spec node) ≠ [] → PodCIDRs (Spec node) ≠ cidrsAsString (r_allocatedCIDRs data) →
    api_nodes w' = api_nodes w → evolve (item_blocks (r_allocatedCIDRs data)) (cidrSets r) l' →
    update_case data r w (Ret tt) l' w'
| upd_patched node w' : (NodeLister_Get (r_nodeName data) w).1 = Ret node → PodCIDRs (Spec node) = [] →
    patched (r_nodeName data) (cidrsAsString (r_allocatedCIDRs data)) w w' →
    update_case data r w (Ret tt) (cidrSets r) w'
| upd_failed node l' w' : (NodeLister_Get (r_nodeName data) w).1 = Ret node → PodCIDRs (Spec node) = [] →
    evolve (item_blocks (r_allocatedCIDRs data)) (cidrSets r) l' →
    patched (r_nodeName data) (cidrsAsString (r_allocatedCIDRs data)) w w' ∨ api_nodes w' = api_nodes w →
    update_case data r w (Err (Errorf "failed to patch node CIDR: %v")) l' w'.

Definition item_wf (r : RA) (data : nodeReservedCIDRs) : Prop :=
  r_allocatedCIDRs data ≠ [] ∧ length (r_allocatedCIDRs data) = length (cidrSets r) ∧
  Forall cidr_wf (r_allocatedCIDRs data).

Lemma release_item (r : RA) (w : W) data : sets_ok (cidrSets r) → item_wf r data → ∃ l',
  releaseReserved 0 (r_allocatedCIDRs data) (r, w) = (Ret tt, (with_sets l' r, w)) ∧
  evolve (item_blocks (r_allocatedCIDRs data)) (cidrSets r) l'.
Proof.
  intros Hr (_ & Hl & Hw).
  destruct (releaseReserved_run (item_blocks (r_allocatedCIDRs data)) (r_allocatedCIDRs data) 0 r w Hr Hw)
    as (l' & E & V & N); [lia|intros k c n Hk Hn; by exists c|].
  exists l'. split; [|done].
  assert (∀ cs idx st, (releaseReserved (W := W) (P := P) idx cs st).1 = Panic ∨ (releaseReserved (W := W) (P := P) idx cs st).1 = Ret tt) as R.
  { intros cs. induction cs as [|c cs IH]; intros idx st; [by right|]. cbn [releaseReserved]. rewrite io_bind_eq.
    unfold try. destruct (withSet idx _ st) as [[]]; [apply IH..|by left]. }
  specialize (R (r_allocatedCIDRs data) 0%nat (r, w)).
  destruct (releaseReserved 0 _ (r, w)) as [o st]; simpl in *. subst. by destruct R as [| ->].
Qed.

Lemma update_run data r w : sets_ok (cidrSets r) → item_wf r data → ∃ res l' w',
  updateCIDRsAllocation data (r, w) = (res, (removeNodeFromProcessing (r_nodeName data) (with_sets l' r), w')) ∧
  update_case data r w res l' w'.
Proof.
  intros Hr Hd. pose proof (release_item r) as Rel. unfold updateCIDRsAllocation, defer.
  rewrite io_bind_eq. unfold on_snd at 1. cbn [snd fst].
  pose proof (lister_get_spec (r_nodeName data) w) as G.
  destruct (NodeLister_Get (r_nodeName data) w) as [[node|e|] w1] eqn:EG; destruct G as (G1 & G2 & G3); [| |done].
  2: { exists (Err e), (cidrSets r), w1. split; [by destruct r|]. constructor; [by rewrite EG|done]. }
  rewrite bool_decide_decide. case_decide as Em; cbv beta iota.
  { exists (Ret tt), (cidrSets r), w1. split; [by destruct r|].
    eapply (upd_match _ _ _ node); [by rewrite EG|apply Em|done]. }
  case_bool_decide as En.
  { destruct (Rel w1 data Hr Hd) as (l' & E & V). change (fst (r, w)) with r.
    exists (Ret tt), l', w1. rewrite E. split; [done|].
    eapply (upd_other _ _ _ node); [by rewrite EG|done| |done|done].
    intros E'. apply Em. split; [|done]. rewrite E'. unfold cidrsAsString. by rewrite length_fmap. }
  rewrite (G3 node eq_refl). rewrite io_bind_eq. pose proof Hd as (Hne & _).
  destruct (r_allocatedCIDRs data) as [|c l] eqn:Ea; [done|].
  destruct (patchLoop_run cidrUpdateRetries (Errorf "") (r_nodeName data) (IPNet_String c) (cidrsAsString l) r w1)
    as (res & w2 & E & R). simpl fst. change (cidrsAsString (c :: l)) with (IPNet_String c :: cidrsAsString l).
  rewrite E. destruct res as [e|[]].
  - destruct R as [[| ->] R]; [done|]. cbv beta iota. rewrite io_bind_eq. unfold on_snd, RecordNodeStatusChange. cbn [snd fst].
    pose proof (eventf_spec (mkRef "Node" (node_Name node) (node_UID node)) "CIDRAssignmentFailed" w2) as Ev.
    destruct (Recorder_Eventf _ _ w2) as [re w3]. destruct Ev as [-> Ev]. cbv beta iota.
    rewrite io_bind_eq. destruct (Rel w3 data Hr Hd) as (l' & E' & V). rewrite Ea in E'. change (negb (IsServerTimeout (Errorf "failed to patch node CIDR: %v"))) with true. cbv iota. rewrite E'.
    eexists _, l', w3. split; [done|]. apply (upd_failed _ _ _ node); [by rewrite EG|done|by rewrite Ea in *|]. rewrite Ea. unfold patched in *. rewrite Ev, <- G2. done.
  - exists (Ret tt), (cidrSets r), w2. split; [by destruct r|]. apply (upd_patched _ _ _ node); [by rewrite EG|done|]. unfold patched in *.
    rewrite Ea, <- G2. done.
Qed.

(** ** Start-up *)

(** Every block of set [i] that meets [c] is held. *)
Definition reserved_for (l : list P) (i : nat) (c : IPNet) : Prop :=
  ∃ p, l !! i = Some p ∧ ∀ n, pool_block p n → meets n c → pool_held p n.

Lemma reserved_for_keeps l l' i c : keeps l l' → reserved_for l i c → reserved_for l' i c.
Proof.
  intros K (p & Hp & Hh). pose proof (proj2 K i) as E. rewrite Hp in E.
  destruct (l' !! i) as [p'|] eqn:Ep'; [|done]. destruct E as [EB EH]. exists p'. split; [done|].
  intros n Hn Hm. apply EH; [|tauto]. apply Hh; [by apply EB|done].
Qed.

(** A successful call of [Occupy] at [idx], or one that was refused. *)
Lemma occupy_reserves (r r' : RA) (w w' : W) idx c o : sets_ok (cidrSets r) → (idx < length (cidrSets r))%nat → cidr_wf c →
  withSet idx (λ p, pool_occupy p (Some c)) (r, w) = (o, (r', w')) →
  keeps (cidrSets r) (cidrSets r') ∧ reserved_for (cidrSets r') idx c ∧ r' = with_sets (cidrSets r') r ∧ w' = w ∧ o ≠ Panic.
Proof.
  intros Hr Hlt Hc E. pose proof (occupy_run (λ _ _, False) r w idx c Hr Hlt Hc) as R. rewrite E in R.
  destruct R as (l' & E' & V & N). simpl in E'. injection E' as -> ->. simpl.
  split; [done|]. split; [|done]. apply lookup_lt_is_Some in Hlt as [p Hp].
  assert (Hok : pool_ok p) by by eapply Forall_lookup_1. unfold withSet in E. rewrite Hp in E.
  pose proof (pool_occupy_spec p c Hok Hc) as S. destruct (pool_occupy p (Some c)) as [oo p'].
  injection E as <- El. assert (Hp' : l' !! idx = Some p').
  { rewrite <- El. apply list_lookup_insert_eq. by apply lookup_lt_Some in Hp. }
  exists p'. split; [done|]. intros n Hn Hm. destruct oo as [u|e|]; [|by destruct S as [-> S]; destruct (S n Hn)|done].
  destruct S as (_ & S1 & S2). apply S2; [by apply S1|by right].
Qed.

Definition texts_reserved (l : list P) (idx : nat) (cidrs : list string) : Prop :=
  ∀ k x, cidrs !! k = Some x → ∃ c, ParseCIDR x = Ret c ∧ reserved_for l (idx + k)%nat c.

Lemma texts_keeps l l' idx cidrs : keeps l l' → texts_reserved l idx cidrs → texts_reserved l' idx cidrs.
Proof.
  intros K T k x Hk. destruct (T k x Hk) as (c & E & R). exists c. split; [done|]. by eapply reserved_for_keeps.
Qed.

Lemma occupyLoop_ok cidrs idx (r : RA) (w : W) r' w' : sets_ok (cidrSets r) → Forall plain_cidr cidrs →
  occupyLoop idx cidrs (r, w) = (Ret tt, (r', w')) → texts_reserved (cidrSets r') idx cidrs.
Proof.
  intros Hr Hp. revert idx r Hr. induction Hp as [|x cidrs Hx Hp IH]; intros idx r Hr E k y Hk; [done|].
  cbn [occupyLoop] in E. rewrite io_bind_eq in E. unfold try, lift in E.
  destruct (ParseCIDR x) as [c|e|] eqn:Ec; [|done|done]. rewrite io_bind_eq in E. cbn [numSets] in E.
  destruct (Nat.leb_spec (length (cidrSets r)) idx); [done|]. rewrite io_bind_eq in E.
  destruct (withSet idx _ (r, w)) as [o [r1 w1]] eqn:Eo.
  destruct (occupy_reserves _ _ _ _ idx c o Hr ltac:(done) (Hx c Ec) Eo) as (K & R & _ & -> & N).
  destruct o as [[]|e|]; [|done|done]. pose proof (IH (S idx) r1 (proj1 K) E) as T.
  destruct k as [|k]; simpl in Hk.
  - injection Hk as <-. exists c. split; [done|]. rewrite Nat.add_0_r.
    destruct (occupyLoop_run (λ _ _, False) cidrs (S idx) r1 w (proj1 K) Hp) as (l2 & E2 & V & _).
    rewrite E in E2. simpl in E2. injection E2 as -> _. by eapply reserved_for_keeps.
  - rewrite <- Nat.add_succ_comm. by apply T.
Qed.

Lemma occupyNodes_ok nodes (r : RA) (w : W) r' w' : sets_ok (cidrSets r) →
  Forall (λ n, Forall plain_cidr (PodCIDRs (Spec n))) nodes →
  occupyNodes nodes (r, w) = (Ret tt, (r', w')) →
  keeps (cidrSets r) (cidrSets r') ∧ Forall (λ n, texts_reserved (cidrSets r') 0 (PodCIDRs (Spec n))) nodes.
Proof.
  intros Hr Hp. revert r w Hr. induction Hp as [|n nodes Hn Hp IH]; intros r w Hr E.
  { injection E as <- <-. split; [by apply evolve_refl|constructor]. }
  cbn [occupyNodes] in E. case_bool_decide as En.
  { destruct (IH r w Hr E) as [K F]. split; [done|]. constructor; [|done]. rewrite En. by intros k x Hk. }
  rewrite io_bind_eq in E. unfold occupyCIDRs, defer in E. rewrite bool_decide_eq_false_2 in E by done.
  destruct (occupyLoop_run (λ _ _, False) (PodCIDRs (Spec n)) 0 r w Hr Hn) as (l1 & E1 & V & _).
  pose proof (occupyLoop_ok (PodCIDRs (Spec n)) 0 r w) as T.
  destruct (occupyLoop 0 _ (r, w)) as [[[]|e|] st]; simpl in E1; subst st; [|done|done].
  specialize (T _ _ Hr Hn eq_refl). simpl in E, T.
  apply IH in E as [K F]; [|apply V]. split; [by eapply evolve_trans|].
  constructor; [|done]. by eapply texts_keeps.
Qed.

(** The service range, given that a skipped set has no block in it. *)
Lemma filterLoop_ok svc cidrs idx (r : RA) (w : W) r' w' : sets_ok (cidrSets r) → cidr_wf svc →
  (idx + length cidrs <= length (cidrSets r))%nat →
  (∀ k cidr p n, cidrs !! k = Some cidr → cidrSets r !! (idx + k)%nat = Some p → pool_block p n → meets n svc →
     IPNet_Contains cidr (IP_Mask (net_IP svc) (net_Mask cidr)) = true ∨
     IPNet_Contains svc (IP_Mask (net_IP cidr) (net_Mask svc)) = true) →
  filterLoop svc idx cidrs (r, w) = (Ret tt, (r', w')) →
  keeps (cidrSets r) (cidrSets r') ∧
  ∀ k, (k < length cidrs)%nat → reserved_for (cidrSets r') (idx + k) svc.
Proof.
  intros Hr Hsvc. revert idx r w Hr. induction cidrs as [|cidr cidrs IH]; intros idx r w Hr Hlen Hskip E.
  { injection E as <- <-. split; [by apply evolve_refl|]. simpl. lia. }
  simpl in Hlen. cbn [filterLoop] in E.
  destruct (lookup_lt_is_Some_2 (cidrSets r) idx) as [p Hp]; [lia|].
  assert (Hnext : ∀ r1 : RA, keeps (cidrSets r) (cidrSets r1) → reserved_for (cidrSets r1) idx svc →
    filterLoop svc (S idx) cidrs (r1, w) = (Ret tt, (r', w')) →
    keeps (cidrSets r) (cidrSets r') ∧ ∀ k, (k < length (cidr :: cidrs))%nat → reserved_for (cidrSets r') (idx + k) svc).
  { intros r1 K R E1. apply IH in E1 as [K1 F]; [|apply K|rewrite (evolve_length _ _ _ K); lia|].
    - split; [by eapply evolve_trans|]. intros [|k] Hk.
      + rewrite Nat.add_0_r. by eapply reserved_for_keeps.
      + rewrite <- Nat.add_succ_comm. apply F. simpl in Hk. lia.
    - intros k cidr' p1 n Hk Hp1 Hn Hm. pose proof (proj2 K (S idx + k)%nat) as Ek. rewrite Hp1 in Ek.
      destruct (cidrSets r !! (S idx + k)%nat) as [p0|] eqn:Ep0; [|done].
      apply (Hskip (S k) cidr' p0 n); [done|by rewrite <- Nat.add_succ_comm|by apply Ek|done]. }
  destruct (negb _ && negb _) eqn:Et.
  - apply Hnext in E; [done|by apply evolve_refl|]. exists p. split; [done|]. intros n Hn Hm.
    apply andb_true_iff in Et as [T1%negb_true_iff T2%negb_true_iff].
    destruct (Hskip O cidr p n) as [Hx|Hx]; [done|by rewrite Nat.add_0_r|done|done|congruence|congruence].
  - rewrite io_bind_eq in E. unfold try in E. destruct (withSet idx _ (r, w)) as [o [r1 w1]] eqn:Eo.
    destruct (occupy_reserves _ _ _ _ idx svc o Hr ltac:(lia) Hsvc Eo) as (K & R & _ & -> & N).
    destruct o as [u|e|]; [by apply Hnext in E|by apply Hnext in E|done].
Qed.

Lemma filterLoop_clusters svc cidrs idx (r : RA) (w : W) r' w' :
  filterLoop svc idx cidrs (r, w) = (Ret tt, (r', w')) → clusterCIDRs r' = clusterCIDRs r.
Proof.
  revert idx r. induction cidrs as [|x l IH]; intros j r E; cbn [filterLoop] in E; [by injection E as <- _|].
  case_match; [by apply IH in E|]. rewrite io_bind_eq in E. unfold try, withSet in E.
  destruct (cidrSets r !! j); [|done]. destruct (pool_occupy _ _) as [[] ?]; [by apply IH in E..|done].
Qed.
End facts.
