(* ===== verification/RangeSystem.v ===== *)
(** * RangeSystem: the range allocator in a cluster

    The allocator together with the API server, as a step relation: nodes come
    and go, informer events carry snapshots of any age, workers process the
    queue in any order of interleaving with the events.  [sys_inv] is the
    ownership invariant: each queued item, each node of the server and each
    deleted node whose event is still to come owns the CIDRs it names, every
    owned CIDR is held in its set, and no CIDR has two owners.

    A worker step is in the relation when its update returned nil or when the
    lister did not know the node; a run of [updateCIDRsAllocation] whose three
    patch attempts all failed is not, see [RangeProps].  [FakeCluster] is an API
    server in memory. *)
From S2P Require Import Prelude Bits GoNet GoNetText CidrSet CidrSetIndex CidrSetOps CidrPool K8s RangeAllocator RangeAllocatorFacts.
Local Open Scope Z_scope.

Section system.
Context {P : Type} `{CidrPoolSpec P} {W : Type} `{KubeClientSpec W}.

Abbreviation RA := (rangeAllocator P).

(** [sys_gone]: the pod CIDRs of deleted nodes whose delete event is pending. *)
Record sys : Type := mkSys { sys_ra : RA; sys_w : W; sys_gone : list (list string) }.

Definition pod_cidrs (w : W) : gmap string (list string) := (λ n, PodCIDRs (Spec n)) <$> api_nodes w.

Inductive step : sys → sys → Prop :=
| step_create r w w' g name n : api_nodes w !! name = None → PodCIDRs (Spec n) = [] →
    api_nodes w' = <[ name := n ]> (api_nodes w) →
    step (mkSys r w g) (mkSys r w' g)
| step_env r w w' g : pod_cidrs w' = pod_cidrs w →
    step (mkSys r w g) (mkSys r w' g)
| step_add r w g n o r' w' : Forall plain_cidr (PodCIDRs (Spec n)) →
    addNode (ObjNode n) (r, w) = (o, (r', w')) →
    step (mkSys r w g) (mkSys r' w' g)
| step_update r w g n n' o r' w' : Forall plain_cidr (PodCIDRs (Spec n')) →
    updateNode (ObjNode n) (ObjNode n') (r, w) = (o, (r', w')) →
    step (mkSys r w g) (mkSys r' w' g)
| step_delete r w w' g name n : api_nodes w !! name = Some n →
    api_nodes w' = delete name (api_nodes w) →
    step (mkSys r w g) (mkSys r w' (PodCIDRs (Spec n) :: g))
| step_delete_event r w g c g' obj n o r' w' : g ≡ₚ c :: g' →
    PodCIDRs (Spec n) = c ∨ PodCIDRs (Spec n) = [] →
    obj = ObjNode n ∨ obj = ObjTombstone (ObjNode n) →
    deleteNode obj (r, w) = (o, (r', w')) →
    step (mkSys r w g) (mkSys r' w' g')
| step_worker r w g item q r' w' : nodeCIDRUpdateChannel r = item :: q →
    (∃ st, updateCIDRsAllocation item (mkRA (clusterCIDRs r) (cidrSets r) q (nodesInProcessing r), w) = (Ret tt, st)) ∨
    (∃ e, (NodeLister_Get (r_nodeName item) w).1 = Err e) →
    worker (r, w) = (Ret tt, (r', w')) →
    step (mkSys r w g) (mkSys r' w' g).

(** ** Ownership *)
Definition owners (q : list nodeReservedCIDRs) (g : list (list string)) (api : gmap string (list string)) : list (list string) :=
  ((λ it, cidrsAsString (r_allocatedCIDRs it)) <$> q) ++ g ++ (map_to_list api).*2.

(** The texts owned at set [i]. *)
Definition col (i : nat) (o : list (list string)) : list string := omap (λ l, l !! i) o.

Definition held_at (l : list P) (i : nat) (x : string) : Prop :=
  ∃ p n, l !! i = Some p ∧ pool_held p n ∧ x = IPNet_String n.

Definition owned_ok (l : list P) (o : list (list string)) : Prop :=
  ∀ i, NoDup (col i o) ∧ ∀ x, x ∈ col i o → held_at l i x.

Record sys_inv (s : sys) : Prop := {
  si_sets : sets_ok (cidrSets (sys_ra s));
  si_some : cidrSets (sys_ra s) ≠ [];
  si_items : ∀ it, it ∈ nodeCIDRUpdateChannel (sys_ra s) → item_wf (sys_ra s) it;
  si_owned : owned_ok (cidrSets (sys_ra s))
    (owners (nodeCIDRUpdateChannel (sys_ra s)) (sys_gone s) (pod_cidrs (sys_w s)))
}.

(** ** Columns *)
#[global] Instance col_perm i : Proper ((≡ₚ) ==> (≡ₚ)) (col i).
Proof. intros o o' E. unfold col. by rewrite E. Qed.

Lemma col_app i o o' : col i (o ++ o') = col i o ++ col i o'.
Proof. apply omap_app. Qed.
Lemma col_nil i o : col i ([] :: o) = col i o.
Proof. done. Qed.

Lemma owned_perm l o o' : o ≡ₚ o' → owned_ok l o → owned_ok l o'.
Proof.
  intros E Ho i. destruct (Ho i) as [H1' H2']. split; [by rewrite <- E|]. intros x Hx. apply H2'. by rewrite E.
Qed.

(** An owner may drop out. *)
Lemma owned_drop l c o : owned_ok l (c :: o) → owned_ok l o.
Proof.
  intros Ho i. destruct (Ho i) as [H1' H2']. unfold col in *. simpl in *.
  destruct (c !! i); [|done]. apply NoDup_cons in H1' as [_ H1']. split; [done|].
  intros x Hx. apply H2'. by right.
Qed.

(** The texts of two held blocks differ when the blocks do. *)
Lemma held_text p n m : pool_ok p → pool_held p n → pool_block p m → IPNet_String n = IPNet_String m → n = m.
Proof.
  intros Hp Hn Hm E. pose proof (block_text p m Hp Hm) as T.
  rewrite <- E, (block_text p n Hp (pool_held_block p n Hn)) in T. by injection T.
Qed.

(** Sets that only gained blocks still hold what is owned. *)
Lemma owned_keeps l l' o : keeps l l' → owned_ok l o → owned_ok l' o.
Proof.
  intros K Ho i. destruct (Ho i) as [H1' H2']. split; [done|]. intros x Hx.
  destruct (H2' x Hx) as (p & n & Hp & Hn & ->).
  destruct (held_keeps l l' i p n K Hp Hn) as (p' & Hp' & Hn'). by exists p', n.
Qed.

(** A new owner of blocks that were free. *)
Lemma owned_add l l' ns o : sets_ok l → keeps l l' → reserved 0 ns l l' → owned_ok l o →
  owned_ok l' (cidrsAsString ns :: o).
Proof.
  intros Hl K R Ho i. destruct (owned_keeps l l' o K Ho i) as [H1' H2']. unfold col. simpl.
  unfold cidrsAsString. rewrite list_lookup_fmap. destruct (ns !! i) as [n|] eqn:E; simpl; [|done].
  destruct (R i n E) as (p & p' & Hp & Hp' & Hb & Hf & Hh). split.
  - constructor; [|done]. intros Hin. destruct (Ho i) as [_ H3']. destruct (H3' _ Hin) as (q & m & Hq & Hm & Ex).
    simpl in Hp. rewrite Hp in Hq. injection Hq as <-. apply Hf.
    rewrite <- (held_text p m n); [done|by eapply Forall_lookup_1|done..].
  - intros x [->|Hx]%elem_of_cons; [by exists p', n|by apply H2'].
Qed.

(** An owner whose blocks are given back. *)
Lemma owned_release D l l' c o : sets_ok l → evolve D l l' →
  (∀ i n, D i n → ∃ x m, c !! i = Some x ∧ ParseCIDR x = Ret m ∧ meets n m) →
  owned_ok l (c :: o) → owned_ok l' o.
Proof.
  intros Hl [_ V] HD Ho i. pose proof (owned_drop _ _ _ Ho i) as [H1' H2']. split; [done|].
  intros x Hx. destruct (H2' x Hx) as (p & n & Hp & Hn & ->). specialize (V i). rewrite Hp in V.
  destruct (l' !! i) as [p'|] eqn:Ep'; [|done]. destruct V as [_ V].
  assert (Hok : pool_ok p) by by eapply Forall_lookup_1.
  exists p', n. split; [done|]. split; [|done]. apply V; [done|]. intros Hd.
  destruct (HD i n Hd) as (y & m & Hy & Hm & Hmt).
  destruct (Ho i) as [Hnd Hh]. unfold col in Hnd, Hh. simpl in Hnd, Hh. rewrite Hy in Hnd, Hh.
  destruct (Hh y ltac:(by left)) as (q & k & Hq & Hk & ->). rewrite Hp in Hq. injection Hq as <-.
  rewrite (block_text p k Hok (pool_held_block p k Hk)) in Hm. injection Hm as <-.
  assert (n = k) as -> by (eapply pool_block_disjoint; eauto using pool_held_block).
  apply NoDup_cons in Hnd as [Hnd _]. done.
Qed.

(** ** Owners *)
Lemma owners_insert q g api name c l : api !! name = Some c →
  ∃ O, owners q g api ≡ₚ c :: O ∧ owners q g (<[ name := l ]> api) ≡ₚ l :: O ∧
       owners q (c :: g) (delete name api) ≡ₚ c :: O.
Proof.
  intros E. exists (owners q g (delete name api)). unfold owners. split; [|split].
  - rewrite <- (insert_delete_id api name c E) at 1.
    rewrite map_to_list_insert, fmap_cons by apply lookup_delete_eq. simpl. by rewrite !(assoc_L (++)), <- Permutation_middle.
  - rewrite <- (insert_delete_eq api).
    rewrite map_to_list_insert, fmap_cons by apply lookup_delete_eq. simpl. by rewrite !(assoc_L (++)), <- Permutation_middle.
  - simpl. by rewrite <- Permutation_middle.
Qed.

Lemma owners_create q g api name : api !! name = None →
  owners q g (<[ name := [] ]> api) ≡ₚ [] :: owners q g api.
Proof.
  intros E. unfold owners. rewrite map_to_list_insert, fmap_cons by done. simpl.
  by rewrite !(assoc_L (++)), <- Permutation_middle.
Qed.

Lemma owners_send q it g api : owners (q ++ [it]) g api ≡ₚ cidrsAsString (r_allocatedCIDRs it) :: owners q g api.
Proof. unfold owners. rewrite fmap_app. simpl. rewrite <- (assoc_L (++)). simpl. by rewrite <- Permutation_middle. Qed.

Lemma item_wf_length (r r' : RA) it : length (cidrSets r') = length (cidrSets r) → item_wf r it → item_wf r' it.
Proof. intros E (H1' & H2' & H3'). split; [done|]. by rewrite E. Qed.

Lemma some_length (l l' : list P) : length l' = length l → l ≠ [] → l' ≠ [].
Proof. destruct l, l'; naive_solver. Qed.

Lemma pod_cidrs_same w w' : api_nodes w' = api_nodes w → pod_cidrs w' = pod_cidrs w.
Proof. unfold pod_cidrs. by intros ->. Qed.

(** ** Each step keeps the invariant *)
Lemma inv_assign r w g n o r' w' : sys_inv (mkSys r w g) → Forall plain_cidr (PodCIDRs (Spec n)) →
  AllocateOrOccupyCIDR (Some n) (r, w) = (o, (r', w')) → sys_inv (mkSys r' w' g).
Proof.
  intros [I1 I2 I3 I4] Hn E. simpl in I1, I2, I3, I4.
  pose proof (assign_run n r w I1 Hn) as R. rewrite E in R.
  destruct R as (l' & q' & nip & w1 & E1 & N & K & A & Q). simpl in *.
  injection E1 as -> ->. pose proof (evolve_length _ _ _ K) as Hlen.
  assert (I3' : ∀ it, it ∈ nodeCIDRUpdateChannel r → item_wf (mkRA (clusterCIDRs r) l' q' nip) it).
  { intros it Hit. eapply item_wf_length; [|by apply I3]. done. }
  split; simpl; [apply K|by eapply some_length| |]; rewrite ?(pod_cidrs_same _ _ A).
  - destruct Q as [->|(ns & -> & _ & L & R)]; [done|]. intros it [Hit| ->%list_elem_of_singleton]%elem_of_app; [by apply I3'|].
    split; simpl; [intros ->; by destruct (cidrSets r)|]. split; [by rewrite L, Hlen|].
    apply Forall_lookup. intros k m Hm. destruct (R k m Hm) as (p & p' & Hp & _ & Hb & _).
    eapply pool_block_wf; [|done]. by eapply Forall_lookup_1.
  - destruct Q as [->|(ns & -> & _ & L & R)]; [by eapply owned_keeps|].
    eapply owned_perm; [symmetry; apply owners_send|]. simpl. by eapply owned_add.
Qed.

Lemma inv_delete_event r w g c g' n o r' w' : sys_inv (mkSys r w g) → g ≡ₚ c :: g' →
  PodCIDRs (Spec n) = c ∨ PodCIDRs (Spec n) = [] →
  ReleaseCIDR (Some n) (r, w) = (o, (r', w')) → sys_inv (mkSys r' w' g').
Proof.
  intros [I1 I2 I3 I4] Hg Hc E. simpl in I1, I2, I3, I4.
  assert (I4' : owned_ok (cidrSets r) (c :: owners (nodeCIDRUpdateChannel r) g' (pod_cidrs w))).
  { eapply owned_perm; [|exact I4]. unfold owners. rewrite Hg. simpl. by rewrite <- Permutation_middle. }
  unfold ReleaseCIDR in E. case_bool_decide as En.
  { injection E as <- <- <-. split; simpl; [done..|]. by eapply owned_drop. }
  destruct Hc as [Hc|]; [|done].
  assert (Hp : Forall plain_cidr c).
  { apply Forall_lookup. intros i x Hx m Hm. destruct (I4' i) as [_ Hh]. unfold col in Hh. simpl in Hh.
    rewrite Hx in Hh. destruct (Hh x ltac:(by left)) as (p & k & Hpi & Hk & ->).
    assert (pool_ok p) by by eapply Forall_lookup_1.
    rewrite (block_text p k) in Hm by eauto using pool_held_block. injection Hm as <-.
    eauto using pool_block_wf, pool_held_block. }
  rewrite Hc in E. pose proof (releaseLoop_run (named_by 0 c) c 0 r w I1 Hp ltac:(done)) as R.
  rewrite E in R. destruct R as (l' & E1 & V & N). simpl in *. injection E1 as -> ->. pose proof (evolve_length _ _ _ V) as Hlen.
  split; simpl; [apply V|by eapply some_length|intros it Hit; eapply item_wf_length; [|by apply I3]; done|].
  eapply owned_release; [done..| |done]. intros i m (k & x & y & -> & Hk & Hy & Hm). by exists x, y.
Qed.

Lemma applied_pods name l w w' : cidrs_applied name l (api_nodes w) (api_nodes w') →
  ∃ c, pod_cidrs w !! name = Some c ∧ (c = [] ∨ c = l) ∧ pod_cidrs w' = <[ name := l ]> (pod_cidrs w).
Proof.
  intros (n & En & Ec & Ea). exists (PodCIDRs (Spec n)). unfold pod_cidrs.
  rewrite lookup_fmap, En, Ea, fmap_insert. done.
Qed.

(** The CIDRs of an item pass to its node. *)
Lemma owned_transfer l q g api name c cs : api !! name = Some c → c = [] ∨ c = cs →
  owned_ok l (cs :: owners q g api) → owned_ok l (owners q g (<[ name := cs ]> api)).
Proof.
  intros En Hc Ho. destruct (owners_insert q g api name c cs En) as (O & E1 & E2 & _).
  eapply owned_perm; [symmetry; exact E2|].
  eapply owned_perm in Ho; [|rewrite E1; reflexivity]. destruct Hc as [->| ->].
  - intros i. apply (Ho i).
  - by eapply owned_drop.
Qed.

(** The allocator after a received item has been processed. *)
Lemma inv_after r w g it q nip l' w' : sys_inv (mkSys r w g) → nodeCIDRUpdateChannel r = it :: q →
  sets_ok l' → length l' = length (cidrSets r) →
  owned_ok l' (owners q g (pod_cidrs w')) → sys_inv (mkSys (mkRA (clusterCIDRs r) l' q nip) w' g).
Proof.
  intros [I1 I2 I3 I4] Eq Hl Hlen Ho. split; simpl in *; [done|by eapply some_length| |done].
  intros it' Hit. eapply item_wf_length; [|apply I3; rewrite Eq; by right]. done.
Qed.

Lemma inv_worker r w g it q r' w' : sys_inv (mkSys r w g) → nodeCIDRUpdateChannel r = it :: q →
  (∃ st, updateCIDRsAllocation it (mkRA (clusterCIDRs r) (cidrSets r) q (nodesInProcessing r), w) = (Ret tt, st)) ∨
  (∃ e, (NodeLister_Get (r_nodeName it) w).1 = Err e) →
  worker (r, w) = (Ret tt, (r', w')) → sys_inv (mkSys r' w' g).
Proof.
  intros I Eq Hclean Ew. pose proof I as [I1 I2 I3 I4]. simpl in I1, I2, I3, I4.
  set (r1 := mkRA (clusterCIDRs r) (cidrSets r) q (nodesInProcessing r)) in *.
  assert (Hit : item_wf r1 it) by (apply (item_wf_length r); [done|]; apply I3; rewrite Eq; by left).
  assert (Ho : owned_ok (cidrSets r) (cidrsAsString (r_allocatedCIDRs it) :: owners q g (pod_cidrs w)))
    by (rewrite Eq in I4; exact I4).
  destruct (update_run it r1 w I1 Hit) as (res & l' & w1 & E & C).
  unfold worker in Ew. rewrite io_bind_eq in Ew. cbn [recv] in Ew. rewrite Eq in Ew. fold r1 in Ew.
  cbv iota beta in Ew. unfold workerItem in Ew. rewrite io_bind_eq in Ew. unfold try in Ew. rewrite E in Ew.
  destruct C as [e w1 G A|node w1 G M A|node l' w1 G M1 M2 A V|node w1 G _ A|node l' w1 G _ V A].
  - injection Ew as <- <-.
    destruct (inv_after r w g it q (nodesInProcessing r ∖ {[r_nodeName it]}) (cidrSets r) w1 I Eq I1 eq_refl)
      as [J1 J2 J3 J4]; [rewrite (pod_cidrs_same _ _ A); by eapply owned_drop|]. simpl in *. split; simpl; [done..| |].
    + intros it' [Hin| ->%list_elem_of_singleton]%elem_of_app; [by apply J3|done].
    + eapply owned_perm; [symmetry; apply owners_send|]. by rewrite (pod_cidrs_same _ _ A).
  - injection Ew as <- <-. apply (inv_after r w g it); [done..|]. rewrite (pod_cidrs_same _ _ A). by eapply owned_drop.
  - injection Ew as <- <-. apply (inv_after r w g it); [done|done|apply V|by eapply evolve_length|].
    rewrite (pod_cidrs_same _ _ A). eapply owned_release; [done..| |done].
    intros i n (c & Hc & Hm). exists (IPNet_String c), c. unfold cidrsAsString. rewrite list_lookup_fmap, Hc.
    split; [done|]. split; [|done]. destruct Hit as (_ & _ & Hw).
    destruct (Forall_lookup_1 _ _ _ _ Hw Hc) as (w0 & k & Hwf). by eapply ParseCIDR_String.
  - injection Ew as <- <-. apply (inv_after r w g it); [done..|].
    destruct (applied_pods _ _ _ _ A) as (c & Ec & Hc & ->). by eapply owned_transfer.
  - exfalso. destruct Hclean as [(st & E')|(e & G')]; [by rewrite E in E'|congruence].
Qed.

Lemma inv_step s s' : sys_inv s → step s s' → sys_inv s'.
Proof.
  intros I Hst. revert I. destruct Hst as [r w w' g name n Hn Hp E|r w w' g E|r w g n o r' w' Hp E|r w g n n' o r' w' Hp E|r w w' g name n Hn E
    |r w g c g' obj n o r' w' Hg Hc Hobj E|r w g it q r' w' Eq Hcl E]; intros I; pose proof I as [I1 I2 I3 I4]; simpl in I1, I2, I3, I4.
  - split; simpl; [done..|]. unfold pod_cidrs. rewrite E, fmap_insert, Hp. eapply owned_perm.
    { symmetry. apply owners_create. by rewrite lookup_fmap, Hn. }
    intros i. rewrite col_nil. apply I4.
  - split; simpl; [done..|]. by rewrite E.
  - apply (f_equal snd) in E. unfold addNode, CreateAddNodeHandler in E. rewrite handled_state in E.
    destruct (AllocateOrOccupyCIDR (Some n) (r, w)) as [o' st] eqn:E'. simpl in E. subst st. by eapply inv_assign.
  - apply (f_equal snd) in E. unfold updateNode, CreateUpdateNodeHandler in E. rewrite handled_state in E.
    case_bool_decide; [|simpl in E; by injection E as <- <-].
    destruct (AllocateOrOccupyCIDR (Some n') (r, w)) as [o' st] eqn:E'. simpl in E. subst st. by eapply inv_assign.
  - split; simpl; [done..|]. assert (En : pod_cidrs w !! name = Some (PodCIDRs (Spec n))).
    { unfold pod_cidrs. by rewrite lookup_fmap, Hn. }
    destruct (owners_insert (nodeCIDRUpdateChannel r) g _ name _ [] En) as (O & E1 & _ & E3).
    unfold pod_cidrs at 1. rewrite E, fmap_delete. fold (pod_cidrs w).
    eapply owned_perm; [|exact I4]. by rewrite E1, E3.
  - assert (E2 : (ReleaseCIDR (Some n) (r, w)).2 = (r', w')).
    { apply (f_equal snd) in E. destruct Hobj as [-> | ->]; simpl in E; by rewrite <- E, handled_state. }
    destruct (ReleaseCIDR (Some n) (r, w)) as [o' st] eqn:E'. simpl in E2. subst st. by eapply inv_delete_event.
  - by eapply inv_worker.
Qed.

Lemma inv_steps s s' : sys_inv s → rtc step s s' → sys_inv s'.
Proof. intros I. induction 1; eauto using inv_step. Qed.

(** ** What the invariant gives *)

(** Two entries of the owner list that name a CIDR at the same set name
    different blocks. *)
Lemma owned_disjoint l o O la lb i x y : sets_ok l → owned_ok l o → o ≡ₚ la :: O → lb ∈ O →
  la !! i = Some x → lb !! i = Some y →
  ∃ n m, ParseCIDR x = Ret n ∧ ParseCIDR y = Ret m ∧ ¬ meets n m.
Proof.
  intros Hl Ho E Hb Hx Hy. eapply owned_perm in Ho; [|exact E]. destruct (Ho i) as [Hnd Hh].
  unfold col in *. simpl in *. rewrite Hx in *.
  assert (Hyc : y ∈ omap (λ l, l !! i) O) by (apply list_elem_of_omap; eauto).
  destruct (Hh x ltac:(by left)) as (p & n & Hp & Hn & ->).
  destruct (Hh y ltac:(by right)) as (q & m & Hq & Hm & ->).
  assert (q = p) as -> by congruence. assert (Hok : pool_ok p) by by eapply Forall_lookup_1.
  exists n, m. rewrite (block_text p n), (block_text p m) by eauto using pool_held_block.
  split; [done|]. split; [done|]. intros Hmt. apply NoDup_cons in Hnd as [Hnd _].
  by rewrite (pool_block_disjoint p n m) in Hnd by eauto using pool_held_block.
Qed.

Lemma inv_exclusive s a b la lb i x y : sys_inv s → a ≠ b →
  pod_cidrs (sys_w s) !! a = Some la → pod_cidrs (sys_w s) !! b = Some lb →
  la !! i = Some x → lb !! i = Some y →
  ∃ n m, ParseCIDR x = Ret n ∧ ParseCIDR y = Ret m ∧ ¬ meets n m.
Proof.
  intros [I1 _ _ I4] Hab Ha Hb Hx Hy. eapply (owned_disjoint _ _ _ la lb); [exact I1|exact I4| | |done|done].
  - unfold owners. rewrite <- (insert_delete_id _ a la Ha) at 1.
    rewrite map_to_list_insert, fmap_cons by apply lookup_delete_eq. simpl.
    by rewrite !(assoc_L (++)), <- Permutation_middle.
  - rewrite elem_of_app. right. apply list_elem_of_fmap. exists (b, lb). split; [done|].
    apply elem_of_map_to_list. by rewrite lookup_delete_ne.
Qed.

(** The start: sets without owners of their own, or with the existing nodes'
    CIDRs occupied. *)
Lemma inv_init r w : sets_ok (cidrSets r) → cidrSets r ≠ [] → nodeCIDRUpdateChannel r = [] →
  (∀ name n, api_nodes w !! name = Some n → PodCIDRs (Spec n) = []) → sys_inv (mkSys r w []).
Proof.
  intros Hs Hne Hq Hn. split; simpl; [done|done|by rewrite Hq; intros ? ?%not_elem_of_nil|].
  rewrite Hq. unfold owners. simpl. intros i.
  assert (col i (map_to_list (pod_cidrs w)).*2 = []) as ->.
  { unfold col. assert (Hall : Forall (λ l : list string, l = []) (map_to_list (pod_cidrs w)).*2).
    { apply Forall_forall. intros l ([k l'] & -> & Hin)%list_elem_of_fmap. simpl.
      apply elem_of_map_to_list in Hin. unfold pod_cidrs in Hin.
      apply lookup_fmap_Some in Hin as (n & <- & En). by eapply Hn. }
    induction Hall as [|l ls ->]; [done|]. simpl. done. }
  split; [constructor|by intros ? ?%not_elem_of_nil].
Qed.
End system.

(** ** FakeCluster: an API server to evaluate the controllers on

    A concrete world with the documented behaviour of the API server, for the
    witnesses and scenarios: a map of nodes, a lister cache that is refreshed
    only by [sync_lister], a script of faults for the coming patch requests and
    the log of events.  [FakeCluster_spec] shows that the contract
    [KubeClientSpec] can be met. *)

Record FakeCluster : Type := mkCluster {
  fc_api : gmap string Node;
  fc_lister : gmap string Node;
  fc_faults : list (option error);
  fc_events : list (string * string)
}.

Definition fc_patched (p : nodePatch) (n : Node) : option Node :=
  match p with
  | PatchCIDRs c l =>
      if decide (PodCIDRs (Spec n) = [] ∨ PodCIDRs (Spec n) = l)
      then Some (set_Spec (λ s, mkSpec c l (ProviderID s) (Taints s)) n) else None
  | PatchPodCIDR c =>
      if decide (PodCIDRs (Spec n) = [] ∨ PodCIDRs (Spec n) = [c])
      then Some (set_Spec (set_PodCIDRs [c]) n) else None
  | PatchConditions cs =>
      Some (set_Status (λ s, mkStatus (Capacity s)
        (filter (λ c, cond_Type c ∉ (cond_Type <$> cs)) (Conditions s) ++ cs)) n)
  | PatchAnnotations m => Some (set_Annotations (λ a, m ∪ a) n)
  | PatchCapacity c => Some (set_Status (λ s, mkStatus c (Conditions s)) n)
  end.

Definition fc_get (m : gmap string Node) (name : string) : outcome Node :=
  match m !! name with
  | Some n => if decide (node_Name n = name) then Ret n else Err (ErrStatus ReasonUnknown)
  | None => Err (ErrStatus ReasonNotFound)
  end.

#[global] Instance FakeCluster_client : KubeClient FakeCluster := {
  Nodes_Get name := λ w, (fc_get (fc_api w) name, w);
  Nodes_List := λ w, (Ret (map_to_list (fc_api w)).*2, w);
  Nodes_Patch name p := λ w,
    let w' := mkCluster (fc_api w) (fc_lister w) (tl (fc_faults w)) (fc_events w) in
    match hd None (fc_faults w) with
    | Some e => (Err e, w')
    | None =>
        match fc_api w !! name with
        | None => (Err (ErrStatus ReasonNotFound), w')
        | Some n =>
            match fc_patched p n with
            | None => (Err (ErrStatus ReasonInvalid), w')
            | Some n' => (Ret tt, mkCluster (<[ name := n' ]> (fc_api w)) (fc_lister w) (tl (fc_faults w)) (fc_events w))
            end
        end
    end;
  NodeLister_Get name := λ w, (fc_get (fc_lister w) name, w);
  NodeLister_List := λ w, (Ret (map_to_list (fc_lister w)).*2, w);
  Recorder_Eventf ref s := λ w,
    (Ret tt, mkCluster (fc_api w) (fc_lister w) (fc_faults w) (fc_events w ++ [(ref_Name ref, s)]));
  Clock_Now := λ w, (Ret 0, w)
}.

#[global, program] Instance FakeCluster_spec : KubeClientSpec FakeCluster := { api_nodes := fc_api }.
Next Obligation.
  intros name w. simpl. unfold fc_get. destruct (fc_lister w !! name) as [n|]; [|naive_solver].
  case_decide; naive_solver.
Qed.
Next Obligation. done. Qed.
Next Obligation.
  intros name c l w. simpl. destruct (hd None (fc_faults w)); [by split; [|right]|].
  destruct (fc_api w !! name) as [n|] eqn:En; [|by split; [|right]].
  case_decide; [|by split; [|right]]. split; [done|]. left. by exists n.
Qed.

(** The informer catches up. *)
Definition sync_lister (w : FakeCluster) : FakeCluster :=
  mkCluster (fc_api w) (fc_api w) (fc_faults w) (fc_events w).

(** A bare node. *)
Definition bare_node (name : string) : Node :=
  mkNode name name ∅ ∅ (mkSpec EmptyString [] EmptyString []) (mkStatus ∅ []).

(** A world whose server and lister know the given bare nodes. *)
Definition cluster_of (names : list string) : FakeCluster :=
  let m := list_to_map ((λ x, (x, bare_node x)) <$> names) in mkCluster m m [] [].

Lemma cluster_of_bare names name n : api_nodes (cluster_of names) !! name = Some n → PodCIDRs (Spec n) = [].
Proof.
  simpl. intros E%elem_of_list_to_map_2. by apply list_elem_of_fmap in E as (k & [= -> ->] & _).
Qed.
