(* ===== verification/GceInstances.v ===== *)
(** * GceInstances: the instance calls of the GCE provider

    The parts of [providers/gce/gce_instances.go] and [gce_util.go] the node IPAM
    controllers use: provider IDs, the IPv6 pod range of an interface, alias
    ranges.  The compute API is the interface [ComputeClient]. *)

From S2P Require Import Prelude Bits GoNet GoNetText K8s.
Local Open Scope Z_scope.

(** ** [compute.Instance] *)
Record AliasIpRange : Type := mkAlias { IpCidrRange : string; SubnetworkRangeName : string }.

Record NetworkInterface : Type := mkNic {
  nic_Name : string;
  nic_Network : string;
  nic_Subnetwork : string;
  NetworkIP : string;
  Ipv6Address : string;
  Ipv6AccessType : string;
  Ipv6AccessConfigs : list string;
  AliasIpRanges : list AliasIpRange;
  Fingerprint : string
}.

Record Instance_ : Type := mkInstance {
  inst_Name : string;
  inst_Zone : string;
  NetworkInterfaces : list NetworkInterface
}.

(** [g.c.Instances()] and [g.c.BetaInstances()], keyed by zone and name. *)
Class ComputeClient (W : Type) : Type := {
  Instances_Get : string → string → io W Instance_;
  BetaInstances_Get : string → string → io W Instance_;
  BetaInstances_UpdateNetworkInterface : string → string → string → NetworkInterface → io W unit
}.

(** ** Names *)

(** The three groups of [^gce://([^/]+)/([^/]+)/([^/]+)$]. *)
Definition splitProviderID (providerID : string) : outcome (string * string * string) :=
  let prefix := "gce://"%string in
  if bool_decide (String.substring 0 6 providerID = prefix) then
    match split_on slash (String.substring 6 (String.length providerID - 6) providerID) with
    | [project; zone; inst] =>
        if bool_decide (project = EmptyString ∨ zone = EmptyString ∨ inst = EmptyString)
        then Err (ErrSentinel "error splitting providerID")
        else Ret (project, zone, inst)
    | _ => Err (ErrSentinel "error splitting providerID")
    end
  else Err (ErrSentinel "error splitting providerID").

Definition canonicalizeInstanceName (name : string) : string :=
  match cut_on dot name with Some (a, _) => a | None => name end.

Definition lastComponent (s : string) : string := List.last (split_on slash s) EmptyString.

(** ** IPv6 *)
Definition getIPV6AddressFromInterface (nic : NetworkInterface) : string :=
  if bool_decide (Ipv6Address nic = EmptyString) && bool_decide (Ipv6AccessType nic = "EXTERNAL"%string)
  then List.last (Ipv6AccessConfigs nic) (Ipv6Address nic)
  else Ipv6Address nic.

(** [net.ParseIP]: a 16-byte address or nil. *)
Definition ParseIP (s : string) : list Z :=
  match ParseAddr s with
  | Some ip => default [] (To16 ip)
  | None => []
  end.

Definition GetIPV6Address (nic : NetworkInterface) : option IPNet :=
  let ipv6Addr := getIPV6AddressFromInterface nic in
  if bool_decide (ipv6Addr = EmptyString) then None
  else let mask := CIDRMask 112 128 in
       Some {| net_IP := IP_Mask (ParseIP ipv6Addr) mask; net_Mask := mask |}.

Section cloud.
Context {W : Type} `{ComputeClient W}.

Definition InstanceByProviderID (providerID : string) : io W Instance_ :=
  '(_, zone, name) ← lift (splitProviderID providerID);
  Instances_Get zone (canonicalizeInstanceName name).

Definition AliasRangesByProviderID (providerID : string) : io W (list string) :=
  '(_, zone, name) ← lift (splitProviderID providerID);
  res ← Instances_Get zone (canonicalizeInstanceName name);
  mret (NetworkInterfaces res ≫= λ nic,
    (IpCidrRange <$> AliasIpRanges nic) ++
    match GetIPV6Address nic with Some a => [IPNet_String a] | None => [] end).

Definition AddAliasToInstanceByProviderID (secondaryRangeName : string) (providerID : string) (alias : IPNet) : io W unit :=
  '(_, zone, name) ← lift (splitProviderID providerID);
  inst ← BetaInstances_Get zone (canonicalizeInstanceName name);
  match NetworkInterfaces inst with
  | [] => fail (Errorf "instance %q has no network interfaces")
  | nic :: _ =>
      let iface := mkNic (nic_Name nic) EmptyString EmptyString EmptyString EmptyString EmptyString []
        [mkAlias (IPNet_String alias) secondaryRangeName] (Fingerprint nic) in
      BetaInstances_UpdateNetworkInterface (lastComponent (inst_Zone inst)) (inst_Name inst) (nic_Name iface) iface
  end.
End cloud.

(** ** Facts *)
Lemma substring_all s : String.substring 0 (String.length s) s = s.
Proof. induction s as [|c s IH]; simpl; [done|]. by rewrite IH. Qed.

Lemma has_slash_split a : has_char slash a = false → split_on slash a = [a].
Proof. apply split_on_none. Qed.

Lemma gce_prefix rest : String.substring 0 6 ("gce://" +:+ rest) = "gce://"%string ∧
  String.substring 6 (String.length ("gce://" +:+ rest) - 6) ("gce://" +:+ rest) = rest.
Proof. simpl. rewrite Nat.sub_0_r, substring_all. split; [by destruct rest|done]. Qed.

(** A provider ID is split into the parts it was built of. *)
Lemma splitProviderID_join p z i :
  has_char slash p = false → has_char slash z = false → has_char slash i = false →
  p ≠ EmptyString → z ≠ EmptyString → i ≠ EmptyString →
  splitProviderID ("gce://" +:+ p +:+ "/" +:+ z +:+ "/" +:+ i) = Ret (p, z, i).
Proof.
  intros Hp Hz Hi Np Nz Ni. unfold splitProviderID.
  destruct (gce_prefix (p +:+ "/" +:+ z +:+ "/" +:+ i)) as [-> ->].
  rewrite bool_decide_eq_true_2 by done.
  change (p +:+ "/" +:+ z +:+ "/" +:+ i)%string with (p +:+ String slash (z +:+ String slash i))%string.
  rewrite split_on_app, split_on_app, split_on_none by done.
  rewrite bool_decide_eq_false_2; [done|]. tauto.
Qed.

(** Whatever is accepted has non-empty parts without slashes. *)
Lemma split_on_parts c s : Forall (λ x, has_char c x = false) (split_on c s).
Proof.
  induction s as [|d s IH]; simpl; [by repeat constructor|].
  case_decide as E; [by constructor|]. destruct (split_on c s) as [|w ws]; [constructor; [simpl; by rewrite bool_decide_eq_false_2|done]|].
  apply Forall_cons in IH as [Hw Hws]. constructor; [|done]. simpl. by rewrite bool_decide_eq_false_2.
Qed.

Lemma splitProviderID_inv id p z i : splitProviderID id = Ret (p, z, i) →
  has_char slash p = false ∧ has_char slash z = false ∧ has_char slash i = false ∧
  p ≠ EmptyString ∧ z ≠ EmptyString ∧ i ≠ EmptyString.
Proof.
  unfold splitProviderID. case_bool_decide; [|done].
  pose proof (split_on_parts slash (String.substring 6 (String.length id - 6) id)) as Hparts.
  destruct (split_on slash _) as [|a [|b [|c [|]]]]; try done. case_bool_decide as En; [done|].
  intros [= <- <- <-]. rewrite !Forall_cons in Hparts. tauto.
Qed.

Lemma lastComponent_after s n : has_char slash n = false → lastComponent (s +:+ String slash n) = n.
Proof. intros Hn. unfold lastComponent. destruct (split_after slash s n Hn) as (l & -> & _). apply last_last. Qed.

(** The IPv6 pod range of an interface is a /112. *)
Lemma GetIPV6Address_mask nic n : GetIPV6Address nic = Some n → IPMask_Size (net_Mask n) = (112, 128).
Proof. unfold GetIPV6Address. case_bool_decide; [done|]. by intros [= <-]. Qed.
