(* ===== verification/Timeout.v ===== *)
(** * Timeout: the resync timer of a node

    [pkg/controller/nodeipam/ipam/timeout.go]: the default interval after a
    success, exponential backoff up to a maximum while errors repeat.  Durations
    are 64-bit nanoseconds. *)

From S2P Require Import Prelude.
Local Open Scope Z_scope.

Record Timeout : Type := mkTimeout {
  Resync : Z; MaxBackoff : Z; InitialRetry : Z;
  errs : Z; current : Z
}.

Definition Update (b : Timeout) (ok : bool) : Timeout :=
  if ok then mkTimeout (Resync b) (MaxBackoff b) (InitialRetry b) 0 (Resync b)
  else
    let errs' := i64 (errs b + 1) in
    if errs' =? 1 then mkTimeout (Resync b) (MaxBackoff b) (InitialRetry b) errs' (InitialRetry b)
    else
      let cur := i64 (current b * 2) in
      let cur := if MaxBackoff b <=? cur then MaxBackoff b else cur in
      mkTimeout (Resync b) (MaxBackoff b) (InitialRetry b) errs' cur.

Definition Next (b : Timeout) : Z := if errs b =? 0 then Resync b else current b.

(** The timer of a new syncer. *)
Definition newTimeout (resync maxBackoff initialRetry : Z) : Timeout :=
  mkTimeout resync maxBackoff initialRetry 0 0.

(** ** Facts *)

(** A sane configuration: doubling the maximum does not overflow. *)
Definition timeout_cfg (b : Timeout) : Prop :=
  0 < InitialRetry b <= MaxBackoff b ∧ MaxBackoff b < 2 ^ 62.

(** The state after [n] consecutive errors. *)
Definition backoff (b : Timeout) (n : Z) : Z :=
  if n =? 0 then Resync b else Z.min (MaxBackoff b) (InitialRetry b * 2 ^ (n - 1)).

Definition timeout_inv (b : Timeout) : Prop :=
  timeout_cfg b ∧ 0 <= errs b < 2 ^ 62 ∧ Next b = backoff b (errs b).

Lemma min_double m x : 0 < x <= m → (if m <=? Z.min m x * 2 then m else Z.min m x * 2) = Z.min m (x * 2).
Proof. intros Hx. rewrite Z.min_r by lia. destruct (Z.leb_spec m (x * 2)); lia. Qed.

Lemma Update_error b : timeout_inv b → errs b + 1 < 2 ^ 62 →
  timeout_inv (Update b false) ∧ errs (Update b false) = errs b + 1 ∧
  Resync (Update b false) = Resync b ∧ MaxBackoff (Update b false) = MaxBackoff b ∧
  InitialRetry (Update b false) = InitialRetry b.
Proof.
  intros (([Hi Hm] & Hmax) & He & Hn) Hlt. unfold Update.
  rewrite (i64_small (errs b + 1)) by lia. unfold Next, backoff in Hn.
  destruct (Z.eqb_spec (errs b + 1) 1) as [E|E]; simpl.
  - split; [|done]. split; [done|]. split; [simpl; lia|]. unfold Next, backoff. simpl. rewrite E. simpl. lia.
  - destruct (Z.eqb_spec (errs b) 0); [lia|].
    assert (Hc : 0 < current b <= MaxBackoff b).
    { rewrite Hn. pose proof (pow2_pos (errs b - 1) ltac:(lia)). nia. }
    rewrite (i64_small (current b * 2)) by lia. split; [|done]. split; [done|]. split; [simpl; lia|].
    unfold Next, backoff. simpl. destruct (Z.eqb_spec (errs b + 1) 0); [lia|].
    replace (errs b + 1 - 1) with (errs b - 1 + 1) by lia.
    rewrite Z.pow_add_r, Z.mul_assoc by lia. change (2 ^ 1) with 2. rewrite Hn.
    pose proof (pow2_pos (errs b - 1) ltac:(lia)).
    destruct (Z.leb_spec (MaxBackoff b) (Z.min (MaxBackoff b) (InitialRetry b * 2 ^ (errs b - 1)) * 2)); lia.
Qed.

Lemma newTimeout_inv r m i : 0 < i <= m → m < 2 ^ 62 → timeout_inv (newTimeout r m i).
Proof. intros. split; [done|]. split; simpl; [lia|done]. Qed.

Lemma Update_ok b : timeout_inv b → timeout_inv (Update b true) ∧ Next (Update b true) = Resync b.
Proof. intros (Hc & He & Hn). split; [|done]. split; [done|]. split; simpl; [lia|done]. Qed.

(** [k] errors in a row after a success. *)
Fixpoint failures (k : nat) (b : Timeout) : Timeout :=
  match k with O => b | S k => Update (failures k b) false end.

Lemma failures_inv k b : timeout_inv b → errs b = 0 → Z.of_nat k < 2 ^ 62 →
  let b' := failures k b in
  timeout_inv b' ∧ errs b' = Z.of_nat k ∧ MaxBackoff b' = MaxBackoff b ∧ InitialRetry b' = InitialRetry b ∧ Resync b' = Resync b.
Proof.
  intros Hb He. induction k as [|k IH]; intros Hk; cbn [failures]; [done|].
  destruct IH as (I & E & M & IR & R); [lia|].
  destruct (Update_error (failures k b) I) as (I' & E' & R' & M' & IR'); [lia|].
  split; [done|]. split; [lia|]. split; [congruence|]. split; congruence.
Qed.
