(* ===== verification/NetUtils.v ===== *)
(** * NetUtils: [k8s.io/utils/net]

    [ParseCIDRs] parses with the forked parser that keeps the pre-1.17 behaviour
    of Go's [net.ParseCIDR]: leading zeroes are allowed in decimal octets and
    hexadecimal groups.  [IsDualStackCIDRs], [IPFamilyOf] and [RangeSize] are
    the helpers the allocators call on the result.  The lemmas relate the
    forked parser to the standard one, so that a network the program printed
    is read back by either. *)

From S2P Require Import Prelude Bits GoNet GoNetText.
Local Open Scope Z_scope.

(** ** The forked parser *)

(** [big = 0xFFFFFF], where the number scanners give up. *)
Definition scan_big : Z := 16777215.

(** [dtoi]: value and rest of the digits at the head; at least one digit. *)
Fixpoint dtoi_from (s : string) (off : nat) (acc : Z) : option (Z * string) :=
  match s with
  | EmptyString => if (off =? 0)%nat then None else Some (acc, EmptyString)
  | String c s' =>
      match digit c with
      | Some d => if scan_big <=? acc * 10 + d then None else dtoi_from s' (S off) (acc * 10 + d)
      | None => if (off =? 0)%nat then None else Some (acc, s)
      end
  end.
Definition dtoi (s : string) : option (Z * string) := dtoi_from s 0 0.

(** [xtoi], the same in base sixteen. *)
Fixpoint xtoi_from (s : string) (off : nat) (acc : Z) : option (Z * string) :=
  match s with
  | EmptyString => if (off =? 0)%nat then None else Some (acc, EmptyString)
  | String c s' =>
      match hex_digit c with
      | Some d => if scan_big <=? acc * 16 + d then None else xtoi_from s' (S off) (acc * 16 + d)
      | None => if (off =? 0)%nat then None else Some (acc, s)
      end
  end.
Definition xtoi (s : string) : option (Z * string) := xtoi_from s 0 0.

(** The octets of [parseIPv4], the first without a dot before it. *)
Fixpoint sloppy_octets (n : nat) (first : bool) (s : string) : option (list Z) :=
  match n with
  | O => match s with EmptyString => Some [] | _ => None end
  | S n =>
      s ← match s with
          | EmptyString => None
          | String c s' => if first then Some s else if decide (c = dot) then Some s' else None
          end;
      '(v, rest) ← dtoi s;
      if 255 <? v then None else (v ::.) <$> sloppy_octets n false rest
  end.
Definition sloppy_parseIPv4 (s : string) : option (list Z) := sloppy_octets 4 true s.

(** The loop of the forked [parseIPv6]; eight turns fill the address. *)
Fixpoint sloppy_loop (fuel : nat) (s : string) (ip : list Z) (ellipsis : option nat) :
    option (list Z * option nat * string) :=
  match fuel with
  | O => Some (ip, ellipsis, s)
  | S fuel =>
      '(n, rest) ← xtoi s;
      if 65535 <? n then None
      else match rest with
      | EmptyString => Some (ip ++ group_bytes n, ellipsis, EmptyString)
      | String c rest' =>
          if decide (c = dot) then
            if bool_decide (ellipsis = None) && negb (length ip =? 12)%nat then None
            else if (16 <? length ip + 4)%nat then None
            else v4 ← sloppy_parseIPv4 s; Some (ip ++ v4, ellipsis, EmptyString)
          else if decide (c = colon) then
            let ip := ip ++ group_bytes n in
            match rest' with
            | EmptyString => None
            | String c2 rest'' =>
                if decide (c2 = colon) then
                  match ellipsis with
                  | Some _ => None
                  | None =>
                      match rest'' with
                      | EmptyString => Some (ip, Some (length ip), EmptyString)
                      | _ => sloppy_loop fuel rest'' ip (Some (length ip))
                      end
                  end
                else sloppy_loop fuel rest' ip ellipsis
            end
          else None
      end
  end.

Definition sloppy_parseIPv6 (s : string) : option (list Z) :=
  match s with
  | String c1 (String c2 s') =>
      if decide (c1 = colon ∧ c2 = colon) then
        match s' with
        | EmptyString => Some (replicate 16 0)
        | _ => sloppy_loop 8 s' [] (Some 0%nat) ≫= parseIPv6_finish
        end
      else sloppy_loop 8 s [] None ≫= parseIPv6_finish
  | _ => sloppy_loop 8 s [] None ≫= parseIPv6_finish
  end.

(** [ParseCIDRSloppy]: the network (the second result). *)
Definition ParseCIDRSloppy (s : string) : outcome IPNet :=
  let bad := Err (Errorf "invalid CIDR address") in
  match cut_on slash s with
  | None => bad
  | Some (addr, mask) =>
      match (match sloppy_parseIPv4 addr with Some ip => Some ip | None => sloppy_parseIPv6 addr end), dtoi mask with
      | Some ip, Some (n, EmptyString) =>
          let bits := 8 * Z.of_nat (length ip) in
          if bits <? n then bad
          else let m := CIDRMask n bits in Ret {| net_IP := IP_Mask ip m; net_Mask := m |}
      | _, _ => bad
      end
  end.

Fixpoint ParseCIDRs (cidrsString : list string) : outcome (list IPNet) :=
  match cidrsString with
  | [] => Ret []
  | s :: l =>
      match ParseCIDRSloppy s with
      | Ret c => (c ::.) <$> ParseCIDRs l
      | Err _ => Err (Errorf "invalid CIDR[%d]: %v (%v)")
      | Panic => Panic
      end
  end.

(** ** Families *)
Inductive IPFamily : Type := IPFamilyUnknown | IPv4 | IPv6.
#[global] Instance IPFamily_eq_dec : EqDecision IPFamily. Proof. solve_decision. Defined.

Definition IPFamilyOf (ip : list Z) : IPFamily :=
  match To4 ip with
  | Some _ => IPv4
  | None => match To16 ip with Some _ => IPv6 | None => IPFamilyUnknown end
  end.

Definition IPFamilyOfCIDR (cidr : option IPNet) : IPFamily :=
  match cidr with None => IPFamilyUnknown | Some c => IPFamilyOf (net_IP c) end.

Fixpoint dualStack_loop (v4Found v6Found : bool) (cidrs : list (option IPNet)) : outcome bool :=
  match cidrs with
  | [] => Ret (v4Found && v6Found)
  | c :: cidrs =>
      match IPFamilyOfCIDR c with
      | IPv4 => dualStack_loop true v6Found cidrs
      | IPv6 => dualStack_loop v4Found true cidrs
      | IPFamilyUnknown => Err (Errorf "invalid CIDR[%d]: %v")
      end
  end.
Definition IsDualStackCIDRs (cidrs : list (option IPNet)) : outcome bool := dualStack_loop false false cidrs.

Definition IsIPv6CIDR (cidr : option IPNet) : bool := bool_decide (IPFamilyOfCIDR cidr = IPv6).

(** ** Sizes *)
Definition RangeSize (subnet : IPNet) : Z :=
  let '(ones, bits) := IPMask_Size (net_Mask subnet) in
  if ((bits =? 32) && (31 <=? bits - ones)) || ((bits =? 128) && (127 <=? bits - ones)) then 0
  else if 63 <=? bits - ones then 2 ^ 63 - 1
  else go_shl 64 1 (bits - ones).

Example sloppy_zeroes : IPNet_String <$> ParseCIDRSloppy "010.020.030.040/020" = Ret "10.20.16.0/20"%string.
Proof. by vm_compute. Qed.
Example sloppy_v6 : IPNet_String <$> ParseCIDRSloppy "00001:0:0:2::1.02.3.4/128" = Ret "1::2:0:0:102:304/128"%string.
Proof. by vm_compute. Qed.

(** ** The forked parser accepts what the standard one accepts *)

Lemma digit_range c d : digit c = Some d → 0 <= d <= 9.
Proof. unfold digit. destruct (_ && _) eqn:E; [|done]. intros [= <-]. propify. lia. Qed.

Lemma hex_digit_range c d : hex_digit c = Some d → 0 <= d <= 15.
Proof.
  unfold hex_digit. cbv zeta. intros H. repeat case_match; simplify_eq; propify; lia.
Qed.

Lemma dec_value_mono s : ∀ acc v, 0 <= acc → dec_value s acc = Some v → acc <= v.
Proof.
  induction s as [|c s IH]; intros acc v Ha; simpl; [intros [= <-]; lia|].
  destruct (digit c) as [d|] eqn:E; [|done]. simpl. apply digit_range in E.
  intros Hv%IH; lia.
Qed.

Lemma dec_value_bound s : ∀ acc v, 0 <= acc → dec_value s acc = Some v → 0 <= v.
Proof. intros acc v Ha Hv%dec_value_mono; lia. Qed.

(** A number below the limit that ends at a non-digit is read whole. *)
Lemma dtoi_dec_value s rest : ∀ off acc v, 0 <= acc →
  dec_value s acc = Some v → v < scan_big → (off ≠ 0%nat ∨ s ≠ EmptyString) →
  match rest with EmptyString => True | String c _ => digit c = None end →
  dtoi_from (s +:+ rest) off acc = Some (v, rest).
Proof.
  induction s as [|c s IH]; intros off acc v Ha; simpl.
  - intros [= <-] _ Ho Hr. assert ((off =? 0)%nat = false) as Ho' by (apply Nat.eqb_neq; naive_solver).
    destruct rest as [|c r]; simpl; [by rewrite Ho'|]. by rewrite Hr, Ho'.
  - destruct (digit c) as [d|] eqn:E; [|done]. simpl. pose proof (digit_range _ _ E).
    intros Hv Hlt _ Hr. pose proof (dec_value_mono s (acc * 10 + d) v ltac:(lia) Hv).
    destruct (Z.leb_spec scan_big (acc * 10 + d)); [lia|]. apply IH; auto with lia.
Qed.

(** The scan that stops after four digits agrees with [xtoi]. *)
Lemma scan_hex_xtoi s : ∀ off acc o v rest, 0 <= acc < 16 ^ Z.of_nat off → (off <= 4)%nat →
  scan_hex s off acc = Some (o, v, rest) → (o ≠ 0)%nat →
  xtoi_from s off acc = Some (v, rest) ∧ 0 <= v < 65536.
Proof.
  induction s as [|c s IH]; intros off acc o v rest Ha Hoff; simpl.
  { intros [= -> -> <-] Ho. rewrite (proj2 (Nat.eqb_neq o 0)) by done. split; [done|].
    assert (16 ^ Z.of_nat o <= 16 ^ 4) by (apply Z.pow_le_mono_r; lia). lia. }
  destruct (hex_digit c) as [d|] eqn:E.
  - destruct (Nat.ltb_spec 3 off); [done|]. intros Hs Ho. pose proof (hex_digit_range _ _ E).
    assert (0 <= acc * 16 + d < 16 ^ Z.of_nat (S off)) as Hb.
    { rewrite Nat2Z.inj_succ, Z.pow_succ_r by lia. lia. }
    assert (16 ^ Z.of_nat (S off) <= 16 ^ 4) by (apply Z.pow_le_mono_r; lia).
    unfold scan_big. destruct (Z.leb_spec 16777215 (acc * 16 + d)); [lia|].
    by apply (IH (S off) (acc * 16 + d) o v rest); [|lia|..].
  - intros [= -> -> <-] Ho. rewrite (proj2 (Nat.eqb_neq o 0)) by done. split; [done|].
    assert (16 ^ Z.of_nat o <= 16 ^ 4) by (apply Z.pow_le_mono_r; lia). lia.
Qed.

Lemma parse_octet_dec s v : parse_octet s = Some v → dec_value s 0 = Some v ∧ v <= 255 ∧ s ≠ EmptyString.
Proof.
  unfold parse_octet. destruct s as [|c s]; [done|]. case_decide; [done|].
  destruct (dec_value _ 0) as [x|]; [|done]. simpl. destruct (Z.leb_spec x 255); [|done]. intros [= ->]. done.
Qed.

Lemma split_on_join c s w ws : split_on c s = w :: ws → s = join_with (String c EmptyString) (w :: ws).
Proof.
  revert w ws. induction s as [|d s IH]; intros w ws; simpl; [by intros [= <- <-]|].
  destruct (split_on c s) as [|w' ws'] eqn:E.
  { exfalso. destruct s as [|e s]; simpl in E; [done|]. case_decide; [done|]. by destruct (split_on c s). }
  specialize (IH _ _ eq_refl). case_decide as Ec.
  - intros [= <- <-]. subst d. rewrite IH. done.
  - intros [= <- <-]. rewrite IH. by destruct ws'.
Qed.

Lemma digit_dot : digit dot = None.
Proof. done. Qed.

(** One octet and the rest of the address. *)
Lemma sloppy_octets_cons n (first : bool) s v rest l :
  parse_octet s = Some v →
  match rest with EmptyString => True | String c _ => digit c = None end →
  sloppy_octets n false rest = Some l →
  sloppy_octets (S n) first ((if first then EmptyString else String dot EmptyString) +:+ s +:+ rest) = Some (v :: l).
Proof.
  intros (Hv & Hle & Hne)%parse_octet_dec Hr Hl.
  assert (dtoi (s +:+ rest) = Some (v, rest)) as Hd.
  { apply dtoi_dec_value; unfold scan_big; auto with lia. }
  assert (∃ c t, (s +:+ rest)%string = String c t) as (c & t & Et) by (destruct s as [|c s]; [done|by exists c, (s +:+ rest)%string]).
  change (dtoi (EmptyString +:+ s +:+ rest) = Some (v, rest)) in Hd.
  destruct first; simpl; [rewrite Et in Hd |- *; simpl|]; rewrite Hd; simpl;
    (destruct (Z.ltb_spec 255 v); [lia|]; by rewrite Hl).
Qed.

Lemma sloppy_parseIPv4_complete s l : parseIPv4Fields s = Some l → sloppy_parseIPv4 s = Some l.
Proof.
  unfold parseIPv4Fields, sloppy_parseIPv4.
  destruct (split_on dot s) as [|a [|b [|c [|d [|]]]]] eqn:E; try done.
  apply split_on_join in E as ->. simpl.
  destruct (parse_octet a) as [x|] eqn:Ea; [|done]. destruct (parse_octet b) as [y|] eqn:Eb; [|done].
  destruct (parse_octet c) as [z|] eqn:Ec; [|done]. destruct (parse_octet d) as [t|] eqn:Ed; [|done].
  simpl. intros [= <-].
  assert (sloppy_octets 1 false ("." +:+ d) = Some [t]) as H1.
  { rewrite <- (string_app_nil d). by apply (sloppy_octets_cons 0 false d t). }
  assert (sloppy_octets 2 false ("." +:+ c +:+ "." +:+ d) = Some [z; t]) as H2
    by by apply (sloppy_octets_cons 1 false c z).
  assert (sloppy_octets 3 false ("." +:+ b +:+ "." +:+ c +:+ "." +:+ d) = Some [y; z; t]) as H3
    by by apply (sloppy_octets_cons 2 false b y).
  by apply (sloppy_octets_cons 3 true a x).
Qed.

Lemma sloppy_loop_complete fuel : ∀ s ip e r,
  parseIPv6_loop fuel s ip e = Some r → sloppy_loop fuel s ip e = Some r.
Proof.
  induction fuel as [|fuel IH]; intros s ip e r; simpl; [done|].
  destruct (scan_hex s 0 0) as [[[off acc] rest]|] eqn:Es; [|done]. simpl.
  destruct (Nat.eqb_spec off 0); [done|].
  destruct (scan_hex_xtoi s 0 0 off acc rest ltac:(simpl; lia) ltac:(lia) Es n) as [Hx Hb].
  unfold xtoi. rewrite Hx. simpl. destruct (Z.ltb_spec 65535 acc); [lia|].
  destruct rest as [|c rest']; [done|]. case_decide.
  - destruct (_ && _); [done|]. destruct (16 <? _)%nat; [done|].
    destruct (parseIPv4Fields s) as [v4|] eqn:E4; [|done]. by rewrite (sloppy_parseIPv4_complete _ _ E4).
  - case_decide; [|done]. destruct rest' as [|c2 rest'']; [done|]. case_decide; [|apply IH].
    destruct e; [done|]. destruct rest''; [done|]. apply IH.
Qed.

Lemma sloppy_parseIPv6_complete s l : parseIPv6 s = Some l → sloppy_parseIPv6 s = Some l.
Proof.
  assert (∀ s e, parseIPv6_loop 8 s [] e ≫= parseIPv6_finish = Some l →
    sloppy_loop 8 s [] e ≫= parseIPv6_finish = Some l) as Hl.
  { intros s' e. destruct (parseIPv6_loop 8 s' [] e) as [r|] eqn:E; [|done]. by rewrite (sloppy_loop_complete _ _ _ _ _ E). }
  unfold parseIPv6, sloppy_parseIPv6. destruct s as [|c1 [|c2 s']]; [apply Hl..|].
  case_decide; [|apply Hl]. destruct s'; [done|apply Hl].
Qed.

Lemma dtoi_ok s n : parse_prefix_len s = Some n → n < scan_big → dtoi s = Some (n, EmptyString).
Proof.
  destruct s as [|c s]; [done|]. simpl. intros Hv Hn.
  rewrite <- (string_app_nil (String c s)). apply dtoi_dec_value; auto with lia.
Qed.

(** What a dotted address needs of its characters keeps the IPv6 parser off it
    and the other way round. *)
Lemma octets_no_colon n : ∀ first s l, sloppy_octets n first s = Some l → has_char colon s = false.
Proof.
  assert (∀ s off acc v rest, dtoi_from s off acc = Some (v, rest) → has_char colon rest = false → has_char colon s = false) as Hd.
  { induction s as [|c s IH]; intros off acc v rest; simpl; [done|].
    destruct (digit c) as [d|] eqn:E; [|by case_match; intros; simplify_eq].
    case_match; [done|]. intros Hx Hr. rewrite (IH _ _ _ _ Hx Hr), orb_false_r.
    apply bool_decide_eq_false_2. by intros ->. }
  induction n as [|n IH]; intros first s l; simpl; [by destruct s|].
  destruct s as [|c s]; [done|]. destruct first; [|case_decide as Ec; [|done]]; simpl.
  - destruct (dtoi _) as [[v rest]|] eqn:E; [|done]. simpl. case_match; [done|].
    destruct (sloppy_octets n false rest) eqn:Eo; [|done]. intros _. exact (Hd (String c s) _ _ _ _ E (IH _ _ _ Eo)).
  - destruct (dtoi _) as [[v rest]|] eqn:E; [|done]. simpl. case_match; [done|].
    destruct (sloppy_octets n false rest) eqn:Eo; [|done]. intros _. subst c. simpl.
    exact (Hd s _ _ _ _ E (IH _ _ _ Eo)).
Qed.

Lemma addr_kind_colon s : addr_kind s = Some colon → has_char colon s = true.
Proof.
  induction s as [|c s IH]; simpl; [done|]. case_decide as E.
  - intros [= ->]. done.
  - intros Hs. by rewrite IH, orb_true_r.
Qed.

Lemma parseIPv4Fields_length s l : parseIPv4Fields s = Some l → length l = 4%nat.
Proof.
  unfold parseIPv4Fields. destruct (split_on dot s) as [|a [|b [|c [|d [|]]]]]; try done.
  destruct (parse_octet a); [simpl|done]. destruct (parse_octet b); [simpl|done].
  destruct (parse_octet c); [simpl|done]. destruct (parse_octet d); [simpl|done]. by intros [= <-].
Qed.

Lemma parseIPv6_length fuel : ∀ s ip e ip' e' s',
  parseIPv6_loop fuel s ip e = Some (ip', e', s') →
  (length ip' <= length ip + 2 * fuel ∨ length ip' <= 16)%nat.
Proof.
  induction fuel as [|fuel IH]; intros s ip e ip' e' s'; simpl; [intros [= <- _ _]; lia|].
  destruct (scan_hex s 0 0) as [[[off acc] rest]|]; [|done]. simpl. case_match; [done|].
  assert (∀ g, length (ip ++ group_bytes g) = (length ip + 2)%nat) as Hg by (intros; by rewrite length_app).
  destruct rest as [|c rest']; [intros [= <- _ _]; rewrite Hg; lia|]. case_decide.
  - case_match; [done|]. case_match eqn:El; [done|]. apply Nat.ltb_ge in El.
    destruct (parseIPv4Fields s) as [v4|] eqn:E4; [|done]. intros [= <- _ _]. rewrite length_app.
    apply parseIPv4Fields_length in E4. lia.
  - case_decide; [|done]. destruct rest' as [|c2 rest'']; [done|].
    assert (∀ s0 e0, parseIPv6_loop fuel s0 (ip ++ group_bytes acc) e0 = Some (ip', e', s') →
      (length ip' <= length ip + 2 * S fuel ∨ length ip' <= 16)%nat) as Hn.
    { intros s0 e0 Hs. apply IH in Hs. rewrite Hg in Hs. lia. }
    case_decide; [|apply Hn]. destruct e; [done|]. destruct rest''; [|apply Hn].
    intros [= <- _ _]. rewrite Hg. lia.
Qed.

(** An address the standard parser accepts is accepted with the same bytes. *)
Lemma sloppy_addr_complete addr ip : ParseAddr addr = Some ip →
  match sloppy_parseIPv4 addr with Some ip => Some ip | None => sloppy_parseIPv6 addr end = Some ip.
Proof.
  unfold ParseAddr. destruct (addr_kind addr) as [c|] eqn:Ek; [|done]. simpl.
  case_match; [done|]. case_decide as Ed.
  - intros H4. by rewrite (sloppy_parseIPv4_complete _ _ H4).
  - intros H6. assert (c = colon) as ->.
    { revert Ek. clear -Ed H. induction addr as [|d addr IH]; simpl in *; [done|]. propify.
      case_decide as E; [|by apply IH]. intros [= ->]. naive_solver. }
    apply addr_kind_colon in Ek.
    destruct (sloppy_parseIPv4 addr) as [l|] eqn:E4; [|by apply sloppy_parseIPv6_complete].
    apply octets_no_colon in E4. congruence.
Qed.

Lemma ParseAddr_length addr ip : ParseAddr addr = Some ip → (length ip <= 16)%nat.
Proof.
  unfold ParseAddr. destruct (addr_kind addr) as [c|]; [|done]. simpl. case_match; [done|]. case_decide.
  - intros ->%parseIPv4Fields_length. lia.
  - assert (∀ s e, parseIPv6_loop 8 s [] e ≫= parseIPv6_finish = Some ip → (length ip <= 16)%nat) as Hl.
    { intros s e. destruct (parseIPv6_loop 8 s [] e) as [[[ip' e'] s']|] eqn:E; [|done].
      apply parseIPv6_length in E. simpl in E. simpl. destruct s'; [|done]. case_match eqn:El.
      - destruct e' as [k|]; [|done]. intros [= <-]. apply Nat.ltb_lt in El.
        rewrite !length_app, length_replicate, length_take, length_drop. lia.
      - apply Nat.ltb_ge in El. destruct e'; [done|]. intros [= <-]. lia. }
    unfold parseIPv6. destruct addr as [|c1 [|c2 s']]; [apply Hl..|]. case_decide; [|apply Hl].
    destruct s'; [intros [= <-]; simpl; lia|apply Hl].
Qed.

Lemma ParseCIDRSloppy_complete s n : ParseCIDR s = Ret n → ParseCIDRSloppy s = Ret n.
Proof.
  unfold ParseCIDR, ParseCIDRSloppy. destruct (cut_on slash s) as [[addr mask]|]; [|done].
  destruct (ParseAddr addr) as [ip|] eqn:Ea; [|done]. destruct (parse_prefix_len mask) as [k|] eqn:Em; [|done].
  destruct (Z.ltb_spec (8 * Z.of_nat (length ip)) k); [done|]. intros [= <-].
  rewrite (sloppy_addr_complete _ _ Ea), (dtoi_ok _ _ Em).
  - destruct (Z.ltb_spec (8 * Z.of_nat (length ip)) k); [lia|done].
  - apply ParseAddr_length in Ea. unfold scan_big. lia.
Qed.

Lemma ParseCIDRSloppy_no_panic s : ParseCIDRSloppy s ≠ Panic.
Proof. unfold ParseCIDRSloppy. repeat case_match; done. Qed.

Lemma ParseCIDRs_no_panic l : ParseCIDRs l ≠ Panic.
Proof.
  induction l as [|s l IH]; simpl; [done|]. pose proof (ParseCIDRSloppy_no_panic s).
  destruct (ParseCIDRSloppy s); [|done..]. by destruct (ParseCIDRs l).
Qed.

Lemma IPFamilyOf_wf w ip : width_ok w → addr_wf w ip → IPFamilyOf ip = if w =? 32 then IPv4 else IPv6.
Proof.
  intros Hw Ha. unfold IPFamilyOf. rewrite (To4_wf w) by done.
  destruct (To16_wf w ip Hw Ha) as [x ->]. by destruct (w =? 32).
Qed.

Lemma RangeSize_bounds n : 0 <= RangeSize n < 2 ^ 63.
Proof.
  unfold RangeSize. destruct (IPMask_Size _) as [ones bits]. case_match; [lia|].
  destruct (Z.leb_spec 63 (bits - ones)); [lia|]. unfold go_shl.
  destruct (Z.ltb_spec (bits - ones) 64); [|lia].
  destruct (Z_lt_le_dec (bits - ones) 0).
  { rewrite Z.shiftl_div_pow2 by lia. split; [apply Z.mod_pos_bound; lia|].
    eapply Z.le_lt_trans; [apply Z.mod_le; [|lia]|].
    - apply Z.div_pos; [lia|]. apply Z.pow_pos_nonneg; lia.
    - eapply Z.le_lt_trans; [apply Z.div_le_upper_bound with (q := 1); [apply Z.pow_pos_nonneg; lia|]|lia].
      pose proof (Z.pow_pos_nonneg 2 (- (bits - ones))). lia. }
  rewrite Z.shiftl_mul_pow2, Z.mul_1_l by lia.
  assert (0 < 2 ^ (bits - ones) <= 2 ^ 62) by (split; [apply Z.pow_pos_nonneg; lia|apply Z.pow_le_mono_r; lia]).
  rewrite Z.mod_small; lia.
Qed.
