(* ===== verification/WorkQueue.v ===== *)
(** * WorkQueue: client-go's rate-limiting work queue

    [k8s.io/client-go/util/workqueue] as the cloud CIDR allocator and the GNP
    controller use it: [Add] coalesces, [Get] marks the key as being processed,
    [Done] re-queues a key that became dirty meanwhile, [AddRateLimited] counts a
    failure and puts the key on the delaying queue, whose timer later [Add]s it,
    [Forget] clears the count.  [retryOrForget] is the body of both controllers'
    [handleErr]. *)

From S2P Require Import Prelude.

Record workqueue : Type := mkQueue {
  q_queue : list string;
  q_dirty : gset string;
  q_processing : gset string;
  (** keys on the delaying queue *)
  q_waiting : gset string;
  (** failures counted by the exponential rate limiter *)
  q_failures : gmap string nat;
  q_shuttingDown : bool
}.

Definition newQueue : workqueue := mkQueue [] ∅ ∅ ∅ ∅ false.

Definition q_Add (k : string) (q : workqueue) : workqueue :=
  if q_shuttingDown q then q
  else if decide (k ∈ q_dirty q) then q
  else mkQueue (if decide (k ∈ q_processing q) then q_queue q else q_queue q ++ [k])
         ({[ k ]} ∪ q_dirty q) (q_processing q) (q_waiting q) (q_failures q) (q_shuttingDown q).

(** [Get] hands out a key, tells the worker to quit, or blocks. *)
Inductive getResult : Type := Item (k : string) (q : workqueue) | Quit | Blocked.

Definition q_Get (q : workqueue) : getResult :=
  match q_queue q with
  | [] => if q_shuttingDown q then Quit else Blocked
  | k :: rest => Item k (mkQueue rest (q_dirty q ∖ {[ k ]}) ({[ k ]} ∪ q_processing q)
                            (q_waiting q) (q_failures q) (q_shuttingDown q))
  end.

Definition q_Done (k : string) (q : workqueue) : workqueue :=
  mkQueue (if decide (k ∈ q_dirty q) then q_queue q ++ [k] else q_queue q)
    (q_dirty q) (q_processing q ∖ {[ k ]}) (q_waiting q) (q_failures q) (q_shuttingDown q).

Definition q_NumRequeues (k : string) (q : workqueue) : nat := default 0 (q_failures q !! k).

Definition q_Forget (k : string) (q : workqueue) : workqueue :=
  mkQueue (q_queue q) (q_dirty q) (q_processing q) (q_waiting q) (delete k (q_failures q)) (q_shuttingDown q).

(** The limiter's delay is at least five milliseconds, so the key waits. *)
Definition q_AddRateLimited (k : string) (q : workqueue) : workqueue :=
  mkQueue (q_queue q) (q_dirty q) (q_processing q)
    (if q_shuttingDown q then q_waiting q else {[ k ]} ∪ q_waiting q)
    (<[ k := S (q_NumRequeues k q) ]> (q_failures q)) (q_shuttingDown q).

(** The timer of a waiting key fires. *)
Definition q_Fire (k : string) (q : workqueue) : workqueue :=
  if decide (k ∈ q_waiting q) then
    q_Add k (mkQueue (q_queue q) (q_dirty q) (q_processing q) (q_waiting q ∖ {[ k ]}) (q_failures q) (q_shuttingDown q))
  else q.

Definition q_ShutDown (q : workqueue) : workqueue :=
  mkQueue (q_queue q) (q_dirty q) (q_processing q) (q_waiting q) (q_failures q) true.

(** Success forgets the key; a failure is retried until the key has failed
    [max] times since it was last forgotten, then the key is dropped.  The flag
    says whether it was. *)
Definition retryOrForget (max : nat) (ok : bool) (k : string) (q : workqueue) : workqueue * bool :=
  if ok then (q_Forget k q, false)
  else if (q_NumRequeues k q <? max)%nat then (q_AddRateLimited k q, false)
  else (q_Forget k q, true).

(** ** Invariant *)

(** The queue holds, once each, the dirty keys no worker has. *)
Record queue_ok (q : workqueue) : Prop := {
  qo_nodup : NoDup (q_queue q);
  qo_mem k : k ∈ q_queue q ↔ k ∈ q_dirty q ∧ k ∉ q_processing q
}.

Lemma newQueue_ok : queue_ok newQueue.
Proof. split; [constructor|]. intros k; simpl. set_solver. Qed.

Lemma q_Add_ok k q : queue_ok q → queue_ok (q_Add k q).
Proof.
  intros [Hn Hm]. unfold q_Add. destruct (q_shuttingDown q); [done|]. case_decide as Hd; [done|].
  assert (k ∉ q_queue q) by (rewrite Hm; tauto).
  split; simpl.
  - case_decide; [done|]. apply NoDup_app. split_and!; [done| |apply NoDup_singleton]. set_solver.
  - intros k'. specialize (Hm k'). case_decide; set_solver.
Qed.

Lemma q_Get_ok q k q' : queue_ok q → q_Get q = Item k q' →
  queue_ok q' ∧ k ∉ q_processing q ∧ q_processing q' = {[ k ]} ∪ q_processing q.
Proof.
  intros [Hn Hm]. unfold q_Get. destruct (q_queue q) as [|x rest] eqn:E; [by destruct (q_shuttingDown q)|].
  intros [= <- <-]. apply NoDup_cons in Hn as [Hx Hn].
  assert (x ∉ q_processing q) by (apply (Hm x); set_solver).
  split; [|done]. split; simpl; [done|]. intros k. specialize (Hm k). set_solver.
Qed.

Lemma q_Done_ok k q : queue_ok q → k ∈ q_processing q → queue_ok (q_Done k q).
Proof.
  intros [Hn Hm] Hk. assert (k ∉ q_queue q) by (rewrite Hm; tauto). split; simpl.
  - case_decide; [|done]. apply NoDup_app. split_and!; [done| |apply NoDup_singleton]. set_solver.
  - intros k'. specialize (Hm k'). case_decide; destruct (decide (k' = k)); set_solver.
Qed.

Lemma retryOrForget_ok max ok k q : queue_ok q → queue_ok (retryOrForget max ok k q).1.
Proof.
  intros [Hn Hm]. unfold retryOrForget. destruct ok; [by split|]. destruct (_ <? _)%nat; by split.
Qed.

Lemma q_Fire_ok k q : queue_ok q → queue_ok (q_Fire k q).
Proof. intros [Hn Hm]. unfold q_Fire. case_decide; [|by split]. apply q_Add_ok. by split. Qed.

(** ** Retries *)
Lemma retry_lookup max k q : (q_NumRequeues k q < max)%nat → q_shuttingDown q = false →
  let q' := (retryOrForget max false k q).1 in
  (retryOrForget max false k q).2 = false ∧ q_NumRequeues k q' = S (q_NumRequeues k q) ∧ k ∈ q_waiting q' ∧
  q_shuttingDown q' = false ∧ q_queue q' = q_queue q ∧ q_dirty q' = q_dirty q ∧ q_processing q' = q_processing q.
Proof.
  intros Hlt Hs. unfold retryOrForget. rewrite (proj2 (Nat.ltb_lt _ _) Hlt). simpl. unfold q_NumRequeues.
  simpl. rewrite lookup_insert_eq, Hs. simpl. repeat split; set_solver.
Qed.

Lemma drop_lookup max k q : (max <= q_NumRequeues k q)%nat →
  let q' := (retryOrForget max false k q).1 in
  (retryOrForget max false k q).2 = true ∧ q_NumRequeues k q' = 0%nat ∧ q_waiting q' = q_waiting q ∧
  q_queue q' = q_queue q ∧ q_dirty q' = q_dirty q ∧ q_processing q' = q_processing q.
Proof.
  intros Hle. unfold retryOrForget. rewrite (proj2 (Nat.ltb_ge _ _) Hle). simpl. unfold q_NumRequeues. simpl.
  by rewrite lookup_delete_eq.
Qed.
