(* ===== verification/NodeSync.v ===== *)
(** * NodeSync: reconciling a node's pod CIDR with its cloud alias

    [pkg/controller/nodeipam/ipam/sync/sync.go].  The three Go interfaces
    [cloudAlias], [kubeAPI] and [controller] are the classes [CloudAlias],
    [KubeAPI] and the timer of [Timeout]; the CIDR set is shared by all syncers
    and is the first half of the state.  [Loop] is one turn of the select, on an
    operation of [opChan] or on the timer. *)

From S2P Require Import Prelude Bits GoNet GoNetText CidrPool K8s Timeout.
Local Open Scope Z_scope.

Class CloudAlias (W : Type) : Type := {
  Alias : Node → io W (option IPNet);
  AddAlias : Node → IPNet → io W unit
}.

Class KubeAPI (W : Type) : Type := {
  api_Node : string → io W Node;
  UpdateNodePodCIDR : Node → IPNet → io W unit;
  UpdateNodeNetworkUnavailable : string → bool → io W unit;
  EmitNodeWarningEvent : string → string → io W unit
}.

Definition InvalidPodCIDR : string := "CloudCIDRAllocatorInvalidPodCIDR".
Definition InvalidModeEvent : string := "CloudCIDRAllocatorInvalidMode".
Definition MismatchEvent : string := "CloudCIDRAllocatorMismatch".

(** [NodeSyncMode] is a string; the controller may be configured with any. *)
Inductive NodeSyncMode : Type := SyncFromCloud | SyncFromCluster | ModeOther (s : string).
#[global] Instance NodeSyncMode_eq_dec : EqDecision NodeSyncMode. Proof. solve_decision. Defined.

Definition IsValidMode (m : NodeSyncMode) : bool :=
  match m with SyncFromCloud | SyncFromCluster => true | ModeOther _ => false end.

(** [syncOp]. *)
Inductive syncOp : Type := updateOp (node : option Node) | deleteOp (node : Node).

(** One [NodeSync]: its own timer, its channel and whether it is closed. *)
Record NodeSync : Type := mkSync {
  ns_c : Timeout;
  ns_mode : NodeSyncMode;
  ns_nodeName : string;
  opChan : list syncOp;
  ns_closed : bool
}.

(** [New]: the cloud, the API and the set are shared. *)
Definition New (c : Timeout) (mode : NodeSyncMode) (nodeName : string) : NodeSync :=
  mkSync c mode nodeName [] false.

(** [NodeSync.Update] and [NodeSync.Delete]; a send on a closed channel panics. *)
Definition sync_Update (s : NodeSync) (node : Node) : outcome NodeSync :=
  if ns_closed s then Panic
  else Ret (mkSync (ns_c s) (ns_mode s) (ns_nodeName s) (opChan s ++ [updateOp (Some node)]) false).
Definition sync_Delete (s : NodeSync) (node : Node) : outcome NodeSync :=
  if ns_closed s then Panic
  else Ret (mkSync (ns_c s) (ns_mode s) (ns_nodeName s) (opChan s ++ [deleteOp node]) true).

Section sync.
Context {P : Type} `{CidrPool P} {W : Type} `{CloudAlias W} `{KubeAPI W}.

Abbreviation M := (io (P * W)).

(** A method of the shared set. *)
Definition on_set {A} (f : P → outcome A * P) : M A := λ '(p, w), let '(r, p') := f p in (r, (p', w)).

Definition validateRange (node : Node) (aliasRange : IPNet) : M unit :=
  if bool_decide (PodCIDR (Spec node) ≠ IPNet_String aliasRange)
  then on_snd (EmitNodeWarningEvent (node_Name node) MismatchEvent)
  else mret tt.

Definition updateNodeFromAlias (mode : NodeSyncMode) (node : Node) (aliasRange : IPNet) : M unit :=
  if bool_decide (mode ≠ SyncFromCloud) then
    _ ← on_snd (EmitNodeWarningEvent (node_Name node) InvalidModeEvent);
    fail (Errorf "cannot sync from cloud in mode %q")
  else
    _ ← on_set (λ p, pool_occupy p (Some aliasRange));
    _ ← on_snd (UpdateNodePodCIDR node aliasRange);
    on_snd (UpdateNodeNetworkUnavailable (node_Name node) false).

Definition updateAliasFromNode (mode : NodeSyncMode) (node : Node) : M unit :=
  if bool_decide (mode ≠ SyncFromCluster) then
    _ ← on_snd (EmitNodeWarningEvent (node_Name node) InvalidModeEvent);
    fail (Errorf "cannot sync to cloud in mode %q")
  else
    aliasRange ← lift (ParseCIDR (PodCIDR (Spec node)));
    _ ← on_set (λ p, pool_occupy p (Some aliasRange));
    _ ← on_snd (AddAlias node aliasRange);
    on_snd (UpdateNodeNetworkUnavailable (node_Name node) false).

Definition allocateRange (mode : NodeSyncMode) (node : Node) : M unit :=
  if bool_decide (mode ≠ SyncFromCluster) then
    _ ← on_snd (EmitNodeWarningEvent (node_Name node) InvalidModeEvent);
    fail (Errorf "controller cannot allocate CIDRS in mode %q")
  else
    cidrRange ← on_set pool_alloc;
    _ ← on_snd (AddAlias node cidrRange);
    _ ← on_snd (UpdateNodePodCIDR node cidrRange);
    on_snd (UpdateNodeNetworkUnavailable (node_Name node) false).

(** [updateOp.run]. *)
Definition updateOp_run (mode : NodeSyncMode) (nodeName : string) (opnode : option Node) : M unit :=
  node ← match opnode with Some n => mret n | None => on_snd (api_Node nodeName) end;
  aliasRange ← on_snd (Alias node);
  match bool_decide (PodCIDR (Spec node) = EmptyString), aliasRange with
  | true, None => allocateRange mode node
  | true, Some a => updateNodeFromAlias mode node a
  | false, None => updateAliasFromNode mode node
  | false, Some a => validateRange node a
  end.

(** [deleteOp.run]: the error of [Release] is dropped. *)
Definition deleteOp_run (node : Node) : M unit :=
  if bool_decide (PodCIDR (Spec node) = EmptyString) then mret tt
  else
    r ← try (lift (ParseCIDR (PodCIDR (Spec node))));
    match r with
    | inl _ => on_snd (EmitNodeWarningEvent (node_Name node) InvalidPodCIDR)
    | inr cidrRange => _ ← try (on_set (λ p, pool_release p (Some cidrRange))); mret tt
    end.

Definition run (s : NodeSync) (op : syncOp) : M unit :=
  match op with
  | updateOp n => updateOp_run (ns_mode s) (ns_nodeName s) n
  | deleteOp n => deleteOp_run n
  end.

(** [sync.c.ReportResult(err)]. *)
Definition ReportResult (r : error + unit) (s : NodeSync) (q : list syncOp) : NodeSync :=
  mkSync (Update (ns_c s) (match r with inr _ => true | inl _ => false end)) (ns_mode s) (ns_nodeName s) q (ns_closed s).

(** One turn of [Loop]: [None] when it returns. [timer] tells which case of the
    select fired; the channel can only be chosen when it holds an operation or
    is closed. *)
Definition Loop (timer : bool) (s : NodeSync) : M (option NodeSync) :=
  if timer then
    r ← try (run s (updateOp None));
    mret (Some (ReportResult r s (opChan s)))
  else
    match opChan s with
    | op :: q => r ← try (run s op); mret (Some (ReportResult r s q))
    | [] => if ns_closed s then mret None else mret (Some s)
    end.
End sync.

(** ** The world the syncer runs against

    [alias_of]: the alias range of a node in the cloud; [pod_of]: the pod CIDR of
    the node object.  A failed write may or may not have taken effect. *)
Class SyncWorld (W : Type) `{CloudAlias W} `{KubeAPI W} : Type := {
  alias_of : W → string → option IPNet;
  pod_of : W → string → option string;
  same_world (w w' : W) : Prop := alias_of w' = alias_of w ∧ pod_of w' = pod_of w;
  sw_Alias n w : let '(r, w') := Alias n w in
    r ≠ Panic ∧ same_world w w' ∧ ∀ a, r = Ret a → a = alias_of w (node_Name n);
  sw_AddAlias n c w : let '(r, w') := AddAlias n c w in
    r ≠ Panic ∧ pod_of w' = pod_of w ∧ (∀ m, m ≠ node_Name n → alias_of w' m = alias_of w m) ∧
    (r = Ret tt → alias_of w' (node_Name n) = Some c);
  sw_Node name w : let '(r, w') := api_Node name w in
    r ≠ Panic ∧ same_world w w' ∧ ∀ n, r = Ret n → node_Name n = name ∧ pod_of w name = Some (PodCIDR (Spec n));
  sw_PodCIDR n c w : let '(r, w') := UpdateNodePodCIDR n c w in
    r ≠ Panic ∧ alias_of w' = alias_of w ∧ (∀ m, m ≠ node_Name n → pod_of w' m = pod_of w m) ∧
    (r = Ret tt → pod_of w' (node_Name n) = Some (IPNet_String c));
  sw_Unavailable n b w : let '(r, w') := UpdateNodeNetworkUnavailable n b w in r ≠ Panic ∧ same_world w w';
  sw_Event n s w : let '(r, w') := EmitNodeWarningEvent n s w in r = Ret tt ∧ same_world w w'
}.
