(* ===== verification/NodeSyncProps.v ===== *)
(** * NodeSyncProps: the properties of the node sync loop

    Convergence of an update, what an operation may do to the shared set, the
    backoff of the timer, the end of a closed loop, and the state in which
    cluster mode never recovers. *)

From S2P Require Import Prelude Bits GoNet GoNetText CidrSet CidrSetIndex CidrSetOps CidrPool CidrSetProps.
From S2P Require Import K8s Timeout NodeSync.
Local Open Scope Z_scope.

Section facts.
Context {P : Type} `{CidrPoolSpec P} {W : Type} `{SyncWorld W}.

(** The world after a call seen through its specification. *)
Lemma on_snd_eq {A} (m : io W A) (p : P) w : on_snd m (p, w) = let '(r, w') := m w in (r, (p, w')).
Proof. done. Qed.

Lemma same_world_trans w1 w2 w3 : same_world w1 w2 → same_world w2 w3 → same_world w1 w3.
Proof. intros [E1 E2] [E3 E4]. split; congruence. Qed.

(** Inversion of a successful sequence. *)
Lemma bind_ret {A B} (m : io (P * W) A) (f : A → io (P * W) B) st b st' :
  (m ≫= f) st = (Ret b, st') → ∃ a st1, m st = (Ret a, st1) ∧ f a st1 = (Ret b, st').
Proof. rewrite io_bind_eq. destruct (m st) as [[a|e|] st1]; [|done|done]. intros E. by exists a, st1. Qed.

Lemma on_snd_ret {A} (m : io W A) (p : P) w a st :
  on_snd m (p, w) = (Ret a, st) → ∃ w', m w = (Ret a, w') ∧ st = (p, w').
Proof. rewrite on_snd_eq. destruct (m w) as [r w']. intros [= -> <-]. by exists w'. Qed.

Lemma on_set_ret {A} (f : P → outcome A * P) (p : P) (w : W) a st :
  on_set f (p, w) = (Ret a, st) → ∃ p', f p = (Ret a, p') ∧ st = (p', w).
Proof. unfold on_set. destruct (f p) as [r p']. intros [= -> <-]. by exists p'. Qed.

(** The last call of every branch. *)
Lemma unavailable_ret name b (p : P) w st : on_snd (UpdateNodeNetworkUnavailable name b) (p, w) = (Ret tt, st) →
  ∃ w', st = (p, w') ∧ same_world w w'.
Proof.
  intros (w' & E & ->)%on_snd_ret. exists w'. split; [done|].
  pose proof (sw_Unavailable name b w) as S. rewrite E in S. apply S.
Qed.

(** What a successful update leaves behind for its node and the others. *)
Record converged (name : string) (a : IPNet) (s : string) (w w' : W) : Prop := {
  cv_alias : alias_of w' name = Some a;
  cv_pod : pod_of w' name = Some s;
  cv_text : ParseCIDR s = Ret a;
  cv_others : ∀ m, m ≠ name → alias_of w' m = alias_of w m ∧ pod_of w' m = pod_of w m
}.

Lemma converged_same name a s w1 w2 w3 w4 : same_world w1 w2 → same_world w3 w4 →
  converged name a s w2 w3 → converged name a s w1 w4.
Proof.
  intros [E1 E2] [E3 E4] [C1 C2 C3 C4]. split; rewrite ?E3, ?E4; try done.
  intros m Hm. rewrite <- E1, <- E2. by apply C4.
Qed.

Lemma allocate_ret mode node (p : P) w st : pool_ok p → allocateRange mode node (p, w) = (Ret tt, st) →
  ∃ n, pool_alloc p = (Ret n, st.1) ∧ converged (node_Name node) n (IPNet_String n) w st.2.
Proof.
  intros Hp. unfold allocateRange. case_bool_decide.
  { intros (? & st1 & _ & ?)%bind_ret. done. }
  intros (n & st1 & (p1 & Ea & ->)%on_set_ret & E)%bind_ret.
  apply bind_ret in E as ([] & st2 & (w2 & E2 & ->)%on_snd_ret & E).
  apply bind_ret in E as ([] & st3 & (w3 & E3 & ->)%on_snd_ret & E).
  apply unavailable_ret in E as (w4 & -> & S4). exists n. split; [done|].
  pose proof (sw_AddAlias node n w) as SA. rewrite E2 in SA. destruct SA as (_ & A1 & A2 & A3).
  pose proof (sw_PodCIDR node n w2) as SP. rewrite E3 in SP. destruct SP as (_ & B1 & B2 & B3).
  pose proof (pool_alloc_spec p Hp) as S. rewrite Ea in S. destruct S as (Hb & _).
  eapply (converged_same _ _ _ w w w3 w4); [done|done|]. split; [by rewrite B1, A3|by apply B3|by eapply block_text|].
  intros m Hm. by rewrite B1, (A2 m Hm), (B2 m Hm), A1.
Qed.

Lemma from_alias_ret mode node a (p : P) w st : cidr_wf a → alias_of w (node_Name node) = Some a →
  updateNodeFromAlias mode node a (p, w) = (Ret tt, st) →
  mode = SyncFromCloud ∧ pool_occupy p (Some a) = (Ret tt, st.1) ∧ converged (node_Name node) a (IPNet_String a) w st.2.
Proof.
  intros Hw Ha. unfold updateNodeFromAlias. case_bool_decide as Em.
  { intros (? & st1 & _ & ?)%bind_ret. done. }
  intros ([] & st1 & (p1 & Ea & ->)%on_set_ret & E)%bind_ret.
  apply bind_ret in E as ([] & st3 & (w3 & E3 & ->)%on_snd_ret & E).
  apply unavailable_ret in E as (w4 & -> & S4). split; [done|]. split; [done|].
  pose proof (sw_PodCIDR node a w) as SP. rewrite E3 in SP. destruct SP as (_ & B1 & B2 & B3).
  eapply (converged_same _ _ _ w w w3 w4); [done|done|]. split; [by rewrite B1|by apply B3| |].
  - destruct Hw as (w0 & k & Hw). by eapply ParseCIDR_String.
  - intros m Hm. by rewrite B1, (B2 m Hm).
Qed.

Lemma from_node_ret mode node (p : P) w st : pod_of w (node_Name node) = Some (PodCIDR (Spec node)) →
  updateAliasFromNode mode node (p, w) = (Ret tt, st) →
  ∃ a, mode = SyncFromCluster ∧ pool_occupy p (Some a) = (Ret tt, st.1) ∧
    converged (node_Name node) a (PodCIDR (Spec node)) w st.2.
Proof.
  intros Hpod. unfold updateAliasFromNode. case_bool_decide as Em.
  { intros (? & st1 & _ & ?)%bind_ret. done. }
  intros (a & st0 & E0 & E)%bind_ret. unfold lift in E0. injection E0 as E0 <-.
  apply bind_ret in E as ([] & st1 & (p1 & Ea & ->)%on_set_ret & E).
  apply bind_ret in E as ([] & st3 & (w3 & E3 & ->)%on_snd_ret & E).
  apply unavailable_ret in E as (w4 & -> & S4). exists a. split; [done|]. split; [done|].
  pose proof (sw_AddAlias node a w) as SA. rewrite E3 in SA. destruct SA as (_ & A1 & A2 & A3).
  eapply (converged_same _ _ _ w w w3 w4); [done|done|]. split; [by apply A3|by rewrite A1|done|].
  intros m Hm. by rewrite (A2 m Hm), A1.
Qed.

(** ** What an operation does to the set *)
Definition grows (p p' : P) : Prop :=
  pool_ok p' ∧ (∀ n, pool_block p' n ↔ pool_block p n) ∧ ∀ n, pool_held p n → pool_held p' n.

Lemma grows_refl p : pool_ok p → grows p p.
Proof. done. Qed.
Lemma grows_trans p1 p2 p3 : grows p1 p2 → grows p2 p3 → grows p1 p3.
Proof. intros (O1 & B1 & K1) (O2 & B2 & K2). split; [done|]. split; [intros n; by rewrite B2|auto]. Qed.

(** Programs that never panic and never lose a held block. *)
Definition safe {A} (m : io (P * W) A) : Prop :=
  ∀ p w, pool_ok p → (m (p, w)).1 ≠ Panic ∧ grows p (m (p, w)).2.1.

Lemma safe_bind {A B} (m : io (P * W) A) (f : A → io (P * W) B) : safe m → (∀ a, safe (f a)) → safe (m ≫= f).
Proof.
  intros Hm Hf p w Hp. specialize (Hm p w Hp). rewrite io_bind_eq. destruct (m (p, w)) as [[a|e|] [p1 w1]]; simpl in *; [|split; [done|apply Hm]|by destruct Hm].
  destruct Hm as [_ G1]. destruct (Hf a p1 w1 (proj1 G1)) as [N2 G2]. split; [done|]. by eapply grows_trans.
Qed.

Lemma safe_world {A} (m : io W A) : (∀ w, (m w).1 ≠ Panic) → safe (on_snd m).
Proof. intros Hm p w Hp. rewrite on_snd_eq. specialize (Hm w). destruct (m w) as [r w']. by split. Qed.

Lemma safe_fail {A} e : safe (fail (A := A) e).
Proof. intros p w Hp. by split. Qed.

Lemma safe_event n x : safe (on_snd (EmitNodeWarningEvent n x)).
Proof. apply safe_world. intros w. pose proof (sw_Event n x w) as S. destruct (EmitNodeWarningEvent n x w). by destruct S as [-> _]. Qed.
Lemma safe_pod n c : safe (on_snd (UpdateNodePodCIDR n c)).
Proof. apply safe_world. intros w. pose proof (sw_PodCIDR n c w) as S. destruct (UpdateNodePodCIDR n c w). apply S. Qed.
Lemma safe_add n c : safe (on_snd (AddAlias n c)).
Proof. apply safe_world. intros w. pose proof (sw_AddAlias n c w) as S. destruct (AddAlias n c w). apply S. Qed.
Lemma safe_unavailable n b : safe (on_snd (UpdateNodeNetworkUnavailable n b)).
Proof. apply safe_world. intros w. pose proof (sw_Unavailable n b w) as S. destruct (UpdateNodeNetworkUnavailable n b w). apply S. Qed.

Lemma safe_occupy c : cidr_wf c → safe (on_set (λ p, pool_occupy p (Some c))).
Proof.
  intros Hc p w Hp. unfold on_set. pose proof (pool_occupy_spec p c Hp Hc) as S.
  destruct (pool_occupy p (Some c)) as [[u|e|] p']; [|by destruct S as [-> _]|done].
  destruct S as (S1 & S2 & S3). split; [done|]. split; [done|]. split; [done|].
  intros n Hn. apply (S3 n (pool_held_block p n Hn)). by left.
Qed.

Lemma safe_alloc : safe (on_set pool_alloc).
Proof.
  intros p w Hp. unfold on_set. pose proof (pool_alloc_spec p Hp) as S.
  destruct (pool_alloc p) as [[n|e|] p']; [|by destruct S as [-> _]|done].
  destruct S as (_ & _ & S1 & S2 & S3). split; [done|]. split; [done|]. split; [done|].
  intros m Hm. apply (S3 m (pool_held_block p m Hm)). by left.
Qed.

Hint Resolve safe_fail safe_event safe_pod safe_add safe_unavailable safe_alloc safe_occupy : ipam.

Lemma update_branches mode node :
  safe (allocateRange mode node) ∧ (∀ a, cidr_wf a → safe (updateNodeFromAlias mode node a)) ∧
  (plain_cidr (PodCIDR (Spec node)) → safe (updateAliasFromNode mode node)) ∧ ∀ a, safe (validateRange node a).
Proof.
  assert (R : safe (mret tt : io (P * W) unit)) by (by intros p w Hp; split).
  split_and!; [|intros a Ha|intros Hpl|intros a].
  - unfold allocateRange. case_bool_decide; repeat (apply safe_bind; [auto with ipam|intros ?]); auto with ipam.
  - unfold updateNodeFromAlias. case_bool_decide; repeat (apply safe_bind; [auto with ipam|intros ?]); auto with ipam.
  - unfold updateAliasFromNode. case_bool_decide; [repeat (apply safe_bind; [auto with ipam|intros ?]); auto with ipam|].
    intros p w Hp. rewrite io_bind_eq. unfold lift. destruct (ParseCIDR (PodCIDR (Spec node))) as [a|e|] eqn:E;
      [|by split|by apply ParseCIDR_no_panic in E]. specialize (Hpl a E).
    revert p w Hp. change (safe (on_set (λ p, pool_occupy p (Some a)) ≫= λ _, on_snd (AddAlias node a) ≫= λ _,
      on_snd (UpdateNodeNetworkUnavailable (node_Name node) false))).
    repeat (apply safe_bind; [auto with ipam|intros ?]). auto with ipam.
  - unfold validateRange. case_bool_decide; auto with ipam.
Qed.

(** The node and the alias an update starts from. *)
Definition update_from (nodeName : string) (opnode : option Node) (w : W) (node : Node) (alias : option IPNet) (w1 : W) : Prop :=
  same_world w w1 ∧ alias = alias_of w (node_Name node) ∧
  match opnode with
  | Some n => node = n
  | None => node_Name node = nodeName ∧ pod_of w nodeName = Some (PodCIDR (Spec node))
  end.

Definition update_body (mode : NodeSyncMode) (node : Node) (alias : option IPNet) : io (P * W) unit :=
  match bool_decide (PodCIDR (Spec node) = EmptyString), alias with
  | true, None => allocateRange mode node
  | true, Some a => updateNodeFromAlias mode node a
  | false, None => updateAliasFromNode mode node
  | false, Some a => validateRange node a
  end.

(** The reads of [updateOp.run]. *)
Lemma updateOp_split mode name opnode (p : P) w :
  (∃ e w1, updateOp_run mode name opnode (p, w) = (Err e, (p, w1)) ∧ same_world w w1) ∨
  (∃ node alias w1, update_from name opnode w node alias w1 ∧
     updateOp_run mode name opnode (p, w) = update_body mode node alias (p, w1)).
Proof.
  unfold updateOp_run. rewrite io_bind_eq.
  assert (Hn : ∃ r w1, match opnode with Some n => mret n | None => on_snd (api_Node name) end (p, w) = (r, (p, w1)) ∧
    r ≠ Panic ∧ same_world w w1 ∧ ∀ n, r = Ret n → match opnode with Some n' => n = n'
      | None => node_Name n = name ∧ pod_of w name = Some (PodCIDR (Spec n)) end).
  { destruct opnode as [n|]; [exists (Ret n), w; by repeat split; try intros ? [= ->]|].
    rewrite on_snd_eq. pose proof (sw_Node name w) as S. destruct (api_Node name w) as [r w1].
    exists r, w1. split; [done|]. apply S. }
  destruct Hn as (r & w1 & -> & N1 & S1 & R1). destruct r as [node|e|]; [|left; by exists e, w1|done].
  rewrite io_bind_eq, on_snd_eq. pose proof (sw_Alias node w1) as SA.
  destruct (Alias node w1) as [[a|e|] w2]; destruct SA as (N2 & S2 & R2); [|left|done].
  - right. exists node, a, w2. split; [|done]. split; [by eapply same_world_trans|].
    split; [rewrite (R2 a eq_refl); by destruct S1 as [-> _]|by apply R1].
  - exists e, w2. split; [done|]. by eapply same_world_trans.
Qed.
End facts.

(** ** A world to evaluate the syncer on *)
Record SyncDemo : Type := mkDemo {
  sd_alias : gmap string IPNet; sd_pod : gmap string string;
  (** the next requests to set a pod CIDR that fail *)
  sd_fail : nat
}.

#[global] Instance SyncDemo_alias : CloudAlias SyncDemo := {
  Alias n := λ w, (Ret (sd_alias w !! node_Name n), w);
  AddAlias n c := λ w, (Ret tt, mkDemo (<[ node_Name n := c ]> (sd_alias w)) (sd_pod w) (sd_fail w))
}.
#[global] Instance SyncDemo_kube : KubeAPI SyncDemo := {
  api_Node name := λ w, (match sd_pod w !! name with
    | Some c => Ret (mkNode name name ∅ ∅ (mkSpec c [] EmptyString []) (mkStatus ∅ []))
    | None => Err (ErrStatus ReasonNotFound) end, w);
  UpdateNodePodCIDR n c := λ w, match sd_fail w with
    | O => (Ret tt, mkDemo (sd_alias w) (<[ node_Name n := IPNet_String c ]> (sd_pod w)) O)
    | S k => (Err (ErrStatus ReasonServerTimeout), mkDemo (sd_alias w) (sd_pod w) k) end;
  UpdateNodeNetworkUnavailable _ _ := λ w, (Ret tt, w);
  EmitNodeWarningEvent _ _ := λ w, (Ret tt, w)
}.
#[global, program] Instance SyncDemo_world : SyncWorld SyncDemo := {
  alias_of w n := sd_alias w !! n; pod_of w n := sd_pod w !! n
}.
Next Obligation. intros n w. simpl. split; [done|]. split; [done|]. by intros a [= <-]. Qed.
Next Obligation.
  intros n c w. simpl. split; [done|]. split; [done|]. split; [|intros _; apply lookup_insert_eq].
  intros m Hm. by rewrite lookup_insert_ne.
Qed.
Next Obligation.
  intros name w. simpl. destruct (sd_pod w !! name) eqn:E; (split; [done|]); (split; [done|]); [|done].
  intros n [= <-]. by simpl.
Qed.
Next Obligation.
  intros n c w. simpl. destruct (sd_fail w); simpl; (split; [done|]); (split; [done|]); [|by split].
  split; [intros m Hm; by rewrite lookup_insert_ne|intros _; apply lookup_insert_eq].
Qed.
Next Obligation. done. Qed.
Next Obligation. done. Qed.



(** Operations and the shared set. No operation of a syncer panics, changes
    the geometry of the set or breaks its invariant; an update never frees a
    held block, and a delete frees only blocks that meet the deleted node's pod
    CIDR. *)
Theorem sync_set_effect {P W : Type} `{CidrPoolSpec P} `{SyncWorld W} s op (p : P) (w : W)
    (Hp : pool_ok p) (Halias : ∀ n a, alias_of w n = Some a → cidr_wf a)
    (Hpods : ∀ n x, pod_of w n = Some x → plain_cidr x)
    (Hop : match op with updateOp (Some n) | deleteOp n => plain_cidr (PodCIDR (Spec n)) | updateOp None => True end) :
  let '(r, (p', w')) := run s op (p, w) in
  r ≠ Panic ∧ pool_ok p' ∧ (∀ n, pool_block p' n ↔ pool_block p n) ∧
  ∀ n, pool_held p n →
    match op with
    | updateOp _ => pool_held p' n
    | deleteOp node => (∀ c, ParseCIDR (PodCIDR (Spec node)) = Ret c → ¬ meets n c) → pool_held p' n
    end.
Proof.
  destruct op as [opnode|node]; cbn [run].
  - destruct (updateOp_split (ns_mode s) (ns_nodeName s) opnode p w) as [(e & w1 & -> & _)|(node & alias & w1 & (S1 & Ea & En) & ->)];
      [by split|].
    assert (Hpl : plain_cidr (PodCIDR (Spec node))) by (destruct opnode as [n|]; [by subst|by eapply Hpods, En]).
    destruct (update_branches (ns_mode s) node) as (B1 & B2 & B3 & B4).
    assert (B : safe (update_body (ns_mode s) node alias)).
    { unfold update_body. case_bool_decide; destruct alias as [a|]; try done; [|by apply B3]. by eapply B2, Halias. }
    destruct (B p w1 Hp) as [N (G1 & G2 & G3)]. by destruct (update_body _ _ _ (p, w1)) as [r [p' w']].
  - unfold deleteOp_run. case_bool_decide; [by split|]. rewrite io_bind_eq. unfold try, lift.
    destruct (ParseCIDR (PodCIDR (Spec node))) as [c|e|] eqn:Ec; [| |by apply ParseCIDR_no_panic in Ec].
    + rewrite io_bind_eq. unfold on_set. pose proof (pool_release_spec p c Hp (Hop c Ec)) as S.
      destruct (pool_release p (Some c)) as [[u|e|] p']; [| |done].
      * destruct S as (S1 & S2 & S3). split; [done|]. split; [done|]. split; [done|].
        intros n Hn Hc. apply (S3 n (pool_held_block p n Hn)). split; [done|]. by apply Hc.
      * destruct S as [-> _]. by split.
    + rewrite on_snd_eq. pose proof (sw_Event (node_Name node) InvalidPodCIDR w) as SE.
      destruct (EmitNodeWarningEvent _ _ w) as [r w2]. destruct SE as [-> _]. by split.
Qed.

Lemma sync_set_effect_witness :
  let '(r, (p', _)) := run (New (newTimeout 30 10 1) SyncFromCluster "a") (updateOp None)
    (demo4, mkDemo ∅ {[ "a"%string := EmptyString ]} O) in r ≠ Panic ∧ pool_ok p'.
Proof.
  pose proof (sync_set_effect (New (newTimeout 30 10 1) SyncFromCluster "a") (updateOp None) demo4
    (mkDemo ∅ {[ "a"%string := EmptyString ]} O) (set_ok_intro 32 demo4 demo4_wf)) as T.
  destruct (run _ (updateOp None) _) as [r [p' w']]. destruct T as (N & O & _).
  - discriminate.
  - intros n x E. unfold pod_of in E. simpl in E. apply lookup_singleton_Some in E as [_ <-]. intros c Ec. vm_compute in Ec. discriminate.
  - exact I.
  - exact (conj N O).
Defined.

(** [k] timer turns of a syncer. *)
Fixpoint turns {P W} `{CidrPool P} `{CloudAlias W} `{KubeAPI W} (k : nat) (mode : NodeSyncMode) (name : string) (st : P * W) : P * W :=
  match k with O => st | S k => turns k mode name (updateOp_run mode name None st).2 end.

(** In cluster mode a node whose alias is set and whose pod CIDR is empty is
    never repaired: every further update fails with the invalid-mode error,
    changes neither the set nor the cloud nor the node. This is the state
    [allocateRange] leaves when the alias was added and the write of the pod
    CIDR failed. *)
Theorem sync_cluster_mode_stuck {P W : Type} `{CidrPoolSpec P} `{SyncWorld W} k name a (p : P) (w : W)
    (Ha : alias_of w name = Some a) (Hpod : pod_of w name = Some EmptyString) :
  let '(p', w') := turns k SyncFromCluster name (p, w) in
  p' = p ∧ same_world w w' ∧ is_ret (updateOp_run SyncFromCluster name None (p', w')).1 = false.
Proof.
  assert (Hone : ∀ w1, same_world w w1 → ∃ e w2, updateOp_run SyncFromCluster name None (p, w1) = (Err e, (p, w2)) ∧ same_world w w2).
  { intros w1 S1. destruct (updateOp_split SyncFromCluster name None p w1) as [(e & w2 & E & S2)|(node & alias & w2 & (S2 & Ea & En & Ep) & E)].
    { exists e, w2. split; [done|]. by eapply same_world_trans. }
    destruct S1 as [A1 P1]. rewrite P1, Hpod in Ep. injection Ep as Ep. rewrite A1, En, Ha in Ea. subst alias.
    rewrite E. unfold update_body. rewrite <- Ep. rewrite bool_decide_eq_true_2 by done.
    unfold updateNodeFromAlias. rewrite bool_decide_eq_true_2 by done. rewrite io_bind_eq, on_snd_eq.
    pose proof (sw_Event (node_Name node) InvalidModeEvent w2) as SE. destruct (EmitNodeWarningEvent _ _ w2) as [r w3].
    destruct SE as [-> S3]. eexists _, w3. split; [done|]. eapply same_world_trans; [|exact S3]. by eapply same_world_trans; [|exact S2]. }
  enough (G : ∀ w1, same_world w w1 → let '(p', w') := turns k SyncFromCluster name (p, w1) in
    p' = p ∧ same_world w w' ∧ is_ret (updateOp_run SyncFromCluster name None (p', w')).1 = false) by by apply G.
  induction k as [|k IH]; intros w1 S1; destruct (Hone w1 S1) as (e & w2 & E & S2); cbn [turns].
  - split; [done|]. split; [done|]. by rewrite E.
  - rewrite E. by apply IH.
Qed.

(** The state is reached: the first update adds the alias and fails to write the node. *)
Lemma sync_cluster_mode_stuck_witness :
  let st := (updateOp_run SyncFromCluster "a" None (demo4, mkDemo ∅ {[ "a"%string := EmptyString ]} 1)).2 in
  let '(p', w') := turns 5 SyncFromCluster "a" st in
  p' = st.1 ∧ same_world st.2 w' ∧ is_ret (updateOp_run SyncFromCluster "a" None (p', w')).1 = false.
Proof.
  assert (E : (updateOp_run SyncFromCluster "a" None (demo4, mkDemo ∅ {[ "a"%string := EmptyString ]} 1)).2
    = ((AllocateNext demo4).2, mkDemo {[ "a"%string := net4 10 0 0 0 24 ]} {[ "a"%string := EmptyString ]} 0)) by (vm_compute; reflexivity).
  rewrite E. apply (sync_cluster_mode_stuck 5 "a" (net4 10 0 0 0 24)); vm_compute; reflexivity.
Defined.

(** The resync timer. After [k] consecutive errors since the last success the
    next delay is the default interval for [k = 0] and otherwise the initial
    retry doubled [k - 1] times, capped at the maximum backoff; one success
    restores the default. *)
Theorem timeout_backoff b k (Hb : timeout_inv b) (He : errs b = 0) (Hk : Z.of_nat k < 2 ^ 62) :
  Next (failures k b) = (if (k =? 0)%nat then Resync b else Z.min (MaxBackoff b) (InitialRetry b * 2 ^ (Z.of_nat k - 1))) ∧
  ((0 < k)%nat → InitialRetry b <= Next (failures k b) <= MaxBackoff b) ∧
  Next (Update (failures k b) true) = Resync b.
Proof.
  destruct (failures_inv k b Hb He Hk) as ((C & _ & N) & E & M & I & R).
  assert (EN : Next (failures k b) = if (k =? 0)%nat then Resync b
    else Z.min (MaxBackoff b) (InitialRetry b * 2 ^ (Z.of_nat k - 1))).
  { rewrite N. unfold backoff. rewrite E, M, I, R. destruct k; [done|]. simpl.
    destruct (Z.eqb_spec (Z.of_nat (S k)) 0); [lia|done]. }
  split; [done|]. split; [|cbn; by rewrite R].
  intros Hpos. rewrite EN. destruct k as [|k]; [lia|]. simpl. destruct Hb as ([Hi Hm] & _).
  pose proof (pow2_pos (Z.of_nat (S k) - 1) ltac:(lia)). nia.
Qed.

Lemma timeout_backoff_witness : Next (failures 4 (newTimeout 30000 10000 250)) = 2000.
Proof.
  destruct (timeout_backoff (newTimeout 30000 10000 250) 4) as (E & _);
    [apply newTimeout_inv; lia|reflexivity|lia|]. rewrite E. reflexivity.
Defined.

(** Channel turns of a loop until it returns or panics. *)
Fixpoint drain {P W} `{CidrPool P} `{CloudAlias W} `{KubeAPI W} (fuel : nat) (s : NodeSync) (st : P * W) : option (outcome unit * (P * W)) :=
  match fuel with
  | O => None
  | S fuel =>
      match Loop false s st with
      | (Ret None, st') => Some (Ret tt, st')
      | (Ret (Some s'), st') => drain fuel s' st'
      | (Err e, st') => Some (Err e, st')
      | (Panic, st') => Some (Panic, st')
      end
  end.

(** The loop of a deleted node ends. Once [Delete] has closed the channel, a
    loop with [n] pending operations returns after at most [n + 1] turns on the
    channel, whatever the cloud and the API answer. *)
Theorem closed_loop_ends {P W : Type} `{CidrPool P} `{CloudAlias W} `{KubeAPI W} s (st : P * W)
    (Hclosed : ns_closed s = true) :
  ∃ r st', drain (S (length (opChan s))) s st = Some (r, st') ∧ (r = Ret tt ∨ r = Panic).
Proof.
  remember (opChan s) as q eqn:Eq. revert s st Hclosed Eq. induction q as [|op q IH]; intros s st Hc Eq; cbn [drain].
  - unfold Loop. rewrite <- Eq, Hc. eexists _, _. split; [done|by left].
  - unfold Loop. rewrite <- Eq, io_bind_eq. unfold try.
    destruct (run s op st) as [[u|e|] st1]; [| |eexists _, _; split; [done|by right]].
    all: apply IH; done.
Qed.

Lemma closed_loop_ends_witness : ∃ r st',
  drain 2 (mkSync (newTimeout 30 10 1) SyncFromCloud "a" [updateOp None] true) (demo4, mkDemo ∅ ∅ 0) = Some (r, st').
Proof.
  destruct (closed_loop_ends (mkSync (newTimeout 30 10 1) SyncFromCloud "a" [updateOp None] true) (demo4, mkDemo ∅ ∅ 0) eq_refl)
    as (r & st' & E & _). exists r, st'. exact E.
Defined.
