(* ===== verification/IpamController.v ===== *)
(** * IpamController: the legacy cloud/cluster IPAM controller

    [pkg/controller/nodeipam/ipam/controller_legacyprovider.go] and [adapter.go]:
    construction of the controller around one CIDR set, the node handlers that
    own one [NodeSync] per node, and the adapter that implements the sync
    interfaces with the API client and the GCE provider.  [c.lock] is held by
    each handler, so a handler is one step. *)
From S2P Require Import Prelude Bits GoNet GoNetText CidrSet CidrSetIndex CidrSetOps CidrPool CidrSetProps K8s RangeSystem GceInstances Timeout NodeSync.
Local Open Scope Z_scope.

(** ** [listNodes] of [cidr_allocator.go] *)

(** [wait.Poll] with [nodePollInterval] over [apiserverStartupGracePeriod]: one try
    per interval; a failed list is tried again. *)
Definition listNodesTries : nat := 60.

Fixpoint listNodes_poll {W} `{KubeClient W} (tries : nat) : io W (list Node) :=
  match tries with
  | O => fail (Errorf "failed to list all nodes in %v, cannot proceed without updating CIDR map")
  | S tries =>
      r ← try Nodes_List;
      match r with inr l => mret l | inl _ => listNodes_poll tries end
  end.
Definition listNodes {W} `{KubeClient W} : io W (list Node) := listNodes_poll listNodesTries.

(** ** [adapter.go] *)
Section adapter.
Context {W : Type} `{KubeClient W} `{ComputeClient W}.
(** [g.secondaryRangeName] of the provider. *)
Context (secondaryRangeName : string).

Definition adapter_Alias (node : Node) : io W (option IPNet) :=
  if bool_decide (ProviderID (Spec node) = EmptyString) then fail (Errorf "node %s doesn't have providerID")
  else
    cidrs ← AliasRangesByProviderID (ProviderID (Spec node));
    match cidrs with
    | [] => mret None
    | c :: _ => cidrRange ← lift (ParseCIDR c); mret (Some cidrRange)
    end.

Definition adapter_AddAlias (node : Node) (cidrRange : IPNet) : io W unit :=
  if bool_decide (ProviderID (Spec node) = EmptyString) then fail (Errorf "node %s doesn't have providerID")
  else AddAliasToInstanceByProviderID secondaryRangeName (ProviderID (Spec node)) cidrRange.

Definition adapter_Node (name : string) : io W Node := Nodes_Get name.

Definition adapter_UpdateNodePodCIDR (node : Node) (cidrRange : IPNet) : io W unit :=
  Nodes_Patch (node_Name node) (PatchPodCIDR (IPNet_String cidrRange)).

Definition adapter_UpdateNodeNetworkUnavailable (nodeName : string) (unavailable : bool) : io W unit :=
  let condition := if unavailable then ConditionTrue else ConditionFalse in
  now ← Clock_Now;
  SetNodeCondition nodeName (mkCond NodeNetworkUnavailable condition "RouteCreated"
    "NodeController created an implicit route" now 0).

Definition adapter_EmitNodeWarningEvent (nodeName reason : string) : io W unit :=
  Recorder_Eventf (mkRef "Node" nodeName EmptyString) reason.

(** The adapter as the two interfaces of [NodeSync]. *)
Definition adapter_cloudAlias : CloudAlias W := {| Alias := adapter_Alias; AddAlias := adapter_AddAlias |}.
Definition adapter_kubeAPI : KubeAPI W := {|
  api_Node := adapter_Node; UpdateNodePodCIDR := adapter_UpdateNodePodCIDR;
  UpdateNodeNetworkUnavailable := adapter_UpdateNodeNetworkUnavailable;
  EmitNodeWarningEvent := adapter_EmitNodeWarningEvent |}.
End adapter.

(** ** The controller *)
Record Config : Type := mkConfig {
  cfg_Resync : Z; cfg_MaxBackoff : Z; cfg_InitialRetry : Z; cfg_Mode : NodeSyncMode
}.

(** [c_running]: the loops of nodes that were deleted and are still draining. *)
Record Controller (P : Type) : Type := mkController {
  c_config : Config;
  c_syncers : gmap string NodeSync;
  c_running : list NodeSync;
  c_set : P
}.
Arguments mkController {P} _ _ _ _.
Arguments c_config {P} _.
Arguments c_syncers {P} _.
Arguments c_running {P} _.
Arguments c_set {P} _.

(** [occupyServiceCIDR]; both networks are dereferenced. *)
Definition occupyServiceCIDR {P} `{CidrPool P} (set : P) (clusterCIDR serviceCIDR : option IPNet) : outcome unit * P :=
  match clusterCIDR, serviceCIDR with
  | Some c, Some s =>
      if IPNet_Contains c (net_IP s) || IPNet_Contains s (net_IP c)
      then pool_occupy set (Some s) else (Ret tt, set)
  | _, _ => (Panic, set)
  end.

(** The check of [NewController] that a CIDR is left. *)
Definition checkRemaining {P} `{CidrPool P} (set : P) : outcome P :=
  match pool_alloc set with
  | (Ret cidr, set') =>
      match pool_release set' (Some cidr) with
      | (Ret _, set'') => Ret set''
      | (Err e, _) => Err e
      | (Panic, _) => Panic
      end
  | (Err e, _) =>
      if bool_decide (e = ErrCIDRRangeNoCIDRsRemaining)
      then Err (Errorf "failed after occupy serviceCIDR: %v")
      else Err (Errorf "unexpected error when check remaining CIDR range: %v")
  | (Panic, _) => Panic
  end.

(** [isGCE]: the type assertion on the cloud provider. *)
Definition NewController (config : Config) (isGCE : bool) (clusterCIDR serviceCIDR : option IPNet)
    (nodeCIDRMaskSize : Z) : outcome (Controller CidrSet) :=
  if negb (IsValidMode (cfg_Mode config)) then Err (Errorf "invalid IPAM controller mode %q")
  else if negb isGCE then Err (Errorf "cloud IPAM controller does not support %q provider")
  else
    set ← NewCIDRSet clusterCIDR nodeCIDRMaskSize;
    match occupyServiceCIDR set clusterCIDR serviceCIDR with
    | (Ret _, set) => set ← checkRemaining set; Ret (mkController config ∅ [] set)
    | (Err e, _) => Err e
    | (Panic, _) => Panic
    end.

Section controller.
Context {P : Type} `{CidrPool P}.

Definition newSyncer (c : Controller P) (name : string) : NodeSync :=
  New (newTimeout (cfg_Resync (c_config c)) (cfg_MaxBackoff (c_config c)) (cfg_InitialRetry (c_config c)))
    (cfg_Mode (c_config c)) name.

Definition with_syncer (c : Controller P) (name : string) (s : NodeSync) : Controller P :=
  mkController (c_config c) (<[ name := s ]> (c_syncers c)) (c_running c) (c_set c).

Definition onAdd (c : Controller P) (node : Node) : outcome (Controller P) :=
  let syncer := match c_syncers c !! node_Name node with
    | Some s => s
    | None => newSyncer c (node_Name node)
    end in
  s ← sync_Update syncer node;
  Ret (with_syncer c (node_Name node) s).

Definition onUpdate (c : Controller P) (node : Node) : outcome (Controller P) :=
  match c_syncers c !! node_Name node with
  | Some s => s ← sync_Update s node; Ret (with_syncer c (node_Name node) s)
  | None => Err (Errorf "unknown node %q")
  end.

Definition onDelete (c : Controller P) (node : Node) : outcome (Controller P) :=
  match c_syncers c !! node_Name node with
  | Some s =>
      s ← sync_Delete s node;
      Ret (mkController (c_config c) (delete (node_Name node) (c_syncers c)) (s :: c_running c) (c_set c))
  | None => Ret c
  end.

(** One node of [Start]: its pod CIDR is occupied (errors are only logged) and its
    syncer is created. *)
Definition startNode (c : Controller P) (node : Node) : outcome (Controller P) :=
  let occupied :=
    if bool_decide (PodCIDR (Spec node) = EmptyString) then (Ret tt, c_set c)
    else match ParseCIDR (PodCIDR (Spec node)) with
         | Ret cidrRange => pool_occupy (c_set c) (Some cidrRange)
         | Err _ => (Ret tt, c_set c)
         | Panic => (Panic, c_set c)
         end in
  match occupied with
  | (Panic, _) => Panic
  | (_, set) =>
      let c := mkController (c_config c) (c_syncers c) (c_running c) set in
      Ret (with_syncer c (node_Name node) (newSyncer c (node_Name node)))
  end.

Fixpoint startNodes (c : Controller P) (nodes : list Node) : outcome (Controller P) :=
  match nodes with
  | [] => Ret c
  | n :: nodes => c ← startNode c n; startNodes c nodes
  end.

Definition Start {W} `{KubeClient W} (c : Controller P) : io W (Controller P) :=
  nodes ← listNodes;
  lift (startNodes c nodes).
End controller.

(** ** Properties: the properties of the legacy IPAM controller *)

Section facts.
Context {P : Type} `{CidrPoolSpec P}.

(** ** The remaining-CIDR check *)
Lemma checkRemaining_spec (set : P) : pool_ok set →
  match checkRemaining set with
  | Ret set' => pool_ok set' ∧ (∀ n, pool_block set' n ↔ pool_block set n) ∧
      (∀ n, pool_block set n → (pool_held set' n ↔ pool_held set n)) ∧ ∃ n, pool_block set n ∧ ¬ pool_held set n
  | Err _ => ∀ n, pool_block set n → pool_held set n
  | Panic => False
  end.
Proof.
  intros Hs. unfold checkRemaining. pose proof (pool_alloc_spec set Hs) as A.
  destruct (pool_alloc set) as [[n|e|] p1]; [| |done].
  - destruct A as (A1 & A2 & A3 & A4 & A5).
    destruct (release_block p1 n A3) as (p2 & -> & B1 & B2 & B3); [by apply A4|].
    split; [done|]. split; [intros m; by rewrite B2, A4|]. split; [|by exists n].
    intros m Hm. rewrite (B3 m) by by apply A4. rewrite (A5 m Hm). naive_solver.
  - destruct A as [_ A]. by case_bool_decide.
Qed.

(** ** Handlers *)

(** Each registered syncer carries its node's name and an open channel; each
    unregistered one has been closed. *)
Definition ctrl_inv (c : Controller P) : Prop :=
  (∀ name s, c_syncers c !! name = Some s → ns_nodeName s = name ∧ ns_closed s = false ∧ ns_mode s = cfg_Mode (c_config c)) ∧
  Forall (λ s, ns_closed s = true) (c_running c).

Lemma inv_with_syncer c name s : ctrl_inv c → ns_nodeName s = name → ns_closed s = false →
  ns_mode s = cfg_Mode (c_config c) → ctrl_inv (with_syncer c name s).
Proof.
  intros [I1 I2] En Ec Em. split; [|done]. intros name' s'. simpl.
  destruct (decide (name' = name)) as [->|Hne]; [rewrite lookup_insert_eq; by intros [= <-]|].
  rewrite lookup_insert_ne by done. apply I1.
Qed.

Lemma syncer_inv c name : ctrl_inv c →
  let s := match c_syncers c !! name with Some s => s | None => newSyncer c name end in
  ns_nodeName s = name ∧ ns_closed s = false ∧ ns_mode s = cfg_Mode (c_config c).
Proof. intros [I1 _]. simpl. destruct (c_syncers c !! name) eqn:E; [by apply I1|done]. Qed.

Lemma onAdd_inv c node : ctrl_inv c → ∃ c', onAdd c node = Ret c' ∧ ctrl_inv c' ∧ c_set c' = c_set c ∧
  ∃ s, c_syncers c' !! node_Name node = Some s ∧ list.last (opChan s) = Some (updateOp (Some node)).
Proof.
  intros I. pose proof (syncer_inv c (node_Name node) I) as S. unfold onAdd. simpl in S.
  destruct (match c_syncers c !! node_Name node with Some s => s | None => _ end) as [t m nm q cl].
  simpl in *. destruct S as (-> & -> & ->). eexists. split; [done|]. split; [by apply inv_with_syncer|].
  split; [done|]. simpl. rewrite lookup_insert_eq. eexists. split; [done|]. simpl. by rewrite last_snoc.
Qed.

Lemma onDelete_inv c node : ctrl_inv c → ∃ c', onDelete c node = Ret c' ∧ ctrl_inv c' ∧ c_set c' = c_set c ∧
  c_syncers c' = delete (node_Name node) (c_syncers c).
Proof.
  intros I. unfold onDelete. destruct (c_syncers c !! node_Name node) as [s|] eqn:E.
  - pose proof (proj1 I _ _ E) as (En & Ec & Em). unfold sync_Delete. rewrite Ec. eexists. split; [done|].
    split; [|done]. split; simpl; [|constructor; [done|apply I]].
    intros name s' [_ Hs]%lookup_delete_Some. by apply I.
  - exists c. split; [done|]. split; [done|]. split; [done|]. by rewrite delete_id.
Qed.

Lemma onUpdate_inv c node : ctrl_inv c →
  (c_syncers c !! node_Name node = None ∧ onUpdate c node = Err (Errorf "unknown node %q")) ∨
  (∃ c', onUpdate c node = Ret c' ∧ ctrl_inv c' ∧ c_set c' = c_set c ∧ dom (c_syncers c') = dom (c_syncers c)).
Proof.
  intros I. unfold onUpdate. destruct (c_syncers c !! node_Name node) as [s|] eqn:E; [right|by left].
  pose proof (proj1 I _ _ E) as (En & Ec & Em). unfold sync_Update. rewrite Ec. eexists. split; [done|].
  split; [by apply inv_with_syncer|]. split; [done|]. simpl. apply dom_insert_lookup_L. by eexists.
Qed.
End facts.

(** ** The service range test *)
Lemma contains_in_range w s k svc : cidrset_static w s → net_wf w k svc →
  IPNet_Contains (clusterCIDR s) (net_IP svc) || IPNet_Contains svc (net_IP (clusterCIDR s)) = true ↔
  overlaps w (clusterCIDR s) svc.
Proof.
  intros Hs Hk. rewrite <- (in_range_overlaps w s Hs k svc Hk), (in_range_spec w s Hs k svc Hk), orb_true_iff.
  rewrite (IPNet_Contains_spec w (clusterMaskSize s)) by (apply Hs || apply Hk).
  rewrite (IPNet_Contains_spec w k) by (apply (cw_net w s Hs) || apply Hk). done.
Qed.

Lemma occupyService_spec s svc : set_ok s → cidr_wf svc →
  ∃ s', occupyServiceCIDR s (Some (clusterCIDR s)) (Some svc) = (Ret tt, s') ∧ set_ok s' ∧
    (∀ n, set_block s' n ↔ set_block s n) ∧
    ∀ n, set_block s n → (set_held s' n ↔ set_held s n ∨ meets n svc).
Proof.
  intros Hs Hsvc. pose proof (cw_static _ s Hs) as Hst. pose proof Hsvc as (w & k & Hk). unfold occupyServiceCIDR.
  destruct (overlaps_dec _ w s k svc Hst Hk) as [Ho|Hno].
  - rewrite (overlaps_width _ w s k svc Hst Hk Ho) in Hk. rewrite (proj2 (contains_in_range _ s k svc Hst Hk) Ho).
    destruct (Occupy_marks _ _ s k svc Hs Hk Ho) as (s' & E & M). exists s'. split; [exact E|].
    by apply (set_marked true).
  - assert (Hf : IPNet_Contains (clusterCIDR s) (net_IP svc) || IPNet_Contains svc (net_IP (clusterCIDR s)) = false).
    { destruct (decide (w = width s)) as [->|Hne].
      - apply not_true_iff_false. by rewrite (contains_in_range _ s k svc Hst Hk).
      - apply orb_false_iff. split.
        + apply (IPNet_Contains_family (width s) w (clusterMaskSize s)); [apply Hst|apply Hk|apply Hk|done].
        + apply (IPNet_Contains_family w (width s) k); [done|apply (static_w _ s Hst)|apply (cw_net _ s Hst)|done]. }
    rewrite Hf. exists s. split; [done|]. split; [done|]. split; [done|].
    intros n Hn. split; [by left|]. intros [?|Hm]; [done|]. by destruct (miss_blocks s svc n Hs Hsvc Hno Hn).
Qed.

(** [NewController] with a valid mode on the GCE provider either returns a
    controller whose set holds exactly the blocks that intersect the service
    range, with at least one block free and no syncer yet, or an error because
    the node mask is refused or the service range covers every block; the probe
    allocation is undone. *)
Theorem NewController_reserves config c nm svc (Hmode : IsValidMode (cfg_Mode config) = true)
    (Hcfg : cluster_ok c nm) (Hsvc : cidr_wf svc) :
  (∃ ctl, NewController config true (Some c) (Some svc) nm = Ret ctl ∧ ctrl_inv ctl ∧ c_syncers ctl = ∅ ∧
     set_ok (c_set ctl) ∧ (∀ n, set_block (c_set ctl) n → (set_held (c_set ctl) n ↔ meets n svc)) ∧
     ∃ n, set_block (c_set ctl) n ∧ ¬ set_held (c_set ctl) n) ∨
  (∃ e, NewController config true (Some c) (Some svc) nm = Err e ∧
     (NewCIDRSet (Some c) nm = Err e ∨
      ∃ s, NewCIDRSet (Some c) nm = Ret s ∧ ∀ n, set_block s n → meets n svc)).
Proof.
  unfold NewController. rewrite Hmode. simpl negb. cbv iota.
  destruct (NewCIDRSet (Some c) nm) as [s|e|] eqn:E; [|right; exists e; split; [done|by left]|by apply NewCIDRSet_no_panic in E].
  pose proof (NewCIDRSet_ok c nm s Hcfg E) as Hs. cbn [mbind outcome_bind].
  rewrite <- (NewCIDRSet_cluster c nm s E).
  destruct (occupyService_spec s svc Hs Hsvc) as (s1 & -> & Hs1 & B1 & U1).
  pose proof (checkRemaining_spec (P := CidrSet) s1 Hs1) as C.
  assert (Hheld : ∀ n, set_block s n → (set_held s1 n ↔ meets n svc)).
  { intros n Hn. rewrite (U1 n Hn). split; [|by right]. intros [Hx|]; [|done]. by destruct (NewCIDRSet_empty c nm s n E). }
  destruct (checkRemaining s1) as [s2|e|]; [left|right|done].
  - destruct C as (C1 & C2 & C3 & n & Hn & Hf). eexists. split; [done|]. split; [split; simpl; [done|constructor]|].
    split; [done|]. split; [done|]. simpl in *. split.
    + intros m Hm. apply C2 in Hm. rewrite (C3 m Hm). apply Hheld. by apply B1.
    + exists n. split; [by apply C2|]. by rewrite (C3 n Hn).
  - exists e. split; [done|]. right. exists s. split; [done|]. intros n Hn. apply (Hheld n Hn), C. by apply B1.
Qed.

Lemma NewController_reserves_witness : ∃ ctl,
  NewController (mkConfig 30 10 1 SyncFromCluster) true (Some demo4_net) (Some (net4 10 0 0 0 24)) 24 = Ret ctl ∧
  set_ok (c_set ctl).
Proof.
  assert (Hsvc : cidr_wf (net4 10 0 0 0 24)) by (exists 32, 24; apply net4_wf; [unfold byte_ok; lia..|lia|reflexivity]).
  assert (Hcfg : cluster_ok demo4_net 24).
  { exists 32, 22. split; [exact demo4_net_wf|]. split; [lia|]. split; [lia|]. lia. }
  destruct (NewController_reserves (mkConfig 30 10 1 SyncFromCluster) demo4_net 24 (net4 10 0 0 0 24) eq_refl Hcfg Hsvc)
    as [(ctl & E & _ & _ & O & _)|(e & E & _)].
  - exists ctl. exact (conj E O).
  - exfalso. vm_compute in E. discriminate.
Defined.

(** Without a service range the legacy controller does not start:
    [occupyServiceCIDR] dereferences the nil network, while the range allocator
    skips the filter in the same configuration. *)
Theorem NewController_nil_service_panics config c nm (Hmode : IsValidMode (cfg_Mode config) = true)
    (Hset : is_ret (NewCIDRSet (Some c) nm) = true) :
  NewController config true (Some c) None nm = Panic.
Proof.
  unfold NewController. rewrite Hmode. simpl negb. cbv iota.
  by destruct (NewCIDRSet (Some c) nm).
Qed.

Lemma NewController_nil_service_panics_witness :
  NewController (mkConfig 30 10 1 SyncFromCloud) true (Some demo4_net) None 24 = Panic.
Proof. apply (NewController_nil_service_panics (mkConfig 30 10 1 SyncFromCloud) demo4_net 24); reflexivity. Defined.

(** The node handlers keep one open syncer per registered node, named after
    it and in the controller's mode, and only closed ones once unregistered; so
    no handler ever sends on a closed channel. A delete unregisters exactly its
    node and an update of an unknown node is refused. *)
Theorem controller_handlers {P} `{CidrPoolSpec P} (c : Controller P) node (Hinv : ctrl_inv c) :
  (∃ c1, onAdd c node = Ret c1 ∧ ctrl_inv c1 ∧ c_set c1 = c_set c ∧
     ∃ s, c_syncers c1 !! node_Name node = Some s ∧ list.last (opChan s) = Some (updateOp (Some node))) ∧
  (∃ c2, onDelete c node = Ret c2 ∧ ctrl_inv c2 ∧ c_set c2 = c_set c ∧ c_syncers c2 = delete (node_Name node) (c_syncers c)) ∧
  ((c_syncers c !! node_Name node = None ∧ onUpdate c node = Err (Errorf "unknown node %q")) ∨
   (∃ c3, onUpdate c node = Ret c3 ∧ ctrl_inv c3 ∧ c_set c3 = c_set c ∧ dom (c_syncers c3) = dom (c_syncers c))).
Proof. split; [by apply onAdd_inv|]. split; [by apply onDelete_inv|by apply onUpdate_inv]. Qed.

Lemma controller_handlers_witness : ∃ c2,
  onDelete (with_syncer (mkController (mkConfig 30 10 1 SyncFromCloud) ∅ [] demo4) "a"
    (New (newTimeout 30 10 1) SyncFromCloud "a")) (bare_node "a") = Ret c2 ∧ ctrl_inv c2.
Proof.
  destruct (controller_handlers (with_syncer (mkController (mkConfig 30 10 1 SyncFromCloud) ∅ [] demo4) "a"
    (New (newTimeout 30 10 1) SyncFromCloud "a")) (bare_node "a")) as (_ & (c2 & E & I & _) & _).
  - apply inv_with_syncer; [|reflexivity..]. split; [intros name s E; discriminate|constructor].
  - exists c2. exact (conj E I).
Defined.
