(* ===== verification/RangeProps.v ===== *)
(** * RangeProps: the properties of the range allocator

    The theorems about [range_allocator.go], over any pool and any client that
    meet their contracts, with witnesses on [CidrSet] and [FakeCluster], and the
    scenarios the comments of the source rule out. *)

From S2P Require Import Prelude Bits GoNet GoNetText CidrSet CidrSetIndex CidrSetOps CidrPool CidrSetProps.
From S2P Require Import K8s RangeSystem RangeAllocator RangeAllocatorFacts.
Local Open Scope Z_scope.

(** ** Concrete allocators *)
Definition demo_ra (l : list CidrSet) : rangeAllocator CidrSet := mkRA (clusterCIDR <$> l) l [] ∅.
Definition demo_sys : @sys CidrSet FakeCluster := mkSys (demo_ra [demo4]) (cluster_of ["a"; "b"]) [].

Lemma demo_sets_ok : sets_ok [demo4].
Proof. apply Forall_singleton. exact (set_ok_intro 32 demo4 demo4_wf). Qed.

(** Run one event or work item on the concrete system. *)
Definition after (m : io (rangeAllocator CidrSet * FakeCluster) unit) (s : @sys CidrSet FakeCluster) : sys :=
  let '(_, (r, w)) := m (sys_ra s, sys_w s) in mkSys r w (sys_gone s).

(** Nodes [a] and [b] are added and both items processed. *)
Definition demo_s1 : sys := after (addNode (ObjNode (bare_node "a"))) demo_sys.
Definition demo_s2 : sys := after (addNode (ObjNode (bare_node "b"))) demo_s1.
Definition demo_s3 : sys := after worker demo_s2.
Definition demo_s4 : sys := after worker demo_s3.

Lemma step_after_add s name : step s (after (addNode (ObjNode (bare_node name))) s).
Proof.
  destruct s as [r w g]. unfold after. simpl sys_ra. simpl sys_w.
  destruct (addNode (ObjNode (bare_node name)) (r, w)) as [o [r' w']] eqn:E.
  by apply (step_add r w g (bare_node name) o).
Qed.

Lemma step_after_worker s item q st :
  nodeCIDRUpdateChannel (sys_ra s) = item :: q →
  updateCIDRsAllocation item (mkRA (clusterCIDRs (sys_ra s)) (cidrSets (sys_ra s)) q (nodesInProcessing (sys_ra s)), sys_w s) = (Ret tt, st) →
  step s (after worker s).
Proof.
  destruct s as [r w g]. simpl. intros Eq Eu. unfold after. simpl sys_ra. simpl sys_w.
  assert (Ew : worker (r, w) = (Ret tt, st)).
  { unfold worker. rewrite io_bind_eq. simpl recv. rewrite Eq. cbv iota beta.
    unfold workerItem. rewrite io_bind_eq. unfold try. by rewrite Eu. }
  rewrite Ew. destruct st as [r' w']. eapply step_worker; [exact Eq|left; by eexists|exact Ew].
Qed.

Lemma demo_step3 : step demo_s2 demo_s3.
Proof.
  eapply (step_after_worker demo_s2); [vm_compute; reflexivity|]. vm_compute. reflexivity.
Qed.
Lemma demo_step4 : step demo_s3 demo_s4.
Proof.
  eapply (step_after_worker demo_s3); [vm_compute; reflexivity|]. vm_compute. reflexivity.
Qed.

Lemma demo_run : rtc step demo_sys demo_s4.
Proof.
  refine (rtc_l _ _ demo_s1 _ (step_after_add demo_sys "a") _).
  refine (rtc_l _ _ demo_s2 _ (step_after_add demo_s1 "b") _).
  exact (rtc_l _ _ demo_s3 _ demo_step3 (rtc_once _ _ demo_step4)).
Qed.



(** [AllocateOrOccupyCIDR] on a node without pod CIDRs that is not being
    processed: either every set had a free block, and the queue gains one item
    for the node with one block of each set, each free before and held now; or
    some set is exhausted, the queue is as before, the node may be tried again
    and the caller gets the error. No held block is lost in either case. *)
Theorem AllocateOrOccupyCIDR_allocates {P W : Type} `{CidrPoolSpec P} `{KubeClientSpec W} (r : rangeAllocator P) (w : W) node
    (Hsets : sets_ok (cidrSets r)) (Hnew : node_Name node ∉ nodesInProcessing r) (Hbare : PodCIDRs (Spec node) = []) :
  ∃ r' w' l', keeps (cidrSets r) l' ∧ api_nodes w' = api_nodes w ∧ cidrSets r' = l' ∧
    ((∃ ns, AllocateOrOccupyCIDR (Some node) (r, w) = (Ret tt, (r', w')) ∧
        nodeCIDRUpdateChannel r' = nodeCIDRUpdateChannel r ++ [mkReserved ns (node_Name node)] ∧
        nodesInProcessing r' = {[ node_Name node ]} ∪ nodesInProcessing r ∧
        length ns = length (cidrSets r) ∧ reserved 0 ns (cidrSets r) l') ∨
     (∃ k p, AllocateOrOccupyCIDR (Some node) (r, w) =
          (Err (Errorf "failed to allocate cidr from cluster cidr at idx:%v: %v"), (r', w')) ∧
        nodeCIDRUpdateChannel r' = nodeCIDRUpdateChannel r ∧ node_Name node ∉ nodesInProcessing r' ∧
        l' !! k = Some p ∧ ∀ n, pool_block p n → pool_held p n)).
Proof.
  unfold AllocateOrOccupyCIDR. rewrite io_bind_eq. unfold insertNodeToProcessing.
  rewrite decide_False by done. cbv beta iota. rewrite Hbare. simpl. rewrite io_bind_eq. cbn [numSets].
  set (r1 := mkRA _ _ _ _).
  destruct (allocateLoop_run node (length (cidrSets r1)) 0 [] r1 w Hsets (Nat.le_refl _)) as (l' & K & Res).
  rewrite io_bind_eq. destruct Res as [(ns & -> & L & R)|(k & w' & p & -> & A & _ & Hp & F)].
  - eexists _, w, l'. split; [done|]. split; [done|]. split; [|left; exists ns; by repeat (split; [done|])]. done.
  - eexists _, w', l'. split; [done|]. split; [done|]. split; [|right; exists k, p; split; [done|]]; [done|].
    split; [done|]. split; [simpl; set_solver|done].
Qed.

Lemma AllocateOrOccupyCIDR_allocates_witness :
  ∃ r' w', (AllocateOrOccupyCIDR (Some (bare_node "a")) (demo_ra [demo4], cluster_of ["a"])).2 = (r', w') ∧
    api_nodes w' = api_nodes (cluster_of ["a"]).
Proof.
  destruct (AllocateOrOccupyCIDR_allocates (demo_ra [demo4]) (cluster_of ["a"]) (bare_node "a") demo_sets_ok
    ltac:(apply not_elem_of_empty) eq_refl) as (r' & w' & l' & _ & A & _ & [(ns & E & _)|(k & p & E & _)]);
    exists r', w'; split; [rewrite E; reflexivity|exact A|rewrite E; reflexivity|exact A].
Defined.

(** What [updateCIDRsAllocation] can do with an item of blocks, one case per
    return of the code: unknown node, CIDRs already there, other CIDRs there (the
    item's blocks are given back), patched, or all attempts failed (the blocks
    are given back and the error is returned). It never panics and the node
    leaves the set of nodes in processing. *)
Theorem updateCIDRsAllocation_cases {P W : Type} `{CidrPoolSpec P} `{KubeClientSpec W} (r : rangeAllocator P) (w : W) data
    (Hsets : sets_ok (cidrSets r)) (Hitem : item_wf r data) :
  ∃ res l' w', updateCIDRsAllocation data (r, w) =
      (res, (removeNodeFromProcessing (r_nodeName data) (with_sets l' r), w')) ∧
    res ≠ Panic ∧ update_case data r w res l' w'.
Proof.
  destruct (update_run data r w Hsets Hitem) as (res & l' & w' & E & C). exists res, l', w'.
  split; [done|]. split; [|done]. by destruct C.
Qed.

Lemma updateCIDRsAllocation_cases_witness :
  ∃ res st, updateCIDRsAllocation (mkReserved [net4 10 0 0 0 24] "a") (demo_ra [demo4], cluster_of ["a"]) = (res, st) ∧ res ≠ Panic.
Proof.
  destruct (updateCIDRsAllocation_cases (demo_ra [demo4]) (cluster_of ["a"]) (mkReserved [net4 10 0 0 0 24] "a"))
    as (res & l' & w' & E & N & _).
  - exact demo_sets_ok.
  - split; [discriminate|]. split; [reflexivity|]. apply Forall_singleton. exists 32, 24.
    apply net4_wf; [unfold byte_ok; lia..|lia|reflexivity].
  - eexists res, _. exact (conj E N).
Defined.

(** ** Start-up *)

(** The test of [filterOutServiceRange] never skips a set with a block in the range. *)
Lemma filter_test_complete s n svc : set_ok s → cidr_wf svc → set_block s n → meets n svc →
  IPNet_Contains (clusterCIDR s) (IP_Mask (net_IP svc) (net_Mask (clusterCIDR s))) = true ∨
  IPNet_Contains svc (IP_Mask (net_IP (clusterCIDR s)) (net_Mask svc)) = true.
Proof.
  intros Hs Hc Hn Hm. pose proof (cw_static _ s Hs) as Hst. pose proof Hc as (w & k & Hk).
  destruct (overlaps_dec _ w s k svc Hst Hk) as [Ho|Hno]; [|exfalso; by eapply (miss_blocks s svc n)].
  rewrite (overlaps_width _ w s k svc Hst Hk Ho) in Hk.
  apply (in_range_overlaps _ s Hst k svc Hk) in Ho. by apply orb_true_iff in Ho.
Qed.

Lemma newSets_ok cidrs sizes sets : newSets cidrs sizes = Ret sets →
  Forall2 (λ c s, ∃ k, NewCIDRSet (Some c) k = Ret s) cidrs sets.
Proof.
  revert sizes sets. induction cidrs as [|c cidrs IH]; intros [|k sizes] sets E; cbn [newSets] in E; try done.
  1-2: injection E as <-; constructor.
  apply outcome_bind_ret in E as (s & Es & E). apply outcome_bind_ret in E as (ss & Ess & E). injection E as <-.
  constructor; [by exists k|by eapply IH].
Qed.

(** The test on the cluster CIDRs [cidrs] is complete for the sets [l]. *)
Definition test_complete (cidrs : list IPNet) (l : list CidrSet) : Prop :=
  length cidrs = length l ∧
  ∀ i cidr s n svc, cidrs !! i = Some cidr → l !! i = Some s → set_block s n → cidr_wf svc → meets n svc →
    IPNet_Contains cidr (IP_Mask (net_IP svc) (net_Mask cidr)) = true ∨
    IPNet_Contains svc (IP_Mask (net_IP cidr) (net_Mask svc)) = true.

Lemma newSets_complete cidrs sizes sets : newSets cidrs sizes = Ret sets → sets_ok sets → test_complete cidrs sets.
Proof.
  intros E%newSets_ok Hok. split; [by eapply Forall2_length|]. intros i c s n svc Hc Hs Hn Hsvc Hm.
  destruct (Forall2_lookup_lr _ _ _ _ _ _ E Hc Hs) as [k Hk]. rewrite <- (NewCIDRSet_cluster c k s Hk).
  eapply filter_test_complete; [by eapply Forall_lookup_1|done..].
Qed.

Lemma complete_keeps cidrs l l' : keeps l l' → test_complete cidrs l → test_complete cidrs l'.
Proof.
  intros K [Hl Ht]. split; [by rewrite (evolve_length _ _ _ K)|]. intros i c s n svc Hc Hs Hn.
  pose proof (proj2 K i) as E. rewrite Hs in E. destruct (l !! i) as [s0|] eqn:Es0; [|done].
  apply (Ht i c s0 n svc Hc Es0). by apply E.
Qed.

Lemma newSets_sets_ok cidrs sizes sets : Forall2 cluster_ok cidrs sizes → newSets cidrs sizes = Ret sets → sets_ok sets.
Proof.
  intros Hc. revert sets. induction Hc as [|c k cidrs sizes Hc1 Hc IH]; intros sets E; cbn [newSets] in E.
  { injection E as <-. constructor. }
  apply outcome_bind_ret in E as (s & Es & E). apply outcome_bind_ret in E as (ss & Ess & E). injection E as <-.
  constructor; [by eapply NewCIDRSet_ok|by apply IH].
Qed.

(** The optional service range of the parameters. *)
Lemma filter_opt_ok {W} `{KubeClientSpec W} (svc : option IPNet) (r : rangeAllocator CidrSet) (w : W) r' w' :
  sets_ok (cidrSets r) → test_complete (clusterCIDRs r) (cidrSets r) → (∀ c, svc = Some c → cidr_wf c) →
  filterOptional svc (r, w) = (Ret tt, (r', w')) →
  keeps (cidrSets r) (cidrSets r') ∧ clusterCIDRs r' = clusterCIDRs r ∧
  ∀ c i, svc = Some c → (i < length (cidrSets r))%nat → reserved_for (cidrSets r') i c.
Proof.
  intros Hr [Hl Ht] Hc E. destruct svc as [c|]; [|injection E as <- <-; split; [by apply evolve_refl|done]].
  unfold filterOutServiceRange in E. pose proof E as E2.
  apply (filterLoop_ok c (clusterCIDRs r) 0) in E as [K R]; [|done|by apply Hc|simpl; lia|].
  - split; [done|]. split; [by eapply filterLoop_clusters|]. intros c' i [= <-] Hi. apply R. by rewrite Hl.
  - intros k cidr s n Hk Hs Hn Hm. eapply Ht; [done..|by apply Hc|done].
Qed.

Lemma init_ok {W} `{KubeClientSpec W} params nodes (r : rangeAllocator CidrSet) (w : W) r' w' :
  sets_ok (cidrSets r) → test_complete (clusterCIDRs r) (cidrSets r) →
  (∀ c, ServiceCIDR params = Some c ∨ SecondaryServiceCIDR params = Some c → cidr_wf c) →
  Forall (λ n, Forall plain_cidr (PodCIDRs (Spec n))) nodes →
  initAllocator params (Some nodes) (r, w) = (Ret tt, (r', w')) →
  keeps (cidrSets r) (cidrSets r') ∧ Forall (λ n, texts_reserved (cidrSets r') 0 (PodCIDRs (Spec n))) nodes ∧
  ∀ c i, ServiceCIDR params = Some c ∨ SecondaryServiceCIDR params = Some c →
    (i < length (cidrSets r))%nat → reserved_for (cidrSets r') i c.
Proof.
  intros Hr Ht Hc Hn E. unfold initAllocator in E. rewrite io_bind_eq in E.
  destruct (filterOptional (ServiceCIDR params) (r, w)) as [[[]|e|] [r1 w1]] eqn:E1; [|done|done].
  apply filter_opt_ok in E1 as (K1 & C1 & R1); [|done|done|naive_solver]. rewrite io_bind_eq in E.
  destruct (filterOptional (SecondaryServiceCIDR params) (r1, w1)) as [[[]|e|] [r2 w2]] eqn:E2; [|done|done].
  apply filter_opt_ok in E2 as (K2 & C2 & R2); [|apply K1|rewrite C1; by eapply complete_keeps|naive_solver].
  apply occupyNodes_ok in E as [K3 R3]; [|apply K2|done].
  split; [eapply evolve_trans; [exact K1|by eapply evolve_trans]|]. split; [done|].
  intros c i [Hs|Hs] Hi; eapply reserved_for_keeps; [exact K3| |exact K3|].
  - eapply reserved_for_keeps; [exact K2|]. by apply R1.
  - apply R2; [done|]. by rewrite (evolve_length _ _ _ K1).
Qed.

(** Start-up. When [NewCIDRRangeAllocator] succeeds on a valid configuration,
    every block that intersects a pod CIDR of an existing node, or one of the
    service ranges, is held in its set, so no later allocation can return it. *)
Theorem NewCIDRRangeAllocator_reserves {W} `{KubeClientSpec W} params nodes (w : W) r w'
    (Hcfg : Forall2 cluster_ok (ClusterCIDRs params) (NodeCIDRMaskSizes params))
    (Hsvc : ∀ c, ServiceCIDR params = Some c ∨ SecondaryServiceCIDR params = Some c → cidr_wf c)
    (Hnodes : Forall (λ n, Forall plain_cidr (PodCIDRs (Spec n))) nodes)
    (Hnew : NewCIDRRangeAllocator params (Some nodes) w = (Ret r, w')) :
  sets_ok (cidrSets r) ∧ length (cidrSets r) = length (ClusterCIDRs params) ∧
  (∀ node, node ∈ nodes → texts_reserved (cidrSets r) 0 (PodCIDRs (Spec node))) ∧
  ∀ c i, ServiceCIDR params = Some c ∨ SecondaryServiceCIDR params = Some c →
    (i < length (ClusterCIDRs params))%nat → reserved_for (cidrSets r) i c.
Proof.
  unfold NewCIDRRangeAllocator in Hnew.
  destruct (newSets (ClusterCIDRs params) (NodeCIDRMaskSizes params)) as [sets|e|] eqn:Es; [|done|done].
  pose proof (newSets_sets_ok _ _ _ Hcfg Es) as Hok. pose proof (newSets_complete _ _ _ Es Hok) as Ht.
  destruct (initAllocator params (Some nodes) _) as [[[]|e|] [r1 w1]] eqn:Ei; [|done|done].
  injection Hnew as <- <-. apply init_ok in Ei as (K & T & R); [|done..]. simpl in K, R.
  pose proof (evolve_length _ _ _ K) as Hl. destruct Ht as [Hlen _].
  split; [apply K|]. split; [by rewrite Hl, Hlen|]. split; [by apply Forall_forall|].
  intros c i Hs Hi. apply R; [done|]. by rewrite <- Hlen.
Qed.

(** A cluster whose node [a] owns the second block and whose services use the first. *)
Definition demo_params : CIDRAllocatorParams := mkParams [demo4_net] (Some (net4 10 0 0 0 25)) None [24].
Definition demo_node (cidr : string) : Node := set_Spec (set_PodCIDRs [cidr]) (bare_node "a").

Lemma demo4_cluster_ok : cluster_ok demo4_net 24.
Proof. exists 32, 22. split; [apply demo4_net_wf|]. split; [lia|]. split; [lia|]. lia. Qed.

Lemma NewCIDRRangeAllocator_reserves_witness :
  ∃ r w', NewCIDRRangeAllocator demo_params (Some [demo_node "10.0.1.0/24"]) (cluster_of ["a"]) = (Ret r, w') ∧
    reserved_for (cidrSets r) 0 (net4 10 0 0 0 25).
Proof.
  assert (Hw4 : cidr_wf (net4 10 0 0 0 25)) by (exists 32, 25; apply net4_wf; [unfold byte_ok; lia..|lia|reflexivity]).
  destruct (NewCIDRRangeAllocator demo_params (Some [demo_node "10.0.1.0/24"]) (cluster_of ["a"])) as [[r|e|] w'] eqn:E;
    [|vm_compute in E; discriminate|vm_compute in E; discriminate].
  exists r, w'. split; [reflexivity|].
  eapply (NewCIDRRangeAllocator_reserves demo_params [demo_node "10.0.1.0/24"] (cluster_of ["a"]) r w');
    [apply Forall2_cons; split; [exact demo4_cluster_ok|apply Forall2_nil_2]| | |exact E|left; reflexivity|apply Nat.lt_0_1].
  - intros c [Ec|Ec]; [injection Ec as <-; exact Hw4|discriminate].
  - apply Forall_singleton, Forall_singleton. intros n En.
    assert (n = net4 10 0 1 0 24) as -> by (vm_compute in En; injection En as <-; reflexivity).
    exists 32, 24. apply net4_wf; [unfold byte_ok; lia..|lia|reflexivity].
Defined.

(** ** Behaviours outside the clean runs *)

(** A cluster with a single /24 block, and a server that times out on the next
    three patch requests. *)
Definition tiny_net : IPNet := net4 10 0 0 0 24.
Definition tiny_sys (faults : list (option error)) : sys :=
  let w := cluster_of ["a"; "b"] in
  mkSys (demo_ra [set_of tiny_net 24]) (mkCluster (fc_api w) (fc_lister w) faults []) [].

Definition double_run : sys :=
  let timeout := Some (ErrStatus ReasonServerTimeout) in
  let s1 := after (addNode (ObjNode (bare_node "a"))) (tiny_sys [timeout; timeout; timeout]) in
  let s2 := after worker s1 in
  let s3 := after (addNode (ObjNode (bare_node "b"))) s2 in
  after worker (after worker s3).

(** A work item whose patch attempts all failed is sent again although its
    CIDRs have been released. On a cluster of one block: node [a]'s item times
    out three times, its block is released and the item requeued; node [b] is
    added and gets the block; both items are then processed successfully, and
    both nodes end with the same pod CIDR. *)
Theorem requeued_item_double_assigns :
  pod_cidrs (sys_w double_run) !! "a"%string = Some ["10.0.0.0/24"%string] ∧
  pod_cidrs (sys_w double_run) !! "b"%string = Some ["10.0.0.0/24"%string].
Proof. split; vm_compute; reflexivity. Qed.

(** The error [PatchNodeCIDRs] returns never satisfies [IsServerTimeout],
    whatever the server answered, since it formats the cause with [%v]; so when
    all attempts of [updateCIDRsAllocation] fail the reserved CIDRs are always
    released, also after a timeout whose request may have been applied. *)
Lemma patch_timeout_never_seen {W} `{KubeClient W} node cidrs (w w' : W) e
    (Hfail : PatchNodeCIDRs node cidrs w = (Err e, w')) :
  IsServerTimeout e = false.
Proof. unfold IsServerTimeout. by rewrite (PatchNodeCIDRs_err node cidrs w e w' Hfail). Qed.

(** A work item whose node the lister does not know is sent again with its
    CIDRs still held: a turn of [worker] on it moves it to the end of the queue,
    changes no set and does not touch the server. *)
Theorem worker_unknown_node {P W : Type} `{CidrPoolSpec P} `{KubeClientSpec W} (r : rangeAllocator P) (w : W) item q e
    (Hsets : sets_ok (cidrSets r)) (Hitem : item_wf r item)
    (Hq : nodeCIDRUpdateChannel r = item :: q) (Hlister : (NodeLister_Get (r_nodeName item) w).1 = Err e) :
  ∃ w', worker (r, w) = (Ret tt, (mkRA (clusterCIDRs r) (cidrSets r) (q ++ [item])
                                   (nodesInProcessing r ∖ {[ r_nodeName item ]}), w')) ∧
    api_nodes w' = api_nodes w.
Proof.
  unfold worker. rewrite io_bind_eq. simpl recv. rewrite Hq. cbv iota beta.
  set (r1 := mkRA _ _ q _). destruct (update_run item r1 w Hsets Hitem) as (res & l' & w' & E & C).
  unfold workerItem. rewrite io_bind_eq. unfold try. rewrite E.
  destruct C as [e' w1 G A|node w1 G|node l' w1 G|node w1 G|node l' w1 G]; try congruence.
  exists w1. done.
Qed.

Lemma worker_unknown_node_witness :
  ∃ w', (worker (mkRA [demo4_net] [demo4] [mkReserved [net4 10 0 0 0 24] "gone"] ∅, cluster_of ["a"])).2 =
    (mkRA [demo4_net] [demo4] ([] ++ [mkReserved [net4 10 0 0 0 24] "gone"]) (∅ ∖ {[ "gone"%string ]}), w').
Proof.
  destruct (worker_unknown_node (mkRA [demo4_net] [demo4] [mkReserved [net4 10 0 0 0 24] "gone"] ∅) (cluster_of ["a"])
    (mkReserved [net4 10 0 0 0 24] "gone") [] (ErrStatus ReasonNotFound)) as (w' & E & _).
  - exact demo_sets_ok.
  - split; [discriminate|]. split; [reflexivity|]. apply Forall_singleton. exists 32, 24.
    apply net4_wf; [unfold byte_ok; lia..|lia|reflexivity].
  - reflexivity.
  - vm_compute. reflexivity.
  - exists w'. rewrite E. reflexivity.
Defined.

(** Two sets, the second with its only block taken. *)
Definition dual_sys : sys :=
  let full := (AllocateNext (set_of tiny_net 24)).2 in
  mkSys (demo_ra [demo4; full]) (cluster_of ["a"]) [].

(** When a later set is exhausted, [AllocateOrOccupyCIDR] fails without giving
    back what it took from the earlier ones: the first set has lost a block to
    no node, no item and no node in processing. *)
Theorem partial_allocation_leaks :
  let '(res, (r, w)) := AllocateOrOccupyCIDR (Some (bare_node "a")) (sys_ra dual_sys, sys_w dual_sys) in
  res = Err (Errorf "failed to allocate cidr from cluster cidr at idx:%v: %v") ∧
  allocatedCIDRs <$> head (cidrSets r) = Some 1 ∧ allocatedCIDRs <$> head (cidrSets (sys_ra dual_sys)) = Some 0 ∧
  nodeCIDRUpdateChannel r = [] ∧ nodesInProcessing r = ∅.
Proof. vm_compute. repeat split. Qed.
