(* ===== verification/GoStrings.v ===== *)
(** * GoStrings: strings, paths and name validation

    The parts of Go's [strings] and [path] and of the API machinery's name
    validation ([k8s.io/apimachinery/pkg/util/validation]) that the certificate
    and node controllers of [cmd/gcp-controller-manager] use. *)

From S2P Require Import Prelude Bits GoNet GoNetText.
Local Open Scope Z_scope.

(** ** Prefixes *)

(** What follows the prefix [p]. *)
Fixpoint cut_prefix (p s : string) : option string :=
  match p, s with
  | EmptyString, _ => Some s
  | String a p, String b s => if decide (a = b) then cut_prefix p s else None
  | String _ _, EmptyString => None
  end.
Definition HasPrefix (s p : string) : bool := bool_decide (is_Some (cut_prefix p s)).
Definition TrimPrefix (s p : string) : string := default s (cut_prefix p s).

Lemma cut_prefix_spec p s r : cut_prefix p s = Some r ↔ s = (p +:+ r)%string.
Proof.
  revert s. induction p as [|a p IH]; intros s; simpl.
  - split; [by intros [= ->]|by intros ->].
  - destruct s as [|b s]; [done|]. case_decide as Hd.
    + rewrite IH. split; [by intros ->; subst|by intros [= ->]].
    + split; [done|]. intros [= -> _]. done.
Qed.
Lemma HasPrefix_spec s p : HasPrefix s p = true ↔ ∃ r, s = (p +:+ r)%string.
Proof.
  unfold HasPrefix. rewrite bool_decide_eq_true. split; intros [r Hr]; exists r; by apply cut_prefix_spec.
Qed.
Lemma TrimPrefix_app p r : TrimPrefix (p +:+ r) p = r.
Proof. unfold TrimPrefix. by rewrite (proj2 (cut_prefix_spec p _ r) eq_refl). Qed.

(** ** [strings.SplitN(s, c, 2)], [strings.Contains], [strings.Replace(…, 1)] *)
Definition splitN2 (c : Ascii.ascii) (s : string) : list string :=
  match cut_on c s with Some (a, b) => [a; b] | None => [s] end.

Fixpoint replace1 (old new s : string) : string :=
  match cut_prefix old s with
  | Some rest => (new +:+ rest)%string
  | None => match s with EmptyString => EmptyString | String c s => String c (replace1 old new s) end
  end.

(** ** [path.Base] *)
Fixpoint strip_trailing (c : Ascii.ascii) (s : string) : string :=
  match s with
  | EmptyString => EmptyString
  | String d s =>
      match strip_trailing c s with
      | EmptyString => if decide (d = c) then EmptyString else String d EmptyString
      | r => String d r
      end
  end.
Definition path_Base (p : string) : string :=
  if bool_decide (p = EmptyString) then "."%string
  else match strip_trailing slash p with
       | EmptyString => "/"%string
       | q => List.last (split_on slash q) EmptyString
       end.

(** ** Names *)
Definition is_lower (c : Ascii.ascii) : bool := (97 <=? code c) && (code c <=? 122).
Definition is_upper (c : Ascii.ascii) : bool := (65 <=? code c) && (code c <=? 90).
Definition is_digit (c : Ascii.ascii) : bool := (48 <=? code c) && (code c <=? 57).
Definition dash : Ascii.ascii := chr 45.
Definition underscore : Ascii.ascii := chr 95.

Fixpoint all_chars (P : Ascii.ascii → bool) (s : string) : bool :=
  match s with EmptyString => true | String c s => P c && all_chars P s end.
Fixpoint last_char (s : string) : option Ascii.ascii :=
  match s with
  | EmptyString => None
  | String c EmptyString => Some c
  | String _ s => last_char s
  end.

(** [^first(mid*last)?$] for character classes with [first], [last] inside [mid]. *)
Definition matches (first mid last : Ascii.ascii → bool) (s : string) : bool :=
  match s with
  | EmptyString => false
  | String c _ => first c && all_chars mid s && match last_char s with Some d => last d | None => false end
  end.

Definition lower_or_digit (c : Ascii.ascii) : bool := is_lower c || is_digit c.
Definition label_char (c : Ascii.ascii) : bool := lower_or_digit c || bool_decide (c = dash).

(** [len(validation.IsDNS1035Label(value)) == 0] and its siblings. *)
Definition IsDNS1035Label (value : string) : bool :=
  (Z.of_nat (String.length value) <=? 63) && matches is_lower label_char lower_or_digit value.
Definition IsDNS1123Label (value : string) : bool :=
  (Z.of_nat (String.length value) <=? 63) && matches lower_or_digit label_char lower_or_digit value.
Definition IsDNS1123Subdomain (value : string) : bool :=
  (Z.of_nat (String.length value) <=? 253) &&
  forallb (matches lower_or_digit label_char lower_or_digit) (split_on dot value).

Example dns_labels : (IsDNS1035Label "istiod-1", IsDNS1035Label "1a", IsDNS1035Label "a-", IsDNS1123Subdomain "a.b-c.1", IsDNS1123Subdomain "a..b")
  = (true, false, false, true, false).
Proof. reflexivity. Qed.
Example path_bases : (path_Base "https://g/zones/us-central1-c", path_Base "a/b//", path_Base "//", path_Base EmptyString)
  = ("us-central1-c", "b", "/", ".")%string.
Proof. reflexivity. Qed.

(** ** [serviceaccount.SplitUsername] *)
Definition ServiceAccountUsernamePrefix : string := "system:serviceaccount:".
Definition SplitUsername (username : string) : outcome (string * string) :=
  match cut_prefix ServiceAccountUsernamePrefix username with
  | None => Err (Errorf "Username must be in the form system:serviceaccount:namespace:name")
  | Some trimmed =>
      match split_on colon trimmed with
      | [namespace; name] =>
          if IsDNS1123Label namespace && IsDNS1123Subdomain name then Ret (namespace, name)
          else Err (Errorf "Username must be in the form system:serviceaccount:namespace:name")
      | _ => Err (Errorf "Username must be in the form system:serviceaccount:namespace:name")
      end
  end.

(** ** [strings.Split] at a separator, [strings.Contains], [strings.LastIndex] *)

(** The text before and after the first occurrence. *)
Fixpoint cut_str (sep s : string) : option (string * string) :=
  match cut_prefix sep s with
  | Some r => Some (EmptyString, r)
  | None => match s with
            | EmptyString => None
            | String c s => match cut_str sep s with Some (a, b) => Some (String c a, b) | None => None end
            end
  end.
Definition Contains (s sub : string) : bool := bool_decide (is_Some (cut_str sub s)).

Fixpoint split_fuel (fuel : nat) (sep s : string) : list string :=
  match fuel, cut_str sep s with
  | S fuel, Some (a, b) => a :: split_fuel fuel sep b
  | _, _ => [s]
  end.
(** The separator is not empty: each cut removes at least one byte. *)
Definition split_str (sep s : string) : list string := split_fuel (String.length s) sep s.

(** The text before and after the last occurrence of a byte. *)
Fixpoint cut_last (c : Ascii.ascii) (s : string) : option (string * string) :=
  match s with
  | EmptyString => None
  | String d s =>
      match cut_last c s with
      | Some (a, b) => Some (String d a, b)
      | None => if decide (d = c) then Some (EmptyString, s) else None
      end
  end.

Lemma cut_str_spec sep s a b : cut_str sep s = Some (a, b) → s = (a +:+ sep +:+ b)%string.
Proof.
  revert a. induction s as [|c s IH]; intros a; simpl.
  - destruct (cut_prefix sep EmptyString) eqn:Hp; [|done]. intros [= <- <-]. by apply cut_prefix_spec in Hp.
  - destruct (cut_prefix sep (String c s)) eqn:Hp; [intros [= <- <-]; by apply cut_prefix_spec in Hp|].
    destruct (cut_str sep s) as [[a' b']|]; [|done]. intros [= <- <-].
    change (String c a' +:+ sep +:+ b')%string with (String c (a' +:+ sep +:+ b')). f_equal. by apply IH.
Qed.

Lemma cut_prefix_head c sep s : has_char c s = false → cut_prefix (String c sep) s = None.
Proof.
  destruct s as [|d s]; simpl; [done|]. intros [Hd _]%orb_false_iff. apply bool_decide_eq_false_1 in Hd.
  by rewrite decide_False by congruence.
Qed.
Lemma cut_str_none c sep s : has_char c s = false → cut_str (String c sep) s = None.
Proof.
  induction s as [|d s IH]; intros Hs; [done|]. unfold cut_str; fold cut_str. rewrite cut_prefix_head by done.
  simpl in Hs. apply orb_false_iff in Hs as [_ Hs]. by rewrite IH.
Qed.
Lemma cut_str_app c sep a b : has_char c a = false →
  cut_str (String c sep) (a +:+ String c sep +:+ b) = Some (a, b).
Proof.
  induction a as [|d a IH]; intros Ha.
  - change (EmptyString +:+ String c sep +:+ b)%string with (String c sep +:+ b)%string.
    assert (cut_prefix (String c sep) (String c sep +:+ b) = Some b) as Hp by by apply cut_prefix_spec.
    destruct (String c sep +:+ b)%string; unfold cut_str; fold cut_str; by rewrite Hp.
  - simpl in Ha. apply orb_false_iff in Ha as [Hd Ha]. apply bool_decide_eq_false_1 in Hd.
    change (String d a +:+ String c sep +:+ b)%string with (String d (a +:+ String c sep +:+ b)).
    unfold cut_str; fold cut_str. simpl (cut_prefix _ (String d _)). rewrite decide_False by congruence. by rewrite IH.
Qed.

Lemma split_fuel_join n c sep w l :
  Forall (λ s, has_char c s = false) (w :: l) → (length l ≤ n)%nat →
  split_fuel n (String c sep) (join_with (String c sep) (w :: l)) = w :: l.
Proof.
  revert w n. induction l as [|v l IH]; intros w n Hl Hn.
  - apply Forall_inv in Hl. change (join_with (String c sep) [w]) with w. destruct n; simpl; by rewrite ?cut_str_none.
  - destruct n as [|n]; [simpl in Hn; lia|]. inversion_clear Hl as [|?? Hw Hl'].
    change (join_with (String c sep) (w :: v :: l)) with (w +:+ String c sep +:+ join_with (String c sep) (v :: l))%string.
    simpl split_fuel. rewrite cut_str_app by done. f_equal. apply IH; [done|simpl in Hn; lia].
Qed.
Lemma length_join_with c sep w l : (length l ≤ String.length (join_with (String c sep) (w :: l)))%nat.
Proof.
  revert w. induction l as [|v l IH]; intros w; [simpl; lia|].
  change (join_with (String c sep) (w :: v :: l)) with (w +:+ String c sep +:+ join_with (String c sep) (v :: l))%string.
  rewrite !string_length_app. specialize (IH v). simpl in *. lia.
Qed.
Lemma split_str_join c sep l : l ≠ [] → Forall (λ s, has_char c s = false) l →
  split_str (String c sep) (join_with (String c sep) l) = l.
Proof. destruct l as [|w l]; [done|]. intros _ Hl. apply split_fuel_join; [done|]. apply length_join_with. Qed.

(** ** [strings.HasSuffix] *)
Fixpoint HasSuffix (s suffix : string) : bool :=
  bool_decide (s = suffix) || match s with EmptyString => false | String _ s => HasSuffix s suffix end.
Lemma HasSuffix_spec s t : HasSuffix s t = true ↔ ∃ p, s = (p +:+ t)%string.
Proof.
  split.
  - induction s as [|c s IH]; simpl; rewrite orb_true_iff, bool_decide_eq_true; intros [Heq|Hs].
    + by exists EmptyString.
    + done.
    + by exists EmptyString.
    + destruct (IH Hs) as [p ->]. by exists (String c p).
  - intros [p ->]. induction p as [|c p IH].
    + change (EmptyString +:+ t)%string with t. assert (bool_decide (t = t) = true) as Ht by (by apply bool_decide_eq_true_2).
      destruct t; cbn [HasSuffix]; by rewrite Ht.
    + change (String c p +:+ t)%string with (String c (p +:+ t)). cbn [HasSuffix]. by rewrite IH, orb_true_r.
Qed.
