(* ===== verification/IoLogic.v ===== *)
(** * IoLogic: postconditions of effectful code

    [wp m Q w]: running [m] from [w] ends in a result and a world that satisfy
    [Q], whether the result is a value, an error or a panic.  The rules follow
    the combinators of [io]; [wp_steps] applies them.  [quiet] and [keeps] are the
    two shapes most code has: it leaves a log alone, or keeps an invariant. *)

From S2P Require Import Prelude K8s.

Definition wp {W A} (m : io W A) (Q : outcome A → W → Prop) (w : W) : Prop := Q (m w).1 (m w).2.

Section rules.
Context {W : Type}.

Lemma wp_run {A} (m : io W A) Q w r w' : m w = (r, w') → wp m Q w → Q r w'.
Proof. unfold wp. by intros ->. Qed.
Lemma wp_intro {A} (m : io W A) (Q : outcome A → W → Prop) w : (∀ r w', m w = (r, w') → Q r w') → wp m Q w.
Proof. unfold wp. destruct (m w) as [r w']. intros H. by apply H. Qed.
Lemma wp_mono {A} (m : io W A) (P Q : outcome A → W → Prop) w : (∀ r w', P r w' → Q r w') → wp m P w → wp m Q w.
Proof. unfold wp. auto. Qed.

Lemma wp_ret {A} (a : A) (Q : outcome A → W → Prop) w : Q (Ret a) w → wp (mret a) Q w.
Proof. done. Qed.
Lemma wp_fail {A} e (Q : outcome A → W → Prop) w : Q (Err e) w → wp (fail e) Q w.
Proof. done. Qed.
Lemma wp_lift {A} o (Q : outcome A → W → Prop) w : Q o w → wp (lift o) Q w.
Proof. done. Qed.
Lemma wp_bind {A B} (m : io W A) (f : A → io W B) Q w :
  wp m (λ r w', match r with Ret a => wp (f a) Q w' | Err e => Q (Err e) w' | Panic => Q Panic w' end) w →
  wp (m ≫= f) Q w.
Proof. unfold wp. rewrite io_bind_eq. by destruct (m w) as [[a|e|] w1]. Qed.
Lemma wp_try {A} (m : io W A) (Q : outcome (error + A) → W → Prop) w :
  wp m (λ r w', match r with Ret a => Q (Ret (inr a)) w' | Err e => Q (Ret (inl e)) w' | Panic => Q Panic w' end) w →
  wp (try m) Q w.
Proof. unfold wp, try. by destruct (m w) as [[a|e|] w1]. Qed.
Lemma wp_put f (Q : outcome unit → W → Prop) w : Q (Ret tt) (f w) → wp (put f) Q w.
Proof. done. Qed.
End rules.

Ltac wp_step :=
  lazymatch goal with
  | |- wp (_ ≫= _) _ _ => apply wp_bind
  | |- wp (try _) _ _ => apply wp_try
  | |- wp (mret _) _ _ => apply wp_ret
  | |- wp (fail _) _ _ => apply wp_fail
  | |- wp (lift _) _ _ => apply wp_lift
  | |- wp (put _) _ _ => apply wp_put
  end.
Ltac wp_steps := repeat (wp_step; cbv beta iota).

(** ** Questions

    Code that leaves a log of the world alone. *)
Section quiet.
Context {W L : Type}.
Variable log : W → L.

(** [m] leaves the log, and what it returns satisfies [P]. *)
Definition quiet {A} (m : io W A) (P : A → Prop) : Prop :=
  ∀ w, wp m (λ r w', log w' = log w ∧ ∀ a, r = Ret a → P a) w.

Lemma quiet_mono {A} (m : io W A) (P Q : A → Prop) : (∀ a, P a → Q a) → quiet m P → quiet m Q.
Proof. intros HPQ Hm w. eapply wp_mono, Hm. intros r w' [??]. eauto. Qed.
Lemma quiet_ret {A} (a : A) (P : A → Prop) : P a → quiet (mret a) P.
Proof. intros HP w. wp_step. split; [done|]. by intros b [= <-]. Qed.
Lemma quiet_fail {A} e (P : A → Prop) : quiet (fail e) P.
Proof. intros w. wp_step. by split. Qed.
Lemma quiet_lift {A} o (P : A → Prop) : (∀ a, o = Ret a → P a) → quiet (lift o) P.
Proof. intros HP w. wp_step. by split. Qed.
Lemma quiet_bind {A B} (m : io W A) (f : A → io W B) (P : A → Prop) (Q : B → Prop) :
  quiet m P → (∀ a, P a → quiet (f a) Q) → quiet (m ≫= f) Q.
Proof.
  intros Hm Hf w. wp_step. eapply wp_mono, Hm. intros [a|e|] w' [Hl HP]; [|by split..].
  eapply wp_mono, Hf; [|by apply HP]. intros r w'' [Hl' ?]. split; [congruence|done].
Qed.
Lemma quiet_try {A} (m : io W A) (P : A → Prop) :
  quiet m P → quiet (try m) (λ r, match r with inl _ => True | inr a => P a end).
Proof.
  intros Hm w. wp_step. eapply wp_mono, Hm.
  intros [a|e|] w' [Hl HP]; (split; [done|]); intros r [= <-]; auto.
Qed.
End quiet.

(** One rule for the head of a question; what remains are calls and branches. *)
Ltac quiet_step :=
  cbv beta iota zeta;
  lazymatch goal with
  | |- quiet _ (mret _) _ => apply quiet_ret
  | |- quiet _ (fail _) _ => apply quiet_fail
  | |- quiet _ (lift _) _ => apply quiet_lift
  | |- quiet _ (try _ ≫= _) _ => eapply quiet_bind; [apply quiet_try|]
  | |- quiet _ (_ ≫= _) _ => eapply quiet_bind; [|]
  end.

(** ** Invariants *)
Section keeps.
Context {S : Type}.
Variable inv : S → Prop.

(** [m] keeps the invariant, and what it returns satisfies [P]. *)
Definition keeps {A} (m : io S A) (P : A → Prop) : Prop :=
  ∀ s, inv s → wp m (λ r s', inv s' ∧ ∀ a, r = Ret a → P a) s.

Lemma keeps_mono {A} (m : io S A) (P Q : A → Prop) : (∀ a, P a → Q a) → keeps m P → keeps m Q.
Proof. intros HPQ Hm s Hs. eapply wp_mono, Hm, Hs. intros r s' [??]. eauto. Qed.
Lemma keeps_ret {A} (a : A) (P : A → Prop) : P a → keeps (mret a) P.
Proof. intros HP s Hs. wp_step. split; [done|]. by intros b [= <-]. Qed.
Lemma keeps_fail {A} e (P : A → Prop) : keeps (fail e) P.
Proof. intros s Hs. wp_step. by split. Qed.
Lemma keeps_lift {A} o (P : A → Prop) : (∀ a, o = Ret a → P a) → keeps (lift o) P.
Proof. intros HP s Hs. wp_step. by split. Qed.
Lemma keeps_put f : (∀ s, inv s → inv (f s)) → keeps (put f) (λ _, True).
Proof. intros Hf s Hs. wp_step. split; [by apply Hf|done]. Qed.
Lemma keeps_bind {A B} (m : io S A) (f : A → io S B) (P : A → Prop) (Q : B → Prop) :
  keeps m P → (∀ a, P a → keeps (f a) Q) → keeps (m ≫= f) Q.
Proof.
  intros Hm Hf s Hs. wp_step. eapply wp_mono, Hm, Hs. intros [a|e|] s' [Hs' HP]; [|by split..].
  by apply Hf; [apply HP|].
Qed.
Lemma keeps_try {A} (m : io S A) (P : A → Prop) :
  keeps m P → keeps (try m) (λ r, match r with inl _ => True | inr a => P a end).
Proof.
  intros Hm s Hs. wp_step. eapply wp_mono, Hm, Hs.
  intros [a|e|] s' [Hs' HP]; (split; [done|]); intros r [= <-]; auto.
Qed.
Lemma keeps_ask : keeps ask inv.
Proof. intros s Hs. unfold wp. simpl. split; [done|]. by intros a [= <-]. Qed.
End keeps.

Lemma keeps_on_snd {R S A} (inv : S → Prop) (inv' : R * S → Prop) (m : io S A) (P : A → Prop) :
  (∀ r s, inv' (r, s) → inv s) → (∀ r s s', inv' (r, s) → inv s' → inv' (r, s')) →
  keeps inv m P → keeps inv' (on_snd m) P.
Proof.
  intros H1 H2 Hm [r s] Hs. specialize (Hm s (H1 _ _ Hs)). unfold wp, on_snd in *. simpl in *.
  destruct (m s) as [o s']. simpl in *. destruct Hm as [Hm ?]. eauto.
Qed.

Ltac keeps_step :=
  cbv beta iota zeta;
  lazymatch goal with
  | |- keeps _ (mret _) _ => apply keeps_ret
  | |- keeps _ (fail _) _ => apply keeps_fail
  | |- keeps _ (lift _) _ => apply keeps_lift
  | |- keeps _ (put _) _ => apply keeps_put
  | |- keeps _ (ask ≫= _) _ => eapply keeps_bind; [apply keeps_ask|]
  | |- keeps _ (try _ ≫= _) _ => eapply keeps_bind; [apply keeps_try|]
  | |- keeps _ (_ ≫= _) _ => eapply keeps_bind; [|]
  end.
