(* ===== verification/Csr.v ===== *)
(** * Csr: certificate signing requests

    The objects the approvers of [cmd/gcp-controller-manager] and
    [pkg/csrapproval] work on, the API they call, the recognizers of node
    certificates and the workflow [HandleCSR].  The parser of certificate
    requests is the class [CertParser]: X.509, PEM and signatures are not
    modelled, only what the approvers do with the results. *)

From S2P Require Import Prelude Bits GoNet GoNetText GoStrings K8s.
Local Open Scope Z_scope.

(** ** [certificates.k8s.io/v1] *)
Record CSRCondition : Type := mkCSRCond {
  cc_Type : string; cc_Reason : string; cc_Message : string; cc_Status : string
}.
Record CSR : Type := mkCSR {
  csr_Name : string;
  csr_Request : string;
  csr_SignerName : string;
  csr_Usages : list string;
  csr_Username : string;
  csr_UID : string;
  csr_Groups : list string;
  csr_Extra : gmap string (list string);
  csr_Conditions : list CSRCondition;
  csr_Certificate : string
}.
#[global] Instance CSRCondition_eq_dec : EqDecision CSRCondition. Proof. solve_decision. Defined.
#[global] Instance CSR_eq_dec : EqDecision CSR. Proof. solve_decision. Defined.

Definition CertificateApproved : string := "Approved".
Definition CertificateDenied : string := "Denied".
Definition UsageKeyEncipherment : string := "key encipherment".
Definition UsageDigitalSignature : string := "digital signature".
Definition UsageClientAuth : string := "client auth".
Definition UsageServerAuth : string := "server auth".
Definition KubeAPIServerClientSignerName : string := "kubernetes.io/kube-apiserver-client".
Definition KubeAPIServerClientKubeletSignerName : string := "kubernetes.io/kube-apiserver-client-kubelet".
Definition KubeletServingSignerName : string := "kubernetes.io/kubelet-serving".
Definition LegacyUnknownSignerName : string := "kubernetes.io/legacy-unknown".

(** [crypto.PublicKey]: an ECDSA key by curve and point, or another kind. *)
Inductive PublicKey : Type := ECDSAKey (curve : string) (X Y : Z) | OtherKey (kind : string).

(** The parts of [x509.CertificateRequest] the approvers read. *)
Record X509Request : Type := mkX509 {
  Organization : list string;
  CommonName : string;
  EmailAddresses : list string;
  URIs : list string;
  DNSNames : list string;
  IPAddresses : list (list Z);
  x509_PublicKey : PublicKey
}.

(** [certutil.ParseCSR]. *)
Class CertParser : Type := { ParseCSR : string → outcome X509Request }.

(** ** [authorization.k8s.io/v1] *)
Record ResourceAttributes : Type := mkAttrs {
  ra_Group : string; ra_Resource : string; ra_Verb : string; ra_Subresource : string
}.
Record SubjectAccessReview : Type := mkSAR {
  sar_User : string; sar_UID : string; sar_Groups : list string;
  sar_Extra : gmap string (list string); sar_Attributes : ResourceAttributes
}.

(** [Create] of a review gives [Status.Allowed]; [UpdateApproval] sends the
    conditions of the object, [UpdateStatus] its status. *)
Class CsrClient (W : Type) : Type := {
  SubjectAccessReviews_Create : SubjectAccessReview → io W bool;
  CSRs_UpdateApproval : CSR → io W unit;
  CSRs_UpdateStatus : CSR → io W CSR
}.

Definition with_condition (c : CSRCondition) (csr : CSR) : CSR :=
  mkCSR (csr_Name csr) (csr_Request csr) (csr_SignerName csr) (csr_Usages csr) (csr_Username csr) (csr_UID csr)
    (csr_Groups csr) (csr_Extra csr) (csr_Conditions csr ++ [c]) (csr_Certificate csr).
Definition with_certificate (c : string) (csr : CSR) : CSR :=
  mkCSR (csr_Name csr) (csr_Request csr) (csr_SignerName csr) (csr_Usages csr) (csr_Username csr) (csr_UID csr)
    (csr_Groups csr) (csr_Extra csr) (csr_Conditions csr) c.

(** [getCertApprovalCondition]: whether an approval, and whether a denial, is there. *)
Fixpoint getCertApprovalCondition (conds : list CSRCondition) : bool * bool :=
  match conds with
  | [] => (false, false)
  | c :: cs =>
      let '(approved, denied) := getCertApprovalCondition cs in
      (bool_decide (cc_Type c = CertificateApproved) || approved, bool_decide (cc_Type c = CertificateDenied) || denied)
  end.

(** ** Recognizers *)

(** [hasExactUsages]: as many usages, each of them allowed. *)
Definition hasExactUsages (csr : CSR) (usages : list string) : bool :=
  if negb (length usages =? length (csr_Usages csr))%nat then false
  else forallb (λ u, bool_decide (u ∈ (list_to_set usages : gset string))) (csr_Usages csr).

Definition nodeClientKeyUsages : list string := [UsageKeyEncipherment; UsageDigitalSignature; UsageClientAuth].
Definition nodeClientKeyUsagesNoEncipherment : list string := [UsageDigitalSignature; UsageClientAuth].
Definition nodeServerKeyUsages : list string := [UsageKeyEncipherment; UsageDigitalSignature; UsageServerAuth].
Definition nodeServerKeyUsagesNoEncipherment : list string := [UsageDigitalSignature; UsageServerAuth].

Definition isNodeCert (x509cr : X509Request) : bool :=
  if negb (bool_decide (Organization x509cr = ["system:nodes"%string])) then false
  else if negb (bool_decide (EmailAddresses x509cr = [])) then false
  else HasPrefix (CommonName x509cr) "system:node:".

Definition IsNodeClientCert (csr : CSR) (x509cr : X509Request) : bool :=
  if negb (isNodeCert x509cr) then false
  else if negb (bool_decide (DNSNames x509cr = [])) || negb (bool_decide (IPAddresses x509cr = [])) then false
  else hasExactUsages csr nodeClientKeyUsagesNoEncipherment || hasExactUsages csr nodeClientKeyUsages.

Definition IsNodeServerCert (csr : CSR) (x509cr : X509Request) : bool :=
  if negb (isNodeCert x509cr) then false
  else if negb (hasExactUsages csr nodeServerKeyUsagesNoEncipherment) && negb (hasExactUsages csr nodeServerKeyUsages) then false
  else bool_decide (csr_Username csr = CommonName x509cr).

(** ** Reviews and decisions *)
Definition accessReview (csr : CSR) (rattrs : ResourceAttributes) : SubjectAccessReview :=
  mkSAR (csr_Username csr) (csr_UID csr) (csr_Groups csr) (csr_Extra csr) rattrs.

Definition approvalCondition (approved : bool) (msg : string) : CSRCondition :=
  if approved then mkCSRCond CertificateApproved "AutoApproved" msg ConditionTrue
  else mkCSRCond CertificateDenied "AutoDenied" msg ConditionTrue.

Section approval.
Context {W : Type} `{CertParser} `{CsrClient W}.

Definition subjectAccessReview (csr : CSR) (rattrs : ResourceAttributes) : io W bool :=
  SubjectAccessReviews_Create (accessReview csr rattrs).

Definition updateCSR (csr : CSR) (approved : bool) (msg : string) : io W unit :=
  r ← try (CSRs_UpdateApproval (with_condition (approvalCondition approved msg) csr));
  match r with
  | inl _ => fail (Errorf "error updating approval status for csr: %v")
  | inr _ => mret tt
  end.

(** ** [pkg/csrapproval]: the workflow *)
Record Options : Type := mkOptions {
  opt_Name : string; opt_Label : string; opt_ApproveMsg : string; opt_DenyMsg : string; opt_Permission : ResourceAttributes
}.

(** A validator; its methods may call out, and get the request by value. *)
Record Validator : Type := mkValidator {
  v_Opts : Options;
  v_Recognize : CSR → X509Request → io W bool;
  v_Validate : CSR → X509Request → io W bool;
  v_PreApproveHook : CSR → X509Request → io W unit
}.

(** The loop over the validators, with the names of those that recognized the
    request but whose review was refused. *)
Fixpoint tryValidators (vs : list Validator) (tried : list string) (csr : CSR) (x509cr : X509Request) : io W unit :=
  match vs with
  | [] =>
      if bool_decide (tried ≠ [])
      then fail (Errorf "recognized csr %q as %q but subject access review was not approved")
      else mret tt
  | r :: vs =>
      rec ← v_Recognize r csr x509cr;
      if negb rec then tryValidators vs tried csr x509cr
      else
        let tried := tried ++ [opt_Name (v_Opts r)] in
        ok ← try (v_Validate r csr x509cr);
        match ok with
        | inl _ => fail (Errorf "validating CSR %q: %v")
        | inr false => updateCSR csr false (opt_DenyMsg (v_Opts r))
        | inr true =>
            approved ← subjectAccessReview csr (opt_Permission (v_Opts r));
            if negb approved then tryValidators vs tried csr x509cr
            else
              _ ← v_PreApproveHook r csr x509cr;
              updateCSR csr true (opt_ApproveMsg (v_Opts r))
        end
  end.

(** Already issued or decided: nothing is left to do. *)
Definition settled (csr : CSR) : bool :=
  negb (bool_decide (csr_Certificate csr = EmptyString)) ||
  let '(approved, denied) := getCertApprovalCondition (csr_Conditions csr) in approved || denied.

Definition HandleCSR (vs : list Validator) (csr : CSR) : io W unit :=
  if settled csr then mret tt
  else
    match ParseCSR (csr_Request csr) with
    | Ret x509cr => tryValidators vs [] csr x509cr
    | Err _ => fail (Errorf "unable to parse csr %q: %v")
    | Panic => lift Panic
    end.
End approval.
Arguments Validator : clear implicits.
