(* ===== verification/Json.v ===== *)
(** * Json: the part of Go's [encoding/json] the program needs

    The codec of the annotation values of [crd/apis/network/v1/annotations.go]:
    slices of structs all of whose fields are strings (or slices of strings when
    encoding).  [json.Marshal] escapes as Go 1.22 does (HTML characters, control
    characters, U+2028 and U+2029, invalid UTF-8); [json.Unmarshal] first checks
    the syntax of the whole input (nothing is stored when it is wrong), then
    stores what fits, remembers the first type mismatch and returns it with what
    was stored.  Field names match exactly or up to case.  One struct of strings
    may also be written with indentation and read back. *)
From S2P Require Import Prelude Bits GoNet GoNetText.
Local Open Scope Z_scope.

(** ** Bytes *)
Definition ch (n : Z) : Ascii.ascii := Ascii.ascii_of_N (Z.to_N n).
Abbreviation bytes l := (fold_right (λ n s, String (ch n) s) EmptyString l).

Definition is_byte (n : Z) (c : Ascii.ascii) : bool := code c =? n.

(** [utf8.DecodeRune] at the head of a string whose first byte is not ASCII:
    the number of bytes of the rune, [None] for an invalid sequence. *)
Definition between (lo hi : Z) (c : Ascii.ascii) : bool := (lo <=? code c) && (code c <=? hi).

Definition utf8_size (s : string) : option nat :=
  match s with
  | String a (String b s2) =>
      if between 194 223 a then if between 128 191 b then Some 2%nat else None
      else match s2 with
      | String c s3 =>
          if between 224 239 a then
            if between (if code a =? 224 then 160 else 128) (if code a =? 237 then 159 else 191) b
               && between 128 191 c then Some 3%nat else None
          else match s3 with
          | String d _ =>
              if between 240 244 a then
                if between (if code a =? 240 then 144 else 128) (if code a =? 244 then 143 else 191) b
                   && between 128 191 c && between 128 191 d then Some 4%nat else None
              else None
          | EmptyString => None
          end
      | EmptyString => None
      end
  | _ => None
  end.

(** [utf8.AppendRune] for a rune that is a scalar value. *)
Definition utf8_encode (r : Z) : string :=
  if r <? 128 then bytes [r]
  else if r <? 2048 then bytes [192 + Z.shiftr r 6; 128 + r mod 64]
  else if r <? 65536 then bytes [224 + Z.shiftr r 12; 128 + Z.shiftr r 6 mod 64; 128 + r mod 64]
  else bytes [240 + Z.shiftr r 18; 128 + Z.shiftr r 12 mod 64; 128 + Z.shiftr r 6 mod 64; 128 + r mod 64].

(** [utf8.RuneError]. *)
Definition RuneError : Z := 65533.

(** ** [json.Marshal] *)

Definition hex2 (n : Z) : string := String (hex_char (Z.shiftr n 4)) (String (hex_char (n mod 16)) EmptyString).

(** One ASCII byte of a string, escaped for HTML. *)
Definition escape_ascii (c : Ascii.ascii) : string :=
  let n := code c in
  if (n =? 34) || (n =? 92) then String (ch 92) (String c EmptyString)
  else if n =? 8 then "\b" else if n =? 12 then "\f" else if n =? 10 then "\n"
  else if n =? 13 then "\r" else if n =? 9 then "\t"
  else if (n <? 32) || (n =? 60) || (n =? 62) || (n =? 38) then ("\u00" +:+ hex2 n)%string
  else String c EmptyString.

(** [appendString]; every turn consumes a byte. *)
Fixpoint escape (fuel : nat) (s : string) : string :=
  match fuel with
  | O => EmptyString
  | S fuel =>
      match s with
      | EmptyString => EmptyString
      | String c s' =>
          if code c <? 128 then (escape_ascii c +:+ escape fuel s')%string
          else match utf8_size s with
          | None => ("\ufffd" +:+ escape fuel s')%string
          | Some k =>
              let rune := String.substring 0 k s in
              let rest := String.substring k (String.length s - k) s in
              ((if bool_decide (rune = bytes [226; 128; 168]) then "\u2028"%string
                else if bool_decide (rune = bytes [226; 128; 169]) then "\u2029"%string else rune)
               +:+ escape fuel rest)%string
          end
      end
  end.

Definition quote : string := String (ch 34) EmptyString.
Definition marshal_string (s : string) : string := (quote +:+ escape (String.length s) s +:+ quote)%string.

(** The values of the structs' fields. *)
Inductive fieldValue : Type := FString (s : string) | FStrings (l : list string).

Definition marshal_strings (l : list string) : string :=
  ("[" +:+ join_with "," (map marshal_string l) +:+ "]")%string.
Definition marshal_field (kv : string * fieldValue) : string :=
  (marshal_string kv.1 +:+ ":" +:+
   match kv.2 with FString s => marshal_string s | FStrings l => marshal_strings l end)%string.
Definition marshal_struct (fs : list (string * fieldValue)) : string :=
  ("{" +:+ join_with "," (map marshal_field fs) +:+ "}")%string.
(** A slice that is not nil. *)
Definition marshal_slice (l : list (list (string * fieldValue))) : string :=
  ("[" +:+ join_with "," (map marshal_struct l) +:+ "]")%string.

(** ** Syntax *)
Inductive json : Type :=
| JNull | JBool (b : bool) | JNumber (s : string) | JString (s : string)
| JArray (l : list json) | JObject (l : list (string * json)).

Definition is_space (c : Ascii.ascii) : bool :=
  is_byte 32 c || is_byte 9 c || is_byte 13 c || is_byte 10 c.

Fixpoint skip_space (s : string) : string :=
  match s with String c s' => if is_space c then skip_space s' else s | EmptyString => EmptyString end.

Fixpoint skip_digits (s : string) : string :=
  match s with String c s' => match digit c with Some _ => skip_digits s' | None => s end | _ => s end.

(** One or more digits. *)
Definition some_digits (s : string) : option string :=
  match s with String c s' => match digit c with Some _ => Some (skip_digits s') | None => None end | _ => None end.

(** The rest after a number literal. *)
Definition scan_number (s : string) : option string :=
  let s := match s with String c s' => if is_byte 45 c then s' else s | _ => s end in
  s ← match s with
      | String c s' => if is_byte 48 c then Some s' else some_digits s
      | _ => None
      end;
  s ← match s with String c s' => if is_byte 46 c then some_digits s' else Some s | _ => Some s end;
  match s with
  | String c s' =>
      if is_byte 101 c || is_byte 69 c then
        some_digits match s' with String d s'' => if is_byte 43 d || is_byte 45 d then s'' else s' | _ => s' end
      else Some s
  | _ => Some s
  end.

(** The four hexadecimal digits of [\uXXXX]. *)
Definition scan_u4 (s : string) : option (Z * string) :=
  match s with
  | String a (String b (String c (String d s'))) =>
      x ← hex_digit a; y ← hex_digit b; z ← hex_digit c; t ← hex_digit d;
      Some (((x * 16 + y) * 16 + z) * 16 + t, s')
  | _ => None
  end.

(** The characters of a string up to the closing quote, unquoted as
    [unquoteBytes] does: a lone surrogate or an invalid byte becomes U+FFFD. *)
Fixpoint scan_string (fuel : nat) (s : string) : option (string * string) :=
  match fuel with
  | O => None
  | S fuel =>
      let emit (out rest : string) := '(v, r) ← scan_string fuel rest; Some ((out +:+ v)%string, r) in
      match s with
      | EmptyString => None
      | String c s' =>
          if is_byte 34 c then Some (EmptyString, s')
          else if is_byte 92 c then
            match s' with
            | EmptyString => None
            | String e rest =>
                if is_byte 34 e || is_byte 92 e || is_byte 47 e then emit (String e EmptyString) rest
                else if is_byte 98 e then emit (bytes [8]) rest
                else if is_byte 102 e then emit (bytes [12]) rest
                else if is_byte 110 e then emit (bytes [10]) rest
                else if is_byte 114 e then emit (bytes [13]) rest
                else if is_byte 116 e then emit (bytes [9]) rest
                else if is_byte 117 e then
                  '(r, rest) ← scan_u4 rest;
                  if (55296 <=? r) && (r <=? 57343) then
                    match rest with
                    | String b (String u rest2) =>
                        if is_byte 92 b && is_byte 117 u then
                          match scan_u4 rest2 with
                          | Some (r2, rest3) =>
                              if (r <=? 56319) && (56320 <=? r2) && (r2 <=? 57343)
                              then emit (utf8_encode (65536 + (r - 55296) * 1024 + (r2 - 56320))) rest3
                              else emit (utf8_encode RuneError) rest
                          | None => None
                          end
                        else emit (utf8_encode RuneError) rest
                    | _ => emit (utf8_encode RuneError) rest
                    end
                  else emit (utf8_encode r) rest
                else None
            end
          else if code c <? 32 then None
          else if code c <? 128 then emit (String c EmptyString) s'
          else match utf8_size s with
          | None => emit (utf8_encode RuneError) s'
          | Some k => emit (String.substring 0 k s) (String.substring k (String.length s - k) s)
          end
      end
  end.

Definition maxNestingDepth : Z := 10000.

(** A literal name after its first letter. *)
Definition literal (w : string) (v : json) (s : string) : option (json * string) :=
  if String.prefix w s then Some (v, String.substring (String.length w) (String.length s - String.length w) s)
  else None.

(** A value at the head of [s], blanks before it skipped; the values of an
    array up to the closing bracket; the members of an object up to the closing
    brace.  [depth] counts the open brackets. *)
Fixpoint parse_value (fuel : nat) (depth : Z) (s : string) : option (json * string) :=
  match fuel with
  | O => None
  | S fuel =>
      let s := skip_space s in
      match s with
      | EmptyString => None
      | String c s' =>
          if is_byte 91 c then
            if maxNestingDepth <? depth + 1 then None
            else match skip_space s' with
            | String d r => if is_byte 93 d then Some (JArray [], r)
                            else '(l, r) ← parse_elems fuel (depth + 1) s'; Some (JArray l, r)
            | EmptyString => None
            end
          else if is_byte 123 c then
            if maxNestingDepth <? depth + 1 then None
            else match skip_space s' with
            | String d r => if is_byte 125 d then Some (JObject [], r)
                            else '(l, r) ← parse_members fuel (depth + 1) s'; Some (JObject l, r)
            | EmptyString => None
            end
          else if is_byte 34 c then '(v, r) ← scan_string (S (String.length s')) s'; Some (JString v, r)
          else if is_byte 110 c then literal "null" JNull s
          else if is_byte 116 c then literal "true" (JBool true) s
          else if is_byte 102 c then literal "false" (JBool false) s
          else r ← scan_number s; Some (JNumber (String.substring 0 (String.length s - String.length r) s), r)
      end
  end
with parse_elems (fuel : nat) (depth : Z) (s : string) : option (list json * string) :=
  match fuel with
  | O => None
  | S fuel =>
      '(v, r) ← parse_value fuel depth s;
      match skip_space r with
      | String c r' =>
          if is_byte 44 c then '(l, r) ← parse_elems fuel depth r'; Some (v :: l, r)
          else if is_byte 93 c then Some ([v], r') else None
      | EmptyString => None
      end
  end
with parse_members (fuel : nat) (depth : Z) (s : string) : option (list (string * json) * string) :=
  match fuel with
  | O => None
  | S fuel =>
      match skip_space s with
      | String q s' =>
          if is_byte 34 q then
            '(k, r) ← scan_string (S (String.length s')) s';
            match skip_space r with
            | String c r =>
                if is_byte 58 c then
                  '(v, r) ← parse_value fuel depth r;
                  match skip_space r with
                  | String c r' =>
                      if is_byte 44 c then '(l, r) ← parse_members fuel depth r'; Some ((k, v) :: l, r)
                      else if is_byte 125 c then Some ([(k, v)], r') else None
                  | EmptyString => None
                  end
                else None
            | EmptyString => None
            end
          else None
      | EmptyString => None
      end
  end.

(** The whole input is one value.  A call consumes a byte or makes one that
    does, so twice the length is fuel enough. *)
Definition json_of (s : string) : option json :=
  '(v, r) ← parse_value (2 * String.length s + 2) 0 s;
  match skip_space r with EmptyString => Some v | _ => None end.

(** ** [json.Unmarshal] into a slice of structs of strings *)

(** Case folding of a field name: the runes that fold to an ASCII letter are
    the letter in either case, U+017F (s) and U+212A (k). *)
Fixpoint foldName (s : string) : string :=
  match s with
  | EmptyString => EmptyString
  | String c s1 =>
      match s1 with
      | String d s2 =>
          if is_byte 197 c && is_byte 191 d then String (ch 83) (foldName s2)
          else match s2 with
          | String e s3 =>
              if is_byte 226 c && is_byte 132 d && is_byte 170 e then String (ch 75) (foldName s3)
              else String (if between 97 122 c then ch (code c - 32) else c) (foldName s1)
          | EmptyString => String (if between 97 122 c then ch (code c - 32) else c) (foldName s1)
          end
      | EmptyString => String (if between 97 122 c then ch (code c - 32) else c) EmptyString
      end
  end.

Fixpoint index_of (P : string → bool) (fields : list string) : option nat :=
  match fields with
  | [] => None
  | f :: fs => if P f then Some 0%nat else S <$> index_of P fs
  end.

Definition field_of (fields : list string) (key : string) : option nat :=
  match index_of (λ f, bool_decide (f = key)) fields with
  | Some i => Some i
  | None => index_of (λ f, bool_decide (foldName f = foldName key)) fields
  end.

(** The first error is kept. *)
Definition saveError (cur : option error) : option error :=
  match cur with Some e => Some e | None => Some (Errorf "json: cannot unmarshal %s into Go value of type %s") end.

Fixpoint decode_members (fields : list string) (ms : list (string * json)) (acc : list string * option error) :
    list string * option error :=
  match ms with
  | [] => acc
  | (k, v) :: ms =>
      decode_members fields ms
        match field_of fields k with
        | None => acc
        | Some i =>
            match v with
            | JString s => (<[ i := s ]> acc.1, acc.2)
            | JNull => acc
            | _ => (acc.1, saveError acc.2)
            end
        end
  end.

(** One element of the slice, from the zero struct. *)
Definition decode_struct (fields : list string) (v : json) (err : option error) : list string * option error :=
  let zero := (λ _, EmptyString) <$> fields in
  match v with
  | JObject ms => decode_members fields ms (zero, err)
  | JNull => (zero, err)
  | _ => (zero, saveError err)
  end.

Fixpoint decode_elems (fields : list string) (l : list json) (err : option error) :
    list (list string) * option error :=
  match l with
  | [] => ([], err)
  | v :: l =>
      let '(x, err) := decode_struct fields v err in
      let '(xs, err) := decode_elems fields l err in (x :: xs, err)
  end.

(** The slice and the error, as the caller sees them. *)
Definition unmarshal_slice (fields : list string) (s : string) : list (list string) * option error :=
  match json_of s with
  | None => ([], Some (Errorf "invalid JSON"))
  | Some (JArray l) => decode_elems fields l None
  | Some JNull => ([], None)
  | Some _ => ([], saveError None)
  end.

(** Write double quotes as single ones. *)
Fixpoint dq (s : string) : string :=
  match s with
  | EmptyString => EmptyString
  | String c s => String (if is_byte 39 c then ch 34 else c) (dq s)
  end.

Example json_blanks : unmarshal_slice ["network"; "ipAddress"]%string
  (dq " [ { 'Network' : 'a\u0062\ud83d\ude00' , 'x' : [1.5e3, {}] } , null, 7 ] ")
  = ([["ab" +:+ bytes [240; 159; 152; 128]; EmptyString]; [EmptyString; EmptyString]; [EmptyString; EmptyString]]%string,
     Some (Errorf "json: cannot unmarshal %s into Go value of type %s")).
Proof. by vm_compute. Qed.
Example json_bad : unmarshal_slice ["network"]%string (dq "[{'network':'a'},]") = ([], Some (Errorf "invalid JSON")).
Proof. by vm_compute. Qed.
Example json_escapes : marshal_string (dq "a<'&b")= dq "'a\u003c\'\u0026b'".
Proof. by vm_compute. Qed.

(** ** Round trip *)

(** Strings of ASCII bytes. *)
Fixpoint is_ascii (s : string) : bool :=
  match s with EmptyString => true | String c s => (code c <? 128) && is_ascii s end.

Fixpoint escape_all (s : string) : string :=
  match s with EmptyString => EmptyString | String c s => (escape_ascii c +:+ escape_all s)%string end.

Lemma escape_is_all s : is_ascii s = true → escape (String.length s) s = escape_all s.
Proof.
  induction s as [|c s IH]; [done|]. simpl. intros [Hc Hs]%andb_true_iff. by rewrite Hc, IH.
Qed.

(** Reading back one escaped character. *)
Lemma scan_escape_ascii c n rest : code c < 128 →
  scan_string (S n) (escape_ascii c +:+ rest) = '(v, r) ← scan_string n rest; Some (String c v, r).
Proof.
  destruct c as [[] [] [] [] [] [] [] []]; intros H; try (by vm_compute in H); reflexivity.
Qed.

Lemma scan_escaped s rest : ∀ n, is_ascii s = true → (String.length s < n)%nat →
  scan_string n (escape_all s +:+ quote +:+ rest) = Some (s, rest).
Proof.
  induction s as [|c s IH]; intros [|n] Hs Hn; cbn [escape_all is_ascii String.length] in *; try lia; [done|].
  apply andb_true_iff in Hs as [Hc Hs]. propify.
  rewrite string_app_assoc, scan_escape_ascii, IH by (done || lia). done.
Qed.


Lemma escape_length c : (1 <= String.length (escape_ascii c))%nat.
Proof. destruct c as [[] [] [] [] [] [] [] []]; vm_compute; lia. Qed.

Lemma escape_all_length s : (String.length s <= String.length (escape_all s))%nat.
Proof.
  induction s as [|c s IH]; simpl; [done|]. rewrite string_length_app. pose proof (escape_length c). lia.
Qed.

Lemma scan_marshalled s rest : is_ascii s = true →
  let t := (escape_all s +:+ quote +:+ rest)%string in scan_string (S (String.length t)) t = Some (s, rest).
Proof.
  intros Hs t. apply scan_escaped; [done|]. subst t. rewrite string_length_app.
  pose proof (escape_all_length s). lia.
Qed.

Lemma marshal_string_ascii s rest : is_ascii s = true →
  (marshal_string s +:+ rest)%string = String (ch 34) (escape_all s +:+ quote +:+ rest)%string.
Proof. intros Hs. unfold marshal_string. rewrite escape_is_all by done. by rewrite !string_app_assoc. Qed.

Lemma parse_marshalled_string n d s rest : is_ascii s = true →
  parse_value (S n) d (marshal_string s +:+ rest) = Some (JString s, rest).
Proof.
  intros Hs. rewrite marshal_string_ascii by done.
  pose proof (scan_marshalled s rest Hs) as Hx. cbv zeta in Hx. simpl. simpl in Hx. rewrite Hx. done.
Qed.

(** The text of a list of members and of a list of structs, parsed back. *)
Abbreviation str_member kv := (kv.1, FString kv.2).
Abbreviation json_member kv := (kv.1, JString kv.2).
Definition member_ok (kv : string * string) : Prop := is_ascii kv.1 = true ∧ is_ascii kv.2 = true.

Lemma member_text kv rest : is_ascii kv.1 = true →
  (marshal_field (str_member kv) +:+ rest =
   String (ch 34) (escape_all kv.1 +:+ quote +:+ String (ch 58) (marshal_string kv.2 +:+ rest)))%string.
Proof.
  intros Hk. unfold marshal_field. simpl. rewrite string_app_assoc, marshal_string_ascii by done.
  by rewrite string_app_assoc.
Qed.

Lemma parse_marshalled_members d rest ms : ∀ n, Forall member_ok ms → ms ≠ [] →
  (length ms < n)%nat →
  parse_members n d (join_with "," (map marshal_field (map (λ kv, str_member kv) ms)) +:+ "}" +:+ rest) =
    Some (map (λ kv, json_member kv) ms, rest).
Proof.
  induction ms as [|kv ms IH]; intros [|n] Hok Hne Hn; simpl in Hn; try done; try lia.
  apply Forall_cons in Hok as [[Hk Hv] Hok].
  destruct n as [|n]; [lia|].
  assert (∀ tail l, (match skip_space tail with
      | String c r' => if is_byte 44 c then '(l, r) ← parse_members (S n) d r'; Some ((kv.1, JString kv.2) :: l, r)
                       else if is_byte 125 c then Some ([(kv.1, JString kv.2)], r') else None
      | EmptyString => None end) = Some (l, rest) →
    parse_members (S (S n)) d (marshal_field (str_member kv) +:+ tail) = Some (l, rest)) as Hstep.
  { intros tail l Hl. rewrite member_text by done.
    remember (S n) as n1. cbn [parse_members].
    change (skip_space (String (ch 34) ?x)) with (String (ch 34) x). cbv beta iota.
    change (is_byte 34 (ch 34)) with true. cbv beta iota.
    rewrite (scan_marshalled kv.1) by done. cbn [mbind option_bind].
    change (skip_space (String (ch 58) ?x)) with (String (ch 58) x). cbv beta iota.
    change (is_byte 58 (ch 58)) with true. cbv beta iota. subst n1.
    rewrite parse_marshalled_string by done. exact Hl. }
  destruct ms as [|kv' ms].
  - simpl. apply Hstep. done.
  - change (join_with "," (map marshal_field (map (λ kv, str_member kv) (kv :: kv' :: ms))))
      with (marshal_field (str_member kv) +:+ "," +:+
            join_with "," (map marshal_field (map (λ kv, str_member kv) (kv' :: ms))))%string.
    rewrite !string_app_assoc. apply Hstep.
    change (skip_space ("," +:+ ?x)) with (String (ch 44) x). cbv beta iota.
    change (is_byte 44 (ch 44)) with true. cbv beta iota.
    rewrite IH by (done || simpl in *; lia). done.
Qed.

Lemma parse_marshalled_struct d rest ms n : Forall member_ok ms → ms ≠ [] → (S (length ms) < n)%nat →
  0 <= d < maxNestingDepth →
  parse_value n d (marshal_struct (map (λ kv, str_member kv) ms) +:+ rest) =
    Some (JObject (map (λ kv, json_member kv) ms), rest).
Proof.
  intros Hok Hne Hn Hd. destruct n as [|n]; [lia|]. unfold marshal_struct. rewrite !string_app_assoc.
  cbn [parse_value]. change (skip_space ("{" +:+ ?x)) with (String (ch 123) x). cbv beta iota.
  change (is_byte 91 (ch 123)) with false. change (is_byte 123 (ch 123)) with true. cbv beta iota.
  destruct (Z.ltb_spec maxNestingDepth (d + 1)); [lia|].
  rewrite (parse_marshalled_members (d + 1) rest ms n) by (done || lia).
  destruct ms as [|kv ms]; [done|]. apply Forall_cons in Hok as [[Hk _] _].
  set (tail := (_ +:+ "}" +:+ rest)%string). assert (∃ x, tail = String (ch 34) x) as [x ->]; [|done].
  subst tail. destruct ms as [|kv' ms]; simpl; rewrite ?string_app_assoc, member_text by done; eauto.
Qed.

Abbreviation struct_of ms := (map (λ kv, str_member kv) ms).
Definition struct_ok (ms : list (string * string)) : Prop := Forall member_ok ms ∧ ms ≠ [].

Lemma parse_marshalled_elems d rest l k : ∀ n, Forall struct_ok l → l ≠ [] → Forall (λ ms, (length ms <= k)%nat) l →
  (length l + k + 2 < n)%nat → 0 <= d < maxNestingDepth →
  parse_elems n d (join_with "," (map marshal_struct (map (λ ms, struct_of ms) l)) +:+ "]" +:+ rest) =
    Some (map (λ ms, JObject (map (λ kv, json_member kv) ms)) l, rest).
Proof.
  induction l as [|ms l IH]; intros [|n] Hok Hne Hk Hn Hd; simpl in Hn; try done; try lia.
  apply Forall_cons in Hok as [[Hms Hmn] Hok]. apply Forall_cons in Hk as [Hk1 Hk].
  destruct l as [|ms' l].
  - cbn [map join_with parse_elems]. rewrite parse_marshalled_struct by (done || lia). done.
  - change (join_with "," (map marshal_struct (map (λ ms, struct_of ms) (ms :: ms' :: l))))
      with (marshal_struct (struct_of ms) +:+ "," +:+
            join_with "," (map marshal_struct (map (λ ms, struct_of ms) (ms' :: l))))%string.
    rewrite !string_app_assoc. cbn [parse_elems]. rewrite parse_marshalled_struct by (done || lia).
    cbn [mbind option_bind]. change (skip_space ("," +:+ ?x)) with (String (ch 44) x). cbv beta iota.
    change (is_byte 44 (ch 44)) with true. cbv beta iota.
    rewrite IH by (done || simpl in *; lia). done.
Qed.

(** The encoded text is at least as long as the counts of its parts. *)
Lemma join_length (l : list string) : Forall (λ s, (1 <= String.length s)%nat) l →
  (length l <= String.length (join_with "," l))%nat.
Proof.
  induction 1 as [|s l Hs Hl IH]; simpl; [done|]. destruct l as [|s' l]; [simpl; lia|].
  rewrite !string_length_app. simpl in *. lia.
Qed.

Lemma join_length_elem (l : list string) s : s ∈ l → (String.length s <= String.length (join_with "," l))%nat.
Proof.
  induction l as [|t l IH]; intros Hs; [by apply not_elem_of_nil in Hs|].
  destruct l as [|t' l]; simpl; [apply list_elem_of_singleton in Hs as ->; done|].
  rewrite !string_length_app. apply elem_of_cons in Hs as [->|Hs]; [lia|]. specialize (IH Hs). simpl in IH. lia.
Qed.

Lemma marshal_struct_length ms : (length ms + 2 <= String.length (marshal_struct (struct_of ms)))%nat.
Proof.
  unfold marshal_struct. rewrite !string_length_app. simpl.
  pose proof (join_length (map marshal_field (struct_of ms))) as H. rewrite !length_map in H.
  cut (length ms <= String.length (join_with "," (map marshal_field (struct_of ms))))%nat; [lia|]. apply H. apply Forall_map, Forall_forall. intros x _. unfold marshal_field, marshal_string.
  rewrite !string_length_app. simpl. lia.
Qed.

Lemma json_of_marshal_slice l : Forall struct_ok l →
  json_of (marshal_slice (map (λ ms, struct_of ms) l)) =
    Some (JArray (map (λ ms, JObject (map (λ kv, json_member kv) ms)) l)).
Proof.
  intros Hok. unfold json_of.
  destruct l as [|ms0 l0]; [done|]. set (l := ms0 :: l0) in *.
  set (body := join_with "," (map marshal_struct (map (λ ms, struct_of ms) l))).
  set (k := String.length body).
  assert (Forall (λ ms : list (string * string), (length ms <= k)%nat) l) as Hk.
  { apply Forall_forall. intros ms Hms. pose proof (marshal_struct_length ms).
    assert (marshal_struct (struct_of ms) ∈ map marshal_struct (map (λ ms, struct_of ms) l)) as Hin.
    { rewrite map_map. apply list_elem_of_fmap. eauto. }
    apply join_length_elem in Hin. fold body k in Hin. lia. }
  assert (length l <= k)%nat as Hl.
  { pose proof (join_length (map marshal_struct (map (λ ms, struct_of ms) l))) as H.
    rewrite !length_map in H. apply H, Forall_map, Forall_map, Forall_forall. intros x _. simpl.
    pose proof (marshal_struct_length x). lia. }
  assert (String.length (marshal_slice (map (λ ms, struct_of ms) l)) = k + 2)%nat as Hlen.
  { unfold marshal_slice. fold body. rewrite !string_length_app. subst k. simpl. lia. }
  rewrite Hlen. replace (2 * (k + 2) + 2)%nat with (S (2 * k + 5)) by lia.
  cbn [parse_value]. unfold marshal_slice. fold body.
  change (skip_space ("[" +:+ ?x)) with (String (ch 91) x). cbv beta iota.
  change (is_byte 91 (ch 91)) with true. cbv beta iota. change (maxNestingDepth <? 0 + 1) with false. cbv beta iota.
  pose proof (parse_marshalled_elems (0 + 1) EmptyString l k (2 * k + 5) Hok ltac:(done) Hk ltac:(lia) ltac:(done)) as Hp.
  fold body in Hp. change ("]" +:+ EmptyString)%string with "]"%string in Hp.
  assert (∃ x, body = String (ch 123) x) as [x Hx].
  { subst body l. destruct l0; simpl; unfold marshal_struct; rewrite ?string_app_assoc; eauto. }
  rewrite Hx in Hp |- *. rewrite Hp. done.
Qed.

(** Storing the members of a struct in the order of its fields gives the
    values back: every name is found at its own place. *)
Lemma index_of_nth (fields : list string) i f : NoDup fields → fields !! i = Some f →
  index_of (λ g, bool_decide (g = f)) fields = Some i.
Proof.
  revert i. induction fields as [|g fs IH]; intros i Hnd Hi; [done|].
  apply NoDup_cons in Hnd as [Hg Hnd]. destruct i as [|i]; simpl in *.
  - simplify_eq. by rewrite bool_decide_eq_true_2.
  - rewrite bool_decide_eq_false_2, (IH i) by (done || (intros ->; apply Hg; by eapply list_elem_of_lookup_2)). done.
Qed.

Lemma decode_zip fields suffix vals pre vpre err : NoDup fields → fields = pre ++ suffix →
  length vpre = length pre → length vals = length suffix → ∀ acc, length acc = length suffix →
  decode_members fields (map (λ kv, json_member kv) (zip suffix vals)) (vpre ++ acc, err) = (vpre ++ vals, err).
Proof.
  intros Hnd. revert vals pre vpre. induction suffix as [|f fs IH]; intros [|v vals] pre vpre Hf Hp Hv [|a acc] Ha; try done.
  simpl. unfold field_of. rewrite (index_of_nth fields (length pre)); [|done|].
  2:{ rewrite Hf. by rewrite list_lookup_middle. }
  simpl. rewrite <- Hp, (insert_app_r_alt vpre (a :: acc)) by lia. rewrite Nat.sub_diag. simpl.
  rewrite (cons_middle v), app_assoc, (IH vals (pre ++ [f]) (vpre ++ [v])).
  - by rewrite <- app_assoc.
  - by rewrite <- app_assoc.
  - rewrite !length_app. simpl. lia.
  - simpl in *. lia.
  - simpl in *. lia.
Qed.

Definition values_ok (fields vals : list string) : Prop :=
  length vals = length fields ∧ Forall (λ v, is_ascii v = true) vals.

Lemma zip_struct_ok fields vals : fields ≠ [] → Forall (λ f, is_ascii f = true) fields →
  values_ok fields vals → struct_ok (zip fields vals).
Proof.
  intros Hne Hf [Hl Hv]. split.
  - apply Forall_forall. intros [k v] Hin. split; simpl.
    + apply (proj1 (Forall_forall _ _) Hf). by eapply elem_of_zip_l.
    + apply (proj1 (Forall_forall _ _) Hv). by eapply elem_of_zip_r.
  - destruct fields, vals; done.
Qed.

(** A slice of structs of ASCII strings survives encoding and decoding. *)
Lemma unmarshal_marshal fields l : NoDup fields → fields ≠ [] → Forall (λ f, is_ascii f = true) fields →
  Forall (values_ok fields) l →
  unmarshal_slice fields (marshal_slice (map (λ vals, struct_of (zip fields vals)) l)) = (l, None).
Proof.
  intros Hnd Hne Hf Hl. unfold unmarshal_slice.
  pose proof (json_of_marshal_slice (map (zip fields) l)) as Hj. rewrite map_map in Hj. rewrite Hj; clear Hj.
  2:{ apply Forall_map. eapply Forall_impl; [exact Hl|]. intros vals Hv. by apply zip_struct_ok. }
  rewrite map_map. induction Hl as [|vals l [Hv _] Hl IH]; simpl; [done|].
  pose proof (decode_zip fields fields vals [] [] None Hnd eq_refl eq_refl Hv ((λ _, EmptyString) <$> fields) (length_fmap _ _)) as Hd.
  simpl in Hd. rewrite Hd. by rewrite IH.
Qed.

(** ** Fuel *)
Lemma skip_space_length s : (String.length (skip_space s) <= String.length s)%nat.
Proof. induction s as [|c s IH]; simpl; [done|]. destruct (is_space c); simpl; lia. Qed.

Lemma substring_rest_length k s : (String.length (String.substring k (String.length s - k) s) <= String.length s - k)%nat.
Proof.
  revert k. induction s as [|c s IH]; intros [|k]; simpl; try done.
  specialize (IH 0%nat). rewrite Nat.sub_0_r in IH. simpl in IH. lia.
Qed.

Lemma skip_digits_length s : (String.length (skip_digits s) <= String.length s)%nat.
Proof. induction s as [|c s IH]; simpl; [done|]. destruct (digit c); simpl; lia. Qed.

Lemma some_digits_length s r : some_digits s = Some r → (String.length r < String.length s)%nat.
Proof.
  destruct s as [|c s]; simpl; [done|]. destruct (digit c); [|done]. intros [= <-].
  pose proof (skip_digits_length s). lia.
Qed.

Lemma scan_number_length s r : scan_number s = Some r → (String.length r < String.length s)%nat.
Proof.
  unfold scan_number. set (s0 := match s with String c s' => _ | _ => _ end).
  assert (String.length s0 <= String.length s)%nat as H0 by (subst s0; repeat case_match; simpl; lia).
  clearbody s0. cbv zeta.
  destruct (match s0 with String c s' => _ | EmptyString => None end) as [s1|] eqn:E1; [|done].
  assert (String.length s1 < String.length s0)%nat as H1.
  { destruct s0 as [|c s0]; [done|]. destruct (is_byte 48 c); [simplify_eq; simpl; lia|]. by apply some_digits_length. }
  simpl. destruct (match s1 with String c s' => _ | EmptyString => _ end) as [s2|] eqn:E2; [|done].
  assert (String.length s2 <= String.length s1)%nat as H2.
  { destruct s1 as [|c s1]; [by simplify_eq|]. destruct (is_byte 46 c); [|by simplify_eq].
    apply some_digits_length in E2. simpl. lia. }
  simpl. destruct s2 as [|c s2]; [intros [= <-]; simpl; lia|]. clear E1 E2.
  destruct (is_byte 101 c || is_byte 69 c); [|intros [= <-]; lia].
  intros Hd%some_digits_length. simpl in *. repeat case_match; subst; simpl in *; lia.
Qed.

Lemma scan_u4_length s x r : scan_u4 s = Some (x, r) → (String.length r < String.length s)%nat.
Proof.
  destruct s as [|a [|b [|c [|d s]]]]; try done. simpl.
  destruct (hex_digit a); [simpl|done]. destruct (hex_digit b); [simpl|done].
  destruct (hex_digit c); [simpl|done]. destruct (hex_digit d); [simpl|done]. intros [= _ <-]. lia.
Qed.

Lemma utf8_size_pos s k : utf8_size s = Some k → (1 <= k)%nat.
Proof. unfold utf8_size. intros H. repeat case_match; simplify_eq; lia. Qed.

Lemma scan_string_length n : ∀ s v r, scan_string n s = Some (v, r) → (String.length r < String.length s)%nat.
Proof.
  induction n as [|n IH]; intros s v r; [done|]. cbn [scan_string].
  assert (∀ out rest, ('(v, r) ← scan_string n rest; Some ((out +:+ v)%string, r)) = Some (v, r) →
    (String.length rest < String.length s)%nat → (String.length r < String.length s)%nat) as He.
  { intros out rest. destruct (scan_string n rest) as [[v' r']|] eqn:E; [|done]. intros [= _ <-] ?.
    apply IH in E. lia. }
  destruct s as [|c s']; [done|].
  destruct (is_byte 34 c); [intros [= _ <-]; simpl; lia|].
  destruct (is_byte 92 c).
  - destruct s' as [|e rest]; [done|].
    assert (String.length rest < String.length (String c (String e rest)))%nat as Hlt by (simpl; lia).
    destruct (_ || _); [eauto|]. destruct (is_byte 98 e); [eauto|]. destruct (is_byte 102 e); [eauto|].
    destruct (is_byte 110 e); [eauto|]. destruct (is_byte 114 e); [eauto|]. destruct (is_byte 116 e); [eauto|].
    destruct (is_byte 117 e); [|done].
    destruct (scan_u4 rest) as [[x rest']|] eqn:E4; [|done]. cbn [mbind option_bind]. apply scan_u4_length in E4.
    assert (String.length rest' < String.length (String c (String e rest)))%nat as Hlt' by (simpl; lia).
    destruct (_ && _); [|intros Hx; by apply (He _ _ Hx)]. destruct rest' as [|b [|u rest2]]; [intros Hx; by apply (He _ _ Hx)..|].
    destruct (_ && _); [|intros Hx; by apply (He _ _ Hx)]. destruct (scan_u4 rest2) as [[r2 rest3]|] eqn:E5; [|done].
    apply scan_u4_length in E5. destruct (_ && _); [|intros Hx; by apply (He _ _ Hx)].
    intros Hx. eapply He; [exact Hx|]. simpl in *. lia.
  - destruct (code c <? 32); [done|]. destruct (code c <? 128); [intros Hx; eapply He; [exact Hx|simpl; lia]|].
    destruct (utf8_size _) as [k|] eqn:Eu; intros Hx; (eapply He; [exact Hx|]); [|simpl; lia].
    apply utf8_size_pos in Eu. pose proof (substring_rest_length k (String c s')). cbn [String.length] in *. lia.
Qed.

Lemma literal_length w v s j r : w ≠ EmptyString → literal w v s = Some (j, r) → (String.length r < String.length s)%nat.
Proof.
  unfold literal. intros Hw. case_match; [|done]. intros [= _ <-].
  pose proof (substring_rest_length (String.length w) s). destruct w as [|c w]; [done|]. destruct s as [|d s]; [done|].
  cbn [String.length] in *. lia.
Qed.

Lemma skip_space_rest s c r : skip_space s = String c r → (String.length r < String.length s)%nat.
Proof. intros E. pose proof (skip_space_length s) as H. rewrite E in H. simpl in H. lia. Qed.

(** What the three parsers leave is shorter than what they got. *)
Lemma parse_length n :
  (∀ d s v r, parse_value n d s = Some (v, r) → (String.length r < String.length s)%nat) ∧
  (∀ d s v r, parse_elems n d s = Some (v, r) → (String.length r < String.length s)%nat) ∧
  (∀ d s v r, parse_members n d s = Some (v, r) → (String.length r < String.length s)%nat).
Proof.
  induction n as [|n (IHv & IHe & IHm)]; [done|]. split_and!; intros d s v r.
  - cbn [parse_value]. cbv zeta. pose proof (skip_space_length s) as Hs.
    destruct (skip_space s) as [|c s'] eqn:Es; [done|]. cbn [String.length] in Hs.
    destruct (is_byte 91 c); [|destruct (is_byte 123 c)].
    + destruct (_ <? _); [done|]. destruct (skip_space s') as [|e r0] eqn:E2; [done|]. apply skip_space_rest in E2.
      destruct (is_byte 93 e); [intros [= _ <-]; lia|].
      destruct (parse_elems n _ s') as [[l r1]|] eqn:E3; [|done]. intros [= _ <-]. apply IHe in E3. lia.
    + destruct (_ <? _); [done|]. destruct (skip_space s') as [|e r0] eqn:E2; [done|]. apply skip_space_rest in E2.
      destruct (is_byte 125 e); [intros [= _ <-]; lia|].
      destruct (parse_members n _ s') as [[l r1]|] eqn:E3; [|done]. intros [= _ <-]. apply IHm in E3. lia.
    + destruct (is_byte 34 c).
      { destruct (scan_string _ s') as [[w r1]|] eqn:E3; [|done]. intros [= _ <-]. apply scan_string_length in E3. lia. }
      destruct (is_byte 110 c); [intros Hl%literal_length; [simpl in *; lia|done]|].
      destruct (is_byte 116 c); [intros Hl%literal_length; [simpl in *; lia|done]|].
      destruct (is_byte 102 c); [intros Hl%literal_length; [simpl in *; lia|done]|].
      destruct (scan_number _) as [r1|] eqn:E3; [|done]. intros [= _ <-]. apply scan_number_length in E3. simpl in *. lia.
  - cbn [parse_elems]. destruct (parse_value n d s) as [[w r1]|] eqn:E1; [|done]. apply IHv in E1. cbn [mbind option_bind].
    destruct (skip_space r1) as [|c r2] eqn:E2; [done|]. apply skip_space_rest in E2.
    destruct (is_byte 44 c).
    + destruct (parse_elems n d r2) as [[l r3]|] eqn:E3; [|done]. intros [= _ <-]. apply IHe in E3. lia.
    + destruct (is_byte 93 c); [|done]. intros [= _ <-]. lia.
  - cbn [parse_members]. destruct (skip_space s) as [|q s'] eqn:E0; [done|]. apply skip_space_rest in E0.
    destruct (is_byte 34 q); [|done]. destruct (scan_string _ s') as [[k r1]|] eqn:E1; [|done].
    apply scan_string_length in E1. cbn [mbind option_bind].
    destruct (skip_space r1) as [|c r2] eqn:E2; [done|]. apply skip_space_rest in E2. destruct (is_byte 58 c); [|done].
    destruct (parse_value n d r2) as [[w r3]|] eqn:E3; [|done]. apply IHv in E3. cbn [mbind option_bind].
    destruct (skip_space r3) as [|c' r4] eqn:E4; [done|]. apply skip_space_rest in E4.
    destruct (is_byte 44 c').
    + destruct (parse_members n d r4) as [[l r5]|] eqn:E5; [|done]. intros [= _ <-]. apply IHm in E5. lia.
    + destruct (is_byte 125 c'); [|done]. intros [= _ <-]. lia.
Qed.

(** More fuel than twice the length changes nothing. *)
Lemma parse_fuel n : ∀ m d s,
  ((2 * String.length s < n)%nat → (2 * String.length s < m)%nat → parse_value n d s = parse_value m d s) ∧
  ((2 * String.length s + 1 < n)%nat → (2 * String.length s + 1 < m)%nat → parse_elems n d s = parse_elems m d s) ∧
  ((2 * String.length s + 1 < n)%nat → (2 * String.length s + 1 < m)%nat → parse_members n d s = parse_members m d s).
Proof.
  induction n as [|n IH]; intros [|m] d s; split_and!; intros Hn Hm; try lia.
  - cbn [parse_value]. cbv zeta. pose proof (skip_space_length s) as Hs.
    destruct (skip_space s) as [|c s'] eqn:Es; [done|]. cbn [String.length] in Hs.
    destruct (is_byte 91 c); [|destruct (is_byte 123 c)]; [..|done].
    + destruct (_ <? _); [done|]. destruct (skip_space s') as [|e r0] eqn:E2; [done|].
      rewrite (proj1 (proj2 (IH m (d + 1) s'))) by lia. done.
    + destruct (_ <? _); [done|]. destruct (skip_space s') as [|e r0] eqn:E2; [done|].
      rewrite (proj2 (proj2 (IH m (d + 1) s'))) by lia. done.
  - cbn [parse_elems]. rewrite (proj1 (IH m d s)) by lia.
    destruct (parse_value m d s) as [[w r1]|] eqn:E1; [|done]. cbn [mbind option_bind].
    apply (proj1 (parse_length m)) in E1.
    destruct (skip_space r1) as [|c r2] eqn:E2; [done|]. apply skip_space_rest in E2.
    rewrite (proj1 (proj2 (IH m d r2))) by lia. done.
  - cbn [parse_members]. destruct (skip_space s) as [|q s'] eqn:E0; [done|]. apply skip_space_rest in E0.
    destruct (is_byte 34 q); [|done]. destruct (scan_string _ s') as [[k r1]|] eqn:E1; [|done].
    apply scan_string_length in E1. cbn [mbind option_bind].
    destruct (skip_space r1) as [|c r2] eqn:E2; [done|]. apply skip_space_rest in E2. destruct (is_byte 58 c); [|done].
    rewrite (proj1 (IH m d r2)) by lia.
    destruct (parse_value m d r2) as [[w r3]|] eqn:E3; [|done]. apply (proj1 (parse_length m)) in E3. cbn [mbind option_bind].
    destruct (skip_space r3) as [|c' r4] eqn:E4; [done|]. apply skip_space_rest in E4.
    rewrite (proj2 (proj2 (IH m d r4))) by lia. done.
Qed.

(** ** One struct: [json.MarshalIndent] and [json.Unmarshal] of one struct

    Structs of strings, written with four blanks of indentation, read back. *)

Definition newline : string := String (ch 10) EmptyString.
Definition indent_field (kv : string * string) : string := ("    " +:+ marshal_string kv.1 +:+ ": " +:+ marshal_string kv.2)%string.
(** A struct with at least one field. *)
Definition marshal_indent (fs : list (string * string)) : string :=
  ("{" +:+ newline +:+ join_with ("," +:+ newline) (map indent_field fs) +:+ newline +:+ "}")%string.

(** The values of the fields, and the error with them. *)
Definition unmarshal_struct (fields : list string) (s : string) : list string * option error :=
  match json_of s with
  | None => ((λ _, EmptyString) <$> fields, Some (Errorf "invalid JSON"))
  | Some v => decode_struct fields v None
  end.

(** ** Round trip *)
Lemma indent_text kv rest : is_ascii kv.1 = true →
  skip_space (indent_field kv +:+ rest) = String (ch 34) (escape_all kv.1 +:+ quote +:+ String (ch 58) (" " +:+ marshal_string kv.2 +:+ rest)).
Proof.
  intros Hk. unfold indent_field. rewrite !string_app_assoc. change (skip_space ("    " +:+ ?x)) with (skip_space x).
  rewrite marshal_string_ascii by done. reflexivity.
Qed.

(** Parsing begins by skipping blanks. *)
Lemma parse_members_skip n d s t : skip_space s = skip_space t → parse_members n d s = parse_members n d t.
Proof. intros Hs. destruct n; [done|]. cbn [parse_members]. by rewrite Hs. Qed.
Lemma parse_value_blank n d s : parse_value n d (" " +:+ s) = parse_value n d s.
Proof. by destruct n. Qed.

Lemma parse_indented_members d rest ms : ∀ n, Forall member_ok ms → ms ≠ [] → (length ms < n)%nat →
  parse_members n d (join_with ("," +:+ newline) (map indent_field ms) +:+ newline +:+ "}" +:+ rest) = Some (map (λ kv, json_member kv) ms, rest).
Proof.
  induction ms as [|kv ms IH]; intros [|n] Hok Hne Hn; simpl in Hn; try done; try lia.
  apply Forall_cons in Hok as [[Hk Hv] Hok]. destruct n as [|n]; [lia|].
  assert (∀ tail l, (match skip_space tail with
      | String c r' => if is_byte 44 c then '(l, r) ← parse_members (S n) d r'; Some ((kv.1, JString kv.2) :: l, r)
                       else if is_byte 125 c then Some ([(kv.1, JString kv.2)], r') else None
      | EmptyString => None end) = Some (l, rest) →
    parse_members (S (S n)) d (indent_field kv +:+ tail) = Some (l, rest)) as Hstep.
  { intros tail l Hl. remember (S n) as n1. cbn [parse_members]. rewrite indent_text by done. cbv beta iota.
    change (is_byte 34 (ch 34)) with true. cbv beta iota.
    rewrite (scan_marshalled kv.1) by done. cbn [mbind option_bind].
    change (skip_space (String (ch 58) ?x)) with (String (ch 58) x). cbv beta iota.
    change (is_byte 58 (ch 58)) with true. cbv beta iota. subst n1.
    rewrite parse_value_blank, parse_marshalled_string by done. exact Hl. }
  destruct ms as [|kv' ms]; [simpl; by apply Hstep|].
  change (join_with ("," +:+ newline) (map indent_field (kv :: kv' :: ms)))
    with (indent_field kv +:+ ("," +:+ newline) +:+ join_with ("," +:+ newline) (map indent_field (kv' :: ms)))%string.
  rewrite !string_app_assoc. apply Hstep.
  change (skip_space ("," +:+ ?x)) with (String (ch 44) x). cbv beta iota. change (is_byte 44 (ch 44)) with true. cbv beta iota.
  rewrite (parse_members_skip _ _ (newline +:+ ?[x]) ?x) by reflexivity.
  rewrite IH by (done || simpl in *; lia). done.
Qed.

Lemma marshal_indent_length ms : (length ms + 2 ≤ String.length (marshal_indent ms))%nat.
Proof.
  unfold marshal_indent. rewrite !string_length_app. simpl.
  assert (length ms ≤ String.length (join_with ("," +:+ newline) (map indent_field ms)))%nat; [|lia].
  induction ms as [|kv ms IH]; [simpl; lia|]. destruct ms as [|kv' ms]; [simpl; unfold indent_field; rewrite !string_length_app; simpl; lia|].
  change (join_with ("," +:+ newline) (map indent_field (kv :: kv' :: ms)))
    with (indent_field kv +:+ ("," +:+ newline) +:+ join_with ("," +:+ newline) (map indent_field (kv' :: ms)))%string.
  rewrite !string_length_app. simpl in *. lia.
Qed.

Lemma json_of_marshal_indent ms : Forall member_ok ms → ms ≠ [] → json_of (marshal_indent ms) = Some (JObject (map (λ kv, json_member kv) ms)).
Proof.
  intros Hok Hne. unfold json_of. pose proof (marshal_indent_length ms) as Hlen. set (L := String.length (marshal_indent ms)) in *.
  replace (2 * L + 2)%nat with (S (2 * L + 1)) by lia. cbn [parse_value]. unfold marshal_indent.
  change (skip_space ("{" +:+ ?x)) with (String (ch 123) x). cbv beta iota.
  change (is_byte 91 (ch 123)) with false. change (is_byte 123 (ch 123)) with true. cbv beta iota. change (maxNestingDepth <? 0 + 1) with false. cbv beta iota.
  pose proof (parse_indented_members (0 + 1) EmptyString ms (2 * L + 1) Hok Hne ltac:(lia)) as Hp.
  change ("}" +:+ EmptyString)%string with "}"%string in Hp.
  set (t := (join_with ("," +:+ newline) (map indent_field ms) +:+ newline +:+ "}")%string) in *.
  change (skip_space (newline +:+ t)) with (skip_space t). rewrite (parse_members_skip _ _ (newline +:+ t) t), Hp by reflexivity.
  assert (∃ x, skip_space t = String (ch 34) x) as [x ->]; [|done].
  destruct ms as [|kv ms]; [done|]. apply Forall_cons in Hok as [[Hk _] _]. subst t.
  destruct ms as [|kv' ms].
  - eexists. by apply indent_text.
  - change (join_with ("," +:+ newline) (map indent_field (kv :: kv' :: ms)))
      with (indent_field kv +:+ ("," +:+ newline) +:+ join_with ("," +:+ newline) (map indent_field (kv' :: ms)))%string.
    rewrite string_app_assoc. eexists. by apply indent_text.
Qed.

(** A struct of ASCII strings survives. *)
Lemma unmarshal_marshal_indent fields vals : NoDup fields → fields ≠ [] → Forall (λ f, is_ascii f = true) fields → values_ok fields vals →
  unmarshal_struct fields (marshal_indent (zip fields vals)) = (vals, None).
Proof.
  intros Hnd Hne Hf Hv. destruct (zip_struct_ok fields vals Hne Hf Hv) as [Hok Hz].
  unfold unmarshal_struct. rewrite json_of_marshal_indent by done. unfold decode_struct.
  pose proof (decode_zip fields fields vals [] [] None Hnd eq_refl eq_refl (proj1 Hv) ((λ _, EmptyString) <$> fields) (length_fmap _ _)) as Hd.
  exact Hd.
Qed.
