(* ===== verification/NetworkAPI.v ===== *)
(** * NetworkAPI: the multi-network API types

    [crd/apis/network/v1]: Network, GKENetworkParamSet (GNP), the annotations
    and their codecs, with the condition helpers of [apimachinery]'s
    [api/meta/conditions.go].  The generated clients and listers are the
    interface [NetClient] over an abstract world. *)

From S2P Require Import Prelude Bits GoNet GoNetText Json K8s.
Local Open Scope Z_scope.

(** ** [metav1.Condition] *)
Record Condition : Type := mkCondition {
  c_Type : string; c_Status : string; c_Reason : string; c_Message : string;
  c_LastTransitionTime : Z; c_ObservedGeneration : Z
}.
#[global] Instance Condition_eq_dec : EqDecision Condition. Proof. solve_decision. Defined.

Fixpoint FindStatusCondition (conditions : list Condition) (ty : string) : option Condition :=
  match conditions with
  | [] => None
  | c :: cs => if bool_decide (c_Type c = ty) then Some c else FindStatusCondition cs ty
  end.

Fixpoint IsStatusConditionPresentAndEqual (conditions : list Condition) (ty status : string) : bool :=
  match conditions with
  | [] => false
  | c :: cs => if bool_decide (c_Type c = ty) then bool_decide (c_Status c = status)
               else IsStatusConditionPresentAndEqual cs ty status
  end.
Definition IsStatusConditionTrue (conditions : list Condition) (ty : string) : bool :=
  IsStatusConditionPresentAndEqual conditions ty ConditionTrue.

(** The update of an existing condition; a zero time stands for an unset one. *)
Definition updateCondition (now : Z) (e c : Condition) : Condition :=
  let t := if bool_decide (c_Status e = c_Status c) then c_LastTransitionTime e
           else if c_LastTransitionTime c =? 0 then now else c_LastTransitionTime c in
  mkCondition (c_Type e) (c_Status c) (c_Reason c) (c_Message c) t (c_ObservedGeneration c).

Fixpoint SetStatusCondition (now : Z) (conditions : list Condition) (c : Condition) : list Condition :=
  match conditions with
  | [] => [mkCondition (c_Type c) (c_Status c) (c_Reason c) (c_Message c)
             (if c_LastTransitionTime c =? 0 then now else c_LastTransitionTime c) (c_ObservedGeneration c)]
  | e :: cs => if bool_decide (c_Type e = c_Type c) then updateCondition now e c :: cs
               else e :: SetStatusCondition now cs c
  end.

(** ** Network *)
Definition DefaultNetworkName : string := "pod-network".
Definition DefaultPodNetworkName : string := "default".
Definition NetworkResourceKeyPrefix : string := "networking.gke.io.networks/".
Definition L3NetworkType : string := "L3".
Definition DeviceNetworkType : string := "Device".
Definition NetworkConditionStatusReady : string := "Ready".
Definition NetworkConditionStatusParamsReady : string := "ParamsReady".

Record NetworkParametersReference : Type := mkParametersRef { pr_Group : string; pr_Kind : string; pr_Name : string }.

Record Network : Type := mkNetwork {
  nw_Name : string;
  nw_Annotations : gmap string string;
  nw_Type : string;
  ParametersRef : option NetworkParametersReference;
  nw_Conditions : list Condition
}.
#[global] Instance NetworkParametersReference_eq_dec : EqDecision NetworkParametersReference.
Proof. solve_decision. Defined.
#[global] Instance Network_eq_dec : EqDecision Network. Proof. solve_decision. Defined.

Definition set_nw_Conditions (cs : list Condition) (n : Network) : Network :=
  mkNetwork (nw_Name n) (nw_Annotations n) (nw_Type n) (ParametersRef n) cs.

Definition DefaultNetworkIfEmpty (s : string) : string :=
  if bool_decide (s = EmptyString) then DefaultPodNetworkName else s.

Definition IsDefaultNetwork (networkName : string) : bool :=
  bool_decide (networkName = DefaultNetworkName) || bool_decide (networkName = DefaultPodNetworkName).

Definition NetworkInUseAnnotationKey : string := "networking.gke.io/in-use".
Definition NetworkInUseAnnotationValTrue : string := "true".

Definition InUse (n : Network) : bool :=
  bool_decide (nw_Annotations n !! NetworkInUseAnnotationKey = Some NetworkInUseAnnotationValTrue).

(** ** GKENetworkParamSet *)
Record GNPSpec : Type := mkGNPSpec {
  VPC : string; VPCSubnet : string; DeviceMode : string;
  (** [PodIPv4Ranges.RangeNames], [None] for a nil pointer *)
  PodIPv4Ranges : option (list string)
}.

Record GNPStatus : Type := mkGNPStatus {
  (** [PodCIDRs.CIDRBlocks] *)
  gnp_PodCIDRs : option (list string);
  gnp_Conditions : list Condition;
  NetworkName : string
}.

(** A nil label or annotation map is [None]: writing to it panics. *)
Record GKENetworkParamSet : Type := mkGNP {
  gnp_Name : string;
  gnp_Annotations : option (gmap string string);
  gnp_Labels : option (gmap string string);
  Finalizers : list string;
  DeletionTimestamp : option Z;
  CreationTimestamp : Z;
  gnp_Spec : GNPSpec;
  gnp_Status : GNPStatus
}.
#[global] Instance GNPSpec_eq_dec : EqDecision GNPSpec. Proof. solve_decision. Defined.
#[global] Instance GNPStatus_eq_dec : EqDecision GNPStatus. Proof. solve_decision. Defined.
#[global] Instance GNP_eq_dec : EqDecision GKENetworkParamSet. Proof. solve_decision. Defined.

(** ** Clients *)
Class NetClient (W : Type) : Type := {
  NetworkLister_List : io W (list Network);
  GNPLister_Get : string → io W GKENetworkParamSet;
  Networks_Get : string → io W Network;
  Networks_UpdateStatus : Network → io W unit;
  GNPs_List : io W (list GKENetworkParamSet);
  GNPs_Update : GKENetworkParamSet → io W unit;
  GNPs_UpdateStatus : GKENetworkParamSet → io W unit
}.

(** ** Annotations *)
Record NodeNetworkStatus : Type := mkNodeNetworkStatus { nns_Name : string; nns_IPv4Subnet : string; nns_IPv6Subnet : string }.
Record NodeNetwork : Type := mkNodeNetwork { nn_Name : string; nn_Cidrs : list string; nn_Scope : string }.
Record NorthInterface : Type := mkNorthInterface { ni_Network : string; ni_IpAddress : string }.
Record PodIP : Type := mkPodIP { pip_NetworkName : string; pip_IP : string }.
Record NICInfoRef : Type := mkNICInfoRef { nic_BirthIP : string; nic_PCIAddress : string; nic_BirthName : string }.

Definition NodeNetworkStatus_fields : list string := ["name"; "ipv4-subnet"; "ipv6-subnet"]%string.
Definition NorthInterface_fields : list string := ["network"; "ipAddress"]%string.
Definition PodIP_fields : list string := ["networkName"; "ip"]%string.
Definition NICInfoRef_fields : list string := ["birthIP"; "pciAddress"; "birthName"]%string.

(** The i-th field of a decoded struct. *)
Abbreviation fld l i := (nth i l EmptyString).

(** The slice and the error: on a type mismatch both are meaningful. *)
Definition ParseNodeNetworkAnnotation (annotation : string) : list NodeNetworkStatus * option error :=
  let '(l, err) := unmarshal_slice NodeNetworkStatus_fields annotation in
  ((λ v, mkNodeNetworkStatus (fld v 0) (fld v 1) (fld v 2)) <$> l, err).
Definition ParseNorthInterfacesAnnotation (annotation : string) : list NorthInterface * option error :=
  let '(l, err) := unmarshal_slice NorthInterface_fields annotation in
  ((λ v, mkNorthInterface (fld v 0) (fld v 1)) <$> l, err).
Definition ParsePodIPsAnnotation (annotation : string) : list PodIP * option error :=
  let '(l, err) := unmarshal_slice PodIP_fields annotation in
  ((λ v, mkPodIP (fld v 0) (fld v 1)) <$> l, err).
Definition ParseNICInfoAnnotation (annotation : string) : list NICInfoRef * option error :=
  let '(l, err) := unmarshal_slice NICInfoRef_fields annotation in
  ((λ v, mkNICInfoRef (fld v 0) (fld v 1) (fld v 2)) <$> l, err).

(** [MarshalAnnotation] on the two slices the allocator writes; encoding
    strings cannot fail, so the error branch is never taken. *)
Definition NorthInterface_struct (n : NorthInterface) : list (string * fieldValue) :=
  [("network"%string, FString (ni_Network n)); ("ipAddress"%string, FString (ni_IpAddress n))].
Definition NodeNetwork_struct (n : NodeNetwork) : list (string * fieldValue) :=
  [("name"%string, FString (nn_Name n)); ("cidrs"%string, FStrings (nn_Cidrs n)); ("scope"%string, FString (nn_Scope n))].

Definition MarshalNorthInterfacesAnnotation (a : list NorthInterface) : outcome string :=
  Ret (marshal_slice (map NorthInterface_struct a)).
Definition MarshalMultiNetworkAnnotation (a : list NodeNetwork) : outcome string :=
  Ret (marshal_slice (map NodeNetwork_struct a)).

(** ** Facts *)

Lemma IsStatusConditionPresentAndEqual_find cs ty st :
  IsStatusConditionPresentAndEqual cs ty st =
  match FindStatusCondition cs ty with Some c => bool_decide (c_Status c = st) | None => false end.
Proof. induction cs as [|c cs IH]; simpl; [done|]. by case_bool_decide. Qed.

(** Setting a condition is seen by a look-up of its type and of no other. *)
Lemma SetStatusCondition_find now cs c ty :
  match FindStatusCondition (SetStatusCondition now cs c) ty with
  | Some e => if bool_decide (ty = c_Type c)
              then c_Type e = ty ∧ c_Status e = c_Status c ∧ c_Reason e = c_Reason c ∧ c_Message e = c_Message c
              else FindStatusCondition cs ty = Some e
  | None => ty ≠ c_Type c ∧ FindStatusCondition cs ty = None
  end.
Proof.
  induction cs as [|e cs IH]; simpl.
  - repeat case_bool_decide; subst; done.
  - destruct (bool_decide (c_Type e = c_Type c)) eqn:E1; simpl.
    + propify. destruct (bool_decide (c_Type e = ty)) eqn:E2; propify; simpl.
      * rewrite bool_decide_eq_true_2 by congruence. done.
      * rewrite bool_decide_eq_false_2 by congruence.
        destruct (FindStatusCondition cs ty); [done|]. split; [congruence|done].
    + propify. destruct (bool_decide (c_Type e = ty)) eqn:E2; propify; [|exact IH].
      rewrite bool_decide_eq_false_2 by congruence. done.
Qed.

Lemma SetStatusCondition_true now cs c ty :
  IsStatusConditionTrue (SetStatusCondition now cs c) ty =
  if bool_decide (ty = c_Type c) then bool_decide (c_Status c = ConditionTrue) else IsStatusConditionTrue cs ty.
Proof.
  unfold IsStatusConditionTrue. rewrite !IsStatusConditionPresentAndEqual_find.
  pose proof (SetStatusCondition_find now cs c ty) as H.
  destruct (FindStatusCondition (SetStatusCondition now cs c) ty) as [e|].
  - case_bool_decide; [|by rewrite H]. destruct H as (_ & -> & _). done.
  - destruct H as [H1 ->]. by rewrite bool_decide_eq_false_2.
Qed.

(** Setting the same condition again changes nothing. *)
Lemma SetStatusCondition_idem now now' cs c :
  SetStatusCondition now' (SetStatusCondition now cs c) c = SetStatusCondition now cs c.
Proof.
  induction cs as [|e cs IH]; simpl.
  - rewrite bool_decide_eq_true_2 by done. unfold updateCondition; simpl. by rewrite bool_decide_eq_true_2.
  - destruct (bool_decide (c_Type e = c_Type c)) eqn:E; simpl.
    + rewrite E. f_equal. unfold updateCondition; simpl. by rewrite bool_decide_eq_true_2.
    + by rewrite E, IH.
Qed.

Definition north_ok (n : NorthInterface) : Prop := is_ascii (ni_Network n) = true ∧ is_ascii (ni_IpAddress n) = true.

(** What is written to a node as its north-interfaces annotation is read back. *)
Lemma north_interfaces_roundtrip a : Forall north_ok a →
  ∃ s, MarshalNorthInterfacesAnnotation a = Ret s ∧ ParseNorthInterfacesAnnotation s = (a, None).
Proof.
  intros Ha. eexists. split; [done|]. unfold ParseNorthInterfacesAnnotation.
  pose proof (unmarshal_marshal NorthInterface_fields (map (λ n, [ni_Network n; ni_IpAddress n]) a)) as H.
  rewrite map_map in H. simpl in H.
  change (λ n, [("network"%string, FString (ni_Network n)); ("ipAddress"%string, FString (ni_IpAddress n))])
    with NorthInterface_struct in H.
  rewrite H; clear H.
  - f_equal. clear Ha. induction a as [|[] a IH]; [done|]. simpl. by f_equal.
  - unfold NorthInterface_fields. repeat constructor; set_solver.
  - done.
  - repeat constructor.
  - apply Forall_map. eapply Forall_impl; [exact Ha|]. intros [n i] [Hn Hi]. split; [done|].
    repeat constructor; done.
Qed.
