(* ===== verification/MultiNetwork.v ===== *)
(** * MultiNetwork: annotations and capacity of multi-network nodes

    [pkg/controller/nodeipam/ipam/multinetwork_cloud_cidr_allocator.go].  The
    interfaces of an instance are matched with the Ready networks through their
    GKENetworkParamSets; the result is written on the (deep-copied) node object
    as two annotations and one extended resource per network. *)

From S2P Require Import Prelude Bits GoNet GoNetText NetUtils Json K8s GceInstances NetworkAPI.
Local Open Scope Z_scope.

(** ** Strings *)

(** [strings.Split(s, sep)] for a non-empty separator; [skip] counts the bytes
    of a separator still to be dropped. *)
Fixpoint split_str (sep : string) (skip : nat) (s : string) : list string :=
  match s with
  | EmptyString => [EmptyString]
  | String c s' =>
      match skip with
      | S skip => split_str sep skip s'
      | O =>
          if String.prefix sep s then EmptyString :: split_str sep (String.length sep - 1) s'
          else match split_str sep 0 s' with
               | w :: ws => String c w :: ws
               | [] => [String c EmptyString]
               end
      end
  end.
Definition strings_Split (s sep : string) : list string := split_str sep 0 s.

Definition HasSuffix (s suffix : string) : bool :=
  (String.length suffix <=? String.length s)%nat &&
  bool_decide (String.substring (String.length s - String.length suffix) (String.length suffix) s = suffix).

Definition resourceName (name : string) : string := List.last (split_on slash name) EmptyString.

(** ** Labels and default-network CIDRs *)
Definition NodePoolPodRangeLabelPrefix : string := "cloud.google.com/gke-np-default-pod-range".
Definition NodePoolSubnetLabelPrefix : string := "cloud.google.com/gke-np-default-subnet".

Definition getNodeDefaultLabels (node : Node) : bool * string * string :=
  match Labels node !! NodePoolSubnetLabelPrefix, Labels node !! NodePoolPodRangeLabelPrefix with
  | Some defaultSubnet, Some defaultPodRange =>
      if bool_decide (defaultSubnet = EmptyString) || bool_decide (defaultPodRange = EmptyString)
      then (false, EmptyString, EmptyString)
      else (true, defaultSubnet, defaultPodRange)
  | _, _ => (false, EmptyString, EmptyString)
  end.

(** The range and the interface's IPv6 range. *)
Definition rangeCIDRs (inf : NetworkInterface) (ipRange : AliasIpRange) : list string :=
  IpCidrRange ipRange :: match GetIPV6Address inf with Some a => [IPNet_String a] | None => [] end.

Fixpoint findAlias (l : list AliasIpRange) (rangeName : string) : option AliasIpRange :=
  match l with
  | [] => None
  | r :: l => if bool_decide (SubnetworkRangeName r = rangeName) then Some r else findAlias l rangeName
  end.

(** [parts[1]] panics when the URL has no [/subnetworks/]. *)
Fixpoint extractDefaultNwCIDRs (interfaces : list NetworkInterface) (defaultSubnet defaultPodRange : string) :
    outcome (list string) :=
  match interfaces with
  | [] => Ret []
  | inf :: rest =>
      match strings_Split (nic_Subnetwork inf) "/subnetworks/" !! 1%nat with
      | None => Panic
      | Some part =>
          if bool_decide (part ≠ defaultSubnet) then extractDefaultNwCIDRs rest defaultSubnet defaultPodRange
          else match findAlias (AliasIpRanges inf) defaultPodRange with
               | Some ipRange => Ret (rangeCIDRs inf ipRange)
               | None => extractDefaultNwCIDRs rest defaultSubnet defaultPodRange
               end
      end
  end.

(** ** Capacity *)
Definition getNodeCapacity (nw : NodeNetwork) : outcome Z :=
  match nn_Cidrs nw with
  | [] => Err (Errorf "network %s is missing CIDRs")
  | c :: _ =>
      ipNet ← ParseCIDR c;
      let size := RangeSize ipNet in
      Ret (if 1 <? size then Z.shiftr size 1 else 1)
  end.

Definition capacityKey (name : string) : string := (NetworkResourceKeyPrefix +:+ name +:+ ".IP")%string.
Definition isIPCapacity (name : string) : bool :=
  String.prefix NetworkResourceKeyPrefix name && HasSuffix name ".IP".

Fixpoint addCapacities (resourceList : gmap string Z) (nws : list NodeNetwork) : outcome (gmap string Z) :=
  match nws with
  | [] => Ret resourceList
  | nw :: nws =>
      ipCount ← getNodeCapacity nw;
      addCapacities (<[ capacityKey (nn_Name nw) := ipCount ]> resourceList) nws
  end.

Definition allocateIPCapacity (node : Node) (nodeNetworks : list NodeNetwork) : outcome (gmap string Z) :=
  addCapacities (filter (λ kv, isIPCapacity kv.1 = false) (Capacity (Status node))) nodeNetworks.

(** The node with its new annotations and capacity. *)
Definition updateAnnotations (node : Node) (northInterfaces : list NorthInterface)
    (additionalNodeNetworks : list NodeNetwork) : outcome Node :=
  northInterfaceAnn ← MarshalNorthInterfacesAnnotation northInterfaces;
  additionalNodeNwAnn ← MarshalMultiNetworkAnnotation additionalNodeNetworks;
  let node := set_Annotations <[ NorthInterfacesAnnotationKey := northInterfaceAnn ]> node in
  capacity ← allocateIPCapacity node additionalNodeNetworks;
  let node := set_Status (λ st, mkStatus capacity (Conditions st)) node in
  Ret (set_Annotations <[ MultiNetworkAnnotationKey := additionalNodeNwAnn ]> node).

(** ** Networks of a node *)
Definition getUpNetworks (node : Node) : outcome (gset string) :=
  match Annotations node !! NodeNetworkAnnotationKey with
  | None => Ret ∅
  | Some ann =>
      match ParseNodeNetworkAnnotation ann with
      | (_, Some _) => Err (Errorf "invalid format for multi-network annotation: %v")
      | (nodeNws, None) => Ret (list_to_set (nns_Name <$> nodeNws))
      end
  end.

(** The accumulators of [performMultiNetworkCIDRAllocation]. *)
Record mnState : Type := mkMN {
  processedNetworks : gset string;
  mn_northInterfaces : list NorthInterface;
  mn_additionalNodeNetworks : list NodeNetwork;
  mn_defaultNwCIDRs : list string
}.

Definition isReadyNetwork (network : Network) : bool :=
  IsStatusConditionTrue (nw_Conditions network) NetworkConditionStatusReady || IsDefaultNetwork (nw_Name network).

(** [rangeNameAliasIPMap]: a later range of the same name wins. *)
Definition rangeNameAliasIPMap (inf : NetworkInterface) : gmap string AliasIpRange :=
  foldl (λ m r, <[ SubnetworkRangeName r := r ]> m) ∅ (AliasIpRanges inf).

(** The first secondary range of the parameter set the interface has. *)
Fixpoint firstRange (m : gmap string AliasIpRange) (names : list string) : option AliasIpRange :=
  match names with
  | [] => None
  | n :: names => match m !! n with Some r => Some r | None => firstRange m names end
  end.

(** A matched network goes into the annotations: the additional networks only
    when the node reports it up. *)
Definition addMatch (up : gset string) (network : Network) (inf : NetworkInterface) (cidrs : list string)
    (st : mnState) : mnState :=
  mkMN ({[ nw_Name network ]} ∪ processedNetworks st)
    (mn_northInterfaces st ++ [mkNorthInterface (nw_Name network) (NetworkIP inf)])
    (if decide (nw_Name network ∈ up)
     then mn_additionalNodeNetworks st ++ [mkNodeNetwork (nw_Name network) cidrs "host-local"]
     else mn_additionalNodeNetworks st)
    (mn_defaultNwCIDRs st).

(** What an interface that fits a network's parameter set adds. *)
Definition matchNetwork (hasNodeLabels : bool) (up : gset string) (inf : NetworkInterface) (network : Network)
    (gnp : GKENetworkParamSet) (st : mnState) : mnState :=
  if bool_decide (resourceName (nic_Network inf) ≠ resourceName (VPC (gnp_Spec gnp)))
     || bool_decide (resourceName (nic_Subnetwork inf) ≠ resourceName (VPCSubnet (gnp_Spec gnp)))
  then st
  else if bool_decide (nw_Type network = DeviceNetworkType)
  then addMatch up network inf [(NetworkIP inf +:+ "/32")%string] st
  else
    match firstRange (rangeNameAliasIPMap inf) (default [] (PodIPv4Ranges (gnp_Spec gnp))) with
    | None => st
    | Some ipRange =>
        if IsDefaultNetwork (nw_Name network) then
          mkMN ({[ nw_Name network ]} ∪ processedNetworks st) (mn_northInterfaces st) (mn_additionalNodeNetworks st)
            (if hasNodeLabels then mn_defaultNwCIDRs st else mn_defaultNwCIDRs st ++ rangeCIDRs inf ipRange)
        else addMatch up network inf [IpCidrRange ipRange] st
    end.

Section multinetwork.
Context {W : Type} `{NetClient W} `{KubeClient W}.

(** The networks of one interface; [ParametersRef] is dereferenced unchecked. *)
Fixpoint matchNetworks (hasNodeLabels : bool) (up : gset string) (inf : NetworkInterface)
    (networks : list Network) (st : mnState) : io W mnState :=
  match networks with
  | [] => mret st
  | network :: rest =>
      if decide (nw_Name network ∈ processedNetworks st) then matchNetworks hasNodeLabels up inf rest st
      else match ParametersRef network with
      | None => lift Panic
      | Some ref =>
          gnp ← GNPLister_Get (pr_Name ref);
          matchNetworks hasNodeLabels up inf rest (matchNetwork hasNodeLabels up inf network gnp st)
      end
  end.

Fixpoint matchInterfaces (hasNodeLabels : bool) (up : gset string) (interfaces : list NetworkInterface)
    (networks : list Network) (st : mnState) : io W mnState :=
  match interfaces with
  | [] => mret st
  | inf :: rest =>
      st ← matchNetworks hasNodeLabels up inf networks st;
      matchInterfaces hasNodeLabels up rest networks st
  end.

(** The default network's CIDRs and the updated node. *)
Definition performMultiNetworkCIDRAllocation (node : Node) (interfaces : list NetworkInterface) (hasNodeLabels : bool) :
    io W (list string * Node) :=
  r ← try NetworkLister_List;
  match r with
  | inl _ => fail (Errorf "node=%s error fetching networks: %v")
  | inr k8sNetworksList =>
      upStatusNetworks ← lift (getUpNetworks node);
      let networks := filter (λ n, isReadyNetwork n = true) k8sNetworksList in
      st ← matchInterfaces hasNodeLabels upStatusNetworks interfaces networks (mkMN ∅ [] [] []);
      node ← lift (updateAnnotations node (mn_northInterfaces st) (mn_additionalNodeNetworks st));
      mret (mn_defaultNwCIDRs st, node)
  end.
End multinetwork.

(** Whether [NetworkToNodes] queues a node for a network (for every network
    when [None]): a node whose annotation cannot be parsed is queued. *)
Definition nodeInNetwork (network : option Network) (node : Node) : bool :=
  match network with
  | None => true
  | Some network =>
      match Annotations node !! NorthInterfacesAnnotationKey with
      | None => false
      | Some northIntfAnn =>
          match ParseNorthInterfacesAnnotation northIntfAnn with
          | (_, Some _) => true
          | (northIntf, None) => existsb (λ ele, bool_decide (ni_Network ele = nw_Name network)) northIntf
          end
      end
  end.

Example split_demo : strings_Split "projects/p/regions/r/subnetworks/s1" "/subnetworks/" = ["projects/p/regions/r"; "s1"]%string
  ∧ strings_Split "abc" "/subnetworks/" = ["abc"%string] ∧ strings_Split "aXXXb" "XX" = ["a"; "Xb"]%string.
Proof. by vm_compute. Qed.
Example capacity_demo : getNodeCapacity (mkNodeNetwork "n" ["10.0.0.0/24"%string] "host-local") = Ret 128
  ∧ getNodeCapacity (mkNodeNetwork "n" ["10.0.0.7/32"%string] "host-local") = Ret 1.
Proof. by vm_compute. Qed.
