(* ===== verification/CloudCidrAllocator.v ===== *)
(** * CloudCidrAllocator: pod CIDRs assigned by the cloud

    [pkg/controller/nodeipam/ipam/cloud_cidr_allocator.go].  The allocator reads
    the alias ranges and the IPv6 range of a node's instance and copies them to
    the node object.  Its own state is the work queue and two metric series;
    the API server, the listers and the compute API are the world [W].  A node
    handler or a network handler only queues names; [processNextItem] is one
    turn of a worker. *)

From S2P Require Import Prelude Bits GoNet GoNetText NetUtils Json K8s GceInstances NetworkAPI WorkQueue MultiNetwork.
From S2P Require Import CidrSet CidrPool RangeAllocator.
Local Open Scope Z_scope.

Inductive clusterStackType : Type := stackIPv4 | stackIPv4IPv6 | stackIPv6IPv4 | stackIPv6.
#[global] Instance clusterStackType_eq_dec : EqDecision clusterStackType. Proof. solve_decision. Defined.

Definition updateMaxRetries : nat := 10.

Record cloudCIDRAllocator : Type := mkCA {
  ca_queue : workqueue;
  stackType : clusterStackType;
  (** the series of [multiNetworkNodes], by network *)
  multiNetworkNodes : gmap string Z;
  (** [WorkqueueDroppedObjects] of this queue *)
  ca_dropped : Z
}.

Definition with_queue (q : workqueue) (ca : cloudCIDRAllocator) : cloudCIDRAllocator :=
  mkCA q (stackType ca) (multiNetworkNodes ca) (ca_dropped ca).

Definition isIP4 (ipnet : option IPNet) : bool :=
  match ipnet with
  | None => false
  | Some n => if bool_decide (net_IP n = []) then false else bool_decide (is_Some (To4 (net_IP n)))
  end.

Definition isIP6 (ipnet : option IPNet) : bool :=
  match ipnet with
  | None => false
  | Some n => if bool_decide (net_IP n = []) then false
              else bool_decide (To4 (net_IP n) = None) && bool_decide (is_Some (To16 (net_IP n)))
  end.

(** The stack type of the service CIDRs; IPv4 by default. *)
Definition stackTypeOf (params : CIDRAllocatorParams) : clusterStackType :=
  if isIP4 (ServiceCIDR params) && isIP6 (SecondaryServiceCIDR params) then stackIPv4IPv6
  else if isIP6 (ServiceCIDR params) && isIP4 (SecondaryServiceCIDR params) then stackIPv6IPv4
  else if isIP6 (ServiceCIDR params) && bool_decide (SecondaryServiceCIDR params = None) then stackIPv6
  else stackIPv4.

Definition NewCloudCIDRAllocator (isGCE : bool) (params : CIDRAllocatorParams) : outcome cloudCIDRAllocator :=
  if negb isGCE then Err (Errorf "cloudCIDRAllocator does not support %v provider")
  else Ret (mkCA newQueue (stackTypeOf params) ∅ 0).

(** [node.Status.Conditions] with the network condition set to False; the times
    of an existing condition are kept. *)
Fixpoint setNetworkConditions (now : Z) (cs : list NodeCondition) : list NodeCondition :=
  match cs with
  | [] => [mkCond NodeNetworkUnavailable ConditionFalse "RouteCreated" "NodeController create implicit route" now 0]
  | c :: cs =>
      if bool_decide (cond_Type c = NodeNetworkUnavailable)
      then mkCond (cond_Type c) ConditionFalse "RouteCreated" "NodeController create implicit route"
             (cond_LastTransitionTime c) (cond_LastHeartbeatTime c) :: cs
      else c :: setNetworkConditions now cs
  end.
Definition setNetworkCondition (now : Z) (node : Node) : Node :=
  set_Status (λ st, mkStatus (Capacity st) (setNetworkConditions now (Conditions st))) node.

(** No interface, or one with neither an alias range nor an IPv6 address. *)
Definition noRanges (nics : list NetworkInterface) : bool :=
  match nics with
  | [] => true
  | [nic] => bool_decide (AliasIpRanges nic = []) && bool_decide (GetIPV6Address nic = None)
  | _ => false
  end.

(** The single interface of a node outside multi-networking. *)
Definition singleNic (nics : list NetworkInterface) : option NetworkInterface :=
  match nics with
  | [nic] => if (length (AliasIpRanges nic) =? 1)%nat || bool_decide (is_Some (GetIPV6Address nic)) then Some nic else None
  | _ => None
  end.

(** The CIDRs of such a node, in the order of the cluster's stack. *)
Definition stackCIDRs (st : clusterStackType) (nic : NetworkInterface) : outcome (list string) :=
  let ipv4CIDR := match AliasIpRanges nic with r :: _ => IpCidrRange r | [] => EmptyString end in
  let ipv6CIDR := match GetIPV6Address nic with Some a => IPNet_String a | None => EmptyString end in
  let has4 := bool_decide (ipv4CIDR ≠ EmptyString) in
  let has6 := bool_decide (ipv6CIDR ≠ EmptyString) in
  let none := Err (Errorf "failed to allocate cidr: Node %v has no ranges from which CIDRs can be allocated for the cluster stack family %s") in
  match st with
  | stackIPv4 => if has4 then Ret [ipv4CIDR] else none
  | stackIPv4IPv6 => if has4 && has6 then Ret [ipv4CIDR; ipv6CIDR] else none
  | stackIPv6IPv4 => if has4 && has6 then Ret [ipv6CIDR; ipv4CIDR] else none
  | stackIPv6 => if has6 then Ret [ipv6CIDR] else none
  end.

(** Move the gauge of the old networks down and of the new ones up. *)
Definition gaugeAdd (d : Z) (m : gmap string Z) (ni : NorthInterface) : gmap string Z :=
  <[ ni_Network ni := default 0 (m !! ni_Network ni) + d ]> m.
Definition updateGauge (old new : list NorthInterface) (m : gmap string Z) : gmap string Z :=
  foldl (gaugeAdd 1) (foldl (gaugeAdd (-1)) m old) new.

(** The network informer's objects. *)
Inductive networkObj : Type := NetObj (n : Network) | NetTombstone (o : networkObj) | NetOther.

Section allocator.
Context {W : Type} `{KubeClient W} `{ComputeClient W} `{NetClient W}.

Abbreviation M := (io (cloudCIDRAllocator * W)).

Definition updateNodeCIDR (node oldNode : Node) : io W unit :=
  _ ← (if bool_decide (Spec node = Spec oldNode) then mret tt
       else r ← try (PatchNodeCIDRs (node_Name node) (PodCIDRs (Spec node)));
            match r with
            | inl err => _ ← RecordNodeStatusChange node "CIDRAssignmentFailed"; fail err
            | inr _ => mret tt
            end);
  if bool_decide (Conditions (Status node) = Conditions (Status oldNode)) then mret tt
  else match GetNodeCondition (Some (Status node)) NodeNetworkUnavailable with
       | (_, None) => fail (Errorf "unable to find %s condition in node %s")
       | (_, Some cond) => SetNodeCondition (node_Name node) cond
       end.

(** The node with its pod CIDRs set, after the update. *)
Definition updateNodePodCIDRWithCidrStrings (oldNode node : Node) (cidrStrings : list string) : io W Node :=
  if bool_decide (cidrStrings = []) then
    _ ← RecordNodeStatusChange node "CIDRNotAvailable";
    fail (Errorf "failed to allocate cidr: Node %v has no CIDRs")
  else
    let cidrStrings := take 2 cidrStrings in
    cidrs ← try (lift (ParseCIDRs cidrStrings));
    match cidrs with
    | inl _ => fail (Errorf "failed to parse strings %v as CIDRs: %v")
    | inr cidrs =>
        if (1 <? length cidrs)%nat && negb (match IsDualStackCIDRs (Some <$> cidrs) with Ret b => b | _ => false end)
        then fail (Errorf "err: IPs are not dual stack, CIDRS: %v")
        else
          let node := set_Spec (set_PodCIDRs cidrStrings) node in
          _ ← updateNodeCIDR node oldNode; mret node
    end.

(** The CIDRs of the node and the node with what multi-networking added. *)
Definition nodeCIDRs (st : clusterStackType) (node : Node) (nics : list NetworkInterface) : io W (list string * Node) :=
  match singleNic nics with
  | Some nic => cidrStrings ← lift (stackCIDRs st nic); mret (cidrStrings, node)
  | None =>
      let '(hasNodeLabels, defaultSubnet, defaultPodRange) := getNodeDefaultLabels node in
      r ← try (performMultiNetworkCIDRAllocation node nics hasNodeLabels);
      match r with
      | inl _ =>
          _ ← RecordNodeStatusChange node "AnnotationsNotAvailable";
          fail (Errorf "failed to perform node annotations for multi-networking: %v")
      | inr (cidrStrings, node) =>
          cidrStrings ← lift (if hasNodeLabels then extractDefaultNwCIDRs nics defaultSubnet defaultPodRange
                              else Ret cidrStrings);
          mret (cidrStrings, node)
      end
  end.

(** Write the multi-network annotations and move the gauge. *)
Definition updateMultiNetwork (oldNode node : Node) : M unit :=
  if bool_decide (Annotations node = Annotations oldNode) then mret tt
  else
    let old := match Annotations oldNode !! NorthInterfacesAnnotationKey with
               | Some ann => (ParseNorthInterfacesAnnotation ann).1 | None => [] end in
    r ← try (on_snd (PatchNodeMultiNetwork node));
    match r with
    | inl err => _ ← on_snd (RecordNodeStatusChange node "CIDRAssignmentFailed"); fail err
    | inr _ =>
        match Annotations node !! NorthInterfacesAnnotationKey with
        | None => mret tt
        | Some ann => put (λ '(ca, w),
            (mkCA (ca_queue ca) (stackType ca)
               (updateGauge old (ParseNorthInterfacesAnnotation ann).1 (multiNetworkNodes ca)) (ca_dropped ca), w))
        end
    end.

Definition updateCIDRAllocation (nodeName : string) : M unit :=
  r ← try (on_snd (NodeLister_Get nodeName));
  match r with
  | inl err => if IsNotFound err then mret tt else fail err
  | inr oldNode =>
      if bool_decide (ProviderID (Spec oldNode) = EmptyString) then fail (Errorf "node %s doesn't have providerID")
      else
        inst ← try (on_snd (InstanceByProviderID (ProviderID (Spec oldNode))));
        match inst with
        | inl _ =>
            _ ← on_snd (RecordNodeStatusChange oldNode "CIDRNotAvailable");
            fail (Errorf "failed to get instance from provider: %v")
        | inr inst =>
            if noRanges (NetworkInterfaces inst) then
              _ ← on_snd (RecordNodeStatusChange oldNode "CIDRNotAvailable");
              fail (Errorf "failed to allocate cidr: Node %v has no ranges from which CIDRs can be allocated")
            else
              now ← on_snd Clock_Now;
              let node := setNetworkCondition now oldNode in
              st ← (λ '(ca, w), (Ret (stackType ca), (ca, w)));
              '(cidrStrings, node) ← on_snd (nodeCIDRs st node (NetworkInterfaces inst));
              node ← on_snd (updateNodePodCIDRWithCidrStrings oldNode node cidrStrings);
              updateMultiNetwork oldNode node
        end
  end.

(** ** The queue *)
Definition onQueue (f : workqueue → workqueue) : M unit := put (λ '(ca, w), (with_queue (f (ca_queue ca)) ca, w)).

Definition AllocateOrOccupyCIDR (node : Node) : M unit := onQueue (q_Add (node_Name node)).
Definition ReleaseCIDR (node : Node) : M unit := mret tt.

Definition handleErr (err : option error) (key : string) : M unit := put (λ '(ca, w),
  let '(q, dropped) := retryOrForget updateMaxRetries (bool_decide (err = None)) key (ca_queue ca) in
  (mkCA q (stackType ca) (multiNetworkNodes ca) (ca_dropped ca + (if dropped then 1 else 0)), w)).

(** One turn of a worker: [None] while [Get] blocks, [Some false] to stop. *)
Definition processNextItem : M (option bool) := λ '(ca, w),
  match q_Get (ca_queue ca) with
  | Blocked => (Ret None, (ca, w))
  | Quit => (Ret (Some false), (ca, w))
  | Item key q =>
      defer (λ '(ca, w), (with_queue (q_Done key (ca_queue ca)) ca, w))
        (r ← try (updateCIDRAllocation key);
         _ ← handleErr (match r with inl e => Some e | inr _ => None end) key;
         mret (Some true)) (with_queue q ca, w)
  end.

(** ** Handlers *)
Definition cloud_addNode : informerObj → M unit := CreateAddNodeHandler AllocateOrOccupyCIDR.

Definition networkUnavailableTaint : Taint := mkTaint TaintNodeNetworkUnavailable TaintEffectNoSchedule.

(** Whether an updated node needs processing. *)
Definition needsUpdate (oldNode newNode : Node) : bool :=
  bool_decide (PodCIDR (Spec newNode) = EmptyString)
  || (match GetNodeCondition (Some (Status newNode)) NodeNetworkUnavailable with
      | (_, None) => true
      | (_, Some cond) => bool_decide (cond_Status cond ≠ ConditionFalse)
      end || TaintExists (Taints (Spec newNode)) networkUnavailableTaint)
  || bool_decide (default EmptyString (Annotations oldNode !! NodeNetworkAnnotationKey)
                  ≠ default EmptyString (Annotations newNode !! NodeNetworkAnnotationKey)).

Definition cloud_updateNode : informerObj → informerObj → M unit :=
  CreateUpdateNodeHandler (λ oldNode newNode,
    if needsUpdate oldNode newNode then AllocateOrOccupyCIDR newNode else mret tt).

Definition cloud_deleteNode : informerObj → M unit := CreateDeleteNodeHandler ReleaseCIDR.

Fixpoint queueNodes (network : option Network) (nodes : list Node) : M unit :=
  match nodes with
  | [] => mret tt
  | node :: rest =>
      _ ← (if nodeInNetwork network node then AllocateOrOccupyCIDR node else mret tt);
      queueNodes network rest
  end.

Definition NetworkToNodes (network : option Network) : M unit :=
  r ← try (on_snd NodeLister_List);
  match r with
  | inl _ => fail (Errorf "error fetching nodes: %v")
  | inr nodes => queueNodes network nodes
  end.

Definition addNetwork (obj : networkObj) : M unit :=
  match obj with
  | NetObj nw => if IsStatusConditionTrue (nw_Conditions nw) NetworkConditionStatusReady
                 then handled (NetworkToNodes None) else mret tt
  | _ => mret tt
  end.

Definition updateNetwork (old new : networkObj) : M unit :=
  match old, new with
  | NetObj oldNet, NetObj newNet =>
      let newStatus := IsStatusConditionTrue (nw_Conditions newNet) NetworkConditionStatusReady in
      if bool_decide (IsStatusConditionTrue (nw_Conditions oldNet) NetworkConditionStatusReady = newStatus) then mret tt
      else handled (NetworkToNodes (if newStatus then None else Some newNet))
  | _, _ => lift Panic
  end.

Definition deleteNetwork (obj : networkObj) : M unit :=
  match obj with
  | NetObj nw | NetTombstone (NetObj nw) => handled (NetworkToNodes (Some nw))
  | _ => mret tt
  end.
End allocator.
