(* ===== verification/MultiNetworkProps.v ===== *)
(** * MultiNetworkProps: what multi-network processing writes on a node *)

From S2P Require Import Prelude Bits GoNet GoNetText NetUtils Json K8s GceInstances NetworkAPI MultiNetwork.
Local Open Scope Z_scope.

(** ** Capacity *)

Lemma getNodeCapacity_bounds nw c : getNodeCapacity nw = Ret c → 1 <= c < 2 ^ 62.
Proof.
  unfold getNodeCapacity. destruct (nn_Cidrs nw) as [|s l]; [done|].
  destruct (ParseCIDR s) as [n| |]; [simpl|done..]. intros [= <-]. pose proof (RangeSize_bounds n).
  destruct (Z.ltb_spec 1 (RangeSize n)); [|lia]. rewrite Z.shiftr_div_pow2 by lia.
  change (2 ^ 1) with 2. change (2 ^ 63) with (2 ^ 62 * 2) in *.
  split; [apply Z.div_le_lower_bound; lia|apply Z.div_lt_upper_bound; lia].
Qed.

Lemma string_app_inj_l a s t : (a +:+ s = a +:+ t)%string → s = t.
Proof. induction a as [|c a IH]; [done|]. intros [= H]. by apply IH. Qed.

Lemma string_app_inj_r s t b : (s +:+ b = t +:+ b)%string → s = t.
Proof.
  revert t. induction s as [|c s IH]; intros [|d t] H; [done| | |].
  - apply (f_equal String.length) in H. rewrite !string_length_app in H. simpl in H. lia.
  - apply (f_equal String.length) in H. rewrite !string_length_app in H. simpl in H. lia.
  - injection H as -> H. f_equal. by apply IH.
Qed.

#[global] Instance capacityKey_inj : Inj (=) (=) capacityKey.
Proof. intros a b H%string_app_inj_l. by apply string_app_inj_r in H. Qed.

Lemma addCapacities_spec nws : ∀ m m', NoDup (nn_Name <$> nws) → addCapacities m nws = Ret m' →
  (∀ nw, nw ∈ nws → ∃ c, getNodeCapacity nw = Ret c ∧ m' !! capacityKey (nn_Name nw) = Some c) ∧
  (∀ k, (∀ nw, nw ∈ nws → k ≠ capacityKey (nn_Name nw)) → m' !! k = m !! k).
Proof.
  induction nws as [|nw nws IH]; intros m m' Hnd; simpl.
  { intros [= <-]. split; [by intros ? ?%not_elem_of_nil|done]. }
  apply NoDup_cons in Hnd as [Hnw Hnd]. destruct (getNodeCapacity nw) as [c| |] eqn:Ec; [simpl|done..].
  intros [Hin Hout]%IH; [|done]. split.
  - intros nw' [->|Hnw']%elem_of_cons; [|by apply Hin]. exists c. split; [done|].
    rewrite Hout; [apply lookup_insert_eq|]. intros nw' Hnw' Heq%(inj _). apply Hnw. rewrite Heq.
    by apply list_elem_of_fmap_2.
  - intros k Hk. rewrite Hout by (intros; apply Hk; set_solver). apply lookup_insert_ne.
    intros <-. apply (Hk nw); [set_solver|done].
Qed.

Lemma prefix_app a b : String.prefix a (a +:+ b) = true.
Proof.
  induction a as [|c a IH]; [by destruct b|]. change (String c a +:+ b)%string with (String c (a +:+ b)).
  cbn [String.prefix]. by destruct (Ascii.ascii_dec c c).
Qed.

Lemma substring_app_r a b : String.substring (String.length a) (String.length b) (a +:+ b) = b.
Proof. induction a as [|c a IH]; [apply substring_all|exact IH]. Qed.

Lemma HasSuffix_app a b : HasSuffix (a +:+ b) b = true.
Proof.
  unfold HasSuffix. rewrite string_length_app. replace (String.length a + String.length b - String.length b)%nat
    with (String.length a) by lia.
  rewrite substring_app_r, bool_decide_eq_true_2 by done. rewrite (proj2 (Nat.leb_le _ _)) by lia. done.
Qed.

Lemma capacityKey_is n : isIPCapacity (capacityKey n) = true.
Proof.
  unfold isIPCapacity, capacityKey. rewrite prefix_app. simpl. rewrite <- string_app_assoc. apply HasSuffix_app.
Qed.


(** ** Matching *)
Section matching.
Context {W : Type} `{NetClient W}.
(** What the lister may return for a name. *)
Variable K : string → GKENetworkParamSet → Prop.
Hypothesis lister_K : ∀ name w gnp w', GNPLister_Get name w = (Ret gnp, w') → K name gnp.
Variable up : gset string.
Variable interfaces : list NetworkInterface.
Variable networks : list Network.

(** The interface sits in the VPC and subnet of the network's parameter set. *)
Definition fits (inf : NetworkInterface) (nw : Network) : Prop :=
  ∃ ref gnp, ParametersRef nw = Some ref ∧ K (pr_Name ref) gnp ∧
    resourceName (nic_Network inf) = resourceName (VPC (gnp_Spec gnp)) ∧
    resourceName (nic_Subnetwork inf) = resourceName (VPCSubnet (gnp_Spec gnp)).

(** An entry of the north-interfaces annotation names a network that fits one
    of the interfaces, with the interface's address. *)
Definition north_justified (ni : NorthInterface) : Prop :=
  ∃ inf nw, inf ∈ interfaces ∧ nw ∈ networks ∧ fits inf nw ∧
    ni = mkNorthInterface (nw_Name nw) (NetworkIP inf).

(** The CIDR of an additional network is the interface's address or one of its
    alias ranges. *)
Definition cidrs_justified (nn : NodeNetwork) : Prop :=
  ∃ inf, inf ∈ interfaces ∧
    (nn_Cidrs nn = [(NetworkIP inf +:+ "/32")%string] ∨ ∃ r, r ∈ AliasIpRanges inf ∧ nn_Cidrs nn = [IpCidrRange r]).

Record match_inv (st : mnState) : Prop := {
  mi_nodup : NoDup (ni_Network <$> mn_northInterfaces st);
  mi_processed ni : ni ∈ mn_northInterfaces st → ni_Network ni ∈ processedNetworks st;
  mi_up : nn_Name <$> mn_additionalNodeNetworks st =
          filter (λ n, n ∈ up) (ni_Network <$> mn_northInterfaces st);
  mi_north ni : ni ∈ mn_northInterfaces st → north_justified ni;
  mi_cidrs nn : nn ∈ mn_additionalNodeNetworks st → cidrs_justified nn
}.

Lemma match_inv_init : match_inv (mkMN ∅ [] [] []).
Proof. split; simpl; try done; [constructor|by intros ? ?%not_elem_of_nil..]. Qed.

Lemma addMatch_inv nw inf cidrs st : match_inv st → nw_Name nw ∉ processedNetworks st →
  inf ∈ interfaces → nw ∈ networks → fits inf nw →
  (cidrs = [(NetworkIP inf +:+ "/32")%string] ∨ ∃ r, r ∈ AliasIpRanges inf ∧ cidrs = [IpCidrRange r]) →
  match_inv (addMatch up nw inf cidrs st).
Proof.
  intros [Hnd Hp Hu Hn Hc] Hnw Hinf Hin Hfit Hcidr. split; simpl.
  - rewrite fmap_app. apply NoDup_app. split_and!; [done| |apply NoDup_singleton].
    intros x (ni & -> & Hni)%list_elem_of_fmap. simpl. intros Heq%list_elem_of_singleton.
    apply Hnw. rewrite <- Heq. by apply Hp.
  - intros ni [Hni|Hni]%elem_of_app; [set_solver|]. apply list_elem_of_singleton in Hni as ->. set_solver.
  - rewrite fmap_app, filter_app, <- Hu. cbn [fmap list_fmap ni_Network].
    destruct (decide (nw_Name nw ∈ up)).
    + by rewrite filter_cons_True, filter_nil, fmap_app.
    + by rewrite filter_cons_False, filter_nil, app_nil_r.
  - intros ni [Hni|Hni]%elem_of_app; [by apply Hn|]. apply list_elem_of_singleton in Hni as ->. by exists inf, nw.
  - case_decide; [|done]. intros nn [Hnn|Hnn]%elem_of_app; [by apply Hc|].
    apply list_elem_of_singleton in Hnn as ->. by exists inf.
Qed.

Lemma rangeMap_alias inf n r : rangeNameAliasIPMap inf !! n = Some r → r ∈ AliasIpRanges inf.
Proof.
  unfold rangeNameAliasIPMap. generalize (AliasIpRanges inf) as l. intros l.
  assert (∀ (m : gmap string AliasIpRange), foldl (λ m r, <[ SubnetworkRangeName r := r ]> m) m l !! n = Some r →
    m !! n = Some r ∨ r ∈ l) as Hg; [|intros Hm; by destruct (Hg _ Hm)].
  induction l as [|a l IH]; intros m; simpl; [by left|]. intros [Hm|Hl]%IH; [|set_solver].
  destruct (decide (SubnetworkRangeName a = n)) as [<-|Hne].
  - rewrite lookup_insert_eq in Hm. right. set_solver.
  - rewrite lookup_insert_ne in Hm by done. by left.
Qed.

Lemma firstRange_alias inf names r : firstRange (rangeNameAliasIPMap inf) names = Some r → r ∈ AliasIpRanges inf.
Proof.
  induction names as [|n names IH]; simpl; [done|].
  destruct (rangeNameAliasIPMap inf !! n) eqn:E; [|done]. intros [= ->]. by eapply rangeMap_alias.
Qed.

Lemma matchNetwork_inv labels inf nw ref gnp st : match_inv st → nw_Name nw ∉ processedNetworks st →
  inf ∈ interfaces → nw ∈ networks → ParametersRef nw = Some ref → K (pr_Name ref) gnp →
  match_inv (matchNetwork labels up inf nw gnp st).
Proof.
  intros Hst Hnw Hinf Hin Href HK. unfold matchNetwork.
  destruct (_ || _) eqn:E; [done|]. apply orb_false_iff in E as [E1 E2]. propify.
  assert (fits inf nw) as Hfit.
  { exists ref, gnp. split_and!; try done; by apply dec_stable. }
  case_bool_decide; [apply addMatch_inv; auto|].
  destruct (firstRange _ _) as [r|] eqn:Er; [|done]. apply firstRange_alias in Er.
  destruct (IsDefaultNetwork _); [|apply addMatch_inv; eauto].
  destruct Hst as [Hnd Hp Hu Hn Hc]. split; simpl; try done. set_solver.
Qed.

Lemma matchNetworks_inv labels inf : ∀ nws st w st' w', match_inv st → inf ∈ interfaces →
  nws ⊆ networks → matchNetworks labels up inf nws st w = (Ret st', w') → match_inv st'.
Proof.
  induction nws as [|nw nws IH]; intros st w st' w' Hst Hinf Hsub; simpl; [by intros [= <- _]|].
  assert (nws ⊆ networks) by set_solver. assert (nw ∈ networks) by set_solver.
  case_decide as Hp; [eauto|]. destruct (ParametersRef nw) as [ref|] eqn:Eref; [|done].
  rewrite io_bind_eq. destruct (GNPLister_Get (pr_Name ref) w) as [[gnp| |] w1] eqn:Eg; [|done..].
  intros Hm. eapply IH; [|done..|exact Hm]. eapply matchNetwork_inv; eauto.
Qed.

Lemma matchInterfaces_inv labels : ∀ infs st w st' w', match_inv st → infs ⊆ interfaces →
  matchInterfaces labels up infs networks st w = (Ret st', w') → match_inv st'.
Proof.
  induction infs as [|inf infs IH]; intros st w st' w' Hst Hsub; simpl; [by intros [= <- _]|].
  rewrite io_bind_eq. destruct (matchNetworks labels up inf networks st w) as [[st1| |] w1] eqn:E; [|done..].
  apply matchNetworks_inv in E; [|done|set_solver|done]. apply IH; [done|set_solver].
Qed.
End matching.

Lemma updateAnnotations_inv node north adds node' : updateAnnotations node north adds = Ret node' →
  ∃ s t, MarshalNorthInterfacesAnnotation north = Ret s ∧ MarshalMultiNetworkAnnotation adds = Ret t ∧
    Annotations node' = <[ MultiNetworkAnnotationKey := t ]> (<[ NorthInterfacesAnnotationKey := s ]> (Annotations node)) ∧
    allocateIPCapacity node adds = Ret (Capacity (Status node')) ∧
    Spec node' = Spec node ∧ Conditions (Status node') = Conditions (Status node) ∧ node_Name node' = node_Name node.
Proof.
  unfold updateAnnotations. cbn [mbind outcome_bind MarshalNorthInterfacesAnnotation MarshalMultiNetworkAnnotation].
  change (allocateIPCapacity (set_Annotations _ node) adds) with (allocateIPCapacity node adds).
  destruct (allocateIPCapacity node adds) as [c| |]; [simpl|done..]. intros [= <-]. eexists _, _. done.
Qed.

Lemma perform_inv {W} `{NetClient W} node interfaces labels w cidrs node' w' :
  performMultiNetworkCIDRAllocation node interfaces labels w = (Ret (cidrs, node'), w') →
  ∃ all up st w1 w2, NetworkLister_List w = (Ret all, w1) ∧ getUpNetworks node = Ret up ∧
    matchInterfaces labels up interfaces (filter (λ n, isReadyNetwork n = true) all) (mkMN ∅ [] [] []) w1 = (Ret st, w2) ∧
    cidrs = mn_defaultNwCIDRs st ∧
    updateAnnotations node (mn_northInterfaces st) (mn_additionalNodeNetworks st) = Ret node'.
Proof.
  unfold performMultiNetworkCIDRAllocation. rewrite io_bind_eq. unfold try.
  destruct (NetworkLister_List w) as [[all| |] w1]; [|done..].
  rewrite io_bind_eq. unfold lift. destruct (getUpNetworks node) as [up| |]; [|done..].
  rewrite io_bind_eq. destruct (matchInterfaces _ _ _ _ _ _) as [[st| |] w2] eqn:Em; [|done..].
  rewrite io_bind_eq. destruct (updateAnnotations _ _ _) as [n| |] eqn:Eu; [|done..].
  intros [= <- <- _]. exists all, up, st, w1, w2. done.
Qed.

(** A successful multi-network run writes two annotations and the capacity
    and leaves the rest of the node alone.  No network is listed twice; every
    listed one is Ready (or the default network) and is in the VPC and subnet of
    the interface whose address is given; the additional networks are those of
    them that the node reports as up, in the same order, each with a CIDR of an
    interface. *)
Theorem performMultiNetworkCIDRAllocation_annotates {W} `{NetClient W}
    (K : string → GKENetworkParamSet → Prop) node interfaces labels w cidrs node' w' :
  (∀ name w gnp w', GNPLister_Get name w = (Ret gnp, w') → K name gnp) →
  performMultiNetworkCIDRAllocation node interfaces labels w = (Ret (cidrs, node'), w') →
  ∃ all up north adds s t,
    (NetworkLister_List w).1 = Ret all ∧ getUpNetworks node = Ret up ∧
    NoDup (ni_Network <$> north) ∧
    Forall (north_justified K interfaces (filter (λ n, isReadyNetwork n = true) all)) north ∧
    nn_Name <$> adds = filter (λ n, n ∈ up) (ni_Network <$> north) ∧ Forall (cidrs_justified interfaces) adds ∧
    MarshalNorthInterfacesAnnotation north = Ret s ∧ MarshalMultiNetworkAnnotation adds = Ret t ∧
    Annotations node' = <[ MultiNetworkAnnotationKey := t ]> (<[ NorthInterfacesAnnotationKey := s ]> (Annotations node)) ∧
    allocateIPCapacity node adds = Ret (Capacity (Status node')) ∧
    Spec node' = Spec node ∧ Conditions (Status node') = Conditions (Status node).
Proof.
  intros HK (all & up & st & w1 & w2 & Hl & Hup & Hm & -> & Hu)%perform_inv.
  apply (matchInterfaces_inv K HK up interfaces) in Hm as [Hnd Hp Hadd Hn Hc]; [|apply match_inv_init|done].
  apply updateAnnotations_inv in Hu as (s & t & Hs & Ht & Ha & Hcap & Hsp & Hco & _).
  exists all, up, (mn_northInterfaces st), (mn_additionalNodeNetworks st), s, t. rewrite Hl.
  split_and!; try done; by apply Forall_forall.
Qed.

Lemma existsb_name name north : existsb (λ ele, bool_decide (ni_Network ele = name)) north = true ↔
  name ∈ (ni_Network <$> north).
Proof.
  rewrite existsb_exists, list_elem_of_fmap. setoid_rewrite bool_decide_eq_true. setoid_rewrite <- list_elem_of_In.
  naive_solver.
Qed.

(** The annotation written on a node is what later decides whether a
    network event re-queues it: after a successful run (ASCII names and
    addresses) the node is found for exactly the networks it was matched with,
    each of which fits one of its interfaces. *)
Theorem matched_networks_are_found {W} `{NetClient W}
    (K : string → GKENetworkParamSet → Prop) node interfaces labels w cidrs node' w' all :
  (∀ name w gnp w', GNPLister_Get name w = (Ret gnp, w') → K name gnp) →
  performMultiNetworkCIDRAllocation node interfaces labels w = (Ret (cidrs, node'), w') →
  (NetworkLister_List w).1 = Ret all →
  Forall (λ n, is_ascii (nw_Name n) = true) all → Forall (λ i, is_ascii (NetworkIP i) = true) interfaces →
  ∃ north,
    Forall (north_justified K interfaces (filter (λ n, isReadyNetwork n = true) all)) north ∧
    ∀ nw, nodeInNetwork (Some nw) node' = true ↔ nw_Name nw ∈ (ni_Network <$> north).
Proof.
  intros HK (all' & up & st & w1 & w2 & Hl & Hup & Hm & -> & Hu)%perform_inv Hall Ha Hi.
  rewrite Hl in Hall. injection Hall as ->.
  apply (matchInterfaces_inv K HK up interfaces) in Hm as [Hnd Hp Hadd Hn Hc]; [|apply match_inv_init|done].
  apply updateAnnotations_inv in Hu as (s & t & Hs & Ht & Hann & _).
  exists (mn_northInterfaces st). split; [by apply Forall_forall|]. intros nw.
  destruct (north_interfaces_roundtrip (mn_northInterfaces st)) as (s' & Hs' & Hparse).
  { apply Forall_forall. intros ni (inf & n & Hinf & Hn' & _ & ->)%Hn. apply list_elem_of_filter in Hn' as [_ Hn'].
    split; simpl; [by apply (proj1 (Forall_forall _ _) Ha)|by apply (proj1 (Forall_forall _ _) Hi)]. }
  assert (s' = s) as -> by congruence.
  unfold nodeInNetwork. rewrite Hann, lookup_insert_ne, lookup_insert_eq, Hparse by done. apply existsb_name.
Qed.

(** ** Networks without a parameter reference *)

Lemma matchNetwork_processed labels up inf nw gnp st x :
  x ∈ processedNetworks (matchNetwork labels up inf nw gnp st) → x ∈ processedNetworks st ∨ x = nw_Name nw.
Proof.
  unfold matchNetwork. destruct (_ || _); [by left|]. case_bool_decide; simpl; [set_solver|].
  destruct (firstRange _ _); [|by left]. destruct (IsDefaultNetwork _); simpl; set_solver.
Qed.

(** A network that is not processed yet and has no reference stops the loop. *)
Lemma matchNetworks_nil_ref {W} `{NetClient W} labels up inf bad : ParametersRef bad = None →
  ∀ nws st w st' w', bad ∈ nws → nw_Name bad ∉ processedNetworks st →
  (∀ nw, nw ∈ nws → nw_Name nw = nw_Name bad → nw = bad) →
  matchNetworks labels up inf nws st w ≠ (Ret st', w').
Proof.
  intros Hbad. induction nws as [|nw nws IH]; intros st w st' w' Hin Hst Huniq; [by apply not_elem_of_nil in Hin|].
  simpl. destruct (decide (nw = bad)) as [->|Hne].
  - rewrite decide_False, Hbad by done. done.
  - assert (bad ∈ nws) by set_solver.
    assert (nw_Name nw ≠ nw_Name bad) by (intros Heq; apply Hne, Huniq; [set_solver|done]).
    assert (∀ nw', nw' ∈ nws → nw_Name nw' = nw_Name bad → nw' = bad) by (intros; apply Huniq; [set_solver|done]).
    case_decide; [by apply IH|]. destruct (ParametersRef nw) as [ref|]; [|done]. rewrite io_bind_eq.
    destruct (GNPLister_Get (pr_Name ref) w) as [[gnp| |] w1]; [|done..]. apply IH; [done| |done].
    intros [?|?]%matchNetwork_processed; [done|congruence].
Qed.

(** One Ready network without a parameter reference (the API allows it)
    keeps every node with an interface from being processed in multi-network
    mode: the run dereferences the nil reference, or fails earlier, and never
    returns CIDRs. *)
Theorem nil_ParametersRef_blocks {W} `{NetClient W} node inf rest labels w all bad r w' :
  (NetworkLister_List w).1 = Ret all → bad ∈ all → isReadyNetwork bad = true → ParametersRef bad = None →
  (∀ nw, nw ∈ all → nw_Name nw = nw_Name bad → nw = bad) →
  performMultiNetworkCIDRAllocation node (inf :: rest) labels w ≠ (Ret r, w').
Proof.
  intros Hall Hin Hr Href Huniq. destruct r as [cidrs node'].
  intros (all' & up & st & w1 & w2 & Hl & Hup & Hm & _)%perform_inv.
  rewrite Hl in Hall. injection Hall as ->. simpl in Hm. rewrite io_bind_eq in Hm.
  destruct (matchNetworks labels up inf _ _ w1) as [[st1| |] w3] eqn:E; [|done..].
  apply (matchNetworks_nil_ref _ _ _ bad) in E; [done|done|by apply list_elem_of_filter|set_solver|].
  intros nw [_ Hnw]%list_elem_of_filter. by apply Huniq.
Qed.
