(* ===== verification/CloudProps.v ===== *)
(** * CloudProps: what the cloud CIDR allocator does to nodes

    [CloudWorld] states what the allocator relies on: only a CIDR patch changes
    the pod CIDRs stored by the API server, an accepted one stores what it
    carries, and a request that fails may or may not have been applied. *)
From S2P Require Import Prelude Bits GoNet GoNetText CidrSet CidrPool K8s RangeAllocator GceInstances NetUtils WorkQueue Json NetworkAPI MultiNetwork CloudCidrAllocator MultiNetworkProps.
Local Open Scope Z_scope.

Definition isCIDRPatch (p : nodePatch) : bool := match p with PatchCIDRs _ _ | PatchPodCIDR _ => true | _ => false end.

Class CloudWorld (W : Type) `{KubeClient W} `{ComputeClient W} `{NetClient W} : Type := {
  (** [spec.podCIDRs] of every node, as the API server has it *)
  pods : W → gmap string (list string);
  cw_lister_get name w : pods (NodeLister_Get name w).2 = pods w;
  cw_lister_name name w n : (NodeLister_Get name w).1 = Ret n → node_Name n = name;
  cw_event ref s w : pods (Recorder_Eventf ref s w).2 = pods w;
  cw_clock w : pods (Clock_Now w).2 = pods w;
  cw_instance z n w : pods (Instances_Get z n w).2 = pods w;
  cw_networks w : pods (NetworkLister_List w).2 = pods w;
  cw_gnp name w : pods (GNPLister_Get name w).2 = pods w;
  cw_patch_other name p w : isCIDRPatch p = false → pods (Nodes_Patch name p w).2 = pods w;
  cw_patch name c l w : let '(r, w') := Nodes_Patch name (PatchCIDRs c l) w in
    match r with
    | Ret _ => pods w' = <[ name := l ]> (pods w)
    | _ => pods w' = pods w ∨ pods w' = <[ name := l ]> (pods w)
    end
}.

(** One or two CIDRs, two only of different families. *)
Definition cidrs_wf (l : list string) : Prop :=
  ∃ cidrs, ParseCIDRs l = Ret cidrs ∧
    (length l = 1%nat ∨ length l = 2%nat ∧ IsDualStackCIDRs (Some <$> cidrs) = Ret true).

(** Multi-networking leaves name and spec alone. *)
Lemma perform_node {W} `{NetClient W} node nics labels w cs n w' :
  performMultiNetworkCIDRAllocation node nics labels w = (Ret (cs, n), w') →
  node_Name n = node_Name node ∧ Spec n = Spec node.
Proof. intros (all & up & st & w1 & w2 & _ & _ & _ & _ & Hu)%perform_inv. apply updateAnnotations_inv in Hu as (? & ? & Hu). tauto. Qed.

Section props.
Context {W : Type} `{HC : CloudWorld W}.

(** ** Calls that leave the pod CIDRs alone *)
Definition pods_kept {A} (m : io W A) : Prop := ∀ w, pods (m w).2 = pods w.

Lemma pods_kept_ret {A} (a : A) : pods_kept (mret a).
Proof. done. Qed.
Lemma pods_kept_fail {A} e : pods_kept (@fail W A e).
Proof. done. Qed.
Lemma pods_kept_lift {A} (o : outcome A) : pods_kept (lift o).
Proof. done. Qed.
Lemma pods_kept_bind {A B} (m : io W A) (f : A → io W B) : pods_kept m → (∀ a, pods_kept (f a)) → pods_kept (m ≫= f).
Proof.
  intros Hm Hf w. rewrite io_bind_eq. specialize (Hm w). destruct (m w) as [[a| |] w1]; simpl in *; [|done..].
  by rewrite Hf.
Qed.
Lemma pods_kept_try {A} (m : io W A) : pods_kept m → pods_kept (try m).
Proof. intros Hm w. unfold try. specialize (Hm w). by destruct (m w) as [[]]. Qed.
Lemma pods_kept_event node s : pods_kept (RecordNodeStatusChange node s).
Proof. intros w. apply cw_event. Qed.

Hint Resolve pods_kept_ret pods_kept_fail pods_kept_lift pods_kept_bind pods_kept_try pods_kept_event : ipam.

Lemma pods_kept_instance id : pods_kept (InstanceByProviderID id).
Proof.
  unfold InstanceByProviderID. apply pods_kept_bind; [apply pods_kept_lift|]. intros [[p z] i] w. apply cw_instance.
Qed.

Lemma pods_kept_matchNetworks labels up inf nws : ∀ st, pods_kept (matchNetworks labels up inf nws st).
Proof.
  induction nws as [|nw nws IH]; intros st; simpl; [apply pods_kept_ret|]. case_decide; [apply IH|].
  destruct (ParametersRef nw) as [ref|]; [|apply pods_kept_lift]. apply pods_kept_bind; [intros w; apply cw_gnp|done].
Qed.

Lemma pods_kept_matchInterfaces labels up infs nws : ∀ st, pods_kept (matchInterfaces labels up infs nws st).
Proof.
  induction infs as [|inf infs IH]; intros st; simpl; [apply pods_kept_ret|].
  apply pods_kept_bind; [apply pods_kept_matchNetworks|done].
Qed.

Lemma pods_kept_perform node nics labels : pods_kept (performMultiNetworkCIDRAllocation node nics labels).
Proof.
  unfold performMultiNetworkCIDRAllocation. apply pods_kept_bind; [apply pods_kept_try; intros w; apply cw_networks|].
  intros [e|all]; [apply pods_kept_fail|]. apply pods_kept_bind; [apply pods_kept_lift|]. intros up.
  apply pods_kept_bind; [apply pods_kept_matchInterfaces|]. intros st. apply pods_kept_bind; [apply pods_kept_lift|]. intros n. apply pods_kept_ret.
Qed.

Lemma pods_kept_nodeCIDRs st node nics : pods_kept (nodeCIDRs st node nics).
Proof.
  unfold nodeCIDRs. destruct (singleNic nics); [apply pods_kept_bind; [apply pods_kept_lift|intros ?; apply pods_kept_ret]|].
  destruct (getNodeDefaultLabels node) as [[labels ds] dr].
  apply pods_kept_bind; [apply pods_kept_try, pods_kept_perform|].
  intros [e|[cs n]]; [apply pods_kept_bind; [apply pods_kept_event|intros ?; apply pods_kept_fail]|].
  apply pods_kept_bind; [apply pods_kept_lift|]. intros ?. apply pods_kept_ret.
Qed.

Lemma pods_kept_SetNodeCondition name c : pods_kept (SetNodeCondition name c).
Proof.
  unfold SetNodeCondition. apply pods_kept_bind; [intros w; apply cw_clock|]. intros now w. by apply cw_patch_other.
Qed.

Lemma pods_kept_PatchNodeMultiNetwork node : pods_kept (PatchNodeMultiNetwork node).
Proof.
  unfold PatchNodeMultiNetwork. apply pods_kept_bind.
  - case_bool_decide; [apply pods_kept_ret|]. apply pods_kept_bind; [apply pods_kept_try; intros w; by apply cw_patch_other|].
    intros []; auto with ipam.
  - intros _. apply pods_kept_bind; [apply pods_kept_try; intros w; by apply cw_patch_other|]. intros []; auto with ipam.
Qed.

(** ** The CIDR write *)
Definition writes (name : string) (w w' : W) : Prop :=
  pods w' = pods w ∨ ∃ l, cidrs_wf l ∧ pods w' = <[ name := l ]> (pods w).

Lemma PatchNodeCIDRs_writes name cidrs w : cidrs ≠ [] →
  let '(r, w') := PatchNodeCIDRs name cidrs w in
  match r with
  | Ret _ => pods w' = <[ name := cidrs ]> (pods w)
  | Err _ | Panic => pods w' = pods w ∨ pods w' = <[ name := cidrs ]> (pods w)
  end.
Proof.
  unfold PatchNodeCIDRs. destruct cidrs as [|c l]; [done|]. intros _. rewrite io_bind_eq. unfold try.
  pose proof (cw_patch name c (c :: l) w) as Hp. by destruct (Nodes_Patch _ _ w) as [[]].
Qed.

(** [updateNodeCIDR] writes the node's CIDRs when its spec changed. *)
Lemma updateNodeCIDR_pods node old w : PodCIDRs (Spec node) ≠ [] →
  let '(r, w') := updateNodeCIDR node old w in
  (r = Ret tt → if bool_decide (Spec node = Spec old) then pods w' = pods w
                else pods w' = <[ node_Name node := PodCIDRs (Spec node) ]> (pods w)) ∧
  (pods w' = pods w ∨ pods w' = <[ node_Name node := PodCIDRs (Spec node) ]> (pods w)).
Proof.
  intros Hne. unfold updateNodeCIDR. rewrite io_bind_eq.
  set (rest := (if bool_decide (Conditions (Status node) = Conditions (Status old)) then mret tt else _) : io W unit).
  assert (pods_kept rest) as Hrest.
  { subst rest. case_bool_decide; [apply pods_kept_ret|].
    destruct (GetNodeCondition _ _) as [? [c|]]; [apply pods_kept_SetNodeCondition|apply pods_kept_fail]. }
  case_bool_decide.
  - pose proof (Hrest w) as Hw. simpl. destruct (rest w). simpl in Hw. auto.
  - rewrite io_bind_eq. unfold try.
    pose proof (PatchNodeCIDRs_writes (node_Name node) (PodCIDRs (Spec node)) w Hne) as Hp.
    destruct (PatchNodeCIDRs _ _ w) as [[[]|e|] w1].
    + pose proof (Hrest w1) as Hw. simpl. destruct (rest w1). simpl in Hw. rewrite Hw. auto.
    + pose proof (pods_kept_event node "CIDRAssignmentFailed" w1) as He. rewrite io_bind_eq.
      destruct (RecordNodeStatusChange _ _ w1) as [[]]; simpl in *; rewrite He; (split; [done|exact Hp]).
    + done.
Qed.

(** What [updateNodePodCIDRWithCidrStrings] may store, and what a success means. *)
Lemma updateNodePodCIDR_pods old node cs w :
  let '(r, w') := updateNodePodCIDRWithCidrStrings old node cs w in
  (is_ret r = true → cs ≠ [] ∧
     (pods w' = pods w ∧ Spec old = set_PodCIDRs (take 2 cs) (Spec node) ∨
      pods w' = <[ node_Name node := take 2 cs ]> (pods w))) ∧
  writes (node_Name node) w w'.
Proof.
  unfold updateNodePodCIDRWithCidrStrings. case_bool_decide as Hcs.
  { rewrite io_bind_eq. pose proof (pods_kept_event node "CIDRNotAvailable" w) as He.
    destruct (RecordNodeStatusChange _ _ w) as [[]]; simpl in *; split; try done; by left. }
  rewrite io_bind_eq. unfold try, lift. destruct (ParseCIDRs (take 2 cs)) as [cidrs|e|] eqn:Ep.
  2: { simpl. split; [done|by left]. }
  2: { simpl. split; [done|by left]. }
  cbv beta iota. destruct (_ && _) eqn:Ed; [simpl; split; [done|by left]|].
  rewrite io_bind_eq. set (n := set_Spec (set_PodCIDRs (take 2 cs)) node).
  assert (take 2 cs ≠ []) as Hne by (by destruct cs).
  pose proof (updateNodeCIDR_pods n old w Hne) as Hu.
  assert (cidrs_wf (take 2 cs)) as Hwf.
  { exists cidrs. split; [done|]. assert (length cidrs = length (take 2 cs)) as Hl.
    { clear -Ep. revert cidrs Ep. generalize (take 2 cs) as l. induction l as [|s l IH]; intros cidrs; simpl; [by intros [= <-]|].
      destruct (ParseCIDRSloppy s); [|done..]. destruct (ParseCIDRs l) as [x| |]; [|done..]. intros [= <-]. simpl. by rewrite IH. }
    destruct cs as [|a [|b cs]]; [done|by left|right]. split; [done|]. simpl in Hl. rewrite Hl in Ed. simpl in Ed. propify.
    destruct (IsDualStackCIDRs _) as [[]| |]; done. }
  destruct (updateNodeCIDR n old w) as [[[]|e|] w1]; destruct Hu as [Hok Hw]; simpl in *.
  - specialize (Hok eq_refl). split.
    + intros _. split; [done|]. revert Hok. case_bool_decide as Es; intros Hok; [left; by rewrite <- Es|by right].
    + destruct Hw as [Hw|Hw]; [by left|right; by exists (take 2 cs)].
  - split; [done|]. destruct Hw as [Hw|Hw]; [by left|right; by exists (take 2 cs)].
  - split; [done|]. destruct Hw as [Hw|Hw]; [by left|right; by exists (take 2 cs)].
Qed.
(** ** One node *)

(** The rest of the allocator's state: processing a node never touches the
    queue or the drop counter. *)
Definition same_queue (ca ca' : cloudCIDRAllocator) : Prop :=
  ca_queue ca' = ca_queue ca ∧ stackType ca' = stackType ca ∧ ca_dropped ca' = ca_dropped ca.

Abbreviation M := (io (cloudCIDRAllocator * W)).

(** A step that leaves both the queue and the pod CIDRs alone. *)
Definition quiet {A} (m : M A) : Prop := ∀ ca w, same_queue ca (m (ca, w)).2.1 ∧ pods (m (ca, w)).2.2 = pods w.

Lemma quiet_on_snd {A} (m : io W A) : pods_kept m → quiet (on_snd m).
Proof. intros Hm ca w. unfold on_snd. simpl. specialize (Hm w). by destruct (m w). Qed.
Lemma multi_quiet_try {A} (m : M A) : quiet m → quiet (try m).
Proof. intros Hm ca w. unfold try. specialize (Hm ca w). by destruct (m (ca, w)) as [[]]. Qed.
Lemma multi_quiet_bind {A B} (m : M A) (f : A → M B) : quiet m → (∀ a, quiet (f a)) → quiet (m ≫= f).
Proof.
  intros Hm Hf ca w. rewrite io_bind_eq. specialize (Hm ca w). destruct (m (ca, w)) as [[a| |] [ca1 w1]]; simpl in *; [|done..].
  destruct Hm as [(A1 & A2 & A3) Hp], (Hf a ca1 w1) as [(B1 & B2 & B3) Hp']. unfold same_queue.
  rewrite Hp', Hp, B1, B2, B3. done.
Qed.

Lemma quiet_updateMultiNetwork old node : quiet (updateMultiNetwork old node).
Proof.
  unfold updateMultiNetwork. case_bool_decide; [done|]. apply multi_quiet_bind.
  - apply multi_quiet_try, quiet_on_snd, pods_kept_PatchNodeMultiNetwork.
  - intros [e|_]; [apply multi_quiet_bind; [apply quiet_on_snd, pods_kept_event|done]|].
    by destruct (Annotations node !! _).
Qed.

Lemma nodeCIDRs_node st node nics w cs n w' : nodeCIDRs st node nics w = (Ret (cs, n), w') →
  node_Name n = node_Name node ∧ Spec n = Spec node.
Proof.
  unfold nodeCIDRs. destruct (singleNic nics) as [nic|].
  { rewrite io_bind_eq. unfold lift. destruct (stackCIDRs st nic); by intros [=]; subst. }
  destruct (getNodeDefaultLabels node) as [[labels ds] dr]. rewrite io_bind_eq. unfold try.
  destruct (performMultiNetworkCIDRAllocation node nics labels w) as [[[cs0 n0]| |] w0] eqn:Ep; [| |done].
  - rewrite io_bind_eq. unfold lift. destruct (if labels then _ else _); [|done..]. intros [= _ <- _].
    apply perform_node in Ep. done.
  - rewrite io_bind_eq. by destruct (RecordNodeStatusChange _ _ w0) as [[]].
Qed.
(** From the chosen CIDRs on: store them, then the annotations. *)
Definition storeCIDRs (old : Node) (cn : list string * Node) : M unit :=
  node ← on_snd (updateNodePodCIDRWithCidrStrings old cn.2 cn.1); updateMultiNetwork old node.

Lemma storeCIDRs_effect old cs node ca w :
  let '(r, (ca', w')) := storeCIDRs old (cs, node) (ca, w) in
  same_queue ca ca' ∧ writes (node_Name node) w w' ∧
  (is_ret r = true → pods w' = pods w ∧ Spec old = set_PodCIDRs (take 2 cs) (Spec node) ∨
                     pods w' = <[ node_Name node := take 2 cs ]> (pods w)).
Proof.
  unfold storeCIDRs. rewrite io_bind_eq. unfold on_snd at 1. cbn [fst snd].
  pose proof (updateNodePodCIDR_pods old node cs w) as Hu.
  destruct (updateNodePodCIDRWithCidrStrings old node cs w) as [[n|e|] w1]; destruct Hu as [Hok Hw]; [|done..].
  pose proof (quiet_updateMultiNetwork old n ca w1) as [Hq Hp].
  destruct (updateMultiNetwork old n (ca, w1)) as [r [ca2 w2]]. simpl in *.
  split; [done|]. unfold writes. rewrite Hp. split; [done|]. intros _. by apply Hok.
Qed.

Lemma set_names now old : node_Name (setNetworkCondition now old) = node_Name old ∧ Spec (setNetworkCondition now old) = Spec old.
Proof. done. Qed.

Lemma updateCIDRAllocation_effect name ca w :
  let '(r, (ca', w')) := updateCIDRAllocation name (ca, w) in same_queue ca ca' ∧ writes name w w'.
Proof.
  unfold updateCIDRAllocation. rewrite io_bind_eq. unfold try at 1, on_snd at 1. cbn [fst snd].
  pose proof (cw_lister_get name w) as Hl. pose proof (cw_lister_name name w) as Hn.
  destruct (NodeLister_Get name w) as [[old|e|] w1]; simpl in Hl, Hn; cbv beta iota.
  2: { destruct (IsNotFound e); simpl; (split; [done|by left]). }
  2: { split; [done|by left]. }
  specialize (Hn old eq_refl). case_bool_decide; [split; [done|by left]|].
  rewrite io_bind_eq. unfold try at 1, on_snd at 1. cbn [fst snd].
  pose proof (pods_kept_instance (ProviderID (Spec old)) w1) as Hi.
  destruct (InstanceByProviderID _ w1) as [[inst|e|] w2]; simpl in Hi; cbv beta iota; [| |split; [done|by left; congruence]].
  2: { rewrite io_bind_eq. unfold on_snd at 1. cbn [fst snd]. pose proof (pods_kept_event old "CIDRNotAvailable" w2) as He.
       destruct (RecordNodeStatusChange _ _ w2) as [[]]; simpl in *; (split; [done|left; congruence]). }
  destruct (noRanges _).
  { rewrite io_bind_eq. unfold on_snd at 1. cbn [fst snd]. pose proof (pods_kept_event old "CIDRNotAvailable" w2) as He.
    destruct (RecordNodeStatusChange _ _ w2) as [[]]; simpl in *; (split; [done|left; congruence]). }
  rewrite io_bind_eq. unfold on_snd at 1. cbn [fst snd]. pose proof (cw_clock w2) as Hc.
  destruct (Clock_Now w2) as [[now|e|] w3]; simpl in Hc; [|split; [done|left; congruence]..].
  rewrite io_bind_eq. cbv beta iota. rewrite io_bind_eq. unfold on_snd at 1. cbn [fst snd].
  pose proof (pods_kept_nodeCIDRs (stackType ca) (setNetworkCondition now old) (NetworkInterfaces inst) w3) as Hk.
  destruct (nodeCIDRs _ _ _ w3) as [[[cs n]|e|] w4] eqn:En; simpl in Hk; cbv beta iota; [|split; [done|left; congruence]..].
  apply nodeCIDRs_node in En as [En _]. simpl in En.
  pose proof (storeCIDRs_effect old cs n ca w4) as Hs. unfold storeCIDRs in Hs. cbn [fst snd] in Hs.
  destruct ((on_snd (updateNodePodCIDRWithCidrStrings old n cs) ≫= _) (ca, w4)) as [r [ca' w']]. destruct Hs as (Hq & Hw & _). split; [done|].
  rewrite <- Hn, <- En. unfold writes in *. by rewrite Hk, Hc, Hi, Hl in Hw.
Qed.
Lemma singleNic_ranges nics nic : singleNic nics = Some nic → nics = [nic] ∧ noRanges nics = false.
Proof.
  destruct nics as [|x [|]]; try done. simpl. destruct (_ || _) eqn:E; [|done]. intros [= ->]. split; [done|].
  apply orb_true_iff in E as [E|E]; apply andb_false_iff; [left|right]; apply bool_decide_eq_false_2.
  - intros Hn. by rewrite Hn in E.
  - propify. intros Hn. rewrite Hn in E. by destruct E.
Qed.

Lemma stackCIDRs_short st nic cs : stackCIDRs st nic = Ret cs → take 2 cs = cs.
Proof.
  unfold stackCIDRs. cbv zeta. destruct st; [destruct (bool_decide _)|destruct (_ && _)|destruct (_ && _)|destruct (bool_decide _)];
    by intros [= <-].
Qed.

(** What a stack asks of an interface: a range of each family, the primary first. *)
Definition stackFamilies (st : clusterStackType) : list IPFamily :=
  match st with
  | stackIPv4 => [IPv4] | stackIPv4IPv6 => [IPv4; IPv6] | stackIPv6IPv4 => [IPv6; IPv4] | stackIPv6 => [IPv6]
  end.

Definition nonEmpty (s : string) : option string := if bool_decide (s = EmptyString) then None else Some s.

Definition familyRange (nic : NetworkInterface) (f : IPFamily) : option string :=
  match f with
  | IPv4 => head (AliasIpRanges nic) ≫= λ r, nonEmpty (IpCidrRange r)
  | IPv6 => GetIPV6Address nic ≫= λ a, nonEmpty (IPNet_String a)
  | IPFamilyUnknown => None
  end.

Lemma stackCIDRs_families st nic :
  match stackCIDRs st nic with
  | Ret cs => mapM (familyRange nic) (stackFamilies st) = Some cs
  | _ => mapM (familyRange nic) (stackFamilies st) = None
  end.
Proof.
  unfold stackCIDRs. cbv zeta.
  destruct st; simpl; unfold nonEmpty; destruct (AliasIpRanges nic); simpl; destruct (GetIPV6Address nic); simpl;
    repeat case_bool_decide; simpl in *; try done; congruence.
Qed.

(** ** Progress *)

(** The patches of the node and the clock do not fail. *)
Definition calls_ok (name : string) : Prop :=
  (∀ p w, (Nodes_Patch name p w).1 = Ret tt) ∧ ∀ w, is_ret (Clock_Now w).1 = true.

Lemma PatchNodeCIDRs_ok name cidrs w : calls_ok name → cidrs ≠ [] → (PatchNodeCIDRs name cidrs w).1 = Ret tt.
Proof.
  intros [Hp _] Hne. destruct cidrs as [|c l]; [done|]. unfold PatchNodeCIDRs. rewrite io_bind_eq. unfold try.
  specialize (Hp (PatchCIDRs c (c :: l)) w). destruct (Nodes_Patch _ _ w) as [[[]| |] w']; done.
Qed.

Lemma SetNodeCondition_ok name c w : calls_ok name → (SetNodeCondition name c w).1 = Ret tt.
Proof.
  intros [Hp Hc]. unfold SetNodeCondition. rewrite io_bind_eq. specialize (Hc w).
  destruct (Clock_Now w) as [[now| |] w']; [apply Hp|done..].
Qed.

(** [setNetworkCondition] leaves a condition to be found. *)
Lemma setNetworkConditions_found now cs : ∀ i, ∃ j c,
  GetNodeCondition_from i (setNetworkConditions now cs) NodeNetworkUnavailable = (j, Some c) ∧ cond_Status c = ConditionFalse.
Proof.
  induction cs as [|c cs IH]; intros i; simpl; [by eexists _, _|].
  destruct (bool_decide (cond_Type c = NodeNetworkUnavailable)) eqn:E; simpl; rewrite E; [by eexists _, _|apply IH].
Qed.

Lemma updateNodePodCIDR_ok now old cs w : calls_ok (node_Name old) → cidrs_wf cs →
  ∃ n, (updateNodePodCIDRWithCidrStrings old (setNetworkCondition now old) cs w).1 = Ret n ∧ Annotations n = Annotations old.
Proof.
  intros Hc (cidrs & Hp & Hl). unfold updateNodePodCIDRWithCidrStrings.
  assert (cs ≠ [] ∧ take 2 cs = cs) as [Hne ->] by (destruct cs as [|a [|b [|]]]; simpl in Hl; split; try done; lia).
  rewrite bool_decide_eq_false_2 by done. rewrite io_bind_eq. unfold try, lift. rewrite Hp. cbv beta iota.
  assert ((1 <? length cidrs)%nat && negb match IsDualStackCIDRs (Some <$> cidrs) with Ret b => b | _ => false end = false) as ->.
  { destruct Hl as [Hl|[_ ->]]; [|by rewrite andb_false_r]. destruct cs as [|a [|]]; try done.
    simpl in Hp. destruct (ParseCIDRSloppy a); [|done..]. injection Hp as <-. done. }
  set (n := set_Spec _ _). rewrite io_bind_eq. unfold updateNodeCIDR. rewrite io_bind_eq.
  assert (∀ w', ∃ w'', (if bool_decide (Conditions (Status n) = Conditions (Status old)) then mret tt
    else match GetNodeCondition (Some (Status n)) NodeNetworkUnavailable with
         | (_, None) => fail (Errorf "unable to find %s condition in node %s")
         | (_, Some cond) => SetNodeCondition (node_Name n) cond end) w' = (Ret tt, w'')) as Hrest.
  { intros w'. case_bool_decide; [by eexists|]. simpl.
    destruct (setNetworkConditions_found now (Conditions (Status old)) 0) as (j & c & -> & _).
    pose proof (SetNodeCondition_ok (node_Name old) c w' Hc) as Hset.
    destruct (SetNodeCondition _ c w') as [[[]| |] w'']; simpl in Hset; try done. by eexists. }
  destruct (bool_decide (Spec n = Spec old)).
  - unfold mret at 1, io_ret at 1. destruct (Hrest w) as [w'' ->]. by exists n.
  - rewrite io_bind_eq. unfold try. pose proof (PatchNodeCIDRs_ok (node_Name n) (PodCIDRs (Spec n)) w Hc Hne) as Hpn.
    destruct (PatchNodeCIDRs _ _ w) as [[[]| |] w1]; simpl in Hpn; try done.
    unfold mret at 1, io_ret at 1. destruct (Hrest w1) as [w'' ->]. by exists n.
Qed.
End props.

(** Whatever the cloud reports and whichever call fails, processing a node
    can only change the pod CIDRs of that node, and only to one valid CIDR or to
    two of different families; the queue is left alone. *)
Theorem cloud_writes_wellformed {W} `{CloudWorld W} name ca w :
  let '(_, (ca', w')) := updateCIDRAllocation name (ca, w) in
  ca_queue ca' = ca_queue ca ∧
  (∀ other, other ≠ name → pods w' !! other = pods w !! other) ∧
  (pods w' !! name = pods w !! name ∨ ∃ l, pods w' !! name = Some l ∧ cidrs_wf l).
Proof.
  pose proof (updateCIDRAllocation_effect name ca w) as He.
  destruct (updateCIDRAllocation name (ca, w)) as [r [ca' w']]. destruct He as [(Hq & _) [->|(l & Hl & ->)]]; [by auto|].
  split; [done|]. split.
  - intros other Hne. by apply lookup_insert_ne.
  - right. exists l. by rewrite lookup_insert_eq.
Qed.


(** ** Retries *)
Section retries.
Context {W : Type} `{HC : CloudWorld W}.

(** One attempt at [key]: a turn of a worker, then the delaying queue's timer. *)
Definition attempt (key : string) : io (cloudCIDRAllocator * W) unit :=
  _ ← processNextItem; onQueue (q_Fire key).

Fixpoint attempts (n : nat) (key : string) (s : cloudCIDRAllocator * W) : cloudCIDRAllocator * W :=
  match n with O => s | S n => attempts n key (attempt key s).2 end.

(** In the worlds of [Bad] processing [key] fails, and leads to such a world. *)
Definition always_fails (Bad : W → Prop) (key : string) : Prop := ∀ ca w, Bad w →
  let '(r, (_, w')) := updateCIDRAllocation key (ca, w) in is_err r = true ∧ Bad w'.

(** The queue while [key] is the only key and has failed [n] times. *)
Definition only_key (key : string) (n : nat) (q : workqueue) : Prop :=
  q_queue q = [key] ∧ q_dirty q = {[ key ]} ∧ q_processing q = ∅ ∧ q_waiting q = ∅ ∧
  q_NumRequeues key q = n ∧ q_shuttingDown q = false.

(** A failing turn of a worker is the queue protocol around [retryOrForget]. *)
Lemma failing_turn Bad key n ca w : always_fails Bad key → Bad w → only_key key n (ca_queue ca) →
  ∃ ca1 w1 q, Bad w1 ∧ q_Get (ca_queue ca) = Item key q ∧ processNextItem (ca, w) = (Ret (Some true), (ca1, w1)) ∧
    ca_queue ca1 = q_Done key (retryOrForget updateMaxRetries false key q).1 ∧
    ca_dropped ca1 = ca_dropped ca + (if (retryOrForget updateMaxRetries false key q).2 then 1 else 0).
Proof.
  intros Hf Hb (Hq & Hd & Hp & Hw & Hn & Hs). unfold processNextItem, q_Get. rewrite Hq.
  set (q := mkQueue [] _ _ _ _ _). unfold defer. rewrite io_bind_eq. unfold try.
  pose proof (updateCIDRAllocation_effect key (with_queue q ca) w) as He.
  specialize (Hf (with_queue q ca) w Hb).
  destruct (updateCIDRAllocation key (with_queue q ca, w)) as [[?|e|] [ca0 w0]]; destruct Hf as [Hf Hb']; simpl in Hf; try done.
  destruct He as [(Hq0 & _ & Hd0) _]. simpl in Hq0, Hd0.
  cbv beta iota. rewrite io_bind_eq. unfold handleErr, put. rewrite Hq0, bool_decide_eq_false_2 by done.
  destruct (retryOrForget updateMaxRetries false key q) as [q' dr] eqn:Er.
  eexists _, _, q. split; [exact Hb'|]. split; [done|]. split; [reflexivity|]. rewrite Er. cbn [fst snd ca_queue ca_dropped with_queue]. by rewrite Hd0.
Qed.

Lemma only_key_shape key n q : only_key key n q →
  q = mkQueue [key] {[ key ]} ∅ ∅ (q_failures q) false ∧ default 0%nat (q_failures q !! key) = n.
Proof. destruct q. unfold only_key, q_NumRequeues. simpl. intros (-> & -> & -> & -> & Hn & ->). done. Qed.

Lemma attempt_retry Bad key n ca w : always_fails Bad key → Bad w → only_key key n (ca_queue ca) → (n < updateMaxRetries)%nat →
  let '(ca', w') := (attempt key (ca, w)).2 in Bad w' ∧ only_key key (S n) (ca_queue ca') ∧ ca_dropped ca' = ca_dropped ca.
Proof.
  intros Hf Hb Ho Hlt. destruct (failing_turn Bad key n ca w Hf Hb Ho) as (ca1 & w1 & q & Hb1 & Hg & Ht & Hq1 & Hd1).
  apply only_key_shape in Ho as [Hq Hn]. rewrite Hq in Hg. injection Hg as <-.
  unfold attempt. rewrite io_bind_eq, Ht. unfold onQueue, put. cbn [fst snd ca_queue ca_dropped with_queue].
  rewrite Hq1, Hd1. unfold retryOrForget, q_NumRequeues. cbn [q_failures]. rewrite Hn, (proj2 (Nat.ltb_lt _ _) Hlt).
  cbn [fst snd]. split; [done|]. split; [|lia]. unfold q_AddRateLimited, q_NumRequeues. cbn [q_shuttingDown q_queue q_dirty q_processing q_waiting q_failures].
  unfold q_Done. cbn [q_shuttingDown q_queue q_dirty q_processing q_waiting q_failures]. rewrite (decide_False (P := key ∈ _)) by set_solver.
  unfold q_Fire. cbn [q_shuttingDown q_queue q_dirty q_processing q_waiting q_failures]. rewrite (decide_True (P := key ∈ _)) by set_solver.
  unfold q_Add. cbn [q_shuttingDown q_queue q_dirty q_processing q_waiting q_failures]. rewrite !(decide_False (P := key ∈ _)) by set_solver.
  unfold only_key, q_NumRequeues. cbn [q_shuttingDown q_queue q_dirty q_processing q_waiting q_failures].
  rewrite lookup_insert_eq, Hn. split_and!; try done; set_solver.
Qed.

Lemma attempt_drop Bad key ca w : always_fails Bad key → Bad w → only_key key updateMaxRetries (ca_queue ca) →
  let '(ca', _) := (attempt key (ca, w)).2 in
  q_queue (ca_queue ca') = [] ∧ q_waiting (ca_queue ca') = ∅ ∧ q_dirty (ca_queue ca') = ∅ ∧
  q_NumRequeues key (ca_queue ca') = 0%nat ∧ ca_dropped ca' = ca_dropped ca + 1.
Proof.
  intros Hf Hb Ho. destruct (failing_turn Bad key _ ca w Hf Hb Ho) as (ca1 & w1 & q & _ & Hg & Ht & Hq1 & Hd1).
  apply only_key_shape in Ho as [Hq Hn]. rewrite Hq in Hg. injection Hg as <-.
  unfold attempt. rewrite io_bind_eq, Ht. unfold onQueue, put. cbn [fst snd ca_queue ca_dropped with_queue].
  rewrite Hq1, Hd1. unfold retryOrForget, q_NumRequeues. cbn [q_failures]. rewrite Hn, (proj2 (Nat.ltb_ge _ _)) by done.
  cbn [fst snd]. unfold q_Forget, q_Done. cbn [q_shuttingDown q_queue q_dirty q_processing q_waiting q_failures].
  rewrite (decide_False (P := key ∈ _)) by set_solver.
  unfold q_Fire. cbn [q_shuttingDown q_queue q_dirty q_processing q_waiting q_failures]. rewrite (decide_False (P := key ∈ _)) by set_solver.
  cbn [q_shuttingDown q_queue q_dirty q_processing q_waiting q_failures]. rewrite lookup_delete_eq.
  split_and!; try done; set_solver.
Qed.

Lemma attempts_retry Bad key k : ∀ n ca w, always_fails Bad key → Bad w → only_key key n (ca_queue ca) →
  (n + k <= updateMaxRetries)%nat →
  let '(ca', w') := attempts k key (ca, w) in Bad w' ∧ only_key key (n + k) (ca_queue ca') ∧ ca_dropped ca' = ca_dropped ca.
Proof.
  induction k as [|k IH]; intros n ca w Hf Hb Ho Hle; simpl; [by rewrite Nat.add_0_r|].
  pose proof (attempt_retry Bad key n ca w Hf Hb Ho ltac:(lia)) as Ha. destruct (attempt key (ca, w)).2 as [ca1 w1].
  destruct Ha as (Hb1 & Ha & Hd). specialize (IH (S n) ca1 w1 Hf Hb1 Ha ltac:(lia)). replace (n + S k)%nat with (S n + k)%nat by lia.
  destruct (attempts k key (ca1, w1)) as [ca2 w2]. by rewrite <- Hd.
Qed.

Lemma attempts_snoc k key s : attempts (S k) key s = (attempt key (attempts k key s)).2.
Proof. revert s. induction k as [|k IH]; intros s; [done|]. simpl in *. by rewrite IH. Qed.
End retries.

(** A node whose processing pods_kept failing is tried once and retried ten
    times: while it fails it is back in the queue with the count of its
    failures, and the eleventh failure drops it, clears the count and adds one
    to the dropped-objects metric. *)
Theorem cloud_retries_bounded {W} `{CloudWorld W} (Bad : W → Prop) key ca w :
  always_fails Bad key → Bad w → only_key key 0 (ca_queue ca) →
  (∀ n, (n <= 10)%nat →
     let '(ca', _) := attempts n key (ca, w) in only_key key n (ca_queue ca') ∧ ca_dropped ca' = ca_dropped ca) ∧
  (let '(ca', _) := attempts 11 key (ca, w) in
   q_queue (ca_queue ca') = [] ∧ q_waiting (ca_queue ca') = ∅ ∧ q_dirty (ca_queue ca') = ∅ ∧
   q_NumRequeues key (ca_queue ca') = 0%nat ∧ ca_dropped ca' = ca_dropped ca + 1).
Proof.
  intros Hf Hb Ho. split.
  - intros n Hn. pose proof (attempts_retry Bad key n 0 ca w Hf Hb Ho Hn) as Ha.
    destruct (attempts n key (ca, w)). by destruct Ha.
  - rewrite attempts_snoc. pose proof (attempts_retry Bad key 10 0 ca w Hf Hb Ho ltac:(done)) as Ha.
    destruct (attempts 10 key (ca, w)) as [ca1 w1]. destruct Ha as (Hb1 & Ha & <-). by apply (attempt_drop Bad).
Qed.

(** ** Network events *)

Lemma q_Add_dirty k q : q_shuttingDown q = false →
  q_dirty (q_Add k q) = {[ k ]} ∪ q_dirty q ∧ q_processing (q_Add k q) = q_processing q ∧
  q_failures (q_Add k q) = q_failures q ∧ q_waiting (q_Add k q) = q_waiting q ∧ q_shuttingDown (q_Add k q) = false.
Proof. intros Hs. unfold q_Add. rewrite Hs. case_decide; simpl; split_and!; try done; set_solver. Qed.

Lemma queueNodes_dirty {W} `{KubeClient W} nw nodes : ∀ ca (w : W), q_shuttingDown (ca_queue ca) = false → queue_ok (ca_queue ca) →
  let '(r, (ca', w')) := queueNodes nw nodes (ca, w) in
  r = Ret tt ∧ w' = w ∧ queue_ok (ca_queue ca') ∧
  q_processing (ca_queue ca') = q_processing (ca_queue ca) ∧ q_failures (ca_queue ca') = q_failures (ca_queue ca) ∧
  q_dirty (ca_queue ca') = list_to_set (node_Name <$> filter (λ n, nodeInNetwork nw n = true) nodes) ∪ q_dirty (ca_queue ca).
Proof.
  induction nodes as [|n nodes IH]; intros ca w Hs Hok; cbn [queueNodes].
  { simpl. split_and!; try done. set_solver. }
  rewrite io_bind_eq. destruct (nodeInNetwork nw n) eqn:En.
  - rewrite filter_cons_True by done. unfold AllocateOrOccupyCIDR, onQueue, put.
    destruct (q_Add_dirty (node_Name n) (ca_queue ca) Hs) as (Hd & Hp & Hf & _ & Hs').
    specialize (IH (with_queue (q_Add (node_Name n) (ca_queue ca)) ca) w Hs' (q_Add_ok _ _ Hok)).
    destruct (queueNodes nw nodes _) as [r [ca' w']]. destruct IH as (? & ? & ? & Hp2 & Hf2 & Hd2). simpl in Hp2, Hf2, Hd2.
    split_and!; try done; [congruence..|]. rewrite Hd2, Hd. cbn [fmap list_fmap list_to_set]. set_solver.
  - rewrite filter_cons_False by congruence. exact (IH ca w Hs Hok).
Qed.

(** A change of a network marks for processing exactly the nodes whose
    annotation names it (or cannot be read), a network that became Ready marks
    every node; nothing else about the queue changes. *)
Theorem NetworkToNodes_marks {W} `{KubeClient W} nw ca w nodes w1 :
  NodeLister_List w = (Ret nodes, w1) → q_shuttingDown (ca_queue ca) = false → queue_ok (ca_queue ca) →
  let '(r, (ca', w')) := NetworkToNodes nw (ca, w) in
  r = Ret tt ∧ w' = w1 ∧ queue_ok (ca_queue ca') ∧
  q_processing (ca_queue ca') = q_processing (ca_queue ca) ∧ q_failures (ca_queue ca') = q_failures (ca_queue ca) ∧
  ∀ k, k ∈ q_dirty (ca_queue ca') ↔
    k ∈ q_dirty (ca_queue ca) ∨ ∃ n, n ∈ nodes ∧ node_Name n = k ∧ nodeInNetwork nw n = true.
Proof.
  intros Hl Hs Hok. unfold NetworkToNodes. rewrite io_bind_eq. unfold try, on_snd. simpl. rewrite Hl.
  pose proof (queueNodes_dirty nw nodes ca w1 Hs Hok) as Hq. cbv beta iota.
  destruct (queueNodes nw nodes (ca, w1)) as [r [ca' w']]. destruct Hq as (-> & -> & Hok' & Hp & Hf & Hd).
  split_and!; try done. intros k. rewrite Hd, elem_of_union, elem_of_list_to_set, list_elem_of_fmap.
  setoid_rewrite list_elem_of_filter. naive_solver.
Qed.

(** ** Several workers

    The workers of the allocator share the queue; [held] lists the keys between
    a worker's [Get] and its deferred [Done]. *)
Inductive wstep : workqueue * list string → workqueue * list string → Prop :=
| w_add k q held : wstep (q, held) (q_Add k q, held)
| w_fire k q held : wstep (q, held) (q_Fire k q, held)
| w_get k q q' held : q_Get q = Item k q' → wstep (q, held) (q', k :: held)
| w_done k ok q h1 h2 : wstep (q, h1 ++ k :: h2) (q_Done k (retryOrForget updateMaxRetries ok k q).1, h1 ++ h2)
| w_stop q held : wstep (q, held) (q_ShutDown q, held).

Lemma wstep_inv s s' : wstep s s' → queue_ok s.1 → NoDup s.2 → list_to_set s.2 = q_processing s.1 →
  queue_ok s'.1 ∧ NoDup s'.2 ∧ list_to_set s'.2 = q_processing s'.1.
Proof.
  intros [k q held|k q held|k q q' held Hg|k ok q h1 h2|q held] Hok Hnd Hp; simpl in *.
  - split_and!; [by apply q_Add_ok|done|]. rewrite Hp. unfold q_Add. destruct (q_shuttingDown q); [done|]. by case_decide.
  - split_and!; [by apply q_Fire_ok|done|]. rewrite Hp. unfold q_Fire, q_Add. repeat case_decide; simpl; try done; destruct (q_shuttingDown q); done.
  - destruct (q_Get_ok _ _ _ Hok Hg) as (Hok' & Hk & Hp'). split_and!; [done| |].
    + apply NoDup_cons. split; [|done]. intros Hin. apply Hk. rewrite <- Hp. by apply elem_of_list_to_set.
    + by rewrite Hp', Hp.
  - assert (k ∈ q_processing q) as Hk by (rewrite <- Hp; set_solver).
    pose proof (retryOrForget_ok updateMaxRetries ok k q Hok) as Hr.
    assert (q_processing (retryOrForget updateMaxRetries ok k q).1 = q_processing q) as Hpr.
    { unfold retryOrForget. destruct ok; [done|]. by destruct (_ <? _)%nat. }
    apply NoDup_app in Hnd as (Hn1 & Hd12 & Hn2). apply NoDup_cons in Hn2 as [Hk2 Hn2].
    split_and!.
    + apply q_Done_ok; [done|by rewrite Hpr].
    + apply NoDup_app. split_and!; [done| |done]. intros x Hx Hx2. apply (Hd12 x); set_solver.
    + simpl. rewrite Hpr, <- Hp. assert (k ∉ h1) by (intros Hx; apply (Hd12 k); set_solver). set_solver.
  - destruct Hok. by split_and!; [split|..].
Qed.

Lemma wsteps_inv s s' : rtc wstep s s' → queue_ok s.1 → NoDup s.2 → list_to_set s.2 = q_processing s.1 →
  queue_ok s'.1 ∧ NoDup s'.2 ∧ list_to_set s'.2 = q_processing s'.1.
Proof.
  induction 1 as [s|s1 s2 s3 Hs Hr IH]; [done|]. intros H1 H2 H3. destruct (wstep_inv _ _ Hs H1 H2 H3) as (? & ? & ?). by apply IH.
Qed.


(** ** A concrete world: a world to evaluate the cloud allocator on

    Every request succeeds: patches of pod CIDRs are stored, listers and the
    compute API answer from tables.  [FakeCloud_world] shows that the contract
    [CloudWorld] can be met; the witnesses below run the allocator on it. *)

Record FakeCloud : Type := mkFakeCloud {
  fk_pods : gmap string (list string);
  fk_lister : gmap string Node;
  fk_instances : gmap string Instance_;
  fk_networks : list Network;
  fk_gnps : gmap string GKENetworkParamSet
}.

Definition fk_find {A} (m : gmap string A) (k : string) : outcome A :=
  match m !! k with Some a => Ret a | None => Err (ErrStatus ReasonNotFound) end.

Definition set_pods (name : string) (l : list string) (w : FakeCloud) : FakeCloud :=
  mkFakeCloud (<[ name := l ]> (fk_pods w)) (fk_lister w) (fk_instances w) (fk_networks w) (fk_gnps w).

#[global] Instance FakeCloud_kube : KubeClient FakeCloud := {
  Nodes_Get name := λ w, (fk_find (fk_lister w) name, w);
  Nodes_List := λ w, (Ret (map_to_list (fk_lister w)).*2, w);
  Nodes_Patch name p := λ w,
    match p with
    | PatchCIDRs _ l => (Ret tt, set_pods name l w)
    | PatchPodCIDR c => (Ret tt, set_pods name [c] w)
    | _ => (Ret tt, w)
    end;
  NodeLister_Get name := λ w,
    (match fk_lister w !! name with
     | Some n => if decide (node_Name n = name) then Ret n else Err (ErrStatus ReasonUnknown)
     | None => Err (ErrStatus ReasonNotFound)
     end, w);
  NodeLister_List := λ w, (Ret (map_to_list (fk_lister w)).*2, w);
  Recorder_Eventf _ _ := λ w, (Ret tt, w);
  Clock_Now := λ w, (Ret 7, w)
}.

#[global] Instance FakeCloud_compute : ComputeClient FakeCloud := {
  Instances_Get _ name := λ w, (fk_find (fk_instances w) name, w);
  BetaInstances_Get _ name := λ w, (fk_find (fk_instances w) name, w);
  BetaInstances_UpdateNetworkInterface _ _ _ _ := λ w, (Ret tt, w)
}.

Definition set_networks (f : Network → Network) (w : FakeCloud) : FakeCloud :=
  mkFakeCloud (fk_pods w) (fk_lister w) (fk_instances w) (f <$> fk_networks w) (fk_gnps w).

#[global] Instance FakeCloud_net : NetClient FakeCloud := {
  NetworkLister_List := λ w, (Ret (fk_networks w), w);
  GNPLister_Get name := λ w, (fk_find (fk_gnps w) name, w);
  Networks_Get name := λ w, (match list_find (λ n, nw_Name n = name) (fk_networks w) with
    | Some (_, n) => Ret n | None => Err (ErrStatus ReasonNotFound) end, w);
  Networks_UpdateStatus nw := λ w,
    (Ret tt, set_networks (λ n, if decide (nw_Name n = nw_Name nw) then set_nw_Conditions (nw_Conditions nw) n else n) w);
  GNPs_List := λ w, (Ret (map_to_list (fk_gnps w)).*2, w);
  GNPs_Update g := λ w, (Ret tt, mkFakeCloud (fk_pods w) (fk_lister w) (fk_instances w) (fk_networks w)
    (<[ gnp_Name g := g ]> (fk_gnps w)));
  GNPs_UpdateStatus g := λ w, (Ret tt, mkFakeCloud (fk_pods w) (fk_lister w) (fk_instances w) (fk_networks w)
    (<[ gnp_Name g := g ]> (fk_gnps w)))
}.

#[global, program] Instance FakeCloud_world : CloudWorld FakeCloud := { pods := fk_pods }.
Next Obligation. done. Qed.
Next Obligation. intros name w n. simpl. destruct (fk_lister w !! name); [|done]. case_decide; [|done]. by intros [= <-]. Qed.
Next Obligation. done. Qed.
Next Obligation. done. Qed.
Next Obligation. done. Qed.
Next Obligation. done. Qed.
Next Obligation. done. Qed.
Next Obligation. by intros name [] w. Qed.
Next Obligation. done. Qed.

(** ** A small cloud *)
Definition demo_nic (alias6 : string) : NetworkInterface :=
  mkNic "nic0" "projects/p/global/networks/vpc0" "projects/p/regions/r/subnetworks/sub0" "10.0.0.2"
    alias6 EmptyString [] [mkAlias "10.8.3.0/24" "pods"] "fp".

Definition demo_node (name : string) (ann : gmap string string) : Node :=
  mkNode name name ann ∅ (mkSpec EmptyString [] ("gce://p/z/" +:+ name)%string []) (mkStatus ∅ []).

Definition demo_nic1 : NetworkInterface :=
  mkNic "nic1" "projects/p/global/networks/vpc1" "projects/p/regions/r/subnetworks/sub1" "10.1.0.5"
    EmptyString EmptyString [] [mkAlias "10.9.3.0/26" "blue-range"] "fp".

Definition ready : Condition := mkCondition "Ready" "True" "NetworkReady" EmptyString 1 0.
Definition gnp_ref (name : string) : NetworkParametersReference := mkParametersRef "networking.gke.io" "GKENetworkParamSet" name.
Definition net_default : Network := mkNetwork "default" ∅ "L3" (Some (gnp_ref "default")) [ready].
Definition net_blue : Network := mkNetwork "blue" ∅ "L3" (Some (gnp_ref "blue")) [ready].
Definition net_bare : Network := mkNetwork "bare" ∅ "L3" None [ready].
Definition demo_gnp (name vpc subnet range : string) : GKENetworkParamSet :=
  mkGNP name (Some ∅) (Some ∅) [] None 1 (mkGNPSpec vpc subnet EmptyString (Some [range])) (mkGNPStatus None [] EmptyString).

(** The node reports the network as up. *)
Definition up_blue : gmap string string := {[ NodeNetworkAnnotationKey := dq "[{'name':'blue'}]" ]}.

Definition demo_cloud : FakeCloud := mkFakeCloud ∅
  (list_to_map [("n1"%string, demo_node "n1" ∅); ("n2"%string, demo_node "n2" up_blue);
                ("n3"%string, mkNode "n3" "n3" ∅ ∅ (mkSpec EmptyString [] EmptyString []) (mkStatus ∅ []))])
  (list_to_map [("n1"%string, mkInstance "n1" "z" [demo_nic "2001:db8:1::5:0"]);
                ("n2"%string, mkInstance "n2" "z" [demo_nic EmptyString; demo_nic1])])
  [net_default; net_blue]
  (list_to_map [("default"%string, demo_gnp "default" "vpc0" "sub0" "pods");
                ("blue"%string, demo_gnp "blue" "vpc1" "sub1" "blue-range")]).

Definition demo_ca (st : clusterStackType) : cloudCIDRAllocator := mkCA newQueue st ∅ 0.

(** ** Witnesses *)

Definition blue_nodeNetwork : NodeNetwork := mkNodeNetwork "blue" ["10.9.3.0/26"%string] "host-local".


(** Any parameter set may come from the lister. *)
Definition anyGNP (_ : string) (_ : GKENetworkParamSet) : Prop := True.

Lemma performMultiNetworkCIDRAllocation_annotates_witness :
  ∃ cidrs node' w', performMultiNetworkCIDRAllocation (demo_node "n2" up_blue) [demo_nic EmptyString; demo_nic1] false demo_cloud
    = (Ret (cidrs, node'), w') ∧
  ∃ (north : list NorthInterface) adds s t, NoDup (ni_Network <$> north) ∧
    MarshalNorthInterfacesAnnotation north = Ret s ∧ MarshalMultiNetworkAnnotation adds = Ret t ∧
    Annotations node' = <[ MultiNetworkAnnotationKey := t ]> (<[ NorthInterfacesAnnotationKey := s ]> up_blue).
Proof.
  assert (is_ret (performMultiNetworkCIDRAllocation (demo_node "n2" up_blue) [demo_nic EmptyString; demo_nic1] false demo_cloud).1
    = true) as Hr by (vm_compute; reflexivity).
  destruct (performMultiNetworkCIDRAllocation (demo_node "n2" up_blue) [demo_nic EmptyString; demo_nic1] false demo_cloud)
    as [[[cidrs node']| |] w'] eqn:E; [|discriminate..].
  exists cidrs, node', w'. split; [reflexivity|].
  destruct (performMultiNetworkCIDRAllocation_annotates anyGNP _ _ _ _ _ _ _ (λ _ _ _ _ _, I) E)
    as (all & up & north & adds & s & t & _ & _ & Hn & _ & _ & _ & Hs & Ht & Ha & _).
  exists north, adds, s, t. exact (conj Hn (conj Hs (conj Ht Ha))).
Defined.

Lemma matched_networks_are_found_witness :
  ∃ cidrs node' w', performMultiNetworkCIDRAllocation (demo_node "n2" up_blue) [demo_nic EmptyString; demo_nic1] false demo_cloud
    = (Ret (cidrs, node'), w') ∧
  ∃ north : list NorthInterface, ∀ nw, nodeInNetwork (Some nw) node' = true ↔ nw_Name nw ∈ (ni_Network <$> north).
Proof.
  assert (is_ret (performMultiNetworkCIDRAllocation (demo_node "n2" up_blue) [demo_nic EmptyString; demo_nic1] false demo_cloud).1
    = true) as Hr by (vm_compute; reflexivity).
  destruct (performMultiNetworkCIDRAllocation (demo_node "n2" up_blue) [demo_nic EmptyString; demo_nic1] false demo_cloud)
    as [[[cidrs node']| |] w'] eqn:E; [|discriminate..].
  exists cidrs, node', w'. split; [reflexivity|].
  destruct (matched_networks_are_found anyGNP _ _ _ _ _ _ _ [net_default; net_blue] (λ _ _ _ _ _, I) E eq_refl) as (north & _ & Hn).
  - repeat constructor.
  - repeat constructor.
  - exists north. exact Hn.
Defined.

(** The same cloud with a network that has no parameter reference. *)
Definition bare_cloud : FakeCloud := mkFakeCloud ∅ ∅ ∅ [net_default; net_bare] (fk_gnps demo_cloud).

Lemma nil_ParametersRef_blocks_witness :
  is_ret (performMultiNetworkCIDRAllocation (demo_node "n2" ∅) [demo_nic EmptyString; demo_nic1] false bare_cloud).1 = false.
Proof.
  destruct (performMultiNetworkCIDRAllocation (demo_node "n2" ∅) [demo_nic EmptyString; demo_nic1] false bare_cloud)
    as [[r| |] w'] eqn:E; [exfalso; revert E|reflexivity..].
  apply (nil_ParametersRef_blocks _ _ _ _ bare_cloud [net_default; net_bare] net_bare).
  - reflexivity.
  - set_solver.
  - reflexivity.
  - reflexivity.
  - intros nw Hnw Hname. apply elem_of_cons in Hnw as [->|Hnw]; [vm_compute in Hname; discriminate|].
    apply list_elem_of_singleton in Hnw. exact Hnw.
Defined.

Lemma demo_calls_ok name : calls_ok (W := FakeCloud) name.
Proof. split; [intros [] w; reflexivity|reflexivity]. Qed.


Lemma NetworkToNodes_marks_witness :
  let '(r, (ca', _)) := NetworkToNodes None (demo_ca stackIPv4, demo_cloud) in
  r = Ret tt ∧ ∀ k, k ∈ q_dirty (ca_queue ca') ↔
    k ∈ (∅ : gset string) ∨ ∃ n, n ∈ (map_to_list (fk_lister demo_cloud)).*2 ∧ node_Name n = k ∧ nodeInNetwork None n = true.
Proof.
  assert (NodeLister_List demo_cloud = (Ret (map_to_list (fk_lister demo_cloud)).*2, demo_cloud)) as E by reflexivity.
  pose proof (NetworkToNodes_marks None (demo_ca stackIPv4) demo_cloud _ _ E eq_refl newQueue_ok) as Hm.
  destruct (NetworkToNodes None (demo_ca stackIPv4, demo_cloud)) as [r [ca' w']].
  destruct Hm as (Hr & _ & _ & _ & _ & Hd). exact (conj Hr Hd).
Defined.


(** [n3] has no provider ID, so processing it fails. *)
Definition demo_ca3 : cloudCIDRAllocator := mkCA (q_Add "n3" newQueue) stackIPv4 ∅ 0.

Lemma n3_fails : always_fails (λ w, w = demo_cloud) "n3".
Proof. intros ca0 w ->. vm_compute. split; reflexivity. Qed.

Lemma demo_ca3_only : only_key "n3" 0 (ca_queue demo_ca3).
Proof. vm_compute. repeat split; reflexivity. Qed.

Lemma cloud_retries_bounded_witness :
  let '(ca', _) := attempts 11 "n3" (demo_ca3, demo_cloud) in
  q_queue (ca_queue ca') = [] ∧ q_waiting (ca_queue ca') = ∅ ∧ q_dirty (ca_queue ca') = ∅ ∧
  q_NumRequeues "n3" (ca_queue ca') = 0%nat ∧ ca_dropped ca' = ca_dropped demo_ca3 + 1.
Proof.
  destruct (cloud_retries_bounded (λ w, w = demo_cloud) "n3" demo_ca3 demo_cloud n3_fails eq_refl demo_ca3_only) as [_ H].
  destruct (attempts 11 "n3" (demo_ca3, demo_cloud)) as [ca' w']. exact H.
Defined.
