(* ===== verification/GnpValidations.v ===== *)
(** * GnpValidations: validating GKENetworkParamSets

    [pkg/controller/gkenetworkparamset/gnpcontroller_validations.go], with
    [cloud.ParseResourceURL] of the vendored k8s-cloud-provider it calls.  The
    fields of the GCE cloud object the controller reads are [gceCloud]; the
    subnetwork and network calls are the interface [SubnetClient]. *)

From S2P Require Import Prelude Bits GoNet GoNetText Json K8s NetworkAPI MultiNetwork.
Local Open Scope Z_scope.

(** ** The cloud *)
Record SecondaryRange : Type := mkSecondary { sr_RangeName : string; sr_IpCidrRange : string }.
Record Subnetwork : Type := mkSubnetwork {
  sn_Name : string; sn_IpCidrRange : string; SecondaryIpRanges : list SecondaryRange
}.

Record gceCloud : Type := mkGCE { Region : string; NetworkURL : string; SubnetworkURL : string; OnXPN : bool }.

(** [GetSubnetwork(region, name)] and [GetNetwork(name)]; the callers also test
    for a nil result. *)
Class SubnetClient (W : Type) : Type := {
  GetSubnetwork : string → string → io W (option Subnetwork);
  GetNetwork : string → io W (option unit)
}.

(** [v, err := f(); if err != nil || v == nil]. *)
Definition orNil {W A} (m : io W (option A)) : io W (option A) :=
  r ← try m; mret match r with inl _ => None | inr v => v end.

(** ** [cloud.ParseResourceURL] *)

(** Longest prefix of lower-case letters. *)
Fixpoint span_lower (s : string) : string * string :=
  match s with
  | EmptyString => (EmptyString, EmptyString)
  | String c s' => if between 97 122 c then let '(a, b) := span_lower s' in (String c a, b) else (EmptyString, s)
  end.

Definition drop_str (n : nat) (s : string) : string := String.substring n (String.length s - n) s.

Definition versioned (s : string) : bool :=
  existsb (λ v, String.prefix ("/" +:+ v +:+ "/projects")%string s) ["alpha"; "beta"; "v1"; "v1alpha1"; "v1beta1"]%string.

(** The first group of the leftmost match of [apiGroupRegex]: a run of
    lower-case letters, an optional [.googleapis.com], then a slash, a version
    and [/projects]. *)
Fixpoint apiGroupMatch (s : string) : option string :=
  let '(run, rest) := span_lower s in
  if (String.prefix ".googleapis.com" rest && versioned (drop_str 15 rest)) || versioned rest then Some run
  else match s with EmptyString => None | String _ s' => apiGroupMatch s' end.

(** [strings.Index(url, sub)] and what follows it. *)
Fixpoint after (sub s : string) : option string :=
  if String.prefix sub s then Some (drop_str (String.length sub) s)
  else match s with EmptyString => None | String _ s' => after sub s' end.

(** The name of the resource's key, [None] when the key is nil. *)
Definition parseURL (url : string) : outcome (option string) :=
  let url := match after "/projects/" url with Some r => ("projects/" +:+ r)%string | None => url end in
  let parts := split_on slash url in
  let bad := Err (Errorf "%q is not a valid resource URL") in
  if (length parts <? 2)%nat || (6 <? length parts)%nat then bad
  else
    let project := bool_decide (hd EmptyString parts = "projects"%string) in
    let scopedName := if project then drop 2 parts else parts in
    match scopedName with
    | [] => Ret None
    | scope :: rest =>
        if bool_decide (scope = "global"%string) then
          match rest with [_; name] => Ret (Some name) | _ => bad end
        else if bool_decide (scope = "regions"%string) || bool_decide (scope = "zones"%string) then
          match rest with [name] | [_; _; name] => Ret (Some name) | _ => bad end
        else bad
    end.

Definition ParseResourceURL (url : string) : outcome (option string) :=
  match apiGroupMatch url with
  | Some g =>
      if bool_decide (g = "compute"%string) || bool_decide (g = "networkservices"%string) then parseURL url
      else Err (Errorf "ParseResourceURL(%q) returned error: %v")
  | None => parseURL url
  end.

Example parse_network_url :
  ParseResourceURL "https://www.googleapis.com/compute/v1/projects/p/global/networks/default" = Ret (Some "default"%string)
  ∧ ParseResourceURL "https://compute.googleapis.com/v1/projects/p/regions/r/subnetworks/s" = Ret (Some "s"%string)
  ∧ ParseResourceURL "projects/p" = Ret None ∧ is_err (ParseResourceURL "default") = true
  ∧ is_err (ParseResourceURL "https://www.googleapis.com/storage/v1/projects/p/global/networks/x") = true.
Proof. by vm_compute. Qed.

(** ** Results *)
Definition GNPReady : string := "GNPReady".
Definition GKENetworkParamSetStatusReady : string := "Ready".
Definition VPCNotFound : string := "VPCNotFound".
Definition SubnetNotFound : string := "SubnetNotFound".
Definition SecondaryRangeAndDeviceModeUnspecified : string := "SecondaryRangeAndDeviceModeUnspecified".
Definition SecondaryRangeNotFound : string := "SecondaryRangeNotFound".
Definition DeviceModeCantBeUsedWithSecondaryRange : string := "DeviceModeCantBeUsedWithSecondaryRange".
Definition DeviceModeVPCAlreadyInUse : string := "DeviceModeVPCAlreadyInUse".
Definition DeviceModeSubnetAlreadyInUse : string := "DeviceModeSubnetAlreadyInUse".
Definition DeviceModeCantUseDefaultVPC : string := "DeviceModeCantUseDefaultVPC".
Definition L3SecondaryMissing : string := "L3SecondaryMissing".
Definition DeviceModeMissing : string := "DeviceModeMissing".
Definition GNPDeleted : string := "GNPDeleted".
Definition GNPParamsReady : string := "GNPParamsReady".
Definition GNPParamsNotReady : string := "GNPParamsNotReady".

(** [None] is a valid object, otherwise the reason and the message. *)
Record gnpValidation : Type := mkValidation { IsValid : bool; ErrorReason : string; ErrorMessage : string }.
Definition valid : gnpValidation := mkValidation true EmptyString EmptyString.
Definition invalid (reason message : string) : gnpValidation := mkValidation false reason message.

Definition toCondition (val : gnpValidation) : Condition :=
  if IsValid val then mkCondition GKENetworkParamSetStatusReady ConditionTrue GNPReady EmptyString 0 0
  else mkCondition GKENetworkParamSetStatusReady ConditionFalse (ErrorReason val) (ErrorMessage val) 0 0.

(** [gnpNetworkCrossValidation.toCondition]; the record has the same fields. *)
Definition cross_toCondition (val : gnpValidation) : Condition :=
  if IsValid val then mkCondition NetworkConditionStatusParamsReady ConditionTrue GNPParamsReady EmptyString 0 0
  else mkCondition NetworkConditionStatusParamsReady ConditionFalse (ErrorReason val) (ErrorMessage val) 0 0.

(** ** Range names *)
Definition hasRangeNames (params : GKENetworkParamSet) : bool :=
  match PodIPv4Ranges (gnp_Spec params) with
  | Some (_ :: _) => true
  | _ => false
  end.

(** The names, when [hasRangeNames]. *)
Definition rangeNames (params : GKENetworkParamSet) : list string := default [] (PodIPv4Ranges (gnp_Spec params)).

(** The counting loops of [sameStringSlice]. *)
Definition countUp (diff : gmap string Z) (a : string) : gmap string Z := <[ a := default 0 (diff !! a) + 1 ]> diff.
Fixpoint countDown (diff : gmap string Z) (y : list string) : bool :=
  match y with
  | [] => bool_decide (diff = ∅)
  | b :: y =>
      match diff !! b with
      | None => false
      | Some n => countDown (if n - 1 =? 0 then delete b diff else <[ b := n - 1 ]> diff) y
      end
  end.
Definition sameStringSlice (x y : list string) : bool :=
  if negb (length x =? length y)%nat then false else countDown (foldl countUp ∅ x) y.

Definition samePodIPv4Ranges (params originalParams : GKENetworkParamSet) : bool :=
  if negb (hasRangeNames params) && negb (hasRangeNames originalParams) then true
  else if hasRangeNames params && hasRangeNames originalParams
  then sameStringSlice (rangeNames params) (rangeNames originalParams)
  else false.

(** The first range name the subnet does not have. *)
Fixpoint missingRange (names : list string) (ranges : list SecondaryRange) : option string :=
  match names with
  | [] => None
  | n :: names => if existsb (λ sr, bool_decide (sr_RangeName sr = n)) ranges then missingRange names ranges else Some n
  end.

(** The first other parameter set that already uses the VPC or the subnet. *)
Fixpoint inUseByOther (params : GKENetworkParamSet) (others : list GKENetworkParamSet) : option gnpValidation :=
  match others with
  | [] => None
  | otherGNP :: rest =>
      let isDifferentGNP := bool_decide (gnp_Name params ≠ gnp_Name otherGNP) in
      let isMatchingVPC := bool_decide (VPC (gnp_Spec params) = VPC (gnp_Spec otherGNP)) in
      let isMatchingSubnet := bool_decide (VPCSubnet (gnp_Spec params) = VPCSubnet (gnp_Spec otherGNP)) in
      let isParamsNewer := CreationTimestamp otherGNP <? CreationTimestamp params in
      if isDifferentGNP && isMatchingVPC && isParamsNewer then
        Some (invalid DeviceModeVPCAlreadyInUse ("GNP with deviceMode can't reference a VPC already in use. VPC '" +:+
          VPC (gnp_Spec otherGNP) +:+ "' is already in use by '" +:+ gnp_Name otherGNP +:+ "'")%string)
      else if isDifferentGNP && isMatchingSubnet && isParamsNewer then
        Some (invalid DeviceModeSubnetAlreadyInUse ("GNP with deviceMode can't reference a subnet already in use. Subnet '" +:+
          VPC (gnp_Spec otherGNP) +:+ "' is already in use by '" +:+ gnp_Name otherGNP +:+ "'")%string)
      else inUseByOther params rest
  end.

Definition crossValidateNetworkAndGnp (network : Network) (params : GKENetworkParamSet) : gnpValidation :=
  if bool_decide (nw_Type network = L3NetworkType) && negb (hasRangeNames params)
  then invalid L3SecondaryMissing "L3 type network requires secondary range to be specified in params"
  else if bool_decide (nw_Type network = DeviceNetworkType) && bool_decide (DeviceMode (gnp_Spec params) = EmptyString)
  then invalid DeviceModeMissing "Device type network requires device mode to be specified in params"
  else valid.

Section validations.
Context {W : Type} `{SubnetClient W} `{NetClient W}.
Variable c : gceCloud.

Definition getAndValidateSubnet (params : GKENetworkParamSet) : io W (option Subnetwork * gnpValidation) :=
  if bool_decide (VPCSubnet (gnp_Spec params) = EmptyString)
  then mret (None, invalid SubnetNotFound "subnet not specified")
  else
    subnet ← orNil (GetSubnetwork (Region c) (VPCSubnet (gnp_Spec params)));
    match subnet with
    | None => mret (None, invalid SubnetNotFound ("subnet: " +:+ VPCSubnet (gnp_Spec params) +:+
                       " not found in VPC: " +:+ VPC (gnp_Spec params))%string)
    | Some s => mret (Some s, valid)
    end.

(** The checks on device mode: the default VPC, then the other sets. *)
Definition validateDeviceMode (params : GKENetworkParamSet) : io W gnpValidation :=
  key ← lift (ParseResourceURL (NetworkURL c));
  match key with
  | None => lift Panic
  | Some name =>
      if bool_decide (VPC (gnp_Spec params) = name)
      then mret (invalid DeviceModeCantUseDefaultVPC "GNP with deviceMode can't reference the default VPC")
      else
        gnpList ← GNPs_List;
        mret (default valid (inUseByOther params gnpList))
  end.

(** Unless on a cross-project network, the VPC must exist. *)
Definition vpcFound (params : GKENetworkParamSet) : io W bool :=
  if OnXPN c then mret true
  else network ← orNil (GetNetwork (VPC (gnp_Spec params))); mret (bool_decide (is_Some network)).

Definition validateGKENetworkParamSet (params : GKENetworkParamSet) (subnet : Subnetwork) : io W gnpValidation :=
  if bool_decide (VPC (gnp_Spec params) = EmptyString) then mret (invalid VPCNotFound "VPC not specified")
  else
    found ← vpcFound params;
    if negb found then mret (invalid VPCNotFound ("VPC: " +:+ VPC (gnp_Spec params) +:+ " not found")%string)
    else
      let isSecondaryRangeSpecified := hasRangeNames params in
      let isDeviceModeSpecified := bool_decide (DeviceMode (gnp_Spec params) ≠ EmptyString) in
      if negb isSecondaryRangeSpecified && negb isDeviceModeSpecified then
        mret (invalid SecondaryRangeAndDeviceModeUnspecified
          "SecondaryRange and DeviceMode are unspecified. One must be specified.")
      else
        match (if isSecondaryRangeSpecified && negb isDeviceModeSpecified
               then missingRange (rangeNames params) (SecondaryIpRanges subnet) else None) with
        | Some rangeName =>
            mret (invalid SecondaryRangeNotFound ("secondary range: " +:+ rangeName +:+ " not found in subnet: " +:+
              VPCSubnet (gnp_Spec params))%string)
        | None =>
            if isSecondaryRangeSpecified && isDeviceModeSpecified then
              mret (invalid DeviceModeCantBeUsedWithSecondaryRange
                "deviceMode and secondary range can not be specified at the same time")
            else if isDeviceModeSpecified then validateDeviceMode params
            else mret valid
        end.

Definition getParamsPodRanges (paramsName : string) : io W (list string) :=
  params ← GNPLister_Get paramsName;
  if hasRangeNames params then mret (rangeNames params)
  else fail (Errorf "params %v does not have PodIPv4Ranges").

Definition nonDefaultParamsPodRanges (node : Node) : io W bool :=
  r ← try (getParamsPodRanges DefaultPodNetworkName);
  match r with
  | inl _ => mret false
  | inr defaultPodRanges =>
      mret match Labels node !! NodePoolPodRangeLabelPrefix with
           | Some v => bool_decide (v ≠ EmptyString) && bool_decide (v ∉ defaultPodRanges)
           | None => false
           end
  end.
End validations.
