(* ===== verification/GnpController.v ===== *)
(** * GnpController: the GKENetworkParamSet controller

    [pkg/controller/gkenetworkparamset/gkenetworkparamset_controller.go].  The
    functions that mutate their argument in place return it; an error they
    return next to a mutated object is the second component, so that what was
    changed before the error is kept as in the source. *)

From S2P Require Import Prelude Bits GoNet GoNetText NetUtils Json K8s NetworkAPI WorkQueue MultiNetwork GnpValidations.
Local Open Scope Z_scope.

Definition GNPFinalizer : string := "networking.gke.io/gnp-controller".
Definition gnpKind : string := "gkenetworkparamset".
Definition annotationComponentsLayer : string := "components.gke.io/layer".
Definition annotationComponentsName : string := "components.gke.io/component-name".
Definition labelsAddonManagerMode : string := "addonmanager.kubernetes.io/mode".
Definition componentLayer : string := "addon".
Definition componentName : string := "cloud-controller-manager".
Definition ensureExistsMode : string := "EnsureExists".
Definition reconcileMode : string := "Reconcile".
Definition gnpMaxRetries : nat := 5.

Record Controller : Type := mkController {
  gc_queue : workqueue;
  gc_gce : gceCloud;
  clusterDefaultIPv4PodCIDR : string;
  (** the series of [gnpObjects], by readiness and device mode *)
  gnpObjects : gmap (bool * string) Z;
  gc_dropped : Z
}.

(** [strings.EqualFold] against an ASCII string. *)
Definition EqualFold (s t : string) : bool := bool_decide (foldName s = foldName t).

(** ** In-place updates *)
Definition with_status (f : GNPStatus → GNPStatus) (p : GKENetworkParamSet) : GKENetworkParamSet :=
  mkGNP (gnp_Name p) (gnp_Annotations p) (gnp_Labels p) (Finalizers p) (DeletionTimestamp p) (CreationTimestamp p)
    (gnp_Spec p) (f (gnp_Status p)).
Definition with_spec (s : GNPSpec) (p : GKENetworkParamSet) : GKENetworkParamSet :=
  mkGNP (gnp_Name p) (gnp_Annotations p) (gnp_Labels p) (Finalizers p) (DeletionTimestamp p) (CreationTimestamp p)
    s (gnp_Status p).
Definition with_finalizers (l : list string) (p : GKENetworkParamSet) : GKENetworkParamSet :=
  mkGNP (gnp_Name p) (gnp_Annotations p) (gnp_Labels p) l (DeletionTimestamp p) (CreationTimestamp p)
    (gnp_Spec p) (gnp_Status p).
Definition with_conditions (f : list Condition → list Condition) : GKENetworkParamSet → GKENetworkParamSet :=
  with_status (λ st, mkGNPStatus (gnp_PodCIDRs st) (f (gnp_Conditions st)) (NetworkName st)).

Definition addFinalizerInPlace (params : GKENetworkParamSet) : GKENetworkParamSet :=
  if bool_decide (GNPFinalizer ∈ Finalizers params) then params
  else with_finalizers (Finalizers params ++ [GNPFinalizer]) params.

(** The first occurrence. *)
Fixpoint removeFirst (f : string) (l : list string) : list string :=
  match l with
  | [] => []
  | x :: l => if bool_decide (x = f) then l else x :: removeFirst f l
  end.
Definition removeFinalizerInPlace (params : GKENetworkParamSet) : GKENetworkParamSet :=
  with_finalizers (removeFirst GNPFinalizer (Finalizers params)) params.

(** [m[k] = v] unless it is there: panics on a nil map. *)
Definition ensureEntry (m : option (gmap string string)) (k v : string) : outcome (option (gmap string string)) :=
  match m with
  | None => Panic
  | Some m => Ret (Some (<[ k := v ]> m))
  end.

(** ** Ranges *)
Definition paramSetIncludesRange (params : GKENetworkParamSet) (secondaryRangeName : string) : bool :=
  bool_decide (secondaryRangeName ∈ rangeNames params).

Definition extractRelevantCidrs (subnet : Subnetwork) (paramset : GKENetworkParamSet) : list string :=
  if negb (hasRangeNames paramset) then [sn_IpCidrRange subnet]
  else sr_IpCidrRange <$> filter (λ sr, paramSetIncludesRange paramset (sr_RangeName sr) = true) (SecondaryIpRanges subnet).

(** The range names of the labelled nodes that are not in the list yet. *)
Fixpoint addNodeRanges (names : list string) (nodes : list Node) : list string :=
  match nodes with
  | [] => names
  | n :: nodes =>
      addNodeRanges
        match Labels n !! NodePoolPodRangeLabelPrefix with
        | Some rn => if bool_decide (rn ≠ EmptyString) && bool_decide (rn ∉ names) then names ++ [rn] else names
        | None => names
        end nodes
  end.

Definition refersTo (gnpName : string) (network : Network) : bool :=
  match ParametersRef network with
  | None => false
  | Some ref => bool_decide (pr_Name ref = gnpName) && EqualFold (pr_Kind ref) gnpKind
  end.

Fixpoint findNetwork (P : Network → bool) (networks : list Network) : option Network :=
  match networks with
  | [] => None
  | n :: ns => if P n then Some n else findNetwork P ns
  end.

Section controller.
Context {W : Type} `{KubeClient W} `{NetClient W} `{SubnetClient W}.
Variable c : Controller.

Definition populateDesiredDefaultParamSet (params : GKENetworkParamSet) : io W GKENetworkParamSet :=
  match strings_Split (NetworkURL (gc_gce c)) "/networks/" with
  | [_; vpc] =>
      match strings_Split (SubnetworkURL (gc_gce c)) "/subnetworks/" with
      | [_; vpcSubnet] =>
          subnet ← orNil (GetSubnetwork (Region (gc_gce c)) vpcSubnet);
          match subnet with
          | None => fail (Errorf "failed to get vpcSubnet %q compute subnetwork: %v, err: %v")
          | Some subnet =>
              let defaultPodRange :=
                match list_find (λ r, sr_IpCidrRange r = clusterDefaultIPv4PodCIDR c) (SecondaryIpRanges subnet) with
                | Some (_, r) => sr_RangeName r | None => EmptyString end in
              if bool_decide (defaultPodRange = EmptyString)
              then fail (Errorf "failed to find range name for cluster default IPv4 Pod CIDR %q in compute subnet: %q")
              else
                let want m k v := if bool_decide ((default ∅ m : gmap string string) !! k = Some v) then Ret m else ensureEntry m k v in
                ann ← lift (want (gnp_Annotations params) annotationComponentsLayer componentLayer);
                ann ← lift (want ann annotationComponentsName componentName);
                lab ← lift (want (gnp_Labels params) labelsAddonManagerMode ensureExistsMode);
                mret (mkGNP (gnp_Name params) ann lab (Finalizers params) (DeletionTimestamp params)
                  (CreationTimestamp params) (mkGNPSpec vpc vpcSubnet EmptyString (Some [defaultPodRange])) (gnp_Status params))
          end
      | _ => fail (Errorf "failed to get subnetwork name from subnetworkURL: %v")
      end
  | _ => fail (Errorf "failed to get network name from networkURL: %v")
  end.

Definition getNetworkReferringToGNP (gnpName : string) : io W (option Network) :=
  networks ← NetworkLister_List;
  mret (findNetwork (refersTo gnpName) networks).

(** The network copy with a condition set, written to the cluster. *)
Definition setCondition (cs : list Condition) (cond : Condition) : io W (list Condition) :=
  now ← Clock_Now; mret (SetStatusCondition now cs cond).

Definition syncNetworkWithGNP (network : Network) (params : GKENetworkParamSet) : io W GKENetworkParamSet :=
  let networkCrossValidation := crossValidateNetworkAndGnp network params in
  cs ← setCondition (nw_Conditions network) (cross_toCondition networkCrossValidation);
  _ ← (if bool_decide (cs = nw_Conditions network) then mret tt
       else Networks_UpdateStatus (set_nw_Conditions cs network));
  if negb (IsValid networkCrossValidation) then mret params
  else mret (with_status (λ st, mkGNPStatus (gnp_PodCIDRs st) (gnp_Conditions st) (nw_Name network)) params).

Definition handleGNPDelete (params : GKENetworkParamSet) : io W GKENetworkParamSet :=
  if bool_decide (NetworkName (gnp_Status params) = EmptyString) then mret (removeFinalizerInPlace params)
  else
    r ← try (Networks_Get (NetworkName (gnp_Status params)));
    match r with
    | inl err => if IsNotFound err then mret (removeFinalizerInPlace params) else fail err
    | inr network =>
        let networkStillRefersToGNP := refersTo (gnp_Name params) network in
        if negb networkStillRefersToGNP then mret (removeFinalizerInPlace params)
        else if networkStillRefersToGNP && negb (InUse network) then mret (removeFinalizerInPlace params)
        else mret params
    end.

Definition cleanupGNPDeletion (gnpName : string) : io W unit :=
  network ← getNetworkReferringToGNP gnpName;
  match network with
  | None => mret tt
  | Some network =>
      cs ← setCondition (nw_Conditions network)
        (mkCondition NetworkConditionStatusParamsReady ConditionFalse GNPDeleted
           ("GKENetworkParamSet resource was deleted: " +:+ gnpName)%string 0 0);
      Networks_UpdateStatus (set_nw_Conditions cs network)
  end.

Definition syncPodRanges (params : GKENetworkParamSet) : io W GKENetworkParamSet :=
  match PodIPv4Ranges (gnp_Spec params) with
  | None => lift Panic
  | Some names =>
      r ← try NodeLister_List;
      match r with
      | inl err => fail (ErrorfW "failed to list node from cache: %w" err)
      | inr nodes =>
          let nodesWithLabel := filter (λ n, is_Some (Labels n !! NodePoolPodRangeLabelPrefix)) nodes in
          let s := gnp_Spec params in
          mret (with_spec (mkGNPSpec (VPC s) (VPCSubnet s) (DeviceMode s) (Some (addNodeRanges names nodesWithLabel))) params)
      end
  end.

Definition updateNetworkConditionForPodRanges (params : GKENetworkParamSet) : io W unit :=
  network ← getNetworkReferringToGNP (gnp_Name params);
  match network with
  | None => fail (Errorf "no network for GKENetworkParamSet %q")
  | Some network =>
      cs ← setCondition (nw_Conditions network)
        (mkCondition NetworkConditionStatusParamsReady ConditionFalse GNPParamsNotReady
           "New Pod ranges in default VPC requires CIDRs update in default Network" 0 0);
      Networks_UpdateStatus (set_nw_Conditions cs network)
  end.

(** A step that may fail after it changed the object. *)
Abbreviation mut A := (io W (A * option error)).
Definition keep {A} (a : A) (m : io W A) : mut A :=
  r ← try m; match r with inl e => mret (a, Some e) | inr a' => mret (a', None) end.

Definition setReady (params : GKENetworkParamSet) (v : gnpValidation) : io W GKENetworkParamSet :=
  now ← Clock_Now; mret (with_conditions (λ cs, SetStatusCondition now cs (toCondition v)) params).

(** The end of [syncGNP], on a validated object. *)
Definition syncValidated (params : GKENetworkParamSet) (subnet : Subnetwork) : mut GKENetworkParamSet :=
  '(params, err) ←
    (if bool_decide (gnp_Name params = DefaultPodNetworkName) &&
        bool_decide (default ∅ (gnp_Labels params) !! labelsAddonManagerMode = Some ensureExistsMode)
     then keep params (syncPodRanges params) else mret (params, None));
  match err with
  | Some e => mret (params, Some e)
  | None =>
      let params := with_status (λ st, mkGNPStatus (Some (extractRelevantCidrs subnet params)) (gnp_Conditions st)
                                  (NetworkName st)) params in
      r ← try (getNetworkReferringToGNP (gnp_Name params));
      match r with
      | inl e => mret (params, Some e)
      | inr None => mret (params, None)
      | inr (Some network) => keep params (syncNetworkWithGNP network params)
      end
  end.

Definition syncGNP (params : GKENetworkParamSet) : mut GKENetworkParamSet :=
  match DeletionTimestamp params with
  | Some _ => keep params (handleGNPDelete params)
  | None =>
      let params := addFinalizerInPlace params in
      '(subnet, subnetValidation) ← getAndValidateSubnet (gc_gce c) params;
      params ← setReady params subnetValidation;
      match subnet with
      | None => mret (params, None)
      | Some subnet =>
          r ← try (validateGKENetworkParamSet (gc_gce c) params subnet);
          match r with
          | inl e => mret (params, Some e)
          | inr paramsValidation =>
              params ← setReady params paramsValidation;
              if negb (IsValid paramsValidation) then mret (params, None) else syncValidated params subnet
          end
      end
  end.

Definition updateGKENetworkParamSet (params : GKENetworkParamSet) : io W unit :=
  r ← try (GNPs_Update params);
  match r with inl e => fail (ErrorfW "failed to update GKENetworkParamSet: %w" e) | inr _ => mret tt end.
Definition updateGKENetworkParamSetStatus (params : GKENetworkParamSet) : io W unit :=
  r ← try (GNPs_UpdateStatus params);
  match r with inl e => fail (ErrorfW "failed to update GKENetworkParamSet Status: %w" e) | inr _ => mret tt end.

(** [if updateErr := f(); updateErr != nil { err = multierror.Append(updateErr, err) }]. *)
Definition andAlso (m : io W unit) (err : option error) : io W (option error) :=
  r ← try m;
  mret match r with
       | inl e => Some match err with Some e' => ErrAppend e e' | None => e end
       | inr _ => err
       end.

Definition isReadyGNP (p : GKENetworkParamSet) : bool :=
  IsStatusConditionTrue (gnp_Conditions (gnp_Status p)) GKENetworkParamSetStatusReady.

(** The objects before and after, [None] when the set is gone. *)
Definition reconcileObject (key : string) : io W (option (GKENetworkParamSet * GKENetworkParamSet)) :=
  r ← try (GNPLister_Get key);
  match r with
  | inl err => if IsNotFound err then _ ← cleanupGNPDeletion key; mret None else fail err
  | inr originalParams =>
      params ← (if bool_decide (gnp_Name originalParams = DefaultPodNetworkName) &&
                   bool_decide (default EmptyString (default ∅ (gnp_Labels originalParams) !! labelsAddonManagerMode) ≠ reconcileMode)
                then populateDesiredDefaultParamSet originalParams else mret originalParams);
      '(params, err) ← syncGNP params;
      err ← (if bool_decide (gnp_Name params = DefaultPodNetworkName) && negb (samePodIPv4Ranges params originalParams)
             then r ← try (updateNetworkConditionForPodRanges params);
                  mret match r with inl e => Some e | inr _ => None end
             else mret err);
      err ← (if bool_decide (gnp_Status originalParams ≠ gnp_Status params) then
               err ← andAlso (updateGKENetworkParamSetStatus params) err;
               andAlso (updateGKENetworkParamSet params) err
             else if bool_decide (originalParams ≠ params) then andAlso (updateGKENetworkParamSet params) err
             else mret err);
      match err with
      | Some e => fail e
      | None => mret (Some (originalParams, params))
      end
  end.
End controller.

(** ** The queue and the handlers *)
Section queue.
Context {W : Type} `{KubeClient W} `{NetClient W} `{SubnetClient W}.
Abbreviation M := (io (Controller * W)).

Definition gnpLabel (p : GKENetworkParamSet) : bool * string := (isReadyGNP p, DeviceMode (gnp_Spec p)).
Definition gnpGauge (d : Z) (l : bool * string) (m : gmap (bool * string) Z) : gmap (bool * string) Z :=
  <[ l := default 0 (m !! l) + d ]> m.

Definition reconcile (key : string) : M unit := λ '(c, w),
  match reconcileObject c key w with
  | (Ret None, w') => (Ret tt, (c, w'))
  | (Ret (Some (originalParams, params)), w') =>
      (Ret tt, (mkController (gc_queue c) (gc_gce c) (clusterDefaultIPv4PodCIDR c)
                  (gnpGauge 1 (gnpLabel params) (gnpGauge (-1) (gnpLabel originalParams) (gnpObjects c))) (gc_dropped c), w'))
  | (Err e, w') => (Err e, (c, w'))
  | (Panic, w') => (Panic, (c, w'))
  end.

Definition set_gc_queue (q : workqueue) (c : Controller) : Controller :=
  mkController q (gc_gce c) (clusterDefaultIPv4PodCIDR c) (gnpObjects c) (gc_dropped c).

Definition gnp_handleErr (err : option error) (key : string) : M unit := put (λ '(c, w),
  let '(q, dropped) := retryOrForget gnpMaxRetries (bool_decide (err = None)) key (gc_queue c) in
  (mkController q (gc_gce c) (clusterDefaultIPv4PodCIDR c) (gnpObjects c) (gc_dropped c + (if dropped then 1 else 0)), w)).

Definition gnp_processNextItem : M (option bool) := λ '(c, w),
  match q_Get (gc_queue c) with
  | Blocked => (Ret None, (c, w))
  | Quit => (Ret (Some false), (c, w))
  | Item key q =>
      defer (λ '(c, w), (set_gc_queue (q_Done key (gc_queue c)) c, w))
        (r ← try (reconcile key);
         _ ← gnp_handleErr (match r with inl e => Some e | inr _ => None end) key;
         mret (Some true)) (set_gc_queue q c, w)
  end.

Definition enqueue (key : string) : M unit := put (λ '(c, w), (set_gc_queue (q_Add key (gc_queue c)) c, w)).

(** The GNP informer's objects: a tombstone carries the key. *)
Inductive gnpObj : Type := GnpObj (g : GKENetworkParamSet) | GnpTombstone (key : string) | GnpOther.
Definition gnp_onAddOrUpdate (obj : gnpObj) : M unit :=
  match obj with GnpObj g => enqueue (gnp_Name g) | _ => mret tt end.
Definition gnp_onDelete (obj : gnpObj) : M unit :=
  match obj with GnpObj g => enqueue (gnp_Name g) | GnpTombstone key => enqueue key | GnpOther => mret tt end.

(** The parameter set a network refers to. *)
Definition gnpRef (nw : Network) : option string :=
  match ParametersRef nw with
  | Some ref => if EqualFold (pr_Kind ref) gnpKind then Some (pr_Name ref) else None
  | None => None
  end.

(** [obj] is [None] when the type assertion fails. *)
Definition enqueueOpt (k : option string) : M unit := match k with Some k => enqueue k | None => mret tt end.
Definition network_onAddOrDelete (obj : option Network) : M unit :=
  match obj with None => lift Panic | Some nw => enqueueOpt (gnpRef nw) end.
Definition network_onUpdate (old new : option Network) : M unit :=
  match new with
  | None => lift Panic
  | Some new =>
      _ ← enqueueOpt (gnpRef new);
      match old with
      | None => lift Panic
      | Some old =>
          match gnpRef old with
          | None => mret tt
          | Some k => if bool_decide (gnpRef new = Some k) then mret tt else enqueue k
          end
      end
  end.
Definition node_onAdd (obj : option Node) : M unit :=
  match obj with
  | None => lift Panic
  | Some node => b ← on_snd (nonDefaultParamsPodRanges node); if (b : bool) then enqueue DefaultPodNetworkName else mret tt
  end.
Definition node_onDelete (obj : option Node) : M unit :=
  match obj with
  | None => lift Panic
  | Some node =>
      match Labels node !! NodePoolPodRangeLabelPrefix with
      | Some v => if bool_decide (v ≠ EmptyString) then enqueue DefaultPodNetworkName else mret tt
      | None => mret tt
      end
  end.
End queue.

(** The last IPv4 cluster CIDR; the process exits when there is none. *)
Definition defaultPodCIDR (clusterCIDRs : list IPNet) : string :=
  foldl (λ s n, if bool_decide (IPFamilyOfCIDR (Some n) = IPv4) then IPNet_String n else s) EmptyString clusterCIDRs.

Definition NewGKENetworkParamSetController (gce : gceCloud) (clusterCIDRs : list IPNet) : outcome Controller :=
  if bool_decide (defaultPodCIDR clusterCIDRs = EmptyString) then Panic
  else Ret (mkController newQueue gce (defaultPodCIDR clusterCIDRs) ∅ 0).
