(* ===== verification/GnpProps.v ===== *)
(** * GnpProps: what the GKENetworkParamSet controller guarantees *)
From S2P Require Import Prelude Bits GoNet GoNetText K8s NetUtils Json NetworkAPI WorkQueue MultiNetwork GnpValidations GnpController.
Local Open Scope Z_scope.

(** ** Comparing range lists *)

(** The counters of a list: positive multiplicities. *)
Definition counts (x : list string) (m : gmap string Z) : Prop :=
  ∀ k, m !! k = let n := Z.of_nat (count_occ String.eq_dec x k) in if n =? 0 then None else Some n.

Lemma counts_empty m : counts [] m ↔ m = ∅.
Proof. split; [intros Hc; apply map_eq; intros k; by rewrite Hc, lookup_empty|intros -> k; by rewrite lookup_empty]. Qed.

Lemma countUp_counts x m a : counts x m → counts (a :: x) (countUp m a).
Proof.
  intros Hc k. unfold countUp. cbn [count_occ]. destruct (String.eq_dec a k) as [->|Hne].
  - rewrite lookup_insert_eq, Hc. cbv zeta. rewrite Nat2Z.inj_succ.
    destruct (Z.eqb_spec (Z.of_nat (count_occ String.eq_dec x k)) 0), (Z.eqb_spec (Z.succ (Z.of_nat (count_occ String.eq_dec x k))) 0);
      simpl; f_equal; lia.
  - rewrite lookup_insert_ne by done. apply Hc.
Qed.

Lemma counts_perm x y m : x ≡ₚ y → counts x m → counts y m.
Proof. intros Hp Hc k. rewrite Hc. by rewrite (proj1 (Permutation_count_occ String.eq_dec x y) Hp k). Qed.

Lemma foldl_countUp x : ∀ pre m, counts pre m → counts (x ++ pre) (foldl countUp m x).
Proof.
  induction x as [|a x IH]; intros pre m Hc; simpl; [done|].
  apply (counts_perm (x ++ a :: pre)); [by rewrite Permutation_middle|]. by apply IH, countUp_counts.
Qed.

(** Counting down a list empties the counters exactly of its permutations. *)
Lemma countDown_perm y : ∀ x m, counts x m → countDown m y = true ↔ x ≡ₚ y.
Proof.
  induction y as [|b y IH]; intros x m Hc; simpl.
  - rewrite bool_decide_eq_true. split.
    + intros ->. destruct x as [|a x]; [done|]. specialize (Hc a). rewrite lookup_empty in Hc. simpl in Hc.
      destruct (String.eq_dec a a); [|done]. rewrite Nat2Z.inj_succ in Hc.
      destruct (Z.eqb_spec (Z.succ (Z.of_nat (count_occ String.eq_dec x a))) 0); [lia|done].
    + intros Hp. apply Permutation_sym, Permutation_nil in Hp. subst x. by apply counts_empty.
  - pose proof (Hc b) as Hb. cbv zeta in Hb. destruct (Z.eqb_spec (Z.of_nat (count_occ String.eq_dec x b)) 0) as [E|E].
    + rewrite Hb. split; [done|]. intros Hp. exfalso. apply (count_occ_not_In String.eq_dec x b); [lia|].
      rewrite Hp. by left.
    + rewrite Hb. assert (b ∈ x) as Hin by (apply list_elem_of_In, (count_occ_In String.eq_dec); lia).
      apply list_elem_of_split in Hin as (l1 & l2 & ->). rewrite (IH (l1 ++ l2)).
      * rewrite <- Permutation_middle. split; [by intros ->|apply Permutation_cons_inv].
      * apply (counts_perm _ (b :: l1 ++ l2)) in Hc; [|by rewrite Permutation_middle].
        intros k. specialize (Hc k). cbn [count_occ] in Hc.
        destruct (String.eq_dec b k) as [<-|Hne].
        -- rewrite (proj1 (Permutation_count_occ String.eq_dec _ (b :: l1 ++ l2))) by (by rewrite Permutation_middle).
           cbn [count_occ]. destruct (String.eq_dec b b) as [_|]; [|done]. cbv zeta. rewrite Nat2Z.inj_succ.
           replace (Z.succ (Z.of_nat (count_occ String.eq_dec (l1 ++ l2) b)) - 1)
             with (Z.of_nat (count_occ String.eq_dec (l1 ++ l2) b)) by lia.
           destruct (Z.eqb_spec (Z.of_nat (count_occ String.eq_dec (l1 ++ l2) b)) 0); [apply lookup_delete_eq|apply lookup_insert_eq].
        -- destruct (Z.of_nat (count_occ String.eq_dec (l1 ++ b :: l2) b) - 1 =? 0); [by rewrite lookup_delete_ne|by rewrite lookup_insert_ne].
Qed.

(** Two range lists are treated as equal exactly when one is a permutation
    of the other (repetitions counted). *)
Theorem sameStringSlice_permutation x y : sameStringSlice x y = true ↔ x ≡ₚ y.
Proof.
  unfold sameStringSlice. pose proof (foldl_countUp x [] ∅ (proj2 (counts_empty ∅) eq_refl)) as Hc. rewrite app_nil_r in Hc.
  destruct (Nat.eqb_spec (length x) (length y)) as [E|E]; simpl; [by apply countDown_perm|].
  split; [done|]. intros Hp. by apply Permutation_length in Hp.
Qed.

(** ** Validation *)
Lemma missingRange_None names ranges : missingRange names ranges = None ↔
  ∀ n, n ∈ names → ∃ sr, sr ∈ ranges ∧ sr_RangeName sr = n.
Proof.
  induction names as [|n names IH]; simpl; [split; [by intros _ ? ?%not_elem_of_nil|done]|].
  destruct (existsb _ ranges) eqn:E.
  - apply existsb_exists in E as (sr & Hsr & Hn). propify. apply list_elem_of_In in Hsr. rewrite IH. set_solver.
  - split; [done|]. intros Ha. destruct (Ha n) as (sr & Hsr & Hn); [set_solver|].
    rewrite (proj2 (existsb_exists _ ranges)) in E; [done|]. exists sr. split; [by apply list_elem_of_In|by apply bool_decide_eq_true].
Qed.

(** No older parameter set of another name shares the VPC or the subnet. *)
Definition no_older_user (params : GKENetworkParamSet) (others : list GKENetworkParamSet) : Prop :=
  ∀ o, o ∈ others → gnp_Name o ≠ gnp_Name params → CreationTimestamp o < CreationTimestamp params →
    VPC (gnp_Spec o) ≠ VPC (gnp_Spec params) ∧ VPCSubnet (gnp_Spec o) ≠ VPCSubnet (gnp_Spec params).

Lemma inUseByOther_spec params others :
  match inUseByOther params others with
  | None => no_older_user params others
  | Some v => IsValid v = false ∧ ¬ no_older_user params others
  end.
Proof.
  induction others as [|o others IH]; simpl; [by intros ? ?%not_elem_of_nil|].
  assert ((gnp_Name o ≠ gnp_Name params → CreationTimestamp o < CreationTimestamp params →
      VPC (gnp_Spec o) ≠ VPC (gnp_Spec params) ∧ VPCSubnet (gnp_Spec o) ≠ VPCSubnet (gnp_Spec params)) →
    match inUseByOther params others with
    | None => no_older_user params (o :: others)
    | Some v => IsValid v = false ∧ ¬ no_older_user params (o :: others)
    end) as Hskip.
  { intros Ho. destruct (inUseByOther params others).
    - destruct IH as [Hv IH]. split; [done|]. intros Ha. apply IH. intros o' Ho'. apply Ha. set_solver.
    - intros o' [->|Ho']%elem_of_cons; [done|by apply IH]. }
  destruct (bool_decide (gnp_Name params ≠ gnp_Name o)) eqn:E1; propify; simpl.
  2: { apply Hskip. intros Hne. exfalso. apply E1. congruence. }
  destruct (Z.ltb_spec (CreationTimestamp o) (CreationTimestamp params)) as [E4|E4].
  2: { rewrite !andb_false_r. apply Hskip. lia. }
  rewrite !andb_true_r.
  destruct (bool_decide (VPC _ = _)) eqn:E2; propify; simpl.
  { split; [done|]. intros Ha. destruct (Ha o) as [Hv _]; [set_solver|congruence|done|]. congruence. }
  destruct (bool_decide (VPCSubnet _ = _)) eqn:E3; propify; simpl.
  { split; [done|]. intros Ha. destruct (Ha o) as [_ Hv]; [set_solver|congruence|done|]. congruence. }
  apply Hskip. split; congruence.
Qed.

(** The secondary ranges exist in the subnet. *)
Definition range_mode_ok (params : GKENetworkParamSet) (subnet : Subnetwork) : Prop :=
  DeviceMode (gnp_Spec params) = EmptyString ∧ hasRangeNames params = true ∧
  ∀ n, n ∈ rangeNames params → ∃ sr, sr ∈ SecondaryIpRanges subnet ∧ sr_RangeName sr = n.

(** The VPC is not the cluster's own and no older set uses it or the subnet. *)
Definition device_mode_ok (c : gceCloud) (params : GKENetworkParamSet) (gnps : list GKENetworkParamSet) : Prop :=
  DeviceMode (gnp_Spec params) ≠ EmptyString ∧ hasRangeNames params = false ∧ no_older_user params gnps ∧
  ∃ name, ParseResourceURL (NetworkURL c) = Ret (Some name) ∧ VPC (gnp_Spec params) ≠ name.

Section validation.
Context {W : Type} `{SubnetClient W} `{NetClient W}.
Variable c : gceCloud.

Lemma vpcFound_ok params w : (∀ w, (GetNetwork (VPC (gnp_Spec params)) w).1 = Ret (Some tt)) →
  ∃ w', vpcFound c params w = (Ret true, w').
Proof.
  intros Hn. unfold vpcFound. destruct (OnXPN c); [by eexists|]. rewrite io_bind_eq. unfold orNil. rewrite io_bind_eq. unfold try.
  specialize (Hn w). destruct (GetNetwork _ w) as [[[[]|]| |] w']; try done. by eexists.
Qed.

Lemma validateDeviceMode_valid params w gnps : (∀ w, (GNPs_List w).1 = Ret gnps) →
  (∃ v w', validateDeviceMode c params w = (Ret v, w') ∧ IsValid v = true) ↔
  no_older_user params gnps ∧ ∃ name, ParseResourceURL (NetworkURL c) = Ret (Some name) ∧ VPC (gnp_Spec params) ≠ name.
Proof.
  intros Hl. unfold validateDeviceMode. rewrite io_bind_eq. unfold lift at 1.
  destruct (ParseResourceURL (NetworkURL c)) as [[name|]|e|]; [|naive_solver..].
  case_bool_decide as Ev.
  { split; [by intros (v & w' & [= <- <-] & ?)|]. intros [_ (n & [= <-] & Hn)]. done. }
  rewrite io_bind_eq. pose proof (inUseByOther_spec params gnps) as Hs.
  specialize (Hl w). destruct (GNPs_List w) as [o w1]. simpl in Hl. subst o.
  destruct (inUseByOther params gnps) as [v|].
  - destruct Hs as [Hv Hs]. split; [intros (v' & w' & [= <- <-] & ?); simpl in *; congruence|by intros [? _]].
  - split; [intros _; split; [done|by exists name]|]. intros _. by eexists _, _.
Qed.
End validation.

(** A parameter set whose VPC exists is accepted exactly when it names a
    VPC and either lists secondary ranges that all exist in the subnet and no
    device mode, or has a device mode, no secondary ranges, a VPC that is not
    the cluster's own, and no older parameter set on the same VPC or subnet. *)
Theorem validateGKENetworkParamSet_accepts {W} `{SubnetClient W} `{NetClient W} c params subnet gnps (w : W) :
  (∀ w : W, (GetNetwork (VPC (gnp_Spec params)) w).1 = Ret (Some tt)) → (∀ w : W, (GNPs_List w).1 = Ret gnps) →
  (∃ v w', validateGKENetworkParamSet c params subnet w = (Ret v, w') ∧ IsValid v = true) ↔
  VPC (gnp_Spec params) ≠ EmptyString ∧ (range_mode_ok params subnet ∨ device_mode_ok c params gnps).
Proof.
  intros Hn Hl. unfold validateGKENetworkParamSet, range_mode_ok, device_mode_ok. case_bool_decide as Ev.
  { split; [by intros (v & w' & [= <- <-] & ?)|naive_solver]. }
  rewrite io_bind_eq. destruct (vpcFound_ok c params w Hn) as [w1 ->]. cbn [negb].
  destruct (hasRangeNames params) eqn:Eh; destruct (bool_decide (DeviceMode _ ≠ _)) eqn:Ed; propify; cbn [negb andb].
  - split; [by intros (v & w' & [= <- <-] & ?)|naive_solver].
  - apply dec_stable in Ed. pose proof (missingRange_None (rangeNames params) (SecondaryIpRanges subnet)) as Hm.
    destruct (missingRange _ _) as [n|].
    + split; [by intros (v & w' & [= <- <-] & ?)|]. intros [_ [(_ & _ & Hr)|(? & _)]]; [|done]. by apply Hm in Hr.
    + split; [|by intros _; eexists _, _]. intros _. split; [done|]. left. split_and!; try done. by apply Hm.
  - rewrite (validateDeviceMode_valid c params w1 gnps Hl). naive_solver.
  - apply dec_stable in Ed. split; [by intros (v & w' & [= <- <-] & ?)|naive_solver].
Qed.

Lemma accepted_no_older_user {W} `{SubnetClient W} `{NetClient W} c params subnet gnps (w w' : W) v :
  (∀ w : W, (GNPs_List w).1 = Ret gnps) → DeviceMode (gnp_Spec params) ≠ EmptyString →
  validateGKENetworkParamSet c params subnet w = (Ret v, w') → IsValid v = true → no_older_user params gnps.
Proof.
  intros Hl Hd. unfold validateGKENetworkParamSet. case_bool_decide; [by intros [= <- _]|].
  rewrite io_bind_eq. destruct (vpcFound c params w) as [[[]| |] w1]; [|by intros [= <- _]|done..]. cbn [negb].
  rewrite bool_decide_eq_true_2 by done. destruct (hasRangeNames params); cbn [negb andb]; [by intros [= <- _]|].
  intros Hv Hok. apply (proj1 (validateDeviceMode_valid c params w1 gnps Hl)). by exists v, w'.
Qed.

(** Two device-mode parameter sets that are both accepted while the cluster
    has them both share neither VPC nor subnet, unless they were created at the
    same second. *)
Theorem device_mode_exclusive {W} `{SubnetClient W} `{NetClient W} c g1 g2 s1 s2 gnps (w1 w1' w2 w2' : W) v1 v2 :
  (∀ w : W, (GNPs_List w).1 = Ret gnps) → g1 ∈ gnps → g2 ∈ gnps → gnp_Name g1 ≠ gnp_Name g2 →
  DeviceMode (gnp_Spec g1) ≠ EmptyString → DeviceMode (gnp_Spec g2) ≠ EmptyString →
  validateGKENetworkParamSet c g1 s1 w1 = (Ret v1, w1') → IsValid v1 = true →
  validateGKENetworkParamSet c g2 s2 w2 = (Ret v2, w2') → IsValid v2 = true →
  (VPC (gnp_Spec g1) ≠ VPC (gnp_Spec g2) ∧ VPCSubnet (gnp_Spec g1) ≠ VPCSubnet (gnp_Spec g2)) ∨
  CreationTimestamp g1 = CreationTimestamp g2.
Proof.
  intros Hl Hin1 Hin2 Hne Hd1 Hd2 E1 V1 E2 V2.
  pose proof (accepted_no_older_user _ _ _ _ _ _ _ Hl Hd1 E1 V1) as H1.
  pose proof (accepted_no_older_user _ _ _ _ _ _ _ Hl Hd2 E2 V2) as H2.
  destruct (Z.lt_trichotomy (CreationTimestamp g1) (CreationTimestamp g2)) as [Hlt|[Heq|Hlt]]; [|by right|].
  - left. exact (H2 g1 Hin1 Hne Hlt).
  - left. destruct (H1 g2 Hin2 (not_eq_sym Hne) Hlt). split; congruence.
Qed.

(** ** Finalizers *)
Lemma addFinalizer_spec params : GNPFinalizer ∈ Finalizers (addFinalizerInPlace params) ∧
  (∀ f, f ≠ GNPFinalizer → f ∈ Finalizers (addFinalizerInPlace params) ↔ f ∈ Finalizers params) ∧
  (NoDup (Finalizers params) → NoDup (Finalizers (addFinalizerInPlace params))).
Proof.
  unfold addFinalizerInPlace. case_bool_decide as E; [done|]. simpl. split_and!; [set_solver|set_solver|].
  intros Hn. apply NoDup_app. split_and!; [done| |apply NoDup_singleton]. set_solver.
Qed.

Lemma removeFirst_spec f l : NoDup l → ∀ x, x ∈ removeFirst f l ↔ x ∈ l ∧ x ≠ f.
Proof.
  induction l as [|a l IH]; intros Hn x; simpl; [set_solver|]. apply NoDup_cons in Hn as [Ha Hn].
  case_bool_decide as E; [subst; set_solver|]. rewrite !elem_of_cons, IH by done. set_solver.
Qed.

Section finalizers.
Context {W : Type} `{KubeClient W} `{NetClient W} `{SubnetClient W}.
Variable c : Controller.

(** Whatever a step does, it returns an object with the same finalizers. *)
Definition keeps_fin (p : GKENetworkParamSet) (m : io W (GKENetworkParamSet * option error)) : Prop :=
  ∀ w q err w', m w = (Ret (q, err), w') → Finalizers q = Finalizers p.

Lemma keeps_keep p (m : io W GKENetworkParamSet) :
  (∀ w q w', m w = (Ret q, w') → Finalizers q = Finalizers p) → keeps_fin p (keep p m).
Proof.
  intros Hm w q err w'. unfold keep. rewrite io_bind_eq. unfold try.
  destruct (m w) as [[a|e|] w1] eqn:E; [|by intros [= <- _ _]|done]. intros [= <- _ _]. by eapply Hm.
Qed.

Lemma syncPodRanges_fin p w q w' : syncPodRanges p w = (Ret q, w') → Finalizers q = Finalizers p.
Proof.
  unfold syncPodRanges. destruct (PodIPv4Ranges _); [|done]. rewrite io_bind_eq. unfold try.
  destruct (NodeLister_List w) as [[]]; [|done..]. by intros [= <- _].
Qed.

Lemma syncNetworkWithGNP_fin nw p w q w' : syncNetworkWithGNP nw p w = (Ret q, w') → Finalizers q = Finalizers p.
Proof.
  unfold syncNetworkWithGNP. intros (cs & w1 & _ & (_ & w2 & _ & Hr)%io_bind_Ret)%io_bind_Ret.
  destruct (negb _); by injection Hr as <- _.
Qed.

Lemma syncValidated_fin p subnet : keeps_fin p (syncValidated p subnet).
Proof.
  intros w q err w'. unfold syncValidated. intros ([p1 err1] & w1 & E1 & Hr)%io_bind_Ret.
  assert (keeps_fin p (if bool_decide (gnp_Name p = DefaultPodNetworkName) &&
        bool_decide (default ∅ (gnp_Labels p) !! labelsAddonManagerMode = Some ensureExistsMode)
     then keep p (syncPodRanges p) else mret (p, None))) as Hfirst.
  { destruct (_ && _); [apply keeps_keep; apply syncPodRanges_fin|]. intros ? ? ? ? [= <- _ _]. done. }
  apply Hfirst in E1. destruct err1; [by injection Hr as <- _ _|].
  apply io_bind_Ret in Hr as (r & w2 & _ & Hk). destruct r as [e|[nw|]]; [by injection Hk as <- _ _| |by injection Hk as <- _ _].
  rewrite <- E1. by eapply (keeps_keep (with_status _ p1)); [apply syncNetworkWithGNP_fin|exact Hk].
Qed.
End finalizers.

Lemma handleGNPDelete_spec {W} `{NetClient W} params (w w' : W) q : handleGNPDelete params w = (Ret q, w') →
  (q = params ∧ NetworkName (gnp_Status params) ≠ EmptyString ∧ ∃ nw,
     (Networks_Get (NetworkName (gnp_Status params)) w).1 = Ret nw ∧ refersTo (gnp_Name params) nw = true ∧ InUse nw = true) ∨
  (q = removeFinalizerInPlace params ∧
     (NetworkName (gnp_Status params) = EmptyString ∨
      match (Networks_Get (NetworkName (gnp_Status params)) w).1 with
      | Ret nw => refersTo (gnp_Name params) nw && InUse nw = false
      | Err e => IsNotFound e = true
      | Panic => False
      end)).
Proof.
  unfold handleGNPDelete. case_bool_decide as En; [intros [= <- _]; right; auto|].
  intros (r & w1 & Hr%try_Ret & Hk)%io_bind_Ret. destruct r as [e|nw]; rewrite Hr; simpl.
  - destruct (IsNotFound e); [|done]. injection Hk as <- _. right; auto.
  - destruct (refersTo (gnp_Name params) nw) eqn:Er; cbn [negb andb] in *; [|injection Hk as <- _; right; auto].
    destruct (InUse nw) eqn:Eu; cbn [negb andb] in *; injection Hk as <- _; [left; by split_and!; [| |exists nw]|right; auto].
Qed.

(** C36: a parameter set that is not being deleted carries the controller's
    finalizer after every sync, on each path; one that is being deleted keeps it
    exactly as long as the network recorded in its status exists, still refers
    to it and is in use.  No other finalizer is touched, and an error while
    asking for that network leaves the object as it was. *)
Theorem syncGNP_finalizer {W} `{KubeClient W} `{NetClient W} `{SubnetClient W} c params (w w' : W) q err :
  NoDup (Finalizers params) → syncGNP c params w = (Ret (q, err), w') →
  (∀ f, f ≠ GNPFinalizer → f ∈ Finalizers q ↔ f ∈ Finalizers params) ∧
  match DeletionTimestamp params with
  | None => GNPFinalizer ∈ Finalizers q
  | Some _ =>
      (err ≠ None → q = params) ∧
      (err = None → GNPFinalizer ∈ Finalizers q ↔
         GNPFinalizer ∈ Finalizers params ∧ NetworkName (gnp_Status params) ≠ EmptyString ∧ ∃ nw,
           (Networks_Get (NetworkName (gnp_Status params)) w).1 = Ret nw ∧ refersTo (gnp_Name params) nw = true ∧ InUse nw = true)
  end.
Proof.
  intros Hnd. unfold syncGNP. destruct (DeletionTimestamp params) as [t|].
  - unfold keep. intros (r & w1 & Hr%try_Ret & Hk)%io_bind_Ret. destruct r as [e|p]; injection Hk as <- <- _; [by auto|].
    apply handleGNPDelete_spec in Hr as [(-> & Hn & nw & Hg & Hr & Hu)|(-> & Hr)].
    { split; [done|]. split; [done|]. intros _. split; [|by intros [? _]]. intros Hf. split_and!; eauto. }
    assert (∀ f, f ∈ Finalizers (removeFinalizerInPlace params) ↔ f ∈ Finalizers params ∧ f ≠ GNPFinalizer) as Hrm.
    { intros f. by apply removeFirst_spec. }
    split; [intros f Hf; rewrite Hrm; tauto|]. split; [done|]. intros _. rewrite Hrm. split; [by intros [_ ?]|].
    intros (_ & Hn & nw & Hg & Href & Hu). exfalso. destruct Hr as [Hr|Hr]; [done|]. rewrite Hg, Href, Hu in Hr. done.
  - destruct (addFinalizer_spec params) as (Hin & Hoth & _). set (p0 := addFinalizerInPlace params) in *.
    intros ([subnet v] & w1 & _ & (p1 & w2 & Hs & Hr)%io_bind_Ret)%io_bind_Ret.
    assert (∀ p v w p' w', setReady p v w = (Ret p', w') → Finalizers p' = Finalizers p) as Hset.
    { intros p2 v2 w3 p3 w4. unfold setReady. intros (now & w5 & _ & Hx)%io_bind_Ret. by injection Hx as <- _. }
    apply Hset in Hs. assert (Finalizers q = Finalizers p0) as ->; [|done].
    destruct subnet as [subnet|]; [|by injection Hr as <- _ _].
    apply io_bind_Ret in Hr as (r & w3 & _ & Hr). destruct r as [e|v2]; [by injection Hr as <- _ _|].
    apply io_bind_Ret in Hr as (p2 & w4 & Hs2 & Hr). apply Hset in Hs2. rewrite <- Hs, <- Hs2.
    destruct (negb (IsValid v2)); [by injection Hr as <- _ _|]. by eapply syncValidated_fin.
Qed.

(** ** Pod ranges of the default set *)
Definition nodeRange (n : Node) (r : string) : Prop := Labels n !! NodePoolPodRangeLabelPrefix = Some r ∧ r ≠ EmptyString.

Lemma addNodeRanges_spec nodes : ∀ names, NoDup names →
  NoDup (addNodeRanges names nodes) ∧ (∃ extra, addNodeRanges names nodes = names ++ extra) ∧
  ∀ r, r ∈ addNodeRanges names nodes ↔ r ∈ names ∨ ∃ n, n ∈ nodes ∧ nodeRange n r.
Proof.
  induction nodes as [|n nodes IH]; intros names Hnd; cbn [addNodeRanges].
  { split_and!; [done|exists []; by rewrite app_nil_r|]. intros r. split; [by left|]. intros [?|(n & ?%not_elem_of_nil & _)]; done. }
  set (names' := match _ with Some rn => _ | None => names end).
  assert (NoDup names' ∧ (∃ e, names' = names ++ e) ∧ ∀ r, r ∈ names' ↔ r ∈ names ∨ nodeRange n r) as (Hnd' & [e He] & Hin).
  { subst names'. unfold nodeRange. destruct (Labels n !! NodePoolPodRangeLabelPrefix) as [rn|].
    2: { split_and!; [done|exists []; by rewrite app_nil_r|naive_solver]. }
    destruct (bool_decide (rn ≠ EmptyString)) eqn:E1; propify; simpl.
    2: { split_and!; [done|exists []; by rewrite app_nil_r|]. apply dec_stable in E1. naive_solver. }
    case_bool_decide as E2.
    - split_and!; [|by eexists|].
      + apply NoDup_app. split_and!; [done| |apply NoDup_singleton]. set_solver.
      + intros r. rewrite elem_of_app, list_elem_of_singleton. naive_solver.
    - split_and!; [done|exists []; by rewrite app_nil_r|]. naive_solver. }
  destruct (IH names' Hnd') as (H1 & [e2 H2] & H3). split_and!; [done|exists (e ++ e2); by rewrite H2, He, app_assoc|].
  intros r. rewrite H3, Hin. setoid_rewrite elem_of_cons. naive_solver.
Qed.

(** The default set's ranges grow to exactly its own ranges and those of
    the labelled nodes, each once, the old ones first; nothing else of the
    object changes. *)
Theorem syncPodRanges_collects {W} `{KubeClient W} params (w w' : W) names nodes :
  PodIPv4Ranges (gnp_Spec params) = Some names → NoDup names → NodeLister_List w = (Ret nodes, w') →
  ∃ l, syncPodRanges params w = (Ret (with_spec (mkGNPSpec (VPC (gnp_Spec params)) (VPCSubnet (gnp_Spec params))
                                        (DeviceMode (gnp_Spec params)) (Some l)) params), w') ∧
    NoDup l ∧ (∃ extra, l = names ++ extra) ∧ ∀ r, r ∈ l ↔ r ∈ names ∨ ∃ n, n ∈ nodes ∧ nodeRange n r.
Proof.
  intros Hp Hnd Hl. unfold syncPodRanges. rewrite Hp, io_bind_eq. unfold try. rewrite Hl.
  destruct (addNodeRanges_spec (filter (λ n, is_Some (Labels n !! NodePoolPodRangeLabelPrefix)) nodes) names Hnd) as (H1 & H2 & H3).
  eexists. split; [done|]. split_and!; [done|done|]. intros r. rewrite H3. setoid_rewrite list_elem_of_filter.
  unfold nodeRange. split; intros [?|(n & Hn & Hr & Hne)]; [by left|naive_solver|by left|]. right. exists n. rewrite Hr. eauto.
Qed.

(** ** A sync error that is lost *)

Lemma andAlso_ok {W} (m : io W unit) w : is_ret (m w).1 = true → ∃ w', andAlso m None w = (Ret None, w').
Proof. intros Hm. unfold andAlso. rewrite io_bind_eq. unfold try. destruct (m w) as [[]]; [by eexists|done..]. Qed.

(** When the pod ranges of the default set changed, the error [syncGNP]
    returned is overwritten by the (successful) update of the network's
    condition: reconciling returns no error, so the key is not retried. *)
Theorem default_sync_error_lost {W} `{KubeClient W} `{NetClient W} `{SubnetClient W} c key (w w1 w2 w3 w4 : W) orig p0 p e :
  GNPLister_Get key w = (Ret orig, w1) → gnp_Name orig = DefaultPodNetworkName →
  default ∅ (gnp_Labels orig) !! labelsAddonManagerMode ≠ Some reconcileMode →
  populateDesiredDefaultParamSet c orig w1 = (Ret p0, w2) →
  syncGNP c p0 w2 = (Ret (p, Some e), w3) → gnp_Name p = DefaultPodNetworkName → samePodIPv4Ranges p orig = false →
  updateNetworkConditionForPodRanges p w3 = (Ret tt, w4) →
  (∀ g w, is_ret (GNPs_Update g w).1 = true) → (∀ g w, is_ret (GNPs_UpdateStatus g w).1 = true) →
  (reconcile key (c, w)).1 = Ret tt.
Proof.
  intros Hg Hname Hlab Hpop Hsync Hpn Hsame Hupd Hu Hus. unfold reconcile, reconcileObject.
  rewrite io_bind_eq. unfold try at 1. rewrite Hg. cbv beta iota.
  rewrite (bool_decide_eq_true_2 (gnp_Name orig = _)) by done.
  rewrite bool_decide_eq_true_2 by (destruct (default ∅ _ !! labelsAddonManagerMode); [simpl; congruence|done]). cbn [andb].
  rewrite io_bind_eq, Hpop. rewrite io_bind_eq, Hsync. cbv beta iota.
  rewrite (bool_decide_eq_true_2 (gnp_Name p = _)) by done. rewrite Hsame. cbn [andb negb].
  rewrite io_bind_eq, io_bind_eq. unfold try at 1. rewrite Hupd. cbv beta iota. unfold mret at 1, io_ret at 1. cbv beta iota.
  assert (∀ w, ∃ w', andAlso (updateGKENetworkParamSet p) None w = (Ret None, w')) as Ha.
  { intros w5. apply andAlso_ok. unfold updateGKENetworkParamSet. rewrite io_bind_eq. unfold try. specialize (Hu p w5).
    by destruct (GNPs_Update p w5) as [[]]. }
  assert (∀ w, ∃ w', andAlso (updateGKENetworkParamSetStatus p) None w = (Ret None, w')) as Hb.
  { intros w5. apply andAlso_ok. unfold updateGKENetworkParamSetStatus. rewrite io_bind_eq. unfold try. specialize (Hus p w5).
    by destruct (GNPs_UpdateStatus p w5) as [[]]. }
  rewrite io_bind_eq. case_bool_decide.
  - rewrite io_bind_eq. destruct (Hb w4) as [w5 ->]. destruct (Ha w5) as [w6 ->]. done.
  - case_bool_decide; [destruct (Ha w4) as [w6 ->]|]; done.
Qed.

(** ** FakeGnp: a world to evaluate the GKENetworkParamSet controller on

    Answers come from fixed tables and writes succeed; the state only says
    whether the node lister works.  The witnesses of [GnpProps] run on it. *)

Inductive FakeGnp : Type := Working | ListerDown.

Definition table {A} (l : list (string * A)) (k : string) : outcome A :=
  match (list_to_map l : gmap string A) !! k with Some a => Ret a | None => Err (ErrStatus ReasonNotFound) end.

Definition fg_spec (vpc subnet mode : string) (ranges : option (list string)) : GNPSpec := mkGNPSpec vpc subnet mode ranges.
Definition fg_gnp (name : string) (fin : list string) (del : option Z) (t : Z) (s : GNPSpec) (network : string) : GKENetworkParamSet :=
  mkGNP name (Some ∅) (Some {[ labelsAddonManagerMode := ensureExistsMode ]}) fin del t s (mkGNPStatus None [] network).

Definition gnp_default : GKENetworkParamSet :=
  fg_gnp "default" [] None 1 (fg_spec "vpc0" "sub0" EmptyString (Some ["pods"; "extra"]%string)) EmptyString.
Definition gnp_dev1 : GKENetworkParamSet := fg_gnp "dev1" [] None 2 (fg_spec "vpc1" "sub1" "NetDevice" None) EmptyString.
Definition gnp_dev2 : GKENetworkParamSet := fg_gnp "dev2" [] None 3 (fg_spec "vpc2" "sub2" "NetDevice" None) EmptyString.
(** Being deleted, still used by the network [green]. *)
Definition gnp_green : GKENetworkParamSet :=
  fg_gnp "green" [GNPFinalizer] (Some 9) 4 (fg_spec "vpc3" "sub3" "NetDevice" None) "green".
Definition fg_gnps : list GKENetworkParamSet := [gnp_default; gnp_dev1; gnp_dev2; gnp_green].

Definition fg_net (name gnp : string) (ann : gmap string string) : Network :=
  mkNetwork name ann "L3" (Some (mkParametersRef "networking.gke.io" "GKENetworkParamSet" gnp)) [].
Definition fg_networks : list Network :=
  [fg_net "default" "default" ∅; fg_net "green" "green" {[ NetworkInUseAnnotationKey := NetworkInUseAnnotationValTrue ]}].

Definition fg_subnet : Subnetwork :=
  mkSubnetwork "sub0" "10.0.0.0/20" [mkSecondary "pods" "10.8.0.0/14"; mkSecondary "extra" "10.20.0.0/16"].

Definition fg_node (range : string) : Node :=
  mkNode "n1" "n1" ∅ {[ NodePoolPodRangeLabelPrefix := range ]} (mkSpec EmptyString [] EmptyString []) (mkStatus ∅ []).

#[global] Instance FakeGnp_kube : KubeClient FakeGnp := {
  Nodes_Get name := λ w, (Err (ErrStatus ReasonNotFound), w);
  Nodes_List := λ w, (Ret [], w);
  Nodes_Patch _ _ := λ w, (Ret tt, w);
  NodeLister_Get _ := λ w, (Err (ErrStatus ReasonNotFound), w);
  NodeLister_List := λ w, (match w with Working => Ret [fg_node "extra"; fg_node "more"] | ListerDown => Err (Errorf "lister") end, w);
  Recorder_Eventf _ _ := λ w, (Ret tt, w);
  Clock_Now := λ w, (Ret 7, w)
}.
#[global] Instance FakeGnp_net : NetClient FakeGnp := {
  NetworkLister_List := λ w, (Ret fg_networks, w);
  GNPLister_Get name := λ w, (table ((λ g, (gnp_Name g, g)) <$> fg_gnps) name, w);
  Networks_Get name := λ w, (table ((λ n, (nw_Name n, n)) <$> fg_networks) name, w);
  Networks_UpdateStatus _ := λ w, (Ret tt, w);
  GNPs_List := λ w, (Ret fg_gnps, w);
  GNPs_Update _ := λ w, (Ret tt, w);
  GNPs_UpdateStatus _ := λ w, (Ret tt, w)
}.
#[global] Instance FakeGnp_subnet : SubnetClient FakeGnp := {
  GetSubnetwork _ _ := λ w, (Ret (Some fg_subnet), w);
  GetNetwork _ := λ w, (Ret (Some tt), w)
}.

Definition fg_gce : gceCloud := mkGCE "r" "https://www.googleapis.com/compute/v1/projects/p/global/networks/vpc0"
  "https://www.googleapis.com/compute/v1/projects/p/regions/r/subnetworks/sub0" false.
Definition fg_controller : Controller := mkController newQueue fg_gce "10.8.0.0/14" ∅ 0.

(** ** Witnesses *)

Lemma validateGKENetworkParamSet_accepts_witness :
  VPC (gnp_Spec gnp_default) ≠ EmptyString ∧ (range_mode_ok gnp_default fg_subnet ∨ device_mode_ok fg_gce gnp_default fg_gnps).
Proof.
  apply (validateGKENetworkParamSet_accepts fg_gce gnp_default fg_subnet fg_gnps Working).
  - intros w. reflexivity.
  - intros w. reflexivity.
  - eexists _, _. split; [vm_compute; reflexivity|reflexivity].
Defined.

Lemma device_mode_exclusive_witness :
  (VPC (gnp_Spec gnp_dev1) ≠ VPC (gnp_Spec gnp_dev2) ∧ VPCSubnet (gnp_Spec gnp_dev1) ≠ VPCSubnet (gnp_Spec gnp_dev2)) ∨
  CreationTimestamp gnp_dev1 = CreationTimestamp gnp_dev2.
Proof.
  assert (∀ g, DeviceMode (gnp_Spec g) = "NetDevice"%string → g = gnp_dev1 ∨ g = gnp_dev2 →
    ∃ v, validateGKENetworkParamSet fg_gce g fg_subnet Working = (Ret v, Working) ∧ IsValid v = true) as Hv.
  { intros g _ [-> | ->]; eexists; (split; [vm_compute; reflexivity|reflexivity]). }
  destruct (Hv gnp_dev1 eq_refl (or_introl eq_refl)) as (v1 & E1 & V1).
  destruct (Hv gnp_dev2 eq_refl (or_intror eq_refl)) as (v2 & E2 & V2).
  refine (device_mode_exclusive fg_gce gnp_dev1 gnp_dev2 fg_subnet fg_subnet fg_gnps Working Working Working Working v1 v2
    _ _ _ _ _ _ E1 V1 E2 V2).
  - intros w. reflexivity.
  - right. left.
  - right. right. left.
  - discriminate.
  - discriminate.
  - discriminate.
Defined.

Lemma syncGNP_finalizer_witness :
  syncGNP fg_controller gnp_green Working = (Ret (gnp_green, None), Working) ∧ GNPFinalizer ∈ Finalizers gnp_green.
Proof.
  assert (syncGNP fg_controller gnp_green Working = (Ret (gnp_green, None), Working)) as E by (vm_compute; reflexivity).
  split; [exact E|].
  destruct (syncGNP_finalizer fg_controller gnp_green Working Working gnp_green None) as [_ [_ Hf]].
  - apply NoDup_singleton.
  - exact E.
  - apply (Hf eq_refl). split; [left|]. split; [discriminate|].
    eexists. split; [vm_compute; reflexivity|]. split; vm_compute; reflexivity.
Defined.

Lemma syncPodRanges_collects_witness :
  ∃ l, syncPodRanges gnp_default Working = (Ret (with_spec (mkGNPSpec "vpc0" "sub0" EmptyString (Some l)) gnp_default), Working) ∧
    NoDup l ∧ ∀ r, r ∈ l ↔ r ∈ ["pods"; "extra"]%string ∨ ∃ n, n ∈ [fg_node "extra"; fg_node "more"] ∧ nodeRange n r.
Proof.
  destruct (syncPodRanges_collects gnp_default Working Working ["pods"; "extra"]%string [fg_node "extra"; fg_node "more"])
    as (l & Hl & Hn & _ & Hr).
  - reflexivity.
  - apply NoDup_cons. split; [|apply NoDup_singleton]. intros Hin. apply list_elem_of_singleton in Hin. discriminate.
  - reflexivity.
  - exists l. exact (conj Hl (conj Hn Hr)).
Defined.

(** The lister is down, so the ranges of the nodes are not collected. *)
Lemma default_sync_error_lost_witness : (reconcile "default" (fg_controller, ListerDown)).1 = Ret tt.
Proof.
  eapply (default_sync_error_lost fg_controller "default" ListerDown ListerDown ListerDown ListerDown ListerDown gnp_default).
  - vm_compute; reflexivity.
  - reflexivity.
  - discriminate.
  - vm_compute; reflexivity.
  - vm_compute; reflexivity.
  - reflexivity.
  - vm_compute; reflexivity.
  - vm_compute; reflexivity.
  - intros g w. reflexivity.
  - intros g w. reflexivity.
Defined.
