(* ===== verification/NodeIpamConfig.v ===== *)
(** * NodeIpamConfig: starting node IPAM

    [cmd/cloud-controller-manager/nodeipamcontroller.go],
    [pkg/controller/nodeipam/node_ipam_controller.go], [legacyprovider.go] and
    [New] of [ipam/cidr_allocator.go]: from the flags of the controller manager
    to one of the three allocators.  [klog.Fatal] ends the process and is
    modelled as a panic. *)

From S2P Require Import Prelude Bits GoNet GoNetText NetUtils CidrSet CidrSetIndex CidrSetOps CidrPool K8s RangeAllocator GceInstances.
From S2P Require Import NetworkAPI WorkQueue MultiNetwork Timeout NodeSync CloudCidrAllocator CloudProps IpamController RangeSystem.
Local Open Scope Z_scope.

(** ** [strings.TrimSpace] *)

(** The UTF-8 encodings of the runes of [unicode.IsSpace]. *)
Definition enc (l : list N) : string := fold_right (λ n s, String (Ascii.ascii_of_N n) s) EmptyString l.
Definition spaces : list string :=
  (enc <$> [[9]; [10]; [11]; [12]; [13]; [32]; [194; 133]; [194; 160]; [225; 154; 128];
            [226; 128; 168]; [226; 128; 169]; [226; 128; 175]; [226; 129; 159]; [227; 128; 128]]%N)
  ++ ((λ i, enc [226; 128; i]%N) <$> [128; 129; 130; 131; 132; 133; 134; 135; 136; 137; 138]%N).

Definition cut_space (sps : list string) (s : string) : option string :=
  match list_find (λ sp, String.prefix sp s = true) sps with
  | Some (_, sp) => Some (String.substring (String.length sp) (String.length s - String.length sp) s)
  | None => None
  end.
Fixpoint trim_with (sps : list string) (fuel : nat) (s : string) : string :=
  match fuel with
  | O => s
  | S fuel => match cut_space sps s with Some r => trim_with sps fuel r | None => s end
  end.
Fixpoint string_rev (s acc : string) : string :=
  match s with EmptyString => acc | String c s => string_rev s (String c acc) end.
Definition rev_str (s : string) : string := string_rev s EmptyString.
Definition TrimSpace (s : string) : string :=
  let l := trim_with spaces (String.length s) s in
  rev_str (trim_with (rev_str <$> spaces) (String.length l) (rev_str l)).

(** ** Configuration *)
Definition RangeAllocatorType : string := "RangeAllocator".
Definition CloudAllocatorType : string := "CloudAllocator".
Definition IPAMFromClusterAllocatorType : string := "IPAMFromCluster".
Definition IPAMFromCloudAllocatorType : string := "IPAMFromCloud".

Record NodeIPAMControllerConfiguration : Type := mkIPAMConfig {
  cfg_ServiceCIDR : string;
  cfg_SecondaryServiceCIDR : string;
  NodeCIDRMaskSize : Z;
  NodeCIDRMaskSizeIPv4 : Z;
  NodeCIDRMaskSizeIPv6 : Z
}.

(** The fields of [KubeCloudShared] that are read. *)
Record KubeCloudShared : Type := mkShared {
  AllocateNodeCIDRs : bool; ClusterCIDR : string; CIDRAllocatorType : string
}.

Definition defaultNodeMaskCIDRIPv4 : Z := 24.
Definition defaultNodeMaskCIDRIPv6 : Z := 64.

Definition comma : Ascii.ascii := chr 44.
Definition processCIDRs (cidrsList : string) : outcome (list IPNet * bool) :=
  cidrs ← ParseCIDRs (split_on comma (TrimSpace cidrsList));
  Ret (cidrs, match IsDualStackCIDRs (Some <$> cidrs) with Ret b => b | _ => false end).

Definition sortedSizes (clusterCIDRs : list IPNet) (maskSizeIPv4 maskSizeIPv6 : Z) : list Z :=
  (λ c, if IsIPv6CIDR (Some c) then maskSizeIPv6 else maskSizeIPv4) <$> clusterCIDRs.

(** A flag that is set replaces the default. *)
Definition orDefault (flag def : Z) : Z := if flag =? 0 then def else flag.

Definition setNodeCIDRMaskSizes (cfg : NodeIPAMControllerConfiguration) (clusterCIDRs : list IPNet) : outcome (list Z) :=
  let ipv4Mask := orDefault (NodeCIDRMaskSizeIPv4 cfg) defaultNodeMaskCIDRIPv4 in
  let ipv6Mask := orDefault (NodeCIDRMaskSizeIPv6 cfg) defaultNodeMaskCIDRIPv6 in
  if (1 <? length clusterCIDRs)%nat then
    if negb (NodeCIDRMaskSize cfg =? 0)
    then Err (ErrSentinel "usage of --node-cidr-mask-size is not allowed with dual-stack clusters")
    else Ret (sortedSizes clusterCIDRs ipv4Mask ipv6Mask)
  else match clusterCIDRs with
  | [] => Panic
  | _ =>
      if negb (NodeCIDRMaskSize cfg =? 0) then
        if negb (NodeCIDRMaskSizeIPv4 cfg =? 0) || negb (NodeCIDRMaskSizeIPv6 cfg =? 0)
        then Err (ErrSentinel "usage of --node-cidr-mask-size-ipv4 and --node-cidr-mask-size-ipv6 is not allowed if --node-cidr-mask-size is set.")
        else Ret (sortedSizes clusterCIDRs (NodeCIDRMaskSize cfg) (NodeCIDRMaskSize cfg))
      else Ret (sortedSizes clusterCIDRs ipv4Mask ipv6Mask)
  end.

(** ** Building the controller *)
Inductive allocator : Type :=
| AllocRange (r : rangeAllocator CidrSet)
| AllocCloud (ca : cloudCIDRAllocator)
| AllocLegacy (c : Controller CidrSet).

Definition millisecond : Z := 1000000.
Definition ipamResyncInterval : Z := 30000 * millisecond.
Definition ipamMaxBackoff : Z := 10000 * millisecond.
Definition ipamInitialBackoff : Z := 250 * millisecond.

Section start.
Context {W : Type} `{KubeClient W}.
(** The cloud provider is the GCE one. *)
Variable isGCE : bool.

Definition ipam_New (allocatorType : string) (params : CIDRAllocatorParams) : io W allocator :=
  nodeList ← listNodes;
  if bool_decide (allocatorType = RangeAllocatorType) then
    r ← NewCIDRRangeAllocator params (Some nodeList); mret (AllocRange r)
  else if bool_decide (allocatorType = CloudAllocatorType) then
    ca ← lift (NewCloudCIDRAllocator isGCE params); mret (AllocCloud ca)
  else fail (Errorf "invalid CIDR allocator type: %v").

(** Errors are fatal. *)
Definition fatal {A} (m : io W A) : io W A := r ← try m; match r with inl _ => lift Panic | inr a => mret a end.

Definition startLegacyIPAM (allocatorType : string) (clusterCIDRs : list IPNet) (serviceCIDR : option IPNet)
    (nodeCIDRMaskSizes : list Z) : io W allocator :=
  let mode := if bool_decide (allocatorType = IPAMFromClusterAllocatorType) then SyncFromCluster else SyncFromCloud in
  let cfg := mkConfig ipamResyncInterval ipamMaxBackoff ipamInitialBackoff mode in
  match nodeCIDRMaskSizes with
  | [] => lift Panic
  | size :: _ =>
      ipamc ← fatal (lift (NewController cfg isGCE (head clusterCIDRs) serviceCIDR size));
      c ← fatal (Start ipamc); mret (AllocLegacy c)
  end.

(** A cluster CIDR longer than the node mask is fatal. *)
Fixpoint masksOk (clusterCIDRs : list IPNet) (nodeCIDRMaskSizes : list Z) : outcome unit :=
  match clusterCIDRs with
  | [] => Ret tt
  | cidr :: cidrs =>
      match nodeCIDRMaskSizes with
      | [] => Panic
      | size :: sizes => if size <? (IPMask_Size (net_Mask cidr)).1 then Panic else masksOk cidrs sizes
      end
  end.

Definition NewNodeIpamController (clusterCIDRs : list IPNet) (serviceCIDR secondaryServiceCIDR : option IPNet)
    (nodeCIDRMaskSizes : list Z) (allocatorType : string) : io W allocator :=
  _ ← lift (if bool_decide (allocatorType ≠ CloudAllocatorType) then
              if bool_decide (clusterCIDRs = []) then Panic else masksOk clusterCIDRs nodeCIDRMaskSizes
            else Ret tt);
  if bool_decide (allocatorType = IPAMFromClusterAllocatorType) || bool_decide (allocatorType = IPAMFromCloudAllocatorType)
  then startLegacyIPAM allocatorType clusterCIDRs serviceCIDR nodeCIDRMaskSizes
  else ipam_New allocatorType (mkParams clusterCIDRs serviceCIDR secondaryServiceCIDR nodeCIDRMaskSizes).

(** A service CIDR that cannot be parsed is reported and treated as absent. *)
Definition serviceRange (s : string) : option IPNet :=
  if bool_decide (TrimSpace s = EmptyString) then None
  else match ParseCIDR s with Ret n => Some n | _ => None end.

Definition startNodeIpamController (shared : KubeCloudShared) (cfg : NodeIPAMControllerConfiguration) : io W allocator :=
  if negb (AllocateNodeCIDRs shared) then fail (Errorf "the AllocateNodeCIDRs is not enabled")
  else
    '(clusterCIDRs, dualStack) ← lift (processCIDRs (ClusterCIDR shared));
    if (1 <? length clusterCIDRs)%nat && negb dualStack
    then fail (Errorf "len of ClusterCIDRs==%v and they are not configured as dual stack (at least one from each IPFamily")
    else if (2 <? length clusterCIDRs)%nat
    then fail (Errorf "len of clusters cidrs is:%v > more than max allowed of 2")
    else
      let serviceCIDR := serviceRange (cfg_ServiceCIDR cfg) in
      let secondaryServiceCIDR := serviceRange (cfg_SecondaryServiceCIDR cfg) in
      _ ← match serviceCIDR, secondaryServiceCIDR with
          | Some _, Some _ =>
              match IsDualStackCIDRs [serviceCIDR; secondaryServiceCIDR] with
              | Ret true => mret tt
              | Ret false => fail (Errorf "serviceCIDR and secondaryServiceCIDR are not dualstack (from different IPfamiles)")
              | _ => fail (Errorf "failed to perform dualstack check on serviceCIDR and secondaryServiceCIDR error:%v")
              end
          | _, _ => mret tt
          end;
      nodeCIDRMaskSizes ← lift (setNodeCIDRMaskSizes cfg clusterCIDRs);
      NewNodeIpamController clusterCIDRs serviceCIDR secondaryServiceCIDR nodeCIDRMaskSizes (CIDRAllocatorType shared).
End start.

Example trim_demo : TrimSpace (enc [32; 194; 160; 9]%N +:+ "10.0.0.0/8" +:+ enc [226; 128; 131; 10]%N) = "10.0.0.0/8"%string.
Proof. by vm_compute. Qed.

(** ** What a started controller was configured with *)

Lemma masksOk_spec cidrs : ∀ sizes, masksOk cidrs sizes = Ret tt → ∀ i c s, cidrs !! i = Some c → sizes !! i = Some s →
  (IPMask_Size (net_Mask c)).1 <= s.
Proof.
  induction cidrs as [|c cidrs IH]; intros sizes Hm i x s; [done|]. simpl in Hm. destruct sizes as [|k sizes]; [done|].
  destruct (Z.ltb_spec k (IPMask_Size (net_Mask c)).1); [done|]. destruct i as [|i]; simpl; [naive_solver|]. by apply IH.
Qed.

(** The mask size of a family under the flags. *)
Definition familyMask (cfg : NodeIPAMControllerConfiguration) (v6 : bool) : Z :=
  if negb (NodeCIDRMaskSize cfg =? 0) then NodeCIDRMaskSize cfg
  else if v6 then orDefault (NodeCIDRMaskSizeIPv6 cfg) defaultNodeMaskCIDRIPv6
  else orDefault (NodeCIDRMaskSizeIPv4 cfg) defaultNodeMaskCIDRIPv4.

Lemma setNodeCIDRMaskSizes_spec cfg cidrs sizes : setNodeCIDRMaskSizes cfg cidrs = Ret sizes →
  cidrs ≠ [] ∧ sizes = (λ c, familyMask cfg (IsIPv6CIDR (Some c))) <$> cidrs ∧
  ((1 < length cidrs)%nat → NodeCIDRMaskSize cfg = 0).
Proof.
  unfold setNodeCIDRMaskSizes, sortedSizes, familyMask. cbv zeta. destruct (Nat.ltb_spec 1 (length cidrs)) as [Hl|Hl].
  - destruct (Z.eqb_spec (NodeCIDRMaskSize cfg) 0) as [E|E]; [|done]. cbn [negb]. intros [= <-].
    split_and!; [intros ->; simpl in Hl; lia|done|done].
  - destruct cidrs as [|c cidrs]; [done|].
    destruct (Z.eqb_spec (NodeCIDRMaskSize cfg) 0) as [E|E]; cbn [negb].
    + intros [= <-]. split_and!; [done|done|lia].
    + destruct (_ || _); [done|]. intros Hq%(f_equal (λ o, match o with Ret l => l | _ => [] end)). cbv beta iota in Hq.
      rewrite <- Hq. split_and!; [done| |lia]. apply list_fmap_ext. intros i x _. by destruct (IsIPv6CIDR _).
Qed.

Lemma processCIDRs_spec {W} s (w w' : W) cidrs dual : lift (processCIDRs s) w = (Ret (cidrs, dual), w') →
  ParseCIDRs (split_on comma (TrimSpace s)) = Ret cidrs ∧ (dual = true → IsDualStackCIDRs (Some <$> cidrs) = Ret true) ∧ w' = w.
Proof.
  unfold lift, processCIDRs. destruct (ParseCIDRs _) as [l| |]; [|done..]. intros [= <- <- <-]. split_and!; try done.
  by destruct (IsDualStackCIDRs _) as [[]| |].
Qed.

Lemma NewNodeIpamController_masks {W} `{KubeClient W} isGCE cidrs svc svc2 sizes ty (w w' : W) a :
  NewNodeIpamController isGCE cidrs svc svc2 sizes ty w = (Ret a, w') → ty ≠ CloudAllocatorType → masksOk cidrs sizes = Ret tt.
Proof.
  unfold NewNodeIpamController. intros ([] & w1 & Hm & _)%io_bind_Ret Hty. unfold lift in Hm.
  rewrite bool_decide_eq_true_2 in Hm by done. case_bool_decide; [done|]. by injection Hm.
Qed.

(** What no method of a set changes: its cluster CIDR and its node mask. *)
Definition shape (s : CidrSet) : IPNet * Z := (clusterCIDR s, nodeMaskSize s).

Lemma forRange_shape f a b s : (∀ s i, shape (f s i) = shape s) → shape (forRange f a b s) = shape s.
Proof. intros Hf. unfold forRange. revert s. induction (seqZ a _) as [|i l IH]; intros s; [done|]. simpl. by rewrite IH. Qed.
Lemma Occupy_shape s c : shape (Occupy s c).2 = shape s.
Proof.
  unfold Occupy. destruct (getBeginingAndEndIndices s c) as [[a b]| |]; [|done..]. simpl.
  apply forRange_shape. intros x i. unfold occupyBit. by destruct (Z.testbit _ _).
Qed.
Lemma Release_shape s c : shape (Release s c).2 = shape s.
Proof.
  unfold Release. destruct (getBeginingAndEndIndices s c) as [[a b]| |]; [|done..]. simpl.
  apply forRange_shape. intros x i. unfold releaseBit. by destruct (Z.testbit _ _).
Qed.
Lemma AllocateNext_shape s : shape (AllocateNext s).2 = shape s.
Proof. unfold AllocateNext. destruct (_ =? _); [done|]. destruct (findCandidate _ _ _ _ _). by destruct (_ =? 0). Qed.
Lemma NewCIDRSet_shape c k s : NewCIDRSet (Some c) k = Ret s → shape s = (c, k).
Proof. unfold NewCIDRSet. destruct (IPMask_Size _). destruct (_ && _); [done|]. by intros [= <-]. Qed.

(** ** The range allocator's sets *)
Section steady.
Context {W : Type} `{KubeClient W}.

(** The steps of the range allocator's start-up keep the shape of every set. *)
Definition steady {A} (m : io (rangeAllocator CidrSet * W) A) : Prop :=
  ∀ st, shape <$> cidrSets (m st).2.1 = shape <$> cidrSets st.1.

Lemma steady_bind {A B} (m : io _ A) (f : A → io _ B) : steady m → (∀ a, steady (f a)) → steady (m ≫= f).
Proof. intros Hm Hf st. rewrite io_bind_eq. specialize (Hm st). destruct (m st) as [[a| |] st']; [|done..]. by rewrite Hf. Qed.
Lemma steady_try {A} (m : io _ A) : steady m → steady (try m).
Proof. intros Hm st. unfold try. specialize (Hm st). by destruct (m st) as [[a| |] st']. Qed.
Lemma steady_ret {A} (a : A) : steady (mret a).
Proof. done. Qed.
Lemma steady_fail {A} e : steady (fail (A := A) e).
Proof. done. Qed.
Lemma steady_lift {A} (o : outcome A) : steady (lift o).
Proof. done. Qed.
Lemma steady_num : steady numSets.
Proof. by intros []. Qed.
Lemma steady_occupy idx c : steady (withSet idx (λ p, pool_occupy p c)).
Proof.
  intros [r w]. unfold withSet. destruct (cidrSets r !! idx) as [p|] eqn:E; [|done].
  pose proof (Occupy_shape p c) as Hs. change (pool_occupy p c) with (Occupy p c).
  destruct (Occupy p c) as [o p']. simpl in *. rewrite list_fmap_insert, Hs. apply list_insert_id. by rewrite list_lookup_fmap, E.
Qed.

Lemma steady_filterLoop svc cidrs : ∀ idx, steady (filterLoop svc idx cidrs).
Proof.
  induction cidrs as [|c cidrs IH]; intros idx; simpl; [apply steady_ret|]. destruct (_ && _); [apply IH|].
  apply steady_bind; [apply steady_try, steady_occupy|intros; apply IH].
Qed.
Lemma steady_occupyLoop cidrs : ∀ idx, steady (occupyLoop idx cidrs).
Proof.
  induction cidrs as [|c cidrs IH]; intros idx; simpl; [apply steady_ret|].
  apply steady_bind; [apply steady_try, steady_lift|]. intros [e|n]; [apply steady_fail|].
  apply steady_bind; [apply steady_num|]. intros k. destruct (_ <=? _)%nat; [apply steady_fail|].
  apply steady_bind; [apply steady_try, steady_occupy|]. intros [e|u]; [apply steady_fail|apply IH].
Qed.
Lemma steady_occupyNodes nodes : steady (occupyNodes nodes).
Proof.
  induction nodes as [|n nodes IH]; simpl; [apply steady_ret|]. case_bool_decide as Hp; [done|].
  apply steady_bind; [|done]. intros st. unfold occupyCIDRs, defer. rewrite bool_decide_eq_false_2 by done.
  pose proof (steady_occupyLoop (PodCIDRs (Spec n)) 0 st) as Hs. by destruct (occupyLoop _ _ _) as [o []].
Qed.
Lemma steady_init params nodes : steady (initAllocator params nodes).
Proof.
  assert (∀ svc, steady (filterOptional svc)) as Hf by (intros [c|] [r w]; [apply steady_filterLoop|done]).
  apply steady_bind; [apply Hf|intros _]. apply steady_bind; [apply Hf|intros _].
  destruct nodes; [apply steady_occupyNodes|apply steady_ret].
Qed.
End steady.

Lemma newSets_shape cidrs : ∀ sizes sets, newSets cidrs sizes = Ret sets → shape <$> sets = zip cidrs sizes.
Proof.
  induction cidrs as [|c cidrs IH]; intros sizes sets; cbn [newSets zip zip_with]; [by intros [= <-]|].
  destruct sizes as [|k sizes]; [done|].
  destruct (NewCIDRSet (Some c) k) as [s| |] eqn:Es; [|done..]. destruct (newSets cidrs sizes) as [ss| |] eqn:E; [|done..].
  intros [= <-]. cbn [zip zip_with fmap list_fmap]. by rewrite (NewCIDRSet_shape _ _ _ Es), (IH _ _ E).
Qed.
Lemma NewCIDRRangeAllocator_shape {W} `{KubeClient W} params nodes (w w' : W) r :
  NewCIDRRangeAllocator params nodes w = (Ret r, w') → shape <$> cidrSets r = zip (ClusterCIDRs params) (NodeCIDRMaskSizes params).
Proof.
  unfold NewCIDRRangeAllocator. destruct (newSets _ _) as [sets| |] eqn:Es; [|done..].
  pose proof (steady_init params nodes (mkRA (ClusterCIDRs params) sets [] ∅, w)) as Hs.
  destruct (initAllocator _ _ _) as [[u| |] [r1 w1]]; [|done..]. intros [= <- _]. simpl in Hs. rewrite Hs. by apply newSets_shape.
Qed.

(** ** The legacy controller's set *)
Lemma NewController_shape config g c svc k ctl : NewController config g (Some c) svc k = Ret ctl → shape (c_set ctl) = (c, k).
Proof.
  unfold NewController. destruct (negb _); [done|]. destruct (negb g); [done|].
  destruct (NewCIDRSet (Some c) k) as [s| |] eqn:Es; [|done..]. apply NewCIDRSet_shape in Es. cbn [mbind outcome_bind].
  assert (∀ o s', occupyServiceCIDR s (Some c) svc = (o, s') → shape s' = (c, k)) as Ho.
  { unfold occupyServiceCIDR. destruct svc as [v|]; [|by intros ? ? [= <- <-]]. destruct (_ || _); [|by intros ? ? [= <- <-]].
    intros o s' E. rewrite <- Es, <- (Occupy_shape s (Some v)). change (Occupy s (Some v) = (o, s')) in E. by rewrite E. }
  destruct (occupyServiceCIDR s (Some c) svc) as [[u| |] s1]; [|done..]. specialize (Ho _ _ eq_refl).
  unfold checkRemaining. change (pool_alloc s1) with (AllocateNext s1). pose proof (AllocateNext_shape s1) as Ha.
  destruct (AllocateNext s1) as [[n| |] s2]; [|by destruct (bool_decide _)|done].
  change (pool_release s2 (Some n)) with (Release s2 (Some n)). pose proof (Release_shape s2 (Some n)) as Hr.
  destruct (Release s2 (Some n)) as [[v| |] s3]; [|done..]. cbn [mbind outcome_bind]. intros [= <-]. simpl in *. congruence.
Qed.
Lemma startNodes_shape nodes : ∀ c c' : Controller CidrSet, startNodes c nodes = Ret c' → shape (c_set c') = shape (c_set c).
Proof.
  induction nodes as [|n nodes IH]; intros c c'; simpl; [by intros [= <-]|].
  assert (∀ c1, startNode c n = Ret c1 → shape (c_set c1) = shape (c_set c)) as Hn.
  { intros c1. unfold startNode. case_bool_decide; [by intros [= <-]|]. destruct (ParseCIDR _) as [r| |]; [|by intros [= <-]|done].
    change (pool_occupy (c_set c) (Some r)) with (Occupy (c_set c) (Some r)). pose proof (Occupy_shape (c_set c) (Some r)) as Ho.
    destruct (Occupy _ _) as [[]]; [by intros [= <-]..|done]. }
  destruct (startNode c n) as [c1| |]; [|done..]. cbn. intros E%IH. by rewrite E, Hn.
Qed.

(** ** The cloud allocator's stack *)
Definition serviceFamilies (svc svc2 : option IPNet) : list IPFamily :=
  match svc, svc2 with
  | Some _, Some _ => [IPFamilyOfCIDR svc; IPFamilyOfCIDR svc2]
  | Some _, None => [if IsIPv6CIDR svc then IPv6 else IPv4]
  | None, _ => [IPv4]
  end.

Lemma isIP4_family n : isIP4 (Some n) = bool_decide (IPFamilyOf (net_IP n) = IPv4).
Proof.
  unfold isIP4, IPFamilyOf. destruct (bool_decide_reflect (net_IP n = [])) as [->|]; [by rewrite bool_decide_eq_false_2|].
  destruct (To4 _); [done|]. by destruct (To16 _).
Qed.
Lemma isIP6_family n : isIP6 (Some n) = bool_decide (IPFamilyOf (net_IP n) = IPv6).
Proof.
  unfold isIP6, IPFamilyOf. destruct (bool_decide_reflect (net_IP n = [])) as [->|]; [by rewrite bool_decide_eq_false_2|].
  destruct (To4 _); [done|]. by destruct (To16 _).
Qed.
Lemma stackTypeOf_families params :
  (∀ a b, ServiceCIDR params = Some a → SecondaryServiceCIDR params = Some b → IsDualStackCIDRs [Some a; Some b] = Ret true) →
  stackFamilies (stackTypeOf params) = serviceFamilies (ServiceCIDR params) (SecondaryServiceCIDR params).
Proof.
  unfold stackTypeOf, serviceFamilies, IsIPv6CIDR. intros Hd. destruct (ServiceCIDR params) as [a|], (SecondaryServiceCIDR params) as [b|].
  - specialize (Hd _ _ eq_refl eq_refl). unfold IsDualStackCIDRs in Hd. simpl in Hd. rewrite !isIP4_family, !isIP6_family.
    simpl. by destruct (IPFamilyOf (net_IP a)), (IPFamilyOf (net_IP b)).
  - rewrite isIP4_family, isIP6_family. simpl. by destruct (IPFamilyOf (net_IP a)).
  - done.
  - done.
Qed.

(** What the started allocator was built with. *)
Definition configured (cidrs : list IPNet) (sizes : list Z) (svc svc2 : option IPNet) (a : allocator) : Prop :=
  match a with
  | AllocRange r => shape <$> cidrSets r = zip cidrs sizes
  | AllocLegacy c => head (zip cidrs sizes) = Some (shape (c_set c))
  | AllocCloud ca => stackFamilies (stackType ca) = serviceFamilies svc svc2
  end.

Lemma fatal_Ret {W A} (m : io W A) w a w' : fatal m w = (Ret a, w') → m w = (Ret a, w').
Proof. unfold fatal. rewrite io_bind_eq. unfold try. destruct (m w) as [[x| |] w1]; [|done..]. by intros [= <- <-]. Qed.

Lemma NewNodeIpamController_configured {W} `{KubeClient W} isGCE cidrs svc svc2 sizes ty (w w' : W) a : cidrs ≠ [] →
  (∀ a b, svc = Some a → svc2 = Some b → IsDualStackCIDRs [Some a; Some b] = Ret true) →
  NewNodeIpamController isGCE cidrs svc svc2 sizes ty w = (Ret a, w') → configured cidrs sizes svc svc2 a.
Proof.
  unfold NewNodeIpamController. intros Hne Hd (? & w1 & _ & Hr)%io_bind_Ret. destruct (_ || _).
  - unfold startLegacyIPAM in Hr. destruct sizes as [|k sizes]; [done|]. destruct cidrs as [|c cidrs]; [done|].
    apply io_bind_Ret in Hr as (ctl & w2 & Hn%fatal_Ret & Hr). injection Hn as Hn _. apply NewController_shape in Hn.
    apply io_bind_Ret in Hr as (c1 & w3 & Hst%fatal_Ret & Hr). injection Hr as <- _. unfold Start in Hst.
    apply io_bind_Ret in Hst as (nodes & w4 & _ & Hst). injection Hst as Hst _. apply startNodes_shape in Hst. simpl. congruence.
  - unfold ipam_New in Hr. apply io_bind_Ret in Hr as (nodes & w2 & _ & Hr). case_bool_decide.
    + apply io_bind_Ret in Hr as (r & w3 & Hn & Hr). injection Hr as <- _. by apply NewCIDRRangeAllocator_shape in Hn.
    + case_bool_decide; [|done]. apply io_bind_Ret in Hr as (ca & w3 & Hn & Hr). injection Hr as <- _. injection Hn as Hn _.
      unfold NewCloudCIDRAllocator in Hn. destruct isGCE; [|done]. injection Hn as <-. by apply (stackTypeOf_families (mkParams _ _ _ _)).
Qed.

(** Node IPAM only starts with one cluster CIDR or two of different
    families, with service ranges of different families when there are two, and
    with the node mask of each cluster CIDR's own family: the common flag (which
    two CIDRs exclude), the family's flag, or its default.  The CIDR sets of the
    range allocator are cut from exactly these, the legacy controller's from the
    first of them, and the cloud allocator's stack has the families of the
    service ranges.  Outside the cloud allocator no cluster CIDR is longer than
    its node mask. *)
Theorem startNodeIpamController_config {W} `{KubeClient W} isGCE shared cfg (w w' : W) a :
  startNodeIpamController isGCE shared cfg w = (Ret a, w') →
  ∃ cidrs sizes, ParseCIDRs (split_on comma (TrimSpace (ClusterCIDR shared))) = Ret cidrs ∧
    (length cidrs = 1%nat ∨ length cidrs = 2%nat ∧ IsDualStackCIDRs (Some <$> cidrs) = Ret true ∧ NodeCIDRMaskSize cfg = 0) ∧
    sizes = (λ c, familyMask cfg (IsIPv6CIDR (Some c))) <$> cidrs ∧
    configured cidrs sizes (serviceRange (cfg_ServiceCIDR cfg)) (serviceRange (cfg_SecondaryServiceCIDR cfg)) a ∧
    (∀ s1 s2, serviceRange (cfg_ServiceCIDR cfg) = Some s1 → serviceRange (cfg_SecondaryServiceCIDR cfg) = Some s2 →
       IsDualStackCIDRs [Some s1; Some s2] = Ret true) ∧
    (CIDRAllocatorType shared ≠ CloudAllocatorType → ∀ i c s, cidrs !! i = Some c → sizes !! i = Some s →
       (IPMask_Size (net_Mask c)).1 <= s).
Proof.
  unfold startNodeIpamController. destruct (AllocateNodeCIDRs shared); [|done]. cbn [negb].
  intros ([cidrs dual] & w1 & Hp & Hr)%io_bind_Ret. apply processCIDRs_spec in Hp as (Hparse & Hdual & _).
  destruct ((1 <? length cidrs)%nat && negb dual) eqn:E1; [done|].
  destruct (Nat.ltb_spec 2 (length cidrs)) as [|H2]; [done|].
  apply io_bind_Ret in Hr as ([] & w2 & Hsvc & Hr). apply io_bind_Ret in Hr as (sizes & w3 & Hsz & Hnew).
  unfold lift in Hsz. injection Hsz as Hsz _. apply setNodeCIDRMaskSizes_spec in Hsz as (Hne & -> & Hm).
  assert (∀ s1 s2, serviceRange (cfg_ServiceCIDR cfg) = Some s1 → serviceRange (cfg_SecondaryServiceCIDR cfg) = Some s2 →
       IsDualStackCIDRs [Some s1; Some s2] = Ret true) as Hds.
  { intros s1 s2 E E'. rewrite E, E' in Hsvc. by destruct (IsDualStackCIDRs [Some s1; Some s2]) as [[]| |]. }
  exists cidrs, ((λ c, familyMask cfg (IsIPv6CIDR (Some c))) <$> cidrs). split_and!; try done.
  - destruct (Nat.ltb_spec 1 (length cidrs)) as [H1|H1]; [right|left; destruct cidrs; [done|simpl in *; lia]].
    destruct dual; [|done]. split_and!; [lia|by apply Hdual|by apply Hm].
  - by eapply NewNodeIpamController_configured.
  - intros Hty. by eapply masksOk_spec, NewNodeIpamController_masks.
Qed.

(** ** Witness *)

Definition demo_shared : KubeCloudShared := mkShared true " 10.0.0.0/22,fd00::/56" RangeAllocatorType.
Definition demo_cfg : NodeIPAMControllerConfiguration := mkIPAMConfig "10.0.3.0/24" EmptyString 0 25 0.

Lemma startNodeIpamController_config_witness :
  is_ret (startNodeIpamController true demo_shared demo_cfg (cluster_of ["a"%string])).1 = true ∧
  ∃ cidrs, ParseCIDRs (split_on comma (TrimSpace (ClusterCIDR demo_shared))) = Ret cidrs ∧
    (length cidrs = 1%nat ∨ length cidrs = 2%nat ∧ IsDualStackCIDRs (Some <$> cidrs) = Ret true ∧ NodeCIDRMaskSize demo_cfg = 0).
Proof.
  assert (is_ret (startNodeIpamController true demo_shared demo_cfg (cluster_of ["a"%string])).1 = true) as Hr by (vm_compute; reflexivity).
  split; [exact Hr|].
  destruct (startNodeIpamController true demo_shared demo_cfg (cluster_of ["a"%string])) as [[a| |] w'] eqn:E; [|discriminate..].
  destruct (startNodeIpamController_config true demo_shared demo_cfg (cluster_of ["a"%string]) w' a E) as (cidrs & sizes & H1 & H2 & _).
  exists cidrs. exact (conj H1 H2).
Defined.
