(* ===== verification/AddressManager.v ===== *)
(** * AddressManager: reserving the address of a load balancer

    [providers/gce/gce_address_manager.go] over the interface
    [CloudAddressService] of [gce_interfaces.go], with the GCE implementation of
    that interface from [gce_addresses.go].  The compute API behind it is the
    class [AddressesAPI]; [AddressStore] states what is relied on there, and
    [AddressService] what the manager relies on in the interface. *)

From S2P Require Import Prelude Json K8s.
Local Open Scope Z_scope.

(** The fields of [compute.Address] the provider uses. *)
Record Address : Type := mkAddress {
  addr_Name : string;
  addr_Description : string;
  addr_Address : string;
  addr_Type : string;
  addr_Subnetwork : string;
  addr_NetworkTier : string
}.
#[global] Instance Address_eq_dec : EqDecision Address. Proof. solve_decision. Defined.

(** ** Errors of the compute API, [gce_util.go] *)
Definition StatusNotFound : Z := 404.
Definition StatusConflict : Z := 409.
Definition StatusBadRequest : Z := 400.

Definition isHTTPErrorCode (err : error) (code : Z) : bool :=
  match err with ErrGoogleAPI c | ErrGoogleReasons c _ => c =? code | ErrBeingUsedBy => StatusBadRequest =? code | _ => false end.
Definition isNotFound (err : error) : bool := isHTTPErrorCode err StatusNotFound.

(** [ignoreNotFound(m())]. *)
Definition ignoreNotFound {W} (m : io W unit) : io W unit :=
  r ← try m;
  match r with
  | inl err => if isNotFound err then mret tt else fail err
  | inr _ => mret tt
  end.
Definition makeGoogleAPINotFoundError : error := ErrGoogleAPI StatusNotFound.

(** ** The interface

    A call that returns a pointer and an error gives the object or a non-nil
    error.  [ReserveRegionAddress] gets a pointer: its value is the object that
    the pointer refers to after the call. *)
Class CloudAddressService (W : Type) : Type := {
  ReserveRegionAddress : Address → string → io W Address;
  GetRegionAddress : string → string → io W Address;
  GetRegionAddressByIP : string → string → io W Address;
  DeleteRegionAddress : string → string → io W unit
}.

(** ** The GCE implementation *)

(** [g.c.Addresses()]: keys are (name, region); [List] takes a region and a
    regular expression for the field [address]. *)
Class AddressesAPI (W : Type) : Type := {
  Addresses_Insert : string → string → Address → io W unit;
  Addresses_Get : string → string → io W Address;
  Addresses_List : string → string → io W (list Address);
  Addresses_Delete : string → string → io W unit
}.

Section cloud.
Context {W : Type} `{AddressesAPI W}.

Definition Cloud_ReserveRegionAddress (addr : Address) (region : string) : io W Address :=
  _ ← Addresses_Insert (addr_Name addr) region addr; mret addr.
Definition Cloud_GetRegionAddress (name region : string) : io W Address := Addresses_Get name region.
Definition Cloud_DeleteRegionAddress (name region : string) : io W unit := Addresses_Delete name region.

(** The loop over the listed addresses. *)
Fixpoint firstWithIP (ipAddress : string) (addrs : list Address) : option Address :=
  match addrs with
  | [] => None
  | addr :: addrs => if bool_decide (addr_Address addr = ipAddress) then Some addr else firstWithIP ipAddress addrs
  end.

Definition Cloud_GetRegionAddressByIP (region ipAddress : string) : io W Address :=
  addrs ← Addresses_List region ipAddress;
  match firstWithIP ipAddress addrs with
  | Some addr => mret addr
  | None => fail makeGoogleAPINotFoundError
  end.

Definition getNetworkTierFromAddress (name region : string) : io W string :=
  addr ← Cloud_GetRegionAddress name region; mret (addr_NetworkTier addr).

#[global] Instance Cloud_addresses : CloudAddressService W := {
  ReserveRegionAddress := Cloud_ReserveRegionAddress;
  GetRegionAddress := Cloud_GetRegionAddress;
  GetRegionAddressByIP := Cloud_GetRegionAddressByIP;
  DeleteRegionAddress := Cloud_DeleteRegionAddress
}.
End cloud.

(** ** The manager *)
Record addressManager : Type := mkAM {
  am_name : string;
  am_serviceName : string;
  am_targetIP : string;
  am_addressType : string;
  am_region : string;
  am_subnetURL : string;
  am_tryRelease : bool
}.

Definition newAddressManager (serviceName region subnetURL name targetIP addressType : string) : addressManager :=
  mkAM name serviceName targetIP addressType region subnetURL true.

Definition validateAddress (am : addressManager) (addr : Address) : outcome unit :=
  if bool_decide (am_targetIP am ≠ EmptyString) && bool_decide (am_targetIP am ≠ addr_Address addr)
  then Err (Errorf "address %q does not have the expected IP %q, actual: %q")
  else if bool_decide (addr_Type addr ≠ am_addressType am)
  then Err (Errorf "address %q does not have the expected address type %q, actual: %q")
  else Ret tt.

Definition isManagedAddress (am : addressManager) (addr : Address) : bool := bool_decide (addr_Name addr = am_name am).

Section manager.
Context {W : Type} `{CloudAddressService W}.

Abbreviation M := (io (addressManager * W)).

(** The receiver. *)
Definition receiver : M addressManager := λ st, (Ret st.1, st).
Definition clearTryRelease (am : addressManager) : addressManager :=
  mkAM (am_name am) (am_serviceName am) (am_targetIP am) (am_addressType am) (am_region am) (am_subnetURL am) false.

Definition serviceDescription (serviceName : string) : string :=
  (dq "{'kubernetes.io/service-name':'" +:+ serviceName +:+ dq "'}")%string.

Definition ensureAddressReservation : M string :=
  am ← receiver;
  let newAddr := mkAddress (am_name am) (serviceDescription (am_serviceName am)) (am_targetIP am) (am_addressType am)
                   (am_subnetURL am) EmptyString in
  r ← try (on_snd (ReserveRegionAddress newAddr (am_region am)));
  match r with
  | inr newAddr =>
      if bool_decide (addr_Address newAddr ≠ EmptyString) then mret (addr_Address newAddr)
      else addr ← on_snd (GetRegionAddress (addr_Name newAddr) (am_region am)); mret (addr_Address addr)
  | inl reserveErr =>
      if negb (isHTTPErrorCode reserveErr StatusConflict) && negb (isHTTPErrorCode reserveErr StatusBadRequest)
      then fail reserveErr
      else if bool_decide (am_targetIP am = EmptyString)
      then fail (Errorf "failed to reserve address %q with no specific IP, err: %v")
      else
        r ← try (on_snd (GetRegionAddressByIP (am_region am) (am_targetIP am)));
        match r with
        | inl _ => fail (Errorf "failed to get address by IP %q after reservation attempt, err: %q, reservation err: %q")
        | inr addr =>
            _ ← lift (validateAddress am addr);
            _ ← (if isManagedAddress am addr then mret tt else put (λ '(am, w), (clearTryRelease am, w)));
            mret (addr_Address addr)
        end
  end.

Definition HoldAddress : M string :=
  am ← receiver;
  r ← try (on_snd (GetRegionAddress (am_name am) (am_region am)));
  match r with
  | inl err => if negb (isNotFound err) then fail err else ensureAddressReservation
  | inr addr =>
      match validateAddress am addr with
      | Ret _ => mret (addr_Address addr)
      | _ =>
          d ← try (on_snd (DeleteRegionAddress (addr_Name addr) (am_region am)));
          match d with
          | inl err => if isNotFound err then ensureAddressReservation else fail err
          | inr _ => ensureAddressReservation
          end
      end
  end.

Definition ReleaseAddress : M unit :=
  am ← receiver;
  if negb (am_tryRelease am) then mret tt
  else
    r ← try (on_snd (DeleteRegionAddress (am_name am) (am_region am)));
    match r with
    | inl err => if isNotFound err then mret tt else fail err
    | inr _ => mret tt
    end.

Definition ensureAddressDeleted (name region : string) : io W unit := ignoreNotFound (DeleteRegionAddress name region).
End manager.
