(* ===== verification/AddressManagerProps.v ===== *)
(** * AddressManagerProps: the manager touches only its own address

    The contract of the compute API's address store, the proof that the GCE
    implementation of [CloudAddressService] meets the contract the manager is
    proved against, and the manager's round trip. *)

From S2P Require Import Prelude Json K8s AddressManager.
Local Open Scope Z_scope.

(** The API refused the request without acting on it. *)
Definition rejected (e : error) : bool := isHTTPErrorCode e StatusConflict || isHTTPErrorCode e StatusBadRequest.

(** [l'] is [l] with an address made from [a] under [key]: type and IP are those
    asked for, a missing IP is chosen by the API. *)
Definition inserted (key : string * string) (a : Address) (l l' : gmap (string * string) Address) : Prop :=
  l !! key = None ∧ ∃ x, l' = <[ key := x ]> l ∧ addr_Name x = key.2 ∧
    (addr_Type a ≠ EmptyString → addr_Type x = addr_Type a) ∧ (addr_Address a ≠ EmptyString → addr_Address x = addr_Address a).

(** What a creation request with answer [r] may have done. *)
Definition insert_effect {A : Type} (key : string * string) (a : Address) (l : gmap (string * string) Address)
    (r : outcome A) (l' : gmap (string * string) Address) : Prop :=
  match r with
  | Ret _ => inserted key a l l'
  | Err e => l' = l ∨ rejected e = false ∧ inserted key a l l'
  | Panic => l' = l ∨ inserted key a l l'
  end.

Definition delete_effect {A : Type} (key : string * string) (l : gmap (string * string) Address)
    (r : outcome A) (l' : gmap (string * string) Address) : Prop :=
  match r with
  | Ret _ => l' = delete key l
  | Err e => if isNotFound e then l' = l ∧ l !! key = None else l' = l ∨ l' = delete key l
  | Panic => l' = l ∨ l' = delete key l
  end.

Definition get_effect (key : string * string) (l : gmap (string * string) Address)
    (r : outcome Address) (l' : gmap (string * string) Address) : Prop :=
  l' = l ∧ match r with
           | Ret a => l !! key = Some a ∧ addr_Name a = key.2
           | Err e => isNotFound e = true → l !! key = None
           | Panic => True
           end.

(** What the provider relies on in the compute API; addresses are stored under
    (region, name). *)
Class AddressStore (W : Type) `{AddressesAPI W} : Type := {
  stored : W → gmap (string * string) Address;
  store_insert name region a w : let '(r, w') := Addresses_Insert name region a w in
    insert_effect (region, name) a (stored w) r (stored w');
  store_get name region w : let '(r, w') := Addresses_Get name region w in get_effect (region, name) (stored w) r (stored w');
  store_list region re w : let '(r, w') := Addresses_List region re w in
    stored w' = stored w ∧ ∀ l a, r = Ret l → a ∈ l → stored w !! (region, addr_Name a) = Some a;
  store_delete name region w : let '(r, w') := Addresses_Delete name region w in
    delete_effect (region, name) (stored w) r (stored w')
}.

(** What the manager relies on in the interface. *)
Class AddressService (W : Type) `{CloudAddressService W} : Type := {
  addresses : W → gmap (string * string) Address;
  service_reserve a region w : let '(r, w') := ReserveRegionAddress a region w in
    insert_effect (region, addr_Name a) a (addresses w) r (addresses w') ∧ ∀ a', r = Ret a' → a' = a;
  service_get name region w : let '(r, w') := GetRegionAddress name region w in
    get_effect (region, name) (addresses w) r (addresses w');
  service_by_ip region ip w : let '(r, w') := GetRegionAddressByIP region ip w in
    addresses w' = addresses w ∧
    ∀ a, r = Ret a → addresses w !! (region, addr_Name a) = Some a ∧ addr_Address a = ip;
  service_delete name region w : let '(r, w') := DeleteRegionAddress name region w in
    delete_effect (region, name) (addresses w) r (addresses w')
}.

Lemma firstWithIP_spec ip l a : firstWithIP ip l = Some a → a ∈ l ∧ addr_Address a = ip.
Proof. induction l as [|x l IH]; simpl; [done|]. case_bool_decide; [intros [= ->]; set_solver|]. intros []%IH. set_solver. Qed.

(** The GCE implementation meets the manager's contract. *)
#[global, program] Instance Cloud_service {W} `{AddressStore W} : AddressService W := { addresses := stored }.
Next Obligation.
  intros W HA HS a region w. simpl. unfold Cloud_ReserveRegionAddress. rewrite io_bind_eq.
  pose proof (store_insert (addr_Name a) region a w) as Hi. destruct (Addresses_Insert _ _ _ w) as [[[]| |] w']; simpl in *; naive_solver.
Qed.
Next Obligation. intros W HA HS name region w. apply store_get. Qed.
Next Obligation.
  intros W HA HS region ip w. simpl. unfold Cloud_GetRegionAddressByIP. rewrite io_bind_eq.
  pose proof (store_list region ip w) as Hl. destruct (Addresses_List region ip w) as [[l| |] w']; [|naive_solver..].
  destruct (firstWithIP ip l) as [a|] eqn:E; simpl; [|naive_solver]. apply firstWithIP_spec in E as [Hin Hip].
  split; [naive_solver|]. intros a' [= <-]. naive_solver.
Qed.
Next Obligation. intros W HA HS name region w. apply store_delete. Qed.

Section manager.
Context {W : Type} `{AddressService W}.

(** The address the manager creates and releases. *)
Definition own (am : addressManager) : string * string := (am_region am, am_name am).

(** [ip] is reserved: by the manager's own address, or by another one, which the
    manager will then not release. *)
Definition holds (am am' : addressManager) (ip : string) (w : W) : Prop :=
  (am_targetIP am ≠ EmptyString → ip = am_targetIP am) ∧
  ∃ a, addresses w !! (am_region am, addr_Name a) = Some a ∧ addr_Address a = ip ∧ addr_Type a = am_addressType am ∧
    ((addr_Name a = am_name am ∧ am' = am) ∨ (addr_Name a ≠ am_name am ∧ am' = clearTryRelease am)).

Lemma validateAddress_ok am a : validateAddress am a = Ret tt →
  (am_targetIP am ≠ EmptyString → addr_Address a = am_targetIP am) ∧ addr_Type a = am_addressType am.
Proof.
  unfold validateAddress. destruct (bool_decide_reflect (am_targetIP am ≠ EmptyString)),
    (bool_decide_reflect (am_targetIP am ≠ addr_Address a)), (bool_decide_reflect (addr_Type a ≠ am_addressType am)); simpl; try done;
    intros _; destruct (decide (am_targetIP am = addr_Address a)), (decide (addr_Type a = am_addressType am)); naive_solver.
Qed.
Lemma validateAddress_unit am a u : validateAddress am a = Ret u → validateAddress am a = Ret tt.
Proof. by destruct u. Qed.

(** What [ensureAddressReservation] does when the manager's name is free. *)
Definition ensured (am : addressManager) (w : W) (o : outcome string * (addressManager * W)) : Prop :=
  let '(r, (am', w')) := o in
  (∀ k, k ≠ own am → addresses w' !! k = addresses w !! k) ∧
  ∀ ip, r = Ret ip → holds am am' ip w' ∧ (am' = am ∨ addresses w' = addresses w).

Lemma holds_own am ip w a : addresses w !! own am = Some a → addr_Name a = am_name am → addr_Address a = ip →
  (am_targetIP am ≠ EmptyString → ip = am_targetIP am) → addr_Type a = am_addressType am → holds am am ip w.
Proof. intros Hl Hn Hi Ht Hty. split; [done|]. exists a. rewrite Hn. naive_solver. Qed.

Lemma ensure_spec am w : am_addressType am ≠ EmptyString → addresses w !! own am = None →
  ensured am w (ensureAddressReservation (am, w)).
Proof.
  intros Hty Hfree. unfold ensureAddressReservation. rewrite io_bind_eq. cbn [receiver fst]. cbv zeta.
  set (new := mkAddress _ _ _ _ _ _). rewrite io_bind_eq. unfold try at 1, on_snd at 1. cbn [fst snd].
  pose proof (service_reserve new (am_region am) w) as Hr.
  destruct (ReserveRegionAddress new (am_region am) w) as [[a|e|] w1]; destruct Hr as [Hi Ha]; cbv beta iota.
  - specialize (Ha a eq_refl) as ->. destruct Hi as (_ & x & Hw & Hxn & Hxt & Hxa). specialize (Hxt Hty). cbn [new addr_Address addr_Type addr_Name snd] in *.
    assert (addresses w1 !! own am = Some x) as Hx by (rewrite Hw; apply lookup_insert_eq).
    assert (∀ k, k ≠ own am → addresses w1 !! k = addresses w !! k) as Hfr by (intros k Hk; rewrite Hw; by apply lookup_insert_ne).
    case_bool_decide as Ht.
    + split; [done|]. intros ip [= <-]. split; [|by left]. by apply (holds_own am _ w1 x); auto.
    + rewrite io_bind_eq. unfold on_snd. cbn [fst snd]. pose proof (service_get (am_name am) (am_region am) w1) as Hg.
      destruct (GetRegionAddress _ _ w1) as [[b|e|] w2]; destruct Hg as [Hw2 Hb]; (split; [by rewrite Hw2|]); [|done..].
      intros ip [= <-]. split; [|by left]. destruct Hb as [Hb Hn].
      assert (b = x) as -> by (unfold own in Hx; congruence).
      apply (holds_own am _ w2 x); [by rewrite Hw2|done|done| |done]. by intros.
  - assert (∀ k, k ≠ own am → addresses w1 !! k = addresses w !! k) as Hfr.
    { intros k Hk. destruct Hi as [->|(_ & _ & x & -> & _)]; [done|]. by apply lookup_insert_ne. }
    destruct (negb _ && negb _) eqn:Erej; [done|]. case_bool_decide as Ht; [done|].
    assert (addresses w1 = addresses w) as Hw.
    { destruct Hi as [|[Hrej _]]; [done|]. unfold rejected in Hrej. rewrite <- negb_orb, Hrej in Erej. done. }
    rewrite io_bind_eq. unfold try, on_snd. cbn [fst snd]. pose proof (service_by_ip (am_region am) (am_targetIP am) w1) as Hg.
    destruct (GetRegionAddressByIP _ _ w1) as [[b|e'|] w2]; destruct Hg as [Hw2 Hb]; cbv beta iota; [|split; [by rewrite Hw2, Hw|done]..].
    rewrite io_bind_eq. unfold lift. destruct (validateAddress am b) as [u| |] eqn:Ev; [|split; [by rewrite Hw2, Hw|done]..].
    apply validateAddress_unit, validateAddress_ok in Ev as [Hip Hbt]. destruct (Hb b eq_refl) as [Hlb Hba].
    assert (addr_Name b ≠ am_name am) as Hnb. { intros E. rewrite E, Hw in Hlb. unfold own in Hfree. congruence. }
    rewrite io_bind_eq. unfold isManagedAddress. rewrite bool_decide_eq_false_2 by done. cbn [put].
    split; [by rewrite Hw2, Hw|]. intros ip [= <-]. split; [|right; by rewrite Hw2].
    split; [by rewrite Hba|]. exists b. rewrite Hw2. naive_solver.
  - split; [|done]. intros k Hk. destruct Hi as [->|(_ & x & -> & _)]; [done|]. by apply lookup_insert_ne.
Qed.

(** What [HoldAddress] does. *)
Definition held (am : addressManager) (w : W) (o : outcome string * (addressManager * W)) : Prop :=
  let '(r, (am', w')) := o in
  (∀ k, k ≠ own am → addresses w' !! k = addresses w !! k) ∧
  ∀ ip, r = Ret ip → holds am am' ip w' ∧ (am' = am ∨ addresses w' !! own am = None).

(** Once the own address is gone, reserving is all that is left. *)
Lemma ensured_held am w w1 : am_addressType am ≠ EmptyString → addresses w1 !! own am = None →
  (∀ k, k ≠ own am → addresses w1 !! k = addresses w !! k) → held am w (ensureAddressReservation (am, w1)).
Proof.
  intros Hty Hfree Hfr. pose proof (ensure_spec am w1 Hty Hfree) as He.
  destruct (ensureAddressReservation (am, w1)) as [r [am' w']]. destruct He as [Hk Hr]. split.
  - intros k Hne. by rewrite Hk, Hfr.
  - intros ip Hip. destruct (Hr ip Hip) as [Hh [->|Hw]]; (split; [done|]); [by left|right; by rewrite Hw].
Qed.

Lemma hold_spec am w : am_addressType am ≠ EmptyString → held am w (HoldAddress (am, w)).
Proof.
  intros Hty. unfold HoldAddress. rewrite io_bind_eq. cbn [receiver fst]. rewrite io_bind_eq. unfold try at 1, on_snd at 1. cbn [fst snd].
  pose proof (service_get (am_name am) (am_region am) w) as Hg.
  destruct (GetRegionAddress _ _ w) as [[a|e|] w1]; destruct Hg as [Hw Ha]; cbv beta iota; [|destruct (isNotFound e) eqn:En; simpl|].
  - destruct Ha as [Hl Hn]. simpl in Hn. destruct (validateAddress am a) as [u| |] eqn:Ev.
    { apply validateAddress_unit, validateAddress_ok in Ev as [Hip Hbt]. split; [by rewrite Hw|]. intros ip [= <-].
      split; [|by left]. apply (holds_own am _ w1 a); auto. by rewrite Hw. }
    all: rewrite io_bind_eq; unfold try, on_snd; cbn [fst snd]; rewrite Hn;
      pose proof (service_delete (am_name am) (am_region am) w1) as Hd;
      destruct (DeleteRegionAddress _ _ w1) as [[u|e'|] w2]; simpl in Hd; cbv beta iota.
    all: try (apply ensured_held; [done|rewrite Hd; apply lookup_delete_eq|intros k Hk; rewrite Hd, Hw; by apply lookup_delete_ne]).
    all: try (destruct (isNotFound e') eqn:En; [destruct Hd as [Hd Hno]; apply ensured_held; [done|by rewrite Hd|by rewrite Hd, Hw]|]).
    all: split; [|done]; intros k Hk; destruct Hd as [->| ->]; rewrite ?Hw; by rewrite ?lookup_delete_ne.
  - apply ensured_held; [done|rewrite Hw; by apply Ha|by rewrite Hw].
  - split; [by rewrite Hw|done].
  - split; [by rewrite Hw|done].
Qed.

(** ** Success *)

(** The service answers from its store: only a taken IP makes a reservation fail. *)
Definition taken (region ip : string) (w : W) : Prop :=
  ∃ b, addresses w !! (region, addr_Name b) = Some b ∧ addr_Address b = ip.
Record healthy : Prop := {
  healthy_get name region w : match addresses w !! (region, name) with
    | Some a => (GetRegionAddress name region w).1 = Ret a
    | None => ∃ e, (GetRegionAddress name region w).1 = Err e ∧ isNotFound e = true
    end;
  healthy_delete name region w : is_Some (addresses w !! (region, name)) → (DeleteRegionAddress name region w).1 = Ret tt;
  healthy_reserve a region w : addresses w !! (region, addr_Name a) = None →
    is_ret (ReserveRegionAddress a region w).1 = true ∨
    ∃ e, (ReserveRegionAddress a region w).1 = Err e ∧ rejected e = true ∧ addr_Address a ≠ EmptyString ∧ taken region (addr_Address a) w;
  healthy_by_ip region ip w : taken region ip w → is_ret (GetRegionAddressByIP region ip w).1 = true
}.

(** Somebody else's address of the other kind has the IP. *)
Definition blocked (am : addressManager) (w : W) : Prop :=
  am_targetIP am ≠ EmptyString ∧ ∃ b, addresses w !! (am_region am, addr_Name b) = Some b ∧
    addr_Name b ≠ am_name am ∧ addr_Address b = am_targetIP am ∧ addr_Type b ≠ am_addressType am.

Lemma validateAddress_fails am a : addr_Address a = am_targetIP am → validateAddress am a ≠ Ret tt → addr_Type a ≠ am_addressType am.
Proof.
  unfold validateAddress. intros -> Hv Ht. apply Hv. rewrite (bool_decide_eq_false_2 (_ ≠ am_targetIP am)) by naive_solver.
  rewrite andb_false_r. by rewrite bool_decide_eq_false_2 by naive_solver.
Qed.

Lemma ensure_live am w : healthy → addresses w !! own am = None →
  is_ret (ensureAddressReservation (am, w)).1 = true ∨ blocked am w.
Proof.
  intros Hh Hfree. unfold ensureAddressReservation. rewrite io_bind_eq. cbn [receiver fst]. cbv zeta.
  set (new := mkAddress _ _ _ _ _ _). rewrite io_bind_eq. unfold try at 1, on_snd at 1. cbn [fst snd].
  pose proof (service_reserve new (am_region am) w) as Hr. pose proof (healthy_reserve Hh new (am_region am) w Hfree) as Hl.
  destruct (ReserveRegionAddress new (am_region am) w) as [[a|e|] w1]; destruct Hr as [Hi Ha]; cbv beta iota; simpl in Hl; [| |naive_solver].
  - left. specialize (Ha a eq_refl) as ->. destruct Hi as (_ & x & Hw & _). case_bool_decide; [done|].
    rewrite io_bind_eq. unfold on_snd. cbn [fst snd]. pose proof (healthy_get Hh (am_name am) (am_region am) w1) as Hg.
    rewrite Hw in Hg. cbn [new addr_Name] in Hg. rewrite lookup_insert_eq in Hg.
    change (addr_Name new) with (am_name am). destruct (GetRegionAddress _ _ w1) as [o w2]. simpl in Hg. by rewrite Hg.
  - destruct Hl as [|(e' & [= <-] & Hrej & Hne & Htk)]; [done|]. cbn [new addr_Address] in Hne, Htk.
    unfold rejected in Hrej. rewrite <- negb_orb, Hrej. cbn [negb]. rewrite bool_decide_eq_false_2 by done.
    assert (addresses w1 = addresses w) as Hw by (destruct Hi as [|[Hno _]]; [done|by unfold rejected in Hno; rewrite Hrej in Hno]).
    assert (taken (am_region am) (am_targetIP am) w1) as Htk1 by (unfold taken; by rewrite Hw).
    rewrite io_bind_eq. unfold try, on_snd. cbn [fst snd]. pose proof (healthy_by_ip Hh _ _ _ Htk1) as Hb.
    pose proof (service_by_ip (am_region am) (am_targetIP am) w1) as Hs.
    destruct (GetRegionAddressByIP _ _ w1) as [[b| |] w2]; [|done..]. destruct Hs as [_ Hs]. destruct (Hs b eq_refl) as [Hlb Hba].
    rewrite io_bind_eq. unfold lift. destruct (validateAddress am b) as [u| |] eqn:Ev.
    { left. rewrite io_bind_eq. by destruct (isManagedAddress am b). }
    all: right; split; [done|]; exists b; rewrite <- Hw; split_and!; try done;
      [intros E; rewrite E, Hw in Hlb; unfold own in Hfree; congruence|apply validateAddress_fails; congruence].
Qed.

Lemma blocked_mono am w w' : (∀ k, k ≠ own am → addresses w' !! k = addresses w !! k) → blocked am w' → blocked am w.
Proof.
  intros Hfr [Hne (b & Hl & Hn & Hb)]. split; [done|]. exists b. rewrite <- (Hfr (_, _)); [done|]. unfold own. congruence.
Qed.

Lemma hold_live am w : healthy → is_ret (HoldAddress (am, w)).1 = true ∨ blocked am w.
Proof.
  intros Hh. unfold HoldAddress. rewrite io_bind_eq. cbn [receiver fst]. rewrite io_bind_eq. unfold try at 1, on_snd at 1. cbn [fst snd].
  pose proof (service_get (am_name am) (am_region am) w) as Hg. pose proof (healthy_get Hh (am_name am) (am_region am) w) as Hl.
  destruct (addresses w !! (am_region am, am_name am)) as [a|] eqn:E;
    destruct (GetRegionAddress _ _ w) as [o w1]; simpl in Hl; [subst o|destruct Hl as (e & -> & Hnf)]; destruct Hg as [Hw Ha]; cbv beta iota.
  - destruct Ha as [_ Hn]. simpl in Hn. destruct (validateAddress am a) as [u| |]; [by left|..].
    all: rewrite io_bind_eq; unfold try, on_snd; cbn [fst snd]; rewrite Hn;
      pose proof (service_delete (am_name am) (am_region am) w1) as Hd;
      pose proof (healthy_delete Hh (am_name am) (am_region am) w1) as Hok; rewrite Hw, E in Hok; specialize (Hok (ex_intro _ _ eq_refl));
      destruct (DeleteRegionAddress _ _ w1) as [o w2]; simpl in Hok; subst o; simpl in Hd; cbv beta iota.
    all: assert (∀ k, k ≠ own am → addresses w2 !! k = addresses w !! k) as Hfr
        by (intros k Hk; rewrite Hd, Hw; by apply lookup_delete_ne);
      (destruct (ensure_live am w2 Hh) as [Hr|Hb]; [rewrite Hd; apply lookup_delete_eq|by left|right; by eapply blocked_mono]).
  - rewrite Hnf. cbn [negb]. destruct (ensure_live am w1 Hh) as [Hr|Hb]; [by rewrite Hw|by left|].
    right. eapply blocked_mono; [|done]. by rewrite Hw.
Qed.

(** C32: whatever the compute API answers, holding and releasing a load
    balancer's address changes no address but the one named after it.  A held IP
    is the one asked for and is reserved with the right type, by that address or
    by a user's own; releasing then removes the manager's address and leaves the
    user's, so that hold and release together leave the store as it was without
    the manager's name.  When the API answers from its store, holding only fails
    for an IP that a foreign address of the other type has. *)
Theorem hold_release_roundtrip am w (Htry : am_tryRelease am = true) (Hty : am_addressType am ≠ EmptyString) :
  let '(r, (am', w')) := HoldAddress (am, w) in
  (∀ k, k ≠ own am → addresses w' !! k = addresses w !! k) ∧
  (healthy → is_ret r = true ∨ blocked am w) ∧
  ∀ ip, r = Ret ip → holds am am' ip w' ∧
    let '(r2, (_, w2)) := ReleaseAddress (am', w') in
    (∀ k, k ≠ own am → addresses w2 !! k = addresses w !! k) ∧
    (r2 = Ret tt → addresses w2 = delete (own am) (addresses w)).
Proof.
  pose proof (hold_spec am w Hty) as Hs. pose proof (hold_live am w) as Hlive.
  destruct (HoldAddress (am, w)) as [r [am' w']]. destruct Hs as [Hfr Hr]. split_and!; [done|done|].
  intros ip Hip. destruct (Hr ip Hip) as [Hh Hcase]. split; [done|].
  assert (∀ m, (∀ k, k ≠ own am → m !! k = addresses w !! k) → m !! own am = None → m = delete (own am) (addresses w)) as Hdel.
  { intros m Hm Hno. apply map_eq. intros k. destruct (decide (k = own am)) as [->|Hk]; [by rewrite Hno, lookup_delete_eq|].
    by rewrite Hm, lookup_delete_ne. }
  unfold ReleaseAddress. rewrite io_bind_eq. cbn [receiver fst]. destruct (am_tryRelease am') eqn:Et; simpl.
  - assert (am' = am) as ->. { destruct Hh as [_ (a & _ & _ & _ & [[_ ->]|[_ ->]])]; done. }
    rewrite io_bind_eq. unfold try, on_snd. cbn [fst snd]. pose proof (service_delete (am_name am) (am_region am) w') as Hd.
    destruct (DeleteRegionAddress _ _ w') as [[u|e|] w2]; simpl in Hd.
    + assert (∀ k, k ≠ own am → addresses w2 !! k = addresses w !! k) as Hfr2 by (intros k Hk; rewrite Hd, lookup_delete_ne by done; auto).
      split; [done|]. intros _. apply Hdel; [done|]. rewrite Hd. apply lookup_delete_eq.
    + destruct (isNotFound e); [destruct Hd as [Hd Hno]; split; [by rewrite Hd|]; intros _; apply Hdel; by rewrite Hd|].
      split; [|done]. intros k Hk. destruct Hd as [->| ->]; rewrite ?lookup_delete_ne by done; auto.
    + split; [|done]. intros k Hk. destruct Hd as [->| ->]; rewrite ?lookup_delete_ne by done; auto.
  - split; [done|]. intros _. destruct Hcase as [->|Hno]; [congruence|by apply Hdel].
Qed.
End manager.

(** ** A store to evaluate the manager on

    Every address is named by its key. *)
Definition named (key : string * string) (a : Address) : Address :=
  mkAddress key.2 (addr_Description a) (addr_Address a) (addr_Type a) (addr_Subnetwork a) (addr_NetworkTier a).

Record FakeAddresses : Type := mkFakeAddresses { fa_map : gmap (string * string) Address }.
Definition fa_stored (w : FakeAddresses) : gmap (string * string) Address := map_imap (λ k a, Some (named k a)) (fa_map w).

(** The addresses of a region that have an IP ([List] with an exact filter). *)
Definition fa_list (region ip : string) (w : FakeAddresses) : list Address :=
  (filter (λ kv : (string * string) * Address, kv.1.1 = region ∧ addr_Address kv.2 = ip) (map_to_list (fa_stored w))).*2.

Definition fa_new (key : string * string) (a : Address) : Address :=
  mkAddress key.2 (addr_Description a) (if decide (addr_Address a = EmptyString) then "10.0.0.99"%string else addr_Address a)
    (addr_Type a) (addr_Subnetwork a) "PREMIUM".

#[global] Instance FakeAddresses_api : AddressesAPI FakeAddresses := {
  Addresses_Insert name region a := λ w,
    if decide (is_Some (fa_stored w !! (region, name)) ∨ addr_Address a ≠ EmptyString ∧ fa_list region (addr_Address a) w ≠ [])
    then (Err (ErrGoogleAPI StatusConflict), w)
    else (Ret tt, mkFakeAddresses (<[ (region, name) := fa_new (region, name) a ]> (fa_map w)));
  Addresses_Get name region := λ w,
    (match fa_stored w !! (region, name) with Some a => Ret a | None => Err (ErrGoogleAPI StatusNotFound) end, w);
  Addresses_List region re := λ w, (Ret (fa_list region re w), w);
  Addresses_Delete name region := λ w,
    match fa_stored w !! (region, name) with
    | None => (Err (ErrGoogleAPI StatusNotFound), w)
    | Some _ => (Ret tt, mkFakeAddresses (delete (region, name) (fa_map w)))
    end
}.

Lemma fa_named w k a : fa_stored w !! k = Some a → addr_Name a = k.2.
Proof. unfold fa_stored. rewrite map_lookup_imap. destruct (fa_map w !! k); simpl; [|done]. by intros [= <-]. Qed.

Lemma fa_list_spec region ip w a : a ∈ fa_list region ip w ↔ fa_stored w !! (region, addr_Name a) = Some a ∧ addr_Address a = ip.
Proof.
  unfold fa_list. rewrite list_elem_of_fmap. split.
  - intros ([[rg n] x] & -> & [[Hk Hip] Hin]%list_elem_of_filter). simpl in *. subst rg. apply elem_of_map_to_list in Hin.
    pose proof (fa_named _ _ _ Hin) as Hn. simpl in Hn. by rewrite Hn.
  - intros [Hl Hip]. exists ((region, addr_Name a), a). split; [done|]. apply list_elem_of_filter. split; [done|].
    by apply elem_of_map_to_list.
Qed.

#[global, program] Instance FakeAddresses_store : AddressStore FakeAddresses := { stored := fa_stored }.
Next Obligation.
  intros name region a w. simpl. case_decide as Hd; simpl; [by left|]. split; [apply eq_None_not_Some; naive_solver|].
  exists (fa_new (region, name) a). split_and!; [|done|done|].
  - unfold fa_stored. simpl. by rewrite (map_imap_insert_Some _ _ _ _ (named (region, name) (fa_new (region, name) a))).
  - intros. simpl. by rewrite decide_False.
Qed.
Next Obligation.
  intros name region w. simpl. split; [done|]. destruct (fa_stored w !! (region, name)) as [a|] eqn:E; [|done].
  split; [done|]. by apply fa_named in E.
Qed.
Next Obligation. intros region re w. simpl. split; [done|]. intros l a [= <-] Ha. by apply fa_list_spec in Ha as []. Qed.
Next Obligation.
  intros name region w. simpl. destruct (fa_stored w !! (region, name)) eqn:E; simpl; [|done].
  unfold fa_stored. simpl. by rewrite map_imap_delete.
Qed.

Lemma fa_healthy : healthy (W := FakeAddresses).
Proof.
  split.
  - intros name region w. simpl. unfold Cloud_GetRegionAddress. simpl. destruct (fa_stored w !! _); [done|]. by eexists.
  - intros name region w [a Ha]. simpl in *. unfold Cloud_DeleteRegionAddress. simpl. by rewrite Ha.
  - intros a region w Hno. simpl in *. unfold Cloud_ReserveRegionAddress. rewrite io_bind_eq. simpl.
    case_decide as Hd; [right|by left]. destruct Hd as [[x Hx]|[Hne Hl]]; [congruence|].
    eexists. split_and!; [done|done|done|]. destruct (fa_list region (addr_Address a) w) as [|b l] eqn:E; [done|].
    assert (b ∈ fa_list region (addr_Address a) w) as Hb by (rewrite E; left). apply fa_list_spec in Hb. by exists b.
  - intros region ip w (b & Hb). simpl in *. unfold Cloud_GetRegionAddressByIP. rewrite io_bind_eq. simpl.
    apply fa_list_spec in Hb as Hin. destruct (firstWithIP ip (fa_list region ip w)) eqn:E; [done|]. exfalso.
    destruct Hb as [_ Hip]. clear -Hin E Hip. induction (fa_list region ip w) as [|x l IH]; [by apply not_elem_of_nil in Hin|].
    simpl in E. case_bool_decide; [done|]. apply elem_of_cons in Hin as [->|]; [done|auto].
Qed.

(** A user's own internal address has the IP the load balancer asks for. *)
Definition demo_user : Address := mkAddress "web-ip" "user" "10.0.0.5" "INTERNAL" EmptyString "PREMIUM".
Definition demo_addresses : FakeAddresses := mkFakeAddresses {[ ("r"%string, "web-ip"%string) := demo_user ]}.
Definition demo_am (ip : string) : addressManager := newAddressManager "ns/web" "r" "subnet" "lb" ip "INTERNAL".

Lemma hold_release_roundtrip_witness :
  let '(r, (am', w')) := HoldAddress (demo_am "10.0.0.5", demo_addresses) in
  r = Ret "10.0.0.5"%string ∧ am_tryRelease am' = false ∧ w' = demo_addresses ∧ holds (demo_am "10.0.0.5") am' "10.0.0.5" w' ∧
  addresses (ReleaseAddress (am', w')).2.2 = delete (own (demo_am "10.0.0.5")) (addresses demo_addresses).
Proof.
  pose proof (hold_release_roundtrip (demo_am "10.0.0.5") demo_addresses eq_refl ltac:(discriminate)) as Ht.
  assert (HoldAddress (demo_am "10.0.0.5", demo_addresses) =
    (Ret "10.0.0.5"%string, (clearTryRelease (demo_am "10.0.0.5"), demo_addresses))) as E by (vm_compute; reflexivity).
  rewrite E in Ht |- *. destruct Ht as (_ & _ & Hr). destruct (Hr _ eq_refl) as [Hh H2].
  split; [reflexivity|]. split; [reflexivity|]. split; [reflexivity|]. split; [exact Hh|].
  destruct H2 as [_ H2]. exact (H2 eq_refl).
Defined.

(** Without a target IP the store picks one, under the manager's name. *)
Example hold_any : (HoldAddress (demo_am EmptyString, demo_addresses)).1 = Ret "10.0.0.99"%string.
Proof. vm_compute. reflexivity. Qed.
