(* ===== verification/NodeIdentity.v ===== *)
(** * NodeIdentity: the identity a VM claims

    [pkg/nodeidentity/id.go]: the JSON of the [VM IDENTITY] block of a request,
    and [pkg/tpmattest/tpmattest.go]: the TPM structure of a public key. *)

From S2P Require Import Prelude Bits GoNet GoNetText Json Csr.
Local Open Scope Z_scope.

(** The two 64-bit fields are unsigned. *)
Record Identity : Type := mkIdentity {
  id_Zone : string; id_ID : Z; id_Name : string; id_ProjectID : Z; id_ProjectName : string
}.
#[global] Instance Identity_eq_dec : EqDecision Identity. Proof. solve_decision. Defined.

(** The JSON names of the fields. *)
Definition Identity_fields : list string := ["zone"; "id"; "name"; "project_id"; "project_name"]%string.

(** A number literal read into a uint64: digits only, no overflow. *)
Definition json_uint64 (lit : string) : option Z :=
  if bool_decide (lit = EmptyString) then None
  else n ← dec_value lit 0; if n <? 2 ^ 64 then Some n else None.

(** One member; a value of the wrong kind leaves the field and is reported. *)
Definition set_field (i : nat) (v : json) (acc : Identity * option error) : Identity * option error :=
  let '(mkIdentity z n nm p pn, err) := acc in
  match v with
  | JNull => acc
  | JString s =>
      match i with
      | 0%nat => (mkIdentity s n nm p pn, err)
      | 2%nat => (mkIdentity z n s p pn, err)
      | 4%nat => (mkIdentity z n nm p s, err)
      | _ => (acc.1, saveError err)
      end
  | JNumber lit =>
      match i, json_uint64 lit with
      | 1%nat, Some k => (mkIdentity z k nm p pn, err)
      | 3%nat, Some k => (mkIdentity z n nm k pn, err)
      | _, _ => (acc.1, saveError err)
      end
  | _ => (acc.1, saveError err)
  end.

Fixpoint decode_identity (ms : list (string * json)) (acc : Identity * option error) : Identity * option error :=
  match ms with
  | [] => acc
  | (k, v) :: ms => decode_identity ms match field_of Identity_fields k with Some i => set_field i v acc | None => acc end
  end.

(** [json.Unmarshal(raw, nodeID)] into a fresh identity. *)
Definition unmarshal_Identity (raw : string) : outcome Identity :=
  let zero := mkIdentity EmptyString 0 EmptyString 0 EmptyString in
  match json_of raw with
  | None => Err (Errorf "invalid JSON")
  | Some (JObject ms) => match decode_identity ms (zero, None) with (id, None) => Ret id | (_, Some e) => Err e end
  | Some JNull => Ret zero
  | Some _ => Err (Errorf "json: cannot unmarshal %s into Go value of type %s")
  end.

Example identity_demo :
  unmarshal_Identity (dq "{'zone':'z1','id':18446744073709551615,'Name':'vm','project_id':7,'project_name':'p','x':[1]}")
  = Ret (mkIdentity "z1" 18446744073709551615 "vm" 7 "p").
Proof. vm_compute. reflexivity. Qed.
Example identity_overflow : is_err (unmarshal_Identity (dq "{'id':18446744073709551616}")) = true.
Proof. vm_compute. reflexivity. Qed.

(** ** [MakePublic] *)
Record TPMPublic : Type := mkTPMPublic { tpm_Curve : string; tpm_X : Z; tpm_Y : Z }.

Definition toTPMCurves : list string := ["P-224"; "P-256"; "P-384"; "P-521"]%string.

(** The attributes and schemes of the structure are constants. *)
Definition MakePublic (pub : PublicKey) : outcome TPMPublic :=
  match pub with
  | ECDSAKey curve X Y =>
      if bool_decide (curve ∈ toTPMCurves) then Ret (mkTPMPublic curve X Y)
      else Err (Errorf "public key EC curve %q not supported")
  | OtherKey _ => Err (Errorf "public key in CSR is %T, only ECDSA keys supported")
  end.
