(* ===== verification/NodeCsr.v ===== *)
(** * NodeCsr: approving the certificates of nodes

    [cmd/gcp-controller-manager/node_csr_approver.go].  A request is recognized
    as a kubelet client certificate with TPM attestation, a kubelet serving
    certificate or a legacy kubelet client certificate, validated against the
    VM it comes from, put to a SubjectAccessReview and approved.  The compute and
    container APIs are the class [NodeCsrCloud], cryptography and its encodings
    the class [Attestation]. *)

From S2P Require Import Prelude Bits GoNet GoNetText GoStrings K8s GceInstances AddressManager Csr NodeIdentity.
Local Open Scope Z_scope.

(** ** Configuration *)
Record gcpConfig : Type := mkGcpConfig {
  cfg_ClusterName : string; cfg_ProjectID : string; cfg_Location : string; cfg_Zones : list string
}.
Record gceInstanceListReferrersConfig : Type := mkReferrersConfig { lr_enabled : bool; lr_retryCount : Z }.

(** [podDisruptionConditions] is the feature gate of that name. *)
Record controllerContext : Type := mkContext {
  gcpCfg : gcpConfig;
  csrApproverVerifyClusterMembership : bool;
  csrApproverAllowLegacyKubelet : bool;
  csrApproverListReferrersConfig : gceInstanceListReferrersConfig;
  clearStalePodsOnNodeRegistration : bool;
  podDisruptionConditions : bool
}.

(** ** [compute.Instance] *)
Record MetadataItem : Type := mkItem { item_Key : string; item_Value : option string }.
(** [AccessConfigs] and [Ipv6AccessConfigs] by their NAT and external addresses. *)
Record VMInterface : Type := mkVMInterface {
  vmi_NetworkIP : string; vmi_Ipv6Address : string; vmi_AccessConfigs : list string; vmi_Ipv6AccessConfigs : list string
}.
Record VM : Type := mkVM {
  vm_Id : Z; vm_Name : string; vm_Zone : string;
  vm_Metadata : option (list (option MetadataItem));
  vm_NetworkInterfaces : list VMInterface
}.

(** The pages of a list call, as they arrive. *)
Inductive pages (A : Type) : Type := NoMorePages | PageError (e : error) | MorePages (items : list A) (rest : pages A).
Arguments NoMorePages {A}.
Arguments PageError {A} e.
Arguments MorePages {A} items rest.

(** [Pages(ctx, filter)] with a filter that stops at the first page with a
    matching item. *)
Fixpoint findInPages {A} (f : A → bool) (p : pages A) : outcome bool :=
  match p with
  | NoMorePages => Ret false
  | PageError e => Err e
  | MorePages items rest => if existsb f items then Ret true else findInPages f rest
  end.

Class NodeCsrCloud (W : Type) : Type := {
  (** project, zone, name *)
  VMs_Get : string → string → string → io W VM;
  (** the EK public key of the signing key, if there is a signing key *)
  GetShieldedVmIdentity : string → string → string → io W (option string);
  (** the instance groups of each node pool *)
  Clusters_Get : string → io W (list (list string));
  (** project, zone, name: the referrers *)
  ListReferrers : string → string → string → io W (pages string);
  (** project, location, group: the instance IDs *)
  ListManagedInstances : string → string → string → io W (pages Z)
}.

(** A decoded attestation by its certify information, absent for the other kinds
    of attestation. *)
Record AttestationData : Type := mkAttestation { AttestedCertifyInfo : option string }.

Class Attestation : Type := {
  (** [pem.Decode]: the type and bytes of the next block, and the rest *)
  pem_Decode : string → option (string * string) * string;
  bytes_TrimSpace : string → string;
  RSAPublicKey : Type;
  (** [x509.ParsePKIXPublicKey], and whether the key is an RSA key *)
  ParsePKIXPublicKey : string → outcome (option RSAPublicKey);
  sha256_Sum256 : string → string;
  (** [rsa.VerifyPKCS1v15(key, SHA256, hash, sig) == nil] *)
  rsa_VerifyPKCS1v15 : RSAPublicKey → string → string → bool;
  DecodeAttestationData : string → outcome AttestationData;
  (** [Name.MatchesPublic] *)
  MatchesPublic : string → TPMPublic → outcome bool
}.

(** ** Pods *)
Record PodCondition : Type := mkPodCond {
  pc_Type : string; pc_Status : string; pc_Reason : string; pc_Message : string; pc_LastTransitionTime : Z
}.
Record Pod : Type := mkPod {
  pod_Namespace : string; pod_Name : string; pod_UID : string; pod_Annotations : gmap string string;
  pod_Phase : string; pod_Conditions : list PodCondition
}.

Class PodClient (W : Type) : Type := {
  (** pods whose [spec.nodeName] is the argument *)
  Pods_ListOnNode : string → io W (list Pod);
  Pods_Get : string → string → io W Pod;
  (** namespace, name, UID, new phase and conditions *)
  Pods_PatchStatus : string → string → string → string → list PodCondition → io W unit;
  Pods_Delete : string → string → io W unit;
  (** name and the UID precondition *)
  Nodes_Delete : string → string → io W unit
}.

(** ** Recognizers *)
Definition legacyKubeletUsername : string := "kubelet".
Definition tpmKubeletUsername : string := "kubelet-bootstrap".
Definition createdByInstanceMetadataKey : string := "created-by".
Definition InstanceIDAnnotationKey : string := "container.googleapis.com/instance_id".

(** The copy of [hasExactUsages] in this package. *)
Definition kubelet_hasExactUsages (csr : CSR) (usages : list string) : bool := hasExactUsages csr usages.

Definition kubeletClientUsages : list string := [UsageKeyEncipherment; UsageDigitalSignature; UsageClientAuth].
Definition kubeletClientUsagesNoEncipherment : list string := [UsageDigitalSignature; UsageClientAuth].
Definition kubeletServerUsages : list string := [UsageKeyEncipherment; UsageDigitalSignature; UsageServerAuth].
Definition kubeletServerUsagesNoEncipherment : list string := [UsageDigitalSignature; UsageServerAuth].

Definition kubelet_isNodeCert (x509cr : X509Request) : bool :=
  if negb (bool_decide (Organization x509cr = ["system:nodes"%string])) then false
  else if negb (bool_decide (EmailAddresses x509cr = [])) || negb (bool_decide (URIs x509cr = [])) then false
  else HasPrefix (CommonName x509cr) "system:node:".

Definition isNodeClientCert (csr : CSR) (x509cr : X509Request) : bool :=
  if negb (kubelet_isNodeCert x509cr) then false
  else if negb (bool_decide (csr_SignerName csr = KubeAPIServerClientKubeletSignerName)) then false
  else if negb (bool_decide (DNSNames x509cr = [])) || negb (bool_decide (IPAddresses x509cr = [])) then false
  else kubelet_hasExactUsages csr kubeletClientUsagesNoEncipherment || kubelet_hasExactUsages csr kubeletClientUsages.

Definition isLegacyNodeClientCert (csr : CSR) (x509cr : X509Request) : bool :=
  if negb (isNodeClientCert csr x509cr) then false else bool_decide (csr_Username csr = legacyKubeletUsername).

Definition isNodeServerCert (csr : CSR) (x509cr : X509Request) : bool :=
  if negb (kubelet_isNodeCert x509cr) then false
  else if negb (bool_decide (csr_SignerName csr = KubeletServingSignerName)) then false
  else if negb (kubelet_hasExactUsages csr kubeletServerUsagesNoEncipherment) && negb (kubelet_hasExactUsages csr kubeletServerUsages)
  then false
  else bool_decide (csr_Username csr = CommonName x509cr).

(** ** Addresses *)

(** [net.IP.Equal]: an IPv4 address equals its IPv6 form. *)
Definition IP_Equal (ip x : list Z) : bool :=
  if (length ip =? length x)%nat then bool_decide (ip = x)
  else if (length ip =? IPv4len)%nat && (length x =? IPv6len)%nat
  then bool_decide (take 12 x = v4InV6Prefix) && bool_decide (ip = drop 12 x)
  else if (length ip =? IPv6len)%nat && (length x =? IPv4len)%nat
  then bool_decide (take 12 ip = v4InV6Prefix) && bool_decide (drop 12 ip = x)
  else false.

Definition nonempty (l : list string) : list string := filter (λ s, s ≠ EmptyString) l.

Fixpoint getInstanceIps (ifaces : list VMInterface) : list string :=
  match ifaces with
  | [] => []
  | iface :: ifaces =>
      [vmi_NetworkIP iface] ++ nonempty [vmi_Ipv6Address iface] ++ nonempty (vmi_AccessConfigs iface) ++
      nonempty (vmi_Ipv6AccessConfigs iface) ++ getInstanceIps ifaces
  end.

(** Some address of the instance is [ip]. *)
Definition instanceHasIP (instIps : list string) (ip : list Z) : bool :=
  existsb (λ instIP, IP_Equal ip (ParseIP instIP)) instIps.

(** A domain-scoped project [domain:name] as it appears in DNS names; [None]
    when there is more than one colon. *)
Definition dnsProject (projectID : string) : option string :=
  if has_char colon projectID then
    match split_on colon projectID with
    | [domain; name] => Some (name +:+ "." +:+ domain)%string
    | _ => None
    end
  else Some projectID.

Definition dnsNameOk (instanceName zone projectID dns : string) : bool :=
  bool_decide (dns = instanceName) ||
  bool_decide (dns = instanceName +:+ ".c." +:+ projectID +:+ ".internal")%string ||
  bool_decide (dns = instanceName +:+ "." +:+ zone +:+ ".c." +:+ projectID +:+ ".internal")%string.

(** ** Metadata and instance groups *)
Fixpoint findItem (items : list (option MetadataItem)) (key : string) : outcome string :=
  match items with
  | [] => Ret EmptyString
  | None :: _ => Panic
  | Some item :: items =>
      match item_Value item with
      | Some v => if bool_decide (item_Key item = key) then Ret v else findItem items key
      | None => findItem items key
      end
  end.
Definition getInstanceMetadata (inst : VM) (key : string) : outcome string :=
  match vm_Metadata inst with None => Ret EmptyString | Some items => findItem items key end.

(** The name and the location of an instance group. *)
Definition parseInstanceGroupURL (ig : string) : outcome (string * string) :=
  let igParts := split_on slash ig in
  let n := length igParts in
  if (n <? 4)%nat then Err (Errorf "instance group URL is invalid %q; expect a URL with zone and instance group names")
  else Ret (nth (n - 1) igParts EmptyString, nth (n - 3) igParts EmptyString).

(** The last group of the cluster with the hinted name and location. *)
Fixpoint resolveHint (igName location : string) (urls : list string) (resolved : string) : outcome string :=
  match urls with
  | [] => Ret resolved
  | g :: urls =>
      '(gn, gl) ← parseInstanceGroupURL g;
      resolveHint igName location urls
        (if bool_decide (gl = location) && bool_decide (gn = igName) then g else resolved)
  end.

Definition validateInstanceGroupHint (instanceGroupUrls : list string) (instanceGroupHint : string) : outcome string :=
  if bool_decide (instanceGroupHint = EmptyString) then Err (Errorf "validateInstanceGroupHint: hint is empty")
  else
    '(igName, location) ← parseInstanceGroupURL instanceGroupHint;
    resolved ← resolveHint igName location instanceGroupUrls EmptyString;
    if bool_decide (resolved = EmptyString) then Err (Errorf "hinted instance group %q not found in cluster")
    else Ret resolved.

(** Both forms under which a referrer may name the group. *)
Definition clusterInstanceGroupMap (urls : list string) : gset string :=
  list_to_set (urls ++ (replace1 "/instanceGroupManagers/" "/instanceGroups/" <$> urls)).

(** ** PEM blocks *)
Section pem.
Context `{Attestation}.

(** The loop of [parsePEMBlocks]: the blocks by type, the last one of a type
    winning, and what is left.  Every block takes at least one byte. *)
Fixpoint decodeBlocks (fuel : nat) (raw : string) (blocks : gmap string string) : gmap string string * string :=
  match fuel with
  | O => (blocks, raw)
  | S fuel =>
      match pem_Decode (bytes_TrimSpace raw) with
      | (None, rest) => (blocks, rest)
      | (Some (ty, bytes), rest) => decodeBlocks fuel rest (<[ ty := bytes ]> blocks)
      end
  end.

Definition parsePEMBlocks (raw : string) : outcome (gmap string string) :=
  let '(blocks, rest) := decodeBlocks (S (String.length raw)) raw ∅ in
  if bool_decide (blocks = ∅) then Err (Errorf "no valid PEM blocks found in CSR")
  else if negb (bool_decide (rest = EmptyString)) then Err (Errorf "trailing non-PEM data in CSR")
  else Ret blocks.

Definition tpmAttestationBlocks : list string :=
  ["CERTIFICATE REQUEST"; "VM IDENTITY"; "ATTESTATION DATA"; "ATTESTATION SIGNATURE"]%string.

Definition isNodeClientCertWithAttestation (csr : CSR) (x509cr : X509Request) : bool :=
  if negb (isNodeClientCert csr x509cr) then false
  else if negb (bool_decide (csr_Username csr = tpmKubeletUsername)) then false
  else match parsePEMBlocks (csr_Request csr) with
       | Ret blocks => forallb (λ name, bool_decide (is_Some (blocks !! name))) tpmAttestationBlocks
       | _ => false
       end.
End pem.

(** [blocks[name].Bytes]: a missing block is a nil pointer. *)
Definition block (blocks : gmap string string) (name : string) : outcome string :=
  match blocks !! name with Some b => Ret b | None => Panic end.

Section cloud.
Context {W : Type} `{Attestation} `{NodeCsrCloud W}.
Variable ctx : controllerContext.

(** ** Serving certificates *)

(** The zones are tried until one has the instance. *)
Fixpoint validateInZones (csr : CSR) (x509cr : X509Request) (instanceName : string) (zones : list string) : io W bool :=
  match zones with
  | [] => mret false
  | z :: zones =>
      r ← try (VMs_Get (cfg_ProjectID (gcpCfg ctx)) z instanceName);
      match r with
      | inl err => if isNotFound err then validateInZones csr x509cr instanceName zones else fail err
      | inr inst =>
          match dnsProject (cfg_ProjectID (gcpCfg ctx)) with
          | None => mret false
          | Some projectID =>
              if negb (forallb (dnsNameOk instanceName z projectID) (DNSNames x509cr)) then mret false
              else mret (forallb (instanceHasIP (getInstanceIps (vm_NetworkInterfaces inst))) (IPAddresses x509cr))
          end
      end
  end.

Definition validateNodeServerCert (csr : CSR) (x509cr : X509Request) : io W bool :=
  if bool_decide (IPAddresses x509cr = []) then mret false
  else if negb (bool_decide (EmailAddresses x509cr = [])) || negb (bool_decide (URIs x509cr = [])) then mret false
  else validateInZones csr x509cr (TrimPrefix (csr_Username csr) "system:node:") (cfg_Zones (gcpCfg ctx)).

(** ** Cluster membership *)
Definition getClusterInstanceGroupUrls : io W (list string) :=
  let clusterName := ("projects/" +:+ cfg_ProjectID (gcpCfg ctx) +:+ "/locations/" +:+ cfg_Location (gcpCfg ctx) +:+
                      "/clusters/" +:+ cfg_ClusterName (gcpCfg ctx))%string in
  r ← try (Clusters_Get clusterName);
  match r with
  | inl _ => fail (Errorf "fetching cluster info: %v")
  | inr pools => mret (mjoin pools)
  end.

Definition checkInstanceReferrers (instance : VM) (urls : list string) : io W bool :=
  ps ← ListReferrers (cfg_ProjectID (gcpCfg ctx)) (path_Base (vm_Zone instance)) (vm_Name instance);
  lift (findInPages (λ r, bool_decide (r ∈ clusterInstanceGroupMap urls)) ps).

(** [WithExponentialBackoff]: up to [steps] attempts, an error or a miss is
    tried again. *)
Fixpoint retryReferrers (steps : nat) (instance : VM) (urls : list string) : io W bool :=
  match steps with
  | O => mret false
  | S steps =>
      r ← try (checkInstanceReferrers instance urls);
      match r with
      | inr true => mret true
      | _ => retryReferrers steps instance urls
      end
  end.

Definition checkInstanceReferrersBackOff (instance : VM) (urls : list string) : io W bool :=
  if negb (lr_enabled (csrApproverListReferrersConfig ctx)) then mret false
  else retryReferrers (Z.to_nat (lr_retryCount (csrApproverListReferrersConfig ctx))) instance urls.

Definition groupHasInstance (groupLocation groupName : string) (instanceID : Z) : io W bool :=
  ps ← ListManagedInstances (cfg_ProjectID (gcpCfg ctx)) groupLocation groupName;
  lift (findInPages (λ id, id =? instanceID) ps).

(** The groups in the instance's location, until one has it; errors are kept
    for the end. *)
Fixpoint searchGroups (instance : VM) (urls : list string) (errors : list error) : io W bool :=
  match urls with
  | [] => if bool_decide (errors ≠ []) then fail (Errorf "clusterHasInstance failed: %q") else mret false
  | ig :: urls =>
      match parseInstanceGroupURL ig with
      | Ret (igName, igLocation) =>
          if negb (HasPrefix (path_Base (vm_Zone instance)) igLocation) then searchGroups instance urls errors
          else
            r ← try (groupHasInstance igLocation igName (vm_Id instance));
            match r with
            | inl _ => searchGroups instance urls (errors ++ [Errorf "checking that group %q contains instance %v: %v"])
            | inr true => mret true
            | inr false => searchGroups instance urls errors
            end
      | Err err => searchGroups instance urls (errors ++ [err])
      | Panic => lift Panic
      end
  end.

Definition clusterHasInstance (instance : VM) (instanceGroupHint : string) : io W bool :=
  urls ← getClusterInstanceGroupUrls;
  ok ← checkInstanceReferrersBackOff instance urls;
  if (ok : bool) then mret true
  else
    searchGroups instance
      match validateInstanceGroupHint urls instanceGroupHint with Ret hint => hint :: urls | _ => urls end [].

(** ** TPM attestation *)
Definition ekPubAndIDFromAPI (blocks : gmap string string) : io W (RSAPublicKey * Identity) :=
  nodeIDRaw ← lift (block blocks "VM IDENTITY");
  match unmarshal_Identity nodeIDRaw with
  | Err _ => fail (Errorf "failed parsing VM IDENTITY block: %v")
  | Panic => lift Panic
  | Ret nodeID =>
      r ← try (GetShieldedVmIdentity (Uitoa (id_ProjectID nodeID)) (id_Zone nodeID) (id_Name nodeID));
      match r with
      | inl _ => fail (Errorf "fetching Shielded VM identity: %v")
      | inr None => fail (Errorf "VM %q doesn't have a signing key in ShieldedVmIdentity")
      | inr (Some ekPub) =>
          match pem_Decode ekPub with
          | (None, _) => fail (Errorf "failed parsing PEM block from EkPub %q")
          | (Some (_, bytes), _) =>
              match ParsePKIXPublicKey bytes with
              | Ret (Some rsaPub) => mret (rsaPub, nodeID)
              | Ret None => fail (Errorf "EK public key is %T, expected *rsa.PublickKey")
              | Err _ => fail (Errorf "failed parsing EK public key: %v")
              | Panic => lift Panic
              end
          end
      end
  end.

(** [err.(temporaryError)]: the type is an interface with the methods of
    [error], so every non-nil error has it. *)
Definition isTemporaryError (err : error) : bool := true.

(** The attested key is the one in the request. *)
Definition keyAttested (attestDataRaw : string) (x509cr : X509Request) : outcome bool :=
  match MakePublic (x509_PublicKey x509cr) with
  | Ret pub =>
      match DecodeAttestationData attestDataRaw with
      | Ret attestData =>
          match AttestedCertifyInfo attestData with
          | None => Panic
          | Some name => match MatchesPublic name pub with Ret ok => Ret ok | Err _ => Ret false | Panic => Panic end
          end
      | Err _ => Ret false
      | Panic => Panic
      end
  | Err _ => Ret false
  | Panic => Panic
  end.

(** The check of membership, when it is enabled: a denial or an error. *)
Definition memberOk (inst : VM) : io W bool :=
  if negb (csrApproverVerifyClusterMembership ctx) then mret true
  else
    hint ← lift (getInstanceMetadata inst createdByInstanceMetadataKey);
    r ← try (clusterHasInstance inst hint);
    match r with
    | inl _ => fail (Errorf "checking VM membership in cluster: %v")
    | inr ok => mret ok
    end.

Definition validateTPMAttestation (csr : CSR) (x509cr : X509Request) : io W bool :=
  match parsePEMBlocks (csr_Request csr) with
  | Panic => lift Panic
  | Err _ => mret false
  | Ret blocks =>
      attestDataRaw ← lift (block blocks "ATTESTATION DATA");
      attestSig ← lift (block blocks "ATTESTATION SIGNATURE");
      r ← try (ekPubAndIDFromAPI blocks);
      match r with
      | inl err => if isTemporaryError err then fail (Errorf "fetching EK public key from API: %v") else mret false
      | inr (aikPub, nodeID) =>
          if negb (bool_decide (id_Name nodeID = TrimPrefix (CommonName x509cr) "system:node:")) then mret false
          else if negb (bool_decide (id_ProjectName nodeID = cfg_ProjectID (gcpCfg ctx))) then mret false
          else
            r ← try (VMs_Get (Uitoa (id_ProjectID nodeID)) (id_Zone nodeID) (id_Name nodeID));
            match r with
            | inl err => if isNotFound err then mret false else fail (Errorf "fetching VM data from GCE API: %v")
            | inr inst =>
                member ← memberOk inst;
                if negb member then mret false
                else if negb (rsa_VerifyPKCS1v15 aikPub (sha256_Sum256 attestDataRaw) attestSig) then mret false
                else lift (keyAttested attestDataRaw x509cr)
            end
      end
  end.
End cloud.

(** ** The hook that removes a stale node *)
Definition PodSucceeded : string := "Succeeded".
Definition PodFailed : string := "Failed".
Definition errInstanceNotFound : error := ErrSentinel "instance not found".

(** [apipod.UpdatePodCondition]: the transition time changes with the status. *)
Fixpoint UpdatePodCondition (c : PodCondition) (conds : list PodCondition) : list PodCondition :=
  match conds with
  | [] => [c]
  | old :: conds =>
      if bool_decide (pc_Type old = pc_Type c) then
        mkPodCond (pc_Type c) (pc_Status c) (pc_Reason c) (pc_Message c)
          (if bool_decide (pc_Status c = pc_Status old) then pc_LastTransitionTime old else pc_LastTransitionTime c) :: conds
      else old :: UpdatePodCondition c conds
  end.

Section hook.
Context {W : Type} `{KubeClient W} `{PodClient W} `{NodeCsrCloud W}.
Variable ctx : controllerContext.

(** The first zone that has the instance. *)
Fixpoint getInstanceInZones (zones : list string) (instanceName : string) : io W VM :=
  match zones with
  | [] => fail errInstanceNotFound
  | z :: zones =>
      r ← try (VMs_Get (cfg_ProjectID (gcpCfg ctx)) z instanceName);
      match r with
      | inl err => if isNotFound err then getInstanceInZones zones instanceName else fail err
      | inr inst => mret inst
      end
  end.
Definition getInstanceByName (instanceName : string) : io W VM := getInstanceInZones (cfg_Zones (gcpCfg ctx)) instanceName.

Definition shouldDeleteNode (node : Node) : io W bool :=
  r ← try (getInstanceByName (node_Name node));
  match r with
  | inl err => if bool_decide (err = errInstanceNotFound) then mret true else fail err
  | inr inst =>
      let oldInstanceID := default EmptyString (Annotations node !! InstanceIDAnnotationKey) in
      let newInstanceID := Uitoa (vm_Id inst) in
      mret (clearStalePodsOnNodeRegistration ctx && negb (bool_decide (oldInstanceID = EmptyString)) &&
            negb (bool_decide (newInstanceID = EmptyString)) && negb (bool_decide (oldInstanceID = newInstanceID)))
  end.

Definition markFailedAndDeletePodWithCondition (pod : Pod) : io W unit :=
  _ ← (if podDisruptionConditions ctx &&
          negb (bool_decide (pod_Phase pod = PodSucceeded)) && negb (bool_decide (pod_Phase pod = PodFailed))
       then
         now ← Clock_Now;
         Pods_PatchStatus (pod_Namespace pod) (pod_Name pod) (pod_UID pod) PodFailed
           (UpdatePodCondition (mkPodCond "DisruptionTarget" ConditionTrue "DeletionByGCPControllerManager"
              "GCPControllerManager: node no longer exists" now) (pod_Conditions pod))
       else mret tt);
  Pods_Delete (pod_Namespace pod) (pod_Name pod).

(** Every pod is tried; the errors are collected. *)
Fixpoint deletePods (pods : list Pod) (errs : list error) : io W unit :=
  match pods with
  | [] => if bool_decide (errs ≠ []) then fail (Errorf "aggregate") else mret tt
  | pod :: pods =>
      r ← try (markFailedAndDeletePodWithCondition pod);
      deletePods pods match r with inl err => errs ++ [err] | inr _ => errs end
  end.

Definition deleteAllPodsBoundToNode (nodeName : string) : io W unit :=
  r ← try (Pods_ListOnNode nodeName);
  match r with
  | inl _ => fail (Errorf "failed to list pods on node: %v: %v")
  | inr pods => deletePods pods []
  end.

(** Pods are cleared when that is enabled; a failure is only logged. *)
Definition clearStalePods (nodeName : string) : io W unit :=
  if clearStalePodsOnNodeRegistration ctx then handled (deleteAllPodsBoundToNode nodeName) else mret tt.

Definition ensureNodeMatchesMetadataOrDelete (csr : CSR) (x509cr : X509Request) : io W unit :=
  match cut_prefix "system:node:" (CommonName x509cr) with
  | None => mret tt
  | Some nodeName =>
      if bool_decide (nodeName = EmptyString) then mret tt
      else
        r ← try (Nodes_Get nodeName);
        match r with
        | inl err =>
            if IsNotFound err then clearStalePods nodeName
            else fail (Errorf "error getting node %s: %v")
        | inr node =>
            d ← try (shouldDeleteNode node);
            match d with
            | inl _ => fail (Errorf "error determining if node %s should be deleted: %v")
            | inr false => mret tt
            | inr true =>
                r ← try (Nodes_Delete nodeName (node_UID node));
                _ ← clearStalePods nodeName;
                match r with
                | inl err => if IsNotFound err then mret tt else fail (Errorf "error deleting node %s: %v")
                | inr _ => mret tt
                end
            end
        end
  end.
End hook.

(** ** The approver *)
Section approver.
Context {W : Type} `{CertParser} `{Attestation} `{CsrClient W} `{KubeClient W} `{PodClient W} `{NodeCsrCloud W}.
Variable ctx : controllerContext.

(** [validate] and [preApproveHook] are optional. *)
Record csrValidator : Type := mkCsrValidator {
  cv_name : string;
  cv_authFlowLabel : string;
  cv_approveMsg : string;
  cv_denyMsg : string;
  cv_recognize : CSR → X509Request → bool;
  cv_validate : option (CSR → X509Request → io W bool);
  cv_permission : ResourceAttributes;
  cv_preApproveHook : option (CSR → X509Request → io W unit)
}.

Definition nodeclientPermission : ResourceAttributes :=
  mkAttrs "certificates.k8s.io" "certificatesigningrequests" "create" "nodeclient".
Definition selfnodeclientPermission : ResourceAttributes :=
  mkAttrs "certificates.k8s.io" "certificatesigningrequests" "create" "selfnodeclient".

Definition csrValidators : list csrValidator :=
  [mkCsrValidator "kubelet client certificate with TPM attestation and SubjectAccessReview" "kubelet_client_tpm"
     "Auto approving kubelet client certificate with TPM attestation after SubjectAccessReview." EmptyString
     isNodeClientCertWithAttestation (Some (validateTPMAttestation ctx)) nodeclientPermission
     (Some (ensureNodeMatchesMetadataOrDelete ctx));
   mkCsrValidator "kubelet server certificate SubjectAccessReview" "kubelet_server_self"
     "Auto approving kubelet server certificate after SubjectAccessReview." EmptyString
     isNodeServerCert (Some (validateNodeServerCert ctx)) selfnodeclientPermission None] ++
  (if csrApproverAllowLegacyKubelet ctx then
     [mkCsrValidator "kubelet client certificate SubjectAccessReview" "kubelet_client_legacy"
        "Auto approving kubelet client certificate after SubjectAccessReview." EmptyString
        isLegacyNodeClientCert None nodeclientPermission (Some (ensureNodeMatchesMetadataOrDelete ctx))]
   else []).

Definition authorizeSAR (csr : CSR) (rattrs : ResourceAttributes) : io W bool :=
  SubjectAccessReviews_Create (accessReview csr rattrs).

Definition node_updateCSR (csr : CSR) (approved : bool) (msg : string) : io W unit :=
  r ← try (CSRs_UpdateApproval (with_condition (approvalCondition approved msg) csr));
  match r with
  | inl _ => fail (Errorf "error updating approval status for csr: %v")
  | inr _ => mret tt
  end.

(** The first validator that recognizes the request decides. *)
Fixpoint runValidators (vs : list csrValidator) (csr : CSR) (x509cr : X509Request) : io W unit :=
  match vs with
  | [] => mret tt
  | r :: vs =>
      if negb (cv_recognize r csr x509cr) then runValidators vs csr x509cr
      else
        ok ← try (match cv_validate r with Some validate => validate csr x509cr | None => mret true end);
        match ok with
        | inl _ => fail (Errorf "validating CSR %q: %v")
        | inr false => node_updateCSR csr false (cv_denyMsg r)
        | inr true =>
            approved ← authorizeSAR csr (cv_permission r);
            if negb approved
            then fail (Errorf "recognized csr %q as %q but subject access review was not approved")
            else
              _ ← match cv_preApproveHook r with Some hook => hook csr x509cr | None => mret tt end;
              node_updateCSR csr true (cv_approveMsg r)
        end
  end.

Definition nodeApprover_handle (csr : CSR) : io W unit :=
  if settled csr then mret tt
  else
    match ParseCSR (csr_Request csr) with
    | Ret x509cr => runValidators csrValidators csr x509cr
    | Err _ => fail (Errorf "unable to parse csr %q: %v")
    | Panic => lift Panic
    end.
End approver.
