(* ===== verification/CsrApprovers.v ===== *)
(** * CsrApprovers: the other approvers, and the signer

    [istiod_csr_approver.go], [oidc_csr_approver.go],
    [kubelet_readonly_csr_approver.go] and [csr_signer.go] of
    [cmd/gcp-controller-manager]. *)

From S2P Require Import Prelude Bits GoNet GoNetText GoStrings K8s AddressManager Csr NodeIdentity NodeCsr.
Local Open Scope Z_scope.

Definition istiodSignerName : string := "pki.gke.io/istiod".
Definition oidcSignerName : string := "pki.gke.io/gke-oidc".
Definition kubeletReadonlyCSRSignerName : string := "gke.io/kubelet-readonly-client".

(** Already approved or denied. *)
Definition decided (csr : CSR) : bool :=
  let '(approved, denied) := getCertApprovalCondition (csr_Conditions csr) in approved || denied.

(** ** Istiod *)
Definition istiodNameOk (name : string) : bool :=
  let parts := split_on dot name in
  forallb IsDNS1035Label parts &&
  match parts with
  | [p0; p1; p2] =>
      bool_decide (p2 = "svc"%string) && bool_decide (p1 = "istio-system"%string) &&
      (bool_decide (p0 = "istiod"%string) || bool_decide (p0 = "istiod-remote"%string) ||
       bool_decide (p0 = "istio-pilot"%string) || HasPrefix p0 "istiod-")
  | _ => false
  end.
Definition istiod_validDomainNames (names : list string) : bool := forallb istiodNameOk names.

Definition oidcNameOk (name : string) : bool :=
  let parts := split_on dot name in
  forallb IsDNS1035Label parts &&
  match parts with
  | [p0; p1; p2] =>
      bool_decide (p2 = "svc"%string) &&
      (bool_decide (p1 = "anthos-identity-service"%string) || bool_decide (p1 = "kube-system"%string)) &&
      (bool_decide (p0 = "gke-oidc-envoy"%string) || HasPrefix p0 "gke-oidc")
  | _ => false
  end.
Definition oidc_validDomainNames (names : list string) : bool := forallb oidcNameOk names.

Section approvers.
Context {W : Type} `{CertParser} `{CsrClient W}.

(** [approve] sends no message. *)
Definition approve (csr : CSR) : io W unit :=
  CSRs_UpdateApproval (with_condition (approvalCondition true EmptyString) csr).
Definition deny (csr : CSR) (msg : string) : io W unit :=
  CSRs_UpdateApproval (with_condition (approvalCondition false msg) csr).

Definition istiodApprover_handle (csr : CSR) : io W unit :=
  if negb (bool_decide (csr_SignerName csr = istiodSignerName)) then mret tt
  else if decided csr then mret tt
  else if negb (kubelet_hasExactUsages csr [UsageKeyEncipherment; UsageDigitalSignature; UsageServerAuth])
  then deny csr "disallowed usages requested"
  else match ParseCSR (csr_Request csr) with
  | Panic => lift Panic
  | Err _ => deny csr "unable to parse csr"
  | Ret x509cr =>
      if negb (bool_decide (URIs x509cr = [])) || negb (bool_decide (EmailAddresses x509cr = [])) ||
         negb (bool_decide (IPAddresses x509cr = []))
      then deny csr "disallowed sans requested"
      else if negb (bool_decide (CommonName x509cr = EmptyString)) && negb (bool_decide (CommonName x509cr = csr_Username csr))
      then deny csr "bad common name"
      else if negb (bool_decide (csr_Username csr = "system:serviceaccount:istio-system:istiod"%string)) &&
              negb (HasPrefix (csr_Username csr) "system:serviceaccount:istio-system:istiod-")
      then deny csr "permission denied"
      else if negb (istiod_validDomainNames (DNSNames x509cr)) then deny csr "bad dns name"
      else approve csr
  end.

Definition oidcApprover_handle (csr : CSR) : io W unit :=
  if negb (bool_decide (csr_SignerName csr = oidcSignerName)) then mret tt
  else if decided csr then mret tt
  else if negb (kubelet_hasExactUsages csr [UsageClientAuth; UsageServerAuth])
  then deny csr "disallowed usages requested"
  else match ParseCSR (csr_Request csr) with
  | Panic => lift Panic
  | Err _ => deny csr "unable to parse csr"
  | Ret x509cr =>
      if negb (bool_decide (URIs x509cr = [])) || negb (bool_decide (EmailAddresses x509cr = []))
      then deny csr "disallowed sans requested"
      else if negb (HasPrefix (csr_Username csr) "system:serviceaccount:anthos-identity-service:gke-oidc")
      then deny csr "permission denied, disallowed requester"
      else if negb (oidc_validDomainNames (DNSNames x509cr)) then deny csr "bad dns name"
      else approve csr
  end.
End approvers.

(** ** The kubelet read-only approver *)
Definition podNameKey : string := "authentication.kubernetes.io/pod-name".
Definition podUIDKey : string := "authentication.kubernetes.io/pod-uid".
Definition kubeletAPILimitedReaderAnnotationKey : string := "autopilot.gke.io/kubelet-api-limited-reader".
Definition kubeletReadonlyCRCommonName : string := "kubelet-ro-client:".
Definition kubeletReadonlyUsageAllowList : list string := [UsageKeyEncipherment; UsageDigitalSignature; UsageClientAuth].

Record kubeletReadonlyCSRResponse : Type := mkResponse { resp_result : bool; resp_err : option error; resp_message : string }.
Definition accepted (msg : string) : kubeletReadonlyCSRResponse := mkResponse true None msg.
Definition refused (msg : string) : kubeletReadonlyCSRResponse := mkResponse false None msg.
Definition failed (e : error) (msg : string) : kubeletReadonlyCSRResponse := mkResponse false (Some e) msg.

(** Messages that are formatted are given by their format. *)
Definition validateCSRUsage (csr : CSR) : kubeletReadonlyCSRResponse :=
  if bool_decide (csr_Usages csr = []) then refused "csr usage is empty"
  else if forallb (λ u, bool_decide (u ∈ kubeletReadonlyUsageAllowList)) (csr_Usages csr) then accepted "csr usage is valid"
  else refused "csr usage %v is not allowed, allowed usages: %v".

Definition validateCommonName (x509cr : X509Request) : kubeletReadonlyCSRResponse :=
  if bool_decide (CommonName x509cr = EmptyString) then refused "x509cr or CommonName is empty"
  else if negb (HasPrefix (CommonName x509cr) kubeletReadonlyCRCommonName)
  then refused "x509 common name should start with %s"
  else accepted "x509 common name starts with %s".

Section readonly.
Context {W : Type} `{CertParser} `{CsrClient W} `{PodClient W}.
Variable autopilotEnabled : bool.

(** Every named pod carries the annotation. *)
Fixpoint checkPods (namespace : string) (podNames : list string) : io W kubeletReadonlyCSRResponse :=
  match podNames with
  | [] => mret (accepted "Annotation validation passed.")
  | podName :: podNames =>
      r ← try (Pods_Get namespace podName);
      match r with
      | inl _ => mret (failed (Errorf "failed to get pods, error: %v") "failed to get pods, error: %v")
      | inr pod =>
          if bool_decide (default EmptyString (pod_Annotations pod !! kubeletAPILimitedReaderAnnotationKey) = "true"%string)
          then checkPods namespace podNames
          else mret (refused "pod %s does not have annotation with key %s or the value is not true")
      end
  end.

Definition validatePodAnnotation (csr : CSR) : io W kubeletReadonlyCSRResponse :=
  if negb autopilotEnabled then mret (accepted "Bypassing annotation validation because cluster is not a GKE Autopilot cluster.")
  else if bool_decide (csr_Extra csr = ∅) then mret (refused "csr Extra is empty")
  else match csr_Extra csr !! podNameKey with
  | None => mret (refused "csr does not have pod name attached")
  | Some podNames =>
      match csr_Extra csr !! podUIDKey with
      | None => mret (refused "csr does not have pod UID attached")
      | Some podUIDs =>
          if negb (length podNames =? length podUIDs)%nat
          then mret (refused "bad request: length of pod name and UID are not equal")
          else if bool_decide (csr_Username csr = EmptyString) then mret (refused "username is missing")
          else match SplitUsername (csr_Username csr) with
               | Ret (namespace, _) => checkPods namespace podNames
               | Err e => mret (failed e "failed to get namespace from username %s, err: %v")
               | Panic => lift Panic
               end
      end
  end.

Definition kubeletclientPermission : ResourceAttributes :=
  mkAttrs "certificates.k8s.io" "certificatesigningrequests/kubeletclient" "create" EmptyString.

Definition validateRbac (csr : CSR) : io W kubeletReadonlyCSRResponse :=
  r ← try (SubjectAccessReviews_Create (accessReview csr kubeletclientPermission));
  match r with
  | inl e => mret (failed e "subject access review request failed: %v")
  | inr false => mret (refused "user %s is not allowed to create a CSR")
  | inr true => mret (accepted "user %s is allowed to create a CSR")
  end.

Definition newKubeletReadonlyCsrValidator : list (CSR → X509Request → io W kubeletReadonlyCSRResponse) :=
  [λ csr _, mret (validateCSRUsage csr); λ csr _, validatePodAnnotation csr; λ csr _, validateRbac csr;
   λ _ x509cr, mret (validateCommonName x509cr)].

Definition readonly_updateCSR (csr : CSR) (approved : bool) (msg : string) : io W unit :=
  r ← try (CSRs_UpdateApproval (with_condition (approvalCondition approved msg) csr));
  match r with
  | inl _ => fail (Errorf "error updating approval status for csr: %v")
  | inr _ => mret tt
  end.

(** All validators have to accept. *)
Fixpoint allValidators (vs : list (CSR → X509Request → io W kubeletReadonlyCSRResponse)) (csr : CSR) (x509cr : X509Request) : io W unit :=
  match vs with
  | [] => readonly_updateCSR csr true "approved by kubelet readonly approver"
  | validate :: vs =>
      response ← validate csr x509cr;
      match resp_err response with
      | Some _ => fail (Errorf "validating CSR %q failed: validator %q has error %v")
      | None =>
          if negb (resp_result response) then readonly_updateCSR csr false (resp_message response)
          else allValidators vs csr x509cr
      end
  end.

Definition readonlyApprover_handle (csr : CSR) : io W unit :=
  if negb (bool_decide (csr_SignerName csr = kubeletReadonlyCSRSignerName)) then mret tt
  else if settled csr then mret tt
  else match ParseCSR (csr_Request csr) with
  | Ret x509cr => allValidators newKubeletReadonlyCsrValidator csr x509cr
  | Err _ => fail (Errorf "unable to parse csr %q: %v")
  | Panic => lift Panic
  end.
End readonly.

(** ** The signer *)

(** The answer of the signing webhook: an HTTP status with the certificate of
    the returned object (or a body that is none), or a failed request with the
    message in its body, if it has one. *)
Inductive webhookResult : Type :=
| WebhookOk (status : Z) (body : outcome string)
| WebhookFailed (e : error) (bodyError : option string).

Class SigningWebhook (W : Type) : Type := {
  (** the last attempt of [WithExponentialBackoff] around [Post] *)
  Webhook_Sign : CSR → io W webhookResult
}.

(** The signers the controller serves. *)
Definition servedSigner (name : string) : bool :=
  bool_decide (name ∈ [EmptyString; KubeAPIServerClientSignerName; KubeAPIServerClientKubeletSignerName;
    KubeletServingSignerName; LegacyUnknownSignerName; istiodSignerName; oidcSignerName; kubeletReadonlyCSRSignerName]).

Definition IsCertificateRequestApproved (csr : CSR) : bool :=
  let '(approved, denied) := getCertApprovalCondition (csr_Conditions csr) in approved && negb denied.

Section signer.
Context {W : Type} `{CertParser} `{CsrClient W} `{KubeClient W} `{SigningWebhook W}.

Definition webhookError (csr : CSR) (e : error) : io W CSR :=
  _ ← Recorder_Eventf (mkRef "CertificateSigningRequest" (csr_Name csr) EmptyString) "SigningError";
  fail e.

Definition sign (csr : CSR) : io W CSR :=
  result ← Webhook_Sign csr;
  match result with
  | WebhookFailed e bodyError =>
      webhookError csr match bodyError with Some _ => Errorf "server responded with error: %s" | None => e end
  | WebhookOk status body =>
      if (status <? 200) || (300 <=? status)
      then webhookError csr (Errorf "received unsuccessful response code from webhook: %d")
      else match body with
           | Ret certificate => mret (with_certificate certificate csr)
           | Err e => webhookError csr e
           | Panic => lift Panic
           end
  end.

(** Whether the request was for this signer, and the signed object. *)
Definition handleInternal (csr : CSR) : io W (bool * option CSR) :=
  if negb (IsCertificateRequestApproved csr) then mret (false, None)
  else if negb (servedSigner (csr_SignerName csr)) then mret (false, None)
  else match ParseCSR (csr_Request csr) with
  | Panic => lift Panic
  | Err _ => fail (Errorf "unable to parse csr %q: %v")
  | Ret _ =>
      r ← try (sign csr);
      match r with
      | inl _ => fail (Errorf "error auto signing csr: %v")
      | inr csr =>
          r ← try (CSRs_UpdateStatus csr);
          match r with
          | inl _ => fail (Errorf "error updating signature for csr: %v")
          | inr csr => mret (true, Some csr)
          end
      end
  end.

Definition gkeSigner_handle (csr : CSR) : io W unit := _ ← handleInternal csr; mret tt.
End signer.
