(* ===== verification/NodeCsrProps.v ===== *)
(** * NodeCsrProps: what the certificate controllers see and decide, and which node certificates are approved

    The calls of the approvers and of the signer split into questions, which
    leave the certificate requests of the cluster alone, and the two updates.
    [IoLogic.quiet] is the rule set for the questions, [CsrWorld] what the services
    promise about their answers and updates, [decides] the shape of an approver:
    at most one decision, on the request it was given, with a reason. *)
From S2P Require Import Prelude GoNet GoNetText K8s GceInstances GoStrings IoLogic Csr AddressManager NodeIdentity NodeCsr CsrApprovers.

(** Every item of the pages, in order. *)
Fixpoint page_items {A} (p : pages A) : list A :=
  match p with MorePages items rest => items ++ page_items rest | _ => [] end.

Lemma findInPages_sound {A} (f : A → bool) p : findInPages f p = Ret true → ∃ x, x ∈ page_items p ∧ f x = true.
Proof.
  induction p as [|e|items rest IH]; simpl; [done..|].
  destruct (existsb f items) eqn:Hf; intros Hr.
  - apply existsb_exists in Hf as (x & Hx & Hfx). exists x. rewrite elem_of_app, list_elem_of_In. auto.
  - destruct (IH Hr) as (x & Hx & ?). exists x. rewrite elem_of_app. auto.
Qed.

(** ** The services

    [log] are the decisions the API server has stored, oldest first.  The other
    fields name facts of the cluster and of the cloud that a positive answer
    vouches for. *)
Class CsrWorld (W : Type) `{CsrClient W} `{KubeClient W} `{PodClient W} `{NodeCsrCloud W} : Type := {
  log : W → list CSR;
  Allowed : SubjectAccessReview → Prop;
  HasVM : string → string → string → VM → Prop;
  HasSigningKey : string → string → string → string → Prop;
  ClusterPools : string → list (list string) → Prop;
  Refers : string → string → string → string → Prop;
  Manages : string → string → string → Z → Prop;
  HasPod : string → string → Pod → Prop;

  review_spec sar : quiet log (SubjectAccessReviews_Create sar) (λ b, b = true → Allowed sar);
  vm_spec p z n : quiet log (VMs_Get p z n) (HasVM p z n);
  identity_spec p z n : quiet log (GetShieldedVmIdentity p z n) (λ r, ∀ ek, r = Some ek → HasSigningKey p z n ek);
  cluster_spec c : quiet log (Clusters_Get c) (ClusterPools c);
  referrers_spec p z n : quiet log (ListReferrers p z n) (λ ps, ∀ r, r ∈ page_items ps → Refers p z n r);
  managed_spec p l g : quiet log (ListManagedInstances p l g) (λ ps, ∀ i, i ∈ page_items ps → Manages p l g i);
  pod_spec ns n : quiet log (Pods_Get ns n) (HasPod ns n);

  list_pods_quiet n : quiet log (Pods_ListOnNode n) (λ _, True);
  patch_pod_quiet ns n u p c : quiet log (Pods_PatchStatus ns n u p c) (λ _, True);
  delete_pod_quiet ns n : quiet log (Pods_Delete ns n) (λ _, True);
  delete_node_quiet n u : quiet log (Nodes_Delete n u) (λ _, True);
  get_node_quiet n : quiet log (Nodes_Get n) (λ _, True);
  now_quiet : quiet log Clock_Now (λ _, True);

  (** A failed update may have been stored. *)
  approval_spec csr w : let '(r, w') := CSRs_UpdateApproval csr w in
    r ≠ Panic ∧ (log w' = log w ++ [csr] ∨ (is_err r = true ∧ log w' = log w))
}.

#[global] Hint Resolve review_spec vm_spec identity_spec cluster_spec referrers_spec managed_spec pod_spec
  list_pods_quiet patch_pod_quiet delete_pod_quiet delete_node_quiet get_node_quiet now_quiet : ipam.

(** ** Decisions *)
Section decides.
Context {W : Type} `{CsrWorld W}.

(** At most one decision on [csr], and an approval only when [P]. *)
Definition decides (csr : CSR) (P : Prop) (m : io W unit) : Prop :=
  ∀ w, wp m (λ _ w', log w' = log w ∨
    ∃ b msg, log w' = log w ++ [with_condition (approvalCondition b msg) csr] ∧ (b = true → P)) w.

Lemma decides_quiet csr P m Q : quiet log m Q → decides csr P m.
Proof. intros Hm w. eapply wp_mono, Hm. intros r w' [? _]. by left. Qed.

Lemma decides_bind {A} csr P (m : io W A) (f : A → io W unit) Q :
  quiet log m Q → (∀ a, Q a → decides csr P (f a)) → decides csr P (m ≫= f).
Proof.
  intros Hm Hf w. wp_step. eapply wp_mono, Hm. intros [a|e|] w' [Hl HQ]; [|by left..].
  eapply wp_mono, Hf; [|by apply HQ]. intros r w''. by rewrite Hl.
Qed.

Lemma decides_mono csr (P Q : Prop) m : (P → Q) → decides csr P m → decides csr Q m.
Proof. intros HPQ Hm w. eapply wp_mono, Hm. intros r w' [?|(b & msg & ? & ?)]; [by left|right]. eauto 6. Qed.

Lemma update_decides csr (P : Prop) b msg : (b = true → P) →
  decides csr P (CSRs_UpdateApproval (with_condition (approvalCondition b msg) csr)).
Proof.
  intros HP w. apply wp_intro. intros r w' Hr.
  pose proof (approval_spec (with_condition (approvalCondition b msg) csr) w) as Hs. rewrite Hr in Hs.
  destruct Hs as [_ [Hl|[_ Hl]]]; [right; eauto|by left].
Qed.

(** The update with its error wrapped, as the three controllers write it. *)
Lemma wrapped_update_decides csr (P : Prop) b msg e : (b = true → P) →
  decides csr P (r ← try (CSRs_UpdateApproval (with_condition (approvalCondition b msg) csr));
                 match r with inl _ => fail e | inr _ => mret tt end).
Proof.
  intros HP w. wp_step. wp_step. eapply wp_mono, (update_decides csr P b msg HP).
  intros [[]|e'|] w' Hd; [by wp_step..|done].
Qed.
End decides.

Ltac decides_step :=
  cbv beta iota zeta;
  lazymatch goal with
  | |- decides _ _ (mret _) => apply (decides_quiet _ _ _ (λ _, True)), quiet_ret, I
  | |- decides _ _ (fail _) => apply (decides_quiet _ _ _ (λ _, True)), quiet_fail
  | |- decides _ _ (lift _) => eapply (decides_quiet _ _ _ (λ _, True)), quiet_lift; done
  | |- decides _ _ (try _ ≫= _) => eapply decides_bind; [apply quiet_try|]
  | |- decides _ _ (_ ≫= _) => eapply decides_bind; [|]
  end.

(** ** Approval: which node certificates are approved

    The checks of [node_csr_approver.go] as propositions, the functions that
    decide them, and the soundness of the approver: a stored approval implies
    the checks, and the facts the cloud vouched for. *)

(** ** Recognizers as propositions *)

(** As many usages as [us], all of them in [us]. *)
Definition usages_are (csr : CSR) (us : list string) : Prop := length (csr_Usages csr) = length us ∧ csr_Usages csr ⊆ us.

Lemma hasExactUsages_spec csr us : hasExactUsages csr us = true ↔ usages_are csr us.
Proof.
  unfold hasExactUsages, usages_are. destruct (Nat.eqb_spec (length us) (length (csr_Usages csr))) as [E|E]; simpl.
  - rewrite forallb_forall. setoid_rewrite <- list_elem_of_In. setoid_rewrite bool_decide_eq_true.
    setoid_rewrite elem_of_list_to_set. split; [intros Hu; split; [done|exact Hu]|by intros [_ Hu]].
  - split; [done|]. intros [? _]. done.
Qed.

(** Without repetitions the usages are exactly the wanted ones. *)
Lemma usages_are_permutation csr us : NoDup (csr_Usages csr) → usages_are csr us → csr_Usages csr ≡ₚ us.
Proof. intros Hn [Hl Hs]. apply submseteq_length_Permutation; [by apply NoDup_submseteq|lia]. Qed.

Definition node_cert (x : X509Request) (name : string) : Prop :=
  Organization x = ["system:nodes"%string] ∧ EmailAddresses x = [] ∧ URIs x = [] ∧
  CommonName x = ("system:node:" +:+ name)%string.

Lemma kubelet_isNodeCert_spec x : kubelet_isNodeCert x = true ↔ ∃ name, node_cert x name.
Proof.
  unfold kubelet_isNodeCert, node_cert. repeat case_bool_decide; simpl; rewrite ?HasPrefix_spec; naive_solver.
Qed.

(** A client certificate for the node [name]. *)
Definition client_cert (csr : CSR) (x : X509Request) (name : string) : Prop :=
  node_cert x name ∧ csr_SignerName csr = KubeAPIServerClientKubeletSignerName ∧
  DNSNames x = [] ∧ IPAddresses x = [] ∧
  (usages_are csr kubeletClientUsagesNoEncipherment ∨ usages_are csr kubeletClientUsages).

Lemma isNodeClientCert_spec csr x : isNodeClientCert csr x = true ↔ ∃ name, client_cert csr x name.
Proof.
  unfold isNodeClientCert, client_cert, kubelet_hasExactUsages.
  destruct (kubelet_isNodeCert x) eqn:Hn; simpl.
  - apply kubelet_isNodeCert_spec in Hn as [name Hn].
    repeat case_bool_decide; simpl; rewrite ?orb_true_iff, ?hasExactUsages_spec; naive_solver.
  - split; [done|]. intros (name & Hname & _). apply not_true_iff_false in Hn. destruct Hn. apply kubelet_isNodeCert_spec. eauto.
Qed.

Definition serving_cert (csr : CSR) (x : X509Request) (name : string) : Prop :=
  node_cert x name ∧ csr_SignerName csr = KubeletServingSignerName ∧
  (usages_are csr kubeletServerUsagesNoEncipherment ∨ usages_are csr kubeletServerUsages) ∧
  csr_Username csr = CommonName x.

Lemma isNodeServerCert_spec csr x : isNodeServerCert csr x = true ↔ ∃ name, serving_cert csr x name.
Proof.
  unfold isNodeServerCert, serving_cert, kubelet_hasExactUsages.
  destruct (kubelet_isNodeCert x) eqn:Hn; simpl.
  - apply kubelet_isNodeCert_spec in Hn as [name Hn].
    setoid_rewrite <- hasExactUsages_spec.
    destruct (hasExactUsages csr kubeletServerUsagesNoEncipherment), (hasExactUsages csr kubeletServerUsages);
      repeat case_bool_decide; simpl; naive_solver.
  - split; [done|]. intros (name & Hname & _). apply not_true_iff_false in Hn. destruct Hn. apply kubelet_isNodeCert_spec. eauto.
Qed.

(** ** Instance groups *)

(** The user-controlled hint resolves to a group of the cluster, or to nothing. *)
Lemma resolveHint_in igName location urls acc h : resolveHint igName location urls acc = Ret h → h = acc ∨ h ∈ urls.
Proof.
  revert acc. induction urls as [|g urls IH]; intros acc; simpl; [intros [= ->]; auto|].
  rewrite outcome_bind_ret. intros ([gn gl] & _ & [E|E]%IH); [|set_solver]. case_match; set_solver.
Qed.
Lemma validateInstanceGroupHint_in urls hint h : validateInstanceGroupHint urls hint = Ret h → h ∈ urls.
Proof.
  unfold validateInstanceGroupHint. case_bool_decide; [done|]. rewrite outcome_bind_ret. intros ([n l] & _ & Hr).
  rewrite outcome_bind_ret in Hr. destruct Hr as (r & [->|Hr]%resolveHint_in & Hh); case_bool_decide; naive_solver.
Qed.

Section membership.
Context {W : Type} `{Attestation} `{CsrWorld W}.
Variable ctx : controllerContext.

Definition clusterPath : string :=
  ("projects/" +:+ cfg_ProjectID (gcpCfg ctx) +:+ "/locations/" +:+ cfg_Location (gcpCfg ctx) +:+
   "/clusters/" +:+ cfg_ClusterName (gcpCfg ctx))%string.

(** Some group among [urls] contains the instance, by the list of the group or
    by what refers to the instance. *)
Definition member_of (urls : list string) (inst : VM) : Prop :=
  (∃ url name location, url ∈ urls ∧ parseInstanceGroupURL url = Ret (name, location) ∧
     HasPrefix (path_Base (vm_Zone inst)) location = true ∧
     Manages (cfg_ProjectID (gcpCfg ctx)) location name (vm_Id inst)) ∨
  (lr_enabled (csrApproverListReferrersConfig ctx) = true ∧ ∃ r, r ∈ clusterInstanceGroupMap urls ∧
     Refers (cfg_ProjectID (gcpCfg ctx)) (path_Base (vm_Zone inst)) (vm_Name inst) r).

Definition member (inst : VM) : Prop := ∃ pools, ClusterPools clusterPath pools ∧ member_of (mjoin pools) inst.

Lemma checkInstanceReferrers_sound inst urls : quiet log (checkInstanceReferrers ctx inst urls)
  (λ b, b = true → ∃ r, r ∈ clusterInstanceGroupMap urls ∧
     Refers (cfg_ProjectID (gcpCfg ctx)) (path_Base (vm_Zone inst)) (vm_Name inst) r).
Proof.
  unfold checkInstanceReferrers. quiet_step; [eauto with ipam|]. intros ps Hps. quiet_step. intros b Hb ->.
  apply findInPages_sound in Hb as (r & Hr & Hin%bool_decide_eq_true_1). eauto.
Qed.

Lemma retryReferrers_sound n inst urls : quiet log (retryReferrers ctx n inst urls)
  (λ b, b = true → ∃ r, r ∈ clusterInstanceGroupMap urls ∧
     Refers (cfg_ProjectID (gcpCfg ctx)) (path_Base (vm_Zone inst)) (vm_Name inst) r).
Proof.
  induction n as [|n IH]; simpl; [by quiet_step|].
  quiet_step; [apply checkInstanceReferrers_sound|]. intros [e|[]] Hr; [done|by quiet_step|done].
Qed.

Lemma groupHasInstance_sound l g i : quiet log (groupHasInstance ctx l g i)
  (λ b, b = true → Manages (cfg_ProjectID (gcpCfg ctx)) l g i).
Proof.
  unfold groupHasInstance. quiet_step; [eauto with ipam|]. intros ps Hps. quiet_step. intros b Hb ->.
  apply findInPages_sound in Hb as (r & Hr & ->%Z.eqb_eq). eauto.
Qed.

Lemma searchGroups_sound all inst urls errs : urls ⊆ all →
  quiet log (searchGroups ctx inst urls errs) (λ b, b = true → member_of all inst).
Proof.
  revert errs. induction urls as [|url urls IH]; intros errs Hall; simpl.
  { case_bool_decide; by quiet_step. }
  assert (urls ⊆ all) as Hall' by set_solver.
  destruct (parseInstanceGroupURL url) as [[name location]| |] eqn:Hp; [|auto|by quiet_step].
  destruct (HasPrefix (path_Base (vm_Zone inst)) location) eqn:Hz; simpl; [|auto].
  quiet_step; [apply groupHasInstance_sound|]. intros [e|[]] Hr; [auto| |auto].
  quiet_step. intros _. left. exists url, name, location. repeat split; [set_solver|auto..].
Qed.

Lemma getClusterInstanceGroupUrls_spec : quiet log (getClusterInstanceGroupUrls ctx)
  (λ urls, ∃ pools, ClusterPools clusterPath pools ∧ urls = mjoin pools).
Proof.
  unfold getClusterInstanceGroupUrls. quiet_step; [apply cluster_spec|]. intros [e|pools] Hp; quiet_step. eauto.
Qed.

(** Whatever the hint says, a positive answer means membership. *)
Lemma clusterHasInstance_member inst hint : quiet log (clusterHasInstance ctx inst hint) (λ b, b = true → member inst).
Proof.
  unfold clusterHasInstance. quiet_step; [apply getClusterInstanceGroupUrls_spec|].
  intros urls (pools & Hp & Hu).
  assert (∀ b : bool, (b = true → member_of urls inst) → b = true → member inst) as Hm.
  { intros b Hb ->. exists pools. subst urls. auto. }
  eapply (quiet_bind _ _ _ (λ b, b = true → member_of urls inst)).
  - unfold checkInstanceReferrersBackOff. destruct (lr_enabled _) eqn:He; simpl; [|by quiet_step].
    eapply quiet_mono, retryReferrers_sound. intros b Hb Ht. right. auto.
  - intros [] Hb; [quiet_step; by apply Hm|]. apply (quiet_mono _ _ (λ b, b = true → member_of urls inst)); [apply Hm|]. apply searchGroups_sound.
    destruct (validateInstanceGroupHint urls hint) as [h| |] eqn:Hh; [|set_solver..].
    apply validateInstanceGroupHint_in in Hh. set_solver.
Qed.
End membership.

(** ** TPM attestation *)
Section attestation.
Context {W : Type} `{Attestation} `{CsrWorld W}.
Variable ctx : controllerContext.

(** [key] is the signing key that the cloud has for the VM [nodeID] names. *)
Definition signing_key (nodeID : Identity) (key : RSAPublicKey) : Prop :=
  ∃ ek ty bytes rest, HasSigningKey (Uitoa (id_ProjectID nodeID)) (id_Zone nodeID) (id_Name nodeID) ek ∧
    pem_Decode ek = (Some (ty, bytes), rest) ∧ ParsePKIXPublicKey bytes = Ret (Some key).

(** The request proves possession of [pub] by a statement the VM's key signed. *)
Definition attested (request : string) (pub : PublicKey) (nodeID : Identity) : Prop :=
  ∃ blocks idRaw data sig key info tpmPub, parsePEMBlocks request = Ret blocks ∧
    blocks !! "VM IDENTITY"%string = Some idRaw ∧ unmarshal_Identity idRaw = Ret nodeID ∧
    blocks !! "ATTESTATION DATA"%string = Some data ∧ blocks !! "ATTESTATION SIGNATURE"%string = Some sig ∧
    signing_key nodeID key ∧ rsa_VerifyPKCS1v15 key (sha256_Sum256 data) sig = true ∧
    DecodeAttestationData data = Ret (mkAttestation (Some info)) ∧
    MakePublic pub = Ret tpmPub ∧ MatchesPublic info tpmPub = Ret true.

(** What an accepted attestation establishes about the node [name]. *)
Definition attested_node (csr : CSR) (x : X509Request) (name : string) : Prop :=
  ∃ nodeID inst, attested (csr_Request csr) (x509_PublicKey x) nodeID ∧
    id_Name nodeID = name ∧ id_ProjectName nodeID = cfg_ProjectID (gcpCfg ctx) ∧
    HasVM (Uitoa (id_ProjectID nodeID)) (id_Zone nodeID) (id_Name nodeID) inst ∧
    (csrApproverVerifyClusterMembership ctx = true → member ctx inst).

Lemma block_Ret blocks name b : block blocks name = Ret b ↔ blocks !! name = Some b.
Proof. unfold block. destruct (blocks !! name); naive_solver. Qed.

Lemma ekPubAndIDFromAPI_spec blocks : quiet log (ekPubAndIDFromAPI blocks)
  (λ r, ∃ idRaw, blocks !! "VM IDENTITY"%string = Some idRaw ∧ unmarshal_Identity idRaw = Ret r.2 ∧ signing_key r.2 r.1).
Proof.
  unfold ekPubAndIDFromAPI. quiet_step.
  { apply quiet_lift. intros a Ha. exact Ha. }
  intros idRaw Hb%block_Ret. destruct (unmarshal_Identity idRaw) as [nodeID| |] eqn:Hid; [|by quiet_step..].
  quiet_step; [apply identity_spec|]. intros [e|[ek|]] Hek; [by quiet_step| |by quiet_step].
  destruct (pem_Decode ek) as [[[ty bytes]|] rest] eqn:Hpem; [|by quiet_step].
  destruct (ParsePKIXPublicKey bytes) as [[key|]| |] eqn:Hk; [|by quiet_step..].
  quiet_step. exists idRaw. repeat split; [done..|]. exists ek, ty, bytes, rest. auto.
Qed.

Lemma keyAttested_true data x : keyAttested data x = Ret true → ∃ info tpmPub,
  DecodeAttestationData data = Ret (mkAttestation (Some info)) ∧ MakePublic (x509_PublicKey x) = Ret tpmPub ∧
  MatchesPublic info tpmPub = Ret true.
Proof.
  unfold keyAttested. destruct (MakePublic _) as [pub| |] eqn:Hp; [|done..].
  destruct (DecodeAttestationData data) as [[[info|]]| |] eqn:Hd; [simpl|done..].
  destruct (MatchesPublic info pub) eqn:Hm; [|done..]. intros [= ->]. exists info, pub. auto.
Qed.

Lemma memberOk_spec inst : quiet log (memberOk ctx inst)
  (λ b, b = true → csrApproverVerifyClusterMembership ctx = true → member ctx inst).
Proof.
  unfold memberOk. destruct (csrApproverVerifyClusterMembership ctx); simpl; [|by quiet_step].
  quiet_step; [by apply (quiet_lift _ _ (λ _, True))|]. intros hint _.
  quiet_step; [apply clusterHasInstance_member|]. intros [e|b] Hb; quiet_step. auto.
Qed.

Lemma validateTPMAttestation_sound csr x name : CommonName x = ("system:node:" +:+ name)%string →
  quiet log (validateTPMAttestation ctx csr x) (λ b, b = true → attested_node csr x name).
Proof.
  intros Hcn. unfold validateTPMAttestation. destruct (parsePEMBlocks _) as [blocks| |] eqn:Hpem; [|by quiet_step..].
  quiet_step; [by apply quiet_lift; intros a Ha; exact Ha|]. intros data Hdata%block_Ret.
  quiet_step; [by apply quiet_lift; intros a Ha; exact Ha|]. intros sig Hsig%block_Ret.
  quiet_step; [apply ekPubAndIDFromAPI_spec|]. intros [e|[key nodeID]] Hid; [case_match; by quiet_step|].
  destruct Hid as (idRaw & Hraw & Hun & Hkey). simpl in Hun, Hkey. rewrite Hcn, TrimPrefix_app.
  case_bool_decide as Hname; simpl; [|by quiet_step]. case_bool_decide as Hproj; simpl; [|by quiet_step].
  quiet_step; [apply vm_spec|]. intros [e|inst] Hvm; [case_match; by quiet_step|].
  quiet_step; [apply memberOk_spec|]. intros mem Hmem. destruct mem; simpl; [|by quiet_step].
  destruct (rsa_VerifyPKCS1v15 _ _ _) eqn:Hrsa; simpl; [|by quiet_step].
  quiet_step. intros b Hb ->. apply keyAttested_true in Hb as (info & pub & Hd & Hp & Hm).
  exists nodeID, inst. repeat split; [|done..|auto].
  exists blocks, idRaw, data, sig, key, info, pub. auto 10.
Qed.
End attestation.

(** ** Serving certificates *)

(** The names a node may have in a serving certificate. *)
Definition dns_names (name zone project : string) : list string :=
  [name; name +:+ ".c." +:+ project +:+ ".internal"; name +:+ "." +:+ zone +:+ ".c." +:+ project +:+ ".internal"]%string.

Lemma dnsNameOk_spec name zone project dns : dnsNameOk name zone project dns = true ↔ dns ∈ dns_names name zone project.
Proof.
  unfold dnsNameOk, dns_names. rewrite !orb_true_iff, !bool_decide_eq_true, !elem_of_cons, elem_of_nil. tauto.
Qed.

(** An address of a certificate is one of the VM, as bytes or in the IPv6 form. *)
Definition ip_forms (ip x : list Z) : Prop :=
  ip = x ∨ (length ip = IPv4len ∧ x = v4InV6Prefix ++ ip) ∨ (length x = IPv4len ∧ ip = v4InV6Prefix ++ x).

Lemma IP_Equal_spec ip x : IP_Equal ip x = true → ip_forms ip x.
Proof.
  unfold IP_Equal, ip_forms. destruct (Nat.eqb_spec (length ip) (length x)); [intros ?%bool_decide_eq_true_1; auto|].
  destruct (Nat.eqb_spec (length ip) IPv4len), (Nat.eqb_spec (length x) IPv6len),
    (Nat.eqb_spec (length ip) IPv6len), (Nat.eqb_spec (length x) IPv4len); cbn [andb]; intros ?; propify; try done;
    solve [right; left; split; [done|]; rewrite <- (take_drop 12 x); congruence
          |right; right; split; [done|]; rewrite <- (take_drop 12 ip); congruence].
Qed.

Section serving.
Context {W : Type} `{Attestation} `{CsrWorld W}.
Variable ctx : controllerContext.

(** A VM of that name in a zone of the cluster has every name and address of the
    certificate. *)
Definition serving_node (x : X509Request) (name : string) : Prop :=
  IPAddresses x ≠ [] ∧ ∃ zone inst project,
    zone ∈ cfg_Zones (gcpCfg ctx) ∧ HasVM (cfg_ProjectID (gcpCfg ctx)) zone name inst ∧
    dnsProject (cfg_ProjectID (gcpCfg ctx)) = Some project ∧ DNSNames x ⊆ dns_names name zone project ∧
    ∀ ip, ip ∈ IPAddresses x → ∃ a, a ∈ getInstanceIps (vm_NetworkInterfaces inst) ∧ ip_forms ip (ParseIP a).

Lemma validateInZones_sound csr x name zones : IPAddresses x ≠ [] → zones ⊆ cfg_Zones (gcpCfg ctx) →
  quiet log (validateInZones ctx csr x name zones) (λ b, b = true → serving_node x name).
Proof.
  intros Hne. induction zones as [|z zones IH]; intros Hz; simpl; [by quiet_step|].
  quiet_step; [apply vm_spec|]. intros [e|inst] Hvm.
  { case_match; [apply IH; set_solver|quiet_step]. }
  destruct (dnsProject _) as [project|] eqn:Hp; [|by quiet_step].
  destruct (forallb (dnsNameOk _ _ _) _) eqn:Hdns; simpl; [|by quiet_step].
  quiet_step. intros Hips. split; [done|]. exists z, inst, project. repeat split; [set_solver|done..| |].
  - intros d Hd. apply dnsNameOk_spec. rewrite forallb_forall in Hdns. by apply Hdns, list_elem_of_In.
  - intros ip Hip. rewrite forallb_forall in Hips. apply list_elem_of_In in Hip. specialize (Hips ip Hip).
    apply existsb_exists in Hips as (a & Ha%list_elem_of_In & Heq%IP_Equal_spec). eauto.
Qed.

Lemma validateNodeServerCert_sound csr x name : csr_Username csr = ("system:node:" +:+ name)%string →
  quiet log (validateNodeServerCert ctx csr x) (λ b, b = true → serving_node x name).
Proof.
  intros Hu. unfold validateNodeServerCert. case_bool_decide as Hip; [by quiet_step|].
  case_match; [by quiet_step|]. rewrite Hu, TrimPrefix_app. by apply validateInZones_sound.
Qed.
End serving.

(** ** The hook is quiet *)
Section hook.
Context {W : Type} `{CsrWorld W}.
Variable ctx : controllerContext.

Lemma handled_quiet (m : io W unit) P : quiet log m P → quiet log (handled m) (λ _, True).
Proof. intros Hm. unfold handled. quiet_step; [exact Hm|]. intros [] _; by quiet_step. Qed.

Lemma getInstanceInZones_quiet zones name : quiet log (getInstanceInZones ctx zones name) (λ _, True).
Proof.
  induction zones as [|z zones IH]; simpl; [by quiet_step|]. quiet_step; [apply vm_spec|].
  intros [e|inst] _; [case_match; [done|]|]; by quiet_step.
Qed.

Lemma shouldDeleteNode_quiet n : quiet log (shouldDeleteNode ctx n) (λ _, True).
Proof.
  unfold shouldDeleteNode, getInstanceByName. quiet_step; [apply getInstanceInZones_quiet|].
  intros [e|inst] _; [case_match|]; by quiet_step.
Qed.

Lemma markFailed_quiet pod : quiet log (markFailedAndDeletePodWithCondition ctx pod) (λ _, True).
Proof.
  unfold markFailedAndDeletePodWithCondition. eapply (quiet_bind _ _ _ (λ _, True)); [|auto with ipam].
  case_match; [|by quiet_step]. quiet_step; [apply now_quiet|auto with ipam].
Qed.

Lemma deletePods_quiet pods errs : quiet log (deletePods ctx pods errs) (λ _, True).
Proof.
  revert errs. induction pods as [|pod pods IH]; intros errs; simpl; [case_bool_decide; by quiet_step|].
  quiet_step; [apply markFailed_quiet|]. auto.
Qed.

Lemma clearStalePods_quiet name : quiet log (clearStalePods ctx name) (λ _, True).
Proof.
  unfold clearStalePods. case_match; [|by quiet_step]. apply (handled_quiet _ (λ _, True)).
  unfold deleteAllPodsBoundToNode. quiet_step; [apply list_pods_quiet|]. intros [e|pods] _; [by quiet_step|apply deletePods_quiet].
Qed.

Lemma ensureNode_quiet csr x : quiet log (ensureNodeMatchesMetadataOrDelete ctx csr x) (λ _, True).
Proof.
  unfold ensureNodeMatchesMetadataOrDelete. case_match; [|by quiet_step]. case_bool_decide; [by quiet_step|].
  quiet_step; [apply get_node_quiet|]. intros [e|node] _; [case_match; [apply clearStalePods_quiet|by quiet_step]|].
  quiet_step; [apply shouldDeleteNode_quiet|]. intros [e|[]] _; [by quiet_step| |by quiet_step].
  quiet_step; [apply delete_node_quiet|]. intros r _.
  quiet_step; [apply clearStalePods_quiet|]. intros _ _. destruct r; [case_match|]; by quiet_step.
Qed.
End hook.

(** ** The approver *)
Section approver.
Context {W : Type} `{CertParser} `{Attestation} `{CsrWorld W}.
Variable ctx : controllerContext.

(** The three ways to an approval. *)
Inductive justified (csr : CSR) (x : X509Request) (name : string) : Prop :=
| by_attestation : client_cert csr x name → csr_Username csr = tpmKubeletUsername →
    Allowed (accessReview csr nodeclientPermission) → attested_node ctx csr x name → justified csr x name
| by_serving : serving_cert csr x name → Allowed (accessReview csr selfnodeclientPermission) →
    serving_node ctx x name → justified csr x name
| by_legacy : csrApproverAllowLegacyKubelet ctx = true → client_cert csr x name →
    csr_Username csr = legacyKubeletUsername → Allowed (accessReview csr nodeclientPermission) → justified csr x name.

(** A validator whose recognition and validation together with the review
    justify the request decides soundly. *)
Definition sound_validator (v : csrValidator) : Prop := ∀ csr x, cv_recognize v csr x = true →
  ∃ P : bool → Prop, quiet log (match cv_validate v with Some validate => validate csr x | None => mret true end) P ∧
    (P true → Allowed (accessReview csr (cv_permission v)) → ∃ name, justified csr x name) ∧
    quiet log (match cv_preApproveHook v with Some hook => hook csr x | None => mret tt end) (λ _, True).

Lemma csrValidators_sound : Forall sound_validator (csrValidators ctx).
Proof.
  unfold csrValidators. rewrite !Forall_app, !Forall_cons. repeat split; [| |done|].
  - intros csr x. simpl. unfold isNodeClientCertWithAttestation.
    destruct (isNodeClientCert csr x) eqn:Hc; [simpl|done]. apply isNodeClientCert_spec in Hc as (name & Hc).
    case_bool_decide as Hu; [intros _|done].
    exists (λ b, b = true → attested_node ctx csr x name). split; [|split; [|apply ensureNode_quiet]].
    + apply validateTPMAttestation_sound, Hc.
    + intros Ha Hal. exists name. apply by_attestation; auto.
  - intros csr x. simpl. intros (name & Hc)%isNodeServerCert_spec.
    exists (λ b, b = true → serving_node ctx x name). split; [|split; [|by quiet_step]].
    + apply validateNodeServerCert_sound. destruct Hc as ((_ & _ & _ & <-) & _ & _ & ->). done.
    + intros Hs Hal. exists name. apply by_serving; auto.
  - destruct (csrApproverAllowLegacyKubelet ctx) eqn:Hleg; [apply Forall_singleton|done].
    intros csr x. simpl. unfold isLegacyNodeClientCert.
    destruct (isNodeClientCert csr x) eqn:Hc; [simpl|done]. apply isNodeClientCert_spec in Hc as (name & Hc).
    intros Hu%bool_decide_eq_true_1. exists (λ _, True). split; [by quiet_step|split; [|apply ensureNode_quiet]].
    intros _ Hal. exists name. by apply by_legacy.
Qed.

Lemma runValidators_decides vs csr x : Forall sound_validator vs →
  decides csr (∃ name, justified csr x name) (runValidators vs csr x).
Proof.
  induction 1 as [|v vs Hv _ IH]; simpl; [decides_step|].
  destruct (cv_recognize v csr x) eqn:Hr; simpl; [|done].
  destruct (Hv csr x Hr) as (P & Hval & Hj & Hhook).
  decides_step; [exact Hval|]. intros [e|[]] HP; [decides_step| |by apply wrapped_update_decides].
  decides_step; [apply review_spec|]. intros [] Hal; simpl; [|decides_step].
  decides_step; [exact Hhook|]. intros _ _. apply wrapped_update_decides. auto.
Qed.

Lemma settled_spec csr : settled csr = false ↔ csr_Certificate csr = EmptyString ∧
  ∀ c, c ∈ csr_Conditions csr → cc_Type c ≠ CertificateApproved ∧ cc_Type c ≠ CertificateDenied.
Proof.
  unfold settled. rewrite orb_false_iff, negb_false_iff, bool_decide_eq_true.
  apply and_iff_compat_l. induction (csr_Conditions csr) as [|c cs IH]; simpl; [set_solver|].
  destruct (getCertApprovalCondition cs) as [a d]. setoid_rewrite elem_of_cons. rewrite !orb_false_iff in *.
  rewrite !bool_decide_eq_false. split.
  - intros [[? ?] [? ?]] c' [->|Hc]; [done|]. by apply IH.
  - intros Hc. destruct (Hc c) as [? ?]; [by left|]. destruct (proj2 IH) as [? ?]; [|done]. auto.
Qed.

Lemma nodeApprover_decides csr : decides csr (∃ x name, settled csr = false ∧ ParseCSR (csr_Request csr) = Ret x ∧
  justified csr x name) (nodeApprover_handle ctx csr).
Proof.
  unfold nodeApprover_handle. destruct (settled csr) eqn:Hs; [decides_step|].
  destruct (ParseCSR (csr_Request csr)) as [x| |] eqn:Hx; [|decides_step..].
  eapply decides_mono, runValidators_decides, csrValidators_sound. intros [name Hj]. eauto.
Qed.


(** When the identity of the VM cannot be established (a malformed identity
    block, a VM that does not exist or has no signing key, an unusable key), the
    validation fails instead of denying: every error takes the branch meant for
    temporary ones, and the request stays undecided. *)
Theorem identity_errors_never_deny csr x blocks data sig w e w1 :
  settled csr = false → ParseCSR (csr_Request csr) = Ret x → isNodeClientCertWithAttestation csr x = true →
  parsePEMBlocks (csr_Request csr) = Ret blocks → block blocks "ATTESTATION DATA" = Ret data →
  block blocks "ATTESTATION SIGNATURE" = Ret sig → ekPubAndIDFromAPI blocks w = (Err e, w1) →
  nodeApprover_handle ctx csr w = (Err (Errorf "validating CSR %q: %v"), w1) ∧ log w1 = log w.
Proof.
  intros Hs Hx Hrec Hb Hd Hsig Hek. split.
  - unfold nodeApprover_handle. rewrite Hs, Hx. unfold csrValidators. cbn [app runValidators cv_recognize].
    rewrite Hrec. cbn [negb cv_validate]. rewrite io_bind_eq. unfold try at 1, validateTPMAttestation at 1.
    rewrite Hb, Hd, Hsig. unfold lift. rewrite !io_bind_eq. unfold try. by rewrite Hek.
  - by apply (wp_run _ _ _ _ _ Hek (ekPubAndIDFromAPI_spec blocks w)).
Qed.
End approver.

(** ** Checks: the loops and the hook of the node approver

    The search for the group of an instance against a reference, the loop that
    reads PEM blocks, attestations of the wrong kind, and which nodes the hook
    of the approver deletes. *)

(** ** The search over instance groups *)
Section search.
Context {W : Type} `{NodeCsrCloud W}.
Variable ctx : controllerContext.
(** The lists of the groups, when they do not change during the search. *)
Variable managed : string → string → string → outcome (pages Z).
Hypothesis managed_pure : ∀ p l g (w : W), ListManagedInstances p l g w = (managed p l g, w).
Hypothesis managed_returns : ∀ p l g, managed p l g ≠ Panic.

(** What the group at [url] says about the instance; [None] for a group in
    another location. *)
Definition group_answer (inst : VM) (url : string) : option (outcome bool) :=
  match parseInstanceGroupURL url with
  | Ret (name, location) =>
      if HasPrefix (path_Base (vm_Zone inst)) location
      then Some (ps ← managed (cfg_ProjectID (gcpCfg ctx)) location name; findInPages (λ id, (id =? vm_Id inst)%Z) ps)
      else None
  | Err e => Some (Err e)
  | Panic => Some Panic
  end.
Definition says_yes (inst : VM) (url : string) : bool := match group_answer inst url with Some (Ret true) => true | _ => false end.
Definition says_error (inst : VM) (url : string) : bool := match group_answer inst url with Some (Err _) => true | _ => false end.

(** Found if any group has it; otherwise an error if any group could not tell. *)
Definition search_reference (inst : VM) (urls : list string) (failed : bool) : outcome bool :=
  if existsb (says_yes inst) urls then Ret true
  else if failed || existsb (says_error inst) urls then Err (Errorf "clusterHasInstance failed: %q") else Ret false.

Lemma findInPages_returns {A} (f : A → bool) p : findInPages f p ≠ Panic.
Proof. induction p as [|e|items rest IH]; simpl; [done..|]. by destruct (existsb f items). Qed.
Lemma parseInstanceGroupURL_returns url : parseInstanceGroupURL url ≠ Panic.
Proof. unfold parseInstanceGroupURL. by case_match. Qed.

Lemma searchGroups_reference inst urls errs w :
  searchGroups ctx inst urls errs w = (search_reference inst urls (bool_decide (errs ≠ [])), w).
Proof.
  unfold search_reference. revert errs. induction urls as [|url urls IH]; intros errs; simpl.
  { rewrite orb_false_r. by case_bool_decide. }
  unfold says_yes at 1, says_error at 1, group_answer.
  destruct (parseInstanceGroupURL url) as [[name location]|e|] eqn:Hp; [| |by apply parseInstanceGroupURL_returns in Hp].
  2: { rewrite IH, (bool_decide_true (errs ++ [e] ≠ [])) by (by destruct errs). simpl. by rewrite orb_true_r. }
  destruct (HasPrefix _ location); simpl; [|by rewrite IH].
  rewrite io_bind_eq. unfold try, groupHasInstance. rewrite io_bind_eq, managed_pure.
  pose proof (managed_returns (cfg_ProjectID (gcpCfg ctx)) location name).
  destruct (managed _ location name) as [ps|e|]; [|cbn [mbind outcome_bind]|done].
  - unfold lift. cbn [mbind outcome_bind]. pose proof (findInPages_returns (λ id, (id =? vm_Id inst)%Z) ps).
    destruct (findInPages _ ps) as [[]|e|]; [done|by rewrite IH| |done].
    rewrite IH, (bool_decide_true (errs ++ [_] ≠ [])) by (by destruct errs). simpl. by rewrite orb_true_r.
  - rewrite IH, (bool_decide_true (errs ++ [_] ≠ [])) by (by destruct errs). simpl. by rewrite orb_true_r.
Qed.

Lemma existsb_cons_in {A} (f : A → bool) x l : x ∈ l → existsb f (x :: l) = existsb f l.
Proof.
  intros Hx. simpl. destruct (f x) eqn:Hf; [|done]. symmetry. apply existsb_exists. exists x. by rewrite <- list_elem_of_In.
Qed.

(** The instance group an instance names in its own metadata decides nothing:
    for every hint, membership is what the referrers say or else a plain look at
    every group of the cluster (found in one of them; an error if none has it and
    one could not be read). *)
Theorem hint_is_irrelevant inst hint w :
  clusterHasInstance ctx inst hint w =
  (urls ← getClusterInstanceGroupUrls ctx;
   ok ← checkInstanceReferrersBackOff ctx inst urls;
   if (ok : bool) then mret true else lift (search_reference inst urls false)) w.
Proof.
  unfold clusterHasInstance. rewrite !io_bind_eq. destruct (getClusterInstanceGroupUrls ctx w) as [[urls|e|] w1]; [|done..].
  rewrite !io_bind_eq. destruct (checkInstanceReferrersBackOff ctx inst urls w1) as [[[]|e|] w2]; [done| |done..].
  rewrite searchGroups_reference. destruct (validateInstanceGroupHint urls hint) as [g| |] eqn:Hg; [|done..].
  apply validateInstanceGroupHint_in in Hg. unfold search_reference, lift. by rewrite !existsb_cons_in.
Qed.
End search.

(** ** PEM blocks *)
Section pem_loop.
Context `{Attestation}.
(** Decoding a block consumes it, and trimming only removes. *)
Hypothesis pem_shorter : ∀ s b rest, pem_Decode s = (Some b, rest) → (String.length rest < String.length s)%nat.
Hypothesis trim_shorter : ∀ s, (String.length (bytes_TrimSpace s) <= String.length s)%nat.

(** The loop of the code, with no bound on its turns. *)
Inductive pem_loop : string → gmap string string → gmap string string * string → Prop :=
| pem_done raw blocks rest : pem_Decode (bytes_TrimSpace raw) = (None, rest) → pem_loop raw blocks (blocks, rest)
| pem_next raw blocks ty bytes rest r : pem_Decode (bytes_TrimSpace raw) = (Some (ty, bytes), rest) →
    pem_loop rest (<[ ty := bytes ]> blocks) r → pem_loop raw blocks r.

(** The loop over the PEM blocks of a request ends: as many turns as the
    request has bytes are enough, and give the result of the unbounded loop. *)
Theorem pem_loop_ends raw blocks : pem_loop raw blocks (decodeBlocks (S (String.length raw)) raw blocks).
Proof.
  assert (∀ fuel raw blocks, (String.length raw < fuel)%nat → pem_loop raw blocks (decodeBlocks fuel raw blocks)) as Hf; [|auto].
  clear raw blocks. intros fuel. induction fuel as [|fuel IH]; intros raw blocks Hlt; [lia|]. simpl.
  destruct (pem_Decode (bytes_TrimSpace raw)) as [[[ty bytes]|] rest] eqn:Hd; [|by apply pem_done].
  eapply pem_next; [exact Hd|]. apply IH. apply pem_shorter in Hd. pose proof (trim_shorter raw). lia.
Qed.
End pem_loop.

(** ** Attestations of another kind *)
Section panic.
Context {W : Type} `{Attestation} `{NodeCsrCloud W}.
Variable ctx : controllerContext.

(** An attestation signed by the VM's own key that is not of the certify
    kind (a quote, say) has no certify information, and the validator
    dereferences it: the controller panics. *)
Theorem other_attestation_panics csr x blocks data sig key nodeID inst pub w w1 w2 w3 :
  parsePEMBlocks (csr_Request csr) = Ret blocks → block blocks "ATTESTATION DATA" = Ret data →
  block blocks "ATTESTATION SIGNATURE" = Ret sig → ekPubAndIDFromAPI blocks w = (Ret (key, nodeID), w1) →
  CommonName x = ("system:node:" +:+ id_Name nodeID)%string → id_ProjectName nodeID = cfg_ProjectID (gcpCfg ctx) →
  VMs_Get (Uitoa (id_ProjectID nodeID)) (id_Zone nodeID) (id_Name nodeID) w1 = (Ret inst, w2) →
  memberOk ctx inst w2 = (Ret true, w3) → rsa_VerifyPKCS1v15 key (sha256_Sum256 data) sig = true →
  MakePublic (x509_PublicKey x) = Ret pub → DecodeAttestationData data = Ret (mkAttestation None) →
  validateTPMAttestation ctx csr x w = (Panic, w3).
Proof.
  intros Hb Hd Hs Hek Hcn Hp Hvm Hm Hrsa Hpub Hdec. unfold validateTPMAttestation. rewrite Hb, Hd, Hs.
  unfold lift. rewrite !io_bind_eq. unfold try. rewrite Hek, Hcn, TrimPrefix_app.
  rewrite !bool_decide_true by done. cbn [negb]. rewrite io_bind_eq, Hvm, io_bind_eq, Hm.
  cbn [negb]. rewrite Hrsa. cbn [negb]. unfold keyAttested. by rewrite Hpub, Hdec.
Qed.
End panic.

(** ** The nodes the hook deletes *)
Section deletions.
Context {W : Type} `{KubeClient W} `{PodClient W} `{NodeCsrCloud W}.
Variable ctx : controllerContext.
(** The deletions of nodes asked for, by name and UID. *)
Variable deleted : W → list (string * string).
Variable node_exists : string → Node → Prop.
Variable vm_exists : string → string → VM → Prop.
Variable vm_gone : string → string → Prop.
Let project : string := cfg_ProjectID (gcpCfg ctx).

Hypothesis get_node : ∀ n, quiet deleted (Nodes_Get n) (λ node, node_Name node = n ∧ node_exists n node).
Hypothesis get_vm : ∀ z n w, let '(r, w') := VMs_Get project z n w in deleted w' = deleted w ∧
  match r with
  | Ret inst => vm_exists z n inst
  | Err e => e ≠ errInstanceNotFound ∧ (isNotFound e = true → vm_gone z n)
  | Panic => True
  end.
Hypothesis delete_node : ∀ n uid w, let '(_, w') := Nodes_Delete n uid w in
  deleted w' = deleted w ++ [(n, uid)] ∨ deleted w' = deleted w.
Hypothesis list_pods : ∀ n, quiet deleted (Pods_ListOnNode n) (λ _, True).
Hypothesis patch_pod : ∀ ns n u p c, quiet deleted (Pods_PatchStatus ns n u p c) (λ _, True).
Hypothesis delete_pod : ∀ ns n, quiet deleted (Pods_Delete ns n) (λ _, True).
Hypothesis now : quiet deleted Clock_Now (λ _, True).

(** The VM of the node is gone from every zone, or it was replaced by another
    one of the same name. *)
Definition stale (node : Node) : Prop :=
  (∀ z, z ∈ cfg_Zones (gcpCfg ctx) → vm_gone z (node_Name node)) ∨
  (clearStalePodsOnNodeRegistration ctx = true ∧ ∃ z inst id, z ∈ cfg_Zones (gcpCfg ctx) ∧
     vm_exists z (node_Name node) inst ∧ Annotations node !! InstanceIDAnnotationKey = Some id ∧
     id ≠ EmptyString ∧ id ≠ Uitoa (vm_Id inst)).

Lemma getInstanceInZones_spec zones name w : let '(r, w') := getInstanceInZones ctx zones name w in
  deleted w' = deleted w ∧
  match r with
  | Ret inst => ∃ z, z ∈ zones ∧ vm_exists z name inst
  | Err e => e = errInstanceNotFound → ∀ z, z ∈ zones → vm_gone z name
  | Panic => True
  end.
Proof.
  revert w. induction zones as [|z zones IH]; intros w; simpl; [set_solver|].
  rewrite io_bind_eq. unfold try. pose proof (get_vm z name w) as Hvm. fold project.
  destruct (VMs_Get project z name w) as [[inst|e|] w1]; destruct Hvm as [Hl Hvm]; [| |done].
  - split; [done|]. exists z. set_solver.
  - destruct Hvm as [Hne Hgone]. destruct (isNotFound e); [|by split].
    specialize (IH w1). destruct (getInstanceInZones ctx zones name w1) as [r w2]. destruct IH as [Hl' Hr].
    split; [congruence|]. destruct r as [inst|e'|]; [set_solver| |done].
    intros He z' [->|Hz]%elem_of_cons; auto.
Qed.

Lemma shouldDeleteNode_stale node : quiet deleted (shouldDeleteNode ctx node) (λ b, b = true → stale node).
Proof.
  intros w. unfold shouldDeleteNode, getInstanceByName. apply wp_bind, wp_try, wp_intro. intros r w' Hr.
  pose proof (getInstanceInZones_spec (cfg_Zones (gcpCfg ctx)) (node_Name node) w) as Hs. rewrite Hr in Hs.
  destruct Hs as [Hl Hs]. destruct r as [inst|e|]; [| |by split].
  - wp_step. split; [done|]. intros b [= <-] Hb. propify. destruct Hs as (z & Hz & Hvm).
    right. split; [done|]. destruct (Annotations node !! InstanceIDAnnotationKey) as [id|]; [|done]. simpl in *.
    exists z, inst, id. auto.
  - case_bool_decide; wp_step; (split; [done|]); [|done]. intros _ _ _. left. auto.
Qed.

Lemma deletePods_keeps pods errs : quiet deleted (deletePods ctx pods errs) (λ _, True).
Proof using delete_pod patch_pod now.
  revert errs. induction pods as [|pod pods IH]; intros errs; simpl; [case_bool_decide; by quiet_step|].
  quiet_step; [|auto]. unfold markFailedAndDeletePodWithCondition.
  eapply (quiet_bind _ _ _ (λ _, True)); [|auto]. case_match; [|by quiet_step]. quiet_step; [apply now|auto].
Qed.

Lemma clearStalePods_keeps name : quiet deleted (clearStalePods ctx name) (λ _, True).
Proof using delete_pod patch_pod now list_pods.
  unfold clearStalePods. case_match; [|by quiet_step]. unfold handled, deleteAllPodsBoundToNode.
  quiet_step; [|intros [] _; by quiet_step]. quiet_step; [apply list_pods|].
  intros [e|pods] _; [by quiet_step|apply deletePods_keeps].
Qed.

(** Nothing is deleted, or the stale node of the certificate's name. *)
Definition deletes_stale (x : X509Request) (w w' : W) : Prop :=
  deleted w' = deleted w ∨
  ∃ node, CommonName x = ("system:node:" +:+ node_Name node)%string ∧ node_exists (node_Name node) node ∧
    deleted w' = deleted w ++ [(node_Name node, node_UID node)] ∧ stale node.

(** The deletion and what follows it. *)
Lemma delete_tail x node w w2 : deleted w2 = deleted w → CommonName x = ("system:node:" +:+ node_Name node)%string →
  node_exists (node_Name node) node → stale node →
  wp (r ← try (Nodes_Delete (node_Name node) (node_UID node));
      _ ← clearStalePods ctx (node_Name node);
      match r with
      | inl err => if IsNotFound err then mret tt else fail (Errorf "error deleting node %s: %v")
      | inr _ => mret tt
      end) (λ _ w', deletes_stale x w w') w2.
Proof using delete_node delete_pod patch_pod now list_pods.
  intros Hl Hcn Hex Hst. apply wp_bind, wp_try, wp_intro. intros rd w3 Hd.
  pose proof (delete_node (node_Name node) (node_UID node) w2) as Hdel. rewrite Hd in Hdel.
  assert (∀ w4 : W, deleted w4 = deleted w3 → deletes_stale x w w4) as Hend.
  { intros w4 Hw4. destruct Hdel; [right; exists node; repeat split; [done..| |done]|left]; congruence. }
  destruct rd as [[]|e|]; [| |by apply Hend].
  all: apply wp_bind; eapply wp_mono, clearStalePods_keeps; intros [[]|e'|] w4 [Hl4 _]; [|by apply Hend..].
  - wp_step. by apply Hend.
  - case_match; wp_step; by apply Hend.
Qed.

(** C29: before a client certificate is approved at most one node is deleted: the
    node of the certificate's name, with the UID that was read, and only if
    its VM is gone from every zone of the cluster, or (with stale pods cleared)
    carries another instance ID than the node recorded. *)
Theorem hook_deletes_only_stale csr x w r w' :
  ensureNodeMatchesMetadataOrDelete ctx csr x w = (r, w') → deletes_stale x w w'.
Proof.
  intros Hrun. apply (wp_run _ (λ _ w', deletes_stale x w w') _ _ _ Hrun). unfold ensureNodeMatchesMetadataOrDelete.
  destruct (cut_prefix _ (CommonName x)) as [name|] eqn:Hcut; [|wp_step; by left]. apply cut_prefix_spec in Hcut.
  case_bool_decide; [wp_step; by left|]. apply wp_bind, wp_try. eapply wp_mono, get_node.
  intros [node|e|] w1 [Hl1 Hn]; [| |by left].
  2: { case_match; [|wp_step; by left]. eapply wp_mono, clearStalePods_keeps. intros ? w2 [Hl2 _]. left. congruence. }
  destruct (Hn node eq_refl) as [Hname Hnode]. subst name.
  apply wp_bind, wp_try. eapply wp_mono, shouldDeleteNode_stale.
  intros [[]|e|] w2 [Hl2 Hst]; [|wp_step; left; congruence|wp_step; left; congruence|left; congruence].
  apply delete_tail; [congruence|done|done|by apply (Hst true)].
Qed.
End deletions.
