(* ===== verification/CsrApproverProps.v ===== *)
(** * CsrApproverProps: the workflow, the other approvers and the signer

    Soundness of [pkg/csrapproval] for any list of validators, the exact
    conditions under which the istiod, oidc and kubelet read-only approvers
    approve, and what the signer signs. *)

From S2P Require Import Prelude GoNet GoNetText NetUtils GoStrings K8s AddressManager IoLogic Csr NodeIdentity NodeCsr CsrApprovers NodeCsrProps.

(** ** The workflow of [pkg/csrapproval] *)
Section workflow.
Context {W : Type} `{CertParser} `{CsrWorld W}.

(** What the methods of each validator establish, when they answer yes. *)
Variable recognized valid : Validator W → CSR → X509Request → Prop.
Definition vouched (v : Validator W) : Prop := ∀ csr x,
  quiet log (v_Recognize v csr x) (λ b, b = true → recognized v csr x) ∧
  quiet log (v_Validate v csr x) (λ b, b = true → valid v csr x) ∧
  quiet log (v_PreApproveHook v csr x) (λ _, True).

Definition approved_by (v : Validator W) (csr : CSR) (x : X509Request) : Prop :=
  recognized v csr x ∧ valid v csr x ∧ Allowed (accessReview csr (opt_Permission (v_Opts v))).

Lemma tryValidators_decides vs tried csr x : Forall vouched vs →
  decides csr (∃ v, v ∈ vs ∧ approved_by v csr x) (tryValidators vs tried csr x).
Proof.
  intros Hvs. revert tried. induction Hvs as [|v vs Hv Hvs IH]; intros tried; simpl; [case_bool_decide; decides_step|].
  destruct (Hv csr x) as (Hr & Hval & Hhook).
  assert (∀ tried, decides csr (∃ v0, v0 ∈ v :: vs ∧ approved_by v0 csr x) (tryValidators vs tried csr x)) as Hnext.
  { intros t. eapply decides_mono, IH. intros (v' & ? & ?). exists v'. split; [by right|done]. }
  decides_step; [exact Hr|]. intros [] Hrec; simpl; [|apply Hnext].
  decides_step; [exact Hval|]. intros [e|[]] Hok; [decides_step| |by apply wrapped_update_decides].
  decides_step; [apply review_spec|]. intros [] Hal; simpl; [|apply Hnext].
  decides_step; [exact Hhook|]. intros _ _. apply wrapped_update_decides. intros _. exists v.
  split; [by left|]. split; auto.
Qed.

(** The shared approval workflow, for any validators, stores at most one
    decision, on the request it handles; an approval only for a request that is
    undecided and parses, that one of the validators both recognized and
    validated, and whose subject passed that validator's access review. *)
Theorem HandleCSR_sound vs csr w r w' c : Forall vouched vs →
  HandleCSR vs csr w = (r, w') → c ∈ log w' → c ∉ log w →
  ∃ b msg, log w' = log w ++ [c] ∧ c = with_condition (approvalCondition b msg) csr ∧
    (b = true → settled csr = false ∧ ∃ x v, ParseCSR (csr_Request csr) = Ret x ∧ v ∈ vs ∧ approved_by v csr x).
Proof.
  intros Hvs Hrun Hin Hnew. assert (decides csr (settled csr = false ∧ ∃ x v, ParseCSR (csr_Request csr) = Ret x ∧
    v ∈ vs ∧ approved_by v csr x) (HandleCSR vs csr)) as Hd.
  { unfold HandleCSR. destruct (settled csr); [decides_step|].
    destruct (ParseCSR (csr_Request csr)) as [x| |]; [|decides_step..].
    eapply decides_mono, tryValidators_decides, Hvs. intros (v & ? & ?). split; [done|]. by exists x, v. }
  destruct (wp_run _ _ _ _ _ Hrun (Hd w)) as [Hl|(b & msg & Hl & Hj)]; [by rewrite Hl in Hin|].
  rewrite Hl in Hin. apply elem_of_app in Hin as [?|Hc]; [done|]. apply list_elem_of_singleton in Hc as ->. eauto.
Qed.
End workflow.

(** ** Istiod and oidc *)

(** A label has no dot. *)
Lemma label_no_dot s : all_chars label_char s = true → has_char dot s = false.
Proof.
  induction s as [|c s IH]; simpl; [done|]. intros [Hc Hs]%andb_true_iff. rewrite IH by done. rewrite orb_false_r.
  apply bool_decide_eq_false. intros ->. by vm_compute in Hc.
Qed.
Lemma IsDNS1035Label_no_dot s : IsDNS1035Label s = true → has_char dot s = false.
Proof.
  unfold IsDNS1035Label, matches. destruct s as [|c s]; [by rewrite andb_false_r|]. intros ?. propify. by apply label_no_dot.
Qed.

(** The DNS name of the service [svc] in the namespace [ns]. *)
Definition service_name (svc ns : string) : string := (svc +:+ "." +:+ ns +:+ ".svc")%string.

Lemma split_service_name svc ns : has_char dot svc = false → has_char dot ns = false →
  split_on dot (service_name svc ns) = [svc; ns; "svc"%string].
Proof.
  intros Hs Hn. unfold service_name. change ("." +:+ ns +:+ ".svc")%string with (String dot (ns +:+ ".svc")%string).
  rewrite split_on_app by done. change ".svc"%string with (String dot "svc"). by rewrite split_on_app.
Qed.

Lemma split_three name p0 p1 p2 : split_on dot name = [p0; p1; p2] → p2 = "svc"%string → name = service_name p0 p1.
Proof. intros Hs%split_on_join ->. exact Hs. Qed.

Lemma split_label name parts : split_on dot name = parts → Forall (λ p, has_char dot p = false) parts.
Proof. intros <-. apply GceInstances.split_on_parts. Qed.

(** Two and three label names of the two name checks share this shape. *)
Lemma three_labels name (P : string → string → bool) :
  (forallb IsDNS1035Label (split_on dot name) &&
   match split_on dot name with [p0; p1; p2] => bool_decide (p2 = "svc"%string) && P p0 p1 | _ => false end) = true ↔
  ∃ svc ns, name = service_name svc ns ∧ IsDNS1035Label svc = true ∧ IsDNS1035Label ns = true ∧ P svc ns = true.
Proof.
  split.
  - destruct (split_on dot name) as [|p0 [|p1 [|p2 [|? ?]]]] eqn:Hs; simpl; rewrite ?andb_false_r; try done.
    intros ?. propify. exists p0, p1. repeat split; [by eapply split_three|done..].
  - intros (svc & ns & -> & Hsvc & Hns & HP). rewrite split_service_name by (by apply IsDNS1035Label_no_dot).
    simpl. rewrite Hsvc, Hns, HP. done.
Qed.

Definition istiod_service (svc : string) : Prop :=
  svc = "istiod"%string ∨ svc = "istiod-remote"%string ∨ svc = "istio-pilot"%string ∨ ∃ rev, svc = ("istiod-" +:+ rev)%string.

Lemma istiodNameOk_spec name : istiodNameOk name = true ↔
  ∃ svc, name = service_name svc "istio-system" ∧ IsDNS1035Label svc = true ∧ istiod_service svc.
Proof.
  pose (P := λ p0 p1 : string, bool_decide (p1 = "istio-system"%string) &&
      (bool_decide (p0 = "istiod"%string) || bool_decide (p0 = "istiod-remote"%string) ||
       bool_decide (p0 = "istio-pilot"%string) || HasPrefix p0 "istiod-")).
  transitivity (∃ svc ns, name = service_name svc ns ∧ IsDNS1035Label svc = true ∧ IsDNS1035Label ns = true ∧ P svc ns = true).
  - rewrite <- three_labels. unfold istiodNameOk, P. destruct (split_on dot name) as [|p0 [|p1 [|p2 [|? ?]]]]; try done.
    by rewrite <- !andb_assoc.
  - assert (∀ svc ns, P svc ns = true ↔ ns = "istio-system"%string ∧ istiod_service svc) as HP.
    { intros svc ns. unfold P, istiod_service. rewrite andb_true_iff, !orb_true_iff, !bool_decide_eq_true, HasPrefix_spec. tauto. }
    setoid_rewrite HP. split; [intros (svc & ns & -> & ? & _ & -> & ?); eauto|].
    intros (svc & -> & ? & ?). exists svc, "istio-system"%string. repeat split; done.
Qed.

Definition oidc_service (svc : string) : Prop := ∃ rest, svc = ("gke-oidc" +:+ rest)%string.

Lemma oidcNameOk_spec name : oidcNameOk name = true ↔
  ∃ svc ns, name = service_name svc ns ∧ IsDNS1035Label svc = true ∧ oidc_service svc ∧
    (ns = "anthos-identity-service"%string ∨ ns = "kube-system"%string).
Proof.
  pose (P := λ p0 p1 : string, (bool_decide (p1 = "anthos-identity-service"%string) || bool_decide (p1 = "kube-system"%string)) &&
      (bool_decide (p0 = "gke-oidc-envoy"%string) || HasPrefix p0 "gke-oidc")).
  transitivity (∃ svc ns, name = service_name svc ns ∧ IsDNS1035Label svc = true ∧ IsDNS1035Label ns = true ∧ P svc ns = true).
  - rewrite <- three_labels. unfold oidcNameOk, P. destruct (split_on dot name) as [|p0 [|p1 [|p2 [|? ?]]]]; try done.
    by rewrite <- !andb_assoc.
  - assert (∀ svc ns, P svc ns = true ↔ (ns = "anthos-identity-service"%string ∨ ns = "kube-system"%string) ∧ oidc_service svc) as HP.
    { intros svc ns. unfold P, oidc_service. rewrite andb_true_iff, !orb_true_iff, !bool_decide_eq_true, HasPrefix_spec.
      split; [|tauto]. intros [? [->|?]]; [|tauto]. split; [done|]. by exists "-envoy"%string. }
    setoid_rewrite HP. split; [intros (svc & ns & -> & ? & _ & ? & ?); eauto 7|].
    intros (svc & ns & -> & ? & ? & Hns). exists svc, ns. repeat split; [done..| |done|done]. by destruct Hns as [->| ->].
Qed.

Section decisions.
Context {W : Type} `{CertParser} `{CsrWorld W}.

(** What istiod may ask for. *)
Definition istiod_ok (csr : CSR) : Prop := ∃ x, ParseCSR (csr_Request csr) = Ret x ∧
  usages_are csr [UsageKeyEncipherment; UsageDigitalSignature; UsageServerAuth] ∧
  URIs x = [] ∧ EmailAddresses x = [] ∧ IPAddresses x = [] ∧
  (CommonName x = EmptyString ∨ CommonName x = csr_Username csr) ∧
  (csr_Username csr = "system:serviceaccount:istio-system:istiod"%string ∨
   ∃ rev, csr_Username csr = ("system:serviceaccount:istio-system:istiod-" +:+ rev)%string) ∧
  ∀ n, n ∈ DNSNames x → ∃ svc, n = service_name svc "istio-system" ∧ IsDNS1035Label svc = true ∧ istiod_service svc.

(** What the oidc service may ask for; addresses and the common name are free. *)
Definition oidc_ok (csr : CSR) : Prop := ∃ x, ParseCSR (csr_Request csr) = Ret x ∧
  usages_are csr [UsageClientAuth; UsageServerAuth] ∧ URIs x = [] ∧ EmailAddresses x = [] ∧
  (∃ rest, csr_Username csr = ("system:serviceaccount:anthos-identity-service:gke-oidc" +:+ rest)%string) ∧
  ∀ n, n ∈ DNSNames x → ∃ svc ns, n = service_name svc ns ∧ IsDNS1035Label svc = true ∧ oidc_service svc ∧
    (ns = "anthos-identity-service"%string ∨ ns = "kube-system"%string).

(** An approver that asks nobody is one update, of an approval exactly when [P]. *)
Definition one_update (csr : CSR) (P : Prop) (m : io W unit) : Prop :=
  ∃ b msg, m = CSRs_UpdateApproval (with_condition (approvalCondition b msg) csr) ∧ (b = true ↔ P).

Lemma deny_one_update csr (P : Prop) msg : ¬ P → one_update csr P (deny csr msg).
Proof. intros HP. exists false, msg. by split. Qed.
Lemma approve_one_update csr (P : Prop) : P → one_update csr P (approve csr).
Proof. intros HP. exists true, EmptyString. by split. Qed.

Lemma guard_one_update csr (P : Prop) (bad : bool) msg m :
  (P → bad = false) → (bad = false → one_update csr P m) → one_update csr P (if bad then deny csr msg else m).
Proof. intros HP Hm. destruct bad; [|auto]. apply deny_one_update. intros ?%HP. done. Qed.

Lemma negb_or_false b c : negb b || c = false ↔ b = true ∧ c = false.
Proof. destruct b, c; simpl; intuition congruence. Qed.
Lemma negb_and_false b c : negb b && negb c = false ↔ b = true ∨ c = true.
Proof. destruct b, c; simpl; intuition congruence. Qed.

Lemma istiod_one_update csr : csr_SignerName csr = istiodSignerName → decided csr = false →
  ParseCSR (csr_Request csr) ≠ Panic → one_update csr (istiod_ok csr) (istiodApprover_handle csr).
Proof.
  intros Hs Hd Hp. unfold istiodApprover_handle, kubelet_hasExactUsages. rewrite Hs, Hd. simpl.
  apply guard_one_update; [intros (? & _ & ->%hasExactUsages_spec & _); done|]. intros Hu%negb_false_iff%hasExactUsages_spec.
  destruct (ParseCSR (csr_Request csr)) as [x| |] eqn:Hx; [|apply deny_one_update; intros (? & ? & _); congruence|done].
  assert (∀ P : X509Request → Prop, (∃ x', ParseCSR (csr_Request csr) = Ret x' ∧ P x') ↔ P x) as Hok by (rewrite Hx; naive_solver).
  eassert (istiod_ok csr ↔ _) as Heq by apply Hok. cbv beta in Heq.
  apply guard_one_update; [rewrite Heq, orb_false_iff, negb_or_false, !negb_false_iff, !bool_decide_eq_true; tauto|].
  rewrite orb_false_iff, negb_or_false, !negb_false_iff, !bool_decide_eq_true. intros [[? ?] ?].
  apply guard_one_update; [rewrite Heq, negb_and_false, !bool_decide_eq_true; tauto|].
  rewrite negb_and_false, !bool_decide_eq_true. intros ?.
  apply guard_one_update; [rewrite Heq, negb_and_false, bool_decide_eq_true, HasPrefix_spec; tauto|].
  rewrite negb_and_false, bool_decide_eq_true, HasPrefix_spec. intros ?.
  assert (istiod_validDomainNames (DNSNames x) = true ↔ ∀ n, n ∈ DNSNames x → ∃ svc,
    n = service_name svc "istio-system" ∧ IsDNS1035Label svc = true ∧ istiod_service svc) as Hn.
  { unfold istiod_validDomainNames. rewrite forallb_forall. setoid_rewrite <- list_elem_of_In. by setoid_rewrite istiodNameOk_spec. }
  apply guard_one_update; [rewrite Heq, negb_false_iff, Hn; tauto|].
  rewrite negb_false_iff, Hn. intros ?. apply approve_one_update. tauto.
Qed.

Lemma oidc_one_update csr : csr_SignerName csr = oidcSignerName → decided csr = false →
  ParseCSR (csr_Request csr) ≠ Panic → one_update csr (oidc_ok csr) (oidcApprover_handle csr).
Proof.
  intros Hs Hd Hp. unfold oidcApprover_handle, kubelet_hasExactUsages. rewrite Hs, Hd. simpl.
  apply guard_one_update; [intros (? & _ & ->%hasExactUsages_spec & _); done|]. intros Hu%negb_false_iff%hasExactUsages_spec.
  destruct (ParseCSR (csr_Request csr)) as [x| |] eqn:Hx; [|apply deny_one_update; intros (? & ? & _); congruence|done].
  assert (∀ P : X509Request → Prop, (∃ x', ParseCSR (csr_Request csr) = Ret x' ∧ P x') ↔ P x) as Hok by (rewrite Hx; naive_solver).
  eassert (oidc_ok csr ↔ _) as Heq by apply Hok. cbv beta in Heq.
  apply guard_one_update; [rewrite Heq, negb_or_false, negb_false_iff, !bool_decide_eq_true; tauto|].
  rewrite negb_or_false, negb_false_iff, !bool_decide_eq_true. intros [? ?].
  apply guard_one_update; [rewrite Heq, negb_false_iff, HasPrefix_spec; tauto|]. rewrite negb_false_iff, HasPrefix_spec. intros ?.
  assert (oidc_validDomainNames (DNSNames x) = true ↔ ∀ n, n ∈ DNSNames x → ∃ svc ns,
    n = service_name svc ns ∧ IsDNS1035Label svc = true ∧ oidc_service svc ∧
    (ns = "anthos-identity-service"%string ∨ ns = "kube-system"%string)) as Hn.
  { unfold oidc_validDomainNames. rewrite forallb_forall. setoid_rewrite <- list_elem_of_In. by setoid_rewrite oidcNameOk_spec. }
  apply guard_one_update; [rewrite Heq, negb_false_iff, Hn; tauto|].
  rewrite negb_false_iff, Hn. intros ?. apply approve_one_update. tauto.
Qed.

(** One update that succeeds leaves one decision. *)
Lemma one_update_stored csr P m w w' : one_update csr P m → m w = (Ret tt, w') →
  ∃ b msg, log w' = log w ++ [with_condition (approvalCondition b msg) csr] ∧ (b = true ↔ P).
Proof.
  intros (b & msg & -> & HP) Hr. pose proof (approval_spec (with_condition (approvalCondition b msg) csr) w) as Hs.
  rewrite Hr in Hs. destruct Hs as [_ [Hl|[? _]]]; [eauto|done].
Qed.

(** C31: the istiod and oidc approvers leave requests for other signers and
    decided requests alone; any other request they handle without an error ends
    decided, approved exactly when it asks for what the service may have (its
    usages, its own service account, the DNS names of its services) and
    denied otherwise. *)
Theorem service_approvers_exact csr w w' : ParseCSR (csr_Request csr) ≠ Panic →
  (decided csr = false → csr_SignerName csr = istiodSignerName → istiodApprover_handle csr w = (Ret tt, w') →
   ∃ b msg, log w' = log w ++ [with_condition (approvalCondition b msg) csr] ∧ (b = true ↔ istiod_ok csr)) ∧
  (decided csr = false → csr_SignerName csr = oidcSignerName → oidcApprover_handle csr w = (Ret tt, w') →
   ∃ b msg, log w' = log w ++ [with_condition (approvalCondition b msg) csr] ∧ (b = true ↔ oidc_ok csr)) ∧
  (decided csr = true ∨ csr_SignerName csr ≠ istiodSignerName → istiodApprover_handle csr w = (Ret tt, w)) ∧
  (decided csr = true ∨ csr_SignerName csr ≠ oidcSignerName → oidcApprover_handle csr w = (Ret tt, w)).
Proof.
  intros Hp. repeat split.
  - intros Hd Hs. by apply one_update_stored, istiod_one_update.
  - intros Hd Hs. by apply one_update_stored, oidc_one_update.
  - unfold istiodApprover_handle. case_bool_decide; simpl; [|done]. intros [->|]; [done|congruence].
  - unfold oidcApprover_handle. case_bool_decide; simpl; [|done]. intros [->|]; [done|congruence].
Qed.
End decisions.

(** ** The kubelet read-only approver *)
Section readonly.
Context {W : Type} `{CertParser} `{CsrWorld W}.
Variable autopilotEnabled : bool.

(** Every pod the request names, in the namespace of its service account, is
    marked as a limited reader of the kubelet API. *)
Definition marked_pods (csr : CSR) : Prop := ∃ podNames podUIDs namespace sa,
  csr_Extra csr !! podNameKey = Some podNames ∧ csr_Extra csr !! podUIDKey = Some podUIDs ∧
  length podNames = length podUIDs ∧ SplitUsername (csr_Username csr) = Ret (namespace, sa) ∧
  ∀ n, n ∈ podNames → ∃ pod, HasPod namespace n pod ∧ pod_Annotations pod !! kubeletAPILimitedReaderAnnotationKey = Some "true"%string.

Definition readonly_ok (csr : CSR) (x : X509Request) : Prop :=
  csr_Usages csr ≠ [] ∧ csr_Usages csr ⊆ kubeletReadonlyUsageAllowList ∧
  (autopilotEnabled = true → marked_pods csr) ∧ Allowed (accessReview csr kubeletclientPermission) ∧
  ∃ rest, CommonName x = (kubeletReadonlyCRCommonName +:+ rest)%string.

(** A response that lets the request pass vouches for [P]. *)
Definition passes (P : Prop) (resp : kubeletReadonlyCSRResponse) : Prop := resp_result resp = true → P.

Lemma quiet_pass P resp : passes P resp → quiet log (mret resp) (passes P).
Proof. apply quiet_ret. Qed.

Lemma validateCSRUsage_spec csr :
  passes (csr_Usages csr ≠ [] ∧ csr_Usages csr ⊆ kubeletReadonlyUsageAllowList) (validateCSRUsage csr).
Proof.
  unfold passes, validateCSRUsage. case_bool_decide; [done|]. destruct (forallb _ _) eqn:Hf; [|done].
  intros _. split; [done|]. rewrite forallb_forall in Hf. intros u Hu%list_elem_of_In. by apply Hf, bool_decide_eq_true_1 in Hu.
Qed.

Lemma validateCommonName_spec x : passes (∃ rest, CommonName x = (kubeletReadonlyCRCommonName +:+ rest)%string) (validateCommonName x).
Proof.
  unfold passes, validateCommonName. case_bool_decide; [done|]. destruct (HasPrefix _ _) eqn:Hp; [|done].
  intros _. by apply HasPrefix_spec.
Qed.

Lemma checkPods_spec namespace podNames : quiet log (checkPods namespace podNames)
  (passes (∀ n, n ∈ podNames → ∃ pod, HasPod namespace n pod ∧ pod_Annotations pod !! kubeletAPILimitedReaderAnnotationKey = Some "true"%string)).
Proof.
  unfold passes. induction podNames as [|n podNames IH]; simpl; [quiet_step; set_solver|].
  quiet_step; [apply pod_spec|]. intros [e|pod] Hpod; [by quiet_step|]. case_bool_decide as Ha; [|by quiet_step].
  eapply quiet_mono, IH. intros resp Hr Ht n' [->|Hn]%elem_of_cons; [|auto]. exists pod. split; [done|].
  by destruct (pod_Annotations pod !! _) as [s|]; simpl in Ha; [subst|].
Qed.

Lemma validatePodAnnotation_spec csr : quiet log (validatePodAnnotation autopilotEnabled csr)
  (passes (autopilotEnabled = true → marked_pods csr)).
Proof.
  unfold validatePodAnnotation. destruct autopilotEnabled; simpl; [|by quiet_step].
  case_bool_decide; [by quiet_step|]. destruct (csr_Extra csr !! podNameKey) as [names|] eqn:Hn; [|by quiet_step].
  destruct (csr_Extra csr !! podUIDKey) as [uids|] eqn:Hu; [|by quiet_step].
  destruct (Nat.eqb_spec (length names) (length uids)); simpl; [|by quiet_step]. case_bool_decide; [by quiet_step|].
  destruct (SplitUsername (csr_Username csr)) as [[ns sa]| |] eqn:Hs; [|by quiet_step..].
  eapply quiet_mono, checkPods_spec. intros resp Hr Ht _. exists names, uids, ns, sa. repeat split; [done..|by apply Hr].
Qed.

Lemma validateRbac_spec csr : quiet log (validateRbac csr) (passes (Allowed (accessReview csr kubeletclientPermission))).
Proof. unfold validateRbac. quiet_step; [apply review_spec|]. intros [e|[]] Hr; quiet_step; intros Ht; auto; done. Qed.

(** One validator of the list: what it passes is added to what is known. *)
Lemma allValidators_step (validate : CSR → X509Request → io W kubeletReadonlyCSRResponse) vs csr x (P : Prop) (Q : Prop) :
  quiet log (validate csr x) (passes P) → (P → decides csr Q (allValidators vs csr x)) →
  decides csr Q (allValidators (validate :: vs) csr x).
Proof.
  intros Hv Hvs. simpl. decides_step; [exact Hv|]. intros [res err msg] Hp. destruct err; simpl; [decides_step|].
  destruct res; simpl; [|by apply wrapped_update_decides]. apply Hvs. by apply Hp.
Qed.

(** The kubelet read-only approver decides only undecided requests for its
    signer that parse; it approves one only if its usages are non-empty and all
    allowed, its common name has the read-only prefix, its subject passed the
    access review, and, on an Autopilot cluster, every pod it names carries the
    limited-reader annotation. *)
Theorem readonly_approval_sound csr w r w' c :
  readonlyApprover_handle autopilotEnabled csr w = (r, w') → c ∈ log w' → c ∉ log w →
  ∃ b msg, log w' = log w ++ [c] ∧ c = with_condition (approvalCondition b msg) csr ∧
    (b = true → csr_SignerName csr = kubeletReadonlyCSRSignerName ∧ settled csr = false ∧
       ∃ x, ParseCSR (csr_Request csr) = Ret x ∧ readonly_ok csr x).
Proof.
  intros Hrun Hin Hnew. assert (decides csr (csr_SignerName csr = kubeletReadonlyCSRSignerName ∧ settled csr = false ∧
    ∃ x, ParseCSR (csr_Request csr) = Ret x ∧ readonly_ok csr x) (readonlyApprover_handle autopilotEnabled csr)) as Hd.
  { unfold readonlyApprover_handle. case_bool_decide as Hs; cbn [negb]; [|decides_step]. destruct (settled csr); [decides_step|].
    destruct (ParseCSR (csr_Request csr)) as [x| |]; [|decides_step..].
    unfold newKubeletReadonlyCsrValidator.
    eapply allValidators_step; [apply quiet_pass, validateCSRUsage_spec|]. intros [? ?].
    eapply allValidators_step; [apply validatePodAnnotation_spec|]. intros ?.
    eapply allValidators_step; [apply validateRbac_spec|]. intros ?.
    eapply allValidators_step; [apply quiet_pass, validateCommonName_spec|]. intros ?.
    apply wrapped_update_decides. intros _. do 2 (split; [done|]). exists x. by repeat split. }
  destruct (wp_run _ _ _ _ _ Hrun (Hd w)) as [Hl|(b & msg & Hl & Hj)]; [by rewrite Hl in Hin|].
  rewrite Hl in Hin. apply elem_of_app in Hin as [?|Hc]; [done|]. apply list_elem_of_singleton in Hc as ->. eauto.
Qed.
End readonly.

(** ** The signer *)
Section signing.
Context {W : Type} `{CertParser} `{CsrClient W} `{KubeClient W} `{SigningWebhook W}.
(** The objects whose status was updated, and the certificates the webhook issued. *)
Variable signed : W → list CSR.
Variable issued : CSR → string → Prop.
Hypothesis events_quiet : ∀ ref s, quiet signed (Recorder_Eventf ref s) (λ _, True).
Hypothesis webhook_spec : ∀ csr, quiet signed (Webhook_Sign csr)
  (λ a, ∀ status cert, a = WebhookOk status (Ret cert) → (200 <= status < 300)%Z → issued csr cert).
Hypothesis status_spec : ∀ csr w, let '(_, w') := CSRs_UpdateStatus csr w in signed w' = signed w ++ [csr] ∨ signed w' = signed w.

Lemma webhookError_quiet csr e P : quiet signed (webhookError csr e) P.
Proof using events_quiet. unfold webhookError. quiet_step; [apply events_quiet|]. intros _ _. quiet_step. Qed.

Lemma sign_spec csr : quiet signed (sign csr) (λ csr', ∃ cert, issued csr cert ∧ csr' = with_certificate cert csr).
Proof using events_quiet webhook_spec.
  unfold sign. quiet_step; [apply webhook_spec|]. intros [status body|e be] Hw; [|apply webhookError_quiet].
  destruct (_ || _) eqn:Hst; [apply webhookError_quiet|]. propify.
  destruct body as [cert|e|]; [|apply webhookError_quiet|by quiet_step]. quiet_step. exists cert. split; [|done].
  apply (Hw status); [done|lia].
Qed.

Lemma approved_spec csr : IsCertificateRequestApproved csr = true ↔
  (∃ c, c ∈ csr_Conditions csr ∧ cc_Type c = CertificateApproved) ∧ ∀ c, c ∈ csr_Conditions csr → cc_Type c ≠ CertificateDenied.
Proof.
  assert (∀ cs, let '(a, d) := getCertApprovalCondition cs in
    (a = true ↔ ∃ c, c ∈ cs ∧ cc_Type c = CertificateApproved) ∧ (d = false ↔ ∀ c, c ∈ cs → cc_Type c ≠ CertificateDenied)) as Hc.
  { induction cs as [|c cs IH]; simpl; [set_solver|]. destruct (getCertApprovalCondition cs) as [a d]. destruct IH as [IHa IHd].
    rewrite orb_true_iff, orb_false_iff, bool_decide_eq_true, bool_decide_eq_false, IHa, IHd. set_solver. }
  unfold IsCertificateRequestApproved. specialize (Hc (csr_Conditions csr)).
  destruct (getCertApprovalCondition _) as [a d]. by rewrite andb_true_iff, negb_true_iff, (proj1 Hc), (proj2 Hc).
Qed.

(** The certificate may be issued for the request. *)
Definition may_sign (csr : CSR) (cert : string) : Prop :=
  issued csr cert ∧ servedSigner (csr_SignerName csr) = true ∧ is_ret (ParseCSR (csr_Request csr)) = true ∧
  (∃ c, c ∈ csr_Conditions csr ∧ cc_Type c = CertificateApproved) ∧
  ∀ c, c ∈ csr_Conditions csr → cc_Type c ≠ CertificateDenied.

Lemma handleInternal_spec csr w : wp (handleInternal csr) (λ _ w', signed w' = signed w ∨
  ∃ cert, signed w' = signed w ++ [with_certificate cert csr] ∧ may_sign csr cert) w.
Proof.
  unfold handleInternal, may_sign.
  destruct (IsCertificateRequestApproved csr) eqn:Ha; cbn [negb]; [|wp_step; by left]. apply approved_spec in Ha.
  destruct (servedSigner _); cbn [negb]; [|wp_step; by left].
  destruct (ParseCSR _) as [x|e|]; [|wp_step; by left..].
  apply wp_bind, wp_try. eapply wp_mono, sign_spec. intros [csr'|e|] w1 [Hl Hs]; [|wp_step; by left|by left].
  destruct (Hs csr' eq_refl) as (cert & Hi & ->). apply wp_bind, wp_try, wp_intro. intros ru w2 Hu.
  pose proof (status_spec (with_certificate cert csr) w1) as Hst. rewrite Hu, Hl in Hst.
  destruct Hst as [Hst|Hst]; destruct ru; repeat wp_step; (by left) || (right; exists cert; tauto).
Qed.

(** C30: the signer stores a status at most once, and only for a request of one of
    its signers that parses, carries an approval and no denial; the stored
    object is the request with nothing changed but its certificate, which is one
    the webhook issued for that request. *)
Theorem signer_signs_only_approved csr w r w' : gkeSigner_handle csr w = (r, w') → signed w' ≠ signed w →
  ∃ cert, signed w' = signed w ++ [with_certificate cert csr] ∧ may_sign csr cert.
Proof.
  unfold gkeSigner_handle. rewrite io_bind_eq. pose proof (handleInternal_spec csr w) as Hw. unfold wp in Hw.
  destruct (handleInternal csr w) as [[]]; intros [= <- <-] Hne; by destruct Hw.
Qed.
End signing.
