(* ===== verification/FakeCsr.v ===== *)
(** * FakeCsr: a small cluster for the certificate controllers

    A cluster with one VM, one node and one pod, whose services keep the laws of
    [CsrWorld], with toy encodings in place of PEM, X.509 and RSA.  The theorems
    on the approvers and the signer are run on it. *)

From S2P Require Import Prelude Bits GoNet GoNetText GoStrings Json K8s GceInstances AddressManager IoLogic Csr NodeIdentity NodeCsr CsrApprovers NodeCsrProps CsrApproverProps.
Local Open Scope Z_scope.

Record csrCluster : Type := mkCluster {
  cl_log : list CSR; cl_signed : list CSR; cl_deleted : list (string * string)
}.
Definition empty_cluster : csrCluster := mkCluster [] [] [].

(** ** Encodings: [TYPE=bytes|] for a PEM block, a signature that repeats the key. *)
Definition bar : Ascii.ascii := chr 124.
Definition equals : Ascii.ascii := chr 61.

Definition toy_pem (s : string) : option (string * string) * string :=
  match cut_on bar s with
  | Some (b, rest) => match cut_on equals b with Some (ty, bytes) => (Some (ty, bytes), rest) | None => (None, s) end
  | None => (None, s)
  end.

Instance toy_attestation : Attestation := {
  pem_Decode := toy_pem;
  bytes_TrimSpace := λ s, s;
  RSAPublicKey := string;
  ParsePKIXPublicKey := λ s, Ret (Some s);
  sha256_Sum256 := λ s, s;
  rsa_VerifyPKCS1v15 := λ key hash sig, bool_decide (sig = key +:+ hash)%string;
  DecodeAttestationData := λ data, Ret (mkAttestation (if bool_decide (data = "quote"%string) then None else Some data));
  MatchesPublic := λ name pub, Ret (bool_decide (name = tpm_Curve pub))
}.

Lemma cut_on_shorter c s a b : cut_on c s = Some (a, b) → (String.length b < String.length s)%nat.
Proof.
  revert a. induction s as [|d s IH]; intros a; simpl; [done|]. case_decide; [intros [= <- <-]; lia|].
  destruct (cut_on c s) as [[a' b']|]; [|done]. intros [= <- <-]. specialize (IH a' eq_refl). lia.
Qed.
Lemma toy_pem_shorter s b rest : toy_pem s = (Some b, rest) → (String.length rest < String.length s)%nat.
Proof.
  unfold toy_pem. destruct (cut_on bar s) as [[b' r]|] eqn:Hc; [|done]. apply cut_on_shorter in Hc.
  destruct (cut_on equals b') as [[ty bytes]|]; [|done]. by intros [= _ <-].
Qed.

(** ** Requests *)
Definition demo_identity : string := dq "{'zone':'z1','id':7,'name':'vm1','project_id':42,'project_name':'proj'}".
Definition client_request : string :=
  ("CERTIFICATE REQUEST=r|VM IDENTITY=" +:+ demo_identity +:+ "|ATTESTATION DATA=P-256|ATTESTATION SIGNATURE=keyP-256|")%string.
Definition quote_request : string :=
  ("CERTIFICATE REQUEST=r|VM IDENTITY=" +:+ demo_identity +:+ "|ATTESTATION DATA=quote|ATTESTATION SIGNATURE=keyquote|")%string.
Definition lost_request : string :=
  "CERTIFICATE REQUEST=r|VM IDENTITY=none|ATTESTATION DATA=P-256|ATTESTATION SIGNATURE=s|".
Definition key1 : PublicKey := ECDSAKey "P-256" 1 2.
Definition client_x509 : X509Request := mkX509 ["system:nodes"%string] "system:node:vm1" [] [] [] [] key1.
Definition istiod_x509 : X509Request := mkX509 [] EmptyString [] [] ["istiod-canary.istio-system.svc"%string] [] key1.
Definition reader_x509 : X509Request := mkX509 [] "kubelet-ro-client:reader" [] [] [] [] key1.

Instance toy_parser : CertParser := {
  ParseCSR := λ s,
    if bool_decide (s ∈ [client_request; quote_request; lost_request]) then Ret client_x509
    else if bool_decide (s = "istiod"%string) then Ret istiod_x509
    else if bool_decide (s = "reader"%string) then Ret reader_x509
    else Err (Errorf "not a request")
}.

Definition node_csr (request : string) : CSR :=
  mkCSR "csr-1" request KubeAPIServerClientKubeletSignerName kubeletClientUsages "kubelet-bootstrap" "u" [] ∅ [] EmptyString.
Definition istiod_csr : CSR :=
  mkCSR "csr-2" "istiod" istiodSignerName [UsageServerAuth; UsageDigitalSignature; UsageKeyEncipherment]
    "system:serviceaccount:istio-system:istiod-canary" "u" [] ∅ [] EmptyString.
Definition reader_csr : CSR :=
  mkCSR "csr-3" "reader" kubeletReadonlyCSRSignerName [UsageClientAuth] "system:serviceaccount:ns:sa" "u" []
    {[ podNameKey := ["pod1"%string]; podUIDKey := ["p1"%string] ]} [] EmptyString.

(** ** The services *)
Definition vm1 : VM := mkVM 7 "vm1" "https://compute/zones/z1" (Some [Some (mkItem "created-by" (Some "x/zones/z1/igm/grp"%string))])
  [mkVMInterface "10.0.0.2" EmptyString [] []].
Definition demo_vm (p z n : string) : outcome VM :=
  if bool_decide (n = "vm1"%string ∧ z = "z1"%string) then Ret vm1 else Err (ErrGoogleAPI 404).
Definition demo_key (p z n : string) : outcome (option string) :=
  if bool_decide (n = "vm1"%string ∧ z = "z1"%string) then Ret (Some "EK=key|"%string) else Err (ErrGoogleAPI 404).
Definition demo_groups : list (list string) := [["x/zones/z1/igm/other"%string]; ["x/zones/z1/igm/grp"%string]].
Definition demo_managed (p l g : string) : outcome (pages Z) :=
  if bool_decide (g = "grp"%string) then Ret (MorePages [5] (MorePages [7] NoMorePages)) else Ret NoMorePages.
Definition demo_allowed (sar : SubjectAccessReview) : bool :=
  bool_decide (sar_User sar ∈ ["kubelet-bootstrap"; "system:serviceaccount:ns:sa"]%string).
Definition pod1 : Pod := mkPod "ns" "pod1" "p1" {[ kubeletAPILimitedReaderAnnotationKey := "true"%string ]} "Running" [].
Definition demo_pod (ns n : string) : outcome Pod :=
  if bool_decide (ns = "ns"%string ∧ n = "pod1"%string) then Ret pod1 else Err (ErrStatus ReasonNotFound).
(** Its VM was replaced: the annotation has another instance ID. *)
Definition node1 : Node := mkNode "vm1" "node-uid" {[ InstanceIDAnnotationKey := "3"%string ]} ∅ (mkSpec EmptyString [] EmptyString []) (mkStatus ∅ []).
Definition demo_node1 (n : string) : outcome Node :=
  if bool_decide (n = "vm1"%string) then Ret node1 else Err (ErrStatus ReasonNotFound).

Instance fake_csrs : CsrClient csrCluster := {
  SubjectAccessReviews_Create := λ sar, mret (demo_allowed sar);
  CSRs_UpdateApproval := λ csr, put (λ w, mkCluster (cl_log w ++ [csr]) (cl_signed w) (cl_deleted w));
  CSRs_UpdateStatus := λ csr w, (Ret csr, mkCluster (cl_log w) (cl_signed w ++ [csr]) (cl_deleted w))
}.
Instance fake_kube : KubeClient csrCluster := {
  Nodes_Get := λ n, lift (demo_node1 n);
  Nodes_List := mret [node1];
  Nodes_Patch := λ _ _, mret tt;
  NodeLister_Get := λ n, lift (demo_node1 n);
  NodeLister_List := mret [node1];
  Recorder_Eventf := λ _ _, mret tt;
  Clock_Now := mret 0
}.
Instance fake_pods : PodClient csrCluster := {
  Pods_ListOnNode := λ _, mret [pod1];
  Pods_Get := λ ns n, lift (demo_pod ns n);
  Pods_PatchStatus := λ _ _ _ _ _, mret tt;
  Pods_Delete := λ _ _, mret tt;
  Nodes_Delete := λ n uid, put (λ w, mkCluster (cl_log w) (cl_signed w) (cl_deleted w ++ [(n, uid)]))
}.
Instance fake_cloud : NodeCsrCloud csrCluster := {
  VMs_Get := λ p z n, lift (demo_vm p z n);
  GetShieldedVmIdentity := λ p z n, lift (demo_key p z n);
  Clusters_Get := λ _, mret demo_groups;
  ListReferrers := λ _ _ _, mret NoMorePages;
  ListManagedInstances := λ p l g, lift (demo_managed p l g)
}.
Instance fake_webhook : SigningWebhook csrCluster := { Webhook_Sign := λ csr, mret (WebhookOk 200 (Ret "signed"%string)) }.

Instance fake_csr_world : CsrWorld csrCluster.
Proof.
  refine {| log := cl_log; Allowed := λ sar, demo_allowed sar = true; HasVM := λ p z n vm, demo_vm p z n = Ret vm;
    HasSigningKey := λ p z n ek, demo_key p z n = Ret (Some ek); ClusterPools := λ _ pools, pools = demo_groups;
    Refers := λ _ _ _ _, False; Manages := λ p l g i, ∃ ps, demo_managed p l g = Ret ps ∧ i ∈ page_items ps;
    HasPod := λ ns n pod, demo_pod ns n = Ret pod |};
    try (intros; apply quiet_ret; done); try (intros; apply quiet_lift; naive_solver).
  - intros. apply quiet_ret. intros r Hr. by apply not_elem_of_nil in Hr.
  - intros csr w. split; [done|]. by left.
Defined.

(** ** Runs *)
Definition demo_ctx : controllerContext :=
  mkContext (mkGcpConfig "c" "proj" "z1" ["z0"%string; "z1"%string]) true false (mkReferrersConfig true 2) true true.

Definition node_after : csrCluster := (nodeApprover_handle demo_ctx (node_csr client_request) empty_cluster).2.
Definition approved_node_csr : CSR := with_condition (approvalCondition true
  "Auto approving kubelet client certificate with TPM attestation after SubjectAccessReview.") (node_csr client_request).

(** The attested request is approved, and the replaced node deleted. *)
Example node_approved : node_after = mkCluster [approved_node_csr] [] [("vm1", "node-uid")]%string.
Proof. vm_compute. reflexivity. Qed.


Definition blocks_of (raw : string) : gmap string string := match parsePEMBlocks raw with Ret b => b | _ => ∅ end.

Lemma identity_errors_never_deny_witness :
  nodeApprover_handle demo_ctx (node_csr lost_request) empty_cluster = (Err (Errorf "validating CSR %q: %v"), empty_cluster) ∧
  log empty_cluster = log empty_cluster.
Proof.
  apply (identity_errors_never_deny demo_ctx (node_csr lost_request) client_x509 (blocks_of lost_request) "P-256" "s" empty_cluster
    (Errorf "failed parsing VM IDENTITY block: %v")); vm_compute; reflexivity.
Defined.

Lemma hint_is_irrelevant_witness :
  clusterHasInstance demo_ctx vm1 "x/zones/z1/igm/other" empty_cluster = (Ret true, empty_cluster) ∧
  (urls ← getClusterInstanceGroupUrls demo_ctx;
   ok ← checkInstanceReferrersBackOff demo_ctx vm1 urls;
   if (ok : bool) then mret true else lift (search_reference demo_ctx demo_managed vm1 urls false)) empty_cluster
  = (Ret true, empty_cluster).
Proof.
  split; [vm_compute; reflexivity|]. rewrite <- (hint_is_irrelevant demo_ctx demo_managed) with (hint := "a hint"%string).
  - vm_compute. reflexivity.
  - reflexivity.
  - intros p l g. unfold demo_managed. by case_bool_decide.
Defined.

Lemma pem_loop_ends_witness : pem_loop client_request ∅ (decodeBlocks (S (String.length client_request)) client_request ∅).
Proof. apply pem_loop_ends; [exact toy_pem_shorter|done]. Defined.

Lemma other_attestation_panics_witness :
  validateTPMAttestation demo_ctx (node_csr quote_request) client_x509 empty_cluster = (Panic, empty_cluster).
Proof.
  apply (@other_attestation_panics csrCluster toy_attestation fake_cloud demo_ctx (node_csr quote_request) client_x509 (blocks_of quote_request) "quote" "keyquote"
    "key" (mkIdentity "z1" 7 "vm1" 42 "proj") vm1 (mkTPMPublic "P-256" 1 2) empty_cluster empty_cluster empty_cluster);
    vm_compute; reflexivity.
Defined.

Definition hook_after : csrCluster := (ensureNodeMatchesMetadataOrDelete demo_ctx (node_csr client_request) client_x509 empty_cluster).2.
Lemma hook_deletes_only_stale_witness :
  cl_deleted hook_after = [("vm1", "node-uid")]%string ∧
  deletes_stale demo_ctx cl_deleted (λ n node, demo_node1 n = Ret node) (λ z n vm, demo_vm "proj" z n = Ret vm)
    (λ z n, is_err (demo_vm "proj" z n) = true) client_x509 empty_cluster hook_after.
Proof.
  split; [vm_compute; reflexivity|].
  apply hook_deletes_only_stale with (csr := node_csr client_request) (r := Ret tt);
    try (intros; apply quiet_ret; done).
  - intros n. apply quiet_lift. unfold demo_node1. case_bool_decide; [|done]. by intros a [= <-].
  - intros z n w. split; [done|]. simpl. unfold lift, demo_vm. by case_bool_decide.
  - intros n uid w. by left.
  - vm_compute. reflexivity.
Defined.

(** The workflow with the recognizer of node clients and a validator that asks
    whether the VM exists. *)
Definition demo_validator : Validator csrCluster := mkValidator
  (mkOptions "node" "node" "ok" "no" nodeclientPermission) (λ csr x, mret (IsNodeClientCert csr x))
  (λ csr x, r ← try (VMs_Get "proj" "z1" (TrimPrefix (CommonName x) "system:node:"));
            match r with inl _ => mret false | inr _ => mret true end)
  (λ _ _, mret tt).
Definition workflow_after : csrCluster := (HandleCSR [demo_validator] (node_csr client_request) empty_cluster).2.

Lemma HandleCSR_sound_witness : ∃ b msg,
  log workflow_after = log empty_cluster ++ [with_condition (approvalCondition true "ok") (node_csr client_request)] ∧
  with_condition (approvalCondition true "ok") (node_csr client_request) = with_condition (approvalCondition b msg) (node_csr client_request) ∧
  (b = true → settled (node_csr client_request) = false ∧ ∃ x v, ParseCSR client_request = Ret x ∧ v ∈ [demo_validator] ∧
     approved_by (λ _ csr x, IsNodeClientCert csr x = true) (λ _ _ _, True) v (node_csr client_request) x).
Proof.
  apply (HandleCSR_sound (λ _ csr x, IsNodeClientCert csr x = true) (λ _ _ _, True) [demo_validator]
    (node_csr client_request) empty_cluster (Ret tt)).
  - apply Forall_singleton. intros csr x. split; [by apply quiet_ret|]. split; [|by apply quiet_ret].
    eapply quiet_mono; [|eapply quiet_bind; [apply quiet_try, vm_spec|intros [] _; by apply (quiet_ret _ _ (λ _, True))]]. done.
  - vm_compute. reflexivity.
  - vm_compute. left.
  - apply not_elem_of_nil.
Defined.

Definition istiod_after : csrCluster := (istiodApprover_handle istiod_csr empty_cluster).2.
Lemma service_approvers_exact_witness : ∃ b msg,
  log istiod_after = log empty_cluster ++ [with_condition (approvalCondition b msg) istiod_csr] ∧ (b = true ↔ istiod_ok istiod_csr).
Proof.
  apply (service_approvers_exact istiod_csr empty_cluster istiod_after); [by vm_compute|reflexivity|reflexivity|].
  vm_compute. reflexivity.
Defined.

Definition reader_after : csrCluster := (readonlyApprover_handle true reader_csr empty_cluster).2.
Lemma readonly_approval_sound_witness : ∃ b msg,
  log reader_after = log empty_cluster ++ [with_condition (approvalCondition true "approved by kubelet readonly approver") reader_csr] ∧
  with_condition (approvalCondition true "approved by kubelet readonly approver") reader_csr = with_condition (approvalCondition b msg) reader_csr ∧
  (b = true → csr_SignerName reader_csr = kubeletReadonlyCSRSignerName ∧ settled reader_csr = false ∧
     ∃ x, ParseCSR (csr_Request reader_csr) = Ret x ∧ readonly_ok true reader_csr x).
Proof.
  apply (readonly_approval_sound true reader_csr empty_cluster (Ret tt)).
  - vm_compute. reflexivity.
  - vm_compute. left.
  - apply not_elem_of_nil.
Defined.

Definition signer_after : csrCluster := (gkeSigner_handle approved_node_csr empty_cluster).2.
Lemma signer_signs_only_approved_witness : ∃ cert,
  cl_signed signer_after = cl_signed empty_cluster ++ [with_certificate cert approved_node_csr] ∧
  may_sign (λ _ cert, cert = "signed"%string) approved_node_csr cert.
Proof.
  apply (signer_signs_only_approved cl_signed (λ _ cert, cert = "signed"%string)) with (r := Ret tt).
  - intros. by apply quiet_ret.
  - intros csr. apply quiet_ret. intros status cert [= _ <-]. done.
  - intros csr w. by left.
  - vm_compute. reflexivity.
  - vm_compute. discriminate.
Defined.
