(* ===== verification/NodeAnnotator.v ===== *)
(** * NodeAnnotator: node metadata from the instance

    [cmd/gcp-controller-manager/node_annotator.go]: the annotators copy the
    instance ID, the labels, the resize request, the termination time and the
    taints of an instance to its node.  The node an annotator changes is the one
    the lister hands out, not a copy, so the state of a run contains the lister's
    cache.  The label and taint syntax is that of the API machinery. *)

From S2P Require Import Prelude Bits GoNet GoNetText GoStrings NetUtils K8s WorkQueue NodeIpamConfig AddressManager Csr NodeCsr.
Local Open Scope Z_scope.

(** ** Label syntax ([k8s.io/apimachinery/pkg/util/validation]) *)
Definition alnum (c : Ascii.ascii) : bool := is_lower c || is_upper c || is_digit c.
Definition name_char (c : Ascii.ascii) : bool :=
  alnum c || bool_decide (c = dash) || bool_decide (c = underscore) || bool_decide (c = dot).
Definition name_part (s : string) : bool :=
  (Z.of_nat (String.length s) <=? 63) && matches alnum name_char alnum s.

(** [len(IsQualifiedName(value)) == 0] *)
Definition IsQualifiedName (value : string) : bool :=
  match split_on slash value with
  | [name] => name_part name
  | [prefix; name] => IsDNS1123Subdomain prefix && name_part name
  | _ => false
  end.
Definition IsValidLabelValue (value : string) : bool := bool_decide (value = EmptyString) || name_part value.

Definition valid_label (kv : string * string) : bool := IsQualifiedName kv.1 && IsValidLabelValue kv.2.
Definition ValidateLabels (labels : gmap string string) : bool := forallb valid_label (map_to_list labels).

(** ** Strings of labels *)
Definition eq_sign : Ascii.ascii := chr 61.
Definition semicolon : Ascii.ascii := chr 59.

(** [sort.Strings] *)
Definition string_le (s t : string) : Prop := String.leb s t = true.
#[global] Instance string_le_dec : RelDecision string_le. Proof. unfold string_le. solve_decision. Defined.
Definition sort_Strings (l : list string) : list string := merge_sort string_le l.

Fixpoint parsePairs (kvs : list string) (labels : gmap string string) : outcome (gmap string string) :=
  match kvs with
  | [] => Ret labels
  | kv :: kvs =>
      match splitN2 eq_sign kv with
      | [k; v] => parsePairs kvs (<[ k := v ]> labels)
      | _ => Err (Errorf "malformed label pair: %q")
      end
  end.

Definition parseLabels (labelString : string) : outcome (gmap string string) :=
  labels ← parsePairs (split_on comma labelString) ∅;
  if ValidateLabels labels then Ret labels else Err (Errorf "invalid label(s): %v").

Definition label_element (kv : string * string) : string := (kv.1 +:+ "=" +:+ kv.2)%string.
Definition serializeLabels (labels : gmap string string) : string :=
  join_with "," (sort_Strings (label_element <$> map_to_list labels)).

(** ** Taints ([k8s.io/kubernetes/pkg/util/taints]) *)
Record NodeTaint : Type := mkNodeTaint { nt_Key : string; nt_Value : string; nt_Effect : string }.
#[global] Instance NodeTaint_eq_dec : EqDecision NodeTaint. Proof. solve_decision. Defined.

Definition taintEffects : list string := ["NoSchedule"; "PreferNoSchedule"; "NoExecute"]%string.
Definition validateTaintEffect (effect : string) : bool := bool_decide (effect ∈ taintEffects).

(** [<key>=<value>:<effect>], [<key>:<effect>] or [<key>]. *)
Definition parseTaint (st : string) : outcome NodeTaint :=
  '(key, value, effect) ←
    match split_on colon st with
    | [key] => Ret (key, EmptyString, EmptyString)
    | [kv; effect] =>
        if negb (validateTaintEffect effect) then Err (Errorf "invalid taint effect: %v, unsupported taint effect")
        else match split_on eq_sign kv with
             | [key] => Ret (key, EmptyString, effect)
             | [key; value] =>
                 if IsValidLabelValue value then Ret (key, value, effect) else Err (Errorf "invalid taint spec: %v, %s")
             | _ => Err (Errorf "invalid taint spec: %v")
             end
    | _ => Err (Errorf "invalid taint spec: %v")
    end;
  if IsQualifiedName key then Ret (mkNodeTaint key value effect) else Err (Errorf "invalid taint spec: %v, %s").

(** [strings.TrimSuffix(s, "-")] when it has the suffix. *)
Fixpoint init_string (s : string) : string :=
  match s with
  | EmptyString | String _ EmptyString => EmptyString
  | String c s => String c (init_string s)
  end.

(** The taints to add; a duplicate by key and effect is an error, the ones to
    remove are parsed and left out of the result the annotator uses. *)
Fixpoint ParseTaints (spec : list string) (taints : list NodeTaint) : outcome (list NodeTaint) :=
  match spec with
  | [] => Ret taints
  | st :: spec =>
      if bool_decide (last_char st = Some dash) then
        _ ← parseTaint (init_string st);
        ParseTaints spec taints
      else
        t ← parseTaint st;
        if bool_decide (nt_Effect t = EmptyString) then Err (Errorf "invalid taint spec: %v")
        else if bool_decide ((nt_Effect t, nt_Key t) ∈ ((λ u, (nt_Effect u, nt_Key u)) <$> taints))
        then Err (Errorf "duplicated taints with the same key and effect: %v")
        else ParseTaints spec (taints ++ [t])
  end.

Definition parseTaints (taintsString : string) : outcome (list NodeTaint) := ParseTaints (split_on comma taintsString) [].

Definition taint_element (t : NodeTaint) : string := (nt_Key t +:+ "=" +:+ nt_Value t +:+ ":" +:+ nt_Effect t)%string.
Definition serializeTaints (taints : list NodeTaint) : string :=
  join_with "," (sort_Strings (taint_element <$> taints)).

(** ** Instances *)

(** The termination time of the scheduling status, when there is such a status. *)
Record AnnInstance : Type := mkAnnInstance {
  ai_Id : Z; ai_Metadata : option (list (option MetadataItem)); ai_TerminationTimestamp : option string
}.

Definition errNoMetadata : error := ErrSentinel "instance did not have 'kube-labels' metadata".
Definition lastAppliedLabelsKey : string := "node.gke.io/last-applied-node-labels".
Definition lastAppliedTaintsKey : string := "node.gke.io/last-applied-node-taints".
Definition instanceTerminationAnnotationKey : string := "node.gke.io/machine-termination-datetime".
Definition provisioningRequestKey : string := "autoscaling.gke.io/provisioning-request".

Definition ownedKubeLabels : list string :=
  ["cloud.google.com/gke-nodepool"; "cloud.google.com/gke-local-ssd"; "cloud.google.com/gke-local-scsi-ssd";
   "cloud.google.com/gke-local-nvme-ssd"; "cloud.google.com/gke-preemptible"; "cloud.google.com/gke-gpu";
   "cloud.google.com/gke-accelerator"; "beta.kubernetes.io/fluentd-ds-ready"; "beta.kubernetes.io/kube-proxy-ds-ready";
   "beta.kubernetes.io/masq-agent-ds-ready"; "projectcalico.org/ds-ready"; "beta.kubernetes.io/metadata-proxy-ready";
   "addon.gke.io/node-local-dns-ds-ready"]%string.

Definition parseNodeURL (nodeURL : string) : outcome (string * string * string) :=
  match cut_prefix "gce://" nodeURL with
  | None => Err (Errorf "instance %q doesn't run on gce")
  | Some rest =>
      match split_on slash rest with
      | [project; zone; instance] => Ret (project, zone, instance)
      | _ => Err (Errorf "failed to parse %q: expected a three part path")
      end
  end.

(** The first item with the key; its value may be missing. *)
Fixpoint findValue (items : list (option MetadataItem)) (key : string) : option (option string) :=
  match items with
  | [] => None
  | Some item :: items => if bool_decide (item_Key item = key) then Some (item_Value item) else findValue items key
  | None :: items => findValue items key
  end.

Definition extractKubeLabels (instance : AnnInstance) : outcome (gmap string string) :=
  match ai_Metadata instance with
  | None => Err errNoMetadata
  | Some items =>
      match findValue items "kube-labels" with
      | Some (Some kubeLabels) =>
          if bool_decide (kubeLabels = EmptyString) then Ret ∅
          else match parseLabels kubeLabels with
               | Ret labels => Ret labels
               | Err _ => Err (Errorf "instance %q had %s")
               | Panic => Panic
               end
      | _ => Err errNoMetadata
      end
  end.

Definition extractResizeRequestLabel (instance : AnnInstance) : option string :=
  match ai_Metadata instance with
  | None => None
  | Some items =>
      match findValue items "google-compute-mig-resize-request" with
      | Some (Some createdByRR) =>
          let elements := split_on slash createdByRR in
          if (1 <? length elements)%nat then Some (List.last elements EmptyString) else None
      | _ => None
      end
  end.

(** The taints of the first [node_taints] entry of [kube-env]. *)
Definition extractNodeTaints (instance : AnnInstance) : outcome (list NodeTaint) :=
  match ai_Metadata instance with
  | None => Err errNoMetadata
  | Some items =>
      match findValue items "kube-env" with
      | None => Err errNoMetadata
      | Some None => Err (Errorf "instance %q had nil %q")
      | Some (Some kubeEnv) =>
          if bool_decide (kubeEnv = EmptyString) then Ret []
          else match List.find (λ env, HasPrefix env "node_taints") (split_on semicolon kubeEnv) with
               | None => Ret []
               | Some taintsEnv =>
                   match splitN2 eq_sign taintsEnv with
                   | [_; taints] => parseTaints taints
                   | _ => Err (Errorf "malformed node_taints in instance metadata")
                   end
               end
      end
  end.

(** ** Annotators: the changed node, and whether it counts as modified *)
Definition set_Labels (f : gmap string string → gmap string string) (n : Node) : Node :=
  mkNode (node_Name n) (node_UID n) (Annotations n) (f (Labels n)) (Spec n) (Status n).

Definition extractLastAppliedLabels (node : Node) : gmap string string :=
  match Annotations node !! lastAppliedLabelsKey with
  | Some lastLabels =>
      if bool_decide (lastLabels = EmptyString) then ∅
      else match parseLabels lastLabels with Ret labels => labels | _ => ∅ end
  | None => ∅
  end.

Definition deleteKeys (keys : list string) (m : gmap string string) : gmap string string := foldr delete m keys.

Definition mergeManagedLabels (node : Node) (desiredLabels : gmap string string) : Node :=
  let lastAppliedLabels := extractLastAppliedLabels node in
  let node := set_Labels (λ m, desiredLabels ∪ deleteKeys (map_to_list lastAppliedLabels).*1 m) node in
  set_Annotations <[ lastAppliedLabelsKey := serializeLabels desiredLabels ]> node.

Definition instanceIDReconciler (node : Node) (instance : AnnInstance) : Node * bool :=
  let eid := Uitoa (ai_Id instance) in
  if bool_decide (Annotations node ≠ ∅) && bool_decide (default EmptyString (Annotations node !! InstanceIDAnnotationKey) = eid)
  then (node, false)
  else (set_Annotations <[ InstanceIDAnnotationKey := eid ]> node, true).

Definition labelsReconciler (node : Node) (instance : AnnInstance) : Node * bool :=
  match extractKubeLabels instance with
  | Ret desiredLabels => (mergeManagedLabels (set_Labels (deleteKeys ownedKubeLabels) node) desiredLabels, true)
  | _ => (node, false)
  end.

Definition resizeRequestReconciler (node : Node) (instance : AnnInstance) : Node * bool :=
  match extractResizeRequestLabel instance with
  | None => (node, false)
  | Some name => (set_Labels <[ provisioningRequestKey := name ]> node, true)
  end.

Definition annotateMachineTermination (node : Node) (instance : AnnInstance) : Node * bool :=
  match ai_TerminationTimestamp instance with
  | None => (node, false)
  | Some termination =>
      if bool_decide (termination = EmptyString) then (node, false)
      else (set_Annotations <[ instanceTerminationAnnotationKey := termination ]> node, true)
  end.

Definition taintsReconciler (node : Node) (instance : AnnInstance) : Node * bool :=
  match extractNodeTaints instance with
  | Ret desiredTaints => (set_Annotations <[ lastAppliedTaintsKey := serializeTaints desiredTaints ]> node, true)
  | _ => (node, false)
  end.

Definition annotators : list (Node → AnnInstance → Node * bool) :=
  [instanceIDReconciler; labelsReconciler; resizeRequestReconciler; annotateMachineTermination; taintsReconciler].

(** The loop of [sync]: each annotator sees what the ones before it did. *)
Fixpoint annotate (anns : list (Node → AnnInstance → Node * bool)) (node : Node) (instance : AnnInstance) (update : bool) : Node * bool :=
  match anns with
  | [] => (node, update)
  | ann :: anns => let '(node, modified) := ann node instance in annotate anns node instance (update || modified)
  end.

(** ** The controller *)
Class AnnotatorClient (W : Type) : Type := {
  (** project, zone, name *)
  AnnInstances_Get : string → string → string → io W AnnInstance;
  Nodes_Update : Node → io W unit
}.

(** The lister's cache and the queue. *)
Record nodeAnnotator : Type := mkAnnotator { na_cache : gmap string Node; na_queue : workqueue }.

Section annotator.
Context {W : Type} `{AnnotatorClient W}.

Definition getInstance (nodeURL : string) : io W AnnInstance :=
  '(project, zone, instance) ← lift (parseNodeURL nodeURL);
  AnnInstances_Get project zone instance.

Definition setCache (key : string) (node : Node) : io (nodeAnnotator * W) unit :=
  put (λ '(na, w), (mkAnnotator (<[ key := node ]> (na_cache na)) (na_queue na), w)).

(** The lister fails only with NotFound. *)
Definition sync (key : string) : io (nodeAnnotator * W) unit :=
  s ← ask;
  match na_cache s.1 !! key with
  | None => mret tt
  | Some node =>
      instance ← on_snd (getInstance (ProviderID (Spec node)));
      let '(node, update) := annotate annotators node instance false in
      _ ← setCache key node;
      if negb update then mret tt else on_snd (Nodes_Update node)
  end.

Definition onAnnQueue (f : workqueue → workqueue) : io (nodeAnnotator * W) unit :=
  put (λ '(na, w), (mkAnnotator (na_cache na) (f (na_queue na)), w)).

(** One turn of a worker: [None] while [Get] blocks, [Some false] to stop. *)
Definition processNextWorkItem : io (nodeAnnotator * W) (option bool) := λ '(na, w),
  match q_Get (na_queue na) with
  | Blocked => (Ret None, (na, w))
  | Quit => (Ret (Some false), (na, w))
  | Item key q =>
      defer (λ '(na, w), (mkAnnotator (na_cache na) (q_Done key (na_queue na)), w))
        (r ← try (sync key);
         match r with
         | inl _ => _ ← onAnnQueue (q_AddRateLimited key); mret (Some true)
         | inr _ => _ ← onAnnQueue (q_Forget key); mret (Some true)
         end) (mkAnnotator (na_cache na) q, w)
  end.

(** Handlers get a node with its boot ID; the key of a node is its name. *)
Definition enqueue (obj : Node) : io (nodeAnnotator * W) unit := onAnnQueue (q_Add (node_Name obj)).
Definition add (obj : Node) : io (nodeAnnotator * W) unit := enqueue obj.
Definition update (obj oldObj : Node * string) : io (nodeAnnotator * W) unit :=
  if negb (bool_decide (obj.2 = oldObj.2)) then enqueue obj.1 else mret tt.
End annotator.
