(* ===== verification/NodeAnnotatorProps.v ===== *)
(** * NodeAnnotatorProps: labels, idempotence and retries of the node annotator *)

From S2P Require Import Prelude Bits GoNet GoNetText GoStrings NetUtils K8s WorkQueue NodeIpamConfig AddressManager Csr NodeCsr NodeAnnotator.

(** ** Valid labels have no separators *)
Lemma has_char_chars c (P : Ascii.ascii → bool) s : P c = false → all_chars P s = true → has_char c s = false.
Proof.
  intros Hc. induction s as [|d s IH]; simpl; [done|]. intros [Hd Hs]%andb_true_iff. rewrite IH by done. rewrite orb_false_r.
  apply bool_decide_eq_false. intros ->. congruence.
Qed.

Lemma matches_chars first mid last s : matches first mid last s = true → all_chars mid s = true.
Proof. unfold matches. destruct s; [done|]. intros ?. by propify. Qed.

Lemma name_part_no_char c s : name_char c = false → name_part s = true → has_char c s = false.
Proof. intros Hc. unfold name_part. intros ?. propify. eapply has_char_chars; [done|]. by eapply matches_chars. Qed.

Lemma has_char_join c d l : c ≠ d → Forall (λ s, has_char c s = false) l → has_char c (join_with (String d EmptyString) l) = false.
Proof.
  intros Hcd. induction 1 as [|s l Hs Hl IH]; [done|]. destruct l as [|t l]; [done|].
  rewrite join_cons by done. rewrite !has_char_app, Hs, IH. simpl. by rewrite bool_decide_false.
Qed.

(** A check on the parts of a split string is a check on the string. *)
Lemma split_no_char c d s : c ≠ d → Forall (λ p, has_char c p = false) (split_on d s) → has_char c s = false.
Proof.
  intros Hcd Hf. destruct (split_on d s) as [|w ws] eqn:Hs; [by destruct s; simpl in Hs; repeat case_match|].
  rewrite (split_on_join _ _ _ _ Hs). by apply has_char_join.
Qed.

Lemma IsDNS1123Subdomain_no_char c s : label_char c = false → c ≠ dot → IsDNS1123Subdomain s = true → has_char c s = false.
Proof.
  intros Hc Hd. unfold IsDNS1123Subdomain. intros ?. propify. apply (split_no_char _ dot); [done|].
  apply Forall_forall. intros p Hp%list_elem_of_In. rewrite forallb_forall in H0.
  eapply has_char_chars; [done|]. eapply matches_chars. by apply H0.
Qed.

Lemma IsQualifiedName_no_char c s : name_char c = false → label_char c = false → c ≠ slash → c ≠ dot →
  IsQualifiedName s = true → has_char c s = false.
Proof.
  intros Hn Hl Hs Hd. unfold IsQualifiedName. destruct (split_on slash s) as [|p [|q [|? ?]]] eqn:Hsp; try done; intros ?;
    propify; apply (split_no_char _ slash); try done; rewrite Hsp, ?Forall_cons, Forall_nil; split_and!;
    first [done|by apply name_part_no_char|by apply IsDNS1123Subdomain_no_char].
Qed.

Lemma IsValidLabelValue_no_char c s : name_char c = false → IsValidLabelValue s = true → has_char c s = false.
Proof.
  intros Hn [->%bool_decide_eq_true_1|Hv]%orb_true_iff; [done|]. by apply name_part_no_char.
Qed.

Lemma valid_label_separators kv : valid_label kv = true →
  has_char comma (label_element kv) = false ∧ has_char eq_sign kv.1 = false.
Proof.
  unfold valid_label, label_element. intros [Hk Hv]%andb_true_iff.
  assert (has_char comma kv.1 = false) as H1 by (by apply IsQualifiedName_no_char).
  assert (has_char comma kv.2 = false) as H2 by (by apply IsValidLabelValue_no_char).
  split; [by rewrite !has_char_app, H1, H2|]. by apply IsQualifiedName_no_char.
Qed.

(** ** Splitting what was joined *)
Lemma split_join_with c l : l ≠ [] → Forall (λ s, has_char c s = false) l → split_on c (join_with (String c EmptyString) l) = l.
Proof.
  intros Hne Hl. induction Hl as [|s l Hs Hl IH]; [done|]. destruct l as [|t l]; [by apply split_on_none|].
  rewrite join_cons by done. change (String c EmptyString +:+ join_with (String c EmptyString) (t :: l))%string
    with (String c (join_with (String c EmptyString) (t :: l))). rewrite split_on_app by done. by rewrite IH.
Qed.

Lemma parsePairs_elements kvs acc : Forall (λ kv, has_char eq_sign kv.1 = false) kvs →
  parsePairs (label_element <$> kvs) acc = Ret (foldl (λ m kv, <[ kv.1 := kv.2 ]> m) acc kvs).
Proof.
  intros Hf. revert acc. induction Hf as [|kv kvs Hk Hf IH]; intros acc; [done|]. cbn [fmap list_fmap parsePairs foldl].
  unfold splitN2. change (label_element kv) with (kv.1 +:+ String eq_sign kv.2)%string. rewrite cut_on_app by done. apply IH.
Qed.

Lemma foldl_insert_list_to_map (kvs : list (string * string)) : NoDup kvs.*1 → ∀ acc : gmap string string,
  foldl (λ m kv, <[ kv.1 := kv.2 ]> m) acc kvs = list_to_map kvs ∪ acc.
Proof.
  induction kvs as [|[k v] kvs IH]; intros Hn acc; cbn [foldl]; [by rewrite list_to_map_nil, (left_id_L ∅ (∪))|].
  apply NoDup_cons in Hn as [Hk Hn]. rewrite IH by done. cbn [fst snd].
  rewrite list_to_map_cons, <- insert_union_l. rewrite insert_union_r; [done|]. by apply not_elem_of_list_to_map_1.
Qed.

Lemma sort_Strings_perm l : sort_Strings l ≡ₚ l.
Proof. apply merge_sort_Permutation. Qed.

(** The sorted elements are those of the map in some order. *)
Lemma sorted_elements (labels : gmap string string) : ∃ kvs, sort_Strings (label_element <$> map_to_list labels) = label_element <$> kvs ∧
  kvs ≡ₚ map_to_list labels.
Proof.
  destruct (Permutation_map_inv label_element (map_to_list labels) (l1 := sort_Strings (label_element <$> map_to_list labels)))
    as (kvs & Hkvs & Hp); [apply sort_Strings_perm|]. exists kvs. split; [exact Hkvs|by symmetry].
Qed.

Lemma valid_elements (labels : gmap string string) kvs : ValidateLabels labels = true → kvs ≡ₚ map_to_list labels →
  Forall (λ kv, valid_label kv = true) kvs.
Proof.
  intros Hv Hp. apply Forall_forall. intros kv Hkv. unfold ValidateLabels in Hv. rewrite forallb_forall in Hv.
  apply Hv, list_elem_of_In. by rewrite <- Hp.
Qed.

Lemma parse_serialize labels : labels ≠ ∅ → ValidateLabels labels = true → parseLabels (serializeLabels labels) = Ret labels.
Proof.
  intros Hne Hv. unfold serializeLabels. destruct (sorted_elements labels) as (kvs & -> & Hp).
  pose proof (valid_elements _ _ Hv Hp) as Hf.
  unfold parseLabels. rewrite split_join_with.
  - rewrite parsePairs_elements; [|by eapply Forall_impl; [exact Hf|]; intros kv ?%valid_label_separators; tauto].
    rewrite foldl_insert_list_to_map; [|rewrite Hp; apply NoDup_fst_map_to_list].
    rewrite (right_id_L ∅ (∪)), (list_to_map_proper kvs (map_to_list labels)), list_to_map_to_list;
      [cbn [mbind outcome_bind]; by rewrite Hv|rewrite Hp; apply NoDup_fst_map_to_list|done].
  - intros Hnil%fmap_nil_inv. subst kvs. apply Hne. apply map_to_list_empty_iff. by apply Permutation_nil_l in Hp.
  - apply Forall_fmap. eapply Forall_impl; [exact Hf|]. intros kv ?%valid_label_separators. tauto.
Qed.

Lemma serializeLabels_empty labels : serializeLabels labels = EmptyString → ValidateLabels labels = true → labels = ∅.
Proof.
  intros Hs Hv. destruct (decide (labels = ∅)) as [?|Hne]; [done|].
  pose proof (parse_serialize labels Hne Hv) as Hp. rewrite Hs in Hp. done.
Qed.

(** ** Labels of a node *)
Lemma lookup_deleteKeys ks (m : gmap string string) k : deleteKeys ks m !! k = if decide (k ∈ ks) then None else m !! k.
Proof.
  unfold deleteKeys. induction ks as [|k' ks IH]; simpl; [done|]. destruct (decide (k = k')) as [->|Hne].
  - rewrite lookup_delete_eq, decide_True by set_solver. done.
  - rewrite lookup_delete_ne, IH by done. destruct (decide (k ∈ ks)), (decide (k ∈ k' :: ks)); set_solver.
Qed.

Lemma extractKubeLabels_valid inst d : extractKubeLabels inst = Ret d → ValidateLabels d = true.
Proof.
  unfold extractKubeLabels. destruct (ai_Metadata inst) as [items|]; [|done].
  destruct (findValue items _) as [[s|]|]; [|done..]. case_bool_decide; [by intros [= <-]|].
  unfold parseLabels. destruct (parsePairs _ _) as [m| |]; cbn [mbind outcome_bind]; [|done..].
  destruct (ValidateLabels m) eqn:Hv; [by intros [= <-]|done].
Qed.

Lemma extractLastApplied_serialized n d : ValidateLabels d = true →
  Annotations n !! lastAppliedLabelsKey = Some (serializeLabels d) → extractLastAppliedLabels n = d.
Proof.
  intros Hv Ha. unfold extractLastAppliedLabels. rewrite Ha. case_bool_decide as He.
  - symmetry. by apply serializeLabels_empty.
  - destruct (decide (d = ∅)) as [->|Hne]; [by destruct He|]. by rewrite parse_serialize.
Qed.

(** The labels recorded as last applied are read back as they were applied,
    the empty set included: merging and extracting are inverse on every set of
    valid labels. *)
Theorem last_applied_roundtrip node desired : ValidateLabels desired = true →
  extractLastAppliedLabels (mergeManagedLabels node desired) = desired.
Proof. intros Hv. apply extractLastApplied_serialized; [done|]. simpl. apply lookup_insert_eq. Qed.

(** The labels after reconciling: the desired ones; of the others, those neither
    owned nor applied before are kept. *)
Lemma labels_after node inst d k : extractKubeLabels inst = Ret d →
  Labels (labelsReconciler node inst).1 !! k =
  match d !! k with
  | Some v => Some v
  | None => if decide (k ∈ ownedKubeLabels ∨ is_Some (extractLastAppliedLabels node !! k)) then None else Labels node !! k
  end.
Proof.
  intros Hd. unfold labelsReconciler, mergeManagedLabels. rewrite Hd. cbn [fst Labels set_Labels set_Annotations]. rewrite lookup_union. change (extractLastAppliedLabels _) with (extractLastAppliedLabels node).
  rewrite !lookup_deleteKeys. destruct (d !! k); [by rewrite union_Some_l|]. rewrite (left_id_L None (∪)).
  assert (k ∈ (map_to_list (extractLastAppliedLabels node)).*1 ↔ is_Some (extractLastAppliedLabels node !! k)) as Hin.
  { rewrite list_elem_of_fmap. split.
    - intros ([k' v] & -> & ?%elem_of_map_to_list). simpl. eauto.
    - intros [v Hv]. exists (k, v). by rewrite elem_of_map_to_list. }
  repeat case_decide; first [done|exfalso; tauto].
Qed.

(** C38: reconciling the labels of a node with one instance description and later
    with another leaves exactly the later desired labels, removes what only the
    earlier one wanted, and keeps every label that neither is owned by the
    controller nor was ever applied by it. *)
Theorem labels_follow_instance node inst1 inst2 d1 d2 k :
  extractKubeLabels inst1 = Ret d1 → extractKubeLabels inst2 = Ret d2 →
  Labels (labelsReconciler (labelsReconciler node inst1).1 inst2).1 !! k =
  match d2 !! k with
  | Some v => Some v
  | None => if decide (k ∈ ownedKubeLabels ∨ is_Some (d1 !! k) ∨ is_Some (extractLastAppliedLabels node !! k))
            then None else Labels node !! k
  end.
Proof.
  intros H1 H2. rewrite (labels_after _ _ d2) by done. rewrite (labels_after _ _ d1) by done.
  assert (extractLastAppliedLabels (labelsReconciler node inst1).1 = d1) as ->.
  { apply extractLastApplied_serialized; [by eapply extractKubeLabels_valid|].
    unfold labelsReconciler. rewrite H1. simpl. apply lookup_insert_eq. }
  destruct (d2 !! k); [done|]. destruct (d1 !! k) as [v|] eqn:Hd1.
  - rewrite !decide_True by eauto. done.
  - repeat case_decide; try done; rewrite ?is_Some_alt in *; tauto.
Qed.

(** ** A second pass changes nothing *)
Lemma Uitoa_nonempty n : Uitoa n ≠ EmptyString.
Proof. unfold Uitoa. change 20%nat with (S 19). generalize 19%nat. intros fuel. simpl. case_match; [done|]. by destruct (utoa_fuel fuel _). Qed.

Definition insert_opt (k : string) (v : option string) (m : gmap string string) : gmap string string :=
  match v with Some v => <[ k := v ]> m | None => m end.

Lemma lookup_insert_opt k v (m : gmap string string) k' :
  insert_opt k v m !! k' = if decide (k' = k ∧ is_Some v) then v else m !! k'.
Proof.
  unfold insert_opt. destruct v as [v|].
  - case_decide as Hd; [destruct Hd as [-> _]; apply lookup_insert_eq|]. rewrite lookup_insert_ne; [done|]. intros ->. apply Hd. eauto.
  - rewrite decide_False; [done|]. intros [_ ?%is_Some_None]. done.
Qed.

(** What a pass writes depends on the instance only, except for the labels, which
    depend on the labels applied before. *)
Definition ret_option {A} (o : outcome A) : option A := match o with Ret a => Some a | _ => None end.
Definition new_termination (inst : AnnInstance) : option string :=
  t ← ai_TerminationTimestamp inst; if bool_decide (t = EmptyString) then None else Some t.
Definition new_annotations (inst : AnnInstance) (m : gmap string string) : gmap string string :=
  insert_opt lastAppliedTaintsKey (serializeTaints <$> ret_option (extractNodeTaints inst))
    (insert_opt instanceTerminationAnnotationKey (new_termination inst)
       (insert_opt lastAppliedLabelsKey (serializeLabels <$> ret_option (extractKubeLabels inst))
          (<[ InstanceIDAnnotationKey := Uitoa (ai_Id inst) ]> m))).
Definition new_labels (inst : AnnInstance) (node : Node) : gmap string string :=
  insert_opt provisioningRequestKey (extractResizeRequestLabel inst) (Labels (labelsReconciler node inst).1).

Lemma instanceID_annotated node inst :
  (instanceIDReconciler node inst).1 = set_Annotations <[ InstanceIDAnnotationKey := Uitoa (ai_Id inst) ]> node.
Proof.
  unfold instanceIDReconciler. case_bool_decide as He; [|done]. case_bool_decide as Hd; [|done]. simpl.
  destruct (Annotations node !! InstanceIDAnnotationKey) as [v|] eqn:Hv; simpl in Hd.
  - unfold set_Annotations. rewrite insert_id by congruence. by destruct node.
  - by destruct (Uitoa_nonempty (ai_Id inst)).
Qed.

Lemma annotate_fst anns node inst u u' : (annotate anns node inst u).1 = (annotate anns node inst u').1.
Proof.
  revert node u u'. induction anns as [|a anns IH]; intros node u u'; simpl; [done|]. destruct (a node inst). apply IH.
Qed.

Lemma extractLastApplied_ext n1 n2 : Annotations n1 !! lastAppliedLabelsKey = Annotations n2 !! lastAppliedLabelsKey →
  extractLastAppliedLabels n1 = extractLastAppliedLabels n2.
Proof. unfold extractLastAppliedLabels. by intros ->. Qed.

Lemma annotate_shape node inst : let node' := (annotate annotators node inst false).1 in
  Annotations node' = new_annotations inst (Annotations node) ∧ Labels node' = new_labels inst node ∧
  node_Name node' = node_Name node ∧ node_UID node' = node_UID node ∧ Spec node' = Spec node ∧ Status node' = Status node.
Proof.
  unfold annotators, new_annotations, new_labels, new_termination. cbn [annotate].
  pose proof (instanceID_annotated node inst) as Hid. destruct (instanceIDReconciler node inst) as [n1 m1]. cbn [fst] in Hid. subst n1.
  unfold labelsReconciler, mergeManagedLabels, resizeRequestReconciler, annotateMachineTermination, taintsReconciler.
  rewrite (extractLastApplied_ext (set_Labels _ (set_Annotations _ node)) node) by (simpl; by rewrite lookup_insert_ne).
  change (extractLastAppliedLabels (set_Labels (deleteKeys ownedKubeLabels) node)) with (extractLastAppliedLabels node).
  destruct (extractKubeLabels inst), (extractResizeRequestLabel inst), (ai_TerminationTimestamp inst) as [t|],
    (extractNodeTaints inst); cbn [mbind option_bind]; try case_bool_decide; repeat split.
Qed.

Lemma new_annotations_idem inst m : new_annotations inst (new_annotations inst m) = new_annotations inst m.
Proof.
  apply map_eq. intros k. unfold new_annotations. rewrite !lookup_insert_opt.
  do 3 (case_decide; [done|]). destruct (decide (k = InstanceIDAnnotationKey)) as [->|Hk]; [by rewrite !lookup_insert_eq|].
  rewrite !lookup_insert_ne, !lookup_insert_opt by done. do 3 (rewrite decide_False by done). by rewrite lookup_insert_ne.
Qed.

Lemma new_annotations_last inst m d : extractKubeLabels inst = Ret d →
  new_annotations inst m !! lastAppliedLabelsKey = Some (serializeLabels d).
Proof.
  intros Hd. unfold new_annotations. rewrite !lookup_insert_opt, Hd.
  do 2 (rewrite decide_False by (intros [? _]; done)). rewrite decide_True; [done|]. split; [done|]. eexists. reflexivity.
Qed.

Lemma new_labels_idem inst node node' : Annotations node' = new_annotations inst (Annotations node) →
  Labels node' = new_labels inst node → new_labels inst node' = new_labels inst node.
Proof.
  intros Ha Hl. unfold new_labels. apply map_eq. intros k. rewrite !lookup_insert_opt. case_decide as Hrr; [done|].
  destruct (extractKubeLabels inst) as [d|e|] eqn:Hd.
  - rewrite !(labels_after _ _ d) by done. destruct (d !! k) eqn:Hk; [done|].
    rewrite (extractLastApplied_serialized node' d); [|by eapply extractKubeLabels_valid|rewrite Ha; by apply new_annotations_last].
    rewrite Hk, Hl. unfold new_labels. rewrite lookup_insert_opt, (decide_False (P := k = provisioningRequestKey ∧ _)) by done.
    rewrite (labels_after _ _ d), Hk by done.
    destruct (decide (k ∈ ownedKubeLabels)) as [Ho|Ho]; [by rewrite !decide_True by auto|].
    rewrite (decide_False (P := k ∈ ownedKubeLabels ∨ is_Some None)); [done|]. intros [?|?%is_Some_None]; done.
  - unfold labelsReconciler at 1. rewrite Hd. cbn [fst]. rewrite Hl. unfold new_labels. by rewrite lookup_insert_opt, decide_False.
  - unfold labelsReconciler at 1. rewrite Hd. cbn [fst]. rewrite Hl. unfold new_labels. by rewrite lookup_insert_opt, decide_False.
Qed.

(** Annotating is idempotent: running all annotators again on a node they have
    just processed, with the same instance, does not change the node. *)
Theorem annotate_idempotent node inst : let node' := (annotate annotators node inst false).1 in
  (annotate annotators node' inst false).1 = node'.
Proof.
  intros node'. destruct (annotate_shape node inst) as (Ha & Hl & Hn & Hu & Hs & Ht). fold node' in Ha, Hl, Hn, Hu, Hs, Ht.
  destruct (annotate_shape node' inst) as (Ha' & Hl' & Hn' & Hu' & Hs' & Ht').
  rewrite Ha, new_annotations_idem, <- Ha in Ha'. rewrite (new_labels_idem inst node node' Ha Hl), <- Hl in Hl'.
  destruct (annotate annotators node' inst false).1, node'. simpl in *. congruence.
Qed.

(** ** Updates and retries *)
Section controller.
Context {W : Type} `{AnnotatorClient W}.

(** None of the annotators but the first has anything to write. *)
Definition only_id (inst : AnnInstance) : Prop :=
  ret_option (extractKubeLabels inst) = None ∧ extractResizeRequestLabel inst = None ∧
  new_termination inst = None ∧ ret_option (extractNodeTaints inst) = None.

Lemma annotate_only_id node inst u : only_id inst → annotate annotators node inst u =
  ((instanceIDReconciler node inst).1, u || (instanceIDReconciler node inst).2).
Proof.
  intros (Hl & Hr & Ht & Hn). unfold annotators. cbn [annotate]. destruct (instanceIDReconciler node inst) as [n m]. cbn [fst snd].
  assert (labelsReconciler n inst = (n, false)) as -> by (unfold labelsReconciler; by destruct (extractKubeLabels inst)).
  assert (resizeRequestReconciler n inst = (n, false)) as -> by (unfold resizeRequestReconciler; by rewrite Hr).
  assert (annotateMachineTermination n inst = (n, false)) as ->.
  { unfold annotateMachineTermination, new_termination in *. destruct (ai_TerminationTimestamp inst) as [t|]; [|done].
    simpl in Ht. by case_bool_decide. }
  assert (taintsReconciler n inst = (n, false)) as -> by (unfold taintsReconciler; by destruct (extractNodeTaints inst)).
  by rewrite !orb_false_r.
Qed.

Lemma instanceID_settled node inst : instanceIDReconciler (set_Annotations <[ InstanceIDAnnotationKey := Uitoa (ai_Id inst) ]> node) inst =
  (set_Annotations <[ InstanceIDAnnotationKey := Uitoa (ai_Id inst) ]> node, false).
Proof.
  unfold instanceIDReconciler. cbn [Annotations set_Annotations]. rewrite lookup_insert_eq. simpl.
  rewrite !bool_decide_true; [done|done|]. apply insert_non_empty.
Qed.

(** A failed update is not made up for when the instance ID is all there is to
    write: the annotator has changed the node in the lister's cache, so the
    retry of the failed key finds nothing to do and reports success without
    another update. *)
Theorem failed_update_is_lost na w key node inst w1 w2 w3 e :
  na_cache na !! key = Some node → Annotations node !! InstanceIDAnnotationKey = None → only_id inst →
  getInstance (ProviderID (Spec node)) w = (Ret inst, w1) →
  Nodes_Update (set_Annotations <[ InstanceIDAnnotationKey := Uitoa (ai_Id inst) ]> node) w1 = (Err e, w2) →
  getInstance (ProviderID (Spec node)) w2 = (Ret inst, w3) →
  ∃ na', sync key (na, w) = (Err e, (na', w2)) ∧ sync key (na', w2) = (Ret tt, (na', w3)).
Proof.
  intros Hc Hno Hid Hg Hu Hg2. set (node' := set_Annotations _ node) in *.
  exists (mkAnnotator (<[ key := node' ]> (na_cache na)) (na_queue na)).
  assert ((instanceIDReconciler node inst).2 = true) as Hmod.
  { unfold instanceIDReconciler. rewrite Hno. simpl. case_bool_decide; [|done]. simpl. rewrite bool_decide_false; [done|].
    intros Hs. by apply (Uitoa_nonempty (ai_Id inst)). }
  unfold sync. split; rewrite io_bind_eq; cbn [ask fst snd na_cache].
  - rewrite Hc, io_bind_eq. unfold on_snd at 1. cbn [snd]. rewrite Hg, annotate_only_id, Hmod, instanceID_annotated by done.
    cbn [orb negb]. rewrite io_bind_eq. unfold setCache, put, on_snd. cbn [snd]. fold node'. by rewrite Hu.
  - rewrite lookup_insert_eq, io_bind_eq. unfold on_snd. cbn [snd]. replace (Spec node') with (Spec node) by done.
    rewrite Hg2, annotate_only_id by done. unfold node'. rewrite instanceID_settled. cbn [fst snd orb negb].
    rewrite io_bind_eq. unfold setCache, put. cbn [fst snd na_cache na_queue]. by rewrite insert_insert_eq.
Qed.

(** A node whose processing fails is never dropped, however often it failed: the
    worker goes on, the key waits for its timer, and when the timer fires the
    key is in the queue again. *)
Theorem failed_node_is_retried na w key q e na1 w1 : queue_ok (na_queue na) → q_shuttingDown (na_queue na) = false →
  q_Get (na_queue na) = Item key q → sync key (mkAnnotator (na_cache na) q, w) = (Err e, (na1, w1)) →
  ∃ na2, processNextWorkItem (na, w) = (Ret (Some true), (na2, w1)) ∧ key ∈ q_waiting (na_queue na2) ∧
    key ∈ q_queue (q_Fire key (na_queue na2)) ∧ q_NumRequeues key (na_queue na2) = S (q_NumRequeues key (na_queue na)).
Proof.
  intros Hok Hsd Hget Hsync.
  assert (na_queue na1 = q) as Hq.
  { revert Hsync. unfold sync. rewrite io_bind_eq. cbn [ask fst na_cache]. destruct (na_cache na !! key) as [node|]; [|done].
    rewrite io_bind_eq. unfold on_snd at 1. destruct (getInstance _ _) as [[inst|e'|] w']; [|by intros [= _ <- _]|done].
    destruct (annotate annotators node inst false) as [node' u]. rewrite io_bind_eq. unfold setCache, put.
    destruct u; [|done]. cbn [negb]. unfold on_snd. destruct (Nodes_Update _ _). by intros [= _ <- _]. }
  destruct (q_Get_ok _ _ _ Hok Hget) as (Hok' & Hnp & Hp). assert (q_shuttingDown q = false ∧ q_failures q = q_failures (na_queue na)) as [Hsd' Hf'].
  { revert Hget. unfold q_Get. rewrite Hsd. destruct (q_queue (na_queue na)); [done|]. by intros [= <- <-]. }
  exists (mkAnnotator (na_cache na1) (q_Done key (q_AddRateLimited key q))). split.
  - unfold processNextWorkItem. rewrite Hget. unfold defer. rewrite io_bind_eq. unfold try. rewrite Hsync.
    rewrite io_bind_eq. unfold onAnnQueue, put. cbn [na_cache na_queue]. by rewrite Hq.
  - cbn [na_queue]. assert (key ∈ q_waiting (q_Done key (q_AddRateLimited key q))) as Hw by (simpl; rewrite Hsd'; set_solver).
    split; [done|]. split.
    + unfold q_Fire. rewrite decide_True by done. unfold q_Add. simpl. rewrite Hsd'. case_decide as Hd; simpl; [set_solver|].
      rewrite decide_False by set_solver. set_solver.
    + unfold q_NumRequeues at 1. simpl. rewrite lookup_insert_eq. simpl. unfold q_NumRequeues. by rewrite Hf'.
Qed.
End controller.

(** ** A run *)
Definition ann_meta (labels : string) : option (list (option MetadataItem)) :=
  Some [None; Some (mkItem "kube-labels" (Some labels)); Some (mkItem "kube-env" (Some "a=b;node_taints=t=v:NoSchedule"%string))].
Definition ann_inst (labels : string) : AnnInstance := mkAnnInstance 7 (ann_meta labels) None.
Definition ann_node : Node := mkNode "n" "u" ∅ {[ "mine" := "1"%string; "cloud.google.com/gke-gpu" := "x"%string ]}
  (mkSpec EmptyString [] "gce://p/z/n" []) (mkStatus ∅ []).

Example annotate_demo : let node' := (annotate annotators ann_node (ann_inst "a.b/c=d,e=") false).1 in
  (map_to_list (Labels node'), Annotations node' !! lastAppliedLabelsKey, Annotations node' !! lastAppliedTaintsKey) =
  ([("mine", "1"); ("e", EmptyString); ("a.b/c", "d")], Some "a.b/c=d,e=", Some "t=v:NoSchedule")%string.
Proof. vm_compute. reflexivity. Qed.

Lemma last_applied_roundtrip_witness :
  extractLastAppliedLabels (mergeManagedLabels ann_node {[ "a" := "b"%string; "c.d/e" := EmptyString ]}) = {[ "a" := "b"%string; "c.d/e" := EmptyString ]}.
Proof. apply last_applied_roundtrip. vm_compute. reflexivity. Defined.

Lemma labels_follow_instance_witness :
  Labels (labelsReconciler (labelsReconciler ann_node (ann_inst "a=b")).1 (ann_inst "e=f")).1 !! "a"%string = None.
Proof.
  rewrite (labels_follow_instance ann_node (ann_inst "a=b") (ann_inst "e=f") {[ "a" := "b"%string ]} {[ "e" := "f"%string ]});
    vm_compute; reflexivity.
Defined.

(** A server whose first update fails; the world counts the calls. *)
#[local] Instance flaky_api : AnnotatorClient nat := {
  AnnInstances_Get := λ _ _ _ w, (Ret (mkAnnInstance 7 None None), w);
  Nodes_Update := λ _ w, (if bool_decide (w = O) then Err (ErrStatus ReasonConflict) else Ret tt, S w)
}.
Definition ann_start : nodeAnnotator := mkAnnotator {[ "n"%string := ann_node ]} (q_Add "n" newQueue).

Lemma failed_update_is_lost_witness : ∃ na', sync "n" (ann_start, 0%nat) = (Err (ErrStatus ReasonConflict), (na', 1%nat)) ∧
  sync "n" (na', 1%nat) = (Ret tt, (na', 1%nat)).
Proof.
  apply (failed_update_is_lost ann_start 0%nat "n" ann_node (mkAnnInstance 7 None None) 0%nat 1%nat 1%nat); [reflexivity..| |reflexivity|reflexivity|reflexivity].
  repeat split.
Defined.

Lemma failed_node_is_retried_witness : ∃ na2, processNextWorkItem (ann_start, 0%nat) = (Ret (Some true), (na2, 1%nat)) ∧
  "n"%string ∈ q_waiting (na_queue na2) ∧ "n"%string ∈ q_queue (q_Fire "n" (na_queue na2)) ∧
  q_NumRequeues "n" (na_queue na2) = 1%nat.
Proof.
  apply (failed_node_is_retried ann_start 0%nat "n" (mkQueue [] ∅ {[ "n"%string ]} ∅ ∅ false) (ErrStatus ReasonConflict)
    (mkAnnotator {[ "n"%string := set_Annotations <[ InstanceIDAnnotationKey := "7"%string ]> ann_node ]} (mkQueue [] ∅ {[ "n"%string ]} ∅ ∅ false)) 1%nat).
  - apply q_Add_ok, newQueue_ok.
  - reflexivity.
  - vm_compute. reflexivity.
  - vm_compute. reflexivity.
Defined.
