(* ===== verification/LoadBalancer.v ===== *)
(** * LoadBalancer: services, compute resources, annotations and names

    What [gce_loadbalancer.go] and its internal and external parts share: the
    fields of [v1.Service] and of the compute resources they use, the
    annotations ([gce_annotations.go]), the names of resources
    ([gce_loadbalancer_naming.go]), finalizers, error tests and set comparisons
    ([gce_util.go]), the service helpers of k8s.io/cloud-provider, and the port
    ranges of a firewall. *)

From S2P Require Import Prelude Bits GoNet GoNetText GoStrings NetUtils Json K8s GnpValidations NodeIpamConfig AddressManager NodeAnnotator.
Local Open Scope Z_scope.

(** ** Services *)
Record ServicePort : Type := mkPort { sp_Protocol : string; sp_Port : Z }.
Record ServiceCondition : Type := mkSvcCond { sc_Type : string; sc_Status : string }.
Record Service : Type := mkService {
  svc_Namespace : string; svc_Name : string; svc_UID : string;
  svc_Annotations : gmap string string;
  svc_Finalizers : list string;
  svc_Type : string;
  svc_Ports : list ServicePort;
  svc_SessionAffinity : string;
  svc_LoadBalancerIP : string;
  svc_LoadBalancerClass : option string;
  svc_LoadBalancerSourceRanges : list string;
  svc_ExternalTrafficPolicy : string;
  svc_HealthCheckNodePort : Z;
  svc_Conditions : list ServiceCondition
}.

Definition ProtocolTCP : string := "TCP".
Definition ProtocolUDP : string := "UDP".
Definition SchemeInternal : string := "INTERNAL".
Definition SchemeExternal : string := "EXTERNAL".

(** [types.NamespacedName.String] *)
Definition namespacedName (svc : Service) : string := (svc_Namespace svc +:+ "/" +:+ svc_Name svc)%string.

(** ** Helpers of k8s.io/cloud-provider *)
Definition RequestsOnlyLocalTraffic (svc : Service) : bool :=
  if negb (bool_decide (svc_Type svc = "LoadBalancer"%string)) && negb (bool_decide (svc_Type svc = "NodePort"%string)) then false
  else bool_decide (svc_ExternalTrafficPolicy svc = "Local"%string).
Definition NeedsHealthCheck (svc : Service) : bool :=
  if negb (bool_decide (svc_Type svc = "LoadBalancer"%string)) then false else RequestsOnlyLocalTraffic svc.
Definition GetServiceHealthCheckPathPort (svc : Service) : string * Z :=
  if negb (NeedsHealthCheck svc) then (EmptyString, 0)
  else if svc_HealthCheckNodePort svc =? 0 then (EmptyString, 0)
  else ("/healthz"%string, svc_HealthCheckNodePort svc).

(** The set of ranges by their normalized text. *)
Fixpoint ParseIPNets (specs : list string) (set : gset string) : outcome (gset string) :=
  match specs with
  | [] => Ret set
  | spec :: specs => n ← ParseCIDRSloppy (TrimSpace spec); ParseIPNets specs ({[ IPNet_String n ]} ∪ set)
  end.

Definition AnnotationLoadBalancerSourceRangesKey : string := "service.beta.kubernetes.io/load-balancer-source-ranges".
Definition GetLoadBalancerSourceRanges (svc : Service) : outcome (gset string) :=
  let invalid {A} (o : outcome A) e := match o with Err _ => Err e | o => o end in
  if bool_decide (svc_LoadBalancerSourceRanges svc ≠ [])
  then invalid (ParseIPNets (svc_LoadBalancerSourceRanges svc) ∅) (Errorf "service.Spec.LoadBalancerSourceRanges: %v is not valid")
  else
    let val := TrimSpace (default EmptyString (svc_Annotations svc !! AnnotationLoadBalancerSourceRangesKey)) in
    let val := if bool_decide (val = EmptyString) then "0.0.0.0/0"%string else val in
    invalid (ParseIPNets (split_on comma val) ∅) (Errorf "%s: %s is not valid. Expecting a comma-separated list of source IP ranges").

(** [cloudprovider.DefaultLoadBalancerName] *)
Fixpoint remove_char (c : Ascii.ascii) (s : string) : string :=
  match s with
  | EmptyString => EmptyString
  | String d s => if decide (d = c) then remove_char c s else String d (remove_char c s)
  end.
Definition DefaultLoadBalancerName (svc : Service) : string :=
  String.substring 0 32 (remove_char dash ("a" +:+ svc_UID svc)).
Definition GetLoadBalancerName (svc : Service) : string := DefaultLoadBalancerName svc.

(** ** Annotations *)
Definition ServiceAnnotationLoadBalancerType : string := "networking.gke.io/load-balancer-type".
Definition deprecatedServiceAnnotationLoadBalancerType : string := "cloud.google.com/load-balancer-type".
Definition LBTypeInternal : string := "Internal".
Definition ServiceAnnotationILBBackendShare : string := "alpha.cloud.google.com/load-balancer-backend-share".
Definition deprecatedServiceAnnotationILBBackendShare : string := "cloud.google.com/load-balancer-backend-share".
Definition ServiceAnnotationILBAllowGlobalAccess : string := "networking.gke.io/internal-load-balancer-allow-global-access".
Definition ServiceAnnotationILBSubnet : string := "networking.gke.io/internal-load-balancer-subnet".
Definition NetworkTierAnnotationKey : string := "cloud.google.com/network-tier".
Definition NetworkTierStandard : string := "Standard".
Definition NetworkTierPremium : string := "Premium".
Definition NetworkTierDefault : string := NetworkTierPremium.
Definition RBSAnnotationKey : string := "cloud.google.com/l4-rbs".
Definition RBSEnabled : string := "enabled".

(** The first key that is present decides. *)
Definition GetLoadBalancerAnnotationType (svc : Service) : string :=
  let lbType := match svc_Annotations svc !! ServiceAnnotationLoadBalancerType with
    | Some v => v
    | None => default EmptyString (svc_Annotations svc !! deprecatedServiceAnnotationLoadBalancerType)
    end in
  if bool_decide (lbType = LBTypeInternal) || bool_decide (lbType = "internal"%string) then LBTypeInternal else lbType.

Definition GetLoadBalancerAnnotationBackendShare (svc : Service) : bool :=
  if bool_decide (svc_Annotations svc !! ServiceAnnotationILBBackendShare = Some "true"%string) then true
  else bool_decide (svc_Annotations svc !! deprecatedServiceAnnotationILBBackendShare = Some "true"%string).

(** The tier and the error: both are returned. *)
Definition GetServiceNetworkTier (svc : Service) : string * option error :=
  match svc_Annotations svc !! NetworkTierAnnotationKey with
  | None => (NetworkTierDefault, None)
  | Some l =>
      if bool_decide (l = NetworkTierStandard) || bool_decide (l = NetworkTierPremium) then (l, None)
      else (NetworkTierDefault, Some (Errorf "unsupported network tier: %q"))
  end.

Record ILBOptions : Type := mkILBOptions { AllowGlobalAccess : bool; SubnetName : string }.
Definition GetLoadBalancerAnnotationAllowGlobalAccess (svc : Service) : bool :=
  bool_decide (default EmptyString (svc_Annotations svc !! ServiceAnnotationILBAllowGlobalAccess) = "true"%string).
Definition GetLoadBalancerAnnotationSubnet (svc : Service) : string :=
  default EmptyString (svc_Annotations svc !! ServiceAnnotationILBSubnet).
Definition getILBOptions (svc : Service) : ILBOptions :=
  mkILBOptions (GetLoadBalancerAnnotationAllowGlobalAccess svc) (GetLoadBalancerAnnotationSubnet svc).

Definition getSvcScheme (svc : Service) : string :=
  if bool_decide (GetLoadBalancerAnnotationType svc = LBTypeInternal) then SchemeInternal else SchemeExternal.

Definition checkMixedProtocol (ports : list ServicePort) : option error :=
  match ports with
  | [] => None
  | p :: ports =>
      if forallb (λ q, bool_decide (sp_Protocol q = sp_Protocol p)) ports then None
      else Some (Errorf "mixed protocol is not supported for LoadBalancer")
  end.

Definition LoadBalancerPortsError : string := "LoadBalancerPortsError".
Fixpoint hasPortsError (conds : list ServiceCondition) : bool :=
  match conds with
  | [] => false
  | c :: conds => if bool_decide (sc_Type c = LoadBalancerPortsError) then bool_decide (sc_Status c = ConditionTrue) else hasPortsError conds
  end.
Definition hasLoadBalancerPortsError (svc : Service) : bool := hasPortsError (svc_Conditions svc).

(** ** Finalizers and error tests, [gce_util.go] *)
Definition hasFinalizer (svc : Service) (key : string) : bool := bool_decide (key ∈ svc_Finalizers svc).
Definition removeString (slice : list string) (s : string) : list string := filter (λ item, item ≠ s) slice.
Definition isInUsedByError (err : error) : bool := match err with ErrBeingUsedBy => true | _ => false end.
Definition isNotFoundOrInUse (err : error) : bool := isNotFound err || isInUsedByError err.
Definition isForbidden (err : error) : bool := isHTTPErrorCode err 403.
Definition equalStringSets (x y : list string) : bool :=
  if negb (length x =? length y)%nat then false
  else bool_decide ((list_to_set x : gset string) = list_to_set y).

(** [cloudprovider.ImplementedElsewhere]: another controller handles the service. *)
Definition ImplementedElsewhere : error := ErrSentinel "implemented by alternate to cloud provider".

(** ** Compute resources *)
Record ForwardingRule : Type := mkFwd {
  fr_Name : string; fr_Description : string; fr_IPAddress : string; fr_BackendService : string; fr_Target : string;
  fr_Ports : list string; fr_AllPorts : bool; fr_PortRange : string; fr_IPProtocol : string;
  fr_LoadBalancingScheme : string; fr_Subnetwork : string; fr_Network : string; fr_AllowGlobalAccess : bool; fr_NetworkTier : string
}.
Record BackendService : Type := mkBS {
  bs_Name : string; bs_Protocol : string; bs_Description : string; bs_HealthChecks : list string;
  bs_Backends : list string; bs_SessionAffinity : string; bs_LoadBalancingScheme : string; bs_Fingerprint : string
}.
(** The HTTP settings are the port and the path. *)
Record HealthCheck : Type := mkHC {
  hc_Name : string; hc_CheckIntervalSec : Z; hc_TimeoutSec : Z; hc_HealthyThreshold : Z; hc_UnhealthyThreshold : Z;
  hc_Http : option (Z * string); hc_Type : string; hc_Description : string; hc_SelfLink : string
}.
Record Firewall : Type := mkFW {
  fw_Name : string; fw_Description : string; fw_Network : string; fw_SourceRanges : list string;
  fw_DestinationRanges : list string; fw_TargetTags : list string; fw_Allowed : list (string * list string)
}.
Record InstanceGroup : Type := mkIG { ig_Name : string; ig_SelfLink : string }.
#[global] Instance ForwardingRule_eq_dec : EqDecision ForwardingRule. Proof. solve_decision. Defined.
#[global] Instance BackendService_eq_dec : EqDecision BackendService. Proof. solve_decision. Defined.
#[global] Instance HealthCheck_eq_dec : EqDecision HealthCheck. Proof. solve_decision. Defined.
#[global] Instance Firewall_eq_dec : EqDecision Firewall. Proof. solve_decision. Defined.

(** ** Names *)

(** [hex.EncodeToString(sha1(s))] *)
Class Sha1 : Type := { sha1_hex : string → string }.

Definition to_lower_char (c : Ascii.ascii) : Ascii.ascii := if is_upper c then chr (Z.to_N (code c + 32)) else c.
Fixpoint to_lower (s : string) : string := match s with EmptyString => EmptyString | String c s => String (to_lower_char c) (to_lower s) end.
Definition to_upper_char (c : Ascii.ascii) : Ascii.ascii := if is_lower c then chr (Z.to_N (code c - 32)) else c.
Fixpoint to_upper (s : string) : string := match s with EmptyString => EmptyString | String c s => String (to_upper_char c) (to_upper s) end.
(** [strings.EqualFold] on ASCII. *)
Definition EqualFold (s t : string) : bool := bool_decide (to_lower s = to_lower t).

Definition makeInstanceGroupName (clusterID : string) : string :=
  if bool_decide (clusterID = EmptyString) then "k8s-ig"%string else ("k8s-ig--" +:+ clusterID)%string.
Definition makeBackendServiceName `{Sha1} (loadBalancerName clusterID : string) (shared : bool) (scheme protocol svcAffinity : string) : string :=
  if shared then
    ("k8s-" +:+ clusterID +:+ "-" +:+ to_lower scheme +:+ "-" +:+ to_lower protocol +:+ "-nmv1-" +:+
     String.substring 0 16 (sha1_hex svcAffinity))%string
  else loadBalancerName.
Definition makeHealthCheckName (loadBalancerName clusterID : string) (shared : bool) : string :=
  if shared then ("k8s-" +:+ clusterID +:+ "-node")%string else loadBalancerName.
Definition makeHealthCheckFirewallNameFromHC (healthCheckName : string) : string := (healthCheckName +:+ "-hc")%string.
Definition makeHealthCheckFirewallName (loadBalancerName clusterID : string) (shared : bool) : string :=
  if shared then ("k8s-" +:+ clusterID +:+ "-node-hc")%string else (loadBalancerName +:+ "-hc")%string.
Definition makeServiceDescription (serviceName : string) : string := serviceDescription serviceName.
Definition makeHealthCheckDescription (serviceName : string) : string := serviceDescription serviceName.
Definition makeBackendServiceDescription (nm : string) (shared : bool) : string :=
  if shared then EmptyString else serviceDescription nm.
Definition MakeNodesHealthCheckName (clusterID : string) : string := ("k8s-" +:+ clusterID +:+ "-node")%string.
Definition MakeHealthCheckFirewallName (clusterID hcName : string) (isNodesHealthCheck : bool) : string :=
  if isNodesHealthCheck then (MakeNodesHealthCheckName clusterID +:+ "-http-hc")%string else ("k8s-" +:+ hcName +:+ "-http-hc")%string.
Definition MakeFirewallName (name : string) : string := ("k8s-fw-" +:+ name)%string.
Definition makeFirewallDescription (serviceName ipAddress : string) : string :=
  (dq "{'kubernetes.io/service-name':'" +:+ serviceName +:+ dq "', 'kubernetes.io/service-ip':'" +:+ ipAddress +:+ dq "'}")%string.

Definition getNameFromLink (link : string) : string :=
  if bool_decide (link = EmptyString) then EmptyString else List.last (split_on slash link) EmptyString.

(** ** Ports *)

(** [sort.Ints] *)
Definition sort_Ints (l : list Z) : list Z := merge_sort Z.le l.

(** [fmt.Sprintf("%d", a)], [fmt.Sprintf("%d-%d", a, b)]; ports are not negative. *)
Definition range_text (a b : Z) : string := if a =? b then Uitoa a else (Uitoa a +:+ "-" +:+ Uitoa b)%string.

(** The loop of [getPortRanges] after its first port: [start] and [prev] are
    those of the code. *)
Fixpoint portRanges (start prev : Z) (ports : list Z) (ranges : list string) : list string :=
  match ports with
  | [] => ranges
  | current :: rest =>
      let last := bool_decide (rest = []) in
      if current =? prev then
        portRanges start current rest
          (if last then ranges ++ [if start =? current then Uitoa current else (Uitoa start +:+ "-" +:+ Uitoa current)%string] else ranges)
      else if current =? prev + 1 then
        portRanges start current rest (if last then ranges ++ [(Uitoa start +:+ "-" +:+ Uitoa current)%string] else ranges)
      else
        let ranges := ranges ++ [if start =? prev then Uitoa prev else (Uitoa start +:+ "-" +:+ Uitoa prev)%string] in
        portRanges current current rest (if last then ranges ++ [Uitoa current] else ranges)
  end.
Definition getPortRanges (ports : list Z) : list string :=
  match sort_Ints ports with
  | [] => []
  | p :: ps => portRanges p p (p :: ps) []
  end.

(** The ports as text, their ranges, and the protocol of the first port. *)
Definition getPortsAndProtocol (svcPorts : list ServicePort) : list string * list string * string :=
  match svcPorts with
  | [] => ([], [], ProtocolUDP)
  | p :: _ => ((λ q, Uitoa (sp_Port q)) <$> svcPorts, getPortRanges (sp_Port <$> svcPorts), sp_Protocol p)
  end.

Example ranges_demo : getPortRanges [443; 80; 81; 82; 80; 8080; 8081] = ["80-82"; "443"; "8080-8081"]%string.
Proof. vm_compute. reflexivity. Qed.

(** ** Resource URLs ([cloud.ParseResourceURL], [ResourceID.Equal]) *)
Record ResourceID : Type := mkResource {
  ri_ProjectID : string; ri_APIGroup : string; ri_Resource : string;
  (** name, zone and region of the key *)
  ri_Key : option (string * string * string)
}.
#[global] Instance ResourceID_eq_dec : EqDecision ResourceID. Proof. solve_decision. Defined.

Definition parseResource (url group : string) : option ResourceID :=
  let url := match after "/projects/" url with Some r => ("projects/" +:+ r)%string | None => url end in
  let parts := split_on slash url in
  if (length parts <? 2)%nat || (6 <? length parts)%nat then None
  else
    let isProject := bool_decide (hd EmptyString parts = "projects"%string) in
    let project := if isProject then nth 1 parts EmptyString else EmptyString in
    match (if isProject then drop 2 parts else parts) with
    | [] => Some (mkResource project group "projects" None)
    | scope :: rest =>
        if bool_decide (scope = "global"%string) then
          match rest with [res; name] => Some (mkResource project group res (Some (name, EmptyString, EmptyString))) | _ => None end
        else if bool_decide (scope = "regions"%string) then
          match rest with
          | [name] => Some (mkResource project group "regions" (Some (name, EmptyString, EmptyString)))
          | [region; res; name] => Some (mkResource project group res (Some (name, EmptyString, region)))
          | _ => None
          end
        else if bool_decide (scope = "zones"%string) then
          match rest with
          | [name] => Some (mkResource project group "zones" (Some (name, EmptyString, EmptyString)))
          | [zone; res; name] => Some (mkResource project group res (Some (name, zone, EmptyString)))
          | _ => None
          end
        else None
    end.

(** [None] when the URL cannot be parsed: the result is then a nil pointer. *)
Definition ResourceOf (url : string) : option ResourceID :=
  match apiGroupMatch url with
  | Some g => if bool_decide (g = "compute"%string) || bool_decide (g = "networkservices"%string) then parseResource url g else None
  | None => parseResource url EmptyString
  end.
Definition sameResource (u v : string) : bool := bool_decide (ResourceOf u = ResourceOf v).

(** The two spellings of the API endpoint name the same resource. *)
Example same_backend :
  sameResource "https://www.googleapis.com/compute/v1/projects/p/regions/r/backendServices/b"
               "https://compute.googleapis.com/v1/projects/p/regions/r/backendServices/b" = true.
Proof. vm_compute. reflexivity. Qed.
