(* ===== verification/GceHosts.v ===== *)
(** * GceHosts: the instances and tags behind node names

    The lookups of [gce_instances.go] the load balancers use: nodes by zone,
    instance references, the instances that exist for a list of names, and the
    network tags of the nodes with their cache. *)

From S2P Require Import Prelude Bits GoNet GoNetText GoStrings K8s GceInstances NodeAnnotator LoadBalancer.
Local Open Scope Z_scope.

(** Go ranges over a map in an order of its own. *)
Class MapOrder : Type := {
  range {A : Type} : gmap string A → list (string * A);
  range_perm {A : Type} (m : gmap string A) : range m ≡ₚ map_to_list m
}.

(** [sets.String.List]: sorted; [UnsortedList] of a set is a range over it. *)
Definition set_List (s : gset string) : list string := sort_Strings (elements s).

(** ** Configuration of the cloud *)
Record gceConfig : Type := mkGceConfig {
  g_projectID : string; g_networkProjectID : string; g_region : string; g_projectsBasePath : string;
  g_networkURL : string;
  (** as found by [initializeSubnetworkURLAndIsLegacyNetwork] *)
  g_subnetworkURL : string; g_isLegacyNetwork : bool;
  g_onXPN : bool; g_managedZones : list string; g_nodeInstancePrefix : string;
  g_externalInstanceGroupsPrefix : string;
  (** the flag [cloud-provider-gce-lb-src-cidrs] *)
  g_l4LbSrcRngs : gset string;
  (** the alpha features ILBSubsets and SkipIGsManagement *)
  g_ILBSubsets : bool; g_SkipIGsManagement : bool
}.

(** ** Nodes by zone *)
Definition LabelTopologyZone : string := "topology.kubernetes.io/zone".
Definition LabelFailureDomainBetaZone : string := "failure-domain.beta.kubernetes.io/zone".
Definition getZone (node : Node) : string :=
  match Labels node !! LabelTopologyZone with
  | Some zone => zone
  | None => default EmptyString (Labels node !! LabelFailureDomainBetaZone)
  end.

Fixpoint splitZones (nodes : list Node) (zones : gmap string (list Node)) : gmap string (list Node) :=
  match nodes with
  | [] => zones
  | n :: nodes =>
      let z := getZone n in
      splitZones nodes (if bool_decide (z ≠ EmptyString) then <[ z := default [] (zones !! z) ++ [n] ]> zones else zones)
  end.
Definition splitNodesByZone (nodes : list Node) : gmap string (list Node) := splitZones nodes ∅.

Definition nodeNames (nodes : list Node) : list string := node_Name <$> nodes.

Definition makeHostURL (projectsAPIEndpoint projectID zone host : string) : string :=
  (projectsAPIEndpoint +:+ join_with "/" [projectID; "zones"; zone; "instances"; canonicalizeInstanceName host])%string.
Definition ToInstanceReferences (g : gceConfig) (zone : string) (instanceNames : list string) : list string :=
  makeHostURL (g_projectsBasePath g) (g_projectID g) zone <$> instanceNames.

(** ** Instances by name *)

(** The disks by the name of their device. *)
Record gceInstance : Type := mkGceInstance { gi_Zone : string; gi_Name : string; gi_ID : Z; gi_Disks : list string; gi_Type : string }.
(** A listed instance; [Tags] is a pointer. *)
Record ListedInstance : Type := mkListed {
  li_Name : string; li_Tags : option (list string); li_ID : Z; li_Disks : list string; li_MachineType : string
}.

Class InstanceLister (W : Type) : Type := {
  (** the zone and the regular expression for the name, if there is a filter *)
  ComputeInstances_List : string → option string → io W (list ListedInstance)
}.

(** The tags of the configuration, and the cache: the node names of the last
    computation and its result. *)
Record tagCache : Type := mkTagCache { nodeTags : list string; lastKnownNodeNames : gset string; lastComputedNodeTags : list string }.

(** The names that are wanted, and the prefix if all have it. *)
Fixpoint wanted (g : gceConfig) (names : list string) (found : gmap string (option gceInstance)) (prefix : string)
  : gmap string (option gceInstance) * string :=
  match names with
  | [] => (found, prefix)
  | name :: names =>
      let name := canonicalizeInstanceName name in
      wanted g names (<[ name := None ]> found) (if HasPrefix name (g_nodeInstancePrefix g) then prefix else EmptyString)
  end.

Fixpoint matchInstances (zone : string) (insts : list ListedInstance) (found : gmap string (option gceInstance)) (remaining : Z)
  : gmap string (option gceInstance) * Z :=
  match insts with
  | [] => (found, remaining)
  | inst :: insts =>
      if remaining =? 0 then (found, remaining)
      else match found !! li_Name inst with
           | Some None => matchInstances zone insts (<[ li_Name inst := Some (mkGceInstance zone (li_Name inst) (li_ID inst) (li_Disks inst) (lastComponent (li_MachineType inst))) ]> found) (remaining - 1)
           | _ => matchInstances zone insts found remaining
           end
  end.

Section hosts.
Context {W : Type} `{InstanceLister W} `{MapOrder}.
Variable g : gceConfig.

Fixpoint scanZones (zones : list string) (prefix : string) (found : gmap string (option gceInstance)) (remaining : Z)
  : io W (gmap string (option gceInstance)) :=
  match zones with
  | [] => mret found
  | zone :: zones =>
      if remaining =? 0 then mret found
      else
        insts ← ComputeInstances_List zone (Some (prefix +:+ ".*")%string);
        let '(found, remaining) := matchInstances zone insts found remaining in
        scanZones zones prefix found remaining
  end.

Definition getFoundInstanceByNames (names : list string) : io W (list gceInstance) :=
  let '(found, prefix) := wanted g names ∅ (g_nodeInstancePrefix g) in
  found ← scanZones (g_managedZones g) prefix found (Z.of_nat (length names));
  mret (omap snd (range found)).

Definition InstanceNotFound : error := ErrSentinel "instance not found".
Definition getInstancesByNames (names : list string) : io W (list gceInstance) :=
  foundInstances ← getFoundInstanceByNames names;
  if negb (length foundInstances =? length names)%nat && (length foundInstances =? 0)%nat then fail InstanceNotFound
  else mret foundInstances.

(** ** Tags *)
Fixpoint hostsByZone (hosts : list gceInstance) (m : gmap string (gset string)) (prefix : string) : gmap string (gset string) * string :=
  match hosts with
  | [] => (m, prefix)
  | h :: hosts =>
      hostsByZone hosts (<[ gi_Zone h := {[ gi_Name h ]} ∪ default ∅ (m !! gi_Zone h) ]> m)
        (if HasPrefix (gi_Name h) (g_nodeInstancePrefix g) then prefix else EmptyString)
  end.

(** The longest tag that is a prefix of the name. *)
Fixpoint longestTag (name : string) (tags : list string) (best : string) : string :=
  match tags with
  | [] => best
  | tag :: tags =>
      longestTag name tags (if HasPrefix name tag && (String.length best <? String.length tag)%nat then tag else best)
  end.

Fixpoint instanceTags (insts : list ListedInstance) (hostNames : gset string) (tags : gset string) : outcome (gset string) :=
  match insts with
  | [] => Ret tags
  | inst :: insts =>
      if negb (bool_decide (li_Name inst ∈ hostNames)) then instanceTags insts hostNames tags
      else match li_Tags inst with
           | None => Panic
           | Some items =>
               let longest := longestTag (li_Name inst) items EmptyString in
               if bool_decide (longest = EmptyString)
               then Err (Errorf "could not find any tag that is a prefix of instance name for instance %s")
               else instanceTags insts hostNames ({[ longest ]} ∪ tags)
           end
  end.

Fixpoint zoneTags (zones : list (string * gset string)) (filter : option string) (tags : gset string) : io W (gset string) :=
  match zones with
  | [] => mret tags
  | (zone, hostNames) :: zones =>
      insts ← ComputeInstances_List zone filter;
      tags ← lift (instanceTags insts hostNames tags);
      zoneTags zones filter tags
  end.

Definition computeHostTags (hosts : list gceInstance) : io W (list string) :=
  let '(m, prefix) := hostsByZone hosts ∅ (g_nodeInstancePrefix g) in
  let filter := if bool_decide (prefix = EmptyString) then None else Some (prefix +:+ ".*")%string in
  tags ← zoneTags (range m) filter ∅;
  if bool_decide (tags = ∅) then fail (Errorf "no instances found") else mret (set_List tags).

Definition GetNodeTags (names : list string) : io (tagCache * W) (list string) :=
  s ← ask;
  if bool_decide (nodeTags s.1 ≠ []) then mret (nodeTags s.1)
  else
    let hosts := list_to_set names : gset string in
    if bool_decide (hosts = lastKnownNodeNames s.1) then mret (lastComputedNodeTags s.1)
    else
      instances ← on_snd (getInstancesByNames names);
      tags ← on_snd (computeHostTags instances);
      _ ← put (λ s, (mkTagCache (nodeTags s.1) hosts tags, s.2));
      mret tags.
End hosts.
