(* ===== verification/ComputeCalls.v ===== *)
(** * ComputeCalls: the calls of the load balancers, and their traces

    Every request the load balancer code sends (to the compute API, to the API
    server, to the event recorder) is a constructor of [Call]; the world behind
    them is the class [Compute].  The thin wrappers of [gce_forwardingrule.go],
    [gce_backendservice.go], [gce_healthchecks.go], [gce_firewall.go],
    [gce_instancegroup.go], [gce_targetpool.go] and [gce_zones.go] send one call
    each.  [logged] is a world that also keeps the trace of its calls: what the
    code may send, and in which order, is stated on that trace. *)

From S2P Require Import Prelude Bits GoNet GoNetText GoStrings Json K8s GceInstances IoLogic AddressManager NodeAnnotator LoadBalancer GceHosts.
Local Open Scope Z_scope.

Record TargetPool : Type := mkTP {
  tp_Name : string; tp_Description : string; tp_Instances : list string; tp_SessionAffinity : string; tp_HealthChecks : list string
}.
Record HttpHealthCheck : Type := mkHttpHC {
  hh_Name : string; hh_Port : Z; hh_RequestPath : string; hh_Description : string;
  hh_CheckIntervalSec : Z; hh_TimeoutSec : Z; hh_HealthyThreshold : Z; hh_UnhealthyThreshold : Z; hh_SelfLink : string
}.
#[global] Instance TargetPool_eq_dec : EqDecision TargetPool. Proof. solve_decision. Defined.
#[global] Instance HttpHealthCheck_eq_dec : EqDecision HttpHealthCheck. Proof. solve_decision. Defined.

(** ** Calls

    The arguments are the key of the resource (name, then region or zone) and
    the object.  A filter is a regular expression for the name, or none. *)
Inductive Call : Type → Type :=
| AddressesInsert (name region : string) (a : Address) : Call unit
| AddressesGet (name region : string) : Call Address
| AddressesList (region address : string) : Call (list Address)
| AddressesDelete (name region : string) : Call unit
| ForwardingRulesInsert (name region : string) (r : ForwardingRule) : Call unit
| ForwardingRulesGet (name region : string) : Call ForwardingRule
| ForwardingRulesDelete (name region : string) : Call unit
| BackendServicesInsert (name region : string) (bs : BackendService) : Call unit
| BackendServicesGet (name region : string) : Call BackendService
| BackendServicesUpdate (name region : string) (bs : BackendService) : Call unit
| BackendServicesDelete (name region : string) : Call unit
| HealthChecksInsert (name : string) (hc : HealthCheck) : Call unit
| HealthChecksGet (name : string) : Call HealthCheck
| HealthChecksUpdate (name : string) (hc : HealthCheck) : Call unit
| HealthChecksDelete (name : string) : Call unit
| HttpHealthChecksInsert (name : string) (hc : HttpHealthCheck) : Call unit
| HttpHealthChecksGet (name : string) : Call HttpHealthCheck
| HttpHealthChecksUpdate (name : string) (hc : HttpHealthCheck) : Call unit
| HttpHealthChecksDelete (name : string) : Call unit
| FirewallsInsert (name : string) (fw : Firewall) : Call unit
| FirewallsGet (name : string) : Call Firewall
| FirewallsPatch (name : string) (fw : Firewall) : Call unit
| FirewallsDelete (name : string) : Call unit
| InstanceGroupsInsert (name zone : string) : Call unit
| InstanceGroupsGet (name zone : string) : Call InstanceGroup
| InstanceGroupsList (zone : string) (filter : option string) : Call (list InstanceGroup)
| InstanceGroupsDelete (name zone : string) : Call unit
(** the URLs of the members *)
| InstanceGroupsListInstances (name zone : string) : Call (list string)
| InstanceGroupsAddInstances (name zone : string) (refs : list string) : Call unit
| InstanceGroupsRemoveInstances (name zone : string) (refs : list string) : Call unit
| TargetPoolsInsert (name region : string) (tp : TargetPool) : Call unit
| TargetPoolsGet (name region : string) : Call TargetPool
| TargetPoolsDelete (name region : string) : Call unit
| TargetPoolsAddInstance (name region : string) (refs : list string) : Call unit
| TargetPoolsRemoveInstance (name region : string) (refs : list string) : Call unit
| InstancesList (zone : string) (filter : option string) : Call (list ListedInstance)
(** the names of the zones whose region matches *)
| ZonesList (region : string) : Call (list string)
(** [servicehelper.PatchService]: from the old finalizers to the new ones *)
| ServicesPatchFinalizers (namespace name : string) (old new : list string) : Call unit
(** the condition LoadBalancerPortsError *)
| ServicesApplyPortsError (namespace name : string) : Call unit
| RecordEvent (namespace name : string) (reason message : string) : Call unit
(** the informer's store: nothing, an object of another type, or the data of the config map *)
| ConfigMapsFromStore (key : string) : Call (option (option (gmap string string)))
| ConfigMapsCreate (namespace name : string) (data : gmap string string) : Call unit
(** [rand.Read], as hexadecimal text *)
| RandomUID : Call string.

Class Compute (W : Type) : Type := { exec {A} : Call A → io W A }.
#[global] Arguments exec : simpl never.

(** ** Traces *)
Inductive event : Type :=
| Event (A : Type) (c : Call A) (r : outcome A).
Arguments Event {A} c r.

(** A world that keeps the trace of its calls. *)
Definition logged {W} (C : Compute W) : Compute (W * list event) :=
  {| exec := λ A c wl, let '(r, w') := @exec W C A c wl.1 in (r, (w', wl.2 ++ [Event c r])) |}.

Lemma logged_exec {W A} (C : Compute W) (c : Call A) w l :
  @exec _ (logged C) A c (w, l) = let '(r, w') := exec c w in (r, (w', l ++ [Event c r])).
Proof. reflexivity. Qed.

(** ** Control flow of Go *)
Section control.
Context {W : Type}.

(** A getter: not found is no object. *)
Definition optional {A} (m : io W A) : io W (option A) :=
  r ← try m;
  match r with
  | inr a => mret (Some a)
  | inl err => if isNotFound err then mret None else fail err
  end.

(** An error that is only logged. *)
Definition ignored {A} (m : io W A) : io W unit := _ ← try m; mret tt.

(** A body with local variables that a deferred function reads: it runs when
    the body returns, fails or panics. *)
Definition deferring {L A} (l : L) (body : io (L * W) A) (deferred : L → io W unit) : io W A := λ w,
  let '(r, (l', w1)) := body (l, w) in
  let '(r', w2) := deferred l' w1 in
  (match r' with Panic => Panic | _ => r end, w2).
Definition finally {A} (body : io W A) (deferred : io W unit) : io W A := λ w,
  let '(r, w1) := body w in
  let '(r', w2) := deferred w1 in
  (match r' with Panic => Panic | _ => r end, w2).

(** A method of an object of its own. *)
Definition method {O A} (o : O) (m : io (O * W) A) : io W (A * O) := λ w,
  let '(r, (o', w')) := m (o, w) in ((λ a, (a, o')) <$> r, w').
End control.

(** ** The clients *)
#[global] Instance Compute_addresses {W} `{Compute W} : AddressesAPI W := {
  Addresses_Insert n r a := exec (AddressesInsert n r a);
  Addresses_Get n r := exec (AddressesGet n r);
  Addresses_List r a := exec (AddressesList r a);
  Addresses_Delete n r := exec (AddressesDelete n r)
}.
#[global] Instance Compute_instances {W} `{Compute W} : InstanceLister W := {
  ComputeInstances_List z f := exec (InstancesList z f)
}.

Section clients.
Context {W : Type} `{Compute W}.

Definition GetRegionForwardingRule (name region : string) : io W ForwardingRule := exec (ForwardingRulesGet name region).
Definition CreateRegionForwardingRule (rule : ForwardingRule) (region : string) : io W unit :=
  exec (ForwardingRulesInsert (fr_Name rule) region rule).
Definition DeleteRegionForwardingRule (name region : string) : io W unit := exec (ForwardingRulesDelete name region).
Definition getNetworkTierFromForwardingRule (name region : string) : io W string :=
  fwdRule ← GetRegionForwardingRule name region; mret (fr_NetworkTier fwdRule).

Definition GetRegionBackendService (name region : string) : io W BackendService := exec (BackendServicesGet name region).
Definition UpdateRegionBackendService (bg : BackendService) (region : string) : io W unit :=
  exec (BackendServicesUpdate (bs_Name bg) region bg).
Definition DeleteRegionBackendService (name region : string) : io W unit := exec (BackendServicesDelete name region).
Definition CreateRegionBackendService (bg : BackendService) (region : string) : io W unit :=
  exec (BackendServicesInsert (bs_Name bg) region bg).

Definition GetHealthCheck (name : string) : io W HealthCheck := exec (HealthChecksGet name).
Definition UpdateHealthCheck (hc : HealthCheck) : io W unit := exec (HealthChecksUpdate (hc_Name hc) hc).
Definition DeleteHealthCheck (name : string) : io W unit := exec (HealthChecksDelete name).
Definition CreateHealthCheck (hc : HealthCheck) : io W unit := exec (HealthChecksInsert (hc_Name hc) hc).

Definition GetHTTPHealthCheck (name : string) : io W HttpHealthCheck := exec (HttpHealthChecksGet name).
Definition UpdateHTTPHealthCheck (hc : HttpHealthCheck) : io W unit := exec (HttpHealthChecksUpdate (hh_Name hc) hc).
Definition CreateHTTPHealthCheck (hc : HttpHealthCheck) : io W unit := exec (HttpHealthChecksInsert (hh_Name hc) hc).

Definition GetFirewall (name : string) : io W Firewall := exec (FirewallsGet name).
Definition CreateFirewall (f : Firewall) : io W unit := exec (FirewallsInsert (fw_Name f) f).
Definition DeleteFirewall (name : string) : io W unit := exec (FirewallsDelete name).
Definition PatchFirewall (f : Firewall) : io W unit := exec (FirewallsPatch (fw_Name f) f).

Definition CreateInstanceGroup (name zone : string) : io W unit := exec (InstanceGroupsInsert name zone).
Definition DeleteInstanceGroup (name zone : string) : io W unit := exec (InstanceGroupsDelete name zone).
Definition GetInstanceGroup (name zone : string) : io W InstanceGroup := exec (InstanceGroupsGet name zone).
Definition FilterInstanceGroupsByNamePrefix (namePrefix zone : string) : io W (list InstanceGroup) :=
  exec (InstanceGroupsList zone (Some (namePrefix +:+ ".*")%string)).
Definition ListInstanceGroupsWithPrefix (zone prefix : string) : io W (list InstanceGroup) :=
  exec (InstanceGroupsList zone (if bool_decide (prefix = EmptyString) then None else Some (prefix +:+ ".*")%string)).
Definition ListInstancesInInstanceGroup (name zone : string) : io W (list string) := exec (InstanceGroupsListInstances name zone).
Definition AddInstancesToInstanceGroup (name zone : string) (instanceRefs : list string) : io W unit :=
  if bool_decide (instanceRefs = []) then mret tt else exec (InstanceGroupsAddInstances name zone instanceRefs).
Definition RemoveInstancesFromInstanceGroup (name zone : string) (instanceRefs : list string) : io W unit :=
  if bool_decide (instanceRefs = []) then mret tt else exec (InstanceGroupsRemoveInstances name zone instanceRefs).

Definition GetTargetPool (name region : string) : io W TargetPool := exec (TargetPoolsGet name region).
Definition CreateTargetPool (tp : TargetPool) (region : string) : io W unit := exec (TargetPoolsInsert (tp_Name tp) region tp).
Definition AddInstancesToTargetPool (name region : string) (refs : list string) : io W unit :=
  exec (TargetPoolsAddInstance name region refs).
Definition RemoveInstancesFromTargetPool (name region : string) (refs : list string) : io W unit :=
  exec (TargetPoolsRemoveInstance name region refs).

Definition ListZonesInRegion (region : string) : io W (list string) := exec (ZonesList region).

(** ** Finalizers and events *)
Definition addFinalizer (svc : Service) (key : string) : io W unit :=
  if hasFinalizer svc key then mret tt
  else exec (ServicesPatchFinalizers (svc_Namespace svc) (svc_Name svc) (svc_Finalizers svc) (svc_Finalizers svc ++ [key])).
Definition removeFinalizer (svc : Service) (key : string) : io W unit :=
  if negb (hasFinalizer svc key) then mret tt
  else exec (ServicesPatchFinalizers (svc_Namespace svc) (svc_Name svc) (svc_Finalizers svc) (removeString (svc_Finalizers svc) key)).

(** The event recorder returns nothing. *)
Definition Recorder_Event (svc : Service) (reason message : string) : io W unit :=
  ignored (exec (RecordEvent (svc_Namespace svc) (svc_Name svc) reason message)).
Definition raiseFirewallChangeNeededEvent (svc : Service) (cmd : string) : io W unit :=
  Recorder_Event svc "LoadBalancerManualChange" ("Firewall change required by security admin: `" +:+ cmd +:+ "`")%string.
End clients.

(** ** Commands for the security admin, [gce_util.go] *)

(** [%q] on printable ASCII. *)
Fixpoint quoted_chars (s : string) : string :=
  match s with
  | EmptyString => EmptyString
  | String c s => if (code c =? 34) || (code c =? 92) then String (ch 92) (String c (quoted_chars s)) else String c (quoted_chars s)
  end.
Definition dquote (s : string) : string := (quote +:+ quoted_chars s +:+ quote)%string.

(** The slices are sorted in place; see [sortedTags] of [InternalLb]. *)
Definition firewallToGcloudArgs (fw : Firewall) (projectID : string) : string :=
  let allPorts := a ← fw_Allowed fw; (λ p, (a.1 +:+ ":" +:+ p)%string) <$> a.2 in
  let allow := join_with "," (sort_Strings allPorts) in
  let srcRngs := join_with "," (sort_Strings (fw_SourceRanges fw)) in
  let targets := join_with "," (sort_Strings (fw_TargetTags fw)) in
  ("--description " +:+ dquote (fw_Description fw) +:+ " --allow " +:+ allow +:+ " --source-ranges " +:+ srcRngs +:+
   " --target-tags " +:+ targets +:+ " --project " +:+ projectID)%string.
Definition FirewallToGCloudCreateCmd (fw : Firewall) (projectID : string) : string :=
  ("gcloud compute firewall-rules create " +:+ fw_Name fw +:+ " --network " +:+ getNameFromLink (fw_Network fw) +:+ " " +:+
   firewallToGcloudArgs fw projectID)%string.
Definition FirewallToGCloudUpdateCmd (fw : Firewall) (projectID : string) : string :=
  ("gcloud compute firewall-rules update " +:+ fw_Name fw +:+ " " +:+ firewallToGcloudArgs fw projectID)%string.
Definition FirewallToGCloudDeleteCmd (fwName projectID : string) : string :=
  ("gcloud compute firewall-rules delete " +:+ fwName +:+ " --project " +:+ projectID)%string.
