(* ===== verification/ClusterId.v ===== *)
(** * ClusterId: the cluster's identifier and the metrics of its services

    [gce_clusterid.go]: the identifier is read from the config map ingress-uid,
    which is created when it does not exist, and a watch keeps it current; and
    [gce_loadbalancer_metrics.go]: the state of the internal load balancers and
    the counts exported from it. *)

From S2P Require Import Prelude K8s IoLogic ComputeCalls.
Local Open Scope Z_scope.

(** ** The identifier *)
Definition UIDConfigMapName : string := "ingress-uid".
Definition UIDNamespace : string := "kube-system".
Definition UIDCluster : string := "uid".
Definition UIDProvider : string := "provider-uid".
Definition cfgMapKey : string := (UIDNamespace +:+ "/" +:+ UIDConfigMapName)%string.

(** [ci_ready]: the informer's store exists. *)
Record ClusterID : Type := mkClusterID { ci_ready : bool; ci_providerID : option string; ci_clusterID : option string }.

(** A config map as a handler gets it; any other object is [None]. *)
Record ConfigMap : Type := mkConfigMap { cm_Namespace : string; cm_Name : string; cm_Data : gmap string string }.
#[global] Instance ConfigMap_eq_dec : EqDecision ConfigMap. Proof. solve_decision. Defined.

Definition updateID (data : gmap string string) (ci : ClusterID) : ClusterID :=
  mkClusterID (ci_ready ci)
    (match data !! UIDProvider with Some p => Some p | None => ci_providerID ci end)
    (match data !! UIDCluster with Some c => Some c | None => ci_clusterID ci end).

(** The handlers of [watchClusterID]. *)
Definition isUIDMap (m : ConfigMap) : bool := bool_decide (cm_Namespace m = UIDNamespace) && bool_decide (cm_Name m = UIDConfigMapName).
Definition AddFunc (obj : option ConfigMap) (ci : ClusterID) : ClusterID :=
  match obj with
  | Some m => if isUIDMap m then updateID (cm_Data m) ci else ci
  | None => ci
  end.
Definition UpdateFunc (old cur : option ConfigMap) (ci : ClusterID) : ClusterID :=
  match cur with
  | Some m => if isUIDMap m then (if bool_decide (old = cur) then ci else updateID (cm_Data m) ci) else ci
  | None => ci
  end.

Section cluster_id.
Context {W : Type} `{Compute W}.

Definition getConfigMap : io (ClusterID * W) bool :=
  item ← on_snd (exec (ConfigMapsFromStore cfgMapKey));
  match item with
  | None => mret false
  | Some None => fail (Errorf "Expected v1.ConfigMap, item=%+v, typeIsOk=%v")
  | Some (Some data) => _ ← put (λ s, (updateID data s.1, s.2)); mret true
  end.

Definition newConfig (newID : string) : gmap string string := {[ UIDCluster := newID; UIDProvider := newID ]}.

Definition getOrInitialize : io (ClusterID * W) unit :=
  s ← ask;
  if negb (ci_ready s.1) then fail (Errorf "Cloud.ClusterID is not ready. Call Initialize() before using")
  else match ci_clusterID s.1 with
  | Some _ => mret tt
  | None =>
      exists_ ← getConfigMap;
      if (exists_ : bool) then mret tt
      else
        newID ← on_snd (exec RandomUID);
        _ ← on_snd (exec (ConfigMapsCreate UIDNamespace UIDConfigMapName (newConfig newID)));
        put (λ s, (updateID (newConfig newID) s.1, s.2))
  end.

Definition GetID : io (ClusterID * W) string :=
  _ ← getOrInitialize;
  s ← ask;
  match ci_clusterID s.1, ci_providerID s.1 with
  | None, _ => fail (Errorf "Could not retrieve cluster id")
  | Some _, Some p => mret p
  | Some c, None => mret c
  end.

Definition GetFederationID : io (ClusterID * W) (string * bool) :=
  _ ← getOrInitialize;
  s ← ask;
  match ci_clusterID s.1, ci_providerID s.1 with
  | None, _ => fail (Errorf "could not retrieve cluster id")
  | Some _, None => mret (EmptyString, false)
  | Some c, Some p => if bool_decide (c = p) then mret (EmptyString, false) else mret (c, true)
  end.
End cluster_id.

(** ** Metrics *)
Record L4ILBServiceState : Type := mkL4 { EnabledGlobalAccess : bool; EnabledCustomSubnet : bool; InSuccess : bool }.
Abbreviation l4ILBServiceMap := (gmap string L4ILBServiceState).

Definition SetL4ILBService (svcKey : string) (state : L4ILBServiceState) (m : l4ILBServiceMap) : l4ILBServiceMap := <[ svcKey := state ]> m.
Definition DeleteL4ILBService (svcKey : string) (m : l4ILBServiceMap) : l4ILBServiceMap := delete svcKey m.

Record l4Counts : Type := mkCounts {
  l4ILBService : Z; l4ILBGlobalAccess : Z; l4ILBCustomSubnet : Z; l4ILBInSuccess : Z; l4ILBInError : Z
}.
(** The body of the loop over the services. *)
Definition countService (state : L4ILBServiceState) (n : l4Counts) : l4Counts :=
  if negb (InSuccess state)
  then mkCounts (l4ILBService n + 1) (l4ILBGlobalAccess n) (l4ILBCustomSubnet n) (l4ILBInSuccess n) (l4ILBInError n + 1)
  else mkCounts (l4ILBService n + 1)
         (if EnabledGlobalAccess state then l4ILBGlobalAccess n + 1 else l4ILBGlobalAccess n)
         (if EnabledCustomSubnet state then l4ILBCustomSubnet n + 1 else l4ILBCustomSubnet n)
         (l4ILBInSuccess n + 1) (l4ILBInError n).
Definition computeL4ILBMetrics (m : l4ILBServiceMap) : l4Counts := map_fold (λ _, countService) (mkCounts 0 0 0 0 0) m.
