(* ===== verification/InternalLb.v ===== *)
(** * InternalLb: internal load balancers

    [providers/gce/gce_loadbalancer_internal.go]: an internal load balancer is a
    forwarding rule to a backend service over the instance groups of the
    cluster, with a health check, two firewall rules and, while it is assembled,
    a reserved address.  Instance groups, and the health check of the nodes, are
    shared by the services of the cluster. *)

From S2P Require Import Prelude Bits GoNet GoNetText GoStrings Json NetUtils K8s GceInstances GnpValidations NodeIpamConfig IoLogic AddressManager NodeAnnotator LoadBalancer GceHosts ComputeCalls ClusterId.
Local Open Scope Z_scope.

Definition ILBFinalizerV1 : string := "gke.networking.io/l4-ilb-v1".
Definition ILBFinalizerV2 : string := "gke.networking.io/l4-ilb-v2".
Definition maxInstancesPerInstanceGroup : nat := 1000.
Definition maxL4ILBPorts : nat := 5.

(** ** Constants of [gce.go] and [gce_healthchecks.go] *)
Definition gceHcCheckIntervalSeconds : Z := 8.
Definition gceHcTimeoutSeconds : Z := 1.
Definition gceHcHealthyThreshold : Z := 1.
Definition gceHcUnhealthyThreshold : Z := 3.
Definition GetNodesHealthCheckPath : string := "/healthz".
Definition GetNodesHealthCheckPort : Z := 10256.

Definition translateAffinityType (affinityType : string) : string :=
  if bool_decide (affinityType = "ClientIP"%string) then "CLIENT_IP"%string else "NONE"%string.

Definition gceComputeAPIEndpoint : string := "https://www.googleapis.com/compute/v1/".
Definition gceSubnetworkURL (apiEndpoint project region subnetwork : string) : string :=
  let apiEndpoint := if bool_decide (apiEndpoint = EmptyString) then gceComputeAPIEndpoint else apiEndpoint in
  (apiEndpoint +:+ join_with "/" ["projects"; project; "regions"; region; "subnetworks"; subnetwork])%string.

(** ** State of the provider *)
Record lbState : Type := mkLbState { lb_tags : tagCache; lb_l4 : l4ILBServiceMap; lb_id : ClusterID }.
Definition set_tags (t : tagCache) (s : lbState) : lbState := mkLbState t (lb_l4 s) (lb_id s).
Definition set_l4 (f : l4ILBServiceMap → l4ILBServiceMap) (s : lbState) : lbState := mkLbState (lb_tags s) (f (lb_l4 s)) (lb_id s).
Definition set_id (c : ClusterID) (s : lbState) : lbState := mkLbState (lb_tags s) (lb_l4 s) c.

(** A component of the state. *)
Definition on_tags {W A} (m : io (tagCache * W) A) : io (lbState * W) A := λ s,
  let '(r, (t, w)) := m (lb_tags s.1, s.2) in (r, (set_tags t s.1, w)).
Definition on_id {W A} (m : io (ClusterID * W) A) : io (lbState * W) A := λ s,
  let '(r, (c, w)) := m (lb_id s.1, s.2) in (r, (set_id c s.1, w)).
(** [sort.Strings(fw.TargetTags)], when the tags are those of the configuration. *)
Definition sortedTags {W} : io (lbState * W) unit :=
  put (λ s, (set_tags (mkTagCache (sort_Strings (nodeTags (lb_tags s.1))) (lastKnownNodeNames (lb_tags s.1)) (lastComputedNodeTags (lb_tags s.1))) s.1, s.2)).

(** ** Comparisons *)
Definition firewallRuleEqual (a b : Firewall) : bool :=
  bool_decide (fw_Description a = fw_Description b) &&
  match fw_Allowed a, fw_Allowed b with
  | [(pa, portsa)], [(pb, portsb)] => bool_decide (pa = pb) && equalStringSets portsa portsb
  | _, _ => false
  end &&
  equalStringSets (fw_SourceRanges a) (fw_SourceRanges b) &&
  equalStringSets (fw_DestinationRanges a) (fw_DestinationRanges b) &&
  equalStringSets (fw_TargetTags a) (fw_TargetTags b).

(** The new health check, with the larger of the values. *)
Definition mergeHealthChecks (hc newHC : HealthCheck) : HealthCheck :=
  let larger x y := if y <? x then x else y in
  mkHC (hc_Name newHC) (larger (hc_CheckIntervalSec hc) (hc_CheckIntervalSec newHC)) (larger (hc_TimeoutSec hc) (hc_TimeoutSec newHC))
    (larger (hc_HealthyThreshold hc) (hc_HealthyThreshold newHC)) (larger (hc_UnhealthyThreshold hc) (hc_UnhealthyThreshold newHC))
    (hc_Http newHC) (hc_Type newHC) (hc_Description newHC) (hc_SelfLink newHC).

Definition needToUpdateHealthChecks (hc newHC : HealthCheck) : bool :=
  match hc_Http hc, hc_Http newHC with
  | Some (port, path), Some (port', path') =>
      negb (port =? port') || bool_decide (path ≠ path') || bool_decide (hc_Description hc ≠ hc_Description newHC) ||
      (hc_CheckIntervalSec hc <? hc_CheckIntervalSec newHC) || (hc_TimeoutSec hc <? hc_TimeoutSec newHC) ||
      (hc_UnhealthyThreshold hc <? hc_UnhealthyThreshold newHC) || (hc_HealthyThreshold hc <? hc_HealthyThreshold newHC)
  | _, _ => true
  end.

Definition backendsListEqual (a b : list string) : bool :=
  if negb (length a =? length b)%nat then false
  else if bool_decide (a = []) then true
  else bool_decide ((list_to_set a : gset string) = list_to_set b).

Definition backendSvcEqual (a b : BackendService) : bool :=
  bool_decide (bs_Protocol a = bs_Protocol b) && bool_decide (bs_Description a = bs_Description b) &&
  bool_decide (bs_SessionAffinity a = bs_SessionAffinity b) && bool_decide (bs_LoadBalancingScheme a = bs_LoadBalancingScheme b) &&
  equalStringSets (bs_HealthChecks a) (bs_HealthChecks b) && backendsListEqual (bs_Backends a) (bs_Backends b).

Definition forwardingRulesEqual (old new : ForwardingRule) : bool :=
  (bool_decide (fr_IPAddress old = EmptyString) || bool_decide (fr_IPAddress new = EmptyString) ||
   bool_decide (fr_IPAddress old = fr_IPAddress new)) &&
  bool_decide (fr_IPProtocol old = fr_IPProtocol new) &&
  bool_decide (fr_LoadBalancingScheme old = fr_LoadBalancingScheme new) &&
  equalStringSets (fr_Ports old) (fr_Ports new) &&
  bool_decide (fr_AllPorts old = fr_AllPorts new) &&
  sameResource (fr_BackendService old) (fr_BackendService new) &&
  bool_decide (fr_AllowGlobalAccess old = fr_AllowGlobalAccess new) &&
  bool_decide (fr_Subnetwork old = fr_Subnetwork new).

(** ** Desired objects *)
Definition shareBackendService (svc : Service) : bool :=
  GetLoadBalancerAnnotationBackendShare svc && negb (RequestsOnlyLocalTraffic svc).

Definition newInternalLBHealthCheck (name svcName : string) (shared : bool) (path : string) (port : Z) : HealthCheck :=
  mkHC name gceHcCheckIntervalSeconds gceHcTimeoutSeconds gceHcHealthyThreshold gceHcUnhealthyThreshold (Some (port, path)) "HTTP"
    (if shared then EmptyString else makeHealthCheckDescription svcName) EmptyString.

Definition ilbIPToUse (svc : Service) (fwdRule : option ForwardingRule) (requestedSubnet : string) : string :=
  if bool_decide (svc_LoadBalancerIP svc ≠ EmptyString) then svc_LoadBalancerIP svc
  else match fwdRule with
       | None => EmptyString
       | Some r => if bool_decide (requestedSubnet ≠ fr_Subnetwork r) then EmptyString else fr_IPAddress r
       end.

(** [forwardingRuleDescription.marshal], without a version. *)
Definition fwdRuleDescription (serviceName : string) : string := marshal_struct [("kubernetes.io/service-name", FString serviceName)%string].

(** [sets.NewString(...)] *)
Definition NewString (l : list string) : gset string := list_to_set l.

(** The instances of a full group are cut to the first in alphabetical order. *)
Definition limitNodes (gceNodes : gset string) : gset string :=
  if (maxInstancesPerInstanceGroup <? size gceNodes)%nat then NewString (take maxInstancesPerInstanceGroup (set_List gceNodes)) else gceNodes.

Section internal.
Context {W : Type} `{Compute W} `{MapOrder} `{Sha1}.
Variable g : gceConfig.

Abbreviation M := (io (lbState * W)).

(** [UnsortedList], [StringSlice] *)
Definition unsorted (s : gset string) : list string := (range (gset_to_gmap tt s)).*1.

Definition getBackendServiceLink (name : string) : string :=
  (g_projectsBasePath g +:+ join_with "/" [g_projectID g; "regions"; g_region g; "backendServices"; name])%string.

(** ** Teardown *)
Definition teardownInternalBackendService (bsName : string) : io W unit :=
  r ← try (DeleteRegionBackendService bsName (g_region g));
  match r with
  | inr _ => mret tt
  | inl err =>
      if isNotFound err then mret tt
      else if isInUsedByError err then mret tt
      else fail (Errorf "failed to delete backend service: %v, err: %v")
  end.

(** A firewall that may not be deleted on a cross-project network is reported. *)
Definition deleteFirewallOrRaise (svc : Service) (fwName : string) (wrap : error → error) : io W unit :=
  r ← try (ignoreNotFound (DeleteFirewall fwName));
  match r with
  | inr _ => mret tt
  | inl err =>
      if isForbidden err && g_onXPN g
      then raiseFirewallChangeNeededEvent svc (FirewallToGCloudDeleteCmd fwName (g_networkProjectID g))
      else fail (wrap err)
  end.

Definition teardownInternalHealthCheckAndFirewall (svc : Service) (hcName : string) : io W unit :=
  let deleteHCFirewall := deleteFirewallOrRaise svc (makeHealthCheckFirewallNameFromHC hcName)
                            (λ _, Errorf "failed to delete health check firewall: %v, err: %v") in
  r ← try (DeleteHealthCheck hcName);
  match r with
  | inr _ => deleteHCFirewall
  | inl err =>
      if isNotFound err then deleteHCFirewall
      else if isInUsedByError err then mret tt
      else fail (Errorf "failed to delete health check: %v, err: %v")
  end.

Fixpoint deleteInZones (name : string) (zones : list string) : io W unit :=
  match zones with
  | [] => mret tt
  | z :: zones =>
      r ← try (DeleteInstanceGroup name z);
      match r with
      | inr _ => deleteInZones name zones
      | inl err => if isNotFoundOrInUse err then deleteInZones name zones else fail err
      end
  end.
Definition ensureInternalInstanceGroupsDeleted (name : string) : io W unit :=
  zones ← ListZonesInRegion (g_region g);
  if g_SkipIGsManagement g then mret tt else deleteInZones name zones.

Definition clearPreviousInternalResources (svc : Service) (existing : BackendService) (expectedBSName expectedHCName : string) : io W unit :=
  _ ← (if bool_decide (bs_Name existing ≠ expectedBSName) then ignored (teardownInternalBackendService (bs_Name existing)) else mret tt);
  match bs_HealthChecks existing with
  | [link] =>
      let existingHCName := getNameFromLink link in
      if bool_decide (existingHCName ≠ expectedHCName) then ignored (teardownInternalHealthCheckAndFirewall svc existingHCName) else mret tt
  | _ => mret tt
  end.

(** ** Firewalls *)
Definition raiseOrFail (svc : Service) (cmd : string) (r : error + unit) : M unit :=
  match r with
  | inr _ => mret tt
  | inl err =>
      if isForbidden err && g_onXPN g
      then _ ← sortedTags; on_snd (raiseFirewallChangeNeededEvent svc cmd)
      else fail err
  end.

Definition expectedFirewall (fwName fwDesc destinationIP : string) (sourceRanges portRanges : list string) (protocol : string) (targetTags : list string) : Firewall :=
  mkFW fwName fwDesc (g_networkURL g) sourceRanges (if bool_decide (destinationIP ≠ EmptyString) then [destinationIP] else [])
    targetTags [(to_lower protocol, portRanges)].

(** Create the firewall, or patch one that differs. *)
Definition applyFirewall (svc : Service) (expected : Firewall) (existingFirewall : option Firewall) : M unit :=
  match existingFirewall with
  | None => r ← try (on_snd (CreateFirewall expected)); raiseOrFail svc (FirewallToGCloudCreateCmd expected (g_networkProjectID g)) r
  | Some existing =>
      if firewallRuleEqual expected existing then mret tt
      else r ← try (on_snd (PatchFirewall expected)); raiseOrFail svc (FirewallToGCloudUpdateCmd expected (g_networkProjectID g)) r
  end.

Definition ensureInternalFirewall (svc : Service) (fwName fwDesc destinationIP : string) (sourceRanges portRanges : list string)
    (protocol : string) (nodes : list Node) (legacyFwName : string) : M unit :=
  targetTags ← on_tags (GetNodeTags g (nodeNames nodes));
  existingFirewall ← on_snd (optional (GetFirewall fwName));
  deleteLegacy ← (if bool_decide (legacyFwName = EmptyString) then mret false
                  else legacyFirewall ← on_snd (optional (GetFirewall legacyFwName));
                       mret (bool_decide (is_Some legacyFirewall) && bool_decide (is_Some existingFirewall)));
  let expected := expectedFirewall fwName fwDesc destinationIP sourceRanges portRanges protocol targetTags in
  finally (applyFirewall svc expected existingFirewall)
    (if (deleteLegacy : bool) then on_snd (ignored (DeleteFirewall legacyFwName)) else mret tt).

Definition ensureInternalFirewalls (loadBalancerName ipAddress clusterID nm : string) (svc : Service) (healthCheckPort : string)
    (sharedHealthCheck : bool) (nodes : list Node) : M unit :=
  let fwDesc := makeFirewallDescription nm ipAddress in
  let '(_, portRanges, protocol) := getPortsAndProtocol (svc_Ports svc) in
  sourceRanges ← lift (GetLoadBalancerSourceRanges svc);
  _ ← ensureInternalFirewall svc (MakeFirewallName loadBalancerName) fwDesc ipAddress (unsorted sourceRanges) portRanges protocol nodes loadBalancerName;
  ensureInternalFirewall svc (makeHealthCheckFirewallName loadBalancerName clusterID sharedHealthCheck) EmptyString EmptyString
    (unsorted (g_l4LbSrcRngs g)) [healthCheckPort] ProtocolTCP nodes EmptyString.

(** ** Health checks *)
Definition ensureInternalHealthCheck (name svcName : string) (shared : bool) (path : string) (port : Z) : io W HealthCheck :=
  let expectedHC := newInternalLBHealthCheck name svcName shared path port in
  hc ← optional (GetHealthCheck name);
  match hc with
  | None => _ ← CreateHealthCheck expectedHC; GetHealthCheck name
  | Some hc =>
      if needToUpdateHealthChecks hc expectedHC
      then _ ← UpdateHealthCheck (mergeHealthChecks hc expectedHC); GetHealthCheck name
      else mret hc
  end.

(** ** Instance groups *)
Definition ensureInternalInstanceGroup (name zone : string) (nodes : list string) : io W string :=
  ig ← optional (GetInstanceGroup name zone);
  let gceNodes := limitNodes (NewString nodes) in
  '(ig, igNodes) ← match ig with
    | None => _ ← CreateInstanceGroup name zone; ig ← GetInstanceGroup name zone; mret (ig, ∅)
    | Some ig => instances ← ListInstancesInInstanceGroup name zone; mret (ig, NewString (lastComponent <$> instances))
    end;
  let removeNodes := set_List (igNodes ∖ gceNodes) in
  let addNodes := set_List (gceNodes ∖ igNodes) in
  _ ← (if bool_decide (removeNodes = []) then mret tt
       else ignoreNotFound (RemoveInstancesFromInstanceGroup name zone (ToInstanceReferences g zone removeNodes)));
  _ ← (if bool_decide (addNodes = []) then mret tt
       else AddInstancesToInstanceGroup name zone (ToInstanceReferences g zone addNodes));
  mret (ig_SelfLink ig).

Definition candidateExternalInstanceGroups (zone : string) : io W (list InstanceGroup) :=
  if bool_decide (g_externalInstanceGroupsPrefix g = EmptyString) then mret []
  else ListInstanceGroupsWithPrefix zone (g_externalInstanceGroupsPrefix g).

(** The other groups that hold only nodes of the zone are used as they are. *)
Fixpoint externalGroups (name zone : string) (names : gset string) (igs : list InstanceGroup) (igLinks : list string) (skip : gset string)
  : io W (list string * gset string) :=
  match igs with
  | [] => mret (igLinks, skip)
  | ig :: igs =>
      if EqualFold (ig_Name ig) name then externalGroups name zone names igs igLinks skip
      else
        instances ← ListInstancesInInstanceGroup (ig_Name ig) zone;
        let groupInstances := NewString (lastComponent <$> instances) in
        if bool_decide (groupInstances ⊆ names)
        then externalGroups name zone names igs (igLinks ++ [ig_SelfLink ig]) (skip ∪ groupInstances)
        else externalGroups name zone names igs igLinks skip
  end.

(** The first loop: the links found, and per zone the nodes without a group. *)
Fixpoint groupsOfZones (name : string) (zones : list (string * list Node)) (igLinks : list string) (gceZonedNodes : gmap string (list string))
  : io W (list string * gmap string (list string)) :=
  match zones with
  | [] => mret (igLinks, gceZonedNodes)
  | (zone, zNodes) :: zones =>
      if g_SkipIGsManagement g then
        igs ← FilterInstanceGroupsByNamePrefix name zone;
        (* break *)
        mret (igLinks ++ (ig_SelfLink <$> igs), gceZonedNodes)
      else
        hosts ← getFoundInstanceByNames g (nodeNames zNodes);
        let names := NewString (gi_Name <$> hosts) in
        igs ← candidateExternalInstanceGroups zone;
        '(igLinks, skip) ← externalGroups name zone names igs igLinks ∅;
        let remaining := unsorted (names ∖ skip) in
        groupsOfZones name zones igLinks (if bool_decide (remaining ≠ []) then <[ zone := remaining ]> gceZonedNodes else gceZonedNodes)
  end.

(** The second loop. *)
Fixpoint ensureZoneGroups (name : string) (zones : list (string * list string)) (igLinks : list string) : io W (list string) :=
  match zones with
  | [] => mret igLinks
  | (zone, gceNodes) :: zones =>
      igLink ← ensureInternalInstanceGroup name zone gceNodes;
      ensureZoneGroups name zones (igLinks ++ [igLink])
  end.

Definition ensureInternalInstanceGroups (name : string) (nodes : list Node) : io W (list string) :=
  '(igLinks, gceZonedNodes) ← groupsOfZones name (range (splitNodesByZone nodes)) [] ∅;
  ensureZoneGroups name (range gceZonedNodes) igLinks.

(** ** Backend services *)
Definition set_Fingerprint (f : string) (bs : BackendService) : BackendService :=
  mkBS (bs_Name bs) (bs_Protocol bs) (bs_Description bs) (bs_HealthChecks bs) (bs_Backends bs) (bs_SessionAffinity bs) (bs_LoadBalancingScheme bs) f.
Definition set_Backends (l : list string) (bs : BackendService) : BackendService :=
  mkBS (bs_Name bs) (bs_Protocol bs) (bs_Description bs) (bs_HealthChecks bs) l (bs_SessionAffinity bs) (bs_LoadBalancingScheme bs) (bs_Fingerprint bs).

Definition ensureInternalBackendService (name description affinityType scheme protocol : string) (igLinks : list string) (hcLink : string) : io W unit :=
  bs ← optional (GetRegionBackendService name (g_region g));
  let expectedBS := mkBS name protocol description [hcLink] igLinks (translateAffinityType affinityType) scheme EmptyString in
  match bs with
  | None => CreateRegionBackendService expectedBS (g_region g)
  | Some bs =>
      if backendSvcEqual expectedBS bs then mret tt
      else UpdateRegionBackendService (set_Fingerprint (bs_Fingerprint bs) expectedBS) (g_region g)
  end.

Definition ensureInternalBackendServiceGroups (name : string) (igLinks : list string) : io W unit :=
  bs ← GetRegionBackendService name (g_region g);
  if backendsListEqual (bs_Backends bs) igLinks then mret tt
  else UpdateRegionBackendService (set_Backends igLinks bs) (g_region g).

(** ** Forwarding rules *)
Definition ensureInternalForwardingRule (existingFwdRule : option ForwardingRule) (newFwdRule : ForwardingRule) : io W unit :=
  let create := CreateRegionForwardingRule newFwdRule (g_region g) in
  match existingFwdRule with
  | None => create
  | Some existing =>
      if forwardingRulesEqual existing newFwdRule then mret tt
      else _ ← ignoreNotFound (DeleteRegionForwardingRule (fr_Name existing) (g_region g)); create
  end.

Definition newForwardingRule (svc : Service) (loadBalancerName ipToUse backendServiceLink subnetworkURL : string) (options : ILBOptions) : ForwardingRule :=
  let '(ports, _, protocol) := getPortsAndProtocol (svc_Ports svc) in
  let allPorts := (maxL4ILBPorts <? length ports)%nat in
  mkFwd loadBalancerName (fwdRuleDescription (namespacedName svc)) ipToUse backendServiceLink EmptyString
    (if allPorts then [] else ports) allPorts EmptyString protocol SchemeInternal subnetworkURL (g_networkURL g)
    (AllowGlobalAccess options) EmptyString.

(** ** The load balancer *)

(** What follows the reservation of the address: the new rule and the new state
    of the service. *)
Definition assembleInternal (clusterID : string) (svc : Service) (existingFwdRule : option ForwardingRule) (nodes : list Node)
    (options : ILBOptions) (backendServiceName : string) (igLinks : list string) (existingBackendService : option BackendService)
    (hc : HealthCheck) (hcName : string) (hcPort : Z) (newFwdRule : ForwardingRule) : M (string * L4ILBServiceState) :=
  let loadBalancerName := GetLoadBalancerName svc in
  let nm := namespacedName svc in
  let '(_, _, protocol) := getPortsAndProtocol (svc_Ports svc) in
  let changed := match existingFwdRule with Some r => negb (forwardingRulesEqual r newFwdRule) | None => false end in
  _ ← (if changed then on_snd (ignoreNotFound (DeleteRegionForwardingRule loadBalancerName (g_region g))) else mret tt);
  _ ← on_snd (ensureInternalBackendService backendServiceName (makeBackendServiceDescription nm (shareBackendService svc))
                (svc_SessionAffinity svc) SchemeInternal protocol igLinks (hc_SelfLink hc));
  _ ← (if changed || bool_decide (existingFwdRule = None) then on_snd (ensureInternalForwardingRule None newFwdRule) else mret tt);
  updatedFwdRule ← on_snd (GetRegionForwardingRule loadBalancerName (g_region g));
  _ ← ensureInternalFirewalls loadBalancerName (fr_IPAddress updatedFwdRule) clusterID nm svc (Uitoa hcPort)
        (negb (RequestsOnlyLocalTraffic svc)) nodes;
  _ ← match existingBackendService with
      | Some existing => on_snd (clearPreviousInternalResources svc existing backendServiceName hcName)
      | None => mret tt
      end;
  mret (fr_IPAddress updatedFwdRule,
        mkL4 (AllowGlobalAccess options) (bool_decide (SubnetName options ≠ EmptyString)) true).

(** After the finalizer is attached. *)
Definition ensureInternalResources (clusterID : string) (svc : Service) (existingFwdRule : option ForwardingRule) (nodes : list Node)
  : M (string * L4ILBServiceState) :=
  let loadBalancerName := GetLoadBalancerName svc in
  let nm := namespacedName svc in
  let '(_, _, protocol) := getPortsAndProtocol (svc_Ports svc) in
  if bool_decide (protocol ≠ ProtocolTCP) && bool_decide (protocol ≠ ProtocolUDP)
  then fail (Errorf "Invalid protocol %s, only TCP and UDP are supported")
  else
    options ← (if g_isLegacyNetwork g
               then _ ← on_snd (Recorder_Event svc "ILBOptionsIgnored" "Internal LoadBalancer options are not supported with Legacy Networks.");
                    mret (mkILBOptions false EmptyString)
               else mret (getILBOptions svc));
    let backendServiceName := makeBackendServiceName loadBalancerName clusterID (shareBackendService svc) SchemeInternal protocol (svc_SessionAffinity svc) in
    igLinks ← on_snd (ensureInternalInstanceGroups (makeInstanceGroupName clusterID) nodes);
    existingBackendService ← match existingFwdRule with
      | Some r => if bool_decide (fr_BackendService r = EmptyString) then mret None
                  else on_snd (optional (GetRegionBackendService (getNameFromLink (fr_BackendService r)) (g_region g)))
      | None => mret None
      end;
    let sharedHealthCheck := negb (RequestsOnlyLocalTraffic svc) in
    let hcName := makeHealthCheckName loadBalancerName clusterID sharedHealthCheck in
    let '(hcPath, hcPort) := if sharedHealthCheck then (GetNodesHealthCheckPath, GetNodesHealthCheckPort) else GetServiceHealthCheckPathPort svc in
    hc ← on_snd (ensureInternalHealthCheck hcName nm sharedHealthCheck hcPath hcPort);
    let subnetworkURL := if bool_decide (SubnetName options = EmptyString) then g_subnetworkURL g
                         else gceSubnetworkURL EmptyString (g_networkProjectID g) (g_region g) (SubnetName options) in
    let ipToUse := ilbIPToUse svc existingFwdRule subnetworkURL in
    let assemble ip := assembleInternal clusterID svc existingFwdRule nodes options backendServiceName igLinks existingBackendService hc hcName hcPort
                         (newForwardingRule svc loadBalancerName ip (getBackendServiceLink backendServiceName) subnetworkURL options) in
    if g_isLegacyNetwork g then assemble ipToUse
    else
      let addrMgr := newAddressManager nm (g_region g) subnetworkURL loadBalancerName ipToUse SchemeInternal in
      '(ip, addrMgr) ← on_snd (method addrMgr HoldAddress);
      finally (assemble ip) (on_snd (ignored (method addrMgr ReleaseAddress))).

(** The addresses of the status. *)
Definition ensureInternalLoadBalancer (clusterID : string) (svc : Service) (existingFwdRule : option ForwardingRule) (nodes : list Node)
  : M (list string) :=
  if bool_decide (existingFwdRule = None) && negb (hasFinalizer svc ILBFinalizerV1) && (g_ILBSubsets g || hasFinalizer svc ILBFinalizerV2)
  then fail ImplementedElsewhere
  else
    deferring (mkL4 false false false)
      (_ ← on_snd (on_snd (addFinalizer svc ILBFinalizerV1));
       '(ip, state) ← on_snd (ensureInternalResources clusterID svc existingFwdRule nodes);
       _ ← put (λ s, (state, s.2));
       mret [ip])
      (λ serviceState, put (λ s, (set_l4 (SetL4ILBService (namespacedName svc) serviceState) s.1, s.2))).

Definition updateInternalLoadBalancer (clusterID : string) (svc : Service) (nodes : list Node) : M unit :=
  if g_ILBSubsets g && negb (hasFinalizer svc ILBFinalizerV1) then fail ImplementedElsewhere
  else
    igLinks ← on_snd (ensureInternalInstanceGroups (makeInstanceGroupName clusterID) nodes);
    let '(_, _, protocol) := getPortsAndProtocol (svc_Ports svc) in
    let backendServiceName := makeBackendServiceName (GetLoadBalancerName svc) clusterID (shareBackendService svc) SchemeInternal protocol (svc_SessionAffinity svc) in
    on_snd (ensureInternalBackendServiceGroups backendServiceName igLinks).

Definition ensureInternalLoadBalancerDeleted (clusterID : string) (svc : Service) : M unit :=
  let loadBalancerName := GetLoadBalancerName svc in
  let '(_, _, protocol) := getPortsAndProtocol (svc_Ports svc) in
  let backendServiceName := makeBackendServiceName loadBalancerName clusterID (shareBackendService svc) SchemeInternal protocol (svc_SessionAffinity svc) in
  _ ← on_snd (ignored (ensureAddressDeleted loadBalancerName (g_region g)));
  _ ← on_snd (ignoreNotFound (DeleteRegionForwardingRule loadBalancerName (g_region g)));
  _ ← on_snd (teardownInternalBackendService backendServiceName);
  _ ← on_snd (deleteFirewallOrRaise svc (MakeFirewallName loadBalancerName) id);
  _ ← on_snd (deleteFirewallOrRaise svc loadBalancerName id);
  _ ← on_snd (teardownInternalHealthCheckAndFirewall svc (makeHealthCheckName loadBalancerName clusterID (negb (RequestsOnlyLocalTraffic svc))));
  _ ← (r ← try (on_snd (ensureInternalInstanceGroupsDeleted (makeInstanceGroupName clusterID)));
       match r with
       | inr _ => mret tt
       | inl err => if isInUsedByError err then mret tt else fail err
       end);
  _ ← on_snd (removeFinalizer svc ILBFinalizerV1);
  put (λ s, (set_l4 (DeleteL4ILBService (namespacedName svc)) s.1, s.2)).
End internal.
