(* ===== verification/Goroutines.v ===== *)
(** * Goroutines: programs of calls and their interleavings

    Where the code starts goroutines, what each of them does is a [prog]: the
    calls it sends, each followed by what the answer leads to.  [run] is the
    program in one goroutine; [par] interleaves two, call by call, as a schedule
    decides. *)

From S2P Require Import Prelude K8s IoLogic AddressManager ComputeCalls.

Inductive prog (A : Type) : Type :=
| Done (o : outcome A)
| Send (X : Type) (c : Call X) (k : outcome X → prog A).
Arguments Done {A} o.
Arguments Send {A X} c k.

#[global] Instance prog_ret : MRet prog := λ A a, Done (Ret a).
#[global] Instance prog_bind : MBind prog := λ A B f, fix bind (p : prog A) : prog B :=
  match p with
  | Done (Ret a) => f a
  | Done (Err e) => Done (Err e)
  | Done Panic => Done Panic
  | Send c k => Send c (λ r, bind (k r))
  end.

Definition send {X} (c : Call X) : prog X := Send c Done.
Definition raise {A} (e : error) : prog A := Done (Err e).
Fixpoint attempt {A} (p : prog A) : prog (error + A) :=
  match p with
  | Done (Ret a) => Done (Ret (inr a))
  | Done (Err e) => Done (Ret (inl e))
  | Done Panic => Done Panic
  | Send c k => Send c (λ r, attempt (k r))
  end.
(** [ignoreNotFound(p())] *)
Definition notFoundIgnored (p : prog unit) : prog unit :=
  r ← attempt p;
  match r with
  | inl err => if isNotFound err then mret tt else raise err
  | inr _ => mret tt
  end.

Fixpoint run {W} `{Compute W} {A} (p : prog A) : io W A :=
  match p with
  | Done o => lift o
  | Send c k => λ w, let '(r, w') := exec c w in run (k r) w'
  end.

(** A schedule: true lets the first goroutine send its next call. *)
Definition schedule : Type := nat → bool.

Fixpoint par {A B} (p : prog A) : prog B → schedule → prog (outcome A * outcome B) :=
  match p with
  | Done a => fix rest (q : prog B) (s : schedule) :=
      match q with
      | Done b => Done (Ret (a, b))
      | Send d l => Send d (λ y, rest (l y) s)
      end
  | Send c k => fix rest (q : prog B) (s : schedule) :=
      match q with
      | Done b => Send c (λ x, par (k x) (Done b) s)
      | Send d l =>
          if s 0%nat then Send c (λ x, par (k x) (Send d l) (λ n, s (S n)))
          else Send d (λ y, rest (l y) (λ n, s (S n)))
      end
  end.

(** [utilerrors.AggregateGoroutines] on three functions: nil when all succeed.
    An aggregate is the chain of its errors; the code lists them in the order of
    completion. *)
Definition aggregate (os : list (outcome unit)) : outcome unit :=
  if existsb (λ o, match o with Panic => true | _ => false end) os then Panic
  else match omap (λ o, match o with Err e => Some e | _ => None end) os with
       | [] => Ret tt
       | errs => Err (foldr ErrAppend (Errorf "aggregate") errs)
       end.
Definition AggregateGoroutines (s t : schedule) (p q r : prog unit) : prog unit :=
  os ← par p (par q r t) s;
  Done match os with
       | (o1, Ret (o2, o3)) => aggregate [o1; o2; o3]
       | (o1, _) => Panic
       end.
