(* ===== verification/ExternalLb.v ===== *)
(** * ExternalLb: external load balancers

    [providers/gce/gce_loadbalancer_external.go]: an external load balancer is a
    static address while it is assembled, a firewall rule, a target pool with a
    health check, and a forwarding rule, which comes last.  The resources are
    deleted by three goroutines. *)

From S2P Require Import Prelude Bits GoNet GoNetText GoStrings Json NetUtils K8s GceInstances GnpValidations NodeIpamConfig IoLogic AddressManager NodeAnnotator LoadBalancer GceHosts ComputeCalls ClusterId InternalLb Goroutines.
Local Open Scope Z_scope.

Definition ELBRbsFinalizer : string := "gke.networking.io/l4-netlb-v2".
Definition NetLBFinalizerV2 : string := "gke.networking.io/l4-netlb-v2".
Definition maxTargetPoolCreateInstances : nat := 200.
Definition maxInstancesPerTargetPoolUpdate : nat := 1000.

(** [NetworkTier.ToGCEValue], [NetworkTierGCEValueToType] *)
Definition ToGCEValue (tier : string) : string := to_upper tier.
Definition NetworkTierGCEValueToType (s : string) : string :=
  if bool_decide (s = ToGCEValue NetworkTierStandard) then NetworkTierStandard
  else if bool_decide (s = ToGCEValue NetworkTierPremium) then NetworkTierPremium else s.

Definition rbsAnnotated (svc : Service) : bool := bool_decide (svc_Annotations svc !! RBSAnnotationKey = Some RBSEnabled).
Definition usesL4RBS (svc : Service) (forwardingRule : option ForwardingRule) : bool :=
  rbsAnnotated svc || hasFinalizer svc NetLBFinalizerV2 ||
  match forwardingRule with Some r => bool_decide (fr_BackendService r ≠ EmptyString) | None => false end.

(** ** Ports, hosts and health checks *)
Fixpoint minMaxPort (ports : list ServicePort) (minPort maxPort : Z) : Z * Z :=
  match ports with
  | [] => (minPort, maxPort)
  | p :: ports => minMaxPort ports (if sp_Port p <? minPort then sp_Port p else minPort) (if maxPort <? sp_Port p then sp_Port p else maxPort)
  end.
Definition loadBalancerPortRange (ports : list ServicePort) : outcome string :=
  match ports with
  | [] => Err (Errorf "no ports specified for GCE load balancer")
  | p :: _ =>
      if bool_decide (sp_Protocol p ≠ ProtocolTCP) && bool_decide (sp_Protocol p ≠ ProtocolUDP)
      then Err (Errorf "invalid protocol %s, only TCP and UDP are supported")
      else let '(minPort, maxPort) := minMaxPort ports 65536 0 in Ret (Uitoa minPort +:+ "-" +:+ Uitoa maxPort)%string
  end.

Definition makeComparableHostPath (h : gceInstance) : string := ("/zones/" +:+ gi_Zone h +:+ "/instances/" +:+ gi_Name h)%string.
Definition hostURLToComparablePath (hostURL : string) : string :=
  match after "/zones/" hostURL with Some r => ("/zones/" +:+ r)%string | None => EmptyString end.

Definition makeHTTPHealthCheck (name path : string) (port : Z) : HttpHealthCheck :=
  mkHttpHC name port path (makeHealthCheckDescription name) gceHcCheckIntervalSeconds gceHcTimeoutSeconds gceHcHealthyThreshold gceHcUnhealthyThreshold EmptyString.
Definition mergeHTTPHealthChecks (hc newHC : HttpHealthCheck) : HttpHealthCheck :=
  let larger x y := if y <? x then x else y in
  mkHttpHC (hh_Name newHC) (hh_Port newHC) (hh_RequestPath newHC) (hh_Description newHC)
    (larger (hh_CheckIntervalSec hc) (hh_CheckIntervalSec newHC)) (larger (hh_TimeoutSec hc) (hh_TimeoutSec newHC))
    (larger (hh_HealthyThreshold hc) (hh_HealthyThreshold newHC)) (larger (hh_UnhealthyThreshold hc) (hh_UnhealthyThreshold newHC)) (hh_SelfLink newHC).
Definition needToUpdateHTTPHealthChecks (hc newHC : HttpHealthCheck) : bool :=
  negb (hh_Port hc =? hh_Port newHC) || bool_decide (hh_RequestPath hc ≠ hh_RequestPath newHC) || bool_decide (hh_Description hc ≠ hh_Description newHC) ||
  (hh_CheckIntervalSec hc <? hh_CheckIntervalSec newHC) || (hh_TimeoutSec hc <? hh_TimeoutSec newHC) ||
  (hh_UnhealthyThreshold hc <? hh_UnhealthyThreshold newHC) || (hh_HealthyThreshold hc <? hh_HealthyThreshold newHC).

Definition clusterDescription (clusterID : string) : string := (dq "{'kubernetes.io/cluster-id':'" +:+ clusterID +:+ dq "'}")%string.

(** An error of a step, with the message of the caller. *)
Definition wrapped {W A} (e : error) (m : io W A) : io W A :=
  r ← try m; match r with inr a => mret a | inl _ => fail e end.

Section external.
Context {W : Type} `{Compute W} `{MapOrder} `{Sha1}.
Variable g : gceConfig.

Abbreviation M := (io (lbState * W)).

Definition targetPoolURL (name : string) : string :=
  (g_projectsBasePath g +:+ join_with "/" [g_projectID g; "regions"; g_region g; "targetPools"; name])%string.

Definition ensureHTTPHealthCheck (name path : string) (port : Z) : io W HttpHealthCheck :=
  let newHC := makeHTTPHealthCheck name path port in
  r ← try (GetHTTPHealthCheck name);
  match r with
  | inl _ => _ ← CreateHTTPHealthCheck newHC; GetHTTPHealthCheck name
  | inr hc =>
      if needToUpdateHTTPHealthChecks hc newHC
      then _ ← UpdateHTTPHealthCheck (mergeHTTPHealthChecks hc newHC); GetHTTPHealthCheck name
      else mret hc
  end.

(** ** Does it need an update? *)

(** Exists, needs an update, and its address. *)
Definition forwardingRuleNeedsUpdate (name region loadBalancerIP : string) (ports : list ServicePort) : io W (bool * bool * string) :=
  r ← try (GetRegionForwardingRule name region);
  match r with
  | inl err => if isNotFound err then mret (false, true, EmptyString) else fail (Errorf "error getting load balancer's forwarding rule: %v")
  | inr fwd =>
      if bool_decide (loadBalancerIP ≠ EmptyString) && bool_decide (loadBalancerIP ≠ fr_IPAddress fwd) then mret (true, true, fr_IPAddress fwd)
      else
        portRange ← lift (loadBalancerPortRange ports);
        if bool_decide (portRange ≠ fr_PortRange fwd) then mret (true, true, fr_IPAddress fwd)
        else match ports with
             | [] => lift Panic
             | p :: _ => mret (true, bool_decide (sp_Protocol p ≠ fr_IPProtocol fwd), fr_IPAddress fwd)
             end
  end.

Definition targetPoolNeedsRecreation (name region affinityType : string) : io W (bool * bool) :=
  r ← try (GetTargetPool name region);
  match r with
  | inl err => if isNotFound err then mret (false, true) else fail (Errorf "error getting load balancer's target pool: %v")
  | inr tp =>
      mret (true, bool_decide (tp_SessionAffinity tp ≠ EmptyString) && bool_decide (translateAffinityType affinityType ≠ tp_SessionAffinity tp))
  end.

Definition firewallNeedsUpdate (name serviceName ipAddress : string) (ports : list ServicePort) (sourceRanges : gset string) : io W (bool * bool) :=
  r ← try (GetFirewall (MakeFirewallName name));
  match r with
  | inl err => if isNotFound err then mret (false, true) else fail (Errorf "error getting load balancer's firewall: %v")
  | inr fw =>
      if bool_decide (fw_Description fw ≠ makeFirewallDescription serviceName ipAddress) then mret (true, true)
      else match fw_Allowed fw with
      | [(proto, allowed)] =>
          if bool_decide (proto ≠ "tcp"%string) && bool_decide (proto ≠ "udp"%string) then mret (true, true)
          else
            let '(portNums, portRanges, _) := getPortsAndProtocol ports in
            if negb (equalStringSets portNums allowed) && negb (equalStringSets portRanges allowed) then mret (true, true)
            else match ParseIPNets (fw_SourceRanges fw) ∅ with
            | Ret actual => mret (true, bool_decide (sourceRanges ≠ actual) || bool_decide (fw_DestinationRanges fw ≠ [ipAddress]))
            | Err _ => mret (true, true)
            | Panic => lift Panic
            end
      | _ => mret (true, true)
      end
  end.

(** ** Firewalls *)
Definition firewallObject (name desc destinationIP : string) (sourceRanges : gset string) (ports : list ServicePort) (hosts : list gceInstance) : M Firewall :=
  let '(_, portRanges, _) := getPortsAndProtocol ports in
  s ← ask;
  hostTags ← (if bool_decide (nodeTags (lb_tags s.1) = [])
              then wrapped (Errorf "no node tags supplied and also failed to parse the given lists of hosts for tags. Abort creating firewall rule")
                     (on_snd (computeHostTags g hosts))
              else mret (nodeTags (lb_tags s.1)));
  match ports with
  | [] => lift Panic
  | p :: _ => mret (mkFW name desc (g_networkURL g) (unsorted sourceRanges) (if bool_decide (destinationIP ≠ EmptyString) then [destinationIP] else [])
                      hostTags [(to_lower (sp_Protocol p), portRanges)])
  end.

Definition conflictOk (svc : Service) (cmd : string) (r : error + unit) : M unit :=
  match r with
  | inl err => if isHTTPErrorCode err StatusConflict then mret tt else raiseOrFail g svc cmd r
  | inr _ => mret tt
  end.
Definition createFirewall (svc : Service) (name desc destinationIP : string) (sourceRanges : gset string) (ports : list ServicePort) (hosts : list gceInstance) : M unit :=
  firewall ← firewallObject name desc destinationIP sourceRanges ports hosts;
  r ← try (on_snd (CreateFirewall firewall));
  conflictOk svc (FirewallToGCloudCreateCmd firewall (g_networkProjectID g)) r.
Definition updateFirewall (svc : Service) (name desc destinationIP : string) (sourceRanges : gset string) (ports : list ServicePort) (hosts : list gceInstance) : M unit :=
  firewall ← firewallObject name desc destinationIP sourceRanges ports hosts;
  r ← try (on_snd (PatchFirewall firewall));
  conflictOk svc (FirewallToGCloudUpdateCmd firewall (g_networkProjectID g)) r.

Definition ensureHTTPHealthCheckFirewall (svc : Service) (serviceName ipAddress clusterID : string) (hosts : list gceInstance)
    (hcName : string) (hcPort : Z) (isNodesHealthCheck : bool) : M unit :=
  let desc := if isNodesHealthCheck then clusterDescription clusterID else makeFirewallDescription serviceName ipAddress in
  let sourceRanges := g_l4LbSrcRngs g in
  let ports := [mkPort "tcp" hcPort] in
  let fwName := MakeHealthCheckFirewallName clusterID hcName isNodesHealthCheck in
  r ← try (on_snd (GetFirewall fwName));
  match r with
  | inl err =>
      if negb (isNotFound err) then fail (Errorf "error getting firewall for health checks: %v")
      else createFirewall svc fwName desc ipAddress sourceRanges ports hosts
  | inr fw =>
      if bool_decide (fw_Description fw = desc) &&
         match fw_Allowed fw with
         | [(proto, allowed)] => bool_decide (proto = "tcp"%string) && equalStringSets allowed [Uitoa hcPort]
         | _ => false
         end &&
         equalStringSets (fw_SourceRanges fw) (unsorted sourceRanges)
      then mret tt
      else updateFirewall svc fwName desc ipAddress sourceRanges ports hosts
  end.

(** ** Target pools *)
Fixpoint inChunks (fuel : nat) (f : list string → io W unit) (l : list string) : io W unit :=
  match l, fuel with
  | [], _ | _, O => mret tt
  | _, S fuel => _ ← f (take maxInstancesPerTargetPoolUpdate l); inChunks fuel f (drop maxInstancesPerTargetPoolUpdate l)
  end.

(** The hosts to add, and what is left of the existing ones. *)
Fixpoint hostsToAdd (hosts : list gceInstance) (existing : gset string) : list string * gset string :=
  match hosts with
  | [] => ([], existing)
  | host :: hosts =>
      let link := makeComparableHostPath host in
      let '(toAdd, rest) := hostsToAdd hosts (existing ∖ {[ link ]}) in
      (if bool_decide (link ∈ existing) then toAdd else link :: toAdd, rest)
  end.

Definition updateTargetPool (loadBalancerName : string) (hosts : list gceInstance) : io W unit :=
  pool ← GetTargetPool loadBalancerName (g_region g);
  let existing := NewString (hostURLToComparablePath <$> tp_Instances pool) in
  let '(toAdd, existing) := hostsToAdd hosts existing in
  let toRemove := unsorted existing in
  _ ← inChunks (length toAdd) (AddInstancesToTargetPool loadBalancerName (g_region g)) toAdd;
  _ ← inChunks (length toRemove) (RemoveInstancesFromTargetPool loadBalancerName (g_region g)) toRemove;
  updatedPool ← GetTargetPool loadBalancerName (g_region g);
  if (length (tp_Instances updatedPool) =? length hosts)%nat then mret tt
  else fail (Errorf "unexpected number of instances (%d) in target pool %s after update (expected %d)").

Definition createTargetPoolAndHealthCheck (svc : Service) (name serviceName ipAddress region clusterID : string) (hosts : list gceInstance)
    (hc : option HttpHealthCheck) : M unit :=
  hcLinks ← match hc with
    | None => mret []
    | Some hc =>
        let isNodesHealthCheck := bool_decide (hh_Name hc ≠ name) in
        _ ← ensureHTTPHealthCheckFirewall svc serviceName ipAddress clusterID hosts (hh_Name hc) (hh_Port hc) isNodesHealthCheck;
        hc ← wrapped (Errorf "failed to ensure health check for %v port %d path %v: %v") (on_snd (ensureHTTPHealthCheck (hh_Name hc) (hh_RequestPath hc) (hh_Port hc)));
        mret [hh_SelfLink hc]
    end;
  let pool := mkTP name (serviceDescription serviceName) (makeComparableHostPath <$> hosts) (translateAffinityType (svc_SessionAffinity svc)) hcLinks in
  r ← try (on_snd (CreateTargetPool pool region));
  match r with
  | inl err => if isHTTPErrorCode err StatusConflict then mret tt else fail err
  | inr _ => mret tt
  end.

(** ** Deletion *)
Definition deleteFirewallProg (svc : Service) (fwName : string) : prog unit :=
  r ← attempt (notFoundIgnored (send (FirewallsDelete fwName)));
  match r with
  | inr _ => mret tt
  | inl err =>
      if isForbidden err && g_onXPN g
      then _ ← attempt (send (RecordEvent (svc_Namespace svc) (svc_Name svc) "LoadBalancerManualChange"
                 ("Firewall change required by security admin: `" +:+ FirewallToGCloudDeleteCmd fwName (g_networkProjectID g) +:+ "`")%string));
           mret tt
      else raise err
  end.

Fixpoint deleteChecks (svc : Service) (name clusterID : string) (hcNames : list string) : prog unit :=
  match hcNames with
  | [] => mret tt
  | hcName :: hcNames =>
      let isNodesHealthCheck := bool_decide (hcName ≠ name) in
      let deleteHCFirewall := deleteFirewallProg svc (MakeHealthCheckFirewallName clusterID hcName isNodesHealthCheck) in
      r ← attempt (send (HttpHealthChecksDelete hcName));
      _ ← match r with
          | inr _ => deleteHCFirewall
          | inl err =>
              if isInUsedByError err then mret tt
              else if negb (isNotFound err) then raise err
              else deleteHCFirewall
          end;
      deleteChecks svc name clusterID hcNames
  end.

Definition DeleteExternalTargetPoolAndChecks (svc : Service) (name region clusterID : string) (hcNames : list string) : prog unit :=
  r ← attempt (send (TargetPoolsDelete name region));
  match r with
  | inr _ => deleteChecks svc name clusterID hcNames
  | inl err => if isNotFound err then deleteChecks svc name clusterID hcNames else raise err
  end.

Definition healthChecksToDelete (svc : Service) (clusterID : string) : io W (list string) :=
  let loadBalancerName := GetLoadBalancerName svc in
  let '(path, _) := GetServiceHealthCheckPathPort svc in
  if bool_decide (path ≠ EmptyString)
  then hc ← optional (GetHTTPHealthCheck loadBalancerName);
       mret match hc with Some hc => [hh_Name hc] | None => [] end
  else mret [loadBalancerName; MakeNodesHealthCheckName clusterID].

Definition deletionGoroutines (svc : Service) (clusterID : string) (hcNames : list string) : prog unit * prog unit * prog unit :=
  let loadBalancerName := GetLoadBalancerName svc in
  (deleteFirewallProg svc (MakeFirewallName loadBalancerName),
   notFoundIgnored (send (AddressesDelete loadBalancerName (g_region g))),
   _ ← notFoundIgnored (send (ForwardingRulesDelete loadBalancerName (g_region g)));
   DeleteExternalTargetPoolAndChecks svc loadBalancerName (g_region g) clusterID hcNames).

Definition ensureExternalLoadBalancerDeleted (s t : schedule) (clusterID : string) (svc : Service) : io W unit :=
  if usesL4RBS svc None then fail ImplementedElsewhere
  else
    hcNames ← healthChecksToDelete svc clusterID;
    let '(p, q, r) := deletionGoroutines svc clusterID hcNames in
    run (AggregateGoroutines s t p q r).

(** ** Addresses *)

(** Whether the user owns the requested address. *)
Definition verifyUserRequestedIP (region requestedIP fwdRuleIP desiredNetTier : string) : io W bool :=
  if bool_decide (requestedIP = EmptyString) then mret false
  else
    r ← try (GetRegionAddressByIP region requestedIP);
    match r with
    | inl err =>
        if negb (isNotFound err) then fail err
        else if bool_decide (requestedIP = fwdRuleIP) then mret false
        else fail (Errorf "requested ip %q is neither static nor assigned to the LB")
    | inr existingAddress =>
        netTierStr ← wrapped (Errorf "failed to check the network tier of the IP %q: %v") (getNetworkTierFromAddress (addr_Name existingAddress) region);
        if bool_decide (NetworkTierGCEValueToType netTierStr ≠ desiredNetTier)
        then fail (Errorf "requested IP %q belongs to the %s network tier; expected %s")
        else mret true
    end.

(** The address, and whether it existed before. *)
Definition ensureStaticIP (name serviceName region existingIP netTier : string) : io W (string * bool) :=
  let addressObj := mkAddress name (makeServiceDescription serviceName) existingIP EmptyString EmptyString (ToGCEValue netTier) in
  r ← try (ReserveRegionAddress addressObj region);
  existed ← match r with
    | inr _ => mret false
    | inl err => if negb (isHTTPErrorCode err StatusConflict) && negb (isHTTPErrorCode err StatusBadRequest)
                 then fail (Errorf "error creating gce static IP address: %v") else mret true
    end;
  addr ← wrapped (Errorf "error getting static IP address: %v")
           (if bool_decide (existingIP ≠ EmptyString) then GetRegionAddressByIP region existingIP else GetRegionAddress name region);
  mret (addr_Address addr, existed).

Definition deleteFWDRuleWithWrongTier (region name desiredNetTier : string) : io W unit :=
  tierStr ← optional (getNetworkTierFromForwardingRule name region);
  match tierStr with
  | None => mret tt
  | Some tierStr =>
      if bool_decide (NetworkTierGCEValueToType tierStr = desiredNetTier) then mret tt
      else ignoreNotFound (DeleteRegionForwardingRule name region)
  end.
Definition deleteAddressWithWrongTier (region name desiredNetTier : string) : io W unit :=
  tierStr ← optional (getNetworkTierFromAddress name region);
  match tierStr with
  | None => mret tt
  | Some tierStr =>
      if bool_decide (NetworkTierGCEValueToType tierStr = desiredNetTier) then mret tt
      else ignoreNotFound (DeleteRegionAddress name region)
  end.
Definition deleteWrongNetworkTieredResources (lbName desiredNetTier : string) : io W unit :=
  _ ← deleteFWDRuleWithWrongTier (g_region g) lbName desiredNetTier;
  deleteAddressWithWrongTier (g_region g) lbName desiredNetTier.

(** ** Creation *)
Definition createForwardingRule (name serviceName region ipAddress target : string) (ports : list ServicePort) (netTier : string) : io W unit :=
  portRange ← lift (loadBalancerPortRange ports);
  ipProtocol ← lift match ports with p :: _ => Ret (sp_Protocol p) | [] => Panic end;
  let rule := mkFwd name (makeServiceDescription serviceName) ipAddress EmptyString target [] false portRange ipProtocol EmptyString EmptyString EmptyString false (ToGCEValue netTier) in
  r ← try (CreateRegionForwardingRule rule region);
  match r with
  | inl err => if isHTTPErrorCode err StatusConflict then mret tt else fail err
  | inr _ => mret tt
  end.

Definition ensureTargetPoolAndHealthCheck (tpExists tpNeedsRecreation : bool) (svc : Service) (loadBalancerName clusterID ipAddressToUse : string)
    (hosts : list gceInstance) (hcToCreate hcToDelete : option HttpHealthCheck) : M unit :=
  _ ← (if tpExists && tpNeedsRecreation
       then wrapped (Errorf "failed to delete existing target pool for load balancer (%s) update: %v")
              (on_snd (run (DeleteExternalTargetPoolAndChecks svc loadBalancerName (g_region g) clusterID
                              match hcToDelete with Some hc => [hh_Name hc] | None => [] end)))
       else mret tt);
  if tpNeedsRecreation then
    let createInstances := take maxTargetPoolCreateInstances hosts in
    _ ← wrapped (Errorf "failed to create target pool for load balancer (%s): %v")
          (createTargetPoolAndHealthCheck svc loadBalancerName (namespacedName svc) ipAddressToUse (g_region g) clusterID createInstances hcToCreate);
    if (length hosts <=? maxTargetPoolCreateInstances)%nat then mret tt
    else wrapped (Errorf "failed to update target pool for load balancer (%s): %v") (on_snd (updateTargetPool loadBalancerName hosts))
  else if tpExists then
    _ ← wrapped (Errorf "failed to update target pool for load balancer (%s): %v") (on_snd (updateTargetPool loadBalancerName hosts));
    match hcToCreate with
    | None => mret tt
    | Some hc =>
        _ ← wrapped (Errorf "failed to ensure health check for %v port %d path %v: %v") (on_snd (ensureHTTPHealthCheck (hh_Name hc) (hh_RequestPath hc) (hh_Port hc)));
        mret tt
    end
  else mret tt.

(** The local flags that the deferred function reads. *)
Record ipFlags : Type := mkFlags { isUserOwnedIP : bool; isSafeToReleaseIP : bool }.
Definition setSafe (b : bool) : io (ipFlags * (lbState * W)) unit := put (λ s, (mkFlags (isUserOwnedIP s.1) b, s.2)).

(** Health checks: the one to create, the one to delete, and whether the pool
    changes for it. *)
Definition planHealthChecks (svc : Service) (clusterID : string) (hcLocalTrafficExisting : option HttpHealthCheck)
  : HttpHealthCheck * option HttpHealthCheck * bool :=
  let loadBalancerName := GetLoadBalancerName svc in
  let nodesCheck := makeHTTPHealthCheck (MakeNodesHealthCheckName clusterID) GetNodesHealthCheckPath GetNodesHealthCheckPort in
  let '(path, healthCheckNodePort) := GetServiceHealthCheckPathPort svc in
  if bool_decide (path ≠ EmptyString) then
    (makeHTTPHealthCheck loadBalancerName path healthCheckNodePort,
     match hcLocalTrafficExisting with None => Some nodesCheck | Some _ => None end, bool_decide (hcLocalTrafficExisting = None))
  else (nodesCheck, hcLocalTrafficExisting, bool_decide (hcLocalTrafficExisting ≠ None)).

(** The body under the deferred release of the address. *)
Definition ensureExternalResources (clusterID : string) (svc : Service) (hosts : list gceInstance) (netTier : string)
    (fwdRuleExists fwdRuleNeedsUpdate : bool) (fwdRuleIP : string) : io (ipFlags * (lbState * W)) (list string) :=
  let loadBalancerName := GetLoadBalancerName svc in
  let serviceName := namespacedName svc in
  let requestedIP := svc_LoadBalancerIP svc in
  let ports := svc_Ports svc in
  _ ← (if bool_decide (requestedIP ≠ EmptyString)
       then owned ← on_snd (on_snd (verifyUserRequestedIP (g_region g) requestedIP fwdRuleIP netTier));
            put (λ s, (mkFlags owned (isSafeToReleaseIP s.1), s.2))
       else mret tt);
  fl ← ask;
  ipAddressToUse ← (if isUserOwnedIP fl.1 then mret requestedIP
                    else '(ipAddr, existed) ← wrapped (Errorf "failed to ensure a static IP for load balancer (%s): %v")
                                                (on_snd (on_snd (ensureStaticIP loadBalancerName serviceName (g_region g) fwdRuleIP netTier)));
                         _ ← setSafe (negb existed);
                         mret ipAddr);
  sourceRanges ← lift (GetLoadBalancerSourceRanges svc);
  '(firewallExists, firewallNeedsUpdate) ← on_snd (on_snd (firewallNeedsUpdate loadBalancerName serviceName ipAddressToUse ports sourceRanges));
  _ ← (if (firewallNeedsUpdate : bool) then
         on_snd ((if (firewallExists : bool) then updateFirewall else createFirewall) svc (MakeFirewallName loadBalancerName)
                   (makeFirewallDescription serviceName ipAddressToUse) ipAddressToUse sourceRanges ports hosts)
       else mret tt);
  '(tpExists, tpNeedsRecreation) ← on_snd (on_snd (targetPoolNeedsRecreation loadBalancerName (g_region g) (svc_SessionAffinity svc)));
  hcLocalTrafficExisting ← wrapped (Errorf "error checking HTTP health check for load balancer (%s): %v") (on_snd (on_snd (optional (GetHTTPHealthCheck loadBalancerName))));
  let '(hcToCreate, hcToDelete, hcChanges) := planHealthChecks svc clusterID hcLocalTrafficExisting in
  let tpNeedsRecreation := tpNeedsRecreation || hcChanges in
  _ ← (if fwdRuleExists && (fwdRuleNeedsUpdate || tpNeedsRecreation)
       then _ ← setSafe false;
            wrapped (Errorf "failed to delete existing forwarding rule for load balancer (%s) update: %v")
              (on_snd (on_snd (ignoreNotFound (DeleteRegionForwardingRule loadBalancerName (g_region g)))))
       else mret tt);
  _ ← on_snd (ensureTargetPoolAndHealthCheck tpExists tpNeedsRecreation svc loadBalancerName clusterID ipAddressToUse hosts (Some hcToCreate) hcToDelete);
  _ ← (if tpNeedsRecreation || fwdRuleNeedsUpdate
       then _ ← wrapped (Errorf "failed to create forwarding rule for load balancer (%s): %v")
                  (on_snd (on_snd (createForwardingRule loadBalancerName serviceName (g_region g) ipAddressToUse (targetPoolURL loadBalancerName) ports netTier)));
            setSafe true
       else mret tt);
  mret [ipAddressToUse].

(** The deferred function. *)
Definition releaseIP (loadBalancerName : string) (fl : ipFlags) : M unit :=
  if isUserOwnedIP fl then mret tt
  else if isSafeToReleaseIP fl then on_snd (ignored (DeleteRegionAddress loadBalancerName (g_region g)))
  else mret tt.

Definition errStrLbNoHosts : string := "cannot EnsureLoadBalancer() with no hosts".
Definition ensureExternalLoadBalancer (clusterID : string) (svc : Service) (existingFwdRule : option ForwardingRule) (nodes : list Node) : M (list string) :=
  if rbsAnnotated svc || hasFinalizer svc ELBRbsFinalizer ||
     match existingFwdRule with Some r => bool_decide (fr_BackendService r ≠ EmptyString) | None => false end
  then fail ImplementedElsewhere
  else if bool_decide (nodes = []) then fail (Errorf errStrLbNoHosts)
  else
    hosts ← on_snd (getInstancesByNames g (nodeNames nodes));
    let loadBalancerName := GetLoadBalancerName svc in
    netTier ← (match GetServiceNetworkTier svc with (_, Some err) => fail err | (tier, None) => mret tier end);
    _ ← (if bool_decide (is_Some (svc_Annotations svc !! NetworkTierAnnotationKey))
         then on_snd (ignored (deleteWrongNetworkTieredResources loadBalancerName netTier)) else mret tt);
    '(fwdRuleExists, fwdRuleNeedsUpdate, fwdRuleIP) ← on_snd (forwardingRuleNeedsUpdate loadBalancerName (g_region g) (svc_LoadBalancerIP svc) (svc_Ports svc));
    deferring (mkFlags false false)
      (ensureExternalResources clusterID svc hosts netTier fwdRuleExists fwdRuleNeedsUpdate fwdRuleIP)
      (releaseIP loadBalancerName).

Definition updateExternalLoadBalancer (svc : Service) (nodes : list Node) : io W unit :=
  if usesL4RBS svc None then fail ImplementedElsewhere
  else hosts ← getInstancesByNames g (nodeNames nodes); updateTargetPool (GetLoadBalancerName svc) hosts.
End external.
