(* ===== verification/LbDispatch.v ===== *)
(** * LbDispatch: the load balancer interface of the provider

    [providers/gce/gce_loadbalancer.go]: the flags with the source ranges of the
    health checkers, and the operations the service controller calls, which
    choose between an internal and an external load balancer and move a service
    from one to the other. *)

From S2P Require Import Prelude Bits GoNet GoNetText GoStrings NetUtils K8s GnpValidations NodeIpamConfig IoLogic AddressManager NodeAnnotator LoadBalancer GceHosts ComputeCalls ClusterId InternalLb Goroutines ExternalLb.
Local Open Scope Z_scope.

(** ** Source ranges *)
Record cidrs : Type := mkCidrs { cidrs_ipn : gset string; cidrs_isSet : bool }.

Definition l4LbSrcRngsDefault : outcome (gset string) := ParseIPNets ["130.211.0.0/22"; "35.191.0.0/16"; "209.85.152.0/22"; "209.85.204.0/22"]%string ∅.
Definition l7lbSrcRngsDefault : outcome (gset string) := ParseIPNets ["130.211.0.0/22"; "35.191.0.0/16"]%string ∅.

Definition cidrs_String (c : cidrs) : string := join_with "," (sort_Strings (elements (cidrs_ipn c))).

(** The loop of [Set]: what was parsed before an error stays. *)
Fixpoint insertCIDRs (values : list string) (c : cidrs) : outcome unit * cidrs :=
  match values with
  | [] => (Ret tt, c)
  | cidr :: values =>
      match ParseCIDRSloppy cidr with
      | Ret ipnet => insertCIDRs values (mkCidrs ({[ IPNet_String ipnet ]} ∪ cidrs_ipn c) (cidrs_isSet c))
      | Err e => (Err e, c)
      | Panic => (Panic, c)
      end
  end.
Definition cidrs_Set (value : string) (c : cidrs) : outcome unit * cidrs :=
  if cidrs_isSet c then (Err (Errorf "GCE LB CIDRs have already been set"), c)
  else insertCIDRs (split_on comma value) (mkCidrs ∅ true).

Section dispatch.
Context {W : Type} `{Compute W} `{MapOrder} `{Sha1}.
Variable g : gceConfig.

Abbreviation M := (io (lbState * W)).

(** The status, if there is one, and whether the load balancer exists. *)
Definition GetLoadBalancer (svc : Service) : io W (option (list string) * bool) :=
  r ← try (GetRegionForwardingRule (GetLoadBalancerName svc) (g_region g));
  match r with
  | inr fwd => mret (Some [fr_IPAddress fwd], true)
  | inl err =>
      if hasFinalizer svc ILBFinalizerV1 then mret (Some [], true)
      else if isNotFound err then mret (None, false) else fail err
  end.

(** The event and the condition for a service with several protocols. *)
Definition reportMixedProtocol (svc : Service) (message : string) : M unit :=
  _ ← on_snd (Recorder_Event svc "LoadBalancerMixedProtocolNotSupported" message);
  on_snd (exec (ServicesApplyPortsError (svc_Namespace svc) (svc_Name svc))).

(** The schedules are those of the goroutines that delete an external load
    balancer. *)
Definition EnsureLoadBalancer (s t : schedule) (svc : Service) (nodes : list Node) : M (list string) :=
  if bool_decide (is_Some (svc_LoadBalancerClass svc)) then fail ImplementedElsewhere
  else
    let loadBalancerName := GetLoadBalancerName svc in
    let desiredScheme := getSvcScheme svc in
    clusterID ← on_id GetID;
    match checkMixedProtocol (svc_Ports svc) with
    | Some err =>
        if hasLoadBalancerPortsError svc then fail err
        else _ ← reportMixedProtocol svc "LoadBalancers with multiple protocols are not supported."; fail err
    | None =>
        existingFwdRule ← on_snd (optional (GetRegionForwardingRule loadBalancerName (g_region g)));
        existingFwdRule ← match existingFwdRule with
          | None => mret None
          | Some r =>
              let existingScheme := to_upper (fr_LoadBalancingScheme r) in
              if bool_decide (existingScheme = desiredScheme) then mret (Some r)
              else _ ← (if bool_decide (existingScheme = SchemeInternal) then ensureInternalLoadBalancerDeleted g clusterID svc
                        else on_snd (ensureExternalLoadBalancerDeleted g s t clusterID svc));
                   mret None
          end;
        if bool_decide (desiredScheme = SchemeInternal) then ensureInternalLoadBalancer g clusterID svc existingFwdRule nodes
        else ensureExternalLoadBalancer g clusterID svc existingFwdRule nodes
    end.

Definition UpdateLoadBalancer (svc : Service) (nodes : list Node) : M unit :=
  if bool_decide (is_Some (svc_LoadBalancerClass svc)) then fail ImplementedElsewhere
  else
    let scheme := getSvcScheme svc in
    clusterID ← on_id GetID;
    _ ← (if bool_decide (is_Some (checkMixedProtocol (svc_Ports svc))) && negb (hasLoadBalancerPortsError svc)
         then reportMixedProtocol svc "LoadBalancer with multiple protocols are not supported." else mret tt);
    if bool_decide (scheme = SchemeInternal) then updateInternalLoadBalancer g clusterID svc nodes
    else on_snd (updateExternalLoadBalancer g svc nodes).

Definition EnsureLoadBalancerDeleted (s t : schedule) (svc : Service) : M unit :=
  let scheme := getSvcScheme svc in
  clusterID ← on_id GetID;
  if bool_decide (scheme = SchemeInternal) then ensureInternalLoadBalancerDeleted g clusterID svc
  else on_snd (ensureExternalLoadBalancerDeleted g s t clusterID svc).
End dispatch.
