(* ===== verification/LbLogic.v ===== *)
(** * LbLogic: reasoning on traces of calls

    [emits m P]: a run of [m] appends calls to the trace that, with the result,
    satisfy [P].  The rules follow the combinators of the code; [emit_step]
    applies them, with the lemmas of the database [trace] for the operations. *)

From S2P Require Import Prelude K8s IoLogic AddressManager LoadBalancer GceHosts ComputeCalls ClusterId InternalLb Goroutines ExternalLb.

Create HintDb trace.

(** The calls of a trace lead from one world to the other. *)
Inductive replay {W} (C : Compute W) : W → list event → W → Prop :=
| replay_nil w : replay C w [] w
| replay_cons w A (c : Call A) r w1 l w2 : exec c w = (r, w1) → replay C w1 l w2 → replay C w (Event c r :: l) w2.

Lemma replay_app {W} (C : Compute W) w l1 w1 l2 w2 : replay C w l1 w1 → replay C w1 l2 w2 → replay C w (l1 ++ l2) w2.
Proof. induction 1; [done|]. intros. econstructor; eauto. Qed.
Lemma replay_app_inv {W} (C : Compute W) w l1 l2 w2 : replay C w (l1 ++ l2) w2 → ∃ w1, replay C w l1 w1 ∧ replay C w1 l2 w2.
Proof.
  revert w. induction l1 as [|e l1 IH]; intros w Hr; [exists w; split; [constructor|done]|].
  inversion Hr as [|? A c r w1 l' ? He Hl]; subst. destruct (IH _ Hl) as (w' & ? & ?). exists w'. split; [by econstructor|done].
Qed.
(** An invariant of the calls is one of the trace. *)
Lemma replay_keeps {W} (C : Compute W) (φ : event → Prop) (I : W → Prop) w l w' :
  (∀ A (c : Call A) w r w', φ (Event c r) → exec c w = (r, w') → I w → I w') → replay C w l w' → Forall φ l → I w → I w'.
Proof. intros Hc Hr. induction Hr as [|w A c r w1 l w2 He Hr IH]; [done|]. intros [Hφ Hl]%Forall_cons Hi. eauto. Qed.

(** The trace and the world within a state. *)
Class HasLog (W St : Type) : Type := { logOf : St → list event; worldOf : St → W }.
#[global] Instance log_world W : HasLog W (W * list event) | 5 := {| logOf s := s.2; worldOf s := s.1 |}.
#[global] Instance log_state S W St `{HasLog W St} : HasLog W (S * St) | 0 := {| logOf s := logOf s.2; worldOf s := worldOf s.2 |}.

Definition emits {W St A} (C : Compute W) `{HasLog W St} (m : io St A) (P : outcome A → list event → Prop) : Prop :=
  ∀ s, ∃ l, logOf (m s).2 = logOf s ++ l ∧ replay C (worldOf s) l (worldOf (m s).2) ∧ P (m s).1 l.

Section rules.
Context {W : Type} {C : Compute W} {St : Type} `{HasLog W St}.
#[local] Abbreviation emits := (emits C).

Lemma emits_run {A} (m : io St A) P s r s' :
  emits m P → m s = (r, s') → ∃ l, logOf s' = logOf s ++ l ∧ replay C (worldOf s) l (worldOf s') ∧ P r l.
Proof. intros Hm E. specialize (Hm s). by rewrite E in Hm. Qed.

Lemma emits_weaken {A} (m : io St A) (P Q : outcome A → list event → Prop) : emits m P → (∀ r l, P r l → Q r l) → emits m Q.
Proof. intros Hm HPQ s. destruct (Hm s) as (l & E & R & HP). eauto. Qed.
Lemma emits_and {A} (m : io St A) P Q : emits m P → emits m Q → emits m (λ r l, P r l ∧ Q r l).
Proof.
  intros H1 H2 s. destruct (H1 s) as (l1 & E1 & R1 & HP), (H2 s) as (l2 & E2 & R2 & HQ).
  exists l1. rewrite E1 in E2. apply app_inv_head in E2 as ->. done.
Qed.

Lemma emits_silent {A} (m : io St A) (P : outcome A → list event → Prop) :
  (∀ s, (logOf (m s).2 = logOf s ∧ worldOf (m s).2 = worldOf s) ∧ P (m s).1 []) → emits m P.
Proof. intros Hm s. destruct (Hm s) as [[E1 E2] HP]. exists []. rewrite E1, E2, app_nil_r. split; [done|]. split; [constructor|done]. Qed.
Lemma emits_ret {A} (a : A) P : P (Ret a) [] → emits (mret a : io St A) P.
Proof. intros HP. apply emits_silent. intros s. split; [split; reflexivity|exact HP]. Qed.
Lemma emits_fail {A} e P : P (Err e) [] → emits (fail e : io St A) P.
Proof. intros HP. apply emits_silent. intros s. split; [split; reflexivity|exact HP]. Qed.
Lemma emits_lift {A} (o : outcome A) P : P o [] → emits (lift o : io St A) P.
Proof. intros HP. apply emits_silent. intros s. split; [split; reflexivity|exact HP]. Qed.
Lemma emits_ask P : (∀ s, P (Ret s) []) → emits (ask : io St St) P.
Proof. intros HP. apply emits_silent. intros s. split; [split; reflexivity|exact (HP s)]. Qed.
Lemma emits_put f P : (∀ s, logOf (f s) = logOf s ∧ worldOf (f s) = worldOf s) → P (Ret tt) [] → emits (put f : io St unit) P.
Proof. intros Hf HP. apply emits_silent. intros s. split; [apply Hf|exact HP]. Qed.

Lemma emits_bind {A B} (m : io St A) (f : A → io St B) P Q (R : outcome B → list event → Prop) :
  emits m P → (∀ a, emits (f a) (Q a)) →
  (∀ a r l1 l2, P (Ret a) l1 → Q a r l2 → R r (l1 ++ l2)) →
  (∀ e l, P (Err e) l → R (Err e) l) → (∀ l, P Panic l → R Panic l) →
  emits (m ≫= f) R.
Proof.
  intros Hm Hf HR HE HP s. rewrite io_bind_eq. destruct (Hm s) as (l1 & E1 & R1 & HP1).
  destruct (m s) as [[a|e|] s1]; cbn [fst snd] in *; [|eauto 6..].
  destruct (Hf a s1) as (l2 & E2 & R2 & HQ). exists (l1 ++ l2). rewrite E2, E1, app_assoc. split; [done|]. split; [by eapply replay_app|eauto].
Qed.
Lemma emits_ret_bind {A B} (a : A) (f : A → io St B) P : emits (f a) P → emits (mret a ≫= f) P.
Proof. intros Hm s. exact (Hm s). Qed.
Lemma emits_try {A} (m : io St A) P (R : outcome (error + A) → list event → Prop) :
  emits m P → (∀ a l, P (Ret a) l → R (Ret (inr a)) l) → (∀ e l, P (Err e) l → R (Ret (inl e)) l) → (∀ l, P Panic l → R Panic l) →
  emits (try m) R.
Proof.
  intros Hm H1 H2 H3 s. unfold try. destruct (Hm s) as (l1 & E1 & R1 & HP1).
  destruct (m s) as [[a|e|] s1]; cbn [fst snd] in *; eauto 6.
Qed.
Lemma emits_finally {A} (m : io St A) d P Q (R : outcome A → list event → Prop) :
  emits m P → emits d Q → (∀ r r' l1 l2, P r l1 → Q r' l2 → R (match r' with Panic => Panic | _ => r end) (l1 ++ l2)) →
  emits (finally m d) R.
Proof.
  intros Hm Hd HR s. unfold finally. destruct (Hm s) as (l1 & E1 & R1 & HP1). destruct (m s) as [r s1].
  destruct (Hd s1) as (l2 & E2 & R2 & HQ). destruct (d s1) as [r' s2]. cbn [fst snd] in *.
  exists (l1 ++ l2). rewrite E2, E1, app_assoc. split; [done|]. split; [by eapply replay_app|auto].
Qed.
Lemma emits_deferring {L A} (l : L) (m : io (L * St) A) d P Q (R : outcome A → list event → Prop) :
  emits m P → (∀ l, emits (d l) (Q l)) → (∀ l r r' l1 l2, P r l1 → Q l r' l2 → R (match r' with Panic => Panic | _ => r end) (l1 ++ l2)) →
  emits (deferring l m d) R.
Proof.
  intros Hm Hd HR s. unfold deferring. destruct (Hm (l, s)) as (l1 & E1 & R1 & HP1). destruct (m (l, s)) as [r [l' s1]].
  destruct (Hd l' s1) as (l2 & E2 & R2 & HQ). destruct (d l' s1) as [r' s2]. cbn [fst snd] in *.
  exists (l1 ++ l2). cbn in E1, R1. rewrite E2, E1, app_assoc. split; [done|]. split; [by eapply replay_app|eauto].
Qed.
Lemma emits_method {O A} (o : O) (m : io (O * St) A) P (R : outcome (A * O) → list event → Prop) :
  emits m P → (∀ o' r l, P r l → R ((λ a, (a, o')) <$> r) l) → emits (method o m) R.
Proof.
  intros Hm HR s. unfold method. destruct (Hm (o, s)) as (l1 & E1 & R1 & HP1). destruct (m (o, s)) as [r [o' s1]]. exists l1. split; [exact E1|]. split; [exact R1|exact (HR _ _ _ HP1)].
Qed.
Lemma emits_on_snd {S A} (m : io St A) P : emits m P → emits (on_snd m : io (S * St) A) P.
Proof. intros Hm [s w]. unfold on_snd. destruct (Hm w) as (l & Hl). cbn [snd fst]. destruct (m w). exists l. exact Hl. Qed.
Lemma emits_on_tags {A} (m : io (tagCache * St) A) P : emits m P → emits (on_tags m) P.
Proof. intros Hm [s w]. unfold on_tags. destruct (Hm (lb_tags s, w)) as (l & Hl). cbn [snd fst]. destruct (m (lb_tags s, w)) as [r [t w']]. exists l. exact Hl. Qed.
Lemma emits_on_id {A} (m : io (ClusterID * St) A) P : emits m P → emits (on_id m) P.
Proof. intros Hm [s w]. unfold on_id. destruct (Hm (lb_id s, w)) as (l & Hl). cbn [snd fst]. destruct (m (lb_id s, w)) as [r [t w']]. exists l. exact Hl. Qed.

(** *** Calls that all satisfy a predicate *)
Section only.
#[local] Abbreviation only φ m := (LbLogic.emits C m (λ _ l, Forall φ l)).
Variable φ : event → Prop.
Lemma only_bind {A B} (m : io St A) (f : A → io St B) : only φ m → (∀ a, only φ (f a)) → only φ (m ≫= f).
Proof. intros Hm Hf. apply (emits_bind m f (λ _ l, Forall φ l) (λ _ _ l, Forall φ l)); try done. intros. by apply Forall_app. Qed.
Lemma only_try {A} (m : io St A) : only φ m → only φ (try m).
Proof. intros Hm. by eapply emits_try. Qed.
Lemma only_finally {A} (m : io St A) d : only φ m → only φ d → only φ (finally m d).
Proof. intros. apply (emits_finally m d (λ _ l, Forall φ l) (λ _ l, Forall φ l)); try done. intros. by apply Forall_app. Qed.
Lemma only_deferring {L A} (l : L) (m : io (L * St) A) d : only φ m → (∀ l, only φ (d l)) → only φ (deferring l m d).
Proof. intros. apply (emits_deferring l m d (λ _ l, Forall φ l) (λ _ _ l, Forall φ l)); try done. intros. by apply Forall_app. Qed.
Lemma only_method {O A} (o : O) (m : io (O * St) A) : only φ m → only φ (method o m).
Proof. intros. by eapply emits_method. Qed.
Lemma only_optional {A} (m : io St A) : only φ m → only φ (optional m).
Proof.
  intros. unfold optional. apply only_bind; [by apply only_try|]. intros [e|a]; [destruct (isNotFound e)|]; (apply emits_silent; split; [split; reflexivity|by apply Forall_nil]).
Qed.
Lemma only_ignored {A} (m : io St A) : only φ m → only φ (ignored m).
Proof. intros. unfold ignored. apply only_bind; [by apply only_try|]. intros ?. (apply emits_silent; split; [split; reflexivity|by apply Forall_nil]). Qed.
Lemma only_ignoreNotFound (m : io St unit) : only φ m → only φ (ignoreNotFound m).
Proof.
  intros. unfold ignoreNotFound. apply only_bind; [by apply only_try|]. intros [e|a]; [destruct (isNotFound e)|]; (apply emits_silent; split; [split; reflexivity|by apply Forall_nil]).
Qed.
Lemma only_wrapped {A} e (m : io St A) : only φ m → only φ (wrapped e m).
Proof. intros. unfold wrapped. apply only_bind; [by apply only_try|]. intros [e'|a]; (apply emits_silent; split; [split; reflexivity|by apply Forall_nil]). Qed.
Lemma only_ret {A} (a : A) : only φ (mret a : io St A).
Proof. (apply emits_silent; split; [split; reflexivity|by apply Forall_nil]). Qed.
Lemma only_fail {A} e : only φ (fail e : io St A).
Proof. (apply emits_silent; split; [split; reflexivity|by apply Forall_nil]). Qed.
Lemma only_lift {A} (o : outcome A) : only φ (lift o : io St A).
Proof. (apply emits_silent; split; [split; reflexivity|by apply Forall_nil]). Qed.
Lemma only_ask : only φ (ask : io St St).
Proof. (apply emits_silent; split; [split; reflexivity|by apply Forall_nil]). Qed.
Lemma only_put f : (∀ s, logOf (f s) = logOf s ∧ worldOf (f s) = worldOf s) → only φ (put f : io St unit).
Proof. intros Hf. (apply emits_silent; split; [apply Hf|by apply Forall_nil]). Qed.
End only.
End rules.

(** Every call satisfies [φ]. *)
Abbreviation only C φ m := (emits C m (λ _ l, Forall φ l)).

Lemma emits_exec {W A} (C : Compute W) (c : Call A) (P : outcome A → list event → Prop) :
  (∀ r, P r [Event c r]) → emits C (@exec _ (logged C) A c) P.
Proof.
  intros HP [w l]. rewrite logged_exec. destruct (@exec W C A c w) as [r w'] eqn:E. exists [Event c r]. cbn.
  split; [done|]. split; [by repeat econstructor|done].
Qed.
Lemma only_exec {W A} φ (C : Compute W) (c : Call A) : (∀ r, φ (Event c r)) → only C φ (@exec _ (logged C) A c).
Proof. intros Hφ. apply emits_exec. intros r. by constructor. Qed.

(** Programs of calls. *)
Fixpoint sends {A} (φ : event → Prop) (p : prog A) : Prop :=
  match p with
  | Done _ => True
  | Send c k => ∀ r, φ (Event c r) ∧ sends φ (k r)
  end.

Lemma only_run {W A} φ (C : Compute W) (p : prog A) : sends φ p → only C φ (@run _ (logged C) A p).
Proof.
  induction p as [o|X c k IH]; intros Hp; [by apply emits_lift|]. intros [w l]. cbn [run]. rewrite logged_exec.
  destruct (@exec W C X c w) as [r w'] eqn:E. destruct (Hp r) as [Hr Hk].
  destruct (IH r Hk (w', l ++ [Event c r])) as (l' & El & R & Hl). cbn in El. rewrite <- app_assoc in El.
  exists (Event c r :: l'). split; [done|]. split; [by econstructor|by constructor].
Qed.

Ltac emit_step :=
  lazymatch goal with
  | |- emits _ (_ ≫= _) (λ _ l, Forall ?φ l) => apply (only_bind φ); [|intros ?]
  | |- emits _ (try _) (λ _ l, Forall ?φ l) => apply (only_try φ)
  | |- emits _ (finally _ _) (λ _ l, Forall ?φ l) => apply (only_finally φ)
  | |- emits _ (deferring _ _ _) (λ _ l, Forall ?φ l) => apply (only_deferring φ); [|intros ?]
  | |- emits _ (method _ _) (λ _ l, Forall ?φ l) => apply (only_method φ)
  | |- emits _ (optional _) (λ _ l, Forall ?φ l) => apply (only_optional φ)
  | |- emits _ (ignored _) (λ _ l, Forall ?φ l) => apply (only_ignored φ)
  | |- emits _ (ignoreNotFound _) (λ _ l, Forall ?φ l) => apply (only_ignoreNotFound φ)
  | |- emits _ (wrapped _ _) (λ _ l, Forall ?φ l) => apply (only_wrapped φ)
  | |- emits _ (mret _) (λ _ l, Forall ?φ l) => apply (only_ret φ)
  | |- emits _ (fail _) (λ _ l, Forall ?φ l) => apply (only_fail φ)
  | |- emits _ (lift _) (λ _ l, Forall ?φ l) => apply (only_lift φ)
  | |- emits _ ask (λ _ l, Forall ?φ l) => apply (only_ask φ)
  | |- emits _ (put _) (λ _ l, Forall ?φ l) => apply (only_put φ); [intros [??]; split; reflexivity]
  | |- emits _ (on_snd _) _ => apply emits_on_snd
  | |- emits _ (on_tags _) _ => apply emits_on_tags
  | |- emits _ (on_id _) _ => apply emits_on_id
  | |- emits _ (exec _) (λ _ l, Forall ?φ l) => apply (only_exec φ); intros ?
  | |- emits _ (run _) (λ _ l, Forall ?φ l) => apply (only_run φ)
  | |- emits _ (match ?x with _ => _ end) _ => destruct x eqn:?
  end.
Ltac emit_steps := repeat (emit_step; cbv beta iota zeta).

(** The calls behind the wrappers. *)
Ltac clients :=
  unfold GetRegionForwardingRule, CreateRegionForwardingRule, DeleteRegionForwardingRule, getNetworkTierFromForwardingRule,
    GetRegionBackendService, UpdateRegionBackendService, DeleteRegionBackendService, CreateRegionBackendService,
    GetHealthCheck, UpdateHealthCheck, DeleteHealthCheck, CreateHealthCheck,
    GetHTTPHealthCheck, UpdateHTTPHealthCheck, CreateHTTPHealthCheck,
    GetFirewall, CreateFirewall, DeleteFirewall, PatchFirewall,
    CreateInstanceGroup, DeleteInstanceGroup, GetInstanceGroup, FilterInstanceGroupsByNamePrefix, ListInstanceGroupsWithPrefix,
    ListInstancesInInstanceGroup, AddInstancesToInstanceGroup, RemoveInstancesFromInstanceGroup,
    GetTargetPool, CreateTargetPool, AddInstancesToTargetPool, RemoveInstancesFromTargetPool, ListZonesInRegion,
    addFinalizer, removeFinalizer, raiseFirewallChangeNeededEvent, Recorder_Event, ensureAddressDeleted;
  cbn [ReserveRegionAddress GetRegionAddress GetRegionAddressByIP DeleteRegionAddress Cloud_addresses
       Addresses_Insert Addresses_Get Addresses_List Addresses_Delete Compute_addresses ComputeInstances_List Compute_instances];
  unfold Cloud_ReserveRegionAddress, Cloud_GetRegionAddress, Cloud_GetRegionAddressByIP, Cloud_DeleteRegionAddress, getNetworkTierFromAddress;
  cbn [Addresses_Insert Addresses_Get Addresses_List Addresses_Delete Compute_addresses].

(** ** Reading *)
Definition isRead {A} (c : Call A) : bool :=
  match c with
  | AddressesGet _ _ | AddressesList _ _ | ForwardingRulesGet _ _ | BackendServicesGet _ _ | HealthChecksGet _ | HttpHealthChecksGet _
  | FirewallsGet _ | InstanceGroupsGet _ _ | InstanceGroupsList _ _ | InstanceGroupsListInstances _ _ | TargetPoolsGet _ _
  | InstancesList _ _ | ZonesList _ | ConfigMapsFromStore _ | RandomUID => true
  | _ => false
  end.

Section reading.
Context {W : Type} (C : Compute W) `{MapOrder} (φ : event → Prop).
Hypothesis reads : ∀ A (c : Call A) r, isRead c = true → φ (Event c r).
Variable g : gceConfig.
#[local] Existing Instance logged.
Abbreviation LW := (W * list event)%type.

Lemma only_scanZones zones prefix found remaining : only C φ (scanZones zones prefix found remaining : io LW _).
Proof.
  revert found remaining. induction zones as [|z zones IH]; intros found remaining; cbn; [emit_steps|].
  clients. emit_steps; [by apply reads|apply IH].
Qed.
Lemma only_getFoundInstanceByNames names : only C φ (getFoundInstanceByNames g names : io LW _).
Proof. unfold getFoundInstanceByNames. emit_steps. apply only_scanZones. Qed.
Lemma only_getInstancesByNames names : only C φ (getInstancesByNames g names : io LW _).
Proof. unfold getInstancesByNames. emit_steps. apply only_getFoundInstanceByNames. Qed.
Lemma only_zoneTags zones filter tags : only C φ (zoneTags zones filter tags : io LW _).
Proof.
  revert tags. induction zones as [|[z hosts] zones IH]; intros tags; cbn; [emit_steps|].
  clients. emit_steps; [by apply reads|apply IH].
Qed.
Lemma only_computeHostTags hosts : only C φ (computeHostTags g hosts : io LW _).
Proof. unfold computeHostTags. emit_steps. apply only_zoneTags. Qed.
Lemma only_GetNodeTags names : only C φ (GetNodeTags g names : io (tagCache * LW) _).
Proof. unfold GetNodeTags. emit_steps; [apply only_getInstancesByNames|apply only_computeHostTags]. Qed.

Lemma only_externalGroups name zone names igs links skip : only C φ (externalGroups name zone names igs links skip : io LW _).
Proof.
  revert links skip. induction igs as [|ig igs IH]; intros links skip; cbn; [emit_steps|].
  clients. emit_steps; try apply IH. by apply reads.
Qed.
Lemma only_groupsOfZones name zones links zoned : only C φ (groupsOfZones g name zones links zoned : io LW _).
Proof.
  revert links zoned. induction zones as [|[z nodes] zones IH]; intros links zoned; cbn; [emit_steps|].
  unfold candidateExternalInstanceGroups. clients.
  emit_steps; try apply IH; try (by apply reads); [apply only_getFoundInstanceByNames|apply only_externalGroups].
Qed.
End reading.
#[export] Hint Resolve only_getFoundInstanceByNames only_getInstancesByNames only_computeHostTags only_GetNodeTags only_groupsOfZones : trace.
