(* ===== verification/InternalLbScope.v ===== *)
(** * InternalLbScope: what an internal load balancer asks for, in which order, and what it may change

    Properties of the traces of [InternalLb]: deletion touches nothing but the
    resources named after the service and the cluster, the finalizer goes last
    and comes first, and the reserved address is given back. *)
From S2P Require Import Prelude K8s IoLogic AddressManager LoadBalancer GceHosts ComputeCalls ClusterId InternalLb Goroutines ExternalLb LbLogic.
Local Open Scope Z_scope.

(** ** Names of a service's resources *)
Section names.
Context `{Sha1}.
Definition ilbBackendService (clusterID : string) (svc : Service) : string :=
  makeBackendServiceName (GetLoadBalancerName svc) clusterID (shareBackendService svc) SchemeInternal (getPortsAndProtocol (svc_Ports svc)).2 (svc_SessionAffinity svc).
Definition ilbHealthCheck (clusterID : string) (svc : Service) : string :=
  makeHealthCheckName (GetLoadBalancerName svc) clusterID (negb (RequestsOnlyLocalTraffic svc)).
End names.

(** ** Answers *)
Definition gone (r : outcome unit) : Prop :=
  match r with Ret _ => True | Err e => isNotFound e = true | Panic => False end.
Definition goneOrUsed (r : outcome unit) : Prop := gone r ∨ r = Err ErrBeingUsedBy.
(** Gone, or the security admin is asked to delete it. *)
Definition goneOrReported (g : gceConfig) (r : outcome unit) : Prop :=
  gone r ∨ ∃ e, r = Err e ∧ isForbidden e = true ∧ g_onXPN g = true.
Definition answered {A} (l : list event) (c : Call A) (ok : outcome A → Prop) : Prop := ∃ r, Event c r ∈ l ∧ ok r.

Lemma answered_mono {A} l l' (c : Call A) ok : l ⊆ l' → answered l c ok → answered l' c ok.
Proof. intros Hl (r & Hin & Hr). exists r. auto. Qed.

Definition isPatch {A} (c : Call A) : bool := match c with ServicesPatchFinalizers _ _ _ _ => true | _ => false end.
Definition noPatch (e : event) : Prop := match e with Event c _ => isPatch c = false end.

(** A step before the finalizer: it leaves the finalizers alone, and what it
    establishes when it returns. *)
Definition does {W St A} (C : Compute W) `{HasLog W St} (φ : list event → Prop) (m : io St A) : Prop :=
  emits C m (λ r l, Forall noPatch l ∧ (∀ a, r = Ret a → φ l)).
Definition mono (φ : list event → Prop) : Prop := ∀ l l', l ⊆ l' → φ l → φ l'.

Section does.
Context {W : Type} {C : Compute W} {St : Type} `{HasLog W St}.
Lemma does_bind {A B} φ ψ (m : io St A) (f : A → io St B) :
  mono φ → mono ψ → does C φ m → (∀ a, does C ψ (f a)) → does C (λ l, φ l ∧ ψ l) (m ≫= f).
Proof.
  intros Mφ Mψ Hm Hf. apply (emits_bind m f _ (λ a r l, Forall noPatch l ∧ (∀ b, r = Ret b → ψ l)) _ Hm Hf); [|naive_solver..].
  intros a r l1 l2 [N1 P1] [N2 P2]. split; [by apply Forall_app|]. intros b ->. split.
  - apply (Mφ l1); [apply list_subseteq_app_l; reflexivity|]. by apply (P1 a).
  - apply (Mψ l2); [apply list_subseteq_app_r; reflexivity|]. by apply (P2 b).
Qed.
Lemma does_weaken {A} (φ ψ : list event → Prop) (m : io St A) : does C φ m → (∀ l, φ l → ψ l) → does C ψ m.
Proof. intros Hm Hφ. eapply emits_weaken; [exact Hm|]. naive_solver. Qed.
Lemma does_only {A} (m : io St A) : only C noPatch m → does C (λ _, True) m.
Proof. intros Hm. eapply emits_weaken; [exact Hm|]. naive_solver. Qed.
(** One call and its possible continuations. *)
Lemma does_handle {A B} φ (m : io St A) (k : error + A → io St B) :
  emits C m (λ r l, Forall noPatch l ∧ match r with Ret a => φ (inr a) l | Err e => φ (inl e) l | Panic => True end) →
  ∀ ψ, (∀ x, emits C (k x) (λ r l, Forall noPatch l ∧ (∀ b l0, r = Ret b → φ x l0 → ψ (l0 ++ l)))) →
  does C ψ (r ← try m; k r).
Proof.
  intros Hm ψ Hk. eapply (emits_bind (try m) k (λ r l, Forall noPatch l ∧ match r with Ret x => φ x l | _ => True end)).
  - eapply emits_try; [exact Hm|..]; intros; naive_solver.
  - exact Hk.
  - intros x r l1 l2 [N1 P1] [N2 P2]. split; [by apply Forall_app|]. intros b ->. by apply (P2 b).
  - naive_solver.
  - naive_solver.
Qed.
End does.

(** A deletion whose answer the continuation inspects. *)
Lemma does_delete {W} (C : Compute W) (c : Call unit) (k : error + unit → io (W * list event) unit) (ψ : list event → Prop) :
  isPatch c = false →
  (∀ x, emits C (k x) (λ r l, Forall noPatch l ∧
     (r = Ret tt → ψ (Event c (match x with inr _ => Ret tt | inl e => Err e end) :: l)))) →
  does C ψ (r ← try (@exec _ (logged C) _ c); k r).
Proof.
  intros Hc Hk. apply (does_handle (λ x l, l = [Event c (match x with inr _ => Ret tt | inl e => Err e end)])).
  - apply emits_exec. intros r. split; [by constructor|]. by destruct r as [[]| |].
  - intros x. eapply emits_weaken; [apply (Hk x)|]. intros r l [N P]. split; [done|]. intros [] l0 -> ->. auto.
Qed.
Lemma answered_head {A} (c : Call A) r l (ok : outcome A → Prop) : ok r → answered (Event c r :: l) c ok.
Proof. intros Hr. exists r. split; [apply list_elem_of_here|done]. Qed.
#[export] Hint Resolve answered_head : trace.

Lemma answered_cons {A} (c : Call A) e l (ok : outcome A → Prop) : answered l c ok → answered (e :: l) c ok.
Proof. apply answered_mono. by apply list_subseteq_cons. Qed.
#[export] Hint Resolve answered_cons : trace.

(** [ignoreNotFound] around a deletion. *)
Lemma emits_ignoreNotFound {W} (C : Compute W) (c : Call unit) :
  emits C (ignoreNotFound (@exec _ (logged C) _ c))
    (λ r l, ∃ r0, l = [Event c r0] ∧ r = match r0 with Err e => if isNotFound e then Ret tt else Err e | _ => r0 end).
Proof.
  unfold ignoreNotFound. eapply (emits_bind _ _ (λ r l, ∃ r0, l = [Event c r0] ∧ r = match r0 with Ret a => Ret (inr a) | Err e => Ret (inl e) | Panic => Panic end)
    (λ x r l, l = [] ∧ r = match x with inl e => if isNotFound e then Ret tt else Err e | inr a => Ret tt end)).
  - eapply (emits_try _ (λ r l, l = [Event c r])); [by apply emits_exec|..]; intros; subst; eauto.
  - intros [e|a]; [destruct (isNotFound e) eqn:?|]; apply emits_silent; intros s; split; try reflexivity; split; try reflexivity.
  - intros x r l1 l2 (r0 & -> & Hx) [-> ->]. exists r0. split; [done|]. by destruct r0 as [[]| |]; simplify_eq.
  - intros e l (r0 & -> & Hx). by destruct r0.
  - intros l (r0 & -> & Hx). exists r0. by destruct r0.
Qed.

(** The end of a branch: the answer settles the resource. *)
Ltac settled := apply emits_ret; split; [done|]; intros _; repeat (first [apply answered_head | apply answered_cons]).
Ltac refused := apply emits_fail; done.

(** An error that stops the loop is not that the group is used. *)
Lemma deleteInZones_error {W} `{Compute W} name zones (s : W) e : (deleteInZones name zones s).1 = Err e → isInUsedByError e = false.
Proof.
  revert s. induction zones as [|z zones IH]; intros s; cbn; [done|]. rewrite io_bind_eq. unfold try, DeleteInstanceGroup.
  destruct (exec (InstanceGroupsDelete name z) s) as [[[]|e'|] s']; cbn; [apply IH| |done].
  destruct (isNotFoundOrInUse e') eqn:E; [apply IH|]. intros [= <-]. by apply orb_false_iff in E as [_ ->].
Qed.

Section deletion.
Context {W : Type} (C : Compute W) `{MapOrder} `{Sha1}.
Variable g : gceConfig.
#[local] Existing Instance logged.

Abbreviation LW := (W * list event)%type.

Lemma does_forwarding name region :
  does C (λ l, answered l (ForwardingRulesDelete name region) gone) (ignoreNotFound (DeleteRegionForwardingRule name region) : io LW unit).
Proof.
  eapply emits_weaken; [apply emits_ignoreNotFound|]. intros r l (r0 & -> & ->). split; [by constructor|].
  intros a Hr. apply answered_head. destruct r0 as [|e|]; simplify_eq; [done|]. cbn. by destruct (isNotFound e).
Qed.

Lemma does_teardownBackendService name :
  does C (λ l, answered l (BackendServicesDelete name (g_region g)) goneOrUsed) (teardownInternalBackendService g name : io LW unit).
Proof.
  apply does_delete; [done|]. intros [e|[]]; cbn; [destruct (isNotFound e) eqn:Ee; [|destruct (isInUsedByError e) eqn:Eu]|].
  - settled. by left.
  - settled. right. by destruct e.
  - refused.
  - settled. by left.
Qed.

Lemma only_raise svc cmd φ : (∀ r reason msg, φ (Event (RecordEvent (svc_Namespace svc) (svc_Name svc) reason msg) r)) →
  only C φ (raiseFirewallChangeNeededEvent svc cmd : io LW unit).
Proof. intros Hφ. unfold raiseFirewallChangeNeededEvent, Recorder_Event. emit_steps. apply Hφ. Qed.

Lemma does_deleteFirewall svc fwName wrap :
  does C (λ l, answered l (FirewallsDelete fwName) (goneOrReported g)) (deleteFirewallOrRaise g svc fwName wrap : io LW unit).
Proof.
  unfold deleteFirewallOrRaise. apply (does_handle (λ x l, ∃ r0, l = [Event (FirewallsDelete fwName) r0] ∧
    match x with inr _ => gone r0 | inl e => r0 = Err e end)).
  - eapply emits_weaken; [apply emits_ignoreNotFound|]. intros r l (r0 & -> & ->). split; [by constructor|].
    destruct r0 as [a|e|]; [by exists (Ret a)| |done]. destruct (isNotFound e) eqn:?; by exists (Err e).
  - intros [e|[]]; [destruct (isForbidden e && g_onXPN g) eqn:E|].
    + eapply emits_weaken; [apply (only_raise _ _ noPatch); done|]. intros r l N. split; [done|]. intros b l0 -> (r0 & -> & ->).
      apply answered_head. right. apply andb_true_iff in E as [??]. eauto.
    + refused.
    + apply emits_ret. split; [done|]. intros b l0 _ (r0 & -> & Hr). apply answered_head. by left.
Qed.

(** The health check is gone with its firewall, or another service uses it. *)
Definition checkGone (hcName : string) (l : list event) : Prop :=
  answered l (HealthChecksDelete hcName) (λ r, r = Err ErrBeingUsedBy) ∨
  (answered l (HealthChecksDelete hcName) gone ∧ answered l (FirewallsDelete (makeHealthCheckFirewallNameFromHC hcName)) (goneOrReported g)).
Lemma does_teardownHealthCheck svc hcName :
  does C (checkGone hcName) (teardownInternalHealthCheckAndFirewall g svc hcName : io LW unit).
Proof.
  apply does_delete; [done|]. cbv zeta.
  assert (∀ r0, gone r0 → emits C (deleteFirewallOrRaise g svc (makeHealthCheckFirewallNameFromHC hcName)
      (λ _, Errorf "failed to delete health check firewall: %v, err: %v") : io LW unit)
      (λ r l, Forall noPatch l ∧ (r = Ret tt → checkGone hcName (Event (HealthChecksDelete hcName) r0 :: l)))) as Hfw.
  { intros r0 Hr0. eapply emits_weaken; [apply does_deleteFirewall|]. intros r l [N P]. split; [done|]. intros ->.
    right. split; [by apply answered_head|]. apply answered_cons. by apply (P tt). }
  intros [e|[]]; [destruct (isNotFound e) eqn:Ee; [|destruct (isInUsedByError e) eqn:Eu]|].
  - by apply Hfw.
  - apply emits_ret. split; [done|]. intros _. left. apply answered_head. by destruct e.
  - refused.
  - by apply Hfw.
Qed.

(** The groups are gone in every zone, or used. *)
Definition groupsGone (igName : string) (l : list event) : Prop :=
  answered l (ZonesList (g_region g)) (λ r, r = Err ErrBeingUsedBy) ∨
  ∃ zones, answered l (ZonesList (g_region g)) (λ r, r = Ret zones) ∧
    (g_SkipIGsManagement g = true ∨ ∀ z, z ∈ zones → answered l (InstanceGroupsDelete igName z) goneOrUsed).

Lemma does_deleteInZones name zones :
  does C (λ l, ∀ z, z ∈ zones → answered l (InstanceGroupsDelete name z) goneOrUsed) (deleteInZones name zones : io LW unit).
Proof.
  induction zones as [|z zones IH]; cbn.
  { apply emits_ret. split; [done|]. intros _ _ z Hz. by apply elem_of_nil in Hz. }
  apply does_delete; [done|].
  assert (∀ r0, goneOrUsed r0 → emits C (deleteInZones name zones : io LW unit) (λ r l, Forall noPatch l ∧
    (r = Ret tt → ∀ z', z' ∈ z :: zones → answered (Event (InstanceGroupsDelete name z) r0 :: l) (InstanceGroupsDelete name z') goneOrUsed))) as Hrest.
  { intros r0 Hr0. eapply emits_weaken; [exact IH|]. intros r l [N P]. split; [done|]. intros -> z' [->|Hz']%elem_of_cons.
    - by apply answered_head.
    - apply answered_cons. by apply (P tt). }
  intros [e|[]]; [destruct (isNotFoundOrInUse e) eqn:E|].
  - apply Hrest. apply orb_true_iff in E as [E|E]; [by left|right; by destruct e].
  - refused.
  - apply Hrest. by left.
Qed.
Lemma does_groupsDeleted igName :
  does C (groupsGone igName)
    (r ← try (on_snd (ensureInternalInstanceGroupsDeleted g igName)); match r with inr _ => mret tt | inl err => if isInUsedByError err then mret tt else fail err end
     : io (lbState * LW) unit).
Proof.
  apply (does_handle (λ x l, match x with inr _ => groupsGone igName l | inl e => isInUsedByError e = true → groupsGone igName l end)).
  - apply emits_on_snd. unfold ensureInternalInstanceGroupsDeleted, ListZonesInRegion.
    eapply (emits_bind _ _ (λ r l, l = [Event (ZonesList (g_region g)) r])
      (λ zones r l, Forall noPatch l ∧ (∀ e, r = Err e → isInUsedByError e = false) ∧
         (r = Ret tt → g_SkipIGsManagement g = true ∨ ∀ z, z ∈ zones → answered l (InstanceGroupsDelete igName z) goneOrUsed))); [by apply emits_exec|..].
    + intros zones. destruct (g_SkipIGsManagement g) eqn:Es; [apply emits_ret; naive_solver|].
      intros s. destruct (does_deleteInZones igName zones s) as (l & E & R & N & P). exists l. split; [done|]. split; [done|]. split; [done|].
      split; [intros e; apply deleteInZones_error|]. intros Hr. right. by apply (P tt).
    + intros zones r l1 l2 -> (N & He & Hr). split; [by constructor|]. destruct r as [[]|e|]; [|by rewrite He|done].
      right. exists zones. split; [by apply answered_head|]. destruct (Hr eq_refl) as [|Hz]; [by left|right].
      intros z Hin. apply answered_cons. by apply Hz.
    + intros e l ->. split; [by repeat constructor|]. intros He. left. apply answered_head. by destruct e.
    + intros l ->. split; [by repeat constructor|done].
  - intros [e|[]]; [destruct (isInUsedByError e) eqn:E|]; [|refused|]; apply emits_ret; (split; [done|]); intros b l0 _ Hl;
      rewrite app_nil_r; auto.
Qed.

(** Everything the load balancer of the service consisted of is gone; what is
    shared may still be used by others. *)
Definition cleaned (clusterID : string) (svc : Service) (l : list event) : Prop :=
  answered l (ForwardingRulesDelete (GetLoadBalancerName svc) (g_region g)) gone ∧
  answered l (BackendServicesDelete (ilbBackendService clusterID svc) (g_region g)) goneOrUsed ∧
  answered l (FirewallsDelete (MakeFirewallName (GetLoadBalancerName svc))) (goneOrReported g) ∧
  answered l (FirewallsDelete (GetLoadBalancerName svc)) (goneOrReported g) ∧
  checkGone (ilbHealthCheck clusterID svc) l ∧
  groupsGone (makeInstanceGroupName clusterID) l.

Lemma mono_answered {A} (c : Call A) ok : mono (λ l, answered l c ok).
Proof. intros l l'. apply answered_mono. Qed.
Lemma mono_and φ ψ : mono φ → mono ψ → mono (λ l, φ l ∧ ψ l).
Proof. intros H1 H2 l l' Hl [??]. eauto. Qed.
Lemma mono_true : mono (λ _, True).
Proof. done. Qed.
Lemma mono_checkGone hc : mono (checkGone hc).
Proof. intros l l' Hl. unfold checkGone. intuition eauto using answered_mono. Qed.
Lemma mono_groupsGone ig : mono (groupsGone ig).
Proof. intros l l' Hl. unfold groupsGone. intros [?|(zs & ? & [?|?])]; [left|right; exists zs..]; eauto 6 using answered_mono. Qed.
Hint Resolve mono_answered mono_and mono_true mono_checkGone mono_groupsGone : trace.
Lemma mono_cleaned clusterID svc : mono (cleaned clusterID svc).
Proof. unfold cleaned. auto 20 with trace. Qed.
(** Steps, and the removal of the finalizer after them. *)
Definition patchCall (svc : Service) : Call unit :=
  ServicesPatchFinalizers (svc_Namespace svc) (svc_Name svc) (svc_Finalizers svc) (removeString (svc_Finalizers svc) ILBFinalizerV1).
Definition patchLast (svc : Service) (ψ : list event → Prop) (r : outcome unit) (l : list event) : Prop :=
  ∃ l1 l2, l = l1 ++ l2 ∧ Forall noPatch l1 ∧
    ((l2 = [] ∧ (r = Ret tt → ψ l1 ∧ hasFinalizer svc ILBFinalizerV1 = false)) ∨
     (hasFinalizer svc ILBFinalizerV1 = true ∧ ψ l1 ∧ ∃ r0, l2 = [Event (patchCall svc) r0] ∧ (r = Ret tt ↔ r0 = Ret tt))).
Definition thenPatch {St} `{HasLog W St} (svc : Service) (ψ : list event → Prop) (m : io St unit) : Prop := emits C m (patchLast svc ψ).

Lemma thenPatch_bind {St A} `{HasLog W St} svc φ ψ (m : io St A) f :
  mono φ → mono ψ → does C φ m → (∀ a, thenPatch svc ψ (f a)) → thenPatch svc (λ l, φ l ∧ ψ l) (m ≫= f).
Proof.
  intros Mφ Mψ Hm Hf. apply (emits_bind m f _ (λ _, patchLast svc ψ) _ Hm Hf).
  - intros a r k l [N P] (l1 & l2 & -> & N1 & Htail). exists (k ++ l1), l2. rewrite <- app_assoc. split; [done|]. split; [by apply Forall_app|].
    assert (φ (k ++ l1)) by (eapply Mφ; [|by apply (P a)]; apply list_subseteq_app_l; reflexivity).
    assert (ψ l1 → ψ (k ++ l1)) by (apply Mψ, list_subseteq_app_r; reflexivity).
    destruct Htail as [[-> Hr]|(? & ? & ?)]; [left|right; split_and!; auto]. split; [done|]. intros ->. destruct (Hr eq_refl). split; auto.
  - intros e l [N _]. exists l, []. rewrite app_nil_r. split; [done|]. split; [done|]. left. by split.
  - intros l [N _]. exists l, []. rewrite app_nil_r. split; [done|]. split; [done|]. left. by split.
Qed.
Lemma thenPatch_weaken {St} `{HasLog W St} svc (φ ψ : list event → Prop) (m : io St unit) : thenPatch svc φ m → (∀ l, φ l → ψ l) → thenPatch svc ψ m.
Proof. intros Hm HH. eapply emits_weaken; [exact Hm|]. intros r l (l1 & l2 & -> & N & Ht). exists l1, l2. split; [done|]. split; [done|]. naive_solver. Qed.

Lemma thenPatch_remove svc f :
  (∀ s : lbState * LW, logOf (f s) = logOf s ∧ worldOf (f s) = worldOf s) → thenPatch svc (λ _, True) (_ ← on_snd (removeFinalizer svc ILBFinalizerV1); put f : io (lbState * LW) unit).
Proof.
  intros Hf. unfold removeFinalizer. destruct (hasFinalizer svc ILBFinalizerV1) eqn:E; cbn [negb].
  - eapply (emits_bind _ _ (λ r l, l = [Event (patchCall svc) r]) (λ _ r l, r = Ret tt ∧ l = []));
      [apply emits_on_snd; by apply emits_exec|intros; by apply emits_put|..].
    + intros [] r l1 l2 -> [-> ->]. exists [], [Event (patchCall svc) (Ret tt)]. split; [done|]. split; [done|]. right. eauto 6.
    + intros e l ->. exists [], [Event (patchCall svc) (Err e)]. split; [done|]. split; [done|]. right. split; [done|]. split; [done|]. by exists (Err e).
    + intros l ->. exists [], [Event (patchCall svc) Panic]. split; [done|]. split; [done|]. right. split; [done|]. split; [done|]. by exists Panic.
  - eapply (emits_bind _ _ (λ r l, r = Ret tt ∧ l = []) (λ _ r l, r = Ret tt ∧ l = []));
      [apply emits_on_snd; by apply emits_ret|intros; by apply emits_put|..]; [|naive_solver..].
    intros [] r l1 l2 [_ ->] [-> ->]. exists [], []. auto 6.
Qed.

Lemma does_address name region : does C (λ _, True) (ignored (ensureAddressDeleted name region) : io LW unit).
Proof. apply does_only. clients. emit_steps. done. Qed.

Lemma deletion_trace clusterID svc : thenPatch svc (cleaned clusterID svc) (ensureInternalLoadBalancerDeleted g clusterID svc : io (lbState * LW) unit).
Proof.
  unfold ensureInternalLoadBalancerDeleted. cbv zeta. destruct (getPortsAndProtocol (svc_Ports svc)) as [[ports ranges] protocol] eqn:Ep.
  eapply thenPatch_weaken.
  { apply thenPatch_bind; [..|intros _; apply thenPatch_bind; [..|intros _; apply thenPatch_bind; [..|intros _;
      apply thenPatch_bind; [..|intros _; apply thenPatch_bind; [..|intros _; apply thenPatch_bind; [..|intros _;
      apply thenPatch_bind; [..|intros _; by apply thenPatch_remove]]]]]]];
    try (apply emits_on_snd; (apply does_address || apply does_forwarding || apply does_teardownBackendService || apply does_deleteFirewall || apply does_teardownHealthCheck));
    try apply does_groupsDeleted; auto 20 with trace. }
  intros l (_ & ? & ? & ? & ? & ? & ? & _). unfold cleaned, ilbBackendService, ilbHealthCheck. rewrite Ep. done.
Qed.
End deletion.

(** ** Scope: what an internal load balancer may change

    The calls that change something, of the operations of [InternalLb]: only
    resources named after the service or the cluster are created or updated,
    nothing that the service needs is deleted, and what is shared is never
    deleted by force. *)

(** ** The address manager *)
Definition isReserved (e : event) : Prop := match e with Event (AddressesInsert _ _ _) (Ret _) => True | _ => False end.
Definition addressScope (name region : string) (e : event) : Prop :=
  match e with Event c _ =>
    match c with
    | AddressesInsert n r _ => n = name ∧ r = region
    | AddressesDelete _ r => r = region
    | AddressesGet _ _ | AddressesList _ _ => True
    | _ => False
    end
  end.

(** How a run of [HoldAddress] ends: the trace it adds, and whether a
    reservation it made is one that [ReleaseAddress] gives back. *)
Definition held (am : addressManager) (l' : list event) (r : outcome string) (am' : addressManager) : Prop :=
  am_name am' = am_name am ∧ am_region am' = am_region am ∧ Forall (addressScope (am_name am) (am_region am)) l' ∧
  (Exists isReserved l' → am_tryRelease am' = am_tryRelease am ∧
     match r with Ret _ => True | _ => ∃ l0 r0, l' = l0 ++ [Event (AddressesGet (am_name am) (am_region am)) r0] ∧ ¬ is_ret r0 end).

Lemma wp_on_snd {S W A} (m : io W A) (Q : outcome A → S * W → Prop) s w : wp m (λ r w', Q r (s, w')) w → wp (on_snd m) Q (s, w).
Proof. unfold wp, on_snd. cbn [fst snd]. by destruct (m w). Qed.
Lemma wp_logged {W A} (C : Compute W) (c : Call A) (Q : outcome A → W * list event → Prop) w l :
  (∀ r w', Q r (w', l ++ [Event c r])) → wp (@exec _ (logged C) A c) Q (w, l).
Proof. intros HQ. unfold wp. rewrite logged_exec. destruct (exec c w). cbn. apply HQ. Qed.

Ltac wp_call := repeat (first [wp_step | apply wp_on_snd | apply wp_logged; intros]; cbv beta iota).

(** Predicates on the calls of a concrete trace. *)
Ltac on_calls := repeat first [assumption | apply List.Forall_nil | apply List.Forall_cons | apply Forall_app; split]; cbn; auto.

Section manager.
Context {W : Type} (C : Compute W).
#[local] Existing Instance logged.
Abbreviation LW := (W * list event)%type.

Lemma wp_receiver (Q : outcome addressManager → addressManager * LW → Prop) s : Q (Ret s.1) s → wp receiver Q s.
Proof. done. Qed.

Lemma Exists_app_r l0 l1 : ¬ Exists isReserved l0 → Exists isReserved (l0 ++ l1) → Exists isReserved l1.
Proof. rewrite Exists_app. by intros ? [?|?]. Qed.

(** No reservation was made. *)
Lemma held_free am l r am' :
  am_name am' = am_name am → am_region am' = am_region am → Forall (addressScope (am_name am) (am_region am)) l →
  Forall (λ e, ¬ isReserved e) l → held am l r am'.
Proof. intros E1 E2 Hs Hn. split; [done|]. split; [done|]. split; [done|]. intros Hr. exfalso. apply Exists_exists in Hr as (e & Hin & He). by eapply Forall_forall in Hn. Qed.

Lemma reservation_trace am l0 w l :
  Forall (addressScope (am_name am) (am_region am)) l0 → Forall (λ e, ¬ isReserved e) l0 →
  wp ensureAddressReservation (λ r s, ∃ l', s.2.2 = l ++ l' ∧ held am l' r s.1) (am, ((w, l ++ l0) : LW)).
Proof.
  intros H0 N0. unfold ensureAddressReservation. wp_step. apply wp_receiver. cbn [fst snd]. cbv zeta. clients. cbn [addr_Name addr_Address].
  wp_step. wp_step. apply wp_on_snd. wp_step. apply wp_logged. intros r1 w1. destruct r1 as [[]|e|]; cbn beta iota.
  - wp_step. cbn beta iota. case_bool_decide.
    + wp_call. cbn [fst snd]. rewrite <- !app_assoc. eexists; split; [reflexivity|].
      split; [done|]. split; [done|]. split; [on_calls|]. done.
    + wp_call. destruct r as [a|e|]; wp_call; cbn [fst snd]; rewrite <- !app_assoc; (eexists; split; [reflexivity|]);
        (split; [done|]); (split; [done|]); (split; [on_calls|]); (split; [done|]); [done|..];
        (eexists (l0 ++ [_]), _; split; [rewrite <- app_assoc; reflexivity|by intros []]).
  - destruct (negb (isHTTPErrorCode e StatusConflict) && _); [|case_bool_decide]; wp_call; cbn [fst snd];
      [rewrite <- !app_assoc; eexists; (split; [reflexivity|]); apply held_free; try done; on_calls..|].
    destruct r as [addrs|e2|]; wp_call;
      [destruct (firstWithIP (am_targetIP am) addrs) as [addr|]; wp_call; [destruct (validateAddress am addr); wp_call; [destruct (isManagedAddress am addr); wp_call|..]|]|..];
      cbn [fst snd]; rewrite <- !app_assoc; (eexists; (split; [reflexivity|]); apply held_free; try done; on_calls).
  - rewrite <- !app_assoc. eexists; split; [reflexivity|]. apply held_free; try done; on_calls.
Qed.

Lemma HoldAddress_trace am w l :
  wp HoldAddress (λ r s, ∃ l', s.2.2 = l ++ l' ∧ held am l' r s.1) (am, ((w, l) : LW)).
Proof.
  unfold HoldAddress. wp_step. apply wp_receiver. cbn [fst snd]. clients. wp_call.
  destruct r as [addr|e|]; cbn beta iota.
  - destruct (validateAddress am addr); [wp_call; cbn [fst snd]; eexists; (split; [reflexivity|]); apply held_free; try done; on_calls|..];
      (wp_call; destruct r as [[]|e'|]; cbn beta iota; [|destruct (isNotFound e'); [|wp_call]|]; cbn [fst snd];
        try (rewrite <- app_assoc; apply reservation_trace; on_calls);
        rewrite <- app_assoc; eexists; (split; [reflexivity|]); apply held_free; try done; on_calls).
  - destruct (isNotFound e); cbn [negb]; [apply reservation_trace; on_calls|].
    wp_call. eexists; (split; [reflexivity|]); apply held_free; try done; on_calls.
  - eexists; (split; [reflexivity|]); apply held_free; try done; on_calls.
Qed.

Lemma only_receiver φ : only C φ (receiver : io (addressManager * LW) _).
Proof. apply emits_silent. intros s. split; [split; reflexivity|constructor]. Qed.
Lemma sends_hold : only C (λ _, True) (HoldAddress : io (addressManager * LW) string).
Proof. unfold HoldAddress, ensureAddressReservation. clients. emit_steps; try done; apply only_receiver. Qed.
Lemma sends_release : only C (λ _, True) (ReleaseAddress : io (addressManager * LW) unit).
Proof. unfold ReleaseAddress. clients. emit_steps; try done; apply only_receiver. Qed.

(** The trace of a run, from what is known of its log. *)
Lemma emits_of_log {A} (m : io LW A) (P : outcome A → list event → Prop) :
  only C (λ _, True) m → (∀ w l, ∃ l', (m (w, l)).2.2 = l ++ l' ∧ P (m (w, l)).1 l') → emits C m P.
Proof.
  intros Hm HP [w l]. destruct (Hm (w, l)) as (l1 & E1 & R & _), (HP w l) as (l2 & E2 & HP2). cbn in E1.
  rewrite E1 in E2. apply app_inv_head in E2 as ->. eauto.
Qed.

Lemma emits_hold am :
  emits C (method am HoldAddress : io LW _) (λ r l, ∃ r0 am', r = (λ a, (a, am')) <$> r0 ∧ held am l r0 am').
Proof.
  apply emits_of_log; [apply only_method, sends_hold|]. intros w l. unfold method.
  pose proof (HoldAddress_trace am w l) as Hh. unfold wp in Hh.
  destruct (HoldAddress (am, (w, l))) as [r [am' [w' l1]]]. cbn [fst snd] in *. destruct Hh as (l' & E & Hh). cbn. eauto 6.
Qed.
Lemma emits_release am :
  emits C (ignored (method am ReleaseAddress) : io LW unit)
    (λ r l, if am_tryRelease am then ∃ r0, l = [Event (AddressesDelete (am_name am) (am_region am)) r0] else l = []).
Proof.
  apply emits_of_log; [apply only_ignored, only_method, sends_release|].
  intros w l. unfold ignored, method, ReleaseAddress. rewrite io_bind_eq. unfold try. rewrite io_bind_eq. cbn [receiver fst].
  destruct (am_tryRelease am); cbn [negb]; [|exists []; by rewrite app_nil_r].
  rewrite io_bind_eq. unfold try, on_snd. cbn [fst snd]. clients. rewrite logged_exec. destruct (exec _ w) as [r w'].
  exists [Event (AddressesDelete (am_name am) (am_region am)) r]. destruct r as [|e|]; cbn; [|destruct (isNotFound e)|]; cbn; eauto.
Qed.
End manager.

Section scope.
Context {W : Type} (C : Compute W) `{MapOrder} `{Sha1}.
Variables (g : gceConfig) (clusterID : string) (svc : Service).
#[local] Existing Instance logged.
Abbreviation LW := (W * list event)%type.

Abbreviation lb := (GetLoadBalancerName svc).
Abbreviation bs := (ilbBackendService clusterID svc).
Abbreviation hcn := (ilbHealthCheck clusterID svc).
Abbreviation ig := (makeInstanceGroupName clusterID).
Abbreviation hcFirewall := (makeHealthCheckFirewallName lb clusterID (negb (RequestsOnlyLocalTraffic svc))).

(** What [ensureInternalLoadBalancer] may do, the address apart. *)
Definition ensureScope (e : event) : Prop :=
  match e with Event c _ =>
    match c with
    | ForwardingRulesInsert n r _ | ForwardingRulesDelete n r => n = lb ∧ r = g_region g
    | BackendServicesInsert n r _ | BackendServicesUpdate n r _ => n = bs ∧ r = g_region g
    | BackendServicesDelete n r => n ≠ bs ∧ r = g_region g
    | HealthChecksInsert n _ | HealthChecksUpdate n _ => n = hcn
    | HealthChecksDelete n => n ≠ hcn
    | FirewallsInsert n _ | FirewallsPatch n _ => n = MakeFirewallName lb ∨ n = hcFirewall
    | FirewallsDelete n => n = lb ∨ ∃ other, other ≠ hcn ∧ n = makeHealthCheckFirewallNameFromHC other
    | InstanceGroupsInsert n _ | InstanceGroupsAddInstances n _ _ | InstanceGroupsRemoveInstances n _ _ => n = ig
    | ServicesPatchFinalizers ns n old new =>
        ns = svc_Namespace svc ∧ n = svc_Name svc ∧ old = svc_Finalizers svc ∧ new = svc_Finalizers svc ++ [ILBFinalizerV1]
    | RecordEvent ns n _ _ => ns = svc_Namespace svc ∧ n = svc_Name svc
    | c => isRead c = true
    end
  end.

(** What [ensureInternalLoadBalancerDeleted] may do: the shared resources are
    deleted only as the API allows it, by name. *)
Definition deleteScope (e : event) : Prop :=
  match e with Event c _ =>
    match c with
    | AddressesDelete n r | ForwardingRulesDelete n r => n = lb ∧ r = g_region g
    | BackendServicesDelete n r => n = bs ∧ r = g_region g
    | HealthChecksDelete n => n = hcn
    | FirewallsDelete n => n = MakeFirewallName lb ∨ n = lb ∨ n = makeHealthCheckFirewallNameFromHC hcn
    | InstanceGroupsDelete n _ => n = ig
    | ServicesPatchFinalizers ns n old new =>
        ns = svc_Namespace svc ∧ n = svc_Name svc ∧ old = svc_Finalizers svc ∧ new = removeString (svc_Finalizers svc) ILBFinalizerV1
    | RecordEvent ns n _ _ => ns = svc_Namespace svc ∧ n = svc_Name svc
    | c => isRead c = true
    end
  end.

(** The parts of it. *)
Definition groupScope (e : event) : Prop :=
  match e with Event c _ => match c with
    | InstanceGroupsInsert n _ | InstanceGroupsAddInstances n _ _ | InstanceGroupsRemoveInstances n _ _ => n = ig
    | c => isRead c = true end end.
Definition checkScope (e : event) : Prop :=
  match e with Event c _ => match c with HealthChecksInsert n _ | HealthChecksUpdate n _ => n = hcn | c => isRead c = true end end.
Definition backendScope (e : event) : Prop :=
  match e with Event c _ => match c with BackendServicesInsert n r _ | BackendServicesUpdate n r _ => n = bs ∧ r = g_region g | c => isRead c = true end end.
Definition ruleScope (e : event) : Prop :=
  match e with Event c _ => match c with ForwardingRulesInsert n r _ | ForwardingRulesDelete n r => n = lb ∧ r = g_region g | c => isRead c = true end end.
Definition firewallScope (e : event) : Prop :=
  match e with Event c _ => match c with
    | FirewallsInsert n _ | FirewallsPatch n _ => n = MakeFirewallName lb ∨ n = hcFirewall
    | FirewallsDelete n => n = lb
    | RecordEvent ns n _ _ => ns = svc_Namespace svc ∧ n = svc_Name svc
    | c => isRead c = true end end.
Definition clearScope (e : event) : Prop :=
  match e with Event c _ => match c with
    | BackendServicesDelete n r => n ≠ bs ∧ r = g_region g
    | HealthChecksDelete n => n ≠ hcn
    | FirewallsDelete n => ∃ other, other ≠ hcn ∧ n = makeHealthCheckFirewallNameFromHC other
    | RecordEvent ns n _ _ => ns = svc_Namespace svc ∧ n = svc_Name svc
    | c => isRead c = true end end.

Lemma widen {St A} `{HasLog W St} (φ ψ : event → Prop) (m : io St A) : only C φ m → (∀ e, φ e → ψ e) → only C ψ m.
Proof. intros Hm Hφ. eapply emits_weaken; [exact Hm|]. intros r l Hl. cbn in *. eapply Forall_impl; [exact Hl|exact Hφ]. Qed.
Lemma group_ensure e : groupScope e → ensureScope e.
Proof. destruct e as [A c r]. by destruct c. Qed.
Lemma check_ensure e : checkScope e → ensureScope e.
Proof. destruct e as [A c r]. by destruct c. Qed.
Lemma backend_ensure e : backendScope e → ensureScope e.
Proof. destruct e as [A c r]. by destruct c. Qed.
Lemma rule_ensure e : ruleScope e → ensureScope e.
Proof. destruct e as [A c r]. by destruct c. Qed.
Lemma firewall_ensure e : firewallScope e → ensureScope e.
Proof. destruct e as [A c r]. destruct c; try done. by left. Qed.
Lemma clear_ensure e : clearScope e → ensureScope e.
Proof. destruct e as [A c r]. destruct c; try done. by right. Qed.

Lemma groupScope_reads A (c : Call A) r : isRead c = true → groupScope (Event c r).
Proof. by destruct c. Qed.
Lemma firewallScope_reads A (c : Call A) r : isRead c = true → firewallScope (Event c r).
Proof. by destruct c. Qed.
Lemma ensureScope_reads A (c : Call A) r : isRead c = true → ensureScope (Event c r).
Proof. by destruct c. Qed.
Lemma deleteScope_reads A (c : Call A) r : isRead c = true → deleteScope (Event c r).
Proof. by destruct c. Qed.
Hint Resolve ensureScope_reads deleteScope_reads : trace.

(** *** Deletion *)
Lemma only_deleteInZones zones : only C deleteScope (deleteInZones ig zones : io LW unit).
Proof. induction zones as [|z zones IH]; cbn; [emit_steps|]. clients. emit_steps; done. Qed.

Lemma deletion_scope : only C deleteScope (ensureInternalLoadBalancerDeleted g clusterID svc : io (lbState * LW) unit).
Proof.
  unfold ensureInternalLoadBalancerDeleted. cbv zeta. destruct (getPortsAndProtocol (svc_Ports svc)) as [[ports ranges] protocol] eqn:Ep.
  unfold teardownInternalBackendService, deleteFirewallOrRaise, teardownInternalHealthCheckAndFirewall, ensureInternalInstanceGroupsDeleted, deleteFirewallOrRaise.
  clients. emit_steps; try apply only_deleteInZones; cbn; auto.
  unfold ilbBackendService. by rewrite Ep.
Qed.

(** *** Creation *)
Lemma only_ensureInternalInstanceGroup zone nodes : only C groupScope (ensureInternalInstanceGroup g ig zone nodes : io LW string).
Proof. unfold ensureInternalInstanceGroup. clients. emit_steps; done. Qed.
Lemma only_ensureZoneGroups zones links : only C groupScope (ensureZoneGroups g ig zones links : io LW _).
Proof.
  revert links. induction zones as [|[z nodes] zones IH]; intros links; cbn; [emit_steps|].
  emit_steps; [apply only_ensureInternalInstanceGroup|apply IH].
Qed.
Lemma only_ensureInternalInstanceGroups nodes : only C groupScope (ensureInternalInstanceGroups g ig nodes : io LW _).
Proof. unfold ensureInternalInstanceGroups. emit_steps; [apply only_groupsOfZones; apply groupScope_reads|apply only_ensureZoneGroups]. Qed.

(** One firewall and the legacy one. *)
Definition oneFirewall (name legacy : string) (e : event) : Prop :=
  match e with Event c _ => match c with
    | FirewallsInsert n _ | FirewallsPatch n _ => n = name
    | FirewallsDelete n => n = legacy ∧ legacy ≠ EmptyString
    | RecordEvent ns n _ _ => ns = svc_Namespace svc ∧ n = svc_Name svc
    | c => isRead c = true end end.
Lemma oneFirewall_reads name legacy A (c : Call A) r : isRead c = true → oneFirewall name legacy (Event c r).
Proof. by destruct c. Qed.

Lemma only_raiseOrFail φ cmd r : (∀ r reason msg, φ (Event (RecordEvent (svc_Namespace svc) (svc_Name svc) reason msg) r)) →
  only C φ (raiseOrFail g svc cmd r : io (lbState * LW) unit).
Proof. intros Hφ. unfold raiseOrFail, sortedTags. clients. emit_steps; apply Hφ. Qed.

Lemma only_applyFirewall legacy expected existing :
  only C (oneFirewall (fw_Name expected) legacy) (applyFirewall g svc expected existing : io (lbState * LW) unit).
Proof. unfold applyFirewall. clients. emit_steps; try done; by apply only_raiseOrFail. Qed.
Lemma only_ensureInternalFirewall name desc ip src ports protocol nodes legacy :
  only C (oneFirewall name legacy) (ensureInternalFirewall g svc name desc ip src ports protocol nodes legacy : io (lbState * LW) unit).
Proof.
  unfold ensureInternalFirewall. cbv zeta. clients.
  emit_step; [emit_step; apply only_GetNodeTags; apply oneFirewall_reads|]. emit_step; [by emit_steps|]. case_bool_decide.
  - apply emits_ret_bind. emit_steps. apply (only_applyFirewall legacy (expectedFirewall g name _ _ _ _ _ _)).
  - emit_step; [by emit_steps|]. emit_steps; [apply (only_applyFirewall legacy (expectedFirewall g name _ _ _ _ _ _))|done].
Qed.

Lemma only_ensureInternalFirewalls ip port nodes :
  only C firewallScope (ensureInternalFirewalls g lb ip clusterID (namespacedName svc) svc port (negb (RequestsOnlyLocalTraffic svc)) nodes : io (lbState * LW) unit).
Proof.
  unfold ensureInternalFirewalls. emit_steps; (eapply widen; [apply only_ensureInternalFirewall|]); intros [A c r]; destruct c; cbn; naive_solver.
Qed.

Lemma only_ensureInternalHealthCheck nm shared path port : only C checkScope (ensureInternalHealthCheck hcn nm shared path port : io LW _).
Proof. unfold ensureInternalHealthCheck. cbv zeta. clients. emit_steps; done. Qed.

Lemma only_ensureInternalBackendService desc aff scheme protocol links link :
  only C backendScope (ensureInternalBackendService g bs desc aff scheme protocol links link : io LW _).
Proof. unfold ensureInternalBackendService. cbv zeta. clients. emit_steps; done. Qed.

Lemma only_clearPrevious existing : only C clearScope (clearPreviousInternalResources g svc existing bs hcn : io LW unit).
Proof.
  unfold clearPreviousInternalResources, teardownInternalBackendService, teardownInternalHealthCheckAndFirewall, deleteFirewallOrRaise.
  clients. emit_steps; try done; propify; cbn; eauto.
Qed.

Lemma only_assemble existingFwdRule nodes options links existing hc hcPort newFwdRule :
  fr_Name newFwdRule = lb →
  only C ensureScope (assembleInternal g clusterID svc existingFwdRule nodes options bs links existing hc hcn hcPort newFwdRule : io (lbState * LW) _).
Proof.
  intros Hn. unfold assembleInternal, ensureInternalForwardingRule. cbv zeta. clients.
  emit_steps; try done;
    [eapply widen; [apply only_ensureInternalBackendService|apply backend_ensure]
    |eapply widen; [apply only_ensureInternalFirewalls|apply firewall_ensure]
    |eapply widen; [apply only_clearPrevious|apply clear_ensure]].
Qed.

(** A reservation is given back by the last call, unless its own result could
    not be read. *)
Definition released (l : list event) : Prop :=
  Exists isReserved l →
  (∃ l1 r0, l = l1 ++ [Event (AddressesDelete lb (g_region g)) r0]) ∨
  (∃ l1 r0, l = l1 ++ [Event (AddressesGet lb (g_region g)) r0] ∧ ¬ is_ret r0).
Definition inScope (l : list event) : Prop := Forall (λ e, ensureScope e ∨ addressScope lb (g_region g) e) l ∧ released l.

Lemma scope_free l : Forall ensureScope l → ¬ Exists isReserved l.
Proof.
  intros Hl Hr. apply Exists_exists in Hr as (e & Hin & He). eapply Forall_forall in Hl; [|exact Hin].
  destruct e as [A c r]. by destruct c.
Qed.
Lemma inScope_of l : Forall ensureScope l → inScope l.
Proof. intros Hl. split; [by eapply Forall_impl; [exact Hl|]; left|]. intros Hr. by destruct (scope_free l Hl). Qed.
Lemma inScope_app l1 l2 : Forall ensureScope l1 → inScope l2 → inScope (l1 ++ l2).
Proof.
  intros H1 [H2 Hr]. split; [apply Forall_app; split; [by eapply Forall_impl; [exact H1|]; left|done]|].
  intros [He|He]%Exists_app; [by destruct (scope_free l1 H1)|].
  destruct (Hr He) as [(k & r0 & ->)|(k & r0 & -> & Hn)]; [left|right]; exists (l1 ++ k), r0; by rewrite app_assoc.
Qed.
(** Steps in scope, and the rest. *)
Lemma emits_inScope {A B} (m : io (lbState * LW) A) (f : A → io (lbState * LW) B) :
  only C ensureScope m → (∀ a, emits C (f a) (λ _ l, inScope l)) → emits C (m ≫= f) (λ _ l, inScope l).
Proof.
  intros Hm Hf. apply (emits_bind m f _ (λ _ _ l, inScope l) _ Hm Hf); [intros; by apply inScope_app|intros; by apply inScope_of..].
Qed.

(** The address is held around [m]. *)
Lemma emits_around {A} am (m : string → io (lbState * LW) A) :
  am_name am = lb → am_region am = g_region g → am_tryRelease am = true → (∀ ip, only C ensureScope (m ip)) →
  emits C ('(ip, am) ← on_snd (method am HoldAddress); finally (m ip) (on_snd (ignored (method am ReleaseAddress)))) (λ _ l, inScope l).
Proof.
  intros En Er Et Hm.
  apply (emits_bind _ _ (λ r l, ∃ r0 am', r = (λ a, (a, am')) <$> r0 ∧ held am l r0 am')
    (λ x r l, ∃ l1 l2, l = l1 ++ l2 ∧ Forall ensureScope l1 ∧
       if am_tryRelease x.2 then ∃ r0, l2 = [Event (AddressesDelete (am_name x.2) (am_region x.2)) r0] else l2 = [])).
  - apply emits_on_snd, emits_hold.
  - intros [ip am']. eapply emits_finally; [apply Hm|apply emits_on_snd, emits_release|]. intros r r' l1 l2 H1 H2. exists l1, l2. auto.
  - intros [ip am'] r k l (r0 & am1 & Er0 & E1 & E2 & Hs & Hres) (l1 & l2 & -> & Hl1 & Hl2). rewrite En, Er in *.
    destruct r0 as [ip0| |]; simplify_eq/=. rewrite E1, E2 in Hl2. split.
    + rewrite !Forall_app. split; [by eapply Forall_impl; [exact Hs|]; right|]. split; [by eapply Forall_impl; [exact Hl1|]; left|].
      destruct (am_tryRelease am1); [destruct Hl2 as [? ->]; constructor; [by right|constructor]|by subst].
    + intros He. rewrite !Exists_app in He. destruct (am_tryRelease am1) eqn:Et'.
      * left. destruct Hl2 as [r1 ->]. exists (k ++ l1), r1. by rewrite app_assoc.
      * exfalso. subst l2. destruct He as [He|[He|He]]; [|by destruct (scope_free l1 Hl1)|by inversion He].
        destruct (Hres He). congruence.
  - intros e l (r0 & am1 & Er0 & E1 & E2 & Hs & Hres). rewrite En, Er in *. destruct r0; simplify_eq/=. split; [by eapply Forall_impl; [exact Hs|]; right|].
    intros He. right. apply Hres, He.
  - intros l (r0 & am1 & Er0 & E1 & E2 & Hs & Hres). rewrite En, Er in *. destruct r0; simplify_eq/=. split; [by eapply Forall_impl; [exact Hs|]; right|].
    intros He. right. apply Hres, He.
Qed.

Lemma resources_scope existingFwdRule nodes : emits C (ensureInternalResources g clusterID svc existingFwdRule nodes : io (lbState * LW) _) (λ _ l, inScope l).
Proof.
  unfold ensureInternalResources. cbv zeta. destruct (getPortsAndProtocol (svc_Ports svc)) as [[ports ranges] protocol] eqn:Ep.
  destruct (_ && _); [apply emits_fail; by apply inScope_of|].
  apply emits_inScope; [clients; by emit_steps|intros options].
  apply emits_inScope; [emit_steps; eapply widen; [apply only_ensureInternalInstanceGroups|apply group_ensure]|intros links].
  apply emits_inScope; [clients; by emit_steps|intros existing].
  destruct (if negb (RequestsOnlyLocalTraffic svc) then _ else _) as [hcPath hcPort].
  apply emits_inScope; [emit_steps; eapply widen; [apply only_ensureInternalHealthCheck|apply check_ensure]|intros hc].
  assert (makeBackendServiceName lb clusterID (shareBackendService svc) SchemeInternal protocol (svc_SessionAffinity svc) = bs) as ->
    by (unfold ilbBackendService; by rewrite Ep).
  destruct (g_isLegacyNetwork g).
  - eapply emits_weaken; [apply only_assemble; unfold newForwardingRule; by rewrite Ep|]. intros r l. apply inScope_of.
  - apply emits_around; [done..|]. intros ip. apply only_assemble. unfold newForwardingRule. by rewrite Ep.
Qed.

(** The finalizer is attached before anything else is asked for. *)
Definition finalizerFirst (l : list event) : Prop :=
  hasFinalizer svc ILBFinalizerV1 = true ∨ l = [] ∨
  ∃ r0 l', l = Event (ServicesPatchFinalizers (svc_Namespace svc) (svc_Name svc) (svc_Finalizers svc) (svc_Finalizers svc ++ [ILBFinalizerV1])) r0 :: l' ∧
    (r0 ≠ Ret tt → l' = []).

Lemma ensure_trace existingFwdRule nodes :
  emits C (ensureInternalLoadBalancer g clusterID svc existingFwdRule nodes : io (lbState * LW) _) (λ _ l, inScope l ∧ finalizerFirst l).
Proof.
  unfold ensureInternalLoadBalancer. destruct (_ && _); [apply emits_fail; split; [by apply inScope_of|right; by left]|].
  apply (emits_deferring _ _ _ (λ _ l, inScope l ∧ finalizerFirst l) (λ _ _ l, l = [])).
  - apply (emits_bind _ _ (λ r l, Forall ensureScope l ∧ (hasFinalizer svc ILBFinalizerV1 = true ∨
      l = [Event (ServicesPatchFinalizers (svc_Namespace svc) (svc_Name svc) (svc_Finalizers svc) (svc_Finalizers svc ++ [ILBFinalizerV1])) r]))
      (λ _ _ l, inScope l)).
    + do 2 apply emits_on_snd. unfold addFinalizer. destruct (hasFinalizer svc ILBFinalizerV1) eqn:E; [apply emits_ret; auto|].
      apply emits_exec. intros r. split; [by repeat constructor|]. by right.
    + intros []. apply (emits_bind _ _ (λ _ l, inScope l) (λ _ _ l, l = [])); [apply emits_on_snd, resources_scope| | |done|done].
      * intros [ip state]. apply (emits_bind _ _ (λ _ l, l = []) (λ _ _ l, l = [])); [by apply emits_put|intros ?; by apply emits_ret|by intros ????-> ->|done|done].
      * intros a r l1 l2 Hl ->. by rewrite app_nil_r.
    + intros [] r l1 l2 [Hs Hf] Hl. split; [by apply inScope_app|]. destruct Hf as [Hf| ->]; [by left|]. right. right. do 2 eexists. split; [reflexivity|naive_solver].
    + intros e l [Hs Hf]. split; [by apply inScope_of|]. destruct Hf as [Hf| ->]; [by left|]. right. right. do 2 eexists. split; [reflexivity|naive_solver].
    + intros l [Hs Hf]. split; [by apply inScope_of|]. destruct Hf as [Hf| ->]; [by left|]. right. right. do 2 eexists. split; [reflexivity|naive_solver].
  - intros state. by apply emits_put.
  - intros st r r' l1 l2 HP ->. by rewrite app_nil_r.
Qed.
End scope.

(** *** The traces *)


(** A patch in a trace that ends with one. *)
Lemma patch_position l l1 A (c : Call A) r0 l2 k :
  Forall noPatch k → isPatch c = true → l = l1 ++ Event c r0 :: l2 →
  (l = k → False) ∧ (∀ e, l = k ++ [e] → l1 = k ∧ l2 = [] ∧ e = Event c r0).
Proof.
  intros Hk Hc ->. split.
  - intros <-. rewrite Forall_app, Forall_cons in Hk. cbn in Hk. rewrite Hc in Hk. naive_solver.
  - intros e. revert l1. induction k as [|e' k IH]; intros [|e1 l1] E; cbn in E.
    + by injection E as <- ->.
    + injection E as _ E. by destruct l1.
    + injection E as <- _. apply Forall_cons in Hk as [Hp _]. cbn in Hp. congruence.
    + injection E as -> E. apply Forall_cons in Hk as [_ Hk]. by destruct (IH Hk l1 E) as (-> & -> & ->).
Qed.

