(* ===== verification/LbStore.v ===== *)
(** * LbStore: what the load balancers rely on in the compute API

    [LbStore]: the tables of forwarding rules, backend services, health checks,
    firewalls and instance groups behind the calls.  A call that is refused
    changes nothing, a created object is the one that was sent, with the fields
    the API fills in, and a getter answers from the table.  [ok] is the logic of
    runs that return: what holds of the world before and after.  Last, the names
    of the resources do not collide. *)
From S2P Require Import Prelude Bits GoNet GoNetText K8s GceInstances NetUtils GoStrings IoLogic AddressManager LoadBalancer GceHosts ComputeCalls ClusterId InternalLb Goroutines ExternalLb LbLogic.
Local Open Scope Z_scope.

(** ** Tables *)
Definition set_IPAddress (ip : string) (r : ForwardingRule) : ForwardingRule :=
  mkFwd (fr_Name r) (fr_Description r) ip (fr_BackendService r) (fr_Target r) (fr_Ports r) (fr_AllPorts r) (fr_PortRange r) (fr_IPProtocol r)
    (fr_LoadBalancingScheme r) (fr_Subnetwork r) (fr_Network r) (fr_AllowGlobalAccess r) (fr_NetworkTier r).
Definition set_SelfLink (link : string) (hc : HealthCheck) : HealthCheck :=
  mkHC (hc_Name hc) (hc_CheckIntervalSec hc) (hc_TimeoutSec hc) (hc_HealthyThreshold hc) (hc_UnhealthyThreshold hc) (hc_Http hc) (hc_Type hc) (hc_Description hc) link.

Abbreviation key := (string * string)%type.

(** A getter answers from the table, and changes nothing. *)
Definition answers {K V} `{Countable K} (t t' : gmap K V) (k : K) (r : outcome V) : Prop :=
  t' = t ∧ match r with Ret v => t !! k = Some v | Err e => isNotFound e = true → t !! k = None | Panic => True end.
(** A change is made when the call succeeds. *)
Definition changes {T} (t t' : T) (r : outcome unit) (P : T → Prop) : Prop := match r with Ret _ => P t' | _ => t' = t end.

Definition rulesAfter {A} (c : Call A) (t t' : gmap key ForwardingRule) : outcome A → Prop :=
  match c in Call A return outcome A → Prop with
  | ForwardingRulesInsert n rg x => λ r, changes t t' r (λ t', ∃ ip, (fr_IPAddress x ≠ EmptyString → ip = fr_IPAddress x) ∧ t' = <[ (n, rg) := set_IPAddress ip x ]> t)
  | ForwardingRulesDelete n rg => λ r, changes t t' r (λ t', t' = delete (n, rg) t)
  | ForwardingRulesGet n rg => answers t t' (n, rg)
  | _ => λ _, t' = t
  end.
Definition backendsAfter {A} (c : Call A) (t t' : gmap key BackendService) : outcome A → Prop :=
  match c in Call A return outcome A → Prop with
  | BackendServicesInsert n rg x | BackendServicesUpdate n rg x => λ r, changes t t' r (λ t', ∃ f, t' = <[ (n, rg) := set_Fingerprint f x ]> t)
  | BackendServicesDelete n rg => λ r, changes t t' r (λ t', t' = delete (n, rg) t)
  | BackendServicesGet n rg => answers t t' (n, rg)
  | _ => λ _, t' = t
  end.
Definition checksAfter {A} (c : Call A) (t t' : gmap string HealthCheck) : outcome A → Prop :=
  match c in Call A return outcome A → Prop with
  | HealthChecksInsert n x | HealthChecksUpdate n x => λ r, changes t t' r (λ t', ∃ link, t' = <[ n := set_SelfLink link x ]> t)
  | HealthChecksDelete n => λ r, changes t t' r (λ t', t' = delete n t)
  | HealthChecksGet n => answers t t' n
  | _ => λ _, t' = t
  end.
Definition firewallsAfter {A} (c : Call A) (t t' : gmap string Firewall) : outcome A → Prop :=
  match c in Call A return outcome A → Prop with
  | FirewallsInsert n x | FirewallsPatch n x => λ r, changes t t' r (λ t', t' = <[ n := x ]> t)
  | FirewallsDelete n => λ r, changes t t' r (λ t', t' = delete n t)
  | FirewallsGet n => answers t t' n
  | _ => λ _, t' = t
  end.
(** The members of a group by their names. *)
Definition groupsAfter {A} (c : Call A) (t t' : gmap key (gset string)) : outcome A → Prop :=
  match c in Call A return outcome A → Prop with
  | InstanceGroupsInsert n z => λ r, changes t t' r (λ t', t' = <[ (n, z) := ∅ ]> t)
  | InstanceGroupsDelete n z => λ r, changes t t' r (λ t', t' = delete (n, z) t)
  | InstanceGroupsAddInstances n z refs => λ r, changes t t' r (λ t', ∃ s, t !! (n, z) = Some s ∧ t' = <[ (n, z) := s ∪ list_to_set (lastComponent <$> refs) ]> t)
  | InstanceGroupsRemoveInstances n z refs => λ r, changes t t' r (λ t', ∃ s, t !! (n, z) = Some s ∧ t' = <[ (n, z) := s ∖ list_to_set (lastComponent <$> refs) ]> t)
  | InstanceGroupsGet n z => λ r, t' = t ∧ match r with Ret _ => is_Some (t !! (n, z)) | Err e => isNotFound e = true → t !! (n, z) = None | Panic => True end
  | InstanceGroupsListInstances n z => λ r, t' = t ∧ ∀ l, r = Ret l → t !! (n, z) = Some (list_to_set (lastComponent <$> l))
  | _ => λ _, t' = t
  end.

Class LbStore (W : Type) `{Compute W} : Type := {
  rules : W → gmap key ForwardingRule;
  backends : W → gmap key BackendService;
  checks : W → gmap string HealthCheck;
  firewalls : W → gmap string Firewall;
  groups : W → gmap key (gset string);
  rules_step {A} (c : Call A) w r w' : exec c w = (r, w') → rulesAfter c (rules w) (rules w') r;
  backends_step {A} (c : Call A) w r w' : exec c w = (r, w') → backendsAfter c (backends w) (backends w') r;
  checks_step {A} (c : Call A) w r w' : exec c w = (r, w') → checksAfter c (checks w) (checks w') r;
  firewalls_step {A} (c : Call A) w r w' : exec c w = (r, w') → firewallsAfter c (firewalls w) (firewalls w') r;
  groups_step {A} (c : Call A) w r w' : exec c w = (r, w') → groupsAfter c (groups w) (groups w') r
}.

(** ** Runs that return *)
Definition ok {W St A} `{HasLog W St} (I : W → Prop) (m : io St A) (Q : A → W → Prop) : Prop :=
  ∀ s a s', I (worldOf s) → m s = (Ret a, s') → Q a (worldOf s').

Section ok.
Context {W : Type} {St : Type} `{HasLog W St}.
Implicit Types I J : W → Prop.

Lemma ok_weaken {A} I J (m : io St A) (P Q : A → W → Prop) : ok J m P → (∀ w, I w → J w) → (∀ a w, P a w → Q a w) → ok I m Q.
Proof. intros Hm HI HQ s a s' Hi E. eapply HQ, Hm; [by apply HI|exact E]. Qed.
Lemma ok_and {A} I (m : io St A) P Q : ok I m P → ok I m Q → ok I m (λ a w, P a w ∧ Q a w).
Proof. intros H1 H2 s a s' Hi E. split; [by eapply H1|by eapply H2]. Qed.
Lemma ok_pure {A} I (φ : Prop) (m : io St A) Q : (φ → ok I m Q) → ok (λ w, I w ∧ φ) m Q.
Proof. intros Hm s a s' [Hi Hφ] E. by eapply Hm. Qed.
Lemma ok_ret {A} I (a : A) Q : (∀ w, I w → Q a w) → ok I (mret a : io St A) Q.
Proof. intros HQ s b s' Hi [= <- <-]. auto. Qed.
Lemma ok_fail {A} I e Q : ok I (fail e : io St A) Q.
Proof. by intros s b s' Hi [=]. Qed.
Lemma ok_bind {A B} I (m : io St A) (f : A → io St B) P Q : ok I m P → (∀ a, ok (P a) (f a) Q) → ok I (m ≫= f) Q.
Proof. intros Hm Hf s b s' Hi (a & s1 & E1 & E2)%io_bind_Ret. exact (Hf a s1 b s' (Hm s a s1 Hi E1) E2). Qed.
Lemma ok_on_snd {S A} I (m : io St A) Q : ok I m Q → ok I (on_snd m : io (S * St) A) Q.
Proof. intros Hm [s w] a [s' w'] Hi. unfold on_snd. cbn. destruct (m w) as [r w1] eqn:E. intros [= -> <- <-]. exact (Hm w a w1 Hi E). Qed.
Lemma ok_finally {A} (C : Compute W) φ I (m : io St A) d Q :
  ok I m Q → emits C d (λ _ l, Forall φ l) →
  (∀ a B (c : Call B) w r w', φ (Event c r) → exec c w = (r, w') → Q a w → Q a w') → ok I (finally m d) Q.
Proof.
  intros Hm Hd Hφ s a s' Hi. unfold finally. destruct (m s) as [r s1] eqn:E. destruct (Hd s1) as (l & _ & R & Hl). destruct (d s1) as [r' s2].
  intros HE. assert (r = Ret a ∧ s2 = s') as [-> ->] by (by destruct r'; simplify_eq).
  eapply (replay_keeps C φ (Q a)); [apply Hφ|exact R|exact Hl|]. by eapply Hm.
Qed.
(** A run whose calls keep [I]. *)
Lemma ok_keeps {A} (C : Compute W) φ I (m : io St A) :
  emits C m (λ _ l, Forall φ l) → (∀ B (c : Call B) w r w', φ (Event c r) → exec c w = (r, w') → I w → I w') → ok I m (λ _, I).
Proof. intros Hm Hφ s a s' Hi E. destruct (emits_run _ _ _ _ _ Hm E) as (l & _ & R & Hl). by eapply replay_keeps. Qed.
Lemma ok_frame {A} (C : Compute W) φ I J (m : io St A) Q :
  ok I m Q → emits C m (λ _ l, Forall φ l) → (∀ B (c : Call B) w r w', φ (Event c r) → exec c w = (r, w') → J w → J w') →
  ok (λ w, I w ∧ J w) m (λ a w, Q a w ∧ J w).
Proof.
  intros Hm He Hφ. apply ok_and; [eapply ok_weaken; [exact Hm|naive_solver|done]|].
  eapply ok_weaken; [by eapply ok_keeps|naive_solver|done].
Qed.
End ok.

Lemma ok_exec {W A} (C : Compute W) (c : Call A) (I : W → Prop) (Q : A → W → Prop) :
  (∀ w a w', I w → exec c w = (Ret a, w') → Q a w') → ok I (@exec _ (logged C) A c) Q.
Proof. intros HQ [w l] a [w' l'] Hi. rewrite logged_exec. destruct (@exec W C A c w) as [r w1] eqn:E. intros [= -> <- <-]. eauto. Qed.
Lemma ok_optional {W A} (C : Compute W) (c : Call A) (I : W → Prop) (Q : option A → W → Prop) :
  (∀ w a w', I w → exec c w = (Ret a, w') → Q (Some a) w') →
  (∀ w e w', I w → exec c w = (Err e, w') → isNotFound e = true → Q None w') →
  ok I (optional (@exec _ (logged C) A c)) Q.
Proof.
  intros H1 H2 [w l] a [w' l'] Hi. unfold optional. rewrite io_bind_eq. unfold try. rewrite logged_exec.
  destruct (@exec W C A c w) as [[b|e|] w1] eqn:E; [| |done].
  - intros [= <- <- <-]. eauto.
  - destruct (isNotFound e) eqn:En; [|done]. intros [= <- <- <-]. eauto.
Qed.

Lemma deferring_Ret {S L A} (l : L) (m : io (L * S) A) d s a s' : deferring l m d s = (Ret a, s') →
  ∃ l' s1 r', m (l, s) = (Ret a, (l', s1)) ∧ d l' s1 = (r', s').
Proof.
  unfold deferring. destruct (m (l, s)) as [r [l' s1]]. destruct (d l' s1) as [r' s2] eqn:Ed. intros E.
  exists l', s1, r'. destruct r'; simplify_eq; done.
Qed.

(** ** Entries a call leaves alone *)
Definition touchedRule {A} (c : Call A) : option key :=
  match c with ForwardingRulesInsert n r _ | ForwardingRulesDelete n r => Some (n, r) | _ => None end.
Definition touchedBackend {A} (c : Call A) : option key :=
  match c with BackendServicesInsert n r _ | BackendServicesUpdate n r _ | BackendServicesDelete n r => Some (n, r) | _ => None end.
Definition touchedCheck {A} (c : Call A) : option string :=
  match c with HealthChecksInsert n _ | HealthChecksUpdate n _ | HealthChecksDelete n => Some n | _ => None end.
Definition touchedFirewall {A} (c : Call A) : option string :=
  match c with FirewallsInsert n _ | FirewallsPatch n _ | FirewallsDelete n => Some n | _ => None end.

Section kept.
Context {W : Type} {C : Compute W} `{!LbStore W}.
Ltac kept := repeat match goal with
  | H : answers _ _ _ _ |- _ => destruct H as [-> _]
  | H : changes _ _ ?r _ |- _ => destruct r as [[]| |]; cbn in H
  | H : ∃ _, _ |- _ => destruct H as [? H]
  | H : _ ∧ _ |- _ => destruct H as [? H]
  end.
Lemma rules_kept {A} (c : Call A) w r w' k : exec c w = (r, w') → touchedRule c ≠ Some k → rules w' !! k = rules w !! k.
Proof.
  intros E%rules_step Hk. destruct c; cbn in *; kept; try congruence; subst; try done; try (rewrite E; apply lookup_insert_ne || apply lookup_delete_ne); naive_solver.
Qed.
Lemma backends_kept {A} (c : Call A) w r w' k : exec c w = (r, w') → touchedBackend c ≠ Some k → backends w' !! k = backends w !! k.
Proof.
  intros E%backends_step Hk. destruct c; cbn in *; kept; try congruence; subst; try done; try (rewrite E; apply lookup_insert_ne || apply lookup_delete_ne); naive_solver.
Qed.
Lemma checks_kept {A} (c : Call A) w r w' k : exec c w = (r, w') → touchedCheck c ≠ Some k → checks w' !! k = checks w !! k.
Proof.
  intros E%checks_step Hk. destruct c; cbn in *; kept; try congruence; subst; try done; try (rewrite E; apply lookup_insert_ne || apply lookup_delete_ne); naive_solver.
Qed.
Lemma firewalls_kept {A} (c : Call A) w r w' k : exec c w = (r, w') → touchedFirewall c ≠ Some k → firewalls w' !! k = firewalls w !! k.
Proof.
  intros E%firewalls_step Hk. destruct c; cbn in *; kept; try congruence; subst; try done; try (rewrite E; apply lookup_insert_ne || apply lookup_delete_ne); naive_solver.
Qed.
End kept.

(** ** Names: the names of the resources do not collide

    The name of a load balancer is a letter and then no dash, so that the names
    built from it by prefixes and suffixes are told apart. *)

Lemma remove_char_none c s : has_char c (remove_char c s) = false.
Proof. induction s as [|d s IH]; cbn; [done|]. case_decide; [done|]. cbn. rewrite IH, orb_false_r. by case_bool_decide. Qed.
Lemma substring_none c n s : has_char c s = false → has_char c (String.substring 0 n s) = false.
Proof. revert n. induction s as [|d s IH]; intros [|n]; cbn; try done. intros [H1 H2]%orb_false_iff. rewrite H1. by apply IH. Qed.

Lemma lbName_shape svc : ∃ t, GetLoadBalancerName svc = String (chr 97) t ∧ has_char dash (GetLoadBalancerName svc) = false.
Proof.
  unfold GetLoadBalancerName, DefaultLoadBalancerName. eexists. split; [|apply substring_none, remove_char_none]. reflexivity.
Qed.

(** What follows the last separator. *)
Lemma after_dash_inj s s' t t' : has_char dash t = false → has_char dash t' = false → (s +:+ String dash t = s' +:+ String dash t')%string → t = t'.
Proof.
  intros Ht Ht' E. destruct (split_after dash s t Ht) as (l & E1 & _), (split_after dash s' t' Ht') as (l' & E2 & _).
  rewrite E, E2 in E1. by apply app_inj_tail in E1 as [_ ->].
Qed.

Lemma firewallName_not_check svc other : MakeFirewallName (GetLoadBalancerName svc) ≠ makeHealthCheckFirewallNameFromHC other.
Proof.
  destruct (lbName_shape svc) as (t & E & Hd). intros Heq.
  cut (GetLoadBalancerName svc = "hc"%string); [by rewrite E|]. by apply (after_dash_inj "k8s-fw" other).
Qed.
Lemma firewallName_not_legacy svc : MakeFirewallName (GetLoadBalancerName svc) ≠ GetLoadBalancerName svc.
Proof. intros Heq. destruct (lbName_shape svc) as (t & E & _). rewrite <- Heq in E. discriminate E. Qed.
Lemma checkFirewall_name lb clusterID shared :
  makeHealthCheckFirewallName lb clusterID shared = makeHealthCheckFirewallNameFromHC (makeHealthCheckName lb clusterID shared).
Proof.
  unfold makeHealthCheckFirewallName, makeHealthCheckFirewallNameFromHC, makeHealthCheckName. destruct shared; [|done].
  by rewrite !string_app_assoc.
Qed.
Lemma append_inj_r (a b t : string) : (a +:+ t = b +:+ t)%string → a = b.
Proof.
  revert b. induction a as [|c a IH]; intros [|d b] E; [done| | |].
  - apply (f_equal String.length) in E. rewrite !string_length_app in E. exfalso. revert E. change (String.length (String d b)) with (S (String.length b)). cbn. lia.
  - apply (f_equal String.length) in E. rewrite !string_length_app in E. exfalso. revert E. change (String.length (String c a)) with (S (String.length a)). cbn. lia.
  - injection E as -> E. f_equal. auto.
Qed.
Lemma checkFirewall_inj a b : makeHealthCheckFirewallNameFromHC a = makeHealthCheckFirewallNameFromHC b → a = b.
Proof. apply append_inj_r. Qed.
