(* ===== verification/InternalLbEnsure.v ===== *)
(** * InternalLbEnsure: a run that succeeds has established the load balancer

    Over any store behind the calls ([LbStore]): what each operation of
    [InternalLb] leaves in its table when it returns, and, together, that a
    successful [ensureInternalLoadBalancer] leaves the forwarding rule, the
    backend service, the health check and the firewalls as the service asks, and
    returns the address of the rule. *)
From S2P Require Import Prelude Bits GoNet GoNetText K8s GceInstances NetUtils GoStrings IoLogic GnpValidations NodeIpamConfig AddressManager NodeAnnotator LoadBalancer GceHosts ComputeCalls ClusterId InternalLb Goroutines ExternalLb LbDispatch LbLogic InternalLbScope LbStore.
Local Open Scope Z_scope.

(** ** Comparisons *)
Lemma equalStringSets_refl l : equalStringSets l l = true.
Proof. unfold equalStringSets. rewrite Nat.eqb_refl. cbn. by apply bool_decide_eq_true. Qed.
Lemma backendsListEqual_refl l : backendsListEqual l l = true.
Proof. unfold backendsListEqual. rewrite Nat.eqb_refl. cbn. destruct (bool_decide (l = [])); [done|]. by apply bool_decide_eq_true. Qed.
Lemma backendSvcEqual_refl f b : backendSvcEqual b (set_Fingerprint f b) = true.
Proof. unfold backendSvcEqual. cbn. rewrite !bool_decide_true by done. by rewrite equalStringSets_refl, backendsListEqual_refl. Qed.
Lemma backendSvcEqual_fingerprint f f' a b : backendSvcEqual a b = true → backendSvcEqual a (set_Fingerprint f (set_Fingerprint f' b)) = true.
Proof. done. Qed.
Lemma bool_decide_refl {A} (x : A) `{!Decision (x = x)} : bool_decide (x = x) = true.
Proof. by apply bool_decide_eq_true. Qed.
Lemma forwardingRulesEqual_served ip r : (fr_IPAddress r ≠ EmptyString → ip = fr_IPAddress r) → forwardingRulesEqual (set_IPAddress ip r) r = true.
Proof.
  intros Hip. unfold forwardingRulesEqual, sameResource. cbn. rewrite !bool_decide_refl, equalStringSets_refl, !andb_true_r.
  destruct (decide (fr_IPAddress r = EmptyString)) as [E|E].
  - rewrite (bool_decide_true (fr_IPAddress r = EmptyString)) by done. by rewrite orb_true_r.
  - rewrite (Hip E), bool_decide_refl. by rewrite !orb_true_r.
Qed.
Lemma firewallRuleEqual_refl a p ports : fw_Allowed a = [(p, ports)] → firewallRuleEqual a a = true.
Proof. intros E. unfold firewallRuleEqual. rewrite E, !bool_decide_true by done. by rewrite !equalStringSets_refl. Qed.

(** Merging keeps the wanted parameters and never lowers a value. *)
Lemma merged_is_current hc e link x : hc_Http e = Some x → needToUpdateHealthChecks (set_SelfLink link (mergeHealthChecks hc e)) e = false.
Proof.
  intros E. unfold needToUpdateHealthChecks, mergeHealthChecks. cbn. rewrite E. destruct x as [port path].
  rewrite Z.eqb_refl, !bool_decide_false by (by intros []). cbn.
  repeat match goal with |- context [if ?a <? ?b then ?b else ?a] => destruct (Z.ltb_spec a b) end.
  all: repeat match goal with |- context [?a <? ?b] => destruct (Z.ltb_spec a b) end; cbn; try done; lia.
Qed.
Lemma created_is_current e link x : hc_Http e = Some x → needToUpdateHealthChecks (set_SelfLink link e) e = false.
Proof.
  intros E. unfold needToUpdateHealthChecks. cbn. rewrite E. destruct x as [port path].
  by rewrite Z.eqb_refl, !bool_decide_false, !Z.ltb_irrefl by (by intros []).
Qed.

Section specs.
Context {W : Type} {C : Compute W} `{!LbStore W} `{MapOrder} `{Sha1}.
Variable g : gceConfig.
#[local] Existing Instance logged.
Abbreviation LW := (W * list event)%type.

(** ** Health checks *)
Lemma ok_getCheck I name : ok I (GetHealthCheck name : io LW _) (λ hc w, checks w !! name = Some hc).
Proof. apply ok_exec. intros w a w' _ E. apply checks_step in E as [-> E]. done. Qed.
Lemma ok_putCheck (I : W → Prop) name x (m : io LW unit) :
  m = exec (HealthChecksInsert name x) ∨ m = exec (HealthChecksUpdate name x) →
  ok I m (λ _ w, ∃ link, checks w !! name = Some (set_SelfLink link x)).
Proof.
  intros [->| ->]; apply ok_exec; intros w [] w' _ E; apply checks_step in E as (link & ->); exists link; apply lookup_insert_eq.
Qed.
Lemma ok_ensureInternalHealthCheck name nm shared path port :
  ok (λ _, True) (ensureInternalHealthCheck name nm shared path port : io LW _)
    (λ hc w, checks w !! name = Some hc ∧ needToUpdateHealthChecks hc (newInternalLBHealthCheck name nm shared path port) = false).
Proof.
  unfold ensureInternalHealthCheck. cbv zeta. set (e := newInternalLBHealthCheck name nm shared path port).
  eapply ok_bind; [apply (ok_optional C _ _ (λ o w, ∀ hc, o = Some hc → checks w !! name = Some hc))|].
  - intros w a w' _ E. apply checks_step in E as [-> E]. by intros ? [= <-].
  - by intros w e' w' _ E _ hc [=].
  - intros [hc|]; [destruct (needToUpdateHealthChecks hc e) eqn:En|].
    + eapply ok_bind; [apply (ok_putCheck _ name (mergeHealthChecks hc e)); by right|]. intros [].
      apply ok_exec. intros w a w' (link & Hl) E. apply checks_step in E as [-> E]. split; [done|]. rewrite Hl in E. injection E as <-.
      by eapply merged_is_current.
    + apply ok_ret. intros w Hw. auto.
    + eapply ok_bind; [apply (ok_putCheck _ name e); by left|]. intros [].
      apply ok_exec. intros w a w' (link & Hl) E. apply checks_step in E as [-> E]. split; [done|]. rewrite Hl in E. injection E as <-.
      by eapply created_is_current.
Qed.

(** ** Backend services *)
Definition expectedBackend (name protocol desc hcLink : string) (links : list string) (affinity scheme : string) : BackendService :=
  mkBS name protocol desc [hcLink] links (translateAffinityType affinity) scheme EmptyString.
Lemma ok_ensureInternalBackendService name desc affinity scheme protocol links hcLink :
  ok (λ _, True) (ensureInternalBackendService g name desc affinity scheme protocol links hcLink : io LW _)
    (λ _ w, ∃ b, backends w !! (name, g_region g) = Some b ∧ backendSvcEqual (expectedBackend name protocol desc hcLink links affinity scheme) b = true).
Proof.
  unfold ensureInternalBackendService. cbv zeta. fold (expectedBackend name protocol desc hcLink links affinity scheme).
  set (e := expectedBackend _ _ _ _ _ _ _).
  eapply ok_bind; [apply (ok_optional C _ _ (λ o w, ∀ b, o = Some b → backends w !! (name, g_region g) = Some b))|].
  - intros w a w' _ E. apply backends_step in E as [-> E]. by intros ? [= <-].
  - by intros w e' w' _ E _ hc [=].
  - intros [b|]; [destruct (backendSvcEqual e b) eqn:En|].
    + apply ok_ret. intros w Hw. eauto.
    + apply ok_exec. intros w [] w' _ E. apply backends_step in E as (f & ->). eexists. split; [apply lookup_insert_eq|].
      apply backendSvcEqual_fingerprint. apply (backendSvcEqual_refl EmptyString).
    + apply ok_exec. intros w [] w' _ E. apply backends_step in E as (f & ->). eexists. split; [apply lookup_insert_eq|]. apply backendSvcEqual_refl.
Qed.

(** ** Forwarding rules *)
Lemma ok_createRule (I : W → Prop) new :
  ok I (ensureInternalForwardingRule g None new : io LW unit)
    (λ _ w, ∃ r, rules w !! (fr_Name new, g_region g) = Some r ∧ forwardingRulesEqual r new = true).
Proof.
  apply ok_exec. intros w [] w' _ E. apply rules_step in E as (ip & Hip & ->). eexists. split; [apply lookup_insert_eq|].
  by apply forwardingRulesEqual_served.
Qed.
End specs.

(** ** Composition: the composition of the internal load balancer

    The steps of [ensureInternalLoadBalancer] put together over a store: each
    leaves alone what the earlier ones have established, because of the names. *)

(** The path and the port of the health check. *)
Definition ilbCheckPathPort (svc : Service) : string * Z :=
  if negb (RequestsOnlyLocalTraffic svc) then (GetNodesHealthCheckPath, GetNodesHealthCheckPort) else GetServiceHealthCheckPathPort svc.

Section ensure.
Context {W : Type} {C : Compute W} `{!LbStore W} `{MapOrder} `{Sha1}.
Variables (g : gceConfig) (clusterID : string) (svc : Service).
Hypothesis NotXPN : g_onXPN g = false.
#[local] Existing Instance logged.
Abbreviation LW := (W * list event)%type.
Abbreviation lb := (GetLoadBalancerName svc).
Abbreviation bs := (ilbBackendService clusterID svc).
Abbreviation hcn := (ilbHealthCheck clusterID svc).
Abbreviation shared := (negb (RequestsOnlyLocalTraffic svc)).
Abbreviation hcFirewall := (makeHealthCheckFirewallName lb clusterID shared).

(** ** Firewalls *)
Lemma ok_checked (I : W → Prop) (m : io (lbState * LW) unit) cmd Q : ok I m Q → ok I (r ← try m; raiseOrFail g svc cmd r) Q.
Proof.
  intros Hm s [] s' Hi (r & s1 & E1 & E2)%io_bind_Ret. apply try_Ret in E1. destruct r as [e|[]].
  - unfold raiseOrFail in E2. rewrite NotXPN, andb_false_r in E2. discriminate.
  - cbn in E2. injection E2 as <-. by eapply Hm.
Qed.

Lemma ok_applyFirewall expected existing p ports :
  fw_Allowed expected = [(p, ports)] →
  ok (λ w, ∀ fw, existing = Some fw → firewalls w !! fw_Name expected = Some fw) (applyFirewall g svc expected existing : io (lbState * LW) unit)
    (λ _ w, ∃ fw, firewalls w !! fw_Name expected = Some fw ∧ firewallRuleEqual expected fw = true).
Proof.
  intros Ha. unfold applyFirewall. destruct existing as [fw|].
  - destruct (firewallRuleEqual expected fw) eqn:E; [apply ok_ret; eauto|]. apply ok_checked, ok_on_snd, ok_exec.
    intros w [] w' _ Ex. apply firewalls_step in Ex. cbn in Ex. rewrite Ex. eexists. split; [apply lookup_insert_eq|]. by eapply firewallRuleEqual_refl.
  - apply ok_checked, ok_on_snd, ok_exec.
    intros w [] w' _ Ex. apply firewalls_step in Ex. cbn in Ex. rewrite Ex. eexists. split; [apply lookup_insert_eq|]. by eapply firewallRuleEqual_refl.
Qed.

Lemma ok_any {A St} `{HasLog W St} (I : W → Prop) (m : io St A) : ok I m (λ _ _, True).
Proof. by intros s a s'. Qed.
(** Calls that only read keep the tables. *)
Lemma firewall_kept_by (φ : event → Prop) k P :
  (∀ B (c : Call B) r, φ (Event c r) → touchedFirewall c ≠ Some k) →
  ∀ B (c : Call B) w r w', φ (Event c r) → exec c w = (r, w') → P (firewalls w !! k) → P (firewalls w' !! k).
Proof. intros Hφ B c w r w' Hc E. by rewrite (firewalls_kept c w r w' k E (Hφ _ _ _ Hc)). Qed.

Definition firewallSet (name desc ip : string) (src ports : list string) (protocol : string) (fw : option Firewall) : Prop :=
  ∃ tags x, fw = Some x ∧ firewallRuleEqual (expectedFirewall g name desc ip src ports protocol tags) x = true.

Lemma ok_firewall name desc ip src ports protocol nodes legacy :
  legacy = EmptyString ∨ legacy ≠ name →
  ok (λ _, True) (ensureInternalFirewall g svc name desc ip src ports protocol nodes legacy : io (lbState * LW) unit)
    (λ _ w, firewallSet name desc ip src ports protocol (firewalls w !! name)).
Proof.
  intros Hl. unfold ensureInternalFirewall. cbv zeta.
  eapply ok_bind; [apply ok_any|intros tags]. set (e := expectedFirewall g name desc ip src ports protocol tags).
  eapply (ok_bind _ _ _ (λ o w, ∀ fw, o = Some fw → firewalls w !! name = Some fw)).
  { apply ok_on_snd, ok_optional.
    - intros w a w' _ E. apply firewalls_step in E as [-> E]. by intros ? [= <-].
    - by intros w e' w' _ E _ fw [=]. }
  intros existing.
  assert (∀ b : bool, (b = true → legacy ≠ name) → ok (λ w, ∀ fw, existing = Some fw → firewalls w !! name = Some fw)
    (finally (applyFirewall g svc e existing) (if b then on_snd (ignored (DeleteFirewall legacy)) else mret tt) : io (lbState * LW) unit)
    (λ _ w, firewallSet name desc ip src ports protocol (firewalls w !! name))) as Hf.
  { intros b Hb. apply (ok_finally C (λ e, match e with Event c _ => touchedFirewall c ≠ Some name end)).
    - eapply ok_weaken; [by eapply (ok_applyFirewall e)|done|]. intros _ w (x & Hx & E). exists tags, x. done.
    - clients. emit_steps. cbn. intros [= Hn]. by apply Hb.
    - intros _ B c w r w'. apply (firewall_kept_by (λ e, match e with Event c _ => touchedFirewall c ≠ Some name end)). done. }
  case_bool_decide as El.
  - intros s a s' Hi E. exact (Hf false ltac:(done) s a s' Hi E).
  - eapply ok_bind; [|intros b; apply Hf; naive_solver].
    apply (ok_keeps C (λ e, match e with Event c _ => touchedFirewall c ≠ Some name end)); [clients; by emit_steps|].
    apply (firewall_kept_by (λ e, match e with Event c _ => touchedFirewall c ≠ Some name end) name (λ o, ∀ fw, existing = Some fw → o = Some fw)). done.
Qed.

(** Both firewalls. *)
Definition trafficFirewall (ip : string) (w : W) : Prop :=
  ∃ src, GetLoadBalancerSourceRanges svc = Ret src ∧
    firewallSet (MakeFirewallName lb) (makeFirewallDescription (namespacedName svc) ip) ip (unsorted src)
      (getPortsAndProtocol (svc_Ports svc)).1.2 (getPortsAndProtocol (svc_Ports svc)).2 (firewalls w !! MakeFirewallName lb).
Definition checkFirewall (port : string) (w : W) : Prop :=
  firewallSet hcFirewall EmptyString EmptyString (unsorted (g_l4LbSrcRngs g)) [port] ProtocolTCP (firewalls w !! hcFirewall).

Lemma ok_firewalls ip port nodes :
  ok (λ _, True) (ensureInternalFirewalls g lb ip clusterID (namespacedName svc) svc port shared nodes : io (lbState * LW) unit)
    (λ _ w, trafficFirewall ip w ∧ checkFirewall port w).
Proof.
  unfold ensureInternalFirewalls, trafficFirewall. destruct (getPortsAndProtocol (svc_Ports svc)) as [[ports ranges] protocol].
  intros s a s' _ (src & s1 & E1 & E2)%io_bind_Ret. injection E1 as E1 <-. rewrite E1. cbn [fst snd].
  revert s a s' E2. cut (ok (λ _, True) (_ ← ensureInternalFirewall g svc (MakeFirewallName lb) (makeFirewallDescription (namespacedName svc) ip) ip
     (unsorted src) ranges protocol nodes lb;
     ensureInternalFirewall g svc hcFirewall EmptyString EmptyString (unsorted (g_l4LbSrcRngs g)) [port] ProtocolTCP nodes EmptyString : io (lbState * LW) unit)
     (λ _ w, firewallSet (MakeFirewallName lb) (makeFirewallDescription (namespacedName svc) ip) ip (unsorted src) ranges protocol (firewalls w !! MakeFirewallName lb) ∧ checkFirewall port w)).
  { intros Hok s a s' E. destruct (Hok s a s' I E) as [H1 H2]. split; [exists src; done|done]. }
  set (T := firewallSet (MakeFirewallName lb) (makeFirewallDescription (namespacedName svc) ip) ip (unsorted src) ranges protocol).
  eapply ok_bind; [apply ok_firewall; right; intros Hn; by apply (firewallName_not_legacy svc)|]. intros [].
  eapply ok_weaken.
  - apply (ok_frame C (oneFirewall svc hcFirewall EmptyString) (λ _, True) (λ w, T (firewalls w !! MakeFirewallName lb))); [apply ok_firewall; by left|apply only_ensureInternalFirewall|].
    apply firewall_kept_by. intros B c r Hc. destruct c; cbn in *; try done.
    all: intros [= ->]. all: try (eapply firewallName_not_check; rewrite Hc at 1; apply checkFirewall_name). naive_solver.
  - intros w Hw. split; [done|exact Hw].
  - intros _ w [H1 H2]. done.
Qed.

(** ** Entries that a step leaves alone *)
Lemma rule_kept_by (φ : event → Prop) k P :
  (∀ B (c : Call B) r, φ (Event c r) → touchedRule c ≠ Some k) →
  ∀ B (c : Call B) w r w', φ (Event c r) → exec c w = (r, w') → P (rules w !! k) → P (rules w' !! k).
Proof. intros Hφ B c w r w' Hc E. by rewrite (rules_kept c w r w' k E (Hφ _ _ _ Hc)). Qed.
Lemma backend_kept_by (φ : event → Prop) k P :
  (∀ B (c : Call B) r, φ (Event c r) → touchedBackend c ≠ Some k) →
  ∀ B (c : Call B) w r w', φ (Event c r) → exec c w = (r, w') → P (backends w !! k) → P (backends w' !! k).
Proof. intros Hφ B c w r w' Hc E. by rewrite (backends_kept c w r w' k E (Hφ _ _ _ Hc)). Qed.
Lemma check_kept_by (φ : event → Prop) k P :
  (∀ B (c : Call B) r, φ (Event c r) → touchedCheck c ≠ Some k) →
  ∀ B (c : Call B) w r w', φ (Event c r) → exec c w = (r, w') → P (checks w !! k) → P (checks w' !! k).
Proof. intros Hφ B c w r w' Hc E. by rewrite (checks_kept c w r w' k E (Hφ _ _ _ Hc)). Qed.
Lemma and_kept_by (φ : event → Prop) (P Q : W → Prop) :
  (∀ B (c : Call B) w r w', φ (Event c r) → exec c w = (r, w') → P w → P w') →
  (∀ B (c : Call B) w r w', φ (Event c r) → exec c w = (r, w') → Q w → Q w') →
  ∀ B (c : Call B) w r w', φ (Event c r) → exec c w = (r, w') → P w ∧ Q w → P w' ∧ Q w'.
Proof. intros H1 H2 B c w r w' Hc E [??]. eauto. Qed.

(** What is in the tables, by the parts of the load balancer. *)
Variables (path : string) (port : Z).
Definition checkSet (hc : HealthCheck) (o : option HealthCheck) : Prop :=
  o = Some hc ∧ needToUpdateHealthChecks hc (newInternalLBHealthCheck hcn (namespacedName svc) shared path port) = false.
Definition backendSet (hc : HealthCheck) (links : list string) (o : option BackendService) : Prop :=
  ∃ b, o = Some b ∧
    backendSvcEqual (expectedBackend bs (getPortsAndProtocol (svc_Ports svc)).2 (makeBackendServiceDescription (namespacedName svc) (shareBackendService svc))
      (hc_SelfLink hc) links (svc_SessionAffinity svc) SchemeInternal) b = true.
Definition ruleSet (new : ForwardingRule) (o : option ForwardingRule) : Prop := ∃ r, o = Some r ∧ forwardingRulesEqual r new = true.

Ltac untouched := intros ? c ? Hc; destruct c; cbn in *; try done; try (intros [= ->]; naive_solver); naive_solver.

(** ** After the address *)
Definition inPlace (hc : HealthCheck) (links : list string) (new : ForwardingRule) (ip : string) (w : W) : Prop :=
  checkSet hc (checks w !! hcn) ∧ backendSet hc links (backends w !! (bs, g_region g)) ∧
  (∃ r, rules w !! (lb, g_region g) = Some r ∧ fr_IPAddress r = ip ∧ forwardingRulesEqual r new = true) ∧
  trafficFirewall ip w ∧ checkFirewall (Uitoa port) w.

(** The stages of the assembly. *)
Section stages.
Variables (existing : option ForwardingRule) (links : list string) (hc : HealthCheck) (new : ForwardingRule).
Hypothesis new_name : fr_Name new = lb.
Definition changed : bool := match existing with Some r => negb (forwardingRulesEqual r new) | None => false end.
Definition stage1 (w : W) : Prop := checkSet hc (checks w !! hcn) ∧ (changed = false → rules w !! (lb, g_region g) = existing).
Definition stage2 (w : W) : Prop := backendSet hc links (backends w !! (bs, g_region g)) ∧ stage1 w.
Definition stage3 (w : W) : Prop := backendSet hc links (backends w !! (bs, g_region g)) ∧ checkSet hc (checks w !! hcn).
Definition stage4 (r : ForwardingRule) (w : W) : Prop := (rules w !! (lb, g_region g) = Some r ∧ forwardingRulesEqual r new = true) ∧ stage3 w.

Lemma ok_stage1 :
  ok (λ w, checkSet hc (checks w !! hcn) ∧ rules w !! (lb, g_region g) = existing)
    (if changed then on_snd (ignoreNotFound (DeleteRegionForwardingRule lb (g_region g))) else mret tt : io (lbState * LW) unit) (λ _, stage1).
Proof.
  unfold stage1. destruct changed; [|apply ok_ret; naive_solver]. eapply ok_weaken.
  - apply (ok_keeps C (ruleScope g svc) (λ w, checkSet hc (checks w !! hcn))); [clients; by emit_steps|]. apply check_kept_by. untouched.
  - naive_solver.
  - naive_solver.
Qed.

Lemma ok_stage2 protocol :
  protocol = (getPortsAndProtocol (svc_Ports svc)).2 →
  ok stage1 (on_snd (ensureInternalBackendService g bs (makeBackendServiceDescription (namespacedName svc) (shareBackendService svc))
    (svc_SessionAffinity svc) SchemeInternal protocol links (hc_SelfLink hc)) : io (lbState * LW) unit) (λ _, stage2).
Proof.
  intros Ep. eapply ok_weaken.
  - apply (ok_frame C (backendScope g clusterID svc) (λ _, True) stage1).
    + apply ok_on_snd, ok_ensureInternalBackendService.
    + apply emits_on_snd, only_ensureInternalBackendService.
    + apply and_kept_by; [apply check_kept_by; untouched|]. apply (rule_kept_by _ _ (λ o, changed = false → o = existing)). untouched.
  - intros w Hw. exact (conj I Hw).
  - intros _ w [Hb Hw]. split; [|done]. unfold backendSet. rewrite <- Ep. exact Hb.
Qed.

Lemma ok_stage3 :
  ok stage2 (if changed || bool_decide (existing = None) then on_snd (ensureInternalForwardingRule g None new) else mret tt : io (lbState * LW) unit)
    (λ _ w, ruleSet new (rules w !! (lb, g_region g)) ∧ stage3 w).
Proof.
  destruct (changed || bool_decide (existing = None)) eqn:Ec.
  - eapply ok_weaken.
    + apply (ok_frame C (ruleScope g svc) (λ _, True) stage3).
      * apply ok_on_snd, ok_createRule.
      * unfold ensureInternalForwardingRule. cbv zeta. clients. by emit_steps.
      * apply and_kept_by; [apply backend_kept_by|apply check_kept_by]; untouched.
    + intros w (Hb & Hc & _). done.
    + intros _ w [Hr Hw]. split; [|done]. rewrite new_name in Hr. exact Hr.
  - apply orb_false_iff in Ec as [Ec En]. apply bool_decide_eq_false_1 in En. apply ok_ret. intros w (Hb & Hc & Hr). split; [|done].
    unfold changed in *. destruct existing as [r|]; [|done]. exists r. split; [by apply Hr|]. by apply negb_false_iff.
Qed.

Lemma ok_stage4 :
  ok (λ w, ruleSet new (rules w !! (lb, g_region g)) ∧ stage3 w) (on_snd (GetRegionForwardingRule lb (g_region g)) : io (lbState * LW) _) stage4.
Proof.
  apply ok_on_snd, ok_exec. intros w r w' (Hr & Hb & Hc) E. pose proof (rules_step _ _ _ _ E) as [Er Eg]. unfold stage4, stage3. rewrite Er, Eg.
  rewrite (backends_kept _ _ _ _ _ E), (checks_kept _ _ _ _ _ E) by done.
  destruct Hr as (r' & Hr' & Heq). split; [|done]. split; [done|]. rewrite Hr' in Eg. by injection Eg as <-.
Qed.

Lemma ok_stage5 r nodes :
  ok (stage4 r) (ensureInternalFirewalls g lb (fr_IPAddress r) clusterID (namespacedName svc) svc (Uitoa port) shared nodes : io (lbState * LW) unit)
    (λ _, inPlace hc links new (fr_IPAddress r)).
Proof.
  eapply ok_weaken.
  - apply (ok_frame C (firewallScope clusterID svc) (λ _, True) (stage4 r)); [apply ok_firewalls|apply only_ensureInternalFirewalls|].
    apply and_kept_by; [|apply and_kept_by; [apply backend_kept_by|apply check_kept_by]; untouched].
    apply (rule_kept_by _ _ (λ o, o = Some r ∧ forwardingRulesEqual r new = true)). untouched.
  - intros w Hw. exact (conj I Hw).
  - intros _ w [[Ht Hf] [[Hr Heq] [Hb Hc]]]. split; [done|]. split; [done|]. split; [by exists r|]. done.
Qed.

(** Clearing the previous resources leaves the new ones. *)
Lemma ok_stage6 ip existingBS :
  ok (inPlace hc links new ip) (match existingBS with
    | Some old => on_snd (clearPreviousInternalResources g svc old bs hcn) | None => mret tt end : io (lbState * LW) unit) (λ _, inPlace hc links new ip).
Proof.
  destruct existingBS as [old|]; [|by apply ok_ret].
  apply (ok_keeps C (clearScope g clusterID svc)); [apply emits_on_snd, only_clearPrevious|].
  unfold inPlace, trafficFirewall, checkFirewall. apply and_kept_by; [apply check_kept_by; untouched|].
  apply and_kept_by; [apply backend_kept_by; untouched|].
  apply and_kept_by; [apply (rule_kept_by _ _ (λ o, ∃ r0, o = Some r0 ∧ _)); untouched|].
  apply and_kept_by.
  - apply (firewall_kept_by _ _ (λ o, ∃ src, GetLoadBalancerSourceRanges svc = Ret src ∧ firewallSet _ _ _ (unsorted src) _ _ o)).
    intros B c r0 Hc. destruct c; cbn in *; try done. intros [= ->]. destruct Hc as (other & _ & Heq). by eapply firewallName_not_check.
  - apply firewall_kept_by. intros B c r0 Hc. destruct c; cbn in *; try done. intros [= ->]. destruct Hc as (other & Hne & Heq).
    rewrite checkFirewall_name in Heq. by apply checkFirewall_inj in Heq.
Qed.

Lemma ok_assemble nodes options existingBS :
  ok (λ w, checkSet hc (checks w !! hcn) ∧ rules w !! (lb, g_region g) = existing)
    (assembleInternal g clusterID svc existing nodes options bs links existingBS hc hcn port new : io (lbState * LW) _)
    (λ x w, inPlace hc links new x.1 w ∧ InSuccess x.2 = true).
Proof.
  unfold assembleInternal. cbv zeta. destruct (getPortsAndProtocol (svc_Ports svc)) as [[ports ranges] protocol] eqn:Ep. fold changed.
  eapply ok_bind; [apply ok_stage1|intros []]. eapply ok_bind; [apply ok_stage2; by rewrite Ep|intros []].
  eapply ok_bind; [apply ok_stage3|intros []]. eapply ok_bind; [apply ok_stage4|intros r].
  eapply ok_bind; [apply ok_stage5|intros []]. eapply ok_bind; [apply ok_stage6|intros []]. by apply ok_ret.
Qed.
End stages.

(** ** The whole *)
Definition ilbOptions : ILBOptions := if g_isLegacyNetwork g then mkILBOptions false EmptyString else getILBOptions svc.
Definition ilbSubnet : string :=
  if bool_decide (SubnetName ilbOptions = EmptyString) then g_subnetworkURL g
  else gceSubnetworkURL EmptyString (g_networkProjectID g) (g_region g) (SubnetName ilbOptions).
Definition desiredRule (ip : string) : ForwardingRule :=
  newForwardingRule g svc lb ip (getBackendServiceLink g bs) ilbSubnet ilbOptions.
Lemma desiredRule_name ip : fr_Name (desiredRule ip) = lb.
Proof. unfold desiredRule, newForwardingRule. by destruct (getPortsAndProtocol (svc_Ports svc)) as [[??]?]. Qed.

Definition established (ip : string) (w : W) : Prop := ∃ hc links requested, inPlace hc links (desiredRule requested) ip w.

Lemma address_rule_kept l : ∀ B (c : Call B) w r w', addressScope lb (g_region g) (Event c r) → exec c w = (r, w') →
  rules w !! (lb, g_region g) = l → rules w' !! (lb, g_region g) = l.
Proof. apply (rule_kept_by _ _ (λ o, o = l)). untouched. Qed.
Lemma inPlace_address hc links new ip : ∀ B (c : Call B) w r w', addressScope lb (g_region g) (Event c r) → exec c w = (r, w') →
  inPlace hc links new ip w → inPlace hc links new ip w'.
Proof.
  unfold inPlace, trafficFirewall, checkFirewall. apply and_kept_by; [apply check_kept_by; untouched|].
  apply and_kept_by; [apply backend_kept_by; untouched|]. apply and_kept_by; [apply (rule_kept_by _ _ (λ o, ∃ r0, o = Some r0 ∧ _)); untouched|].
  apply and_kept_by; [|apply firewall_kept_by; untouched].
  apply (firewall_kept_by _ _ (λ o, ∃ src, GetLoadBalancerSourceRanges svc = Ret src ∧ firewallSet _ _ _ (unsorted src) _ _ o)). untouched.
Qed.

Lemma ok_around {A} am (I : W → Prop) (m : string → io (lbState * LW) A) Q :
  am_name am = lb → am_region am = g_region g →
  (∀ B (c : Call B) w r w', addressScope lb (g_region g) (Event c r) → exec c w = (r, w') → I w → I w') →
  (∀ a B (c : Call B) w r w', addressScope lb (g_region g) (Event c r) → exec c w = (r, w') → Q a w → Q a w') →
  (∀ ip, ok I (m ip) Q) →
  ok I ('(ip, am) ← on_snd (method am HoldAddress); finally (m ip) (on_snd (ignored (method am ReleaseAddress)))) Q.
Proof.
  intros En Er HI HQ Hm s a s' Hi ([ip am'] & s1 & E1 & E2)%io_bind_Ret.
  destruct (emits_run _ _ _ _ _ (emits_on_snd _ _ (emits_hold C am)) E1) as (l & _ & R & r0 & am1 & Eq & N1 & N2 & Hs & _).
  destruct r0 as [ip0| |]; [|discriminate Eq..]. injection Eq as <- <-. rewrite En, Er in *.
  refine (ok_finally C (addressScope lb (g_region g)) I (m ip) _ Q (Hm ip) _ HQ s1 a s' _ E2).
  - eapply emits_weaken; [apply emits_on_snd, emits_release|]. intros r l0. destruct (am_tryRelease am'); [|by intros ->].
    intros [r1 ->]. constructor; [|constructor]. cbn. by rewrite N2.
  - by eapply (replay_keeps C (addressScope lb (g_region g)) I).
Qed.

Lemma ok_finalizer existing key :
  ok (λ w, rules w !! (lb, g_region g) = existing) (addFinalizer svc key : io LW unit) (λ _ w, rules w !! (lb, g_region g) = existing).
Proof.
  apply (ok_keeps C (λ e, match e with Event c _ => touchedRule c = None end)); [unfold addFinalizer; by emit_steps|].
  apply (rule_kept_by (λ e, match e with Event c _ => touchedRule c = None end) _ (λ o, o = existing)). intros B c r Hc. by rewrite Hc.
Qed.

Hypothesis path_port : ilbCheckPathPort svc = (path, port).

Lemma ok_resources existing nodes :
  ok (λ w, rules w !! (lb, g_region g) = existing) (ensureInternalResources g clusterID svc existing nodes : io (lbState * LW) _)
    (λ x w, established x.1 w ∧ InSuccess x.2 = true).
Proof.
  unfold ensureInternalResources. cbv zeta. destruct (getPortsAndProtocol (svc_Ports svc)) as [[ports ranges] protocol] eqn:Ep.
  destruct (_ && _); [apply ok_fail|].
  eapply (ok_bind _ _ _ (λ o w, rules w !! (lb, g_region g) = existing ∧ o = ilbOptions)).
  { unfold ilbOptions. destruct (g_isLegacyNetwork g); [|by apply ok_ret].
    eapply ok_bind; [apply (ok_keeps C (firewallScope clusterID svc)); [clients; by emit_steps|apply (rule_kept_by _ _ (λ o, o = existing)); untouched]|].
    intros []. by apply ok_ret. }
  intros options. apply ok_pure. intros ->.
  eapply (ok_bind _ _ _ (λ _ w, rules w !! (lb, g_region g) = existing)).
  { apply (ok_keeps C (groupScope clusterID)); [apply emits_on_snd, only_ensureInternalInstanceGroups|]. apply (rule_kept_by _ _ (λ o, o = existing)). untouched. }
  intros links. eapply (ok_bind _ _ _ (λ _ w, rules w !! (lb, g_region g) = existing)).
  { apply (ok_keeps C (groupScope clusterID)); [clients; by emit_steps|]. apply (rule_kept_by _ _ (λ o, o = existing)). untouched. }
  intros existingBS. fold (ilbCheckPathPort svc). rewrite path_port.
  eapply (ok_bind _ _ _ (λ hc w, checkSet hc (checks w !! hcn) ∧ rules w !! (lb, g_region g) = existing)).
  { eapply ok_weaken; [apply (ok_frame C (checkScope clusterID svc) (λ _, True) (λ w, rules w !! (lb, g_region g) = existing))|..].
    - apply ok_on_snd, ok_ensureInternalHealthCheck.
    - apply emits_on_snd, only_ensureInternalHealthCheck.
    - apply (rule_kept_by _ _ (λ o, o = existing)). untouched.
    - intros w Hw. exact (conj I Hw).
    - intros hc w [Hc Hr]. exact (conj Hc Hr). }
  intros hc.
  assert (makeBackendServiceName lb clusterID (shareBackendService svc) SchemeInternal protocol (svc_SessionAffinity svc) = bs) as ->
    by (unfold ilbBackendService; by rewrite Ep).
  fold ilbSubnet. assert (∀ ip, ok (λ w, checkSet hc (checks w !! hcn) ∧ rules w !! (lb, g_region g) = existing)
    (assembleInternal g clusterID svc existing nodes ilbOptions bs links existingBS hc hcn port (desiredRule ip) : io (lbState * LW) _)
    (λ x w, established x.1 w ∧ InSuccess x.2 = true)) as Ha.
  { intros ip. eapply ok_weaken; [apply (ok_assemble existing links hc (desiredRule ip) (desiredRule_name ip))|done|].
    intros x w [Hp Hs]. split; [|done]. by exists hc, links, ip. }
  destruct (g_isLegacyNetwork g); [apply Ha|]. apply ok_around; [done|done| | |exact Ha].
  - apply and_kept_by; [apply check_kept_by; untouched|apply address_rule_kept].
  - intros x. apply and_kept_by; [|done]. intros B c w r w' Hc E (h & ls & rq & Hp). exists h, ls, rq. by eapply inPlace_address.
Qed.
End ensure.

