(* ===== verification/LbSharing.v ===== *)
(** * LbSharing: services that share resources do not disturb each other

    The health check of the nodes, its firewall, the instance groups and, on
    request, the backend service are shared by the internal load balancers of a
    cluster.  The API refuses to delete what another resource refers to
    ([LbRefs]); with the names of the resources this is enough for the load
    balancer of a service to stay as it was established, whatever the provider
    does for other services and however those runs end. *)
From S2P Require Import Prelude Bits GoNet GoNetText K8s GceInstances NetUtils GoStrings IoLogic GnpValidations NodeIpamConfig AddressManager NodeAnnotator LoadBalancer GceHosts ComputeCalls ClusterId InternalLb Goroutines ExternalLb LbDispatch LbLogic InternalLbScope LbStore InternalLbEnsure.
Local Open Scope Z_scope.

(** ** What the API refuses

    A health check that a backend service uses, and a backend service that a
    forwarding rule points to, are not deleted, and are not answered to be
    missing; a backend service is found under its name. *)
Class LbRefs (W : Type) `{LbStore W} (g : gceConfig) : Prop := {
  check_in_use n w r w' hc k b :
    exec (HealthChecksDelete n) w = (r, w') → checks w !! n = Some hc → backends w !! k = Some b → hc_SelfLink hc ∈ bs_HealthChecks b → ¬ gone r;
  backend_in_use n w r w' k rule :
    exec (BackendServicesDelete n (g_region g)) w = (r, w') → rules w !! k = Some rule → sameResource (fr_BackendService rule) (getBackendServiceLink g n) = true → ¬ gone r;
  backend_named n region w b w' : exec (BackendServicesGet n region) w = (Ret b, w') → bs_Name b = n
}.

(** The first characters of the hash tell the two affinities apart. *)
Class Sha1Separates `{Sha1} : Prop :=
  sha1_separates : String.substring 0 16 (sha1_hex "None") ≠ String.substring 0 16 (sha1_hex "ClientIP").

(** Values that the API server admits in a service. *)
Definition validService (svc : Service) : Prop :=
  (getPortsAndProtocol (svc_Ports svc)).2 ∈ ["TCP"; "UDP"; "SCTP"]%string ∧ svc_SessionAffinity svc ∈ ["None"; "ClientIP"]%string.

(** ** Names of two services *)
Lemma append_inj_l (t a b : string) : (t +:+ a = t +:+ b)%string → a = b.
Proof. induction t as [|c t IH]; intros E; [done|]. injection E as E. auto. Qed.
Lemma lbName_ne_dash svc s : has_char dash s = true → GetLoadBalancerName svc ≠ s.
Proof. destruct (lbName_shape svc) as (t & _ & Hd). intros Hs E. rewrite E in Hd. congruence. Qed.
Lemma legacy_not_firewall svc svc' : GetLoadBalancerName svc ≠ MakeFirewallName (GetLoadBalancerName svc').
Proof. apply lbName_ne_dash. done. Qed.
Lemma legacy_not_check svc other : GetLoadBalancerName svc ≠ makeHealthCheckFirewallNameFromHC other.
Proof. apply lbName_ne_dash. unfold makeHealthCheckFirewallNameFromHC. rewrite has_char_app. by apply orb_true_iff; right. Qed.

Section names.
Context `{Sha1}.
Variables (clusterID : string) (svc svc' : Service).
Hypothesis apart : GetLoadBalancerName svc ≠ GetLoadBalancerName svc'.

(** One health check for two services is that of the nodes. *)
Lemma same_check : ilbHealthCheck clusterID svc = ilbHealthCheck clusterID svc' →
  RequestsOnlyLocalTraffic svc = false ∧ RequestsOnlyLocalTraffic svc' = false.
Proof.
  unfold ilbHealthCheck, makeHealthCheckName. destruct (RequestsOnlyLocalTraffic svc), (RequestsOnlyLocalTraffic svc'); cbn [negb]; intros E; done.
Qed.
Lemma shared_check : RequestsOnlyLocalTraffic svc = false → RequestsOnlyLocalTraffic svc' = false → ilbHealthCheck clusterID svc = ilbHealthCheck clusterID svc'.
Proof. unfold ilbHealthCheck. by intros -> ->. Qed.

(** One backend service for two services is shared, by services of one protocol
    and one affinity. *)
Lemma same_backend_name : Sha1Separates → validService svc → validService svc' → ilbBackendService clusterID svc = ilbBackendService clusterID svc' →
  shareBackendService svc = true ∧ shareBackendService svc' = true ∧
  (getPortsAndProtocol (svc_Ports svc)).2 = (getPortsAndProtocol (svc_Ports svc')).2 ∧ svc_SessionAffinity svc = svc_SessionAffinity svc'.
Proof.
  intros Hsep [Hp Ha] [Hp' Ha']. unfold ilbBackendService, makeBackendServiceName.
  destruct (shareBackendService svc), (shareBackendService svc'); intros E; [|symmetry in E; by eapply lbName_ne_dash in E|by eapply lbName_ne_dash in E|done].
  do 2 apply append_inj_l in E. split; [done|]. split; [done|].
  revert Hp Hp' Ha Ha' E. generalize (getPortsAndProtocol (svc_Ports svc)).2 (getPortsAndProtocol (svc_Ports svc')).2 (svc_SessionAffinity svc) (svc_SessionAffinity svc').
  intros p p' a a' [->|[->|[->|[]%elem_of_nil]%elem_of_cons]%elem_of_cons]%elem_of_cons [->|[->|[->|[]%elem_of_nil]%elem_of_cons]%elem_of_cons]%elem_of_cons
    Ha Ha' E; try discriminate E; (split; [done|]);
    apply (append_inj_l "-internal-") in E; apply append_inj_l in E; apply append_inj_l in E; revert Ha Ha' E;
    intros [->|[->|[]%elem_of_nil]%elem_of_cons]%elem_of_cons [->|[->|[]%elem_of_nil]%elem_of_cons]%elem_of_cons E; try done; exfalso; by apply sha1_separates.
Qed.
End names.

(** ** The load balancer of a service, while others are served *)

(** The steps leave [I] as it is, whatever they return; [P] is known of a value
    they return. *)
Definition kept {W St A} `{HasLog W St} (I : W → Prop) (m : io St A) (P : A → Prop) : Prop := keeps (λ s, I (worldOf s)) m P.

Section kept.
Context {W : Type} {St : Type} `{HasLog W St}.
Variable I : W → Prop.

Lemma kept_any {A} (m : io St A) P : kept I m P → kept I m (λ _, True).
Proof. by apply keeps_mono. Qed.
Lemma kept_run {A} (m : io St A) P s r s' : kept I m P → m s = (r, s') → I (worldOf s) → I (worldOf s').
Proof. intros Hm E Hi. specialize (Hm s Hi). unfold wp in Hm. rewrite E in Hm. apply Hm. Qed.
Lemma kept_calls {A} (C : Compute W) φ (m : io St A) :
  only C φ m → (∀ B (c : Call B) w r w', φ (Event c r) → exec c w = (r, w') → I w → I w') → kept I m (λ _, True).
Proof.
  intros Hm Hφ s Hi. apply wp_intro. intros r s' E. split; [|done].
  destruct (emits_run _ _ _ _ _ Hm E) as (l & _ & R & Hl). by eapply replay_keeps.
Qed.
Lemma kept_on_snd {S A} (m : io St A) P : kept I m P → kept I (on_snd m : io (S * St) A) P.
Proof. intros Hm. by eapply (keeps_on_snd (λ s, I (worldOf s))). Qed.
Lemma kept_finally {A} (m : io St A) d P : kept I m P → kept I d (λ _, True) → kept I (finally m d) P.
Proof.
  intros Hm Hd s Hi. specialize (Hm s Hi). unfold wp, finally in *. destruct (m s) as [r s1]. destruct Hm as [Hi1 HP].
  specialize (Hd s1 Hi1). unfold wp in Hd. destruct (d s1) as [r' s2]. cbn in *. split; [apply Hd|]. destruct r'; [exact HP|exact HP|done].
Qed.
Lemma kept_deferring {L A} (l : L) (m : io (L * St) A) d P : kept I m P → (∀ l, kept I (d l) (λ _, True)) → kept I (deferring l m d) P.
Proof.
  intros Hm Hd s Hi. specialize (Hm (l, s) Hi). unfold wp, deferring in *. destruct (m (l, s)) as [r [l' s1]]. destruct Hm as [Hi1 HP].
  specialize (Hd l' s1 Hi1). unfold wp in Hd. destruct (d l' s1) as [r' s2]. cbn in *. split; [apply Hd|]. destruct r'; [exact HP|exact HP|done].
Qed.
Lemma kept_optional {A} (m : io St A) P : kept I m P → kept I (optional m) (λ o, ∀ a, o = Some a → P a).
Proof.
  intros Hm. unfold optional. eapply keeps_bind; [by apply keeps_try|]. intros [e|a] Hr.
  - destruct (isNotFound e); [by apply keeps_ret|apply keeps_fail].
  - apply keeps_ret. by intros ? [= <-].
Qed.
Lemma kept_ignored {A} (m : io St A) P : kept I m P → kept I (ignored m) (λ _, True).
Proof. intros Hm. unfold ignored. eapply keeps_bind; [by apply keeps_try|]. intros r _. by apply keeps_ret. Qed.
End kept.

Lemma kept_exec {W A} (C : Compute W) (I : W → Prop) (c : Call A) P :
  (∀ w r w', exec c w = (r, w') → I w → I w' ∧ ∀ a, r = Ret a → P a) → kept I (@exec _ (logged C) A c) P.
Proof. intros HI [w l] Hi. unfold wp. rewrite logged_exec. destruct (@exec W C A c w) as [r w'] eqn:E. eauto. Qed.
(** An answer of the API and what it says when it is an error. *)
Lemma kept_try_exec {W A} (C : Compute W) (I : W → Prop) (c : Call A) (P : outcome A → Prop) :
  (∀ w r w', exec c w = (r, w') → I w → I w' ∧ P r) →
  kept I (try (@exec _ (logged C) A c)) (λ x, match x with inr a => P (Ret a) | inl e => P (Err e) end).
Proof.
  intros HI [w l] Hi. unfold wp, try. rewrite logged_exec. destruct (@exec W C A c w) as [r w'] eqn:E. destruct (HI _ _ _ E Hi) as [Hi' Hr].
  destruct r; (split; [exact Hi'|]); by intros ? [= <-].
Qed.

Section stands.
Context {W : Type} {C : Compute W} `{!LbStore W} `{MapOrder} `{Sha1}.
Variable g : gceConfig.
Context `{!LbRefs W g}.
Variables (clusterID : string) (svc : Service) (hc : HealthCheck) (ip : string).
#[local] Existing Instance logged.
Abbreviation LW := (W * list event)%type.
Abbreviation lb := (GetLoadBalancerName svc).
Abbreviation bs := (ilbBackendService clusterID svc).
Abbreviation hcn := (ilbHealthCheck clusterID svc).
Abbreviation hcFirewall := (makeHealthCheckFirewallNameFromHC hcn).
Abbreviation path := (ilbCheckPathPort svc).1.
Abbreviation port := (ilbCheckPathPort svc).2.

(** Established, with the health check [hc]. *)
Definition stands (w : W) : Prop := ∃ links requested, inPlace g clusterID svc path port hc links (desiredRule g clusterID svc requested) ip w.

Lemma stands_intro w links new :
  checkSet clusterID svc path port hc (checks w !! hcn) → backendSet clusterID svc hc links (backends w !! (bs, g_region g)) →
  (∃ requested, new = desiredRule g clusterID svc requested) →
  (∃ r, rules w !! (lb, g_region g) = Some r ∧ fr_IPAddress r = ip ∧ forwardingRulesEqual r new = true) →
  trafficFirewall g svc ip w → firewallSet g hcFirewall EmptyString EmptyString (unsorted (g_l4LbSrcRngs g)) [Uitoa port] ProtocolTCP (firewalls w !! hcFirewall) → stands w.
Proof.
  intros Hc Hb [rq ->] Hr Ht Hf. exists links, rq. split_and!; try done. unfold checkFirewall. by rewrite checkFirewall_name.
Qed.
Lemma stands_elim w : stands w → ∃ links new,
  checkSet clusterID svc path port hc (checks w !! hcn) ∧ backendSet clusterID svc hc links (backends w !! (bs, g_region g)) ∧
  (∃ requested, new = desiredRule g clusterID svc requested) ∧
  (∃ r, rules w !! (lb, g_region g) = Some r ∧ fr_IPAddress r = ip ∧ forwardingRulesEqual r new = true) ∧
  trafficFirewall g svc ip w ∧ firewallSet g hcFirewall EmptyString EmptyString (unsorted (g_l4LbSrcRngs g)) [Uitoa port] ProtocolTCP (firewalls w !! hcFirewall).
Proof.
  intros (links & rq & Hc & Hb & Hr & Ht & Hf). exists links. eexists. split_and!; try done; [by exists rq|].
  unfold checkFirewall in Hf. by rewrite checkFirewall_name in Hf.
Qed.

(** *** Calls that do not concern the resources *)
Definition aside {A} (c : Call A) : Prop :=
  touchedRule c ≠ Some (lb, g_region g) ∧ touchedBackend c ≠ Some (bs, g_region g) ∧ touchedCheck c ≠ Some hcn ∧
  touchedFirewall c ≠ Some (MakeFirewallName lb) ∧ touchedFirewall c ≠ Some hcFirewall.
Lemma stands_aside {A} (c : Call A) w r w' : aside c → exec c w = (r, w') → stands w → stands w'.
Proof.
  intros (H1 & H2 & H3 & H4 & H5) E (links & new & Hc & Hb & Hn & Hr & (src & Hs & Ht) & Hf)%stands_elim.
  apply (stands_intro w' links new); unfold trafficFirewall;
    rewrite ?(rules_kept c w r w' _ E H1), ?(backends_kept c w r w' _ E H2), ?(checks_kept c w r w' _ E H3), ?(firewalls_kept c w r w' _ E H4), ?(firewalls_kept c w r w' _ E H5); eauto.
Qed.
Lemma read_aside {A} (c : Call A) : isRead c = true → aside c.
Proof. by destruct c. Qed.
Definition asideEvent (e : event) : Prop := match e with Event c _ => aside c end.
Lemma kept_aside {St A} `{HasLog W St} (m : io St A) : only C asideEvent m → kept stands m (λ _, True).
Proof. intros Hm. eapply (kept_calls _ C asideEvent); [exact Hm|]. intros B c w r w' Hc E. by apply (stands_aside c w r w'). Qed.

(** *** Deletions that the API refuses *)
Lemma stands_check_used w : stands w → ∃ b, checks w !! hcn = Some hc ∧ backends w !! (bs, g_region g) = Some b ∧ hc_SelfLink hc ∈ bs_HealthChecks b.
Proof.
  intros (links & new & [Hc _] & (b & Hb & Heq) & _)%stands_elim. exists b. split; [done|]. split; [done|].
  unfold backendSvcEqual in Heq. rewrite !andb_true_iff in Heq. destruct Heq as [[_ Hh] _]. unfold equalStringSets in Hh.
  destruct (negb _); [done|]. apply bool_decide_eq_true_1 in Hh. cbn in Hh.
  apply (elem_of_list_to_set (C := gset string)). rewrite <- Hh. set_solver.
Qed.
Lemma stands_backend_used w : stands w → ∃ r, rules w !! (lb, g_region g) = Some r ∧ sameResource (fr_BackendService r) (getBackendServiceLink g bs) = true.
Proof.
  intros (links & new & _ & _ & (rq & ->) & (r & Hr & _ & Heq) & _)%stands_elim. exists r. split; [done|].
  unfold forwardingRulesEqual in Heq. rewrite !andb_true_iff in Heq. destruct Heq as [[[_ Hs] _] _].
  unfold desiredRule, newForwardingRule in Hs. by destruct (getPortsAndProtocol (svc_Ports svc)) as [[??]?].
Qed.

Lemma stands_delete_check n w r w' : exec (HealthChecksDelete n) w = (r, w') → stands w → stands w' ∧ (gone r → n ≠ hcn).
Proof.
  intros E Hw. destruct (decide (n = hcn)) as [->|Hn].
  - destruct (stands_check_used w Hw) as (b & Hc & Hb & Hin). pose proof (check_in_use _ _ _ _ _ _ _ E Hc Hb Hin) as Hr. split; [|done].
    destruct (stands_elim w Hw) as (links & new & H1 & H2 & H3 & H4 & H5 & H6). pose proof (checks_step _ _ _ _ E) as Es.
    assert (checks w' = checks w) as Ec by (destruct r; [by destruct Hr|done..]).
    apply (stands_intro w' links new); rewrite ?Ec; unfold trafficFirewall; rewrite ?(rules_kept _ w r w' _ E), ?(backends_kept _ w r w' _ E), ?(firewalls_kept _ w r w' _ E); done.
  - split; [|done]. eapply stands_aside; [|exact E|done]. unfold aside. cbn. split_and!; naive_solver.
Qed.
Lemma stands_delete_backend n w r w' : exec (BackendServicesDelete n (g_region g)) w = (r, w') → stands w → stands w'.
Proof.
  intros E Hw. destruct (decide (n = bs)) as [->|Hn].
  - destruct (stands_backend_used w Hw) as (rule & Hr & Hs). pose proof (backend_in_use _ _ _ _ _ _ E Hr Hs) as Hg.
    destruct (stands_elim w Hw) as (links & new & H1 & H2 & H3 & H4 & H5 & H6). pose proof (backends_step _ _ _ _ E) as Es.
    assert (backends w' = backends w) as Ec by (destruct r; [by destruct Hg|done..]).
    apply (stands_intro w' links new); rewrite ?Ec; unfold trafficFirewall; rewrite ?(rules_kept _ w r w' _ E), ?(checks_kept _ w r w' _ E), ?(firewalls_kept _ w r w' _ E); done.
  - eapply stands_aside; [|exact E|done]. unfold aside. cbn. split_and!; naive_solver.
Qed.

(** *** Shared resources that are written again *)
Lemma stands_put_firewall (c : Call unit) x w r w' :
  c = FirewallsInsert hcFirewall x ∨ c = FirewallsPatch hcFirewall x →
  firewallSet g hcFirewall EmptyString EmptyString (unsorted (g_l4LbSrcRngs g)) [Uitoa port] ProtocolTCP (Some x) →
  exec c w = (r, w') → stands w → stands w'.
Proof.
  intros Hc Hx E (links & new & H1 & H2 & H3 & H4 & (src & Hs & Ht) & H6)%stands_elim.
  assert (firewalls w' = firewalls w ∨ firewalls w' = <[ hcFirewall := x ]> (firewalls w)) as Hf.
  { destruct Hc as [->| ->]; apply firewalls_step in E; cbn in E; destruct r; auto. }
  assert (MakeFirewallName lb ≠ hcFirewall) by apply firewallName_not_check.
  apply (stands_intro w' links new); [| |done| | |]; unfold trafficFirewall.
  1-3: destruct Hc as [->| ->]; rewrite ?(rules_kept _ w r w' _ E), ?(backends_kept _ w r w' _ E), ?(checks_kept _ w r w' _ E); done.
  all: destruct Hf as [->| ->]; rewrite ?lookup_insert_eq, ?lookup_insert_ne by done; eauto.
Qed.
Lemma stands_put_backend (c : Call unit) n x links' w r w' :
  n = bs → c = BackendServicesInsert n (g_region g) x ∨ c = BackendServicesUpdate n (g_region g) x →
  backendSet clusterID svc hc links' (Some x) → exec c w = (r, w') → stands w → stands w'.
Proof.
  intros -> Hc Hx E (links & new & H1 & H2 & H3 & H4 & (src & Hs & Ht) & H6)%stands_elim.
  assert (backends w' = backends w ∨ ∃ f, backends w' = <[ (bs, g_region g) := set_Fingerprint f x ]> (backends w)) as Hf.
  { destruct Hc as [->| ->]; apply backends_step in E; cbn in E; destruct r; auto. }
  assert (∃ l, backendSet clusterID svc hc l (backends w' !! (bs, g_region g))) as [l Hl].
  { destruct Hf as [->|[f ->]]; [by exists links|]. exists links'. rewrite lookup_insert_eq. destruct Hx as (b & [= <-] & Heq). by eexists. }
  apply (stands_intro w' l new); try done; unfold trafficFirewall.
  all: destruct Hc as [->| ->]; rewrite ?(rules_kept _ w r w' _ E), ?(checks_kept _ w r w' _ E), ?(firewalls_kept _ w r w' _ E); eauto.
Qed.

(** *** What the getters say *)
Lemma kept_getCheck name : kept stands (optional (GetHealthCheck name) : io LW _) (λ o, name = hcn → o = Some hc).
Proof.
  unfold optional. eapply keeps_bind.
  { apply (kept_try_exec C stands (HealthChecksGet name) (λ r, name = hcn → match r with Ret x => x = hc | Err e => isNotFound e = false | Panic => True end)).
    intros w r w' E Hw. split; [eapply stands_aside; [|exact E|done]; by apply read_aside|]. intros ->.
    destruct (stands_check_used w Hw) as (b & Hc & _). apply checks_step in E as [_ E]. destruct r as [x|e|]; [congruence| |done].
    destruct (isNotFound e); [|done]. rewrite E in Hc; [discriminate|done]. }
  intros [e|x] Hr; cbv beta iota in Hr.
  - destruct (isNotFound e) eqn:Ee; [|apply keeps_fail]. apply keeps_ret. intros Hn. by specialize (Hr Hn).
  - apply keeps_ret. intros Hn. by rewrite (Hr Hn).
Qed.
Lemma kept_getBackend name : kept stands (GetRegionBackendService name (g_region g) : io LW _) (λ b, bs_Name b = name ∧ (name = bs → ∃ links, backendSet clusterID svc hc links (Some b))).
Proof.
  apply kept_exec. intros w r w' E Hw. split; [eapply stands_aside; [|exact E|done]; by apply read_aside|]. intros b ->.
  split; [by eapply backend_named|]. intros ->.
  destruct (stands_elim w Hw) as (links & new & _ & Hb & _). apply backends_step in E as [_ E]. rewrite E in Hb. by exists links.
Qed.

(** ** The operations for another service *)
Context `{!Sha1Separates}.
Variable o : Service.
Hypothesis other : GetLoadBalancerName o ≠ lb.
Hypothesis valid_svc : validService svc.
Hypothesis valid_o : validService o.
Abbreviation olb := (GetLoadBalancerName o).
Abbreviation obs := (ilbBackendService clusterID o).
Abbreviation ohcn := (ilbHealthCheck clusterID o).

(** *** Teardown *)
Lemma kept_teardownBackend name : kept stands (teardownInternalBackendService g name : io LW unit) (λ _, True).
Proof.
  unfold teardownInternalBackendService. eapply keeps_bind.
  { apply keeps_try, (kept_exec C stands _ (λ _, True)). intros w r w' E Hw. split; [by eapply stands_delete_backend|done]. }
  intros [e|[]] _; [destruct (isNotFound e); [|destruct (isInUsedByError e)]|]; first [by apply keeps_ret | apply keeps_fail].
Qed.
Lemma kept_deleteFirewall fwName wrap :
  fwName ≠ MakeFirewallName lb → fwName ≠ hcFirewall → kept stands (deleteFirewallOrRaise g o fwName wrap : io LW unit) (λ _, True).
Proof.
  intros Hf1 Hf2. apply kept_aside. unfold deleteFirewallOrRaise. clients. emit_steps; unfold asideEvent, aside; cbn; split_and!; congruence.
Qed.
Lemma kept_teardownCheck name : kept stands (teardownInternalHealthCheckAndFirewall g o name : io LW unit) (λ _, True).
Proof.
  unfold teardownInternalHealthCheckAndFirewall. cbv zeta.
  assert (name ≠ hcn → kept stands (deleteFirewallOrRaise g o (makeHealthCheckFirewallNameFromHC name)
      (λ _, Errorf "failed to delete health check firewall: %v, err: %v") : io LW unit) (λ _, True)) as Hfw.
  { intros Hn. apply kept_deleteFirewall; [by intros E; eapply firewallName_not_check|]. by intros E%checkFirewall_inj. }
  eapply keeps_bind; [apply (kept_try_exec C stands (HealthChecksDelete name) (λ r, gone r → name ≠ hcn))|].
  { intros w r w' E Hw. by apply (stands_delete_check name w r w'). }
  intros [e|[]] Hr; cbv beta iota in Hr.
  - destruct (isNotFound e) eqn:Ee; [by apply Hfw, Hr|]. destruct (isInUsedByError e); [by apply keeps_ret|apply keeps_fail].
  - by apply Hfw, Hr.
Qed.

Ltac aside_call := unfold asideEvent, aside; cbn; split_and!; try congruence; try (intros [= ?]; subst; naive_solver).

Lemma kept_delete : kept stands (ensureInternalLoadBalancerDeleted g clusterID o : io (lbState * LW) unit) (λ _, True).
Proof.
  unfold ensureInternalLoadBalancerDeleted. cbv zeta. destruct (getPortsAndProtocol (svc_Ports o)) as [[ports ranges] protocol] eqn:Ep.
  eapply keeps_bind; [apply kept_aside; clients; emit_steps; by aside_call|intros _ _].
  eapply keeps_bind; [apply kept_aside; clients; emit_steps; by aside_call|intros _ _].
  eapply keeps_bind; [apply kept_on_snd, kept_teardownBackend|intros _ _].
  eapply keeps_bind; [apply kept_on_snd, kept_deleteFirewall; [by intros E%append_inj_l|apply firewallName_not_check]|intros _ _].
  eapply keeps_bind; [apply kept_on_snd, kept_deleteFirewall; [apply legacy_not_firewall|apply legacy_not_check]|intros _ _].
  eapply keeps_bind; [apply kept_on_snd, kept_teardownCheck|intros _ _].
  eapply keeps_bind.
  { apply kept_aside. unfold ensureInternalInstanceGroupsDeleted. clients. emit_steps; try by aside_call.
    match goal with |- emits _ (deleteInZones _ ?zs) _ => induction zs as [|z zs IH]; cbn; [emit_steps|] end. clients. emit_steps; try done; by aside_call. }
  intros _ _. apply kept_aside. clients. emit_steps; by aside_call.
Qed.

(** *** Creation *)
(** The health check of both services is the one that is there, and it is as the
    other service wants it. *)
Lemma shared_expected : ohcn = hcn →
  newInternalLBHealthCheck ohcn (namespacedName o) (negb (RequestsOnlyLocalTraffic o)) (ilbCheckPathPort o).1 (ilbCheckPathPort o).2 =
  newInternalLBHealthCheck hcn (namespacedName svc) (negb (RequestsOnlyLocalTraffic svc)) path port.
Proof. intros E. destruct (same_check _ _ _ other E) as [Eo Es]. unfold ilbCheckPathPort. rewrite Eo, Es, E. reflexivity. Qed.
Lemma kept_ensureCheck :
  kept stands (ensureInternalHealthCheck ohcn (namespacedName o) (negb (RequestsOnlyLocalTraffic o)) (ilbCheckPathPort o).1 (ilbCheckPathPort o).2 : io LW _)
    (λ h, ohcn = hcn → h = hc).
Proof.
  destruct (decide (ohcn = hcn)) as [E|Hn].
  - unfold ensureInternalHealthCheck. cbv zeta. rewrite (shared_expected E). intros s Hs. revert s Hs.
    eapply keeps_bind; [apply kept_getCheck|]. intros x Hx. rewrite (Hx E). intros s Hs.
    assert (needToUpdateHealthChecks hc (newInternalLBHealthCheck hcn (namespacedName svc) (negb (RequestsOnlyLocalTraffic svc)) path port) = false) as ->
      by (destruct (stands_elim _ Hs) as (? & ? & [_ Hc] & _); exact Hc).
    by apply keeps_ret.
  - eapply keeps_mono; [|apply (kept_calls stands C (checkScope clusterID o)); [apply only_ensureInternalHealthCheck|]]; [done|].
    intros B c w r w' Hc E. eapply stands_aside; [|exact E]. destruct c; try (by apply read_aside); aside_call.
Qed.

(** A shared backend service is written as both services want it. *)
Lemma shared_backend h links f : obs = bs → h = hc →
  backendSet clusterID svc hc links (Some (set_Fingerprint f (expectedBackend obs (getPortsAndProtocol (svc_Ports o)).2
    (makeBackendServiceDescription (namespacedName o) (shareBackendService o)) (hc_SelfLink h) links (svc_SessionAffinity o) SchemeInternal))).
Proof.
  intros E ->. destruct (same_backend_name clusterID o svc other _ valid_o valid_svc E) as (So & Ss & Ep & Ea).
  eexists. split; [done|]. rewrite So, Ss, Ep, Ea, E. apply backendSvcEqual_refl.
Qed.
Lemma kept_ensureBackend links h protocol :
  protocol = (getPortsAndProtocol (svc_Ports o)).2 → (ohcn = hcn → h = hc) →
  kept stands (ensureInternalBackendService g obs (makeBackendServiceDescription (namespacedName o) (shareBackendService o))
    (svc_SessionAffinity o) SchemeInternal protocol links (hc_SelfLink h) : io LW unit) (λ _, True).
Proof.
  intros -> Hh. destruct (decide (obs = bs)) as [E|Hn].
  - assert (h = hc) as Eh.
    { destruct (same_backend_name clusterID o svc other _ valid_o valid_svc E) as (So & Ss & _). apply Hh, shared_check.
      all: unfold shareBackendService in So, Ss; apply andb_true_iff in So as [_ So%negb_true_iff], Ss as [_ Ss%negb_true_iff]; done. }
    unfold ensureInternalBackendService. cbv zeta. fold (expectedBackend obs (getPortsAndProtocol (svc_Ports o)).2
      (makeBackendServiceDescription (namespacedName o) (shareBackendService o)) (hc_SelfLink h) links (svc_SessionAffinity o) SchemeInternal).
    pose proof (λ f, shared_backend h links f E Eh) as Hb.
    eapply keeps_bind; [apply kept_optional, kept_getBackend|]. intros [b|] _.
    + destruct (backendSvcEqual _ b); [by apply keeps_ret|]. apply kept_exec. intros w r w' Ex Hw. split; [|done].
      eapply stands_put_backend; [exact E|by right|apply (Hb (bs_Fingerprint b))|exact Ex|done].
    + apply kept_exec. intros w r w' Ex Hw. split; [|done].
      eapply stands_put_backend; [exact E|by left|apply (Hb EmptyString)|exact Ex|done].
  - apply (kept_calls stands C (backendScope g clusterID o)); [apply only_ensureInternalBackendService|].
    intros B c w r w' Hc E. eapply stands_aside; [|exact E]. destruct c; try (by apply read_aside); aside_call.
Qed.

(** The names of the firewalls of the other service. *)
Lemma other_firewalls n : n = MakeFirewallName olb ∨ n = olb ∨ (∃ x, x ≠ hcn ∧ n = makeHealthCheckFirewallNameFromHC x) → n ≠ MakeFirewallName lb ∧ n ≠ hcFirewall.
Proof.
  intros [->|[->|(x & Hx & ->)]]; (split; [|]).
  - by intros E%append_inj_l.
  - apply firewallName_not_check.
  - apply legacy_not_firewall.
  - apply legacy_not_check.
  - intros E. by eapply firewallName_not_check.
  - by intros E%checkFirewall_inj.
Qed.
Lemma firewall_aside (c : Call unit) n : touchedFirewall c = Some n → n ≠ MakeFirewallName lb ∧ n ≠ hcFirewall → aside c.
Proof. intros Hn []. destruct c; simplify_eq/=; unfold aside; cbn; split_and!; congruence. Qed.

(** The firewall of the shared health check. *)
Lemma kept_checked (m : io (lbState * LW) unit) cmd : kept stands m (λ _, True) → kept stands (r ← try m; raiseOrFail g o cmd r) (λ _, True).
Proof.
  intros Hm. eapply keeps_bind; [by apply keeps_try|]. intros r _. apply kept_aside. apply only_raiseOrFail. intros. by aside_call.
Qed.
Lemma kept_putFirewall (c : Call unit) x :
  c = FirewallsInsert hcFirewall x ∨ c = FirewallsPatch hcFirewall x →
  firewallSet g hcFirewall EmptyString EmptyString (unsorted (g_l4LbSrcRngs g)) [Uitoa port] ProtocolTCP (Some x) →
  kept stands (on_snd (exec c) : io (lbState * LW) unit) (λ _, True).
Proof. intros Hc Hx. apply kept_on_snd, kept_exec. intros w r w' E Hw. split; [by eapply stands_put_firewall|done]. Qed.
Lemma kept_sharedFirewall nodes :
  kept stands (ensureInternalFirewall g o hcFirewall EmptyString EmptyString (unsorted (g_l4LbSrcRngs g)) [Uitoa port] ProtocolTCP nodes EmptyString
    : io (lbState * LW) unit) (λ _, True).
Proof.
  unfold ensureInternalFirewall. cbv zeta. rewrite bool_decide_eq_true_2 by done.
  eapply keeps_bind; [apply kept_aside; emit_steps; apply only_GetNodeTags; intros A c r; apply read_aside|]. intros tags _.
  eapply keeps_bind; [apply kept_aside; clients; emit_steps; by apply read_aside|]. intros existing _.
  eapply keeps_bind; [by apply (keeps_ret _ _ (λ b, b = false))|]. intros b ->.
  set (e := expectedFirewall g hcFirewall EmptyString EmptyString (unsorted (g_l4LbSrcRngs g)) [Uitoa port] ProtocolTCP tags).
  assert (firewallSet g hcFirewall EmptyString EmptyString (unsorted (g_l4LbSrcRngs g)) [Uitoa port] ProtocolTCP (Some e)) as He.
  { exists tags, e. split; [done|]. by eapply firewallRuleEqual_refl. }
  apply kept_finally; [|by apply keeps_ret]. unfold applyFirewall. destruct existing as [x|]; [destruct (firewallRuleEqual e x); [by apply keeps_ret|]|].
  - apply kept_checked, (kept_putFirewall _ e); [by right|done].
  - apply kept_checked, (kept_putFirewall _ e); [by left|done].
Qed.
Lemma kept_firewalls ip' nodes :
  kept stands (ensureInternalFirewalls g olb ip' clusterID (namespacedName o) o (Uitoa (ilbCheckPathPort o).2) (negb (RequestsOnlyLocalTraffic o)) nodes
    : io (lbState * LW) unit) (λ _, True).
Proof.
  unfold ensureInternalFirewalls. destruct (getPortsAndProtocol (svc_Ports o)) as [[ports ranges] protocol].
  eapply keeps_bind; [by apply (keeps_lift _ _ (λ _, True))|]. intros src _. rewrite checkFirewall_name.
  eapply keeps_bind.
  { apply (kept_calls stands C (oneFirewall o (MakeFirewallName olb) olb)); [apply only_ensureInternalFirewall|].
    intros B c w r w' Hc E. eapply stands_aside; [|exact E].
    destruct c; try (by apply read_aside); try (by aside_call); (eapply firewall_aside; [reflexivity|]); apply other_firewalls; cbn in Hc; naive_solver. }
  intros _ _. fold ohcn. destruct (decide (ohcn = hcn)) as [E|Hn].
  - destruct (same_check _ _ _ other E) as [Eo Es]. rewrite E.
    assert ((ilbCheckPathPort o).2 = port) as -> by (unfold ilbCheckPathPort; by rewrite Eo, Es). apply kept_sharedFirewall.
  - apply (kept_calls stands C (oneFirewall o (makeHealthCheckFirewallNameFromHC ohcn) EmptyString)); [apply only_ensureInternalFirewall|].
    intros B c w r w' Hc E. eapply stands_aside; [|exact E].
    destruct c; try (by apply read_aside); try (by aside_call); (eapply firewall_aside; [reflexivity|]); apply other_firewalls; cbn in Hc; naive_solver.
Qed.

Lemma kept_clear existing : kept stands (clearPreviousInternalResources g o existing obs ohcn : io LW unit) (λ _, True).
Proof.
  unfold clearPreviousInternalResources. eapply keeps_bind.
  { case_bool_decide; [eapply kept_ignored, kept_teardownBackend|by apply keeps_ret]. }
  intros _ _. destruct (bs_HealthChecks existing) as [|link [|]]; cbv zeta; try by apply keeps_ret.
  case_bool_decide; [eapply kept_ignored, kept_teardownCheck|by apply keeps_ret].
Qed.

Lemma kept_assemble existing nodes options links existingBS h new :
  fr_Name new = olb → (ohcn = hcn → h = hc) →
  kept stands (assembleInternal g clusterID o existing nodes options obs links existingBS h ohcn (ilbCheckPathPort o).2 new : io (lbState * LW) _) (λ _, True).
Proof.
  intros Hn Hh. unfold assembleInternal. cbv zeta. destruct (getPortsAndProtocol (svc_Ports o)) as [[ports ranges] protocol] eqn:Ep.
  set (changed := match existing with Some r => _ | None => _ end).
  eapply keeps_bind; [apply kept_aside; clients; emit_steps; by aside_call|intros _ _].
  eapply keeps_bind; [apply kept_on_snd, kept_ensureBackend; [by rewrite Ep|done]|intros _ _].
  eapply keeps_bind.
  { apply kept_aside. unfold ensureInternalForwardingRule. cbv zeta. clients. emit_steps. unfold asideEvent, aside. cbn. rewrite Hn. split_and!; congruence. }
  intros _ _. eapply keeps_bind; [apply kept_aside; clients; emit_steps; by apply read_aside|intros r _].
  eapply keeps_bind; [apply kept_firewalls|intros _ _].
  eapply (keeps_bind _ _ _ (λ _, True)); [destruct existingBS; [apply kept_on_snd, kept_clear|by apply keeps_ret]|intros _ _]. by apply keeps_ret.
Qed.

Lemma kept_around {A} am (m : string → io (lbState * LW) A) :
  (∀ ip, kept stands (m ip) (λ _, True)) →
  kept stands ('(ip, am) ← on_snd (method am HoldAddress); finally (m ip) (on_snd (ignored (method am ReleaseAddress)))) (λ _, True).
Proof.
  intros Hm. eapply keeps_bind.
  - apply (kept_calls stands C (addressScope (am_name am) (am_region am))).
    + apply emits_on_snd. eapply emits_weaken; [apply emits_hold|]. by intros r l (r0 & am' & _ & _ & _ & Hs & _).
    + intros B c w r w' Hc E. eapply stands_aside; [|exact E]. by destruct c.
  - intros [ip' am'] _. apply kept_finally; [apply Hm|]. apply kept_aside, emits_on_snd. eapply emits_weaken; [apply emits_release|].
    intros r l. destruct (am_tryRelease am'); [intros [r1 ->]|intros ->]; by repeat constructor.
Qed.

Lemma kept_resources existing nodes : kept stands (ensureInternalResources g clusterID o existing nodes : io (lbState * LW) _) (λ _, True).
Proof.
  unfold ensureInternalResources. cbv zeta. destruct (getPortsAndProtocol (svc_Ports o)) as [[ports ranges] protocol] eqn:Ep.
  destruct (_ && _); [apply keeps_fail|].
  eapply keeps_bind; [apply kept_aside; clients; emit_steps; by aside_call|intros options _].
  eapply keeps_bind.
  { apply (kept_calls stands C (groupScope clusterID)); [apply emits_on_snd, only_ensureInternalInstanceGroups|].
    intros B c w r w' Hc E. eapply stands_aside; [|exact E]. by destruct c. }
  intros links _. eapply keeps_bind; [apply kept_aside; clients; emit_steps; by apply read_aside|intros existingBS _].
  fold (ilbCheckPathPort o). rewrite (surjective_pairing (ilbCheckPathPort o)).
  eapply keeps_bind; [apply kept_on_snd, kept_ensureCheck|intros h Hh].
  assert (makeBackendServiceName olb clusterID (shareBackendService o) SchemeInternal protocol (svc_SessionAffinity o) = obs) as ->
    by (unfold ilbBackendService; by rewrite Ep).
  assert (∀ ip s, fr_Name (newForwardingRule g o olb ip (getBackendServiceLink g obs) s options) = olb) as Hn
    by (intros; unfold newForwardingRule; by rewrite Ep).
  destruct (g_isLegacyNetwork g); [by apply kept_assemble|]. apply kept_around. intros ip'. by apply kept_assemble.
Qed.

Lemma kept_ensure existing nodes : kept stands (ensureInternalLoadBalancer g clusterID o existing nodes : io (lbState * LW) _) (λ _, True).
Proof.
  unfold ensureInternalLoadBalancer. destruct (_ && _); [apply keeps_fail|].
  apply kept_deferring; [|intros l; apply kept_aside; emit_steps].
  eapply keeps_bind; [apply kept_aside; clients; emit_steps; by aside_call|intros _ _].
  eapply keeps_bind; [apply kept_on_snd, kept_resources|intros [ip' state] _]. apply kept_aside. emit_steps.
Qed.

(** A change of the members is one of the groups of the backend service. *)
Lemma kept_update nodes : kept stands (updateInternalLoadBalancer g clusterID o nodes : io (lbState * LW) unit) (λ _, True).
Proof.
  unfold updateInternalLoadBalancer. destruct (_ && _); [apply keeps_fail|].
  eapply keeps_bind.
  { apply (kept_calls stands C (groupScope clusterID)); [apply emits_on_snd, only_ensureInternalInstanceGroups|].
    intros B c w r w' Hc E. eapply stands_aside; [|exact E]. by destruct c. }
  intros links _. destruct (getPortsAndProtocol (svc_Ports o)) as [[ports ranges] protocol] eqn:Ep. cbv zeta.
  assert (makeBackendServiceName olb clusterID (shareBackendService o) SchemeInternal protocol (svc_SessionAffinity o) = obs) as ->
    by (unfold ilbBackendService; by rewrite Ep).
  apply kept_on_snd. unfold ensureInternalBackendServiceGroups.
  eapply keeps_bind; [apply kept_getBackend|intros b [Hn Hb]]. destruct (backendsListEqual (bs_Backends b) links); [by apply keeps_ret|].
  apply kept_exec. intros w r w' E Hw. split; [|done]. destruct (decide (obs = bs)) as [Eb|Eb].
  - destruct (Hb Eb) as (old & x & [= <-] & Heq). eapply (stands_put_backend _ (bs_Name b) _ links); [congruence|by right| |exact E|done].
    eexists. split; [done|]. unfold backendSvcEqual in *. rewrite !andb_true_iff in *. destruct Heq as [Heq _]. split; [exact Heq|apply backendsListEqual_refl].
  - eapply stands_aside; [|exact E|done]. unfold aside. cbn. rewrite Hn. split_and!; congruence.
Qed.
End stands.
