(* ===== verification/FakeLb.v ===== *)
(** * FakeLb: a compute API in memory

    A concrete world for the load balancers: tables in memory that answer as
    [LbStore] describes.  The theorems on load balancers are applied to runs in
    this world. *)

From S2P Require Import Prelude Bits GoNet GoNetText GoStrings NetUtils GnpValidations NodeIpamConfig K8s IoLogic GceInstances AddressManager NodeAnnotator LoadBalancer GceHosts ComputeCalls ClusterId InternalLb Goroutines ExternalLb LbDispatch LbLogic LbStore InternalLbScope InternalLbEnsure.
Local Open Scope Z_scope.

Record memory : Type := mkMemory {
  m_addresses : gmap key Address;
  m_rules : gmap key ForwardingRule;
  m_backends : gmap key BackendService;
  m_checks : gmap string HealthCheck;
  m_httpChecks : gmap string HttpHealthCheck;
  m_firewalls : gmap string Firewall;
  m_groups : gmap key (gset string);
  m_pools : gmap key TargetPool;
  m_instances : gmap string (list ListedInstance);
  m_zones : list string;
  m_finalizers : list string;
  m_uid : option (gmap string string)
}.

Definition set_addresses f (m : memory) : memory := mkMemory (f (m_addresses m)) (m_rules m) (m_backends m) (m_checks m) (m_httpChecks m) (m_firewalls m) (m_groups m) (m_pools m) (m_instances m) (m_zones m) (m_finalizers m) (m_uid m).
Definition set_rules f (m : memory) : memory := mkMemory (m_addresses m) (f (m_rules m)) (m_backends m) (m_checks m) (m_httpChecks m) (m_firewalls m) (m_groups m) (m_pools m) (m_instances m) (m_zones m) (m_finalizers m) (m_uid m).
Definition set_backends f (m : memory) : memory := mkMemory (m_addresses m) (m_rules m) (f (m_backends m)) (m_checks m) (m_httpChecks m) (m_firewalls m) (m_groups m) (m_pools m) (m_instances m) (m_zones m) (m_finalizers m) (m_uid m).
Definition set_checks f (m : memory) : memory := mkMemory (m_addresses m) (m_rules m) (m_backends m) (f (m_checks m)) (m_httpChecks m) (m_firewalls m) (m_groups m) (m_pools m) (m_instances m) (m_zones m) (m_finalizers m) (m_uid m).
Definition set_httpChecks f (m : memory) : memory := mkMemory (m_addresses m) (m_rules m) (m_backends m) (m_checks m) (f (m_httpChecks m)) (m_firewalls m) (m_groups m) (m_pools m) (m_instances m) (m_zones m) (m_finalizers m) (m_uid m).
Definition set_firewalls f (m : memory) : memory := mkMemory (m_addresses m) (m_rules m) (m_backends m) (m_checks m) (m_httpChecks m) (f (m_firewalls m)) (m_groups m) (m_pools m) (m_instances m) (m_zones m) (m_finalizers m) (m_uid m).
Definition set_groups f (m : memory) : memory := mkMemory (m_addresses m) (m_rules m) (m_backends m) (m_checks m) (m_httpChecks m) (m_firewalls m) (f (m_groups m)) (m_pools m) (m_instances m) (m_zones m) (m_finalizers m) (m_uid m).
Definition set_pools f (m : memory) : memory := mkMemory (m_addresses m) (m_rules m) (m_backends m) (m_checks m) (m_httpChecks m) (m_firewalls m) (m_groups m) (f (m_pools m)) (m_instances m) (m_zones m) (m_finalizers m) (m_uid m).
Definition set_finalizers f (m : memory) : memory := mkMemory (m_addresses m) (m_rules m) (m_backends m) (m_checks m) (m_httpChecks m) (m_firewalls m) (m_groups m) (m_pools m) (m_instances m) (m_zones m) (f (m_finalizers m)) (m_uid m).
Definition set_uid f (m : memory) : memory := mkMemory (m_addresses m) (m_rules m) (m_backends m) (m_checks m) (m_httpChecks m) (m_firewalls m) (m_groups m) (m_pools m) (m_instances m) (m_zones m) (m_finalizers m) (f (m_uid m)).

(** ** Answers *)
Definition notFound : error := ErrGoogleAPI 404.
Definition find_in {K V} `{Countable K} (t : gmap K V) (k : K) : outcome V := match t !! k with Some v => Ret v | None => Err notFound end.
Definition new_in {K V} `{Countable K} (t : gmap K V) (k : K) (put : memory) (m : memory) : outcome unit * memory :=
  match t !! k with None => (Ret tt, put) | Some _ => (Err (ErrGoogleAPI 409), m) end.
Definition old_in {K V} `{Countable K} (t : gmap K V) (k : K) (put : memory) (m : memory) : outcome unit * memory :=
  match t !! k with Some _ => (Ret tt, put) | None => (Err notFound, m) end.

(** Addresses are handed out for an empty request. *)
Definition or_ip (ip : string) : string := if bool_decide (ip = EmptyString) then "10.0.0.7"%string else ip.
Definition keep_address (a : Address) : Address := mkAddress (addr_Name a) (addr_Description a) (or_ip (addr_Address a)) (addr_Type a) (addr_Subnetwork a) (addr_NetworkTier a).
Definition link_of (kind name : string) : string := ("https://www.googleapis.com/compute/v1/projects/p/global/" +:+ kind +:+ "/" +:+ name)%string.
Definition keep_http (hc : HttpHealthCheck) : HttpHealthCheck :=
  mkHttpHC (hh_Name hc) (hh_Port hc) (hh_RequestPath hc) (hh_Description hc) (hh_CheckIntervalSec hc) (hh_TimeoutSec hc) (hh_HealthyThreshold hc) (hh_UnhealthyThreshold hc) (link_of "httpHealthChecks" (hh_Name hc)).
Definition with_instances (tp : TargetPool) (l : list string) : TargetPool := mkTP (tp_Name tp) (tp_Description tp) l (tp_SessionAffinity tp) (tp_HealthChecks tp).

(** The members; a name with a slash is none. *)
Definition list_members (s : gset string) : outcome (list string) :=
  if forallb (λ n, bool_decide (lastComponent n = n)) (elements s) then Ret (elements s) else Err (ErrGoogleAPI 500).

Definition memory_exec {A} (c : Call A) : io memory A :=
  match c in Call A return io memory A with
  | AddressesInsert n r a => λ m, new_in (m_addresses m) (n, r) (set_addresses <[ (n, r) := keep_address a ]> m) m
  | AddressesGet n r => λ m, (find_in (m_addresses m) (n, r), m)
  | AddressesList r ip => λ m, (Ret (filter (λ a, addr_Address a = ip) (map_to_list (m_addresses m)).*2), m)
  | AddressesDelete n r => λ m, old_in (m_addresses m) (n, r) (set_addresses (delete (n, r)) m) m
  | ForwardingRulesInsert n r x => λ m, new_in (m_rules m) (n, r) (set_rules <[ (n, r) := set_IPAddress (or_ip (fr_IPAddress x)) x ]> m) m
  | ForwardingRulesGet n r => λ m, (find_in (m_rules m) (n, r), m)
  | ForwardingRulesDelete n r => λ m, old_in (m_rules m) (n, r) (set_rules (delete (n, r)) m) m
  | BackendServicesInsert n r x => λ m, new_in (m_backends m) (n, r) (set_backends <[ (n, r) := set_Fingerprint "f1" x ]> m) m
  | BackendServicesGet n r => λ m, (find_in (m_backends m) (n, r), m)
  | BackendServicesUpdate n r x => λ m, old_in (m_backends m) (n, r) (set_backends <[ (n, r) := set_Fingerprint (bs_Fingerprint x +:+ "1") x ]> m) m
  | BackendServicesDelete n r => λ m, old_in (m_backends m) (n, r) (set_backends (delete (n, r)) m) m
  | HealthChecksInsert n x => λ m, new_in (m_checks m) n (set_checks <[ n := set_SelfLink (link_of "healthChecks" n) x ]> m) m
  | HealthChecksGet n => λ m, (find_in (m_checks m) n, m)
  | HealthChecksUpdate n x => λ m, old_in (m_checks m) n (set_checks <[ n := set_SelfLink (link_of "healthChecks" n) x ]> m) m
  | HealthChecksDelete n => λ m, old_in (m_checks m) n (set_checks (delete n) m) m
  | HttpHealthChecksInsert n x => λ m, new_in (m_httpChecks m) n (set_httpChecks <[ n := keep_http x ]> m) m
  | HttpHealthChecksGet n => λ m, (find_in (m_httpChecks m) n, m)
  | HttpHealthChecksUpdate n x => λ m, old_in (m_httpChecks m) n (set_httpChecks <[ n := keep_http x ]> m) m
  | HttpHealthChecksDelete n => λ m, old_in (m_httpChecks m) n (set_httpChecks (delete n) m) m
  | FirewallsInsert n x => λ m, new_in (m_firewalls m) n (set_firewalls <[ n := x ]> m) m
  | FirewallsGet n => λ m, (find_in (m_firewalls m) n, m)
  | FirewallsPatch n x => λ m, old_in (m_firewalls m) n (set_firewalls <[ n := x ]> m) m
  | FirewallsDelete n => λ m, old_in (m_firewalls m) n (set_firewalls (delete n) m) m
  | InstanceGroupsInsert n z => λ m, new_in (m_groups m) (n, z) (set_groups <[ (n, z) := ∅ ]> m) m
  | InstanceGroupsGet n z => λ m, (match m_groups m !! (n, z) with Some _ => Ret (mkIG n (link_of z n)) | None => Err notFound end, m)
  | InstanceGroupsList z f => λ m, (Ret ((λ x, mkIG x.1.1 (link_of z x.1.1)) <$> filter (λ x, x.1.2 = z) (map_to_list (m_groups m))), m)
  | InstanceGroupsDelete n z => λ m, old_in (m_groups m) (n, z) (set_groups (delete (n, z)) m) m
  | InstanceGroupsListInstances n z => λ m, (match m_groups m !! (n, z) with Some s => list_members s | None => Err notFound end, m)
  | InstanceGroupsAddInstances n z refs => λ m, old_in (m_groups m) (n, z) (set_groups (λ t, <[ (n, z) := default ∅ (t !! (n, z)) ∪ list_to_set (lastComponent <$> refs) ]> t) m) m
  | InstanceGroupsRemoveInstances n z refs => λ m, old_in (m_groups m) (n, z) (set_groups (λ t, <[ (n, z) := default ∅ (t !! (n, z)) ∖ list_to_set (lastComponent <$> refs) ]> t) m) m
  | TargetPoolsInsert n r x => λ m, new_in (m_pools m) (n, r) (set_pools <[ (n, r) := x ]> m) m
  | TargetPoolsGet n r => λ m, (find_in (m_pools m) (n, r), m)
  | TargetPoolsDelete n r => λ m, old_in (m_pools m) (n, r) (set_pools (delete (n, r)) m) m
  | TargetPoolsAddInstance n r refs => λ m, match m_pools m !! (n, r) with
      | Some tp => (Ret tt, set_pools <[ (n, r) := with_instances tp (tp_Instances tp ++ refs) ]> m)
      | None => (Err notFound, m) end
  | TargetPoolsRemoveInstance n r refs => λ m, match m_pools m !! (n, r) with
      | Some tp => (Ret tt, set_pools <[ (n, r) := with_instances tp (filter (λ i, i ∉ refs) (tp_Instances tp)) ]> m)
      | None => (Err notFound, m) end
  | InstancesList z f => λ m, (Ret (default [] (m_instances m !! z)), m)
  | ZonesList r => λ m, (Ret (m_zones m), m)
  | ServicesPatchFinalizers ns n old new => λ m, (Ret tt, set_finalizers (λ _, new) m)
  | ServicesApplyPortsError ns n => λ m, (Ret tt, m)
  | RecordEvent ns n reason msg => λ m, (Ret tt, m)
  | ConfigMapsFromStore k => λ m, (Ret (Some <$> m_uid m), m)
  | ConfigMapsCreate ns n data => λ m, (Ret tt, set_uid (λ _, Some data) m)
  | RandomUID => λ m, (Ret "0123456789abcdef"%string, m)
  end.

#[global] Instance memory_compute : Compute memory := {| exec := @memory_exec |}.
#[global] Instance memory_order : MapOrder := {| range A m := map_to_list m; range_perm A m := reflexivity _ |}.
#[global] Instance memory_sha1 : Sha1 := {| sha1_hex s := "da39a3ee5e6b4b0d3255bfef95601890afd80709"%string |}.

(** ** It is a store *)
Lemma list_members_spec s l : list_members s = Ret l → s = list_to_set (lastComponent <$> l).
Proof.
  unfold list_members. destruct (forallb _ _) eqn:E; [|done]. intros [= <-]. rewrite forallb_forall in E.
  assert (∀ n, n ∈ s → lastComponent n = n) as Hs.
  { intros n Hn. eapply bool_decide_eq_true_1, E. apply list_elem_of_In. by apply elem_of_elements. }
  apply set_eq. intros x. rewrite elem_of_list_to_set, list_elem_of_fmap. split.
  - intros Hx. exists x. rewrite Hs by done. by rewrite elem_of_elements.
  - intros (y & -> & Hy). apply elem_of_elements in Hy. by rewrite Hs.
Qed.

Lemma find_in_answers {K V} `{Countable K} (t : gmap K V) k : answers t t k (find_in t k).
Proof. split; [done|]. unfold find_in. by destruct (t !! k). Qed.
Lemma new_in_changes {K V T} `{Countable K} (t : gmap K V) k (f : memory → T) m0 m r m' (P : T → Prop) :
  new_in t k m0 m = (r, m') → P (f m0) → changes (f m) (f m') r P.
Proof. unfold new_in. by destruct (t !! k); intros [= <- <-]. Qed.
Lemma old_in_changes {K V T} `{Countable K} (t : gmap K V) k (f : memory → T) m0 m r m' (P : T → Prop) :
  old_in t k m0 m = (r, m') → (is_Some (t !! k) → P (f m0)) → changes (f m) (f m') r P.
Proof. unfold old_in. destruct (t !! k); intros [= <- <-] HP; [|done]. apply HP. eauto. Qed.
Lemma new_in_same {K V T} `{Countable K} (t : gmap K V) k (f : memory → T) m0 m r m' : new_in t k m0 m = (r, m') → f m0 = f m → f m' = f m.
Proof. unfold new_in. by destruct (t !! k); intros [= <- <-]. Qed.
Lemma old_in_same {K V T} `{Countable K} (t : gmap K V) k (f : memory → T) m0 m r m' : old_in t k m0 m = (r, m') → f m0 = f m → f m' = f m.
Proof. unfold old_in. by destruct (t !! k); intros [= <- <-]. Qed.

(** A call that does not concern a table. *)
Ltac same_table f := first
  [ by intros [= <- <-]
  | intros E; eapply (new_in_same _ _ f) in E; [exact E|reflexivity]
  | intros E; eapply (old_in_same _ _ f) in E; [exact E|reflexivity]
  | by destruct (_ !! _); intros [= <- <-] ].

Lemma rules_memory {A} (c : Call A) w r w' : exec c w = (r, w') → rulesAfter c (m_rules w) (m_rules w') r.
Proof.
  unfold exec. destruct c; cbn [memory_compute memory_exec rulesAfter]; try (same_table m_rules).
  - intros E. eapply (new_in_changes _ _ m_rules); [exact E|]. eexists. split; [|reflexivity]. unfold or_ip. by case_bool_decide.
  - intros [= <- <-]. apply find_in_answers.
  - intros E. by eapply (old_in_changes _ _ m_rules).
Qed.
Lemma backends_memory {A} (c : Call A) w r w' : exec c w = (r, w') → backendsAfter c (m_backends w) (m_backends w') r.
Proof.
  unfold exec. destruct c; cbn [memory_compute memory_exec backendsAfter]; try (same_table m_backends).
  - intros E. eapply (new_in_changes _ _ m_backends); [exact E|]. by eexists.
  - intros [= <- <-]. apply find_in_answers.
  - intros E. eapply (old_in_changes _ _ m_backends); [exact E|]. by eexists.
  - intros E. by eapply (old_in_changes _ _ m_backends).
Qed.
Lemma checks_memory {A} (c : Call A) w r w' : exec c w = (r, w') → checksAfter c (m_checks w) (m_checks w') r.
Proof.
  unfold exec. destruct c; cbn [memory_compute memory_exec checksAfter]; try (same_table m_checks).
  - intros E. eapply (new_in_changes _ _ m_checks); [exact E|]. by eexists.
  - intros [= <- <-]. apply find_in_answers.
  - intros E. eapply (old_in_changes _ _ m_checks); [exact E|]. by eexists.
  - intros E. by eapply (old_in_changes _ _ m_checks).
Qed.
Lemma firewalls_memory {A} (c : Call A) w r w' : exec c w = (r, w') → firewallsAfter c (m_firewalls w) (m_firewalls w') r.
Proof.
  unfold exec. destruct c; cbn [memory_compute memory_exec firewallsAfter]; try (same_table m_firewalls).
  - intros E. by eapply (new_in_changes _ _ m_firewalls).
  - intros [= <- <-]. apply find_in_answers.
  - intros E. by eapply (old_in_changes _ _ m_firewalls).
  - intros E. by eapply (old_in_changes _ _ m_firewalls).
Qed.
Lemma groups_memory {A} (c : Call A) w r w' : exec c w = (r, w') → groupsAfter c (m_groups w) (m_groups w') r.
Proof.
  unfold exec. destruct c; cbn [memory_compute memory_exec groupsAfter]; try (same_table m_groups).
  - intros E. by eapply (new_in_changes _ _ m_groups).
  - intros E. by eapply (old_in_changes _ _ m_groups).
  - intros [= <- <-]. split; [done|]. intros l. destruct (m_groups w !! (name, zone)) as [s|] eqn:E; [|done]. intros Hl. by rewrite (list_members_spec s l Hl) at 1.
  - intros E. eapply (old_in_changes _ _ m_groups); [exact E|]. intros [s Hs]. exists s. cbn. by rewrite Hs.
  - intros E. eapply (old_in_changes _ _ m_groups); [exact E|]. intros [s Hs]. exists s. cbn. by rewrite Hs.
Qed.
#[global] Instance memory_store : LbStore memory := {|
  rules := m_rules; backends := m_backends; checks := m_checks; firewalls := m_firewalls; groups := m_groups;
  rules_step A := @rules_memory A; backends_step A := @backends_memory A; checks_step A := @checks_memory A;
  firewalls_step A := @firewalls_memory A; groups_step A := @groups_memory A
|}.

(** ** A cluster *)
Definition demo_g : gceConfig :=
  mkGceConfig "p" "p" "us-central1" "https://www.googleapis.com/compute/v1/projects/" "https://www.googleapis.com/compute/v1/projects/p/global/networks/default"
    "https://www.googleapis.com/compute/v1/projects/p/regions/us-central1/subnetworks/default" false false ["us-central1-a"; "us-central1-b"]%string "gke" EmptyString
    ({[ "130.211.0.0/22"; "35.191.0.0/16" ]}%string) false false.
Definition demo_lbNode (name zone : string) : Node :=
  mkNode name ("uid-" +:+ name)%string ∅ {[ LabelTopologyZone := zone ]} (mkSpec EmptyString [] EmptyString []) (mkStatus ∅ []).
Definition demo_svc (fin : list string) : Service :=
  mkService "default" "web" "1234-5678" {[ ServiceAnnotationLoadBalancerType := "Internal"%string ]} fin "LoadBalancer"
    [mkPort "TCP" 80; mkPort "TCP" 81; mkPort "TCP" 443] "None" EmptyString None [] "Cluster" 0 [].
Definition demo_nodes : list Node := [demo_lbNode "gke-n1" "us-central1-a"; demo_lbNode "gke-n2" "us-central1-b"].
Definition demo_memory : memory :=
  mkMemory ∅ ∅ ∅ ∅ ∅ ∅ ∅ ∅
    {[ "us-central1-a" := [mkListed "gke-n1" (Some ["gke"; "web"]) 1 [] "e2"]; "us-central1-b" := [mkListed "gke-n2" (Some ["gke"]) 2 [] "e2"] ]}%string
    ["us-central1-a"; "us-central1-b"]%string [] (Some {[ UIDCluster := "c1"; UIDProvider := "c1" ]}%string).
Definition demo_state : lbState := mkLbState (mkTagCache [] ∅ []) ∅ (mkClusterID true None None).
