(* ===== verification/ExternalLbTrace.v ===== *)
(** * ExternalLbTrace: deleting an external load balancer, in any schedule

    The three goroutines that delete an external load balancer interleave as the
    schedule decides.  The order that matters is kept within one of them: the
    forwarding rule before the target pool, the pool before its health checks. *)

From S2P Require Import Prelude K8s IoLogic AddressManager LoadBalancer GceHosts ComputeCalls ClusterId InternalLb Goroutines ExternalLb LbLogic InternalLbScope.
Local Open Scope Z_scope.

(** ** Traces of programs *)
Fixpoint traces {A} (p : prog A) (l : list event) (o : outcome A) : Prop :=
  match p with
  | Done o' => l = [] ∧ o = o'
  | Send c k => ∃ r l', l = Event c r :: l' ∧ traces (k r) l' o
  end.

Lemma traces_send {X} (c : Call X) l o : traces (send c) l o → l = [Event c o].
Proof. intros (r & l' & -> & -> & ->). done. Qed.
Lemma traces_bind {A B} (p : prog A) (f : A → prog B) l o :
  traces (p ≫= f) l o → ∃ l1 l2 o1, l = l1 ++ l2 ∧ traces p l1 o1 ∧
    match o1 with Ret a => traces (f a) l2 o | Err e => l2 = [] ∧ o = Err e | Panic => l2 = [] ∧ o = Panic end.
Proof.
  revert l. induction p as [o'|X c k IH]; intros l Ht.
  - exists [], l, o'. split; [done|]. split; [done|]. destruct o'; exact Ht.
  - destruct Ht as (r & l' & -> & Ht). destruct (IH r l' Ht) as (l1 & l2 & o1 & -> & H1 & H2).
    exists (Event c r :: l1), l2, o1. split; [done|]. split; [by exists r, l1|done].
Qed.
Lemma traces_attempt {A} (p : prog A) l o :
  traces (attempt p) l o → ∃ o', traces p l o' ∧ o = match o' with Ret a => Ret (inr a) | Err e => Ret (inl e) | Panic => Panic end.
Proof.
  revert l. induction p as [o'|X c k IH]; intros l Ht.
  - exists o'. destruct o'; destruct Ht as [-> ->]; done.
  - destruct Ht as (r & l' & -> & Ht). destruct (IH r l' Ht) as (o' & H1 & H2). exists o'. split; [by exists r, l'|done].
Qed.
(** A call whose answer the continuation inspects. *)
Lemma traces_handle {X B} (c : Call X) (k : error + X → prog B) l o :
  traces (r ← attempt (send c); k r) l o → ∃ r l', l = Event c r :: l' ∧
    match r with Ret a => traces (k (inr a)) l' o | Err e => traces (k (inl e)) l' o | Panic => l' = [] ∧ o = Panic end.
Proof.
  intros (l1 & l2 & o1 & -> & (o' & ->%traces_send & ->)%traces_attempt & Hk)%traces_bind. exists o', l2. split; [done|]. by destruct o'.
Qed.
Lemma traces_notFoundIgnored (c : Call unit) l o :
  traces (notFoundIgnored (send c)) l o → ∃ r, l = [Event c r] ∧ o = match r with Err e => if isNotFound e then Ret tt else Err e | _ => r end.
Proof.
  intros (r & l' & -> & Hk)%traces_handle. exists r. destruct r as [[]|e|]; [|destruct (isNotFound e)|]; destruct Hk as [-> ->]; done.
Qed.

(** ** Interleavings *)
Inductive merged : list event → list event → list event → Prop :=
| merged_nil : merged [] [] []
| merged_l e a b l : merged a b l → merged (e :: a) b (e :: l)
| merged_r e a b l : merged a b l → merged a (e :: b) (e :: l).

Lemma traces_par {A B} (p : prog A) (q : prog B) s l o :
  traces (par p q s) l o → ∃ l1 l2 o1 o2, merged l1 l2 l ∧ traces p l1 o1 ∧ traces q l2 o2 ∧ o = Ret (o1, o2).
Proof.
  revert q s l. induction p as [a|X c k IHp]; intros q; induction q as [b|Y d m IHq]; intros s l Ht; cbn in Ht.
  - destruct Ht as [-> ->]. exists [], [], a, b. repeat split. constructor.
  - destruct Ht as (r & l' & -> & Ht). destruct (IHq r s l' Ht) as (l1 & l2 & o1 & o2 & Hm & H1 & H2 & ->).
    exists l1, (Event d r :: l2), o1, o2. split; [by constructor|]. split; [done|]. split; [by exists r, l2|done].
  - destruct Ht as (r & l' & -> & Ht). destruct (IHp r (Done b) s l' Ht) as (l1 & l2 & o1 & o2 & Hm & H1 & H2 & ->).
    exists (Event c r :: l1), l2, o1, o2. split; [by constructor|]. split; [by exists r, l1|done].
  - destruct (s 0%nat).
    + destruct Ht as (r & l' & -> & Ht). destruct (IHp r (Send d m) _ l' Ht) as (l1 & l2 & o1 & o2 & Hm & H1 & H2 & ->).
      exists (Event c r :: l1), l2, o1, o2. split; [by constructor|]. split; [by exists r, l1|done].
    + destruct Ht as (r & l' & -> & Ht). destruct (IHq r _ l' Ht) as (l1 & l2 & o1 & o2 & Hm & H1 & H2 & ->).
      exists l1, (Event d r :: l2), o1, o2. split; [by constructor|]. split; [done|]. split; [by exists r, l2|done].
Qed.

Lemma merged_sub a b l : merged a b l → a ⊆ l ∧ b ⊆ l.
Proof. induction 1 as [|e a b l Hm [H1 H2]|e a b l Hm [H1 H2]]; set_solver. Qed.
Lemma merged_Forall φ a b l : merged a b l → Forall φ a → Forall φ b → Forall φ l.
Proof. induction 1; rewrite ?Forall_cons; naive_solver. Qed.
(** An event comes with what precedes it in its own trace. *)
Lemma merged_split a b l l1 e l2 : merged a b l → l = l1 ++ e :: l2 →
  (∃ a1 a2, a = a1 ++ e :: a2 ∧ a1 ⊆ l1) ∨ (∃ b1 b2, b = b1 ++ e :: b2 ∧ b1 ⊆ l1).
Proof.
  intros Hm. revert l1. induction Hm as [|e' a b l Hm IH|e' a b l Hm IH]; intros [|e1 l1] E; cbn in E; try done.
  - injection E as -> _. left. by exists [], a.
  - injection E as -> E. destruct (IH l1 E) as [(a1 & a2 & -> & Hs)|(b1 & b2 & -> & Hs)].
    + left. exists (e1 :: a1), a2. split; [done|]. set_solver.
    + right. exists b1, b2. split; [done|]. set_solver.
  - injection E as -> _. right. by exists [], b.
  - injection E as -> E. destruct (IH l1 E) as [(a1 & a2 & -> & Hs)|(b1 & b2 & -> & Hs)].
    + left. exists a1, a2. split; [done|]. set_solver.
    + right. exists (e1 :: b1), b2. split; [done|]. set_solver.
Qed.

(** A run of a program in a world with a trace. *)
Lemma emits_prog {W A} (C : Compute W) (p : prog A) : emits C (@run _ (logged C) A p) (λ o l, traces p l o).
Proof.
  induction p as [o|X c k IH]; [by apply emits_lift|]. intros [w l]. cbn [run]. rewrite logged_exec.
  destruct (@exec W C X c w) as [r w'] eqn:E. destruct (IH r (w', l ++ [Event c r])) as (l' & El & R & Ht). cbn in El. rewrite <- app_assoc in El.
  exists (Event c r :: l'). split; [done|]. split; [by econstructor|by exists r, l'].
Qed.

(** ** The goroutines *)
Definition orderedCall (name region : string) {A} (c : Call A) (before : list event) : Prop :=
  match c with
  | TargetPoolsDelete _ _ => answered before (ForwardingRulesDelete name region) gone
  | HttpHealthChecksDelete _ => answered before (TargetPoolsDelete name region) gone
  | _ => True
  end.
Definition ordered (name region : string) (l : list event) : Prop :=
  ∀ l1 A (c : Call A) r0 l2, l = l1 ++ Event c r0 :: l2 → orderedCall name region c l1.

(** The health check is gone with its firewall, or still used. *)
Definition httpCheckGone (g : gceConfig) (name clusterID hcName : string) (l : list event) : Prop :=
  answered l (HttpHealthChecksDelete hcName) (λ r, r = Err ErrBeingUsedBy) ∨
  (answered l (HttpHealthChecksDelete hcName) gone ∧
   answered l (FirewallsDelete (MakeHealthCheckFirewallName clusterID hcName (bool_decide (hcName ≠ name)))) (goneOrReported g)).

(** Calls that are neither the rule nor the pool. *)
Definition checkCall (e : event) : Prop :=
  match e with Event c _ => match c with HttpHealthChecksDelete _ | FirewallsDelete _ | RecordEvent _ _ _ _ | AddressesDelete _ _ => True | _ => False end end.
Definition plainCall (e : event) : Prop :=
  match e with Event c _ => match c with FirewallsDelete _ | RecordEvent _ _ _ _ | AddressesDelete _ _ => True | _ => False end end.

Lemma httpCheckGone_mono g name clusterID hcName : mono (httpCheckGone g name clusterID hcName).
Proof. intros l l' Hl. unfold httpCheckGone. intuition eauto using answered_mono. Qed.
Lemma plain_check e : plainCall e → checkCall e.
Proof. destruct e as [A c r]. by destruct c. Qed.
Lemma plain_ordered name region l : Forall plainCall l → ordered name region l.
Proof. intros Hl l1 A c r0 l2 ->. rewrite Forall_app, Forall_cons in Hl. destruct Hl as (_ & Hc & _). by destruct c. Qed.

Section goroutines.
Variables (g : gceConfig) (svc : Service).

Lemma traces_deleteFirewall fwName l o : traces (deleteFirewallProg g svc fwName) l o →
  Forall plainCall l ∧ (o = Ret tt → answered l (FirewallsDelete fwName) (goneOrReported g)).
Proof.
  intros (l1 & l2 & o1 & -> & (o' & (r & -> & ->)%traces_notFoundIgnored & ->)%traces_attempt & Hk)%traces_bind.
  destruct r as [[]|e|]; [|destruct (isNotFound e) eqn:En|].
  - destruct Hk as [-> ->]. split; [by repeat constructor|]. intros _. apply answered_head. by left.
  - destruct Hk as [-> ->]. split; [by repeat constructor|]. intros _. apply answered_head. by left.
  - destruct (isForbidden e && g_onXPN g) eqn:Ex.
    + apply traces_handle in Hk as (r & l' & -> & Hk). assert (l' = [] ∧ (o = Ret tt → True)) as [-> _] by (destruct r; by destruct Hk as [-> _]).
      split; [by repeat constructor|]. intros _. apply answered_head. right. apply andb_true_iff in Ex as [??]. eauto.
    + destruct Hk as [-> ->]. split; [by repeat constructor|done].
  - destruct Hk as [-> ->]. split; [by repeat constructor|done].
Qed.

Lemma traces_deleteChecks name clusterID hcNames l o : traces (deleteChecks g svc name clusterID hcNames) l o →
  Forall checkCall l ∧ (o = Ret tt → ∀ hc, hc ∈ hcNames → httpCheckGone g name clusterID hc l).
Proof.
  revert l. induction hcNames as [|hc hcNames IH]; cbn; intros l Ht.
  { destruct Ht as [-> ->]. split; [done|]. intros _ hc Hc. by apply elem_of_nil in Hc. }
  apply traces_handle in Ht as (r & l' & -> & Hk).
  set (fw := MakeHealthCheckFirewallName clusterID hc (bool_decide (hc ≠ name))) in *.
  (** whatever this check leads to, the rest follows *)
  assert (∀ step, traces (_ ← step; deleteChecks g svc name clusterID hcNames) l' o →
    (∀ l1 o1, traces step l1 o1 → Forall checkCall l1 ∧ (o1 = Ret tt → httpCheckGone g name clusterID hc (Event (HttpHealthChecksDelete hc) r :: l1))) →
    Forall checkCall (Event (HttpHealthChecksDelete hc) r :: l') ∧
    (o = Ret tt → ∀ hc0, hc0 ∈ hc :: hcNames → httpCheckGone g name clusterID hc0 (Event (HttpHealthChecksDelete hc) r :: l'))) as Hrest.
  { intros step (l1 & l2 & o1 & -> & H1 & H2)%traces_bind Hstep. destruct (Hstep l1 o1 H1) as [F1 G1].
    destruct o1 as [[]|e|]; [|destruct H2 as [-> ->]; rewrite app_nil_r; split; [by constructor|done]..].
    destruct (IH l2 H2) as [F2 G2]. split; [constructor; [done|by apply Forall_app]|]. intros Ho hc0 [->|Hin]%elem_of_cons.
    - eapply httpCheckGone_mono; [|by apply G1]. set_solver.
    - eapply httpCheckGone_mono; [|by apply G2]. set_solver. }
  assert (gone r → ∀ l1 o1, traces (deleteFirewallProg g svc fw) l1 o1 → Forall checkCall l1 ∧
    (o1 = Ret tt → httpCheckGone g name clusterID hc (Event (HttpHealthChecksDelete hc) r :: l1))) as Hfw.
  { intros Hr l1 o1 [F G]%traces_deleteFirewall. split; [by eapply Forall_impl; [exact F|apply plain_check]|].
    intros Ho. right. split; [by apply answered_head|]. apply answered_cons, G, Ho. }
  destruct r as [[]|e|].
  - eapply Hrest; [exact Hk|]. by apply Hfw.
  - destruct (isInUsedByError e) eqn:Eu; [|destruct (isNotFound e) eqn:En].
    + eapply Hrest; [exact Hk|]. intros l1 o1 [-> ->]. split; [done|]. intros _. left. apply answered_head. by destruct e.
    + eapply Hrest; [exact Hk|]. by apply Hfw.
    + eapply Hrest; [exact Hk|]. by intros l1 o1 [-> ->].
  - destruct Hk as [-> ->]. split; [by repeat constructor|done].
Qed.

(** What the three goroutines establish when they all succeed. *)
Definition rulePoolChecksGone (name clusterID : string) (hcNames : list string) (l : list event) : Prop :=
  answered l (ForwardingRulesDelete name (g_region g)) gone ∧ answered l (TargetPoolsDelete name (g_region g)) gone ∧
  ∀ hc, hc ∈ hcNames → httpCheckGone g name clusterID hc l.
Definition deletes (e : event) : Prop := match e with Event c _ => isRead c = false end.

Lemma rulePoolChecksGone_mono name clusterID hcNames : mono (rulePoolChecksGone name clusterID hcNames).
Proof.
  intros l l' Hl (H1 & H2 & H3). split; [by eapply answered_mono|]. split; [by eapply answered_mono|].
  intros hc Hc. by eapply httpCheckGone_mono, H3.
Qed.
Lemma check_deletes l : Forall checkCall l → Forall deletes l.
Proof. intros Hl. eapply Forall_impl; [exact Hl|]. intros [A c r]. by destruct c. Qed.
Lemma plain_deletes l : Forall plainCall l → Forall deletes l.
Proof. intros Hl. eapply check_deletes, Forall_impl; [exact Hl|]. apply plain_check. Qed.

Lemma ordered_app name region l1 l2 :
  ordered name region l1 →
  (∀ k1 A (c : Call A) r0 k2, l2 = k1 ++ Event c r0 :: k2 → orderedCall name region c (l1 ++ k1)) → ordered name region (l1 ++ l2).
Proof.
  intros H1 H2 k1 A c r0 k2 E. apply app_eq_app in E as (l & [[-> E]|[-> E]]).
  - destruct l as [|e l]; cbn in E.
    + specialize (H2 [] A c r0 k2 (eq_sym E)). by rewrite !app_nil_r in H2.
    + injection E as <- _. by eapply H1.
  - by eapply H2.
Qed.
Lemma ordered_merged name region a b l : merged a b l → ordered name region a → ordered name region b → ordered name region l.
Proof.
  intros Hm Ha Hb l1 A c r0 l2 E. destruct (merged_split _ _ _ _ _ _ Hm E) as [(k1 & k2 & -> & Hs)|(k1 & k2 & -> & Hs)].
  - specialize (Ha k1 A c r0 k2 eq_refl). destruct c; try done; by eapply answered_mono.
  - specialize (Hb k1 A c r0 k2 eq_refl). destruct c; try done; by eapply answered_mono.
Qed.

(** After the calls [l0], the calls [l] with the result [o]. *)
Definition continues (name clusterID : string) (hcNames : list string) (l0 l : list event) (o : outcome unit) : Prop :=
  (∀ k1 A (c : Call A) r0 k2, l = k1 ++ Event c r0 :: k2 → orderedCall name (g_region g) c (l0 ++ k1)) ∧
  Forall deletes l ∧ (o = Ret tt → rulePoolChecksGone name clusterID hcNames (l0 ++ l)).

Lemma traces_poolAndChecks name clusterID hcNames l0 l o :
  answered l0 (ForwardingRulesDelete name (g_region g)) gone →
  traces (DeleteExternalTargetPoolAndChecks g svc name (g_region g) clusterID hcNames) l o →
  continues name clusterID hcNames l0 l o.
Proof.
  intros H0 (r & l' & -> & Hk)%traces_handle.
  assert (∀ k1 A (c : Call A) r0 k2, Event (TargetPoolsDelete name (g_region g)) r :: l' = k1 ++ Event c r0 :: k2 →
    (k1 ≠ [] → gone r ∧ Forall checkCall l') → orderedCall name (g_region g) c (l0 ++ k1)) as Hord.
  { intros k1 A c r0 k2 E Hr. destruct k1 as [|e k1]; cbn in E.
    - rewrite app_nil_r. apply (f_equal (default (Event c r0) ∘ head)) in E. cbn in E.
      change (match Event c r0 with Event c _ => orderedCall name (g_region g) c l0 end). by rewrite <- E.
    - assert (l' = k1 ++ Event c r0 :: k2) as -> by (by apply (f_equal tail) in E).
      apply (f_equal (default e ∘ head)) in E. cbn in E. subst e. destruct Hr as [Hr Hl]; [done|]. rewrite Forall_app, Forall_cons in Hl. destruct Hl as (_ & Hc & _).
      destruct c; try done. eapply answered_mono; [|by apply (answered_head _ r k1)]. set_solver. }
  assert (gone r → traces (deleteChecks g svc name clusterID hcNames) l' o →
    continues name clusterID hcNames l0 (Event (TargetPoolsDelete name (g_region g)) r :: l') o) as Hgone.
  { intros Hr [F G]%traces_deleteChecks. split; [intros; by eapply Hord|]. split; [constructor; [done|by apply check_deletes]|].
    intros Ho. split; [eapply answered_mono; [|exact H0]; set_solver|]. split; [eapply answered_mono; [|by apply (answered_head _ r l')]; set_solver|].
    intros hc Hc. eapply httpCheckGone_mono; [|by apply G]. set_solver. }
  assert (l' = [] → o ≠ Ret tt →
    continues name clusterID hcNames l0 (Event (TargetPoolsDelete name (g_region g)) r :: l') o) as Hstop.
  { intros -> Ho. split; [|split; [by repeat constructor|done]]. intros k1 A c r0 k2 E. eapply Hord; [exact E|].
    destruct k1 as [|? [|??]]; done. }
  destruct r as [[]|e|]; [by apply Hgone| |destruct Hk as [-> ->]; by apply Hstop].
  destruct (isNotFound e) eqn:En; [by apply Hgone|]. destruct Hk as [-> ->]. by apply Hstop.
Qed.

(** The third goroutine. *)
Lemma traces_third name clusterID hcNames l o :
  traces (_ ← notFoundIgnored (send (ForwardingRulesDelete name (g_region g)));
          DeleteExternalTargetPoolAndChecks g svc name (g_region g) clusterID hcNames) l o →
  ordered name (g_region g) l ∧ Forall deletes l ∧ (o = Ret tt → rulePoolChecksGone name clusterID hcNames l).
Proof.
  intros (l1 & l2 & o1 & -> & (r & -> & ->)%traces_notFoundIgnored & Hk)%traces_bind.
  assert (ordered name (g_region g) [Event (ForwardingRulesDelete name (g_region g)) r]) as Hf.
  { intros [|e [|??]] A c r0 l3 E; [|discriminate E..]. apply (f_equal (default (Event c r0) ∘ head)) in E. cbn in E.
    change (match Event c r0 with Event c _ => orderedCall name (g_region g) c [] end). by rewrite <- E. }
  assert (gone r → traces (DeleteExternalTargetPoolAndChecks g svc name (g_region g) clusterID hcNames) l2 o →
    ordered name (g_region g) ([Event (ForwardingRulesDelete name (g_region g)) r] ++ l2) ∧
    Forall deletes ([Event (ForwardingRulesDelete name (g_region g)) r] ++ l2) ∧
    (o = Ret tt → rulePoolChecksGone name clusterID hcNames ([Event (ForwardingRulesDelete name (g_region g)) r] ++ l2))) as Hgone.
  { intros Hr (H1 & H2 & H3)%(traces_poolAndChecks _ _ _ [Event (ForwardingRulesDelete name (g_region g)) r]); [|by apply answered_head].
    split; [by apply ordered_app|]. split; [by constructor|done]. }
  destruct r as [[]|e|]; [by apply Hgone|destruct (isNotFound e) eqn:En; [by apply Hgone|]|];
    destruct Hk as [-> ->]; (split; [done|split; [by repeat constructor|done]]).
Qed.

Lemma aggregate_ok o1 o2 o3 : aggregate [o1; o2; o3] = Ret tt → o1 = Ret tt ∧ o2 = Ret tt ∧ o3 = Ret tt.
Proof. unfold aggregate. destruct o1 as [[]| |], o2 as [[]| |], o3 as [[]| |]; done. Qed.

(** All three, in any interleaving. *)
Lemma traces_deletion s t name clusterID hcNames l o :
  traces (AggregateGoroutines s t (deleteFirewallProg g svc (MakeFirewallName name)) (notFoundIgnored (send (AddressesDelete name (g_region g))))
    (_ ← notFoundIgnored (send (ForwardingRulesDelete name (g_region g)));
     DeleteExternalTargetPoolAndChecks g svc name (g_region g) clusterID hcNames)) l o →
  ordered name (g_region g) l ∧ Forall deletes l ∧
  (o = Ret tt → answered l (FirewallsDelete (MakeFirewallName name)) (goneOrReported g) ∧
     answered l (AddressesDelete name (g_region g)) gone ∧ rulePoolChecksGone name clusterID hcNames l).
Proof.
  intros (l1 & l2 & o1 & -> & (a & b & oa & ob & Hm & Ha & (b1 & b2 & ob1 & ob2 & Hm2 & Hb1 & Hb2 & ->)%traces_par & ->)%traces_par & Hk)%traces_bind.
  cbn in Hk. destruct Hk as [-> ->]. rewrite app_nil_r.
  apply traces_deleteFirewall in Ha as [Fa Ga]. apply traces_notFoundIgnored in Hb1 as (r & -> & ->). apply traces_third in Hb2 as (Or & Dr & Gr).
  destruct (merged_sub _ _ _ Hm) as [Sa Sb], (merged_sub _ _ _ Hm2) as [Sb1 Sb2].
  assert (Forall plainCall [Event (AddressesDelete name (g_region g)) r]) as Fb by by repeat constructor.
  split; [eauto using ordered_merged, plain_ordered|]. split; [eauto using merged_Forall, plain_deletes|].
  intros (-> & Hr & ->)%aggregate_ok.
  assert (gone r) as Hg by (destruct r as [[]|e|]; [done|by destruct (isNotFound e) eqn:En|done]).
  split; [by eapply answered_mono, Ga|]. split; [eapply answered_mono; [|by apply (answered_head _ r [])]; set_solver|].
  eapply rulePoolChecksGone_mono; [|by apply Gr]. set_solver.
Qed.
End goroutines.

(** ** The deletion *)

(** The checks that the deletion finds. *)
Definition checksGone (g : gceConfig) (clusterID : string) (svc : Service) (log : list event) : Prop :=
  let name := GetLoadBalancerName svc in
  if bool_decide ((GetServiceHealthCheckPathPort svc).1 = EmptyString)
  then httpCheckGone g name clusterID name log ∧ httpCheckGone g name clusterID (MakeNodesHealthCheckName clusterID) log
  else ∀ hc, Event (HttpHealthChecksGet name) (Ret hc) ∈ log → httpCheckGone g name clusterID (hh_Name hc) log.

Definition httpAnswer (e : event) : option HttpHealthCheck :=
  match e with
  | Event c r => match c in Call A return outcome A → option HttpHealthCheck with
                 | HttpHealthChecksGet _ => λ r, match r with Ret hc => Some hc | _ => None end
                 | _ => λ _, None
                 end r
  end.

Lemma deletion_checks {W} (C : Compute W) svc clusterID :
  emits C (@healthChecksToDelete _ (logged C) svc clusterID) (λ r l, Forall (λ e, ¬ deletes e) l ∧
    ∀ names, r = Ret names →
      if bool_decide ((GetServiceHealthCheckPathPort svc).1 = EmptyString) then names = [GetLoadBalancerName svc; MakeNodesHealthCheckName clusterID]
      else ∀ hc, Event (HttpHealthChecksGet (GetLoadBalancerName svc)) (Ret hc) ∈ l → hh_Name hc ∈ names).
Proof.
  unfold healthChecksToDelete. cbv zeta. destruct (GetServiceHealthCheckPathPort svc) as [path port]. cbn [fst].
  destruct (decide (path = EmptyString)) as [->|Hp]; [rewrite bool_decide_false by auto; apply emits_ret; split; [done|by intros ? [= <-]]|].
  rewrite bool_decide_true, bool_decide_false by done. set (name := GetLoadBalancerName svc).
  eapply (emits_bind _ _ (λ r l, ∃ r0, l = [Event (HttpHealthChecksGet name) r0] ∧
    match r with Ret hc => (∀ h, r0 = Ret h → hc = Some h) | _ => True end) (λ hc r l, l = [] ∧ r = Ret match hc with Some hc => [hh_Name hc] | None => [] end)).
  - unfold optional, GetHTTPHealthCheck.
    eapply (emits_bind _ _ (λ r l, ∃ r0, l = [Event (HttpHealthChecksGet name) r0] ∧ match r with Ret x => r0 = match x with inr a => Ret a | inl e => Err e end | _ => True end)
      (λ x r l, l = [] ∧ match r with Ret hc => ∀ h, x = inr h → hc = Some h | _ => True end)).
    + eapply emits_try; [apply (emits_exec _ _ (λ r l, l = [Event (HttpHealthChecksGet name) r])); done|..]; intros; cbn in *; subst; eauto.
    + intros [e|a]; [destruct (isNotFound e); [apply emits_ret|apply emits_fail]|apply emits_ret]; naive_solver.
    + intros x r l1 l2 (r0 & -> & ->) [-> Hr]. exists (match x with inr a => Ret a | inl e => Err e end). split; [done|].
      destruct r as [hc| |]; [|done..]. intros h Hh. apply Hr. destruct x; naive_solver.
    + intros e l (r0 & -> & _). eauto.
    + intros l (r0 & -> & _). eauto.
  - intros hc. by apply emits_ret.
  - intros hc r l1 l2 (r0 & -> & Hh) [-> ->]. split; [repeat constructor; cbn; done|]. intros names [= <-] h Hin.
    rewrite app_nil_r in Hin. apply list_elem_of_singleton, (f_equal httpAnswer) in Hin. cbn in Hin.
    destruct r0 as [h'| |]; try done. injection Hin as <-. rewrite (Hh h eq_refl). apply elem_of_cons. by left.
  - intros e l (r0 & -> & _). split; [repeat constructor; cbn; done|done].
  - intros l (r0 & -> & _). split; [repeat constructor; cbn; done|done].
Qed.

Lemma ordered_reads name region l : Forall (λ e, ¬ deletes e) l → ordered name region l.
Proof. intros Hl l1 A c r0 l2 ->. rewrite Forall_app, Forall_cons in Hl. destruct Hl as (_ & Hc & _). destruct c; try done; by destruct Hc. Qed.

(** C13: [ensureExternalLoadBalancerDeleted], for every interleaving of its
    three goroutines.  A service of other controllers is left to them, without a
    call.  The target pool is deleted only after the forwarding rule was
    answered to be gone, and a health check only after the pool.  When it
    returns without an error, the firewall (deleted, or reported to the admin of
    its project), the address, the rule, the pool and the health checks with
    their firewalls are gone; a check that other pools use stays. *)
Theorem external_deletion_trace {W} (C : Compute W) g s t clusterID svc w r w' log :
  @ensureExternalLoadBalancerDeleted _ (logged C) g s t clusterID svc (w, []) = (r, (w', log)) →
  let name := GetLoadBalancerName svc in
  (usesL4RBS svc None = true → r = Err ImplementedElsewhere ∧ log = []) ∧
  ordered name (g_region g) log ∧
  (r = Ret tt →
     answered log (FirewallsDelete (MakeFirewallName name)) (goneOrReported g) ∧ answered log (AddressesDelete name (g_region g)) gone ∧
     answered log (ForwardingRulesDelete name (g_region g)) gone ∧ answered log (TargetPoolsDelete name (g_region g)) gone ∧
     checksGone g clusterID svc log).
Proof.
  unfold ensureExternalLoadBalancerDeleted. intros E. set (name := GetLoadBalancerName svc). destruct (usesL4RBS svc None).
  { injection E as <- <- <-. split; [done|]. split; [by apply ordered_reads|]. intros [=]. }
  split; [done|].
  assert (emits C (hcNames ← @healthChecksToDelete _ (logged C) svc clusterID;
    let '(p, q, r) := deletionGoroutines g svc clusterID hcNames in @run _ (logged C) _ (AggregateGoroutines s t p q r))
    (λ r l, ordered name (g_region g) l ∧ (r = Ret tt →
     answered l (FirewallsDelete (MakeFirewallName name)) (goneOrReported g) ∧ answered l (AddressesDelete name (g_region g)) gone ∧
     answered l (ForwardingRulesDelete name (g_region g)) gone ∧ answered l (TargetPoolsDelete name (g_region g)) gone ∧
     checksGone g clusterID svc l))) as Hm.
  { eapply emits_bind; [apply deletion_checks|intros names; eapply emits_weaken; [apply emits_prog|intros r' l Ht; exact (traces_deletion _ _ _ _ _ _ _ _ _ Ht)]|..].
    - intros names r' l1 l2 [F1 G1] (O2 & D2 & G2). split.
      + apply ordered_app; [by apply ordered_reads|]. intros k1 A c r0 k2 ->. specialize (O2 k1 A c r0 k2 eq_refl). fold name in O2.
        destruct c; try done; (eapply answered_mono; [|exact O2]; set_solver).
      + intros Ho. destruct (G2 Ho) as (A1 & A2 & A3 & A4 & A5). fold name in A1, A2, A3, A4, A5.
        repeat (split; [by (eapply answered_mono; [|eassumption]; set_solver)|]). unfold checksGone. fold name.
        specialize (G1 names eq_refl). fold name in G1. case_bool_decide as Hp.
        * subst names. split; (eapply httpCheckGone_mono; [|apply A5; set_solver]; set_solver).
        * intros hc [Hin|Hin]%elem_of_app; [eapply httpCheckGone_mono; [|by apply A5, G1]; set_solver|].
          by apply (proj1 (Forall_forall _ _) D2) in Hin.
    - intros e l [F _]. split; [by apply ordered_reads|done].
    - intros l [F _]. split; [by apply ordered_reads|done]. }
  destruct (emits_run _ _ _ _ _ Hm E) as (l & El & _ & H1 & H2). cbn in El. by subst l.
Qed.
