(* ===== verification/ExternalLbEnsure.v ===== *)
(** * ExternalLbEnsure: the address of an external load balancer

    Neither forwarding rules nor target pools can be updated in place, so
    [ensureExternalLoadBalancer] deletes and recreates them, while the address
    is held as a static one.  What it does is cut in the preparation, the
    building, the forwarding rule and the release of the address. *)

From S2P Require Import Prelude K8s IoLogic AddressManager LoadBalancer GceHosts ComputeCalls ClusterId InternalLb Goroutines ExternalLb LbLogic InternalLbScope.
Local Open Scope Z_scope.

(** ** Calls *)
Definition reading (e : event) : Prop := match e with Event c _ => isRead c = true end.
(** Building: anything but the creation of the rule and the release of an address. *)
Definition building (e : event) : Prop :=
  match e with Event c _ => match c with ForwardingRulesInsert _ _ _ | AddressesDelete _ _ => False | _ => True end end.
Definition dropsRule (e : event) : Prop :=
  match e with Event c _ => match c with ForwardingRulesDelete _ _ => True | _ => False end end.
Definition harmless (e : event) : Prop := building e ∧ ¬ dropsRule e.

(** The rule is there: created, or found to exist. *)
Definition attached (name region : string) (e : event) : Prop :=
  ∃ rule r, e = Event (ForwardingRulesInsert name region rule) r ∧
    match r with Ret _ => True | Err err => isHTTPErrorCode err StatusConflict = true | Panic => False end.
(** The address is reserved by this run. *)
Definition reserved (name region : string) (e : event) : Prop := ∃ a, e = Event (AddressesInsert name region a) (Ret tt).
(** The address is not one that the user reserved. *)
Definition unowned (region ip : string) (l : list event) : Prop :=
  ip = EmptyString ∨ answered l (AddressesList region ip) (λ r, match r with Ret addrs => firstWithIP ip addrs = None | Err err => isNotFound err = true | Panic => False end).

(** When the address may be given back: it is not the user's, and the rule holds
    it again, or this run reserved it and the rule was not touched. *)
Definition releasable (name region ip : string) (l : list event) : Prop :=
  unowned region ip l ∧ (Exists (attached name region) l ∨ Exists (reserved name region) l ∧ Forall (λ e, ¬ dropsRule e) l).

Ltac harm_call := split; [exact I|intros []].

Lemma reading_harmless e : reading e → harmless e.
Proof. destruct e as [A c r]. destruct c; cbn; try discriminate; intros _; harm_call. Qed.
Lemma unowned_mono region ip : mono (unowned region ip).
Proof. intros l l' Hl [->|Ha]; [by left|right; by eapply answered_mono]. Qed.
Lemma releasable_app name region ip l l' : Forall (λ e, ¬ dropsRule e) l' → releasable name region ip l → releasable name region ip (l ++ l').
Proof.
  intros Hl [Hu Hr]. split; [eapply unowned_mono; [|exact Hu]; set_solver|]. rewrite !Exists_app, Forall_app.
  destruct Hr as [Hr|[Hr Hd]]; [by left; left|right]. split; [by left|]. by split.
Qed.
Lemma harmless_building l : Forall harmless l → Forall building l.
Proof. intros Hl. eapply Forall_impl; [exact Hl|]. by intros e [He _]. Qed.
Lemma harmless_keeps l : Forall harmless l → Forall (λ e, ¬ dropsRule e) l.
Proof. intros Hl. eapply Forall_impl; [exact Hl|]. by intros e [_ He]. Qed.

(** Programs of calls. *)
Lemma sends_bind {A B} φ (p : prog A) (f : A → prog B) : sends φ p → (∀ a, sends φ (f a)) → sends φ (p ≫= f).
Proof.
  intros Hp Hf. induction p as [[a|e|]|X c k IH]; [apply Hf|done|done|]. intros r. destruct (Hp r) as [H1 H2]. split; [done|by apply IH].
Qed.
Lemma sends_attempt {A} φ (p : prog A) : sends φ p → sends φ (attempt p).
Proof. intros Hp. induction p as [[a|e|]|X c k IH]; [done..|]. intros r. destruct (Hp r) as [H1 H2]. split; [done|by apply IH]. Qed.
Lemma sends_send {X} φ (c : Call X) : (∀ r, φ (Event c r)) → sends φ (send c).
Proof. intros Hc r. by split. Qed.
Lemma sends_notFoundIgnored φ p : sends φ p → sends φ (notFoundIgnored p).
Proof. intros Hp. apply sends_bind; [by apply sends_attempt|]. intros [e|a]; [by destruct (isNotFound e)|done]. Qed.

(** ** Steps that neither drop the rule nor release the address *)
Section steps.
Context {W : Type} (C : Compute W) `{MapOrder} `{Sha1}.
Variables (g : gceConfig) (svc : Service).
#[local] Existing Instance logged.
Abbreviation LW := (W * list event)%type.

Lemma harmless_reads A (c : Call A) r : isRead c = true → harmless (Event c r).
Proof. intros Hc. by apply reading_harmless. Qed.
#[local] Hint Resolve harmless_reads : trace.
Ltac harm := clients; emit_steps; auto with trace; try harm_call; try (by repeat constructor).

Lemma only_firewallObject name desc ip ranges ports hosts : only C harmless (firewallObject g name desc ip ranges ports hosts : io (lbState * LW) _).
Proof. unfold firewallObject. destruct (getPortsAndProtocol ports) as [[? ?] ?]. harm. Qed.
#[local] Hint Resolve only_firewallObject : trace.
Lemma harmless_raiseOrFail cmd r : only C harmless (raiseOrFail g svc cmd r : io (lbState * LW) _).
Proof. unfold raiseOrFail, sortedTags. harm. Qed.
#[local] Hint Resolve harmless_raiseOrFail : trace.
Lemma only_conflictOk cmd r : only C harmless (conflictOk g svc cmd r : io (lbState * LW) _).
Proof. unfold conflictOk. harm. Qed.
#[local] Hint Resolve only_conflictOk : trace.
Lemma only_createFirewall name desc ip ranges ports hosts : only C harmless (createFirewall g svc name desc ip ranges ports hosts : io (lbState * LW) _).
Proof. unfold createFirewall. harm. Qed.
Lemma only_updateFirewall name desc ip ranges ports hosts : only C harmless (updateFirewall g svc name desc ip ranges ports hosts : io (lbState * LW) _).
Proof. unfold updateFirewall. harm. Qed.
#[local] Hint Resolve only_createFirewall only_updateFirewall : trace.
Lemma only_hcFirewall serviceName ip clusterID hosts hcName port nodesCheck :
  only C harmless (ensureHTTPHealthCheckFirewall g svc serviceName ip clusterID hosts hcName port nodesCheck : io (lbState * LW) _).
Proof. unfold ensureHTTPHealthCheckFirewall. harm. Qed.
Lemma only_httpCheck name path port : only C harmless (ensureHTTPHealthCheck name path port : io LW _).
Proof. unfold ensureHTTPHealthCheck. harm. Qed.
#[local] Hint Resolve only_hcFirewall only_httpCheck : trace.
Lemma only_createPool name serviceName ip region clusterID hosts hc :
  only C harmless (createTargetPoolAndHealthCheck g svc name serviceName ip region clusterID hosts hc : io (lbState * LW) _).
Proof. unfold createTargetPoolAndHealthCheck. harm. Qed.
Lemma only_inChunks fuel f l : (∀ l, only C harmless (f l : io LW _)) → only C harmless (inChunks fuel f l : io LW _).
Proof. intros Hf. revert l. induction fuel as [|fuel IH]; intros [|x l]; cbn; emit_steps; auto. Qed.
Lemma only_updatePool name hosts : only C harmless (updateTargetPool g name hosts : io LW _).
Proof. unfold updateTargetPool. harm; try (apply only_inChunks; intros ?); harm. Qed.
#[local] Hint Resolve only_createPool only_updatePool : trace.
Lemma sends_deleteFirewall fw : sends harmless (deleteFirewallProg g svc fw).
Proof.
  apply sends_bind; [apply sends_attempt, sends_notFoundIgnored, sends_send; intros ?; harm_call|]. intros [e|a]; [|done].
  destruct (isForbidden e && g_onXPN g); [|done]. apply sends_bind; [|done]. apply sends_attempt, sends_send. intros ?. harm_call.
Qed.
Lemma sends_deleteChecks name clusterID hcNames : sends harmless (deleteChecks g svc name clusterID hcNames).
Proof.
  induction hcNames as [|hc hcNames IH]; [done|]. apply sends_bind; [apply sends_attempt, sends_send; intros ?; harm_call|]. intros x.
  apply sends_bind; [|done]. destruct x as [e|a]; [|apply sends_deleteFirewall]. destruct (isInUsedByError e); [done|].
  destruct (isNotFound e); [apply sends_deleteFirewall|done].
Qed.
Lemma sends_deletePool name region clusterID hcNames : sends harmless (DeleteExternalTargetPoolAndChecks g svc name region clusterID hcNames).
Proof.
  apply sends_bind; [apply sends_attempt, sends_send; intros ?; harm_call|]. intros [e|a]; [destruct (isNotFound e); [|done]|]; apply sends_deleteChecks.
Qed.
#[local] Hint Resolve sends_deletePool : trace.
Lemma only_ensurePool tpExists recreate name clusterID ip hosts hcToCreate hcToDelete :
  only C harmless (ensureTargetPoolAndHealthCheck g tpExists recreate svc name clusterID ip hosts hcToCreate hcToDelete : io (lbState * LW) _).
Proof. unfold ensureTargetPoolAndHealthCheck. harm. Qed.
Lemma only_needsUpdate name serviceName ip ports ranges : only C harmless (firewallNeedsUpdate name serviceName ip ports ranges : io LW _).
Proof. unfold firewallNeedsUpdate. destruct (getPortsAndProtocol ports) as [[? ?] ?]. harm. Qed.
Lemma only_needsRecreation name region affinity : only C harmless (targetPoolNeedsRecreation name region affinity : io LW _).
Proof. unfold targetPoolNeedsRecreation. harm. Qed.
Lemma only_ruleNeedsUpdate name region ip ports : only C reading (forwardingRuleNeedsUpdate name region ip ports : io LW _).
Proof. unfold forwardingRuleNeedsUpdate. clients. by emit_steps. Qed.
End steps.

(** ** Runs with the flags of the deferred release *)
Section flags.
Context {W : Type} (C : Compute W).
Abbreviation LW := (W * list event)%type.
Abbreviation F A := (io (ipFlags * (lbState * LW)) A).
(** From the calls [l0] on: before, and after with the result. *)
Definition run_from {A} (l0 : list event) (P : ipFlags → list event → Prop) (m : F A) (Q : outcome A → ipFlags → list event → Prop) : Prop :=
  ∀ s l, logOf s = l0 ++ l → P s.1 l → ∃ l', logOf (m s).2 = l0 ++ l' ∧ Q (m s).1 (m s).2.1 l'.
Definition still {A} (m : F A) : Prop := ∀ s, (m s).2.1 = s.1.

Lemma still_on_snd {A} (m : io (lbState * LW) A) : still (on_snd m).
Proof. intros [fl s]. unfold on_snd. cbn. by destruct (m s). Qed.
Lemma still_wrapped {A} e (m : F A) : still m → still (wrapped e m).
Proof. intros Hm s. unfold wrapped. rewrite io_bind_eq. unfold try. specialize (Hm s). by destruct (m s) as [[?|?|] ?]. Qed.
Lemma still_pure {A} (o : outcome A) : still (lift o).
Proof. by intros s. Qed.

Context (l0 : list event).
Lemma from_bind {A B} P (m : F A) (f : A → F B) (R : A → ipFlags → list event → Prop) Q :
  run_from l0 P m (λ r fl l, match r with Ret a => R a fl l | Err e => Q (Err e) fl l | Panic => Q Panic fl l end) →
  (∀ a, run_from l0 (R a) (f a) Q) → run_from l0 P (m ≫= f) Q.
Proof.
  intros Hm Hf s l El HP. rewrite io_bind_eq. destruct (Hm s l El HP) as (l1 & E1 & H1). destruct (m s) as [[a|e|] s1]; cbn [fst snd] in *; eauto.
  by apply (Hf a s1 l1).
Qed.
Lemma from_weaken {A} (P P' : ipFlags → list event → Prop) (m : F A) Q : run_from l0 P' m Q → (∀ fl l, P fl l → P' fl l) → run_from l0 P m Q.
Proof. intros Hm HP s l El Hs. eauto. Qed.
Lemma from_still {A} P (m : F A) E (Q : outcome A → ipFlags → list event → Prop) :
  still m → emits C m E → (∀ fl l r l', P fl l → E r l' → Q r fl (l ++ l')) → run_from l0 P m Q.
Proof.
  intros Hs Hm HQ s l El HP. destruct (Hm s) as (l' & E1 & _ & H1). exists (l ++ l'). rewrite E1, El, app_assoc, Hs. eauto.
Qed.
Lemma from_pure {A} P (o : outcome A) (Q : outcome A → ipFlags → list event → Prop) : (∀ fl l, P fl l → Q o fl l) → run_from l0 P (lift o) Q.
Proof. intros HQ s l El HP. exists l. eauto. Qed.
Lemma from_ret {A} P (a : A) (Q : outcome A → ipFlags → list event → Prop) : (∀ fl l, P fl l → Q (Ret a) fl l) → run_from l0 P (mret a) Q.
Proof. apply from_pure. Qed.
Lemma from_set P f (Q : outcome unit → ipFlags → list event → Prop) : (∀ fl l, P fl l → Q (Ret tt) (f fl) l) → run_from l0 P (put (λ s, (f s.1, s.2))) Q.
Proof. intros HQ s l El HP. exists l. split; [exact El|]. exact (HQ _ _ HP). Qed.
Lemma from_ask {B} P (f : _ → F B) Q : (∀ s, run_from l0 (λ fl l, fl = s.1 ∧ P fl l) (f s) Q) → run_from l0 P (s ← ask; f s) Q.
Proof. intros Hf s l El HP. exact (Hf s s l El (conj eq_refl HP)). Qed.
Lemma from_assoc {A B} P (X : _ → F A) (f : A → F B) Q : run_from l0 P (a ← (s ← ask; X s); f a) Q → run_from l0 P (s ← ask; a ← X s; f a) Q.
Proof. intros Hm s l El HP. exact (Hm s l El HP). Qed.
End flags.

(** The calls only, without the worlds between them. *)
Definition logs {W St A} `{HasLog W St} (m : io St A) (P : outcome A → list event → Prop) : Prop :=
  ∀ s, ∃ l, logOf (m s).2 = logOf s ++ l ∧ P (m s).1 l.
Lemma logs_emits {W St A} (C : Compute W) `{HasLog W St} (m : io St A) P : emits C m P → logs m P.
Proof. intros Hm s. destruct (Hm s) as (l & El & _ & Hl). eauto. Qed.
Lemma logs_bind {W St A B} `{HasLog W St} (m : io St A) (f : A → io St B) P Q (R : outcome B → list event → Prop) :
  logs m P → (∀ a, logs (f a) (Q a)) → (∀ a r l1 l2, P (Ret a) l1 → Q a r l2 → R r (l1 ++ l2)) →
  (∀ e l, P (Err e) l → R (Err e) l) → (∀ l, P Panic l → R Panic l) → logs (m ≫= f) R.
Proof.
  intros Hm Hf HR HE HP s. rewrite io_bind_eq. destruct (Hm s) as (l1 & E1 & H1). destruct (m s) as [[a|e|] s1]; cbn [fst snd] in *; [|eauto..].
  destruct (Hf a s1) as (l2 & E2 & H2). exists (l1 ++ l2). rewrite E2, E1, app_assoc. eauto.
Qed.

Lemma emits_wrapped {W St A} (C : Compute W) `{HasLog W St} e (m : io St A) (P : outcome A → list event → Prop) :
  emits C m P → emits C (wrapped e m) (λ r l, match r with Ret a => P (Ret a) l | Err _ => ∃ e', P (Err e') l | Panic => P Panic l end).
Proof.
  intros Hm. unfold wrapped. eapply (emits_bind _ _ (λ r l, match r with Ret (inr a) => P (Ret a) l | Ret (inl e) => P (Err e) l | Err _ => False | Panic => P Panic l end)
    (λ x r l, l = [] ∧ r = match x with inr a => Ret a | inl _ => Err e end)).
  - by eapply emits_try.
  - intros [e'|a]; [by apply emits_fail|by apply emits_ret].
  - intros [e'|a] r l1 l2 HP [-> ->]; rewrite app_nil_r; eauto.
  - done.
  - done.
Qed.

(** ** The calls of the steps *)
Section body.
Context {W : Type} (C : Compute W) `{MapOrder} `{Sha1}.
Variables (g : gceConfig) (clusterID : string) (svc : Service).
#[local] Existing Instance logged.
Abbreviation LW := (W * list event)%type.
Abbreviation name := (GetLoadBalancerName svc).
Abbreviation region := (g_region g).
Abbreviation ip := (svc_LoadBalancerIP svc).

Lemma emits_byIP address : emits C (Cloud_GetRegionAddressByIP region address : io LW _) (λ r l, ∃ r0, l = [Event (AddressesList region address) r0] ∧
  match r with Err err => match r0 with Ret addrs => firstWithIP address addrs = None | Err e => e = err | Panic => False end | _ => True end).
Proof.
  unfold Cloud_GetRegionAddressByIP. cbn [Addresses_List Compute_addresses].
  eapply (emits_bind _ _ _ (λ addrs r l, l = [] ∧ match r with Err err => firstWithIP address addrs = None | _ => True end));
    [apply (emits_exec _ _ (λ r l, l = [Event (AddressesList region address) r])); done|..].
  - intros addrs. destruct (firstWithIP address addrs) eqn:E; [by apply emits_ret|by apply emits_fail].
  - intros addrs r l1 l2 -> [-> Hr]. exists (Ret addrs). split; [done|]. by destruct r.
  - intros e l ->. by exists (Err e).
  - intros l ->. by exists Panic.
Qed.

Lemma verify_trace fwdRuleIP netTier : emits C (verifyUserRequestedIP region ip fwdRuleIP netTier : io LW _)
  (λ r l, Forall reading l ∧ (r = Ret false → unowned region ip l)).
Proof.
  unfold verifyUserRequestedIP. case_bool_decide as Hip; [apply emits_ret; split; [done|by left]|].
  cbn [GetRegionAddressByIP Cloud_addresses].
  eapply (emits_bind _ _ (λ r l, ∃ r0, l = [Event (AddressesList region ip) r0] ∧
     match r with Ret (inl err) => match r0 with Ret addrs => firstWithIP ip addrs = None | Err e => e = err | Panic => False end | _ => True end)
     (λ x r l, Forall reading l ∧ (r = Ret false → match x with inl err => isNotFound err = true | inr _ => False end))).
  - eapply emits_try; [apply emits_byIP|..]; intros; cbn in *; naive_solver.
  - intros [err|a]; [destruct (isNotFound err) eqn:En; cbn [negb]; [case_bool_decide|]|].
    + by apply emits_ret.
    + by apply emits_fail.
    + by apply emits_fail.
    + eapply (emits_bind _ _ (λ _ l, Forall reading l) (λ _ r l, l = [] ∧ r ≠ Ret false)).
      * do 2 clients. by emit_steps.
      * intros tier. case_bool_decide; [by apply emits_fail|by apply emits_ret].
      * intros tier r l1 l2 Hl [-> Hr]. by rewrite app_nil_r.
      * naive_solver.
      * naive_solver.
  - intros x r l1 l2 (r0 & -> & Hx) [Hl Hr]. split; [by constructor|]. intros Hf. specialize (Hr Hf). destruct x as [err|]; [|done].
    right. exists r0. split; [set_solver|]. destruct r0; naive_solver.
  - intros e l (r0 & -> & _). split; [by repeat constructor|done].
  - intros l (r0 & -> & _). split; [by repeat constructor|done].
Qed.

Lemma static_trace serviceName existingIP netTier : emits C (ensureStaticIP name serviceName region existingIP netTier : io LW _)
  (λ r l, Forall harmless l ∧ ∀ a, r = Ret (a, false) → Exists (reserved name region) l).
Proof.
  unfold ensureStaticIP. cbv zeta. set (a := mkAddress _ _ _ _ _ _).
  eapply (emits_bind _ _ (λ r l, ∃ r0, l = [Event (AddressesInsert name region a) r0] ∧ (∀ x, r = Ret (inr x) → r0 = Ret tt))
    (λ x r l, Forall harmless l ∧ (∀ b, r = Ret (b, false) → ∃ u, x = inr u))).
  - eapply emits_try; [eapply (emits_bind _ _ (λ r l, l = [Event (AddressesInsert name region a) r]) (λ x r l, l = [] ∧ ∃ y, r = Ret y));
      [by apply (emits_exec _ _)|intros ?; apply emits_ret; eauto|..]|..].
    + instantiate (1 := λ r l, ∃ r0, l = [Event (AddressesInsert name region a) r0] ∧ (∀ x, r = Ret x → r0 = Ret tt)). intros [] r l1 l2 -> [-> _]. by exists (Ret tt).
    + intros e l ->. by exists (Err e).
    + intros l ->. by exists Panic.
    + intros x l (r0 & -> & Hr). exists r0. split; [done|]. intros y [= <-]. eauto.
    + intros e l (r0 & -> & Hr). exists r0. by split.
    + intros l (r0 & -> & Hr). exists r0. by split.
  - intros x. eapply (emits_bind _ _ (λ r l, l = [] ∧ (r = Ret false → ∃ u, x = inr u)) (λ existed r l, Forall harmless l ∧ ∀ b, r = Ret (b, false) → existed = false)).
    + destruct x as [err|u]; [destruct (_ && _)|]; [apply emits_fail|apply emits_ret|apply emits_ret]; naive_solver.
    + intros existed. eapply (emits_bind _ _ (λ _ l, Forall harmless l) (λ addr r l, l = [] ∧ r = Ret (addr_Address addr, existed))).
      * clients. emit_steps; auto using harmless_reads.
      * intros addr. by apply emits_ret.
      * intros addr r l1 l2 Hl [-> ->]. rewrite app_nil_r. naive_solver.
      * naive_solver.
      * naive_solver.
    + naive_solver.
    + naive_solver.
    + naive_solver.
  - intros x r l1 l2 (r0 & -> & Hx) [Hl Hr]. split; [constructor; [harm_call|done]|]. intros b Hb. destruct (Hr b Hb) as [u ->].
    rewrite (Hx u eq_refl). by left; exists a.
  - intros e l (r0 & -> & _). split; [repeat constructor; intros []|done].
  - intros l (r0 & -> & _). split; [repeat constructor; intros []|done].
Qed.

(** At most one creation of the rule. *)
Definition insertion (l : list event) : Prop := l = [] ∨ ∃ rule r0, l = [Event (ForwardingRulesInsert name region rule) r0].

Lemma insert_trace serviceName address target ports netTier : emits C (createForwardingRule name serviceName region address target ports netTier : io LW _)
  (λ r l, insertion l ∧ (r = Ret tt → Exists (attached name region) l)).
Proof.
  unfold createForwardingRule.
  assert (∀ A (o : outcome A) (k : A → io LW unit) P, (∀ a, emits C (k a) P) → (∀ e, P (Err e) []) → P Panic [] → emits C (a ← lift o; k a) P) as Hlift.
  { intros A o k P Hk He Hp. destruct o as [a|e|]; [exact (Hk a)|by apply emits_fail|by apply (emits_lift Panic)]. }
  apply Hlift; [intros portRange|by split; [left|]..]. apply Hlift; [intros ipProtocol|by split; [left|]..]. cbv zeta.
  set (rule := mkFwd _ _ _ _ _ _ _ _ _ _ _ _ _ _). clients.
  eapply (emits_bind _ _ (λ r l, ∃ r0, l = [Event (ForwardingRulesInsert name region rule) r0] ∧
      match r with Ret x => r0 = match x with inr a => Ret a | inl e => Err e end | _ => True end)
    (λ x r l, l = [] ∧ (r = Ret tt → match x with inr _ => True | inl err => isHTTPErrorCode err StatusConflict = true end))).
  - eapply emits_try; [by apply (emits_exec _ _ (λ r l, l = [Event (ForwardingRulesInsert name region rule) r]))|..]; intros; cbn in *; subst; eauto.
  - intros [err|a]; [destruct (isHTTPErrorCode err StatusConflict) eqn:Ec|]; [by apply emits_ret|by apply emits_fail|by apply emits_ret].
  - intros x r l1 l2 (r0 & -> & ->) [-> Hr]. split; [right; eauto|]. intros Ho. specialize (Hr Ho). left. exists rule, (match x with inr a => Ret a | inl e => Err e end).
    split; [done|]. by destruct x.
  - intros e l (r0 & -> & _). split; [right; eauto|done].
  - intros l (r0 & -> & _). split; [right; eauto|done].
Qed.

(** *** What holds between the steps *)
Definition safe (fl : ipFlags) (l : list event) : Prop :=
  isUserOwnedIP fl = false → isSafeToReleaseIP fl = true → releasable name region ip l.
Definition built (fl : ipFlags) (l : list event) : Prop :=
  Forall building l ∧ safe fl l ∧ (isUserOwnedIP fl = false → unowned region ip l).
(** At the end, whatever the result. *)
Definition shaped {A} (r : outcome A) (fl : ipFlags) (l : list event) : Prop :=
  ∃ body ins, l = body ++ ins ∧ Forall building body ∧ insertion ins ∧ safe fl l ∧
    (∀ a, r = Ret a → Exists dropsRule body → Exists (attached name region) ins).

Lemma building_shaped {A} (r : outcome A) fl l : Forall building l → safe fl l → (∀ a, r ≠ Ret a) → shaped r fl l.
Proof. intros Hb Hs Hr. exists l, []. rewrite app_nil_r. split; [done|]. split; [done|]. split; [by left|]. split; [done|]. intros a ->. by destruct (Hr a). Qed.
Lemma built_app fl l l' : Forall harmless l' → built fl l → built fl (l ++ l').
Proof.
  intros Hl (Hb & Hs & Hu). split; [apply Forall_app; auto using harmless_building|]. split.
  - intros H1 H2. apply releasable_app; auto using harmless_keeps.
  - intros H1. eapply unowned_mono; [|by apply Hu]. set_solver.
Qed.

Abbreviation F A := (io (ipFlags * (lbState * LW)) A).
(** A harmless step, before or after the rule is dropped. *)
Lemma from_harmless {A B} l0 (X : list event → Prop) (m : F A) :
  still m → only C harmless m → (∀ l l', X l → Forall harmless l' → X (l ++ l')) →
  run_from l0 (λ fl l, built fl l ∧ X l) m (λ r fl l, match r with Ret a => built fl l ∧ X l | Err e => shaped (Err e : outcome B) fl l | Panic => shaped (Panic : outcome B) fl l end).
Proof.
  intros Hm He HX. eapply from_still; [exact Hm|exact He|]. intros fl l r l' [Hb Hx] Hl. pose proof (built_app _ _ _ Hl Hb) as Hb'.
  destruct r; [by auto|apply building_shaped; [apply Hb'|apply Hb'|done]..].
Qed.

(** *** The steps with flags *)
Lemma from_verify l0 fwdRuleIP netTier :
  run_from l0 (λ fl l, fl = mkFlags false false ∧ l = [])
    (if bool_decide (ip ≠ EmptyString)
     then owned ← on_snd (on_snd (verifyUserRequestedIP region ip fwdRuleIP netTier)); put (λ s, (mkFlags owned (isSafeToReleaseIP s.1), s.2))
     else mret tt : F unit)
    (λ r fl l, match r with
       | Ret _ => isSafeToReleaseIP fl = false ∧ Forall harmless l ∧ (isUserOwnedIP fl = false → unowned region ip l)
       | Err e => shaped (Err e : outcome (list string)) fl l
       | Panic => shaped (Panic : outcome (list string)) fl l
       end).
Proof.
  case_bool_decide as Hip; [|apply from_ret; intros fl l [-> ->]; split; [done|]; split; [done|]; intros _; left; by destruct (decide (ip = EmptyString))].
  eapply (from_bind _ _ _ _ (λ owned fl l, isSafeToReleaseIP fl = false ∧ Forall harmless l ∧ (owned = false → unowned region ip l))).
  - eapply from_still; [apply still_on_snd|apply emits_on_snd, emits_on_snd, verify_trace|].
    intros fl l r l' [-> ->] [Hl Hr]. assert (Forall harmless l') as Hh by (eapply Forall_impl; [exact Hl|apply reading_harmless]).
    assert (Forall building l') as Hb by by apply harmless_building.
    destruct r as [owned|e|]; cbn [app]; [|apply building_shaped; done..]. split; [done|]. split; [done|]. intros ->. by apply Hr.
  - intros owned. apply (from_set _ _ (λ fl, mkFlags owned (isSafeToReleaseIP fl))). intros fl l (H1 & H2 & H3). done.
Qed.

Lemma from_static l0 serviceName fwdRuleIP netTier :
  run_from l0 (λ fl l, isSafeToReleaseIP fl = false ∧ Forall harmless l ∧ (isUserOwnedIP fl = false → unowned region ip l))
    (fl ← ask;
     if isUserOwnedIP fl.1 then mret ip
     else '(ipAddr, existed) ← wrapped (Errorf "failed to ensure a static IP for load balancer (%s): %v")
                                 (on_snd (on_snd (ensureStaticIP name serviceName region fwdRuleIP netTier)));
          _ ← setSafe (negb existed); mret ipAddr : F string)
    (λ r fl l, match r with
       | Ret _ => built fl l ∧ Forall harmless l
       | Err e => shaped (Err e : outcome (list string)) fl l
       | Panic => shaped (Panic : outcome (list string)) fl l
       end).
Proof.
  assert (∀ fl l, isSafeToReleaseIP fl = false → Forall harmless l → (isUserOwnedIP fl = false → unowned region ip l) → built fl l) as Hbuilt.
  { intros fl l Hs Hl Hu. split; [by apply harmless_building|]. split; [intros _; rewrite Hs; discriminate|exact Hu]. }
  apply from_ask. intros [fl0 s0]. cbn [fst]. destruct (isUserOwnedIP fl0) eqn:Eo.
  { apply from_ret. intros fl l (-> & H1 & H2 & H3). by auto. }
  eapply (from_bind _ _ _ _ (λ p fl l, isUserOwnedIP fl = false ∧ Forall harmless l ∧ unowned region ip l ∧ (p.2 = false → Exists (reserved name region) l))).
  - eapply from_still; [apply still_wrapped, still_on_snd|..].
    + apply emits_wrapped, emits_on_snd, emits_on_snd, static_trace.
    + intros fl l r l' (-> & H1 & H2 & H3) Hr. assert (Forall harmless l') as Hl by (destruct r; naive_solver).
      pose proof (built_app _ _ _ Hl (Hbuilt _ _ H1 H2 H3)) as (B1 & B2 & B3).
      destruct r as [[a b]|e|]; [|by apply building_shaped..]. split; [done|]. split; [by apply Forall_app|]. split; [by apply B3|].
      cbn. intros ->. apply Exists_app. right. by apply (proj2 Hr a).
  - intros [ipAddr existed]. eapply (from_bind _ _ _ _ (λ _ fl l, built fl l ∧ Forall harmless l)); [|intros _; by apply from_ret].
    apply (from_set _ _ (λ fl, mkFlags (isUserOwnedIP fl) (negb existed))). intros fl l (H1 & H2 & H3 & H4). split; [|done].
    split; [by apply harmless_building|]. split; [|done]. intros _ Hs. destruct existed; [discriminate Hs|].
    split; [done|]. right. split; [by apply H4|by apply harmless_keeps].
Qed.

(** The rule is dropped with the release switched off. *)
Lemma from_drop l0 (b : bool) :
  run_from l0 (λ fl l, built fl l ∧ Forall harmless l)
    (if b then _ ← setSafe false;
               wrapped (Errorf "failed to delete existing forwarding rule for load balancer (%s) update: %v")
                 (on_snd (on_snd (ignoreNotFound (DeleteRegionForwardingRule name region))))
     else mret tt : F unit)
    (λ r fl l, match r with
       | Ret _ => built fl l ∧ (Exists dropsRule l → b = true)
       | Err e => shaped (Err e : outcome (list string)) fl l
       | Panic => shaped (Panic : outcome (list string)) fl l
       end).
Proof.
  destruct b; [|apply from_ret; intros fl l [Hb Hl]; split; [done|]; intros (e & Hin & He)%Exists_exists;
    rewrite Forall_forall in Hl; by apply Hl in Hin as [_ Hin]].
  eapply (from_bind _ _ _ _ (λ _ fl l, built fl l ∧ isSafeToReleaseIP fl = false)).
  { apply (from_set _ _ (λ fl, mkFlags (isUserOwnedIP fl) false)). intros fl l [(B1 & B2 & B3) Hl]. split; [|done]. split; [done|]. split; [intros _ [=]|done]. }
  intros _. eapply from_still; [apply still_wrapped, still_on_snd|apply (only_wrapped building); clients; by emit_steps|].
  intros fl l r l' [(B1 & B2 & B3) Hs] Hl. assert (built fl (l ++ l')) as Hb.
  { split; [by apply Forall_app|]. split; [intros _; rewrite Hs; discriminate|]. intros Ho. eapply unowned_mono; [|by apply B3]. set_solver. }
  destruct r; [done|apply building_shaped; [apply Hb|apply Hb|done]..].
Qed.

(** The rule is created, and the release switched on again. *)
Lemma from_insert l0 (b dropped : bool) serviceName address target ports netTier : (dropped = true → b = true) →
  run_from l0 (λ fl l, built fl l ∧ (Exists dropsRule l → dropped = true))
    (_ ← (if b then _ ← wrapped (Errorf "failed to create forwarding rule for load balancer (%s): %v")
                          (on_snd (on_snd (createForwardingRule name serviceName region address target ports netTier)));
                    setSafe true
          else mret tt);
     mret [address] : F (list string)) shaped.
Proof.
  intros Hdb. destruct b; cycle 1.
  { apply from_ret. intros fl l [(B1 & B2 & B3) Hd]. exists l, []. rewrite app_nil_r. split; [done|]. split; [done|]. split; [by left|]. split; [done|].
    intros a _ He. destruct dropped; [discriminate (Hdb eq_refl)|discriminate (Hd He)]. }
  eapply (from_bind _ _ _ _ (λ _ fl l, ∃ body ins, l = body ++ ins ∧ Forall building body ∧ insertion ins ∧ Exists (attached name region) ins ∧ (isUserOwnedIP fl = false → unowned region ip l))).
  - eapply (from_bind _ _ _ _ (λ _ fl l, ∃ body ins, l = body ++ ins ∧ Forall building body ∧ insertion ins ∧ Exists (attached name region) ins ∧ (isUserOwnedIP fl = false → unowned region ip l))).
    + eapply from_still; [apply still_wrapped, still_on_snd|apply emits_wrapped, emits_on_snd, emits_on_snd, insert_trace|].
      intros fl l r l' [(B1 & B2 & B3) Hd] Hr. assert (insertion l') as Hi by (destruct r; naive_solver).
      assert (isUserOwnedIP fl = false → unowned region ip (l ++ l')) as Hu by (intros Ho; eapply unowned_mono; [|by apply B3]; set_solver).
      assert (safe fl (l ++ l')) as Hs.
      { intros Ho Hf. apply releasable_app; [|by apply B2]. destruct Hi as [->|(rule & r0 & ->)]; [done|]. constructor; [intros []|done]. }
      destruct r as [[]|e|]; exists l, l'; naive_solver.
    + intros _. apply (from_set _ _ (λ fl, mkFlags (isUserOwnedIP fl) true)). done.
  - intros _. apply from_ret. intros fl l (body & ins & -> & H1 & H2 & H3 & H4). exists body, ins. split; [done|]. split; [done|]. split; [done|]. split; [|done].
    intros Ho _. split; [by apply H4|]. left. apply Exists_app. by right.
Qed.

Lemma body_shaped l0 hosts netTier fwdRuleExists fwdRuleNeedsUpdate fwdRuleIP :
  run_from l0 (λ fl l, fl = mkFlags false false ∧ l = [])
    (ensureExternalResources g clusterID svc hosts netTier fwdRuleExists fwdRuleNeedsUpdate fwdRuleIP : F (list string)) shaped.
Proof.
  unfold ensureExternalResources. cbv zeta. eapply from_bind; [apply from_verify|]. intros ?. cbv beta.
  apply from_assoc. eapply from_bind; [apply from_static|]. intros address. cbv beta.
  assert (∀ l l', Forall harmless l → Forall harmless l' → Forall harmless (l ++ l')) as Hx by (intros; by apply Forall_app).
  eapply (from_bind _ _ _ _ (λ _ fl l, built fl l ∧ Forall harmless l)).
  { apply from_pure. intros fl l [Hb Hl]. destruct (GetLoadBalancerSourceRanges svc); [done|apply building_shaped; [apply Hb|apply Hb|done]..]. }
  intros ranges. eapply from_bind; [apply from_harmless; [apply still_on_snd|apply emits_on_snd, emits_on_snd, only_needsUpdate|done]|].
  intros [fwExists fwUpdate]. cbv beta.
  eapply (from_bind _ _ _ _ (λ _ fl l, built fl l ∧ Forall harmless l)).
  { destruct fwUpdate; [|by apply from_ret].
    apply from_harmless; [apply still_on_snd|apply emits_on_snd; destruct fwExists; [apply only_updateFirewall|apply only_createFirewall]|done]. }
  intros ?. eapply from_bind; [apply from_harmless; [apply still_on_snd|apply emits_on_snd, emits_on_snd, only_needsRecreation|done]|].
  intros [tpExists recreate]. cbv beta.
  eapply from_bind; [apply from_harmless; [apply still_wrapped, still_on_snd|clients; emit_steps; by apply harmless_reads|done]|].
  intros existing. cbv beta. destruct (planHealthChecks svc clusterID existing) as [[hcToCreate hcToDelete] hcChanges].
  eapply from_bind; [apply from_drop|]. intros ?. cbv beta.
  eapply from_bind; [apply from_harmless; [apply still_on_snd|apply emits_on_snd, only_ensurePool|]|].
  { intros l l' Hl Hh. rewrite Exists_app. intros [He|He]; [by apply Hl|]. apply Exists_exists in He as (e & Hin & He).
    apply harmless_keeps in Hh. rewrite Forall_forall in Hh. by apply Hh in Hin. }
  intros ?. apply from_insert. intros Hd. apply andb_true_iff in Hd as [_ Hd]. by rewrite orb_comm.
Qed.

(** *** The whole run *)
Definition givenBack (l : list event) (rel : list event) : Prop :=
  rel = [] ∨ (∃ r0, rel = [Event (AddressesDelete name region) r0]) ∧ releasable name region ip l.
Definition ensured (r : outcome (list string)) (log : list event) : Prop :=
  ∃ prep body ins rel, log = prep ++ body ++ ins ++ rel ∧
    (svc_Annotations svc !! NetworkTierAnnotationKey = None → Forall reading prep) ∧
    Forall building body ∧ insertion ins ∧ givenBack (body ++ ins) rel ∧
    (∀ ips, r = Ret ips → Exists dropsRule body → Exists (attached name region) ins).

Lemma only_tiers netTier : only C (λ _, True) (on_snd (ignored (deleteWrongNetworkTieredResources g name netTier)) : io (lbState * LW) _).
Proof. unfold deleteWrongNetworkTieredResources, deleteFWDRuleWithWrongTier, deleteAddressWithWrongTier. do 2 clients. by emit_steps. Qed.
Lemma release_trace fl : emits C (releaseIP g name fl : io (lbState * LW) _)
  (λ r l, l = [] ∨ (isUserOwnedIP fl = false ∧ isSafeToReleaseIP fl = true ∧ ∃ r0, l = [Event (AddressesDelete name region) r0])).
Proof.
  unfold releaseIP. destruct (isUserOwnedIP fl); [apply emits_ret; by left|]. destruct (isSafeToReleaseIP fl); [|apply emits_ret; by left].
  clients. unfold ignored. apply emits_on_snd. eapply (emits_bind _ _ (λ _ l, ∃ r0, l = [Event (AddressesDelete name region) r0]) (λ _ _ l, l = [])).
  - eapply emits_try; [by apply (emits_exec _ _ (λ r l, ∃ r0, l = [Event (AddressesDelete name region) r0])); eauto|..]; done.
  - intros ?. by apply emits_ret.
  - intros x r l1 l2 [r0 ->] ->. right. eauto.
  - intros e l [r0 ->]. right. eauto.
  - intros l [r0 ->]. right. eauto.
Qed.

Lemma deferred_trace hosts netTier fwdRuleExists fwdRuleNeedsUpdate fwdRuleIP :
  logs (deferring (mkFlags false false)
          (ensureExternalResources g clusterID svc hosts netTier fwdRuleExists fwdRuleNeedsUpdate fwdRuleIP)
          (releaseIP g name) : io (lbState * LW) (list string))
    (λ r l, ∃ body ins rel, l = body ++ ins ++ rel ∧ Forall building body ∧ insertion ins ∧ givenBack (body ++ ins) rel ∧
       (∀ ips, r = Ret ips → Exists dropsRule body → Exists (attached name region) ins)).
Proof.
  intros s. unfold deferring.
  destruct (body_shaped (logOf s) hosts netTier fwdRuleExists fwdRuleNeedsUpdate fwdRuleIP (mkFlags false false, s) []) as (l1 & E1 & body & ins & -> & H1 & H2 & H3 & H4);
    [by rewrite app_nil_r|done|].
  destruct (ensureExternalResources _ _ _ _ _ _ _ _ _) as [r [fl s1]]. cbn [fst snd] in *.
  destruct (release_trace fl s1) as (rel & E2 & _ & Hr). destruct (releaseIP g name fl s1) as [r' s2]. cbn [fst snd] in *.
  exists (body ++ ins ++ rel). split; [change (logOf s1 = logOf s ++ body ++ ins) in E1; by rewrite E2, E1, !app_assoc|]. exists body, ins, rel. split; [done|]. split; [done|]. split; [done|]. split.
  - destruct Hr as [->|(Ho & Hs & Hr)]; [by left|]. right. split; [done|]. by apply H3.
  - intros ips Hi. destruct r'; try discriminate; eauto.
Qed.
End body.

Lemma external_ensured {W} (C : Compute W) `{MapOrder} g clusterID svc existingFwdRule nodes :
  logs (@ensureExternalLoadBalancer _ (logged C) _ g clusterID svc existingFwdRule nodes) (ensured g svc).
Proof.
  set (φ := λ l, svc_Annotations svc !! NetworkTierAnnotationKey = None → Forall reading l).
  set (Q := λ r l, ∀ l0, φ l0 → ensured g svc r (l0 ++ l)).
  assert (logs (@ensureExternalLoadBalancer _ (logged C) _ g clusterID svc existingFwdRule nodes) Q) as Hm; cycle 1.
  { intros s. destruct (Hm s) as (l & El & Hl). exists l. split; [done|]. apply (Hl []). intros _. apply Forall_nil_2. }
  assert (∀ l1 l2, φ l1 → φ l2 → φ (l1 ++ l2)) as Happ by (intros l1 l2 H1 H2 Ha; apply Forall_app; auto).
  assert (∀ r l, φ l → (∀ ips, r ≠ Ret ips) → Q r l) as Hstop.
  { intros r0 l Hl Hr l0 H0. exists (l0 ++ l), [], [], []. rewrite !app_nil_r. split; [done|]. split; [by apply Happ|].
    split; [done|]. split; [by left|]. split; [by left|]. intros ips ->. by destruct (Hr ips). }
  assert (∀ A (m : io (lbState * (W * list event)) A) f, logs m (λ _ l, φ l) → (∀ a, logs (f a) Q) → logs (m ≫= f) Q) as Hbind.
  { intros A m f Hm Hf. apply (logs_bind m f _ (λ _, Q) Q Hm Hf); [|intros; by apply Hstop..].
    intros a r0 l1 l2 H1 H2 l0 Hp. rewrite app_assoc. by apply H2, Happ. }
  assert (∀ A (m : io (lbState * (W * list event)) A), only C reading m → logs m (λ _ l, φ l)) as Hreads.
  { intros A m Hm. apply (logs_emits C). eapply emits_weaken; [exact Hm|]. intros ? l Hl _. exact Hl. }
  unfold ensureExternalLoadBalancer. destruct (_ || _ || _); [apply (logs_emits C), emits_fail, Hstop; [intros _; apply Forall_nil_2|done]|].
  case_bool_decide; [apply (logs_emits C), emits_fail, Hstop; [intros _; apply Forall_nil_2|done]|].
  apply Hbind; [apply Hreads, emits_on_snd, only_getInstancesByNames; done|]. intros hosts. cbv zeta.
  apply Hbind; [destruct (GetServiceNetworkTier svc) as [tier [e|]]; apply Hreads; emit_steps|]. intros netTier.
  apply Hbind.
  { case_bool_decide as Ht; [|by apply Hreads; emit_steps]. apply (logs_emits C).
    eapply emits_weaken; [apply only_tiers|]. intros ? l _ Ha. rewrite Ha in Ht. by destruct Ht. }
  intros _. apply Hbind; [apply Hreads, emits_on_snd, only_ruleNeedsUpdate|]. intros [[exists' needs] fip].
  intros s. destruct (deferred_trace C g clusterID svc hosts netTier exists' needs fip s) as (l & El & body & ins & rel & -> & Hl).
  exists (body ++ ins ++ rel). split; [done|]. intros l0 Hp. exists l0, body, ins, rel. naive_solver.
Qed.

