(* ===== verification/LbDispatchProps.v ===== *)
(** * LbDispatchProps: the choice between the load balancers, and the identifiers

    Properties of [EnsureLoadBalancer] (what is left to others, what is refused,
    the order in which a service moves from one kind of load balancer to the
    other), of the cluster's identifier, and of the exported counts. *)

From S2P Require Import Prelude K8s IoLogic AddressManager LoadBalancer GceHosts ComputeCalls ClusterId InternalLb Goroutines ExternalLb LbDispatch LbLogic InternalLbScope ExternalLbTrace ExternalLbEnsure.
Local Open Scope Z_scope.

(** ** Dispatch *)
(** The calls that look up or create the identifier. *)
Definition idCall (e : event) : Prop :=
  match e with Event c _ => match c with ConfigMapsFromStore _ | RandomUID | ConfigMapsCreate _ _ _ => True | _ => False end end.
(** The calls that report a service to its owner. *)
Definition reportCall (e : event) : Prop :=
  match e with Event c _ => match c with RecordEvent _ _ _ _ | ServicesApplyPortsError _ _ => True | _ => False end end.
Definition insertsRule (e : event) : Prop := match e with Event c _ => match c with ForwardingRulesInsert _ _ _ => True | _ => False end end.
Definition keepsRules (e : event) : Prop := ¬ insertsRule e.

(** A rule of the other kind is found. *)
Definition otherKind (g : gceConfig) (svc : Service) (l : list event) : Prop :=
  ∃ rule, Event (ForwardingRulesGet (GetLoadBalancerName svc) (g_region g)) (Ret rule) ∈ l ∧ to_upper (fr_LoadBalancingScheme rule) ≠ getSvcScheme svc.
Definition inspection (g : gceConfig) (svc : Service) (e : event) : Prop :=
  idCall e ∨ ∃ r, e = Event (ForwardingRulesGet (GetLoadBalancerName svc) (g_region g)) r.

Definition ruleAnswer (e : event) : option ForwardingRule :=
  match e with
  | Event c r => match c in Call A return outcome A → option ForwardingRule with
                 | ForwardingRulesGet _ _ => λ r, match r with Ret rule => Some rule | _ => None end
                 | _ => λ _, None
                 end r
  end.

(** The deletions create no rule. *)
Lemma sends_traces {A} φ (p : prog A) l o : sends φ p → traces p l o → Forall φ l.
Proof.
  revert l. induction p as [o'|X c k IH]; intros l Hp; [by intros [-> _]|]. intros (r & l' & -> & Ht). destruct (Hp r) as [H1 H2]. constructor; [done|eauto].
Qed.
Lemma harmless_keepsRules e : harmless e → keepsRules e.
Proof. destruct e as [A c r]. intros [Hb _]. destruct c; cbn in *; try done; intros []. Qed.
Lemma sends_mono {A} (φ ψ : event → Prop) (p : prog A) : (∀ e, φ e → ψ e) → sends φ p → sends ψ p.
Proof. intros Hφ. induction p as [o|X c k IH]; [done|]. intros Hp r. destruct (Hp r) as [H1 H2]. auto. Qed.

Section deletion.
Context {W : Type} (C : Compute W) `{Sha1}.
Variables (g : gceConfig) (clusterID : string) (svc : Service).
#[local] Existing Instance logged.
Abbreviation LW := (W * list event)%type.
Abbreviation name := (GetLoadBalancerName svc).

Lemma external_deletion_keeps s t : emits C (ensureExternalLoadBalancerDeleted g s t clusterID svc : io LW unit)
  (λ r l, Forall keepsRules l ∧ (r = Ret tt → answered l (ForwardingRulesDelete name (g_region g)) gone)).
Proof.
  unfold ensureExternalLoadBalancerDeleted. destruct (usesL4RBS svc None); [by apply emits_fail|].
  eapply (emits_bind _ _ (λ r l, Forall keepsRules l) (λ names r l, Forall keepsRules l ∧ (r = Ret tt → answered l (ForwardingRulesDelete name (g_region g)) gone))).
  - eapply emits_weaken; [apply deletion_checks|]. intros r l [Hl _]. eapply Forall_impl; [exact Hl|]. intros [A c r0] Hd. destruct c; try (by intros []); by destruct Hd.
  - intros names. cbn [deletionGoroutines]. eapply emits_weaken; [apply emits_prog|]. intros r l Ht. split.
    + apply traces_bind in Ht as (l1 & l2 & o1 & -> & (a & b & oa & ob & Hm & Ha & (b1 & b2 & ob1 & ob2 & Hm2 & Hb1 & Hb2 & ->)%traces_par & ->)%traces_par & Hk).
      cbn in Hk. destruct Hk as [-> ->]. rewrite app_nil_r.
      apply (sends_traces keepsRules) in Ha; [|eapply sends_mono; [apply harmless_keepsRules|apply sends_deleteFirewall]].
      apply traces_notFoundIgnored in Hb1 as (r & -> & ->).
      apply (sends_traces keepsRules) in Hb2; cycle 1.
      { apply sends_bind; [apply sends_notFoundIgnored, sends_send; intros ? []|intros _]. eapply sends_mono; [apply harmless_keepsRules|apply sends_deletePool]. }
      eapply merged_Forall; [exact Hm|done|]. eapply merged_Forall; [exact Hm2| |done]. constructor; [intros []|done].
    + intros Ho. apply traces_deletion in Ht as (_ & _ & Ht). by destruct (Ht Ho) as (_ & _ & Hd & _).
  - intros names r l1 l2 H1 [H2 H3]. split; [by apply Forall_app|]. intros Ho. eapply answered_mono; [|by apply H3]. set_solver.
  - naive_solver.
  - naive_solver.
Qed.

Lemma internal_deletion_keeps : emits C (ensureInternalLoadBalancerDeleted g clusterID svc : io (lbState * LW) unit)
  (λ r l, Forall keepsRules l ∧ (r = Ret tt → answered l (ForwardingRulesDelete name (g_region g)) gone)).
Proof.
  eapply emits_weaken; [apply emits_and; [apply deletion_scope|apply deletion_trace]|]. cbn beta. intros r l [Hs Ht]. split.
  - eapply Forall_impl; [exact Hs|]. intros [A c r0] He. destruct c; cbn in He; try (by intros []); discriminate He.
  - intros ->. destruct Ht as (l1 & l2 & -> & _ & [[-> Hr]|(_ & Hc & _)]).
    + rewrite app_nil_r. exact (proj1 (proj1 (Hr eq_refl))).
    + eapply answered_mono; [|exact (proj1 Hc)]. set_solver.
Qed.
End deletion.

Section dispatch.
Context {W : Type} (C : Compute W) `{MapOrder} `{Sha1}.
Variables (g : gceConfig) (svc : Service).
#[local] Existing Instance logged.
Abbreviation LW := (W * list event)%type.
Abbreviation name := (GetLoadBalancerName svc).

Lemma only_GetID : only C idCall (on_id GetID : io (lbState * LW) string).
Proof. unfold GetID, getOrInitialize, getConfigMap. by emit_steps. Qed.

Lemma existing_trace : emits C (on_snd (optional (GetRegionForwardingRule name (g_region g))) : io (lbState * LW) _)
  (λ r l, ∃ r0, l = [Event (ForwardingRulesGet name (g_region g)) r0] ∧ ∀ x rule, r = Ret x → r0 = Ret rule → x = Some rule).
Proof.
  apply emits_on_snd. unfold optional. clients.
  eapply (emits_bind _ _ (λ r l, ∃ r0, l = [Event (ForwardingRulesGet name (g_region g)) r0] ∧ match r with Ret x => r0 = match x with inr a => Ret a | inl e => Err e end | _ => True end)
    (λ x r l, l = [] ∧ match r with Ret y => ∀ a, x = inr a → y = Some a | _ => True end)).
  - eapply emits_try; [by apply (emits_exec _ _ (λ r l, l = [Event (ForwardingRulesGet name (g_region g)) r]))|..]; intros; cbn in *; subst; eauto.
  - intros [e|a]; [destruct (isNotFound e); [apply emits_ret|apply emits_fail]|apply emits_ret]; naive_solver.
  - intros x r l1 l2 (r0 & -> & ->) [-> Hr]. eexists. split; [done|]. intros y rule -> Hx. apply Hr. destruct x; naive_solver.
  - intros e l (r0 & -> & _). eexists. by split.
  - intros l (r0 & -> & _). eexists. by split.
Qed.

(** What [EnsureLoadBalancer] does for a service it handles: it looks up the
    identifier and the rule, deletes a load balancer of the other kind, then
    ensures the one that is wanted. *)
Definition dispatched (log : list event) : Prop :=
  ∃ pre mid post, log = pre ++ mid ++ post ∧ Forall (inspection g svc) pre ∧ Forall keepsRules mid ∧
    (post ≠ [] → otherKind g svc pre → answered mid (ForwardingRulesDelete name (g_region g)) gone).

Lemma inspection_dispatched l : Forall (inspection g svc) l → dispatched l.
Proof. intros Hl. exists l, [], []. by rewrite !app_nil_r. Qed.

Lemma any_ensure clusterID existing nodes (b : bool) :
  logs (if b then ensureInternalLoadBalancer g clusterID svc existing nodes else ensureExternalLoadBalancer g clusterID svc existing nodes : io (lbState * LW) _) (λ _ _, True).
Proof.
  intros st. destruct b.
  - destruct (logs_emits C _ _ (ensure_trace C g clusterID svc existing nodes) st) as (l & El & _). eauto.
  - destruct (external_ensured C g clusterID svc existing nodes st) as (l & El & _). eauto.
Qed.

Lemma dispatch_trace s t nodes : svc_LoadBalancerClass svc = None → checkMixedProtocol (svc_Ports svc) = None →
  logs (EnsureLoadBalancer g s t svc nodes : io (lbState * LW) _) (λ _ l, dispatched l).
Proof.
  intros Hc Hp. unfold EnsureLoadBalancer. rewrite Hc, Hp. cbn [bool_decide is_Some]. rewrite bool_decide_false by (by intros [? ?]).
  cbv zeta. apply (logs_bind _ _ (λ _ l, Forall idCall l) (λ _ _ l, ∃ r0 mid post, l = Event (ForwardingRulesGet name (g_region g)) r0 :: mid ++ post ∧
    Forall keepsRules mid ∧ (post ≠ [] → ∀ rule, r0 = Ret rule → to_upper (fr_LoadBalancingScheme rule) ≠ getSvcScheme svc → answered mid (ForwardingRulesDelete name (g_region g)) gone))).
  - apply (logs_emits C), only_GetID.
  - intros clusterID.
    apply (logs_bind _ _ (λ r l, ∃ r0, l = [Event (ForwardingRulesGet name (g_region g)) r0] ∧ ∀ x rule, r = Ret x → r0 = Ret rule → x = Some rule)
      (λ x _ l, ∃ mid post, l = mid ++ post ∧ Forall keepsRules mid ∧
         (post ≠ [] → ∀ rule, x = Some rule → to_upper (fr_LoadBalancingScheme rule) ≠ getSvcScheme svc → answered mid (ForwardingRulesDelete name (g_region g)) gone))).
    + apply (logs_emits C), existing_trace.
    + intros x. apply (logs_bind _ _ (λ r l, Forall keepsRules l ∧ (∀ y rule, r = Ret y → x = Some rule → to_upper (fr_LoadBalancingScheme rule) ≠ getSvcScheme svc →
          answered l (ForwardingRulesDelete name (g_region g)) gone)) (λ _ _ _, True)).
      * apply (logs_emits C). destruct x as [rule|]; [|by apply emits_ret]. cbv zeta. case_bool_decide as Hk; [by apply emits_ret; naive_solver|].
        apply (emits_bind _ _ (λ r l, Forall keepsRules l ∧ (r = Ret tt → answered l (ForwardingRulesDelete name (g_region g)) gone)) (λ _ _ l, l = [])).
        -- case_bool_decide; [apply internal_deletion_keeps|apply emits_on_snd, external_deletion_keeps].
        -- intros _. by apply emits_ret.
        -- intros [] r l1 l2 [H1 H2] ->. rewrite app_nil_r. naive_solver.
        -- naive_solver.
        -- naive_solver.
      * intros existing. apply any_ensure.
      * intros y r l1 l2 [H1 H2] _. exists l1, l2. naive_solver.
      * intros e l [H1 H2]. exists l, []. rewrite app_nil_r. naive_solver.
      * intros l [H1 H2]. exists l, []. rewrite app_nil_r. naive_solver.
    + intros x r l1 l2 (r0 & -> & Hx) (mid & post & -> & H1 & H2). exists r0, mid, post. split; [done|]. split; [done|]. intros Hn rule -> Hk. by eapply H2; [|eapply Hx|].
    + intros e l (r0 & -> & _). exists r0, [], []. done.
    + intros l (r0 & -> & _). exists r0, [], []. done.
  - intros clusterID r l1 l2 H1 (r0 & mid & post & -> & H2 & H3). set (e := Event _ r0). exists (l1 ++ [e]), mid, post. rewrite <- app_assoc. split; [done|].
    split; [apply Forall_app; split; [eapply Forall_impl; [exact H1|by left]|constructor; [right; by eexists|done]]|]. split; [done|].
    intros Hn (rule & [Hin|Hin]%elem_of_app & Hk).
    + rewrite Forall_forall in H1. by apply H1 in Hin.
    + apply list_elem_of_singleton, (f_equal ruleAnswer) in Hin. cbn in Hin. destruct r0 as [rule'| |]; try discriminate Hin. injection Hin as <-. by eapply H3.
  - intros e l Hl. apply inspection_dispatched. eapply Forall_impl; [exact Hl|by left].
  - intros l Hl. apply inspection_dispatched. eapply Forall_impl; [exact Hl|by left].
Qed.

Lemma mixed_trace s t nodes err : svc_LoadBalancerClass svc = None → checkMixedProtocol (svc_Ports svc) = Some err →
  emits C (EnsureLoadBalancer g s t svc nodes : io (lbState * LW) _) (λ r l, Forall (λ e, idCall e ∨ reportCall e) l ∧ ∀ ips, r ≠ Ret ips).
Proof.
  intros Hc Hp. unfold EnsureLoadBalancer. rewrite Hc, Hp. rewrite bool_decide_false by (by intros [? ?]). cbv zeta.
  apply (emits_bind _ _ (λ _ l, Forall idCall l) (λ _ r l, Forall reportCall l ∧ ∀ ips, r ≠ Ret ips)); [apply only_GetID|..].
  - intros clusterID. destruct (hasLoadBalancerPortsError svc); [by apply emits_fail|].
    apply (emits_bind _ _ (λ _ l, Forall reportCall l) (λ _ r l, l = [] ∧ ∀ ips, r ≠ Ret ips)).
    + unfold reportMixedProtocol. clients. by emit_steps.
    + intros _. by apply emits_fail.
    + intros a r l1 l2 H1 [-> H2]. by rewrite app_nil_r.
    + naive_solver.
    + naive_solver.
  - intros a r l1 l2 H1 [H2 H3]. split; [|done]. apply Forall_app. split; (eapply Forall_impl; [eassumption|]; tauto).
  - intros e l Hl. split; [|done]. eapply Forall_impl; [exact Hl|]. tauto.
  - intros l Hl. split; [|done]. eapply Forall_impl; [exact Hl|]. tauto.
Qed.
End dispatch.


(** ** The identifier *)

Lemma getOrInitialize_Ret {W} (C : Compute W) ci w ci' w' log :
  @getOrInitialize _ (logged C) (ci, (w, [])) = (Ret tt, (ci', (w', log))) → ci_ready ci' = true ∧
  (log = [] ∨ (∃ data, log = [Event (ConfigMapsFromStore cfgMapKey) (Ret (Some (Some data)))]) ∨
   ∃ uid, ci' = updateID (newConfig uid) ci ∧
     log = [Event (ConfigMapsFromStore cfgMapKey) (Ret None); Event RandomUID (Ret uid); Event (ConfigMapsCreate UIDNamespace UIDConfigMapName (newConfig uid)) (Ret tt)]).
Proof.
  unfold getOrInitialize, getConfigMap, on_snd. intros E. apply io_bind_Ret in E as (s & ? & [= <- <-] & E). cbn [fst] in E.
  destruct (ci_ready ci) eqn:Er; [|discriminate E]. cbn [negb] in E. destruct (ci_clusterID ci); [injection E as <- <- <-; auto|].
  apply io_bind_Ret in E as (b & s1 & E1 & E). apply io_bind_Ret in E1 as (item & s0 & E0 & E1). cbn [fst snd] in E0. rewrite logged_exec in E0.
  destruct (exec _ w) as [r w1]. injection E0 as -> <-. destruct item as [[data|]|]; [|discriminate E1|].
  - injection E1 as <- <-. injection E as <- <- <-. split; [exact Er|]. right. left. by exists data.
  - injection E1 as <- <-. cbn iota in E. apply io_bind_Ret in E as (uid & s2 & E2 & E). cbn [fst snd] in E2. rewrite logged_exec in E2.
    destruct (exec _ w1) as [r2 w2]. injection E2 as -> <-. apply io_bind_Ret in E as ([] & s3 & E3 & E). cbn [fst snd] in E3. rewrite logged_exec in E3.
    destruct (exec _ w2) as [r3 w3]. injection E3 as -> <-. injection E as <- <- <-. split; [exact Er|]. right. right. by exists uid.
Qed.

(** Once [GetID] has returned an identifier, it returns the same one
    without a call and without a change, in whatever world, and
    [GetFederationID] answers without a call; before that, a config map is
    created only after the store was found to hold none. *)
Theorem cluster_id_cached {W} (C : Compute W) ci w id ci' w' log :
  @GetID _ (logged C) (ci, (w, [])) = (Ret id, (ci', (w', log))) →
  (∀ W' (C' : Compute W') s, @GetID W' C' (ci', s) = (Ret id, (ci', s)) ∧ ∃ f, @GetFederationID W' C' (ci', s) = (Ret f, (ci', s))) ∧
  (log = [] ∨ (∃ data, log = [Event (ConfigMapsFromStore cfgMapKey) (Ret (Some (Some data)))]) ∨
   log = [Event (ConfigMapsFromStore cfgMapKey) (Ret None); Event RandomUID (Ret id); Event (ConfigMapsCreate UIDNamespace UIDConfigMapName (newConfig id)) (Ret tt)]).
Proof.
  intros E. apply io_bind_Ret in E as ([] & [ci1 [w1 l1]] & E1 & E). apply io_bind_Ret in E as (s & ? & [= <- <-] & E). cbn [fst] in E.
  assert (∃ c, ci_clusterID ci1 = Some c ∧ id = default c (ci_providerID ci1) ∧ ci' = ci1 ∧ log = l1) as (c & Hc & -> & -> & ->).
  { destruct (ci_clusterID ci1) as [c|]; [|discriminate E]. destruct (ci_providerID ci1); injection E as <- <- <- <-; eauto. }
  clear E. destruct (getOrInitialize_Ret _ _ _ _ _ _ E1) as [Hr Hl]. split.
  - intros W' C' s. unfold GetID, GetFederationID, getOrInitialize. rewrite !io_bind_eq. cbn. rewrite Hr, Hc. cbn. rewrite !io_bind_eq. cbn. rewrite Hc.
    destruct (ci_providerID ci1) as [p|]; [destruct (bool_decide (c = p))|]; eauto.
  - destruct Hl as [?|[?|(uid & -> & ->)]]; eauto.
Qed.

(** ** The counts *)
(** The services that satisfy a test. *)
Definition services (p : L4ILBServiceState → bool) (m : l4ILBServiceMap) : Z :=
  Z.of_nat (size (filter (λ kv : string * L4ILBServiceState, p kv.2 = true) m)).
Lemma services_insert p m k x : m !! k = None → services p (<[k:=x]> m) = services p m + Z.b2z (p x).
Proof.
  intros Hk. unfold services. destruct (p x) eqn:E.
  - rewrite map_filter_insert_True by done. rewrite map_size_insert_None; [cbn [Z.b2z]; lia|]. by apply map_lookup_filter_None_2; left.
  - rewrite map_filter_insert_False by (cbn; congruence). rewrite delete_id by done. cbn [Z.b2z]. lia.
Qed.

(** The exported counts are the numbers of the services they name: every
    service is counted, either as a success or as an error, and the features
    only for the successes. *)
Theorem l4_counts_exact (m : l4ILBServiceMap) :
  computeL4ILBMetrics m =
  mkCounts (Z.of_nat (size m)) (services (λ s, InSuccess s && EnabledGlobalAccess s) m) (services (λ s, InSuccess s && EnabledCustomSubnet s) m)
    (services InSuccess m) (services (λ s, negb (InSuccess s)) m).
Proof.
  unfold computeL4ILBMetrics. revert m. refine (map_fold_weak_ind (λ n (m : l4ILBServiceMap), n = _) _ _ _ _); [done|].
  intros k x m n Hk ->. rewrite map_size_insert_None, !services_insert by done. unfold countService.
  destruct (InSuccess x), (EnabledGlobalAccess x), (EnabledCustomSubnet x); cbn; f_equal; lia.
Qed.
