(* ===== verification/LbServing.v ===== *)
(** * LbServing: an established load balancer stays established

    The three operations of the provider for any other service, internal or
    external, with the goroutines of a deletion in any interleaving, leave an
    established internal load balancer as it is ([LbSharing] has the internal
    operations); so does every sequence of them, by any replica of the provider
    that knows the identifier of the cluster. *)
From stdpp Require Import relations.
From S2P Require Import Prelude Bits GoNet GoNetText K8s GceInstances NetUtils GoStrings IoLogic GnpValidations NodeIpamConfig AddressManager NodeAnnotator LoadBalancer GceHosts ComputeCalls ClusterId InternalLb Goroutines ExternalLb LbDispatch LbLogic InternalLbScope LbStore InternalLbEnsure LbSharing ExternalLbTrace ExternalLbEnsure LbDispatchProps.
Local Open Scope Z_scope.

(** ** Goroutines *)
Lemma sends_par {A B} φ (p : prog A) (q : prog B) s : sends φ p → sends φ q → sends φ (par p q s).
Proof.
  revert q s. induction p as [a|X c k IHp]; intros q s Hp Hq; revert s; induction q as [b|Y d l IHq]; intros s; cbn.
  - done.
  - intros y. destruct (Hq y) as [Hd Hl]. split; [done|]. by apply (IHq y).
  - intros x. destruct (Hp x) as [Hc Hk]. split; [done|]. by apply IHp.
  - destruct (s 0%nat); cbn.
    + intros x. destruct (Hp x) as [Hc Hk]. split; [done|]. by apply IHp.
    + intros y. destruct (Hq y) as [Hd Hl]. split; [done|]. by apply (IHq y).
Qed.

(** ** The firewalls of external load balancers *)
Lemma http_firewall_names svc svc' clusterID hcName b :
  MakeHealthCheckFirewallName clusterID hcName b ≠ MakeFirewallName (GetLoadBalancerName svc) ∧
  MakeHealthCheckFirewallName clusterID hcName b ≠ makeHealthCheckFirewallNameFromHC (ilbHealthCheck clusterID svc').
Proof.
  assert (∃ x, MakeHealthCheckFirewallName clusterID hcName b = ("k8s-" +:+ x +:+ "-http-hc")%string) as [x ->].
  { unfold MakeHealthCheckFirewallName, MakeNodesHealthCheckName. destruct b; [|by exists hcName]. exists (clusterID +:+ "-node")%string. by rewrite !string_app_assoc. }
  split.
  - intros E. destruct (lbName_shape svc) as (t & Es & Hd).
    cut ("hc"%string = GetLoadBalancerName svc); [rewrite Es; discriminate|].
    apply (after_dash_inj ("k8s-" +:+ x +:+ "-http")%string "k8s-fw"); [done|done|]. etrans; [|exact E]. by rewrite !string_app_assoc.
  - unfold makeHealthCheckFirewallNameFromHC, ilbHealthCheck, makeHealthCheckName.
    replace ("k8s-" +:+ x +:+ "-http-hc")%string with (("k8s-" +:+ x +:+ "-http") +:+ "-hc")%string by (by rewrite !string_app_assoc).
    intros E%append_inj_r. destruct (negb _).
    + enough ("http"%string = "node"%string) by done. apply (after_dash_inj ("k8s-" +:+ x)%string ("k8s-" +:+ clusterID)%string); [done|done|].
      rewrite !string_app_assoc. exact E.
    + destruct (lbName_shape svc') as (t & Es & _). rewrite Es in E. discriminate E.
Qed.

(** ** External load balancers *)
Section external.
Context {W : Type} {C : Compute W} `{!LbStore W} `{MapOrder} `{Sha1}.
Variable g : gceConfig.
Context `{!LbRefs W g}.
Variables (clusterID : string) (svc : Service) (hc : HealthCheck) (ip : string) (o : Service).
Hypothesis other : GetLoadBalancerName o ≠ GetLoadBalancerName svc.
#[local] Existing Instance logged.
Abbreviation LW := (W * list event)%type.
Abbreviation olb := (GetLoadBalancerName o).
Abbreviation stands := (stands g clusterID svc hc ip).
Abbreviation still := (kept stands).
Abbreviation asideE := (asideEvent g clusterID svc).

Definition foreignFirewall (n : string) : Prop := n = MakeFirewallName olb ∨ ∃ hcName b, n = MakeHealthCheckFirewallName clusterID hcName b.
Lemma foreign_aside (c : Call unit) n : touchedFirewall c = Some n → foreignFirewall n → aside g clusterID svc c.
Proof.
  intros Hc [->|(hcName & b & ->)]; (eapply firewall_aside; [exact Hc|]).
  - apply (other_firewalls clusterID svc o other). by left.
  - apply http_firewall_names.
Qed.

Lemma read_event A (c : Call A) r : isRead c = true → asideE (Event c r).
Proof. apply read_aside. Qed.
Ltac aside_call := unfold asideEvent, aside; cbn; split_and!; congruence.
Ltac aside_calls := apply kept_aside; clients; emit_steps; clients; emit_steps; first [by apply read_aside | aside_call].

Lemma kept_wrapped {St A} `{HasLog W St} e (m : io St A) P : still m P → still (wrapped e m) P.
Proof. intros Hm. unfold wrapped. eapply keeps_bind; [by apply keeps_try|]. intros [e'|a] Ha; [apply keeps_fail|by apply keeps_ret]. Qed.
Lemma kept_prog {A} (p : prog A) : sends asideE p → still (run p : io LW A) (λ _, True).
Proof. intros Hp. by apply kept_aside, only_run. Qed.

(** *** Firewalls *)
Lemma kept_firewallObject name desc dst ranges ports hosts :
  still (firewallObject g name desc dst ranges ports hosts : io (lbState * LW) _) (λ fw, fw_Name fw = name).
Proof.
  unfold firewallObject. destruct (getPortsAndProtocol ports) as [[? ?] ?]. eapply keeps_bind; [apply keeps_ask|intros s0 _].
  eapply (keeps_bind _ _ _ (λ _, True)); [|intros tags _; destruct ports; [by apply keeps_lift|by apply keeps_ret]].
  case_bool_decide; [|by apply keeps_ret]. apply kept_wrapped, kept_aside. emit_steps. apply only_computeHostTags. exact read_event.
Qed.
Lemma kept_conflictOk cmd r : still (conflictOk g o cmd r : io (lbState * LW) _) (λ _, True).
Proof. apply kept_aside. unfold conflictOk. emit_steps; apply only_raiseOrFail; intros; aside_call. Qed.
Lemma kept_createFirewall name desc dst ranges ports hosts : foreignFirewall name → still (createFirewall g o name desc dst ranges ports hosts : io (lbState * LW) _) (λ _, True).
Proof.
  intros Hn. unfold createFirewall. eapply keeps_bind; [apply kept_firewallObject|intros fw <-].
  eapply keeps_bind; [apply keeps_try, kept_aside; clients; emit_steps; by eapply foreign_aside|intros r _; apply kept_conflictOk].
Qed.
Lemma kept_updateFirewall name desc dst ranges ports hosts : foreignFirewall name → still (updateFirewall g o name desc dst ranges ports hosts : io (lbState * LW) _) (λ _, True).
Proof.
  intros Hn. unfold updateFirewall. eapply keeps_bind; [apply kept_firewallObject|intros fw <-].
  eapply keeps_bind; [apply keeps_try, kept_aside; clients; emit_steps; by eapply foreign_aside|intros r _; apply kept_conflictOk].
Qed.
Lemma kept_hcFirewall serviceName dst hosts hcName port nodesCheck :
  still (ensureHTTPHealthCheckFirewall g o serviceName dst clusterID hosts hcName port nodesCheck : io (lbState * LW) _) (λ _, True).
Proof.
  unfold ensureHTTPHealthCheckFirewall. cbv zeta. eapply keeps_bind; [apply keeps_try; aside_calls|intros [e|fw] _].
  - destruct (negb _); [apply keeps_fail|]. apply kept_createFirewall. right. eauto.
  - destruct (_ && _); [by apply keeps_ret|]. apply kept_updateFirewall. right. eauto.
Qed.

(** *** Deletion *)
Lemma foreign_deleteFirewall fw : foreignFirewall fw → sends asideE (deleteFirewallProg g o fw).
Proof.
  intros Hf. apply sends_bind; [apply sends_attempt, sends_notFoundIgnored, sends_send; intros ?; by eapply foreign_aside|]. intros [e|a]; [|done].
  destruct (isForbidden e && g_onXPN g); [|done]. apply sends_bind; [|done]. apply sends_attempt, sends_send. intros ?. aside_call.
Qed.
Lemma foreign_deleteChecks name hcNames : sends asideE (deleteChecks g o name clusterID hcNames).
Proof.
  induction hcNames as [|hcName hcNames IH]; [done|]. apply sends_bind; [apply sends_attempt, sends_send; intros ?; aside_call|]. intros x.
  assert (sends asideE (deleteFirewallProg g o (MakeHealthCheckFirewallName clusterID hcName (bool_decide (hcName ≠ name))))) by (apply foreign_deleteFirewall; right; eauto).
  apply sends_bind; [|done]. destruct x as [e|a]; [|done]. destruct (isInUsedByError e); [done|]. by destruct (isNotFound e).
Qed.
Lemma foreign_deletePool name region hcNames : sends asideE (DeleteExternalTargetPoolAndChecks g o name region clusterID hcNames).
Proof.
  apply sends_bind; [apply sends_attempt, sends_send; intros ?; aside_call|]. intros [e|a]; [destruct (isNotFound e); [|done]|]; apply foreign_deleteChecks.
Qed.
Lemma kept_externalDeletion s t : still (ensureExternalLoadBalancerDeleted g s t clusterID o : io LW unit) (λ _, True).
Proof.
  unfold ensureExternalLoadBalancerDeleted. destruct (usesL4RBS o None); [apply keeps_fail|].
  eapply keeps_bind; [apply kept_aside; unfold healthChecksToDelete; clients; emit_steps; by apply read_aside|intros hcNames _].
  cbn [deletionGoroutines]. apply kept_prog. apply sends_bind; [|done]. apply sends_par; [apply foreign_deleteFirewall; by left|apply sends_par].
  - apply sends_notFoundIgnored, sends_send. intros ?. aside_call.
  - apply sends_bind; [apply sends_notFoundIgnored, sends_send; intros ?; aside_call|intros _; apply foreign_deletePool].
Qed.

(** *** Target pools *)
Lemma kept_httpCheck name path port : still (ensureHTTPHealthCheck name path port : io LW _) (λ _, True).
Proof. unfold ensureHTTPHealthCheck. cbv zeta. aside_calls. Qed.
Lemma kept_inChunks fuel f l : (∀ l, still (f l : io LW _) (λ _, True)) → still (inChunks fuel f l : io LW _) (λ _, True).
Proof.
  intros Hf. revert l. induction fuel as [|fuel IH]; intros [|x l]; cbn [inChunks]; try by apply keeps_ret.
  eapply keeps_bind; [apply Hf|intros _ _; apply IH].
Qed.
Lemma kept_updatePool name hosts : still (updateTargetPool g name hosts : io LW _) (λ _, True).
Proof.
  unfold updateTargetPool. eapply keeps_bind; [aside_calls|intros pool _]. destruct (hostsToAdd _ _) as [toAdd existing]. cbv zeta.
  eapply keeps_bind; [apply kept_inChunks; intros ?; aside_calls|intros _ _].
  eapply keeps_bind; [apply kept_inChunks; intros ?; aside_calls|intros _ _]. aside_calls.
Qed.
Lemma kept_createPool name serviceName dst region hosts check :
  still (createTargetPoolAndHealthCheck g o name serviceName dst region clusterID hosts check : io (lbState * LW) _) (λ _, True).
Proof.
  unfold createTargetPoolAndHealthCheck. eapply (keeps_bind _ _ _ (λ _, True)); [destruct check as [c|]; [|by apply keeps_ret]|intros links _].
  - cbv zeta. eapply keeps_bind; [apply kept_hcFirewall|intros _ _].
    eapply keeps_bind; [apply kept_wrapped, kept_on_snd, kept_httpCheck|intros x _]. by apply keeps_ret.
  - cbv zeta. aside_calls.
Qed.
Lemma kept_ensurePool tpExists recreate name dst hosts hcToCreate hcToDelete :
  still (ensureTargetPoolAndHealthCheck g tpExists recreate o name clusterID dst hosts hcToCreate hcToDelete : io (lbState * LW) _) (λ _, True).
Proof.
  unfold ensureTargetPoolAndHealthCheck. eapply (keeps_bind _ _ _ (λ _, True)).
  { destruct (tpExists && recreate); [|by apply keeps_ret]. apply kept_wrapped, kept_on_snd, kept_prog, foreign_deletePool. }
  intros _ _. destruct recreate; [cbv zeta; eapply keeps_bind; [apply kept_wrapped, kept_createPool|intros _ _]|destruct tpExists; [|by apply keeps_ret]].
  - destruct (_ <=? _)%nat; [by apply keeps_ret|]. apply kept_wrapped, kept_on_snd, kept_updatePool.
  - eapply keeps_bind; [apply kept_wrapped, kept_on_snd, kept_updatePool|intros _ _]. destruct hcToCreate as [c|]; [|by apply keeps_ret].
    eapply keeps_bind; [apply kept_wrapped, kept_on_snd, kept_httpCheck|intros x _]. by apply keeps_ret.
Qed.

(** *** Creation *)
Lemma kept_rule serviceName address target ports netTier : still (createForwardingRule olb serviceName (g_region g) address target ports netTier : io LW _) (λ _, True).
Proof. apply kept_aside. unfold createForwardingRule. clients. emit_steps; aside_call. Qed.
Lemma kept_externalResources hosts netTier fwdRuleExists fwdRuleNeedsUpdate fwdRuleIP :
  still (ensureExternalResources g clusterID o hosts netTier fwdRuleExists fwdRuleNeedsUpdate fwdRuleIP : io (ipFlags * (lbState * LW)) _) (λ _, True).
Proof.
  unfold ensureExternalResources. cbv zeta.
  eapply keeps_bind; [unfold verifyUserRequestedIP; aside_calls|intros _ _].
  eapply keeps_bind; [apply keeps_ask|intros fl _].
  eapply keeps_bind; [unfold ensureStaticIP, setSafe; aside_calls|intros dst _].
  eapply (keeps_bind _ _ _ (λ _, True)); [by apply keeps_lift|intros ranges _].
  eapply keeps_bind; [do 2 apply kept_on_snd; unfold firewallNeedsUpdate; destruct (getPortsAndProtocol (svc_Ports o)) as [[? ?] ?]; aside_calls|].
  intros [fwExists fwUpdate] _. eapply (keeps_bind _ _ _ (λ _, True)).
  { destruct fwUpdate; [|by apply keeps_ret]. apply kept_on_snd. destruct fwExists; [apply kept_updateFirewall|apply kept_createFirewall]; by left. }
  intros _ _. eapply keeps_bind; [do 2 apply kept_on_snd; unfold targetPoolNeedsRecreation; aside_calls|intros [tpExists recreate] _].
  eapply keeps_bind; [apply kept_wrapped; do 2 apply kept_on_snd; aside_calls|intros check _].
  destruct (planHealthChecks o clusterID check) as [[hcToCreate hcToDelete] hcChanges].
  eapply keeps_bind; [unfold setSafe; aside_calls|intros _ _].
  eapply keeps_bind; [apply kept_on_snd, kept_ensurePool|intros _ _].
  eapply (keeps_bind _ _ _ (λ _, True)); [|intros _ _; by apply keeps_ret]. destruct (_ || _); [|by apply keeps_ret].
  eapply keeps_bind; [apply kept_wrapped; do 2 apply kept_on_snd; apply kept_rule|intros _ _]. unfold setSafe. aside_calls.
Qed.
Lemma kept_externalEnsure existing nodes : still (ensureExternalLoadBalancer g clusterID o existing nodes : io (lbState * LW) _) (λ _, True).
Proof.
  unfold ensureExternalLoadBalancer. destruct (_ || _); [apply keeps_fail|]. case_bool_decide; [apply keeps_fail|].
  eapply keeps_bind; [apply kept_on_snd, kept_aside, only_getInstancesByNames; exact read_event|intros hosts _]. cbv zeta.
  eapply (keeps_bind _ _ _ (λ _, True)); [destruct (GetServiceNetworkTier o) as [? [?|]]; [apply keeps_fail|by apply keeps_ret]|intros netTier _].
  eapply keeps_bind; [unfold deleteWrongNetworkTieredResources, deleteFWDRuleWithWrongTier, deleteAddressWithWrongTier; aside_calls|intros _ _].
  eapply keeps_bind; [apply kept_on_snd; unfold forwardingRuleNeedsUpdate; aside_calls|intros [[exists_ update] fwdIP] _].
  apply kept_deferring; [apply kept_externalResources|intros fl]. unfold releaseIP. aside_calls.
Qed.
Lemma kept_externalUpdate nodes : still (updateExternalLoadBalancer g o nodes : io LW _) (λ _, True).
Proof.
  unfold updateExternalLoadBalancer. destruct (usesL4RBS o None); [apply keeps_fail|].
  eapply keeps_bind; [apply kept_aside, only_getInstancesByNames; exact read_event|intros hosts _; apply kept_updatePool].
Qed.
End external.

(** ** The operations of the provider *)

(** A provider that has looked up the identifier of the cluster. *)
Definition knows (clusterID : string) (st : lbState) : Prop :=
  ci_ready (lb_id st) = true ∧ ∃ c, ci_clusterID (lb_id st) = Some c ∧ default c (ci_providerID (lb_id st)) = clusterID.
Lemma known_id {W} `{Compute W} clusterID st (w : W) : knows clusterID st → on_id GetID (st, w) = (Ret clusterID, (st, w)).
Proof. destruct st as [tags l4 [rd p c]]. intros (Hr & x & Hc & <-). cbn in *. subst rd c. by destruct p. Qed.

Section provider.
Context {W : Type} {C : Compute W} `{!LbStore W} `{MapOrder} `{Sha1} `{!Sha1Separates}.
Variable g : gceConfig.
Context `{!LbRefs W g}.
Variables (clusterID : string) (svc : Service).
Hypothesis valid_svc : validService svc.
#[local] Existing Instance logged.
Abbreviation LW := (W * list event)%type.

Section operations.
Variables (hc : HealthCheck) (ip : string) (o : Service).
Hypothesis other : GetLoadBalancerName o ≠ GetLoadBalancerName svc.
Hypothesis valid_o : validService o.
Abbreviation stands := (stands g clusterID svc hc ip).
Abbreviation asideE := (asideEvent g clusterID svc).

(** A run from a state in which the identifier is known. *)
Lemma known_run {A} (f : string → io (lbState * LW) A) s r s' :
  knows clusterID s.1 → kept stands (f clusterID) (λ _, True) → (on_id GetID ≫= f) s = (r, s') → stands (worldOf s) → stands (worldOf s').
Proof. destruct s as [st w]. intros Hk Hf E. rewrite io_bind_eq, (known_id clusterID st w Hk) in E. exact (kept_run _ _ _ _ _ _ Hf E). Qed.
Lemma kept_report message : kept stands (reportMixedProtocol o message : io (lbState * LW) _) (λ _, True).
Proof. apply kept_aside. unfold reportMixedProtocol. clients. emit_steps; unfold asideEvent, aside; cbn; split_and!; congruence. Qed.

Lemma ensure_stands s t nodes (x : lbState * LW) r (x' : lbState * LW) : knows clusterID x.1 → EnsureLoadBalancer g s t o nodes x = (r, x') → stands (worldOf x) → stands (worldOf x').
Proof.
  unfold EnsureLoadBalancer. case_bool_decide; [by intros _ [= <- <-]|]. intros Hk. apply known_run; [done|]. cbv zeta.
  destruct (checkMixedProtocol (svc_Ports o)) as [err|].
  - destruct (hasLoadBalancerPortsError o); [apply keeps_fail|]. eapply keeps_bind; [apply kept_report|intros _ _; apply keeps_fail].
  - eapply keeps_bind; [apply kept_aside; clients; emit_steps; by apply read_aside|intros existing _].
    eapply (keeps_bind _ _ _ (λ _, True)).
    { destruct existing as [rule|]; [|by apply keeps_ret]. case_bool_decide; [by apply keeps_ret|]. eapply (keeps_bind _ _ _ (λ _, True)); [|intros _ _; by apply keeps_ret].
      case_bool_decide; [by apply kept_delete|by apply kept_on_snd, kept_externalDeletion]. }
    intros existing' _. case_bool_decide; [by apply kept_ensure|by apply kept_externalEnsure].
Qed.
Lemma update_stands nodes (x : lbState * LW) r (x' : lbState * LW) : knows clusterID x.1 → UpdateLoadBalancer g o nodes x = (r, x') → stands (worldOf x) → stands (worldOf x').
Proof.
  unfold UpdateLoadBalancer. case_bool_decide; [by intros _ [= <- <-]|]. intros Hk. apply known_run; [done|]. cbv zeta.
  eapply (keeps_bind _ _ _ (λ _, True)); [destruct (_ && _); [apply kept_report|by apply keeps_ret]|intros _ _].
  case_bool_decide; [by apply kept_update|by apply kept_on_snd, kept_externalUpdate].
Qed.
Lemma delete_stands s t (x : lbState * LW) r (x' : lbState * LW) : knows clusterID x.1 → EnsureLoadBalancerDeleted g s t o x = (r, x') → stands (worldOf x) → stands (worldOf x').
Proof.
  unfold EnsureLoadBalancerDeleted. intros Hk. apply known_run; [done|]. case_bool_decide; [by apply kept_delete|by apply kept_on_snd, kept_externalDeletion].
Qed.
End operations.

(** One operation of a replica of the provider, with whatever result: for another
    service, or a change of the nodes for any service. *)
Inductive serves : W → W → Prop :=
| serves_ensure o s t nodes st w log r st' w' log' :
    GetLoadBalancerName o ≠ GetLoadBalancerName svc → validService o → knows clusterID st →
    EnsureLoadBalancer g s t o nodes (st, (w, log)) = (r, (st', (w', log'))) → serves w w'
| serves_update o nodes st w log r st' w' log' :
    knows clusterID st →
    UpdateLoadBalancer g o nodes (st, (w, log)) = (r, (st', (w', log'))) → serves w w'
| serves_delete o s t st w log r st' w' log' :
    GetLoadBalancerName o ≠ GetLoadBalancerName svc → knows clusterID st →
    EnsureLoadBalancerDeleted g s t o (st, (w, log)) = (r, (st', (w', log'))) → serves w w'.

Lemma serves_stands hc ip w w' : serves w w' → stands g clusterID svc hc ip w → stands g clusterID svc hc ip w'.
Proof.
  intros [o s t nodes st ? log r st' ? log' Hn Ha Hk E|o nodes st ? log r st' ? log' Hk E|o s t st ? log r st' ? log' Hn Hk E].
  - exact (ensure_stands hc ip o Hn Ha s t nodes (st, (_, log)) _ _ Hk E).
  - exact (update_stands hc ip o nodes (st, (_, log)) _ _ Hk E).
  - exact (delete_stands hc ip o Hn s t (st, (_, log)) _ _ Hk E).
Qed.
End provider.

