(* ===== verification/InstanceGroups.v ===== *)
(** * InstanceGroups: the members of the cluster's instance groups

    [ensureInternalInstanceGroup] makes the group of a zone hold the nodes it is
    given, as far as a group can hold them, and the links of the backend service
    are those of the groups; with the alpha feature SkipIGsManagement only the
    groups of one zone are linked.  Also the members of a target pool and the
    port ranges of a firewall. *)
From S2P Require Import Prelude Bits GoNet GoNetText K8s GceInstances NetUtils GoStrings IoLogic AddressManager NodeAnnotator LoadBalancer GceHosts ComputeCalls ClusterId InternalLb Goroutines ExternalLb LbLogic InternalLbScope LbStore.
Local Open Scope Z_scope.

(** The name of an instance: no domain, no path. *)
Definition plainName (n : string) : Prop := has_char dot n = false ∧ has_char slash n = false.

Lemma canonicalize_plain n : plainName n → canonicalizeInstanceName n = n.
Proof. intros [Hd _]. unfold canonicalizeInstanceName. by rewrite cut_on_none. Qed.

(** An instance reference names its instance. *)
Lemma reference_name g zone n : plainName n → lastComponent (makeHostURL (g_projectsBasePath g) (g_projectID g) zone n) = n.
Proof.
  intros Hn. unfold makeHostURL. rewrite canonicalize_plain by done. destruct Hn as [_ Hn]. cbn [join_with].
  rewrite <- (lastComponent_after (g_projectsBasePath g +:+ g_projectID g +:+ "/" +:+ "zones" +:+ "/" +:+ zone +:+ "/" +:+ "instances") n Hn) at 2.
  f_equal. rewrite !string_app_assoc. done.
Qed.
Lemma references_names g zone l : Forall plainName l → lastComponent <$> ToInstanceReferences g zone l = l.
Proof. unfold ToInstanceReferences. induction 1 as [|n l Hn Hl IH]; cbn; [done|]. rewrite reference_name by done. f_equal. exact IH. Qed.

Lemma elem_of_set_List x (s : gset string) : x ∈ set_List s ↔ x ∈ s.
Proof. unfold set_List, sort_Strings. rewrite merge_sort_Permutation. apply elem_of_elements. Qed.
Lemma set_List_set (s : gset string) : list_to_set (set_List s) = s.
Proof. apply set_eq. intros x. by rewrite elem_of_list_to_set, elem_of_set_List. Qed.
Lemma set_List_nil (s : gset string) : set_List s = [] → s = ∅.
Proof. intros E. apply set_eq. intros x. rewrite <- elem_of_set_List, E. set_solver. Qed.

(** No more than a group can hold, and all of them when they fit. *)
Lemma limitNodes_sub s : limitNodes s ⊆ s.
Proof.
  unfold limitNodes, NewString. destruct (_ <? _)%nat; [|done]. intros x. rewrite elem_of_list_to_set. intros Hx.
  apply elem_of_set_List. by eapply elem_of_take in Hx as (i & Hi & _); apply list_elem_of_lookup_2 in Hi.
Qed.
Lemma limitNodes_size s : (size (limitNodes s) <= maxInstancesPerInstanceGroup)%nat.
Proof.
  unfold limitNodes, NewString. destruct (Nat.ltb_spec maxInstancesPerInstanceGroup (size s)); [|done].
  rewrite size_list_to_set; [rewrite length_take; lia|]. eapply sublist_NoDup; [|apply sublist_take]. unfold set_List, sort_Strings. rewrite merge_sort_Permutation. apply NoDup_elements.
Qed.

Section group.
Context {W : Type} {C : Compute W} `{!LbStore W}.
Variables (g : gceConfig) (name zone : string).

(** The group exists, with its members. *)
Lemma group_opened w ig w1 r w2 :
  optional (GetInstanceGroup name zone) w = (Ret ig, w1) →
  match ig with
  | None => _ ← CreateInstanceGroup name zone; ig ← GetInstanceGroup name zone; mret (ig, ∅)
  | Some ig => instances ← ListInstancesInInstanceGroup name zone; mret (ig, NewString (lastComponent <$> instances))
  end w1 = (Ret r, w2) →
  groups w2 !! (name, zone) = Some r.2 ∧ r.2 = default ∅ (groups w !! (name, zone)).
Proof.
  intros (r0 & w0 & E0 & E1)%io_bind_Ret. apply try_Ret in E0. destruct r0 as [e|ig0]; apply groups_step in E0 as [Hg Hr].
  - destruct (isNotFound e) eqn:En; [|done]. injection E1 as <- <-. intros ([] & w3 & E3 & E4)%io_bind_Ret.
    apply io_bind_Ret in E4 as (ig1 & w4 & E4 & [= <- <-]). apply groups_step in E3, E4. destruct E4 as [E4 _]. cbn in E3.
    rewrite E4, E3, (Hr eq_refl). cbn. split; [apply lookup_insert_eq|done].
  - injection E1 as <- <-. intros (l & w3 & E3 & [= <- <-])%io_bind_Ret. apply groups_step in E3 as [E3 Hl]. cbn [snd].
    rewrite E3, <- Hg, (Hl l eq_refl). done.
Qed.

(** Removing and adding. *)
Lemma group_removed members nodes w w' : groups w !! (name, zone) = Some members → Forall plainName nodes →
  (if bool_decide (nodes = []) then mret tt else ignoreNotFound (RemoveInstancesFromInstanceGroup name zone (ToInstanceReferences g zone nodes))) w = (Ret tt, w') →
  groups w' !! (name, zone) = Some (members ∖ list_to_set nodes) ∨
  (groups w' !! (name, zone) = Some members ∧ ∃ refs w1 e, (exec (InstanceGroupsRemoveInstances name zone refs) w1).1 = Err e ∧ isNotFound e = true).
Proof.
  intros Hm Hp. case_bool_decide as En.
  { intros [= <-]. left. rewrite Hm. subst nodes. f_equal. set_solver. }
  intros ([e|[]] & w1 & E1 & E2)%io_bind_Ret; apply try_Ret in E1; unfold RemoveInstancesFromInstanceGroup in E1;
    rewrite bool_decide_false in E1 by (by destruct nodes); pose proof (groups_step _ _ _ _ E1) as Hg; cbn in Hg.
  - destruct (isNotFound e) eqn:Ee; [|done]. injection E2 as <-. right. rewrite Hg. split; [done|]. eexists _, w, e. by rewrite E1.
  - injection E2 as <-. left. destruct Hg as (s & Hs & ->). rewrite Hm in Hs. injection Hs as <-. rewrite references_names by done. apply lookup_insert_eq.
Qed.
Lemma group_added members nodes w w' : groups w !! (name, zone) = Some members → Forall plainName nodes →
  (if bool_decide (nodes = []) then mret tt else AddInstancesToInstanceGroup name zone (ToInstanceReferences g zone nodes)) w = (Ret tt, w') →
  groups w' !! (name, zone) = Some (members ∪ list_to_set nodes).
Proof.
  intros Hm Hp. case_bool_decide as En.
  { intros [= <-]. rewrite Hm. subst nodes. f_equal. set_solver. }
  unfold AddInstancesToInstanceGroup. rewrite bool_decide_false by (by destruct nodes). intros E. apply groups_step in E as (s & Hs & ->).
  rewrite Hm in Hs. injection Hs as <-. rewrite references_names by done. apply lookup_insert_eq.
Qed.

Lemma plain_set_List (s : gset string) : set_Forall plainName s → Forall plainName (set_List s).
Proof. intros Hs. apply Forall_forall. intros x Hx. by apply Hs, elem_of_set_List. Qed.
End group.

(** After a successful [ensureInternalInstanceGroup] the group of the zone
    holds every node it was asked for, up to the first 1000 in alphabetical
    order, and no other instance but one that could not be removed because the
    API did not find it; when removals are answered it holds exactly those
    nodes. *)
Theorem instance_group_members {W} {C : Compute W} `{!LbStore W} g name zone nodes w link w' :
  Forall plainName nodes → set_Forall plainName (default ∅ (groups w !! (name, zone))) →
  ensureInternalInstanceGroup g name zone nodes w = (Ret link, w') →
  ∃ members, groups w' !! (name, zone) = Some members ∧
    limitNodes (NewString nodes) ⊆ members ∧ members ⊆ limitNodes (NewString nodes) ∪ default ∅ (groups w !! (name, zone)) ∧
    ((∀ refs w1 e, (exec (InstanceGroupsRemoveInstances name zone refs) w1).1 = Err e → isNotFound e = false) →
     members = limitNodes (NewString nodes) ∧ (size members <= 1000)%nat).
Proof.
  intros Hn Hold (ig & w1 & E1 & E2)%io_bind_Ret. cbv zeta in E2. apply io_bind_Ret in E2 as ([ig2 igNodes] & w2 & E2 & E3).
  destruct (group_opened name zone w ig w1 _ w2 E1 E2) as [Hg Hi]. cbn [snd] in Hg, Hi. rewrite <- Hi in *. clear E1 E2.
  set (want := limitNodes (NewString nodes)) in *.
  assert (set_Forall plainName want) as Hw.
  { intros x Hx. apply limitNodes_sub in Hx. unfold NewString in Hx. apply elem_of_list_to_set in Hx. by eapply Forall_forall in Hn. }
  apply io_bind_Ret in E3 as ([] & w3 & E3 & E4). apply io_bind_Ret in E4 as ([] & w4 & E4 & [= <- <-]).
  apply (group_removed g name zone igNodes) in E3; [|done|apply plain_set_List; intros x Hx; apply Hold; set_solver]. rewrite set_List_set in E3.
  assert (Forall plainName (set_List (want ∖ igNodes))) as Hp by (apply plain_set_List; intros x Hx; apply Hw; set_solver).
  destruct E3 as [E3|[E3 (refs & w5 & e & He & Hnf)]]; apply (group_added g name zone _ _ _ _ E3 Hp) in E4; rewrite set_List_set in E4.
  - assert (igNodes ∖ (igNodes ∖ want) ∪ want ∖ igNodes = want) as Hset.
    { apply set_eq. intros x. destruct (decide (x ∈ igNodes)), (decide (x ∈ want)); set_solver. }
    rewrite Hset in E4. exists want. split; [done|]. split; [done|]. split; [set_solver|]. intros _. split; [done|apply limitNodes_size].
  - exists (igNodes ∪ want ∖ igNodes). split; [done|]. split; [intros x Hx; destruct (decide (x ∈ igNodes)); set_solver|]. split; [set_solver|].
    intros Hno. by rewrite (Hno _ _ _ He) in Hnf.
Qed.

(** With the feature SkipIGsManagement the loop over the zones ends after
    its first round: the links are those of the groups of one zone with nodes,
    the one that the iteration over the map meets first, whatever nodes the
    other zones have. *)
Theorem skip_links_one_zone {W} {C : Compute W} `{MapOrder} g name nodes w links w' :
  g_SkipIGsManagement g = true → splitNodesByZone nodes ≠ ∅ →
  ensureInternalInstanceGroups g name nodes w = (Ret links, w') →
  ∃ zone zNodes rest igs, range (splitNodesByZone nodes) = (zone, zNodes) :: rest ∧ splitNodesByZone nodes !! zone = Some zNodes ∧
    exec (InstanceGroupsList zone (Some (name +:+ ".*"))) w = (Ret igs, w') ∧ links = ig_SelfLink <$> igs.
Proof.
  intros Hs Hne. unfold ensureInternalInstanceGroups. destruct (range (splitNodesByZone nodes)) as [|[zone zNodes] rest] eqn:Er.
  { exfalso. pose proof (range_perm (splitNodesByZone nodes)) as Hp. rewrite Er in Hp. apply Permutation_nil in Hp. by apply map_to_list_empty_iff in Hp. }
  cbn [groupsOfZones]. rewrite Hs. intros (x & w1 & E1 & E2)%io_bind_Ret. apply io_bind_Ret in E1 as (igs & w2 & E1 & [= <- <-]).
  assert (range (∅ : gmap string (list string)) = []) as Hr.
  { apply Permutation_nil. symmetry. etrans; [apply range_perm|]. by rewrite map_to_list_empty. }
  rewrite Hr in E2. injection E2 as <- <-. exists zone, zNodes, rest, igs. split; [done|]. split; [|done].
  apply elem_of_map_to_list. rewrite <- (range_perm (splitNodesByZone nodes)), Er. apply list_elem_of_here.
Qed.

(** ** Target pools: the members of a target pool

    [updateTargetPool] of [gce_loadbalancer_external.go]: the difference between
    the pool and the hosts, sent in chunks that the API accepts. *)

(** ** The difference *)
Definition hostLinks (hosts : list gceInstance) : list string := makeComparableHostPath <$> hosts.

Lemma hostsToAdd_rest hosts existing : (hostsToAdd hosts existing).2 = existing ∖ list_to_set (hostLinks hosts).
Proof.
  revert existing. induction hosts as [|h hosts IH]; intros existing; cbn; [set_solver|].
  specialize (IH (existing ∖ {[ makeComparableHostPath h ]})). destruct (hostsToAdd hosts _) as [toAdd rest]. cbn in *. subst rest. set_solver.
Qed.
Lemma filter_absent (X : gset string) x (l : list string) : x ∉ l → filter (λ y, y ∉ X ∖ {[ x ]}) l = filter (λ y, y ∉ X) l.
Proof.
  induction l as [|y l IH]; [done|]. intros [Hy Hx]%not_elem_of_cons. rewrite !filter_cons, IH by done.
  destruct (decide (y ∉ X)), (decide (y ∉ X ∖ {[ x ]})); set_solver.
Qed.
Lemma hostsToAdd_new hosts existing : NoDup (hostLinks hosts) →
  (hostsToAdd hosts existing).1 = filter (λ link, link ∉ existing) (hostLinks hosts).
Proof.
  revert existing. induction hosts as [|h hosts IH]; intros existing Hn; [done|].
  change (hostLinks (h :: hosts)) with (makeComparableHostPath h :: hostLinks hosts) in *. cbn [hostsToAdd]. cbv zeta. apply NoDup_cons in Hn as [Hh Hn].
  specialize (IH (existing ∖ {[ makeComparableHostPath h ]}) Hn). destruct (hostsToAdd hosts _) as [toAdd rest]. cbn [fst] in *. subst toAdd.
  rewrite filter_absent, filter_cons by done. destruct (decide (makeComparableHostPath h ∉ existing)) as [He|He].
  - by rewrite bool_decide_false.
  - rewrite bool_decide_true; [done|]. by destruct (decide (makeComparableHostPath h ∈ existing)).
Qed.

(** The members to remove, each once. *)
Lemma unsorted_elements `{MapOrder} X : unsorted X ≡ₚ elements X.
Proof.
  unfold unsorted. rewrite (range_perm (gset_to_gmap () X)). apply NoDup_Permutation; [apply NoDup_fst_map_to_list|apply NoDup_elements|].
  intros x. rewrite elem_of_elements, list_elem_of_fmap. setoid_rewrite elem_of_map_to_list'. setoid_rewrite lookup_gset_to_gmap_Some. split.
  - intros ([y []] & -> & [Hy _]). exact Hy.
  - intros Hx. by exists (x, ()).
Qed.

(** ** Chunks *)
Definition chunk (refs : list string) : Prop := (1 ≤ length refs ≤ maxInstancesPerTargetPoolUpdate)%nat.

Lemma chunks_trace {W} (C : Compute W) (c : list string → Call unit) fuel l : (length l ≤ fuel)%nat →
  emits C (@inChunks _ fuel (λ refs, @exec _ (logged C) _ (c refs)) l)
    (λ r ev, r = Ret tt → ∃ chunks, ev = (λ refs, Event (c refs) (Ret tt)) <$> chunks ∧ concat chunks = l ∧ Forall chunk chunks).
Proof.
  revert l. induction fuel as [|fuel IH]; intros l Hl.
  { destruct l; [|cbn in Hl; lia]. apply emits_ret. intros _. by exists []. }
  destruct l as [|x l]; [apply emits_ret; intros _; by exists []|]. cbn [inChunks]. set (k := x :: l) in *.
  apply (emits_bind _ _ (λ r ev, ev = [Event (c (take maxInstancesPerTargetPoolUpdate k)) r])
    (λ _ r ev, r = Ret tt → ∃ chunks, ev = (λ refs, Event (c refs) (Ret tt)) <$> chunks ∧ concat chunks = drop maxInstancesPerTargetPoolUpdate k ∧ Forall chunk chunks)).
  - by apply emits_exec.
  - intros _. apply IH. unfold k. rewrite length_drop. unfold maxInstancesPerTargetPoolUpdate. cbn in *. lia.
  - intros [] r l1 l2 -> H2 Hr. destruct (H2 Hr) as (chunks & -> & Hc & Hf). exists (take maxInstancesPerTargetPoolUpdate k :: chunks). split; [done|]. split.
    + cbn [concat]. rewrite Hc. apply take_drop.
    + constructor; [|done]. unfold chunk. rewrite length_take. unfold k, maxInstancesPerTargetPoolUpdate. cbn [length]. lia.
  - done.
  - done.
Qed.

(** *** The calls *)
Section update.
Context {W : Type} (C : Compute W) `{MapOrder}.
Variables (g : gceConfig) (name : string) (hosts : list gceInstance).
#[local] Existing Instance logged.

Definition adding (refs : list string) : event := Event (TargetPoolsAddInstance name (g_region g) refs) (Ret tt).
Definition removing (refs : list string) : event := Event (TargetPoolsRemoveInstance name (g_region g) refs) (Ret tt).
Definition looking (pool : TargetPool) : event := Event (TargetPoolsGet name (g_region g)) (Ret pool).

Definition updates (pool : TargetPool) (l : list event) : Prop := ∃ adds removes updated,
  l = (adding <$> adds) ++ (removing <$> removes) ++ [looking updated] ∧ Forall chunk adds ∧ Forall chunk removes ∧
  let d := hostsToAdd hosts (NewString (hostURLToComparablePath <$> tp_Instances pool)) in
  concat adds = d.1 ∧ concat removes = unsorted d.2 ∧ length (tp_Instances updated) = length hosts.

Lemma update_trace : emits C (updateTargetPool g name hosts : io (W * list event) unit)
  (λ r l, r = Ret tt → ∃ pool l', l = looking pool :: l' ∧ updates pool l').
Proof.
  unfold updateTargetPool, GetTargetPool, AddInstancesToTargetPool, RemoveInstancesFromTargetPool.
  apply (emits_bind _ _ (λ r l, l = [Event (TargetPoolsGet name (g_region g)) r]) (λ pool r l, r = Ret tt → updates pool l)); [by apply emits_exec| |naive_solver|done|done].
  intros pool. cbv zeta. unfold updates. destruct (hostsToAdd hosts _) as [toAdd rest]. cbn [fst snd].
  apply (emits_bind _ _ _ (λ _ r l, r = Ret tt → ∃ removes updated, l = (removing <$> removes) ++ [looking updated] ∧
    Forall chunk removes ∧ concat removes = unsorted rest ∧ length (tp_Instances updated) = length hosts) _
    (chunks_trace C (λ refs, TargetPoolsAddInstance name (g_region g) refs) _ _ (le_n _))); [| |done|done].
  2: { intros [] r l1 l2 H1 H2 Hr. destruct (H1 eq_refl) as (adds & -> & ? & ?), (H2 Hr) as (removes & updated & -> & ? & ? & ?). exists adds, removes, updated. done. }
  intros _. apply (emits_bind _ _ _ (λ _ r l, r = Ret tt → ∃ updated, l = [looking updated] ∧ length (tp_Instances updated) = length hosts) _
    (chunks_trace C (λ refs, TargetPoolsRemoveInstance name (g_region g) refs) _ _ (le_n _))); [| |done|done].
  2: { intros [] r l1 l2 H1 H2 Hr. destruct (H1 eq_refl) as (removes & -> & ? & ?), (H2 Hr) as (updated & -> & ?). exists removes, updated. done. }
  intros _. apply (emits_bind _ _ (λ r l, l = [Event (TargetPoolsGet name (g_region g)) r]) (λ pool r l, l = [] ∧ (r = Ret tt → length (tp_Instances pool) = length hosts)));
    [by apply emits_exec| |naive_solver|done|done].
  intros updated. destruct (_ =? _)%nat eqn:El; [apply emits_ret|apply emits_fail]; [|done]. split; [done|]. intros _. by apply Nat.eqb_eq.
Qed.
End update.

(** A run of [updateTargetPool] that succeeds has read the pool, added the
    hosts that were not in it and removed its members that are not hosts, in
    chunks of 1 to 1000 references, and has read the pool again, which then has
    as many members as there are hosts. *)
Theorem target_pool_update {W} (C : Compute W) `{MapOrder} g name hosts w w' log :
  @updateTargetPool _ (logged C) _ g name hosts (w, []) = (Ret tt, (w', log)) → NoDup (hostLinks hosts) →
  ∃ pool adds removes updated,
    let existing := NewString (hostURLToComparablePath <$> tp_Instances pool) in
    log = looking g name pool :: (adding g name <$> adds) ++ (removing g name <$> removes) ++ [looking g name updated] ∧
    Forall chunk (adds ++ removes) ∧
    concat adds = filter (λ link, link ∉ existing) (hostLinks hosts) ∧
    list_to_set (concat removes) = existing ∖ list_to_set (hostLinks hosts) ∧ NoDup (concat removes) ∧
    length (tp_Instances updated) = length hosts.
Proof.
  intros E Hn. destruct (emits_run _ _ _ _ _ (update_trace C g name hosts) E) as (l & El & _ & Hl). cbn in El. subst l.
  destruct (Hl eq_refl) as (pool & l' & -> & adds & removes & updated & -> & H1 & H2 & H3 & H4 & H5). exists pool, adds, removes, updated. cbv zeta.
  rewrite hostsToAdd_new in H3 by done. rewrite hostsToAdd_rest in H4. split; [done|]. split; [by apply Forall_app|]. split; [done|]. rewrite H4, unsorted_elements.
  split; [apply list_to_set_elements_L|]. split; [apply NoDup_elements|done].
Qed.

(** ** Port ranges: the port ranges of a firewall denote the ports of the service *)

Definition in_range (p : Z) (iv : Z * Z) : Prop := iv.1 <= p <= iv.2.
Definition denotes (p : Z) (ivs : list (Z * Z)) : Prop := ∃ iv, iv ∈ ivs ∧ in_range p iv.
Definition interval_text (iv : Z * Z) : string := range_text iv.1 iv.2.

(** Intervals in increasing order that neither overlap nor touch. *)
Fixpoint separated (ivs : list (Z * Z)) : Prop :=
  match ivs with
  | [] => True
  | iv :: rest => iv.1 <= iv.2 ∧ (∀ jv, jv ∈ rest → iv.2 + 1 < jv.1) ∧ separated rest
  end.

Lemma denotes_cons p iv ivs : denotes p (iv :: ivs) ↔ in_range p iv ∨ denotes p ivs.
Proof. unfold denotes. setoid_rewrite elem_of_cons. naive_solver. Qed.
Lemma denotes_nil p : denotes p [] ↔ False.
Proof. unfold denotes. set_solver. Qed.

Lemma interval_single p : interval_text (p, p) = Uitoa p.
Proof. unfold interval_text, range_text. simpl. by rewrite Z.eqb_refl. Qed.

(** What the loop appends: the current streak and the ports still to come. *)
Lemma portRanges_spec ports : ∀ start prev ranges, ports ≠ [] → Sorted Z.le (prev :: ports) → start <= prev →
  ∃ ivs, portRanges start prev ports ranges = ranges ++ (interval_text <$> ivs) ∧ separated ivs ∧
    (∀ iv, iv ∈ ivs → start <= iv.1) ∧ ∀ p, denotes p ivs ↔ start <= p <= prev ∨ p ∈ ports.
Proof.
  induction ports as [|current rest IH]; intros start prev ranges Hne Hs Hle; [done|]. clear Hne.
  apply Sorted_inv in Hs as [Hs Hhd]. apply HdRel_inv in Hhd. cbn [portRanges].
  destruct (decide (rest = [])) as [->|Hrest].
  - rewrite bool_decide_true by done. cbn [portRanges].
    assert (∀ a b, (if a =? b then Uitoa b else (Uitoa a +:+ "-" +:+ Uitoa b)%string) = interval_text (a, b)) as Ht.
    { intros a b. unfold interval_text, range_text. simpl. by destruct (Z.eqb_spec a b) as [->|]. }
    destruct (Z.eqb_spec current prev) as [->|Hn]; [|destruct (Z.eqb_spec current (prev + 1)) as [->|Hn2]].
    + exists [(start, prev)]. rewrite Ht. split; [done|]. simpl. repeat split; [done|set_solver|set_solver|..];
        rewrite denotes_cons, denotes_nil; unfold in_range; simpl; set_solver by lia.
    + exists [(start, prev + 1)]. assert (range_text start (prev + 1) = (Uitoa start +:+ "-" +:+ Uitoa (prev + 1))%string) as Hr.
      { unfold range_text. by destruct (Z.eqb_spec start (prev + 1)); [lia|]. }
      unfold interval_text. simpl. rewrite Hr. split; [done|]. repeat split; [lia|set_solver|set_solver by lia|..];
        rewrite denotes_cons, denotes_nil; unfold in_range; simpl; rewrite list_elem_of_singleton; lia.
    + exists [(start, prev); (current, current)]. rewrite Ht, <- app_assoc. split; [by rewrite <- interval_single|]. simpl.
      repeat split; [done|set_solver by lia|lia|set_solver|set_solver by lia|..];
        rewrite !denotes_cons, denotes_nil; unfold in_range; simpl; rewrite list_elem_of_singleton; lia.
  - rewrite bool_decide_false by done.
    destruct (Z.eqb_spec current prev) as [->|Hn]; [|destruct (Z.eqb_spec current (prev + 1)) as [->|Hn2]].
    + destruct (IH start prev ranges Hrest Hs Hle) as (ivs & Heq & Hsep & Hst & Hd). exists ivs.
      split; [done|]. split; [done|]. split; [done|]. intros p. rewrite Hd, elem_of_cons. intuition lia.
    + destruct (IH start (prev + 1) ranges Hrest Hs ltac:(lia)) as (ivs & Heq & Hsep & Hst & Hd). exists ivs.
      split; [done|]. split; [done|]. split; [done|]. intros p. rewrite Hd, elem_of_cons. intuition lia.
    + destruct (IH current current (ranges ++ [if start =? prev then Uitoa prev else (Uitoa start +:+ "-" +:+ Uitoa prev)%string])
        Hrest Hs ltac:(lia)) as (ivs & Heq & Hsep & Hst & Hd).
      exists ((start, prev) :: ivs). rewrite Heq, <- app_assoc. simpl. split.
      { f_equal. f_equal. unfold interval_text, range_text. simpl. by destruct (Z.eqb_spec start prev) as [->|]. }
      repeat split; [done|intros jv Hjv; specialize (Hst jv Hjv); lia|done|..].
      * intros iv [->|Hiv]%elem_of_cons; simpl; [lia|]. specialize (Hst iv Hiv). lia.
      * rewrite denotes_cons, Hd, elem_of_cons. unfold in_range. simpl. intuition lia.
      * rewrite denotes_cons, Hd, elem_of_cons. unfold in_range. simpl. intuition lia.
Qed.

(** The port ranges put into a firewall are the ports of the service, no more
    and no less, written as increasing intervals that neither overlap nor touch,
    whatever the order and the repetitions of the ports. *)
Theorem getPortRanges_exact ports : ∃ ivs, getPortRanges ports = interval_text <$> ivs ∧ separated ivs ∧
  ∀ p, denotes p ivs ↔ p ∈ ports.
Proof.
  unfold getPortRanges. pose proof (merge_sort_Permutation Z.le ports) as Hp.
  pose proof (Sorted_merge_sort Z.le ports) as Hs. unfold sort_Ints.
  destruct (merge_sort Z.le ports) as [|p ps] eqn:Hsort.
  { exists []. apply Permutation_nil_l in Hp as <-. split; [done|]. split; [done|]. intros p. rewrite denotes_nil. set_solver. }
  destruct (portRanges_spec (p :: ps) p p []) as (ivs & Heq & Hsep & _ & Hd); [done| |lia|].
  { constructor; [done|]. constructor. lia. }
  exists ivs. split; [done|]. split; [done|]. intros q. rewrite Hd, <- Hp, elem_of_cons. intuition lia.
Qed.
