(* ===== verification/FakeLbRuns.v ===== *)
(** * FakeLbRuns: runs of the load balancers in memory

    The theorems on load balancers, applied to runs in the world of [FakeLb]. *)

From S2P Require Import Prelude K8s IoLogic GceInstances AddressManager LoadBalancer GceHosts ComputeCalls ClusterId InternalLb Goroutines ExternalLb LbDispatch LbLogic LbStore InternalLbScope InternalLbEnsure FakeLb InstanceGroups ExternalLbTrace ExternalLbEnsure LbDispatchProps.
Local Open Scope Z_scope.

(** ** Runs *)
(** An internal load balancer: created, then deleted. *)
Definition ilb_run : outcome (list string) * (lbState * (memory * list event)) :=
  @ensureInternalLoadBalancer _ (logged memory_compute) _ _ demo_g "c1" (demo_svc []) None demo_nodes (demo_state, (demo_memory, [])).
Definition ilb_deleted : outcome unit * (lbState * (memory * list event)) :=
  @ensureInternalLoadBalancerDeleted _ (logged memory_compute) _ demo_g "c1" (demo_svc [ILBFinalizerV1]) (ilb_run.2.1, (ilb_run.2.2.1, [])).

(** An external one, created, changed (another port) and deleted. *)
Definition demo_elb (port : Z) : Service :=
  mkService "default" "api" "abcd-0001" ∅ [] "LoadBalancer" [mkPort "TCP" port] "None" EmptyString None [] "Cluster" 0 [].
Definition alternating : schedule := Nat.even.
Definition elb_run : outcome (list string) * (lbState * (memory * list event)) :=
  @ensureExternalLoadBalancer _ (logged memory_compute) _ demo_g "c1" (demo_elb 80) None demo_nodes (demo_state, (demo_memory, [])).
Definition elb_changed : outcome (list string) * (lbState * (memory * list event)) :=
  @ensureExternalLoadBalancer _ (logged memory_compute) _ demo_g "c1" (demo_elb 81) (m_rules elb_run.2.2.1 !! (GetLoadBalancerName (demo_elb 81), g_region demo_g)) demo_nodes (elb_run.2.1, (elb_run.2.2.1, [])).
Definition elb_deleted : outcome unit * (memory * list event) :=
  @ensureExternalLoadBalancerDeleted _ (logged memory_compute) demo_g alternating alternating "c1" (demo_elb 81) (elb_changed.2.2.1, []).
(** The pool is moved to one node. *)
Definition pool_run : outcome unit * (memory * list event) :=
  @updateTargetPool _ (logged memory_compute) _ demo_g (GetLoadBalancerName (demo_elb 80)) [mkGceInstance "us-central1-c" "gke-n3" 3 [] "e2"] (elb_run.2.2.1, []).
Definition id_run := @GetID _ (logged memory_compute) (lb_id demo_state, (demo_memory, [])).
(** The service of the internal load balancer, with another type. *)
Definition demo_moved : Service :=
  mkService "default" "web" "1234-5678" ∅ [ILBFinalizerV1] "LoadBalancer" [mkPort "TCP" 80] "None" EmptyString None [] "Cluster" 0 [].
Definition moved_run : outcome (list string) * (lbState * (memory * list event)) :=
  @EnsureLoadBalancer _ (logged memory_compute) _ _ demo_g alternating alternating demo_moved demo_nodes (ilb_run.2.1, (ilb_run.2.2.1, [])).
(** An instance group with one stale member, and the groups without their management. *)
Definition stale_memory : memory := set_groups <[ ("ig", "us-central1-a") := {[ "gke-old" ]} ]>%string demo_memory.
Definition group_run : outcome string * memory := ensureInternalInstanceGroup demo_g "ig" "us-central1-a" ["gke-n1"]%string stale_memory.
Definition skip_g : gceConfig :=
  mkGceConfig "p" "p" "us-central1" "https://www.googleapis.com/compute/v1/projects/" EmptyString EmptyString false false ["us-central1-a"; "us-central1-b"]%string "gke" EmptyString ∅ false true.
Definition two_groups : memory := set_groups (λ _, {[ ("ig", "us-central1-a") := ∅; ("ig", "us-central1-b") := ∅ ]})%string demo_memory.
Definition skip_run : outcome (list string) * memory := ensureInternalInstanceGroups skip_g "ig" demo_nodes two_groups.




Lemma instance_group_members_witness :
  ∃ members, groups group_run.2 !! ("ig", "us-central1-a")%string = Some members ∧
    limitNodes (NewString ["gke-n1"]%string) ⊆ members ∧
    members ⊆ limitNodes (NewString ["gke-n1"]%string) ∪ default ∅ (groups stale_memory !! ("ig", "us-central1-a")%string) ∧
    ((∀ refs w1 e, (exec (InstanceGroupsRemoveInstances "ig" "us-central1-a" refs) w1).1 = Err e → isNotFound e = false) →
     members = limitNodes (NewString ["gke-n1"]%string) ∧ (size members <= 1000)%nat).
Proof.
  apply (instance_group_members demo_g "ig" "us-central1-a" ["gke-n1"]%string stale_memory (match group_run.1 with Ret l => l | _ => EmptyString end)).
  - repeat constructor.
  - assert (default ∅ (groups stale_memory !! ("ig", "us-central1-a")%string) = {[ "gke-old"%string ]}) as -> by (vm_compute; reflexivity).
    intros x ->%elem_of_singleton. split; reflexivity.
  - vm_compute. reflexivity.
Defined.

Lemma skip_links_one_zone_witness :
  skip_run.1 = Ret ["https://www.googleapis.com/compute/v1/projects/p/global/us-central1-a/ig"]%string ∧ size (splitNodesByZone demo_nodes) = 2%nat ∧
  ∃ zone zNodes rest igs, range (splitNodesByZone demo_nodes) = (zone, zNodes) :: rest ∧ splitNodesByZone demo_nodes !! zone = Some zNodes ∧
    exec (InstanceGroupsList zone (Some ("ig" +:+ ".*")%string)) two_groups = (Ret igs, skip_run.2) ∧
    ["https://www.googleapis.com/compute/v1/projects/p/global/us-central1-a/ig"]%string = ig_SelfLink <$> igs.
Proof.
  split; [vm_compute; reflexivity|]. split; [vm_compute; reflexivity|].
  apply (skip_links_one_zone skip_g "ig" demo_nodes two_groups); [reflexivity|vm_compute; discriminate|vm_compute; reflexivity].
Defined.

Lemma external_deletion_trace_witness :
  elb_deleted.1 = Ret tt ∧ length elb_deleted.2.2 = 8%nat ∧
  let svc := demo_elb 81 in
  let name := GetLoadBalancerName svc in
  (usesL4RBS svc None = true → elb_deleted.1 = Err ImplementedElsewhere ∧ elb_deleted.2.2 = []) ∧
  ordered name (g_region demo_g) elb_deleted.2.2 ∧
  (elb_deleted.1 = Ret tt →
     answered elb_deleted.2.2 (FirewallsDelete (MakeFirewallName name)) (goneOrReported demo_g) ∧ answered elb_deleted.2.2 (AddressesDelete name (g_region demo_g)) gone ∧
     answered elb_deleted.2.2 (ForwardingRulesDelete name (g_region demo_g)) gone ∧ answered elb_deleted.2.2 (TargetPoolsDelete name (g_region demo_g)) gone ∧
     checksGone demo_g "c1" svc elb_deleted.2.2).
Proof.
  split; [vm_compute; reflexivity|]. split; [vm_compute; reflexivity|].
  apply (external_deletion_trace memory_compute demo_g alternating alternating "c1" (demo_elb 81) elb_changed.2.2.1 elb_deleted.1 elb_deleted.2.1 elb_deleted.2.2).
  vm_compute. reflexivity.
Defined.



Lemma cluster_id_cached_witness :
  (∀ W' (C' : Compute W') s, @GetID W' C' (id_run.2.1, s) = (Ret "c1"%string, (id_run.2.1, s)) ∧ ∃ f, @GetFederationID W' C' (id_run.2.1, s) = (Ret f, (id_run.2.1, s))) ∧
  (id_run.2.2.2 = [] ∨ (∃ data, id_run.2.2.2 = [Event (ConfigMapsFromStore cfgMapKey) (Ret (Some (Some data)))]) ∨
   id_run.2.2.2 = [Event (ConfigMapsFromStore cfgMapKey) (Ret None); Event RandomUID (Ret "c1"%string); Event (ConfigMapsCreate UIDNamespace UIDConfigMapName (newConfig "c1")) (Ret tt)]).
Proof. apply (cluster_id_cached memory_compute (lb_id demo_state) demo_memory "c1" id_run.2.1 id_run.2.2.1 id_run.2.2.2). vm_compute. reflexivity. Defined.

Lemma target_pool_update_witness :
  ∃ pool adds removes updated,
    let existing := NewString (hostURLToComparablePath <$> tp_Instances pool) in
    let name := GetLoadBalancerName (demo_elb 80) in
    let hosts := [mkGceInstance "us-central1-c" "gke-n3" 3 [] "e2"] in
    pool_run.2.2 = looking demo_g name pool :: (adding demo_g name <$> adds) ++ (removing demo_g name <$> removes) ++ [looking demo_g name updated] ∧
    Forall chunk (adds ++ removes) ∧ concat adds = filter (λ link, link ∉ existing) (hostLinks hosts) ∧
    list_to_set (concat removes) = existing ∖ list_to_set (hostLinks hosts) ∧ NoDup (concat removes) ∧
    length (tp_Instances updated) = length hosts.
Proof.
  apply (target_pool_update memory_compute demo_g (GetLoadBalancerName (demo_elb 80)) [mkGceInstance "us-central1-c" "gke-n3" 3 [] "e2"] elb_run.2.2.1 pool_run.2.1 pool_run.2.2);
    [vm_compute; reflexivity|apply NoDup_singleton].
Defined.
