(* ===== verification/LbServingRuns.v ===== *)
(** * LbServingRuns: services that share resources, in memory

    A world that refuses to delete what is in use, and services in it that share
    the health check, its firewall and the backend service. *)
From stdpp Require Import relations.
From S2P Require Import Prelude K8s IoLogic GceInstances AddressManager LoadBalancer GceHosts ComputeCalls ClusterId InternalLb Goroutines ExternalLb LbDispatch LbLogic LbStore InternalLbScope InternalLbEnsure FakeLb LbSharing LbServing.
Local Open Scope Z_scope.

(** ** A world that refuses to delete what is in use *)
Definition usedBackend (m : memory) (n : string) : bool :=
  bool_decide (map_Exists (λ _ rule, sameResource (fr_BackendService rule) (getBackendServiceLink demo_g n) = true) (m_rules m)).
Definition usedCheck (m : memory) (hc : HealthCheck) : bool := bool_decide (map_Exists (λ _ b, hc_SelfLink hc ∈ bs_HealthChecks b) (m_backends m)).
Definition refused {A} (c : Call A) (m : memory) : option error :=
  match c with
  | BackendServicesDelete n r => if usedBackend m n then Some ErrBeingUsedBy else None
  | HealthChecksDelete n => match m_checks m !! n with Some hc => if usedCheck m hc then Some ErrBeingUsedBy else None | None => None end
  | BackendServicesGet n r => match m_backends m !! (n, r) with Some b => if bool_decide (bs_Name b = n) then None else Some (ErrGoogleAPI 500) | None => None end
  | _ => None
  end.
Definition guarded : Compute memory := {| exec A c := λ m, match refused c m with Some e => (Err e, m) | None => memory_exec c m end |}.
Definition padded_sha1 : Sha1 := {| sha1_hex s := (s +:+ "0000000000000000")%string |}.

Lemma guarded_cases {A} (c : Call A) w r w' : @exec _ guarded A c w = (r, w') →
  (∃ e, refused c w = Some e ∧ r = Err e ∧ w' = w) ∨ (refused c w = None ∧ @exec _ memory_compute A c w = (r, w')).
Proof. unfold exec, guarded. cbn. destruct (refused c w) as [e|]; [|by right]. intros [= <- <-]. left. by exists e. Qed.
Ltac guarded_step lemma :=
  intros [(e & He & -> & ->)|[_ E]]%guarded_cases; [|exact (lemma _ _ _ _ _ E)];
  match goal with c : Call _ |- _ => destruct c end; cbn in *; try done; split; try done;
  repeat case_match; simplify_eq; done.
#[refine] Definition guarded_store : @LbStore memory guarded := {|
  rules := m_rules; backends := m_backends; checks := m_checks; firewalls := m_firewalls; groups := m_groups |}.
Proof.
  - intros A c w r w'. guarded_step @rules_memory.
  - intros A c w r w'. guarded_step @backends_memory.
  - intros A c w r w'. guarded_step @checks_memory.
  - intros A c w r w'. guarded_step @firewalls_memory.
  - intros A c w r w'. guarded_step @groups_memory.
Defined.

Lemma guarded_refs : @LbRefs memory guarded guarded_store demo_g.
Proof.
  constructor.
  - intros n w r w' hc k b E Hc Hb Hin. apply guarded_cases in E as [(e & He & -> & ->)|[He _]]; cbn in He, Hc, Hb; rewrite Hc in He.
    + destruct (usedCheck w hc); simplify_eq. done.
    + unfold usedCheck in He. rewrite bool_decide_true in He; [done|]. by exists k, b.
  - intros n w r w' k rule E Hr Hs. apply guarded_cases in E as [(e & He & -> & ->)|[He _]]; cbn in He, Hr.
    + destruct (usedBackend w n); simplify_eq. done.
    + unfold usedBackend in He. rewrite bool_decide_true in He; [done|]. by exists k, rule.
  - intros n region w b w' E. pose proof (@backends_step _ _ guarded_store _ _ _ _ _ E) as [_ Hb]. cbn in Hb.
    apply guarded_cases in E as [(e & _ & [=] & _)|[He _]]. cbn in He. rewrite Hb in He. by case_bool_decide.
Qed.
Lemma padded_separates : @Sha1Separates padded_sha1.
Proof. intros E. vm_compute in E. discriminate E. Qed.

(** ** Three services *)
Definition sharing (name uid : string) (port : Z) : Service :=
  mkService "default" name uid {[ ServiceAnnotationLoadBalancerType := "Internal"; ServiceAnnotationILBBackendShare := "true" ]}%string [] "LoadBalancer"
    [mkPort "TCP" port] "None" EmptyString None [] "Cluster" 0 [].
Definition svc_web : Service := sharing "web" "1234-5678" 80.
Definition svc_db : Service := sharing "db" "9999-0000" 5432.
Definition svc_api : Service := mkService "default" "api" "abcd-0001" ∅ [] "LoadBalancer" [mkPort "TCP" 443] "None" EmptyString None [] "Cluster" 0 [].
Definition st0 : lbState := mkLbState (mkTagCache [] ∅ []) ∅ (mkClusterID true (Some "c1"%string) (Some "c1"%string)).
Definition both : schedule := Nat.even.

Abbreviation ensure_in o m := (@EnsureLoadBalancer _ (logged guarded) memory_order padded_sha1 demo_g both both o demo_nodes (st0, (m, []))).
Abbreviation delete_in o m := (@EnsureLoadBalancerDeleted _ (logged guarded) padded_sha1 demo_g both both o (st0, (m, []))).
Definition web_run := Eval vm_compute in ensure_in svc_web demo_memory.
Definition db_run := Eval vm_compute in ensure_in svc_db web_run.2.2.1.
Definition api_run := Eval vm_compute in ensure_in svc_api db_run.2.2.1.
Definition db_gone := Eval vm_compute in delete_in svc_db api_run.2.2.1.
Definition api_gone := Eval vm_compute in delete_in svc_api db_gone.2.2.1.

(** What was built for the first of them. *)
Definition web_hc : HealthCheck := default (mkHC EmptyString 0 0 0 0 None EmptyString EmptyString EmptyString) (m_checks web_run.2.2.1 !! "k8s-c1-node"%string).
Definition web_bs : BackendService :=
  default (mkBS EmptyString EmptyString EmptyString [] [] EmptyString EmptyString EmptyString)
    (m_backends web_run.2.2.1 !! ("k8s-c1-internal-tcp-nmv1-None000000000000", "us-central1")%string).
Definition web_firewall (n : string) : Firewall := default (mkFW EmptyString EmptyString EmptyString [] [] [] []) (m_firewalls web_run.2.2.1 !! n).
Abbreviation web_established ip w :=
  (@established memory guarded guarded_store memory_order padded_sha1 demo_g "c1" svc_web (ilbCheckPathPort svc_web).1 (ilbCheckPathPort svc_web).2 ip w).
Lemma web_ready : web_established "10.0.0.7" web_run.2.2.1.
Proof.
  exists web_hc, (bs_Backends web_bs), "10.0.0.7"%string. split_and!.
  - split; vm_compute; reflexivity.
  - exists web_bs. split; vm_compute; reflexivity.
  - eexists. split; [vm_compute; reflexivity|]. split; vm_compute; reflexivity.
  - exists (match GetLoadBalancerSourceRanges svc_web with Ret src => src | _ => ∅ end). split; [vm_compute; reflexivity|].
    exists (fw_TargetTags (web_firewall "k8s-fw-a12345678")), (web_firewall "k8s-fw-a12345678"). split; vm_compute; reflexivity.
  - exists (fw_TargetTags (web_firewall "k8s-c1-node-hc")), (web_firewall "k8s-c1-node-hc"). split; vm_compute; reflexivity.
Qed.
Lemma valid_web : validService svc_web.
Proof. split; set_solver. Qed.
Lemma valid_db : validService svc_db.
Proof. split; set_solver. Qed.
Lemma valid_api : validService svc_api.
Proof. split; set_solver. Qed.
Lemma st0_knows : knows "c1" st0.
Proof. split; [done|]. by exists "c1"%string. Qed.

