(* ===== verification/WorkloadId.v ===== *)
(** * WorkloadId: direct path with workload identity

    [cmd/gcp-controller-manager/dpwi]: which Kubernetes service account (KSA) may
    act as which Google service account (GSA), decided by the Auth service and
    remembered ([serviceaccounts/verifier.go], [types.go], [auth/auth.go]); the
    handlers of service accounts, pods and nodes ([handler.go], [pods.go],
    [nodesyncer.go]) and of the config map that publishes the pairs
    ([configmap.go]), on the common event handler ([eventhandler.go]). *)

From S2P Require Import Prelude Bits GoNet GoNetText GoStrings NetUtils K8s Json WorkQueue GnpValidations NodeIpamConfig IoLogic NodeAnnotator.
Local Open Scope Z_scope.

(** ** Service accounts *)
Record ServiceAccount : Type := mkSA { sa_Namespace : string; sa_Name : string }.
#[global] Instance ServiceAccount_eq_dec : EqDecision ServiceAccount. Proof. solve_decision. Defined.
#[global] Instance ServiceAccount_countable : Countable ServiceAccount :=
  inj_countable' (λ sa, (sa_Namespace sa, sa_Name sa)) (λ p, mkSA p.1 p.2) (λ sa, match sa with mkSA _ _ => eq_refl end).

Definition sa_String (sa : ServiceAccount) : string :=
  if bool_decide (sa_Namespace sa = EmptyString) then ("default/" +:+ sa_Name sa)%string else (sa_Namespace sa +:+ "/" +:+ sa_Name sa)%string.
Definition sa_Key (sa : ServiceAccount) : string := (sa_Namespace sa +:+ "/" +:+ sa_Name sa)%string.
Definition SplitMetaNamespaceKey (key : string) : outcome (string * string) :=
  match split_on slash key with
  | [name] => Ret (EmptyString, name)
  | [namespace; name] => Ret (namespace, name)
  | _ => Err (Errorf "unexpected key format: %q")
  end.

Definition saFromKey (key : string) : outcome ServiceAccount :=
  match SplitMetaNamespaceKey key with Ret (namespace, name) => Ret (mkSA namespace name) | Err err => Err err | Panic => Panic end.

(** The verified pairs. *)
Abbreviation saMap := (gmap ServiceAccount string).
Definition saMap_addOrUpdate (sa : ServiceAccount) (gsa : string) (m : saMap) : saMap := <[ sa := gsa ]> m.
Definition saMap_remove (sa : ServiceAccount) (m : saMap) : saMap := delete sa m.
Definition saMap_get (sa : ServiceAccount) (m : saMap) : option string := m !! sa.

Record verifyResult : Type := mkResult { preVerifiedGSA : string; curGSA : string; denied : bool }.

(** ** Objects and requests *)
Record SAObject : Type := mkSAObject { so_Namespace : string; so_Name : string; so_Annotations : gmap string string }.
Record wiPod : Type := mkWiPod { wp_Namespace : string; wp_Name : string; wp_ServiceAccountName : string; wp_NodeName : string }.
(** [BinaryData] may be nil. *)
Record wiConfigMap : Type := mkWiConfigMap { BinaryData : option (gmap string string) }.

(** What was last sent for a node, and when: none is the zero time. *)
Record nodeGSAs : Type := mkNodeGSAs { lastGSAs : list string; lastSent : option Z }.
Abbreviation nodeMap := (gmap string nodeGSAs).

Record serviceAccountMapping : Type := mkMapping { KubernetesNamespace : string; KubernetesServiceAccount : string; GoogleServiceAccount : string }.
#[global] Instance serviceAccountMapping_eq_dec : EqDecision serviceAccountMapping. Proof. solve_decision. Defined.
Inductive authRequest : Type :=
| authorizeSAMappingRequest (RequestedMappings : list serviceAccountMapping)
| hmsAuthorizeSAMappingRequest (RequestedMappings : list serviceAccountMapping)
| syncNodeRequest (NodeZone Node : string) (GoogleServiceAccounts : list string)
| hmsSyncNodeRequest (NodeName : string) (GSAEmails : list string) (NodeZone : string).
#[global] Instance authRequest_eq_dec : EqDecision authRequest. Proof. solve_decision. Defined.
Record authorizeSAMappingResponse : Type := mkResponse { DeniedMappings : list serviceAccountMapping; PermittedMappings : list serviceAccountMapping }.

(** What the handlers reach.  An indexer gives nothing, an object of another
    type, or the object.  A post gives, after its retries, an error or the status
    code and what the body decodes to. *)
Class Workload (W : Type) : Type := {
  RestClient_Post : authRequest → io W (Z * outcome authorizeSAMappingResponse);
  (** the context ends before the result is there *)
  ctx_Done : io W bool;
  time_Now : io W Z;
  saIndexer_GetByKey : string → io W (option (option SAObject));
  saIndexer_List : io W (list (option SAObject));
  podIndexer_GetByKey : string → io W (option (option wiPod));
  podIndexer_ByKSA : string → io W (list (option wiPod));
  podIndexer_ByNode : string → io W (list (option wiPod));
  nodeIndexer_GetByKey : string → io W (option (option Node));
  cmIndexer_GetByKey : string → io W (option (option wiConfigMap));
  (** [BinaryData] of the cached object is set *)
  cm_write : string → gmap string string → io W unit;
  ConfigMaps_Create : gmap string string → io W unit;
  ConfigMaps_Update : gmap string string → io W unit;
  ConfigMaps_Delete : string → io W unit;
  (** [Enqueue] of the config map handler, [EnqueueKey] of the node syncer *)
  notifyConfigmapHandler : io W unit;
  notifyNodeSyncer : string → io W unit
}.

(** ** The Auth client *)
Section auth.
Context {W : Type} `{Workload W}.
(** Auth rather than HMS is configured. *)
Variable useAuth : bool.

Definition isErrorHTTPStatus (statusCode : Z) : bool := (statusCode <? 200) || (300 <=? statusCode).

Definition auth_call (req : authRequest) : io W (outcome authorizeSAMappingResponse) :=
  r ← try (RestClient_Post req);
  match r with
  | inl err => fail (ErrorfW "error resulted from request %v: %w" err)
  | inr (status, body) =>
      if isErrorHTTPStatus status then fail (Errorf "unsuccessful status code resulted from request %v: %d") else mret body
  end.

Definition auth_Sync (node zone : string) (gsaList : list string) : io W unit :=
  let gsaList := sort_Strings gsaList in
  _ ← auth_call (if negb useAuth then hmsSyncNodeRequest node gsaList zone else syncNodeRequest zone node gsaList);
  mret tt.

Definition auth_Authorize (kns ksa gsa : string) : io W bool :=
  let reqMapping := mkMapping kns ksa gsa in
  body ← auth_call (if negb useAuth then hmsAuthorizeSAMappingRequest [reqMapping] else authorizeSAMappingRequest [reqMapping]);
  rsp ← lift match body with Ret rsp => Ret rsp | Err err => Err (ErrorfW "request succeeed but got error %w parsing response: %q" err) | Panic => Panic end;
  if bool_decide (head (PermittedMappings rsp) = Some reqMapping) then mret true
  else if bool_decide (head (DeniedMappings rsp) = Some reqMapping) then mret false
  else fail (Errorf "internal error: requested mapping %v not found in response %+v").

(** ** The verifier *)
Abbreviation V := (io (saMap * W)).
Definition serviceAccountAnnotationGSAEmail : string := "iam.gke.io/gcp-service-account".

Definition getGSA (ksa : ServiceAccount) : io W (string * bool) :=
  o ← (r ← try (saIndexer_GetByKey (sa_Key ksa)); match r with inl err => fail (ErrorfW "failed to get ServiceAccount %v: %w" err) | inr o => mret o end);
  match o with
  | None => mret (EmptyString, false)
  | Some None => fail (Errorf "invalid object for service account %v: %#v")
  | Some (Some sa) => mret (default EmptyString (so_Annotations sa !! serviceAccountAnnotationGSAEmail),
                           bool_decide (is_Some (so_Annotations sa !! serviceAccountAnnotationGSAEmail)))
  end.

(** The result and the error, both of which the caller gets. *)
Definition verify (ksa : ServiceAccount) : V (verifyResult * option error) :=
  s ← ask;
  let res := mkResult (default EmptyString (saMap_get ksa s.1)) EmptyString false in
  r ← try (on_snd (getGSA ksa));
  match r with
  | inl err => mret (res, Some err)
  | inr (gsa, existed) =>
      if negb existed || bool_decide (gsa = EmptyString)
      then _ ← put (λ s, (saMap_remove ksa s.1, s.2)); mret (res, None)
      else
        r ← try (on_snd (auth_Authorize (sa_Namespace ksa) (sa_Name ksa) gsa));
        match r with
        | inl err => mret (res, Some (ErrorfW "failed to authorize %s:%s; err: %w" err))
        | inr false => _ ← put (λ s, (saMap_remove ksa s.1, s.2)); mret (mkResult (preVerifiedGSA res) EmptyString true, None)
        | inr true => _ ← put (λ s, (saMap_addOrUpdate ksa gsa s.1, s.2)); mret (mkResult (preVerifiedGSA res) gsa false, None)
        end
  end.

(** The verification runs on when the context ends. *)
Definition ForceVerify (ksa : ServiceAccount) : V verifyResult :=
  '(res, _) ← verify ksa;
  done_ ← on_snd ctx_Done;
  if (done_ : bool) then fail (Errorf "original request context is done: %w") else mret res.

Definition VerifiedGSA (ksa : ServiceAccount) : V string :=
  s ← ask;
  match saMap_get ksa s.1 with
  | Some gsa => mret gsa
  | None =>
      res ← ForceVerify ksa;
      mret (if denied res then EmptyString else curGSA res)
  end.

Fixpoint verifyAll (l : list (option SAObject)) (m : saMap) : V saMap :=
  match l with
  | [] => mret m
  | None :: l => verifyAll l m
  | Some sa :: l =>
      let ksa := mkSA (so_Namespace sa) (so_Name sa) in
      r ← try (VerifiedGSA ksa);
      verifyAll l match r with
                  | inl _ => m
                  | inr gsa => if bool_decide (gsa = EmptyString) then m else <[ ksa := gsa ]> m
                  end
  end.
Definition AllVerified : V saMap := l ← on_snd saIndexer_List; verifyAll l ∅.

(** ** Service account events *)
Definition affectedNodes (ksa : ServiceAccount) (pods : list (option wiPod)) : gset string :=
  list_to_set (omap (λ o, match o with
    | Some pod => if bool_decide (sa_Namespace ksa ≠ wp_Namespace pod) || bool_decide (sa_Name ksa ≠ wp_ServiceAccountName pod) then None else Some (wp_NodeName pod)
    | None => None
    end) pods).
Definition notifyAffectedNodes (ksa : ServiceAccount) : io W unit :=
  r ← try (podIndexer_ByKSA (sa_Key ksa));
  match r with
  | inl _ => mret tt
  | inr pods => foldr (λ node m, _ ← notifyNodeSyncer node; m) (mret tt) (elements (affectedNodes ksa pods))
  end.

Definition saHandler_process (key : string) : V unit :=
  '(namespace, name) ← lift (SplitMetaNamespaceKey key);
  let ksa := mkSA namespace name in
  res ← ForceVerify ksa;
  if denied res then fail (Errorf "retry denied error as IAM propagation can take 7 minutes or longer")
  else if bool_decide (curGSA res = preVerifiedGSA res) then mret tt
  else
    _ ← on_snd notifyConfigmapHandler;
    on_snd (notifyAffectedNodes ksa).

(** ** Pod events *)
Definition podHandler_process (key : string) : V unit :=
  o ← on_snd (r ← try (podIndexer_GetByKey key); match r with inl err => fail (ErrorfW "failed to get Pod %q: %w" err) | inr o => mret o end);
  match o with
  | None => mret tt
  | Some None => fail (Errorf "invalid pod object from key %q: %#v")
  | Some (Some pod) =>
      r ← try (VerifiedGSA (mkSA (wp_Namespace pod) (wp_ServiceAccountName pod)));
      match r with
      | inl err => fail (ErrorfW "failed to get verified GSA for ksa %v: %w" err)
      | inr gsa =>
          if bool_decide (gsa = EmptyString) then mret tt
          else if bool_decide (wp_NodeName pod = EmptyString) then mret tt
          else on_snd (notifyNodeSyncer (wp_NodeName pod))
      end
  end.

(** ** Node events *)

Definition second : Z := 1000000000.
Definition eventHandlerResyncPeriod : Z := 30 * 60 * second.

Definition sentWithin (now : Z) (ng : nodeGSAs) (d : Z) : bool :=
  match lastSent ng with Some t => now - t <? d | None => false end.

Definition nodeGSAs_sync (node zone : string) (curGSAs : list string) (ng : nodeGSAs) : io W nodeGSAs :=
  let curGSAs := sort_Strings curGSAs in
  now ← time_Now;
  if bool_decide (lastGSAs ng = curGSAs) && sentWithin now ng eventHandlerResyncPeriod then mret ng
  else
    now ← time_Now;
    if sentWithin now ng (10 * second) then fail (Errorf "the node %q was synced less than %v ago, which is less than 10s")
    else
      _ ← auth_Sync node zone curGSAs;
      now ← time_Now;
      mret (mkNodeGSAs curGSAs (Some now)).

Abbreviation N := (io (nodeMap * (saMap * W))).
Definition gsaForPod (p : option wiPod) : V string :=
  match p with
  | None => fail (Errorf "invalid pod object %v")
  | Some pod =>
      r ← try (VerifiedGSA (mkSA (wp_Namespace pod) (wp_ServiceAccountName pod)));
      match r with inl err => fail (ErrorfW "error getting verified GSA for ksa %v for pod %q: %w" err) | inr gsa => mret gsa end
  end.
Fixpoint podGSAs (pods : list (option wiPod)) (gsaSet : gset string) : V (gset string) :=
  match pods with
  | [] => mret gsaSet
  | p :: pods =>
      r ← try (gsaForPod p);
      podGSAs pods match r with
                   | inl _ => gsaSet
                   | inr gsa => if bool_decide (gsa = EmptyString) then gsaSet else {[ gsa ]} ∪ gsaSet
                   end
  end.

Definition LabelTopologyZone : string := "topology.kubernetes.io/zone".
Definition nodeHandler_process (key : string) : N unit :=
  oNode ← on_snd (on_snd (nodeIndexer_GetByKey key));
  match oNode with
  | None => put (λ s, (delete key s.1, s.2))
  | Some None => fail (Errorf "invalid node object from key %q: %#v")
  | Some (Some node) =>
      let zone := default EmptyString (Labels node !! LabelTopologyZone) in
      if bool_decide (zone = EmptyString) then fail (Errorf "failed to get zone from node %q")
      else
        r ← try (on_snd (on_snd (podIndexer_ByNode key)));
        match r with
        | inl err => fail (ErrorfW "failed to get pods on the node %q: %w" err)
        | inr pods =>
            gsaSet ← on_snd (podGSAs pods ∅);
            if bool_decide (gsaSet = ∅) then mret tt
            else
              s ← ask;
              let ng := default (mkNodeGSAs [] None) (s.1 !! key) in
              _ ← put (λ s, (<[ key := ng ]> s.1, s.2));
              ng ← on_snd (on_snd (nodeGSAs_sync key zone (elements gsaSet) ng));
              put (λ s, (<[ key := ng ]> s.1, s.2))
        end
  end.

(** ** The config map *)
Definition verifiedSAConfigMapNamespace : string := "kube-system".
Definition verifiedSAConfigMapName : string := "verified-ksa-to-gsa".
Definition verifiedSAConfigMapKey : string := "permitted-ksa-to-gsa-pairs".

(** [json.Marshal] of a map with text keys: the members in the order of the keys. *)
Definition member_le (a b : string * string) : Prop := string_le a.1 b.1.
#[global] Instance member_le_dec : RelDecision member_le. Proof. unfold member_le. solve_decision. Defined.
Definition serialize (m : saMap) : string :=
  marshal_struct ((λ kv, (kv.1, FString kv.2)) <$> merge_sort member_le ((λ kv, (sa_String kv.1, kv.2)) <$> map_to_list m)).

Definition persist (key : string) : V unit :=
  '(namespace, name) ← lift (SplitMetaNamespaceKey key);
  if bool_decide (namespace ≠ verifiedSAConfigMapNamespace) || bool_decide (name ≠ verifiedSAConfigMapName) then mret tt
  else
    o ← on_snd (r ← try (cmIndexer_GetByKey key); match r with inl err => fail (ErrorfW "failed to get ConfigMap %q: %w" err) | inr o => mret o end);
    verified ← AllVerified;
    let text := serialize verified in
    match o with
    | None =>
        r ← try (on_snd (ConfigMaps_Create {[ verifiedSAConfigMapKey := text ]}));
        match r with inl err => fail (ErrorfW "failed to create ConfigMap: %w" err) | inr _ => mret tt end
    | Some None => fail (Errorf "invalid object from ConfigMap queue with key %q: %#v")
    | Some (Some cm) =>
        let data := default ∅ (BinaryData cm) in
        if bool_decide (data !! verifiedSAConfigMapKey = Some text)
        then on_snd (if bool_decide (BinaryData cm = None) then cm_write key data else mret tt)
        else
          let data := <[ verifiedSAConfigMapKey := text ]> data in
          _ ← on_snd (cm_write key data);
          r ← try (on_snd (ConfigMaps_Update data));
          match r with
          | inr _ => mret tt
          | inl err =>
              r ← try (on_snd (ConfigMaps_Delete name));
              match r with
              | inl rmErr => fail (ErrorfW "failed to update ConfigMap (%v) and reset also failed (%w)" rmErr)
              | inr _ => fail (ErrorfW "recmt ConfigMap due to update error: %w" err)
              end
          end
    end.
End auth.

(** ** The event handler *)
Section eventhandler.
Context {S : Type}.
Variable process : string → io S unit.

(** The informer's handlers get the key of the object, or an error. *)
Definition Enqueue (key : outcome string) : io (workqueue * S) unit :=
  match key with Ret key => put (λ s, (q_Add key s.1, s.2)) | Err _ => mret tt | Panic => lift Panic end.
Definition EnqueueKey (key : string) : io (workqueue * S) unit := put (λ s, (q_Add key s.1, s.2)).

(** [None] while [Get] blocks. *)
Definition processNext : io (workqueue * S) (option bool) := λ '(q, s),
  match q_Get q with
  | Blocked => (Ret None, (q, s))
  | Quit => (Ret (Some false), (q, s))
  | Item key q =>
      defer (λ '(q, s), (q_Done key q, s))
        (r ← try (on_snd (process key));
         match r with
         | inl _ => _ ← put (λ s, (q_AddRateLimited key s.1, s.2)); mret (Some true)
         | inr _ => _ ← put (λ s, (q_Forget key s.1, s.2)); mret (Some true)
         end) (q, s)
  end.
End eventhandler.
