(* ===== verification/WorkloadIdProps.v ===== *)
(** * WorkloadIdProps: only granted pairs are used, and what an event changes

    Whatever the order of events and the answers of the services, the verifier
    remembers, the node syncer sends and the config map publishes only pairs the
    Auth service has granted.  What a service account event does on each answer,
    when a node is synchronised, and the keys. *)
From S2P Require Import Prelude GoNetText K8s WorkQueue GoStrings IoLogic NodeAnnotator NodeAnnotatorProps WorkloadId.
Local Open Scope Z_scope.

(** ** The services

    [sent] are the requests to the Auth service with the time of each,
    [published] the data the config map was created or updated with, [notes] the
    notifications, oldest first.  [Granted] are the mappings the service has
    permitted, [OnNode] the pods the index lists for a node. *)
Inductive note : Type := ConfigmapNote | NodeNote (node : string).

Class WorkloadWorld (W : Type) `{Workload W} : Type := {
  clock : W → Z;
  sent : W → list (Z * authRequest);
  published : W → list (gmap string string);
  notes : W → list note;
  Granted : serviceAccountMapping → Prop;
  OnNode : string → wiPod → Prop;

  post_spec req w : wp (RestClient_Post req) (λ r w',
    sent w' = sent w ++ [(clock w, req)] ∧ published w' = published w ∧ notes w' = notes w ∧ clock w ≤ clock w' ∧
    r ≠ Panic ∧ (∀ st, r ≠ Ret (st, Panic)) ∧
    ∀ st rsp m, r = Ret (st, Ret rsp) → m ∈ PermittedMappings rsp → Granted m) w;
  now_spec w : ∃ w', time_Now w = (Ret (clock w'), w') ∧ clock w ≤ clock w' ∧
    (sent w', published w', notes w') = (sent w, published w, notes w);
  done_spec : quiet (λ w, (sent w, published w, notes w)) ctx_Done (λ _, True);
  sa_get_spec key w : (saIndexer_GetByKey key w).2 = w ∧ (saIndexer_GetByKey key w).1 ≠ Panic;
  sa_list_spec w : (saIndexer_List w).2 = w;
  pod_get_spec key w : (podIndexer_GetByKey key w).2 = w;
  pod_ksa_spec key w : (podIndexer_ByKSA key w).2 = w ∧ (podIndexer_ByKSA key w).1 ≠ Panic;
  pod_node_spec node w : (podIndexer_ByNode node w).2 = w ∧
    ∀ pods p, (podIndexer_ByNode node w).1 = Ret pods → Some p ∈ pods → OnNode node p;
  node_get_spec key w : (nodeIndexer_GetByKey key w).2 = w;
  cm_get_spec key w : (cmIndexer_GetByKey key w).2 = w;
  cm_write_spec key d : quiet (λ w, (sent w, published w, notes w)) (cm_write key d) (λ _, True);
  cm_create_spec d w : wp (ConfigMaps_Create d) (λ _ w', sent w' = sent w ∧ published w' = published w ++ [d] ∧ notes w' = notes w) w;
  cm_update_spec d w : wp (ConfigMaps_Update d) (λ _ w', sent w' = sent w ∧ published w' = published w ++ [d] ∧ notes w' = notes w) w;
  cm_delete_spec name : quiet (λ w, (sent w, published w, notes w)) (ConfigMaps_Delete name) (λ _, True);
  notify_cm_spec w : ∃ w', notifyConfigmapHandler w = (Ret tt, w') ∧ sent w' = sent w ∧ published w' = published w ∧ notes w' = notes w ++ [ConfigmapNote];
  notify_node_spec node w : ∃ w', notifyNodeSyncer node w = (Ret tt, w') ∧ sent w' = sent w ∧ published w' = published w ∧ notes w' = notes w ++ [NodeNote node]
}.

(** What the verification of a service account finds. *)
Inductive verdict : Type := NoAccount | Permitted (gsa : string) | Denied | Failed.
#[global] Instance verdict_eq_dec : EqDecision verdict. Proof. solve_decision. Defined.

Section workload.
Context {W : Type} `{WorkloadWorld W}.
Variable useAuth : bool.

(** ** Safety *)
Definition granted (ksa : ServiceAccount) (gsa : string) : Prop := Granted (mkMapping (sa_Namespace ksa) (sa_Name ksa) gsa).
Definition pod_ksa (pod : wiPod) : ServiceAccount := mkSA (wp_Namespace pod) (wp_ServiceAccountName pod).
Definition all_granted (m : saMap) : Prop := map_Forall granted m.

(** A node is given only accounts that a pod listed on it may act as. *)
Definition gsas_granted (node : string) (gsas : list string) : Prop :=
  Forall (λ gsa, ∃ pod, OnNode node pod ∧ granted (pod_ksa pod) gsa) gsas.
Definition request_granted (req : authRequest) : Prop :=
  match req with
  | syncNodeRequest _ node gsas | hmsSyncNodeRequest node gsas _ => gsas_granted node gsas
  | _ => True
  end.
Definition data_granted (data : gmap string string) : Prop :=
  ∃ m, all_granted m ∧ data !! verifiedSAConfigMapKey = Some (serialize m).
Definition world_granted (w : W) : Prop := Forall (request_granted ∘ snd) (sent w) ∧ Forall data_granted (published w).
Definition state_granted (s : saMap * W) : Prop := all_granted s.1 ∧ world_granted s.2.

Lemma keeps_quiet {A} (m : io W A) P : quiet (λ w, (sent w, published w, notes w)) m P → keeps world_granted m P.
Proof.
  intros Hm w Hw. eapply wp_mono, Hm. intros r w' [Heq HP]. injection Heq as H1 H2 H3.
  split; [|done]. unfold world_granted. by rewrite H1, H2.
Qed.
Lemma keeps_read {A} (m : io W A) : (∀ w, (m w).2 = w) → keeps world_granted m (λ _, True).
Proof. intros Hm w Hw. unfold wp. rewrite Hm. done. Qed.
Lemma keeps_post req : request_granted req →
  keeps world_granted (RestClient_Post req) (λ r, ∀ rsp m, r.2 = Ret rsp → m ∈ PermittedMappings rsp → Granted m).
Proof.
  intros Hr w Hw. eapply wp_mono, post_spec. intros r w' (H1 & H2 & _ & _ & _ & _ & HP). destruct Hw as [Hs Hp]. split.
  - split; [rewrite H1; apply Forall_app; repeat constructor; [done|exact Hr]|by rewrite H2].
  - intros [st o] -> rsp m Ho. simpl in Ho. subst o. eauto.
Qed.
Lemma keeps_call req : request_granted req →
  keeps world_granted (auth_call req) (λ o, ∀ rsp m, o = Ret rsp → m ∈ PermittedMappings rsp → Granted m).
Proof.
  intros Hr. unfold auth_call. keeps_step; [by apply keeps_post|]. intros [e|[st body]] HP; [keeps_step|].
  destruct (isErrorHTTPStatus st); keeps_step. exact HP.
Qed.
Lemma keeps_Authorize kns ksa gsa :
  keeps world_granted (auth_Authorize useAuth kns ksa gsa) (λ b, b = true → Granted (mkMapping kns ksa gsa)).
Proof.
  unfold auth_Authorize. keeps_step; [apply keeps_call; by destruct useAuth|]. intros body HP.
  eapply (keeps_bind _ _ _ (λ rsp, ∀ m, m ∈ PermittedMappings rsp → Granted m)).
  { keeps_step. intros rsp. destruct body; try done. intros [= ->] m. by apply HP. }
  intros rsp Hrsp. case_bool_decide as Hh; [keeps_step; intros _; apply Hrsp; by apply head_Some_elem_of|].
  case_bool_decide; by keeps_step.
Qed.
Lemma keeps_Sync node zone gsas : gsas_granted node gsas → keeps world_granted (auth_Sync useAuth node zone gsas) (λ _, True).
Proof.
  intros Hg. unfold auth_Sync. keeps_step; [apply keeps_call|by intros; keeps_step].
  assert (gsas_granted node (sort_Strings gsas)) as Hs by (unfold gsas_granted, sort_Strings; by rewrite merge_sort_Permutation).
  by destruct useAuth.
Qed.
Lemma keeps_now : keeps world_granted time_Now (λ _, True).
Proof.
  intros w Hw. unfold wp. destruct (now_spec w) as (w' & -> & _ & Heq). injection Heq as H1 H2 _. simpl. split; [|done].
  unfold world_granted. by rewrite H1, H2.
Qed.
Lemma keeps_lower {A} (m : io W A) P : keeps world_granted m P → keeps state_granted (on_snd m) P.
Proof. apply keeps_on_snd; unfold state_granted; simpl; tauto. Qed.
Lemma keeps_getGSA ksa : keeps world_granted (getGSA ksa) (λ _, True).
Proof.
  unfold getGSA. eapply (keeps_bind _ _ _ (λ _, True)); [keeps_step; [apply keeps_read; intros w; apply sa_get_spec|intros [e|o] _; by keeps_step]|].
  intros [[sa|]|] _; by keeps_step.
Qed.
Definition nonempty_granted (ksa : ServiceAccount) (gsa : string) : Prop := gsa ≠ EmptyString → granted ksa gsa.

Lemma empty_granted ksa : nonempty_granted ksa EmptyString.
Proof. by intros []. Qed.
#[local] Hint Resolve empty_granted : core.

Lemma granted_remove ksa : keeps state_granted (put (λ s, (saMap_remove ksa s.1, s.2))) (λ _, True).
Proof. apply keeps_put. intros [m w] [Hm ?]. split; [by apply map_Forall_delete|done]. Qed.

Lemma keeps_verify ksa : keeps state_granted (verify useAuth ksa) (λ p, nonempty_granted ksa (curGSA p.1)).
Proof.
  unfold verify. keeps_step. intros s _. keeps_step; [apply keeps_lower, keeps_getGSA|].
  intros [e|[gsa ex]] _; [by keeps_step|].
  destruct (negb ex || _); [keeps_step; [apply granted_remove|by intros; keeps_step]|].
  keeps_step; [apply keeps_lower, keeps_Authorize|].
  intros [e|[]] Hg; [by keeps_step| |keeps_step; [apply granted_remove|by intros; keeps_step]].
  keeps_step; [|intros _ _; keeps_step; intros _; by apply Hg].
  keeps_step. intros [m w] [Hm ?]. split; [apply map_Forall_insert_2; [by apply Hg|done]|done].
Qed.
Lemma keeps_ForceVerify ksa : keeps state_granted (ForceVerify useAuth ksa) (λ res, nonempty_granted ksa (curGSA res)).
Proof.
  unfold ForceVerify. keeps_step; [apply keeps_verify|]. intros [res err] Hres.
  keeps_step; [apply keeps_lower, keeps_quiet, done_spec|]. intros [] _; by keeps_step.
Qed.
Lemma keeps_VerifiedGSA ksa : keeps state_granted (VerifiedGSA useAuth ksa) (nonempty_granted ksa).
Proof.
  unfold VerifiedGSA. keeps_step. intros s [Hs _]. destruct (saMap_get ksa s.1) as [gsa|] eqn:Hg.
  - keeps_step. intros _. by apply (Hs ksa gsa).
  - keeps_step; [apply keeps_ForceVerify|]. intros res Hres. keeps_step. by destruct (denied res).
Qed.
Lemma keeps_verifyAll l m : all_granted m → keeps state_granted (verifyAll useAuth l m) all_granted.
Proof.
  revert m. induction l as [|[sa|] l IH]; intros m Hm; simpl; [by keeps_step| |by apply IH].
  keeps_step; [apply keeps_VerifiedGSA|]. intros [e|gsa] Hg; apply IH; [done|].
  case_bool_decide; [done|]. by apply map_Forall_insert_2; [apply Hg|].
Qed.
Lemma keeps_AllVerified : keeps state_granted (AllVerified useAuth) all_granted.
Proof.
  unfold AllVerified. keeps_step; [apply keeps_lower, keeps_read, sa_list_spec|].
  intros l _. apply keeps_verifyAll, map_Forall_empty.
Qed.

(** Notifications. *)
Lemma keeps_notify_node node : keeps world_granted (notifyNodeSyncer node) (λ _, True).
Proof.
  intros w Hw. unfold wp. destruct (notify_node_spec node w) as (w' & -> & H1 & H2 & _). simpl. split; [|done].
  unfold world_granted. by rewrite H1, H2.
Qed.
Lemma keeps_notify_cm : keeps world_granted notifyConfigmapHandler (λ _, True).
Proof.
  intros w Hw. unfold wp. destruct (notify_cm_spec w) as (w' & -> & H1 & H2 & _). simpl. split; [|done].
  unfold world_granted. by rewrite H1, H2.
Qed.
Lemma keeps_notifyAffectedNodes ksa : keeps world_granted (notifyAffectedNodes ksa) (λ _, True).
Proof.
  unfold notifyAffectedNodes. keeps_step; [apply keeps_read; intros w; apply pod_ksa_spec|]. intros [e|pods] _; [by keeps_step|].
  induction (elements _) as [|node l IH]; simpl; [by keeps_step|]. keeps_step; [apply keeps_notify_node|]. by intros.
Qed.

Lemma keeps_saHandler key : keeps state_granted (saHandler_process useAuth key) (λ _, True).
Proof.
  unfold saHandler_process. eapply (keeps_bind _ _ _ (λ _, True)); [by keeps_step|]. intros [namespace name] _.
  keeps_step; [apply keeps_ForceVerify|]. intros res _. destruct (denied res); [keeps_step|].
  case_bool_decide; [by keeps_step|]. keeps_step; [apply keeps_lower, keeps_notify_cm|].
  intros _ _. apply keeps_lower, keeps_notifyAffectedNodes.
Qed.
Lemma keeps_podHandler key : keeps state_granted (podHandler_process useAuth key) (λ _, True).
Proof.
  unfold podHandler_process. eapply (keeps_bind _ _ _ (λ _, True)).
  { apply keeps_lower. keeps_step; [apply keeps_read, pod_get_spec|]. intros [e|o] _; by keeps_step. }
  intros [[pod|]|] _; [|by keeps_step..]. keeps_step; [apply keeps_VerifiedGSA|]. intros [e|gsa] _; [keeps_step|].
  case_bool_decide; [by keeps_step|]. case_bool_decide; [by keeps_step|]. apply keeps_lower, keeps_notify_node.
Qed.
Lemma keeps_podGSAs node pods gsas :
  (∀ p, Some p ∈ pods → OnNode node p) → gsas_granted node (elements gsas) →
  keeps state_granted (podGSAs useAuth pods gsas) (λ gsas, gsas_granted node (elements gsas)).
Proof.
  revert gsas. induction pods as [|p pods IH]; intros gsas Hp Hg; simpl; [by keeps_step|].
  eapply keeps_bind; [apply (keeps_try _ _ (λ gsa, gsa ≠ EmptyString → ∃ pod, OnNode node pod ∧ granted (pod_ksa pod) gsa))|].
  { unfold gsaForPod. destruct p as [pod|]; [|keeps_step]. keeps_step; [apply keeps_VerifiedGSA|].
    intros [e|gsa] Hgsa; keeps_step. intros Hne. exists pod. split; [apply Hp; by left|by apply Hgsa]. }
  intros [e|gsa] Hgsa; (apply IH; [by intros q Hq; apply Hp; right|]); [done|].
  case_bool_decide; [done|]. unfold gsas_granted in *. rewrite Forall_forall in *.
  intros g [->%elem_of_singleton|?]%elem_of_elements%elem_of_union; [auto|]. by apply Hg, elem_of_elements.
Qed.
Lemma keeps_nodeGSAs_sync node zone gsas ng : gsas_granted node gsas → keeps world_granted (nodeGSAs_sync useAuth node zone gsas ng) (λ _, True).
Proof.
  intros Hg. unfold nodeGSAs_sync. keeps_step; [apply keeps_now|]. intros now _. destruct (_ && _); [by keeps_step|].
  keeps_step; [apply keeps_now|]. intros now' _. destruct (sentWithin _ _ _); [keeps_step|].
  keeps_step; [apply keeps_Sync; unfold gsas_granted, sort_Strings; by rewrite merge_sort_Permutation|]. intros _ _.
  keeps_step; [apply keeps_now|]. intros ? _. by keeps_step.
Qed.

(** The state of all handlers. *)
Definition system_granted (s : nodeMap * (saMap * W)) : Prop := state_granted s.2.
Lemma keeps_lower2 {A} (m : io (saMap * W) A) P : keeps state_granted m P → keeps system_granted (on_snd m) P.
Proof. by apply keeps_on_snd. Qed.

Lemma keeps_nodeHandler key : keeps system_granted (nodeHandler_process useAuth key) (λ _, True).
Proof.
  unfold nodeHandler_process. keeps_step; [apply keeps_lower2, keeps_lower, keeps_read, node_get_spec|].
  intros [[node|]|] _; [|keeps_step|by keeps_step]. case_bool_decide; [keeps_step|].
  eapply keeps_bind; [apply (keeps_try _ _ (λ pods, ∀ p, Some p ∈ pods → OnNode key p))|].
  { apply keeps_lower2, keeps_lower. intros w Hw. unfold wp. destruct (pod_node_spec key w) as [-> Hp].
    split; [done|]. intros pods Hr p. by apply Hp. }
  intros [e|pods] Hp; [keeps_step|]. keeps_step; [apply keeps_lower2, (keeps_podGSAs key); [done|constructor]|].
  intros gsas Hg. case_bool_decide; [by keeps_step|]. keeps_step. intros s _. keeps_step; [by keeps_step|]. intros _ _.
  keeps_step; [by apply keeps_lower2, keeps_lower, keeps_nodeGSAs_sync|]. intros ng _. by keeps_step.
Qed.

Lemma keeps_publish (m : gmap string string → io W unit) d :
  (∀ d w, wp (m d) (λ _ w', sent w' = sent w ∧ published w' = published w ++ [d] ∧ notes w' = notes w) w) →
  data_granted d → keeps world_granted (m d) (λ _, True).
Proof.
  intros Hm Hd w [Hs Hp]. eapply wp_mono, Hm. intros r w' (H1 & H2 & _). split; [|done].
  split; [by rewrite H1|]. rewrite H2. apply Forall_app. by repeat constructor.
Qed.
Lemma keeps_persist key : keeps state_granted (persist useAuth key) (λ _, True).
Proof.
  unfold persist. eapply (keeps_bind _ _ _ (λ _, True)); [by keeps_step|]. intros [namespace name] _.
  destruct (_ || _); [by keeps_step|]. eapply (keeps_bind _ _ _ (λ _, True)).
  { apply keeps_lower. keeps_step; [apply keeps_read, cm_get_spec|]. intros [e|o] _; by keeps_step. }
  intros o _. keeps_step; [apply keeps_AllVerified|]. intros v Hv. destruct o as [[cm|]|]; [|keeps_step|].
  - case_bool_decide; [apply keeps_lower; case_bool_decide; [apply keeps_quiet, cm_write_spec|by keeps_step]|].
    keeps_step; [apply keeps_lower, keeps_quiet, cm_write_spec|]. intros _ _.
    keeps_step; [apply keeps_lower, keeps_publish; [apply cm_update_spec|exists v; by rewrite lookup_insert_eq]|].
    intros [e|[]] _; [|by keeps_step]. keeps_step; [apply keeps_lower, keeps_quiet, cm_delete_spec|].
    intros [e'|[]] _; by keeps_step.
  - keeps_step; [apply keeps_lower, keeps_publish; [apply cm_create_spec|exists v; by rewrite lookup_singleton_eq]|].
    intros [e|[]] _; by keeps_step.
Qed.

(** ** Runs of the four handlers *)
Inductive wevent : Type := SAEvent (key : string) | PodEvent (key : string) | NodeEvent (key : string) | CMEvent (key : string).
Definition handle (e : wevent) : io (nodeMap * (saMap * W)) unit :=
  match e with
  | SAEvent key => on_snd (saHandler_process useAuth key)
  | PodEvent key => on_snd (podHandler_process useAuth key)
  | NodeEvent key => nodeHandler_process useAuth key
  | CMEvent key => on_snd (persist useAuth key)
  end.
Fixpoint handleAll (es : list wevent) (s : nodeMap * (saMap * W)) : nodeMap * (saMap * W) :=
  match es with [] => s | e :: es => handleAll es (handle e s).2 end.

Lemma keeps_handle e : keeps system_granted (handle e) (λ _, True).
Proof.
  destruct e; simpl; [apply keeps_lower2, keeps_saHandler|apply keeps_lower2, keeps_podHandler|apply keeps_nodeHandler|apply keeps_lower2, keeps_persist].
Qed.
Lemma handleAll_granted es s : system_granted s → system_granted (handleAll es s).
Proof. revert s. induction es as [|e es IH]; intros s Hs; [done|]. apply IH. by destruct (keeps_handle e s Hs). Qed.

(** C15: whatever events arrive and whatever the Auth service, the indexes and
    the API server answer, starting with nothing verified and nothing sent: every
    pair that is remembered was granted by the Auth service, a node is sent only
    accounts granted to a pod the index listed on it, and the config map is
    written only with granted pairs. *)
Theorem only_granted_pairs (w : W) (es : list wevent) :
  sent w = [] → published w = [] →
  let '(_, (m, w')) := handleAll es (∅, (∅, w)) in
  map_Forall (λ ksa gsa, Granted (mkMapping (sa_Namespace ksa) (sa_Name ksa) gsa)) m ∧
  Forall (request_granted ∘ snd) (sent w') ∧ Forall data_granted (published w').
Proof.
  intros Hs Hp. assert (system_granted (∅, (∅, w))) as Hi.
  { split; [apply map_Forall_empty|]. unfold world_granted. simpl. by rewrite Hs, Hp. }
  apply (handleAll_granted es) in Hi. by destruct (handleAll es _) as [nm [m w']].
Qed.

(** ** Service account events *)
Definition verdict_of (ksa : ServiceAccount) (w : W) : verdict :=
  match getGSA ksa w with
  | (Ret (gsa, true), w1) =>
      if bool_decide (gsa = EmptyString) then NoAccount
      else match (auth_Authorize useAuth (sa_Namespace ksa) (sa_Name ksa) gsa w1).1 with
           | Ret true => Permitted gsa | Ret false => Denied | _ => Failed
           end
  | (Ret (_, false), _) => NoAccount
  | _ => Failed
  end.
Definition verdict_gsa (v : verdict) : string := match v with Permitted gsa => gsa | _ => EmptyString end.
Definition verdict_map (v : verdict) (ksa : ServiceAccount) (m : saMap) : saMap :=
  match v with Permitted gsa => <[ ksa := gsa ]> m | Failed => m | _ => delete ksa m end.

Lemma call_notes req w : wp (auth_call req) (λ r w', notes w' = notes w ∧ r ≠ Panic ∧ r ≠ Ret Panic) w.
Proof.
  unfold auth_call. do 2 wp_step. eapply wp_mono, post_spec. intros [[st body]|e|] w' (_ & _ & Hn & _ & Hr & Hb & _); [|wp_step; by rewrite Hn|done].
  destruct (isErrorHTTPStatus st); wp_step; split_and!; try done. intros [= ->]. by destruct (Hb st).
Qed.
Lemma Authorize_notes kns ksa gsa w : wp (auth_Authorize useAuth kns ksa gsa) (λ r w', notes w' = notes w ∧ r ≠ Panic) w.
Proof.
  unfold auth_Authorize. wp_step. eapply wp_mono, call_notes. intros [[rsp|e|]|e|] w' (Hn & ? & ?); try done.
  wp_step; wp_step. case_bool_decide; [by wp_step|]. case_bool_decide; by wp_step.
Qed.
Lemma getGSA_reads ksa w : (getGSA ksa w).2 = w ∧ (getGSA ksa w).1 ≠ Panic.
Proof.
  unfold getGSA. destruct (sa_get_spec (sa_Key ksa) w) as [Hw Hp]. rewrite io_bind_eq. unfold try.
  rewrite io_bind_eq. destruct (saIndexer_GetByKey (sa_Key ksa) w) as [[[[sa|]|]|e|] w1]; simpl in *; by subst.
Qed.

Lemma verify_effect ksa m w : ∃ w' err,
  verify useAuth ksa (m, w) =
    (Ret (mkResult (default EmptyString (m !! ksa)) (verdict_gsa (verdict_of ksa w)) (bool_decide (verdict_of ksa w = Denied)), err),
     (verdict_map (verdict_of ksa w) ksa m, w')) ∧ notes w' = notes w.
Proof.
  unfold verify, verdict_of. rewrite io_bind_eq. cbn [ask fst snd]. rewrite io_bind_eq. unfold try at 1, on_snd at 1. cbn [fst snd].
  destruct (getGSA_reads ksa w) as [Hw Hp]. destruct (getGSA ksa w) as [[[gsa ex]|e|] w1]; simpl in Hw, Hp; subst w1; [|by eexists _, _|done].
  destruct ex; [|by eexists _, _]. cbn [negb orb]. case_bool_decide; [by eexists _, _|].
  rewrite io_bind_eq. unfold try, on_snd. cbn [fst snd].
  destruct (Authorize_notes (sa_Namespace ksa) (sa_Name ksa) gsa w) as [Hn Hr].
  destruct (auth_Authorize _ _ _ _ w) as [[[]|e|] w1]; simpl in Hn, Hr; [by eexists _, _..|done].
Qed.

Lemma ForceVerify_effect ksa m w : (∀ w, ctx_Done w = (Ret false, w)) → ∃ w',
  ForceVerify useAuth ksa (m, w) =
    (Ret (mkResult (default EmptyString (m !! ksa)) (verdict_gsa (verdict_of ksa w)) (bool_decide (verdict_of ksa w = Denied))),
     (verdict_map (verdict_of ksa w) ksa m, w')) ∧ notes w' = notes w.
Proof.
  intros Hctx. destruct (verify_effect ksa m w) as (w' & err & Hv & Hn). exists w'. split; [|done].
  unfold ForceVerify. rewrite io_bind_eq, Hv, io_bind_eq. unfold on_snd. cbn [fst snd]. by rewrite Hctx.
Qed.

Lemma Split_Key ksa : has_char slash (sa_Namespace ksa) = false → has_char slash (sa_Name ksa) = false →
  SplitMetaNamespaceKey (sa_Key ksa) = Ret (sa_Namespace ksa, sa_Name ksa).
Proof.
  intros Hn Ha. unfold SplitMetaNamespaceKey, sa_Key. change ("/" +:+ sa_Name ksa)%string with (String slash (sa_Name ksa)).
  by rewrite split_on_app, split_on_none.
Qed.

Lemma elem_of_affectedNodes ksa pods node :
  node ∈ affectedNodes ksa pods ↔ ∃ pod, Some pod ∈ pods ∧ pod_ksa pod = ksa ∧ wp_NodeName pod = node.
Proof.
  unfold affectedNodes. rewrite elem_of_list_to_set, list_elem_of_omap. split.
  - intros ([pod|] & Hp & Ho); [|done]. exists pod. repeat case_bool_decide; try done. simpl in Ho. destruct ksa. by naive_solver.
  - intros (pod & Hp & <- & <-). exists (Some pod). split; [done|]. by rewrite !bool_decide_eq_false_2 by (simpl; auto).
Qed.

Lemma notifyAffectedNodes_effect ksa w : ∃ w' (nodes : gset string),
  notifyAffectedNodes ksa w = (Ret tt, w') ∧ notes w' = notes w ++ (NodeNote <$> elements nodes) ∧
  ∀ node, node ∈ nodes ↔ ∃ pods pod, (podIndexer_ByKSA (sa_Key ksa) w).1 = Ret pods ∧
    Some pod ∈ pods ∧ pod_ksa pod = ksa ∧ wp_NodeName pod = node.
Proof.
  unfold notifyAffectedNodes. destruct (pod_ksa_spec (sa_Key ksa) w) as [Hw Hp]. rewrite io_bind_eq. unfold try.
  destruct (podIndexer_ByKSA (sa_Key ksa) w) as [[pods|e|] w1]; simpl in Hw, Hp; subst; [|exists w, ∅|done].
  - enough (∀ l w, ∃ w', foldr (λ node m, _ ← notifyNodeSyncer node; m) (mret tt) l w = (Ret tt, w') ∧ notes w' = notes w ++ (NodeNote <$> l)) as Hl.
    { destruct (Hl (elements (affectedNodes ksa pods)) w) as (w' & ? & ?). exists w', (affectedNodes ksa pods). split_and!; [done..|].
      intros node. rewrite elem_of_affectedNodes. naive_solver. }
    clear. induction l as [|node l IH]; intros w; simpl; [exists w; by rewrite app_nil_r|].
    destruct (notify_node_spec node w) as (w1 & Hw1 & _ & _ & Hn). rewrite io_bind_eq, Hw1.
    destruct (IH w1) as (w2 & -> & Hn2). exists w2. split; [done|]. by rewrite Hn2, Hn, <-app_assoc.
  - split_and!; [done|by rewrite app_nil_r|]. intros node. split; [by set_solver|naive_solver].
Qed.

(** C23: one turn of a service account worker, on each outcome of the
    verification.  A permitted pair replaces the one that was remembered, a
    missing annotation and a denial remove it, an error keeps it.  Only a denial
    is queued again: the event of a verification that failed is forgotten as a
    success.  When the account differs from the remembered one (after an error:
    when one was remembered) the config map handler and exactly the nodes of the
    pods that use the service account are notified; after a denial nobody is,
    although the pair is gone. *)
Theorem sa_event_effect (ksa : ServiceAccount) (q q1 : workqueue) (m : saMap) (w : W) :
  has_char slash (sa_Namespace ksa) = false → has_char slash (sa_Name ksa) = false →
  (∀ w, ctx_Done w = (Ret false, w)) → q_Get q = Item (sa_Key ksa) q1 →
  let key := sa_Key ksa in
  let v := verdict_of ksa w in
  ∃ w' w2 (nodes : gset string),
    processNext (saHandler_process useAuth) (q, (m, w)) =
      (Ret (Some true), (q_Done key (if decide (v = Denied) then q_AddRateLimited key q1 else q_Forget key q1),
                         (verdict_map v ksa m, w'))) ∧
    notes w' = notes w ++ (if decide (v = Denied ∨ verdict_gsa v = default EmptyString (m !! ksa)) then []
                           else ConfigmapNote :: (NodeNote <$> elements nodes)) ∧
    ∀ node, node ∈ nodes ↔ ∃ pods pod, (podIndexer_ByKSA key w2).1 = Ret pods ∧
      Some pod ∈ pods ∧ pod_ksa pod = ksa ∧ wp_NodeName pod = node.
Proof.
  intros Hns Hna Hctx Hq key v. destruct (ForceVerify_effect ksa m w Hctx) as (w1 & Hv & Hn1). fold v in Hv.
  destruct (notify_cm_spec w1) as (w2 & Hcm & _ & _ & Hn2). destruct (notifyAffectedNodes_effect ksa w2) as (w3 & nodes & Hna' & Hn3 & Hnodes).
  exists (if decide (v = Denied ∨ verdict_gsa v = default EmptyString (m !! ksa)) then w1 else w3), w2, nodes.
  assert (saHandler_process useAuth key (m, w) =
    (if decide (v = Denied) then Err (Errorf "retry denied error as IAM propagation can take 7 minutes or longer") else Ret tt,
     (verdict_map v ksa m, if decide (v = Denied ∨ verdict_gsa v = default EmptyString (m !! ksa)) then w1 else w3))) as Hp.
  { unfold saHandler_process. rewrite io_bind_eq. unfold key. rewrite Split_Key by done. cbn [lift]. rewrite io_bind_eq.
    destruct ksa as [ns na]. cbn [sa_Namespace sa_Name]. rewrite Hv. cbn [denied curGSA preVerifiedGSA].
    repeat case_bool_decide; repeat case_decide; try done; try tauto.
    rewrite io_bind_eq. unfold on_snd. cbn [fst snd]. rewrite Hcm. cbn [fst snd]. by rewrite Hna'. }
  split_and!; [|destruct (decide (v = Denied ∨ _))|done].
  - unfold processNext. rewrite Hq. unfold defer. rewrite io_bind_eq. unfold try, on_snd. cbn [fst snd]. fold key. rewrite Hp.
    by destruct (decide (v = Denied)).
  - by rewrite app_nil_r.
  - by rewrite Hn3, Hn2, Hn1, <-app_assoc.
Qed.

(** ** How often a node is synchronised *)
Definition sync_step (node : string) (a : string * list string) (s : nodeGSAs * W) : nodeGSAs * W :=
  match nodeGSAs_sync useAuth node a.1 a.2 s.1 s.2 with (Ret ng, w) => (ng, w) | (_, w) => (s.1, w) end.
Definition sync_request (node zone : string) (gsas : list string) : authRequest :=
  if useAuth then syncNodeRequest zone node gsas else hmsSyncNodeRequest node gsas zone.

Lemma sentWithin_mono now now' ng d : now ≤ now' → sentWithin now' ng d = true → sentWithin now ng d = true.
Proof. unfold sentWithin. destruct (lastSent ng); [|done]. rewrite !Z.ltb_lt. lia. Qed.

Lemma sentWithin_longer now ng : sentWithin now ng (10 * second) = true → sentWithin now ng eventHandlerResyncPeriod = true.
Proof. unfold sentWithin. destruct (lastSent ng); [|done]. unfold eventHandlerResyncPeriod, second. rewrite !Z.ltb_lt. lia. Qed.

(** The time to wait before an attempt may send. *)
Definition quietPeriod (ng : nodeGSAs) (gsas : list string) : Z :=
  if decide (lastGSAs ng = sort_Strings gsas) then eventHandlerResyncPeriod else 10 * second.

Lemma Sync_sends node zone gsas w : wp (auth_Sync useAuth node zone gsas) (λ _ w',
  sent w' = sent w ++ [(clock w, sync_request node zone (sort_Strings gsas))] ∧ clock w ≤ clock w') w.
Proof.
  unfold auth_Sync, auth_call. do 3 wp_step. unfold sync_request. eapply wp_mono; [|apply post_spec].
  intros [[st body]|e|] w' (Hs & _ & _ & Hc & _); [destruct (isErrorHTTPStatus st)|..]; wp_steps; rewrite Hs; by destruct useAuth.
Qed.

(** One attempt: it sends exactly when the quiet period of its list is over. *)
Lemma sync_step_cases node zone gsas ng w : let '(ng', w') := sync_step node (zone, gsas) (ng, w) in
  clock w ≤ clock w' ∧
  ((sentWithin (clock w) ng (quietPeriod ng gsas) = true ∧ ng' = ng ∧ sent w' = sent w) ∨
   ∃ now, clock w ≤ now ≤ clock w' ∧ sentWithin now ng (10 * second) = false ∧ sentWithin (clock w') ng (quietPeriod ng gsas) = false ∧
     sent w' = sent w ++ [(now, sync_request node zone (sort_Strings (sort_Strings gsas)))] ∧
     (ng' = ng ∨ ∃ t, now ≤ t ≤ clock w' ∧ ng' = mkNodeGSAs (sort_Strings gsas) (Some t))).
Proof.
  unfold sync_step, nodeGSAs_sync. cbn [fst snd]. rewrite io_bind_eq. destruct (now_spec w) as (w1 & -> & Hc1 & [= Hs1 _ _]).
  destruct (bool_decide _ && _) eqn:Hsame.
  { apply andb_true_iff in Hsame as [Heq%bool_decide_eq_true Hw]. split; [done|]. left. split_and!; [|done..].
    unfold quietPeriod. rewrite decide_True by done. by eapply sentWithin_mono. }
  rewrite io_bind_eq. destruct (now_spec w1) as (w2 & -> & Hc2 & [= Hs2 _ _]). rewrite <-Hs1, <-Hs2.
  destruct (sentWithin (clock w2) ng (10 * second)) eqn:H10.
  { split; [lia|]. left. split_and!; [|done..]. apply (sentWithin_mono _ (clock w2)); [lia|]. unfold quietPeriod. case_decide; [|done].
    by eapply sentWithin_longer. }
  assert (∀ t, clock w2 ≤ t → sentWithin t ng (quietPeriod ng gsas) = false) as Hover.
  { intros t Ht. apply not_true_iff_false. intros Hq%(sentWithin_mono (clock w2)); [|done]. unfold quietPeriod in Hq.
    case_decide; [|congruence]. apply (sentWithin_mono (clock w1)) in Hq; [|done]. by rewrite bool_decide_eq_true_2, Hq in Hsame. }
  rewrite io_bind_eq. destruct (Sync_sends node zone (sort_Strings gsas) w2) as [Hs3 Hc3].
  destruct (auth_Sync _ _ _ _ w2) as [[[]|e|] w3]; cbn [fst snd] in Hs3, Hc3.
  - rewrite io_bind_eq. destruct (now_spec w3) as (w4 & -> & Hc4 & [= Hs4 _ _]). cbn. split; [lia|]. right. exists (clock w2).
    rewrite Hs4, Hs3. split_and!; [lia..|done|apply Hover; lia|done|]. right. exists (clock w4). split; [lia|done].
  - split; [lia|]. right. exists (clock w2). split_and!; [lia..|done|apply Hover; lia|done|by left].
  - split; [lia|]. right. exists (clock w2). split_and!; [lia..|done|apply Hover; lia|done|by left].
Qed.

(** After a list of accounts was sent for a node, any number of attempts,
    whatever they ask for, send nothing and change nothing until ten seconds have
    passed, and until thirty minutes have passed when they ask for the same
    accounts; an attempt after that time sends one request with exactly the
    accounts of the node, and remembers them only if the service took them. *)
Theorem node_sync_rate (node : string) (ng : nodeGSAs) (w : W) :
  (∀ attempts, let s' := foldl (λ s a, sync_step node a s) (ng, w) attempts in
     Forall (λ a, sentWithin (clock s'.2) ng (quietPeriod ng a.2) = true) attempts → sent s'.2 = sent w ∧ s'.1 = ng) ∧
  (∀ zone gsas, sentWithin (clock w) ng (quietPeriod ng gsas) = false →
     let '(ng', w') := sync_step node (zone, gsas) (ng, w) in
     ∃ now l, l ≡ₚ gsas ∧ sent w' = sent w ++ [(now, sync_request node zone l)] ∧
       (ng' = ng ∨ lastGSAs ng' ≡ₚ gsas ∧ ∃ t, lastSent ng' = Some t ∧ now ≤ t)).
Proof.
  split.
  - intros attempts. cbv zeta. induction attempts as [|[zone gsas] attempts IH] using rev_ind; [done|].
    rewrite foldl_snoc. destruct (foldl _ _ attempts) as [ng1 w1]. pose proof (sync_step_cases node zone gsas ng1 w1) as Hstep.
    destruct (sync_step node (zone, gsas) (ng1, w1)) as [ng2 w2]. destruct Hstep as [Hc Hstep]. intros [Hl Hlast]%Forall_app.
    apply Forall_inv in Hlast. cbn [fst snd] in *. destruct IH as [Hs ->].
    { eapply Forall_impl; [exact Hl|]. intros a. by apply sentWithin_mono. }
    destruct Hstep as [(_ & -> & ->)|(now & _ & _ & Hover & _)]; [done|]. cbn [snd] in Hlast. congruence.
  - intros zone gsas Hover. pose proof (sync_step_cases node zone gsas ng w) as Hstep.
    destruct (sync_step node (zone, gsas) (ng, w)) as [ng' w']. destruct Hstep as [_ [[Hq _]|(now & _ & _ & _ & Hs & Hng)]]; [congruence|].
    exists now, (sort_Strings (sort_Strings gsas)). split_and!; [by rewrite !sort_Strings_perm|done|].
    destruct Hng as [->|(t & Ht & ->)]; [by left|]. right. simpl. split; [apply sort_Strings_perm|]. exists t. split; [done|lia].
Qed.
End workload.

(** ** Runs: an Auth service and a cluster in memory

    The services of [WorkloadId] as functions of a record: the Auth service
    permits a fixed list of mappings, the indexes look into lists, the config map
    is in the cluster.  The theorems of [WorkloadIdProps] are applied to runs in
    it. *)

Record fakeWorkload : Type := mkFakeWorkload {
  fw_clock : Z; fw_sent : list (Z * authRequest); fw_published : list (gmap string string); fw_notes : list note;
  fw_accounts : list SAObject; fw_pods : list wiPod; fw_nodes : gmap string Node; fw_configMap : option wiConfigMap;
  fw_authDown : bool
}.
Definition fw_set_sent (l : list (Z * authRequest)) (w : fakeWorkload) : fakeWorkload :=
  mkFakeWorkload (fw_clock w) l (fw_published w) (fw_notes w) (fw_accounts w) (fw_pods w) (fw_nodes w) (fw_configMap w) (fw_authDown w).
Definition fw_set_map (l : list (gmap string string)) (cm : option wiConfigMap) (w : fakeWorkload) : fakeWorkload :=
  mkFakeWorkload (fw_clock w) (fw_sent w) l (fw_notes w) (fw_accounts w) (fw_pods w) (fw_nodes w) cm (fw_authDown w).
Definition fw_note (n : note) (w : fakeWorkload) : fakeWorkload :=
  mkFakeWorkload (fw_clock w) (fw_sent w) (fw_published w) (fw_notes w ++ [n]) (fw_accounts w) (fw_pods w) (fw_nodes w) (fw_configMap w) (fw_authDown w).
Definition fw_tick (w : fakeWorkload) : fakeWorkload :=
  mkFakeWorkload (fw_clock w + 1) (fw_sent w) (fw_published w) (fw_notes w) (fw_accounts w) (fw_pods w) (fw_nodes w) (fw_configMap w) (fw_authDown w).

(** The mappings the service permits. *)
Definition grants : list serviceAccountMapping := [mkMapping "shop" "cart" "cart@p"; mkMapping "shop" "pay" "pay@p"].
Definition answer (req : authRequest) : authorizeSAMappingResponse :=
  match req with
  | authorizeSAMappingRequest l | hmsAuthorizeSAMappingRequest l => mkResponse (filter (.∉ grants) l) (filter (.∈ grants) l)
  | _ => mkResponse [] []
  end.

Definition fw_post (req : authRequest) : io fakeWorkload (Z * outcome authorizeSAMappingResponse) := λ w,
  let w' := fw_set_sent (fw_sent w ++ [(fw_clock w, req)]) w in
  if fw_authDown w then (Ret (503, Ret (mkResponse [] [])), w') else (Ret (200, Ret (answer req)), w').
Definition so_key (sa : SAObject) : string := sa_Key (mkSA (so_Namespace sa) (so_Name sa)).

#[global] Instance fake_workload : Workload fakeWorkload := {
  RestClient_Post := fw_post;
  ctx_Done w := (Ret false, w);
  time_Now w := (Ret (fw_clock (fw_tick w)), fw_tick w);
  saIndexer_GetByKey key w := (Ret (Some <$> List.find (λ sa, bool_decide (so_key sa = key)) (fw_accounts w)), w);
  saIndexer_List w := (Ret (Some <$> fw_accounts w), w);
  podIndexer_GetByKey key w := (Ret (Some <$> List.find (λ p, bool_decide (wp_Namespace p +:+ "/" +:+ wp_Name p = key)%string) (fw_pods w)), w);
  podIndexer_ByKSA key w := (Ret (Some <$> filter (λ p, sa_Key (pod_ksa p) = key) (fw_pods w)), w);
  podIndexer_ByNode node w := (Ret (Some <$> filter (λ p, wp_NodeName p = node) (fw_pods w)), w);
  nodeIndexer_GetByKey key w := (Ret (Some <$> fw_nodes w !! key), w);
  cmIndexer_GetByKey _ w := (Ret (Some <$> fw_configMap w), w);
  cm_write _ d w := (Ret tt, fw_set_map (fw_published w) (Some (mkWiConfigMap (Some d))) w);
  ConfigMaps_Create d w := (Ret tt, fw_set_map (fw_published w ++ [d]) (Some (mkWiConfigMap (Some d))) w);
  ConfigMaps_Update d w := (Ret tt, fw_set_map (fw_published w ++ [d]) (Some (mkWiConfigMap (Some d))) w);
  ConfigMaps_Delete _ w := (Ret tt, fw_set_map (fw_published w) None w);
  notifyConfigmapHandler w := (Ret tt, fw_note ConfigmapNote w);
  notifyNodeSyncer node w := (Ret tt, fw_note (NodeNote node) w)
}.

Lemma answer_granted req m : m ∈ PermittedMappings (answer req) → m ∈ grants.
Proof. destruct req as [l|l| |]; simpl; [intros [? _]%list_elem_of_filter; done..|by intros ?%elem_of_nil|by intros ?%elem_of_nil]. Qed.

#[global] Program Instance fake_workload_world : WorkloadWorld fakeWorkload := {
  clock := fw_clock; sent := fw_sent; published := fw_published; notes := fw_notes;
  Granted m := m ∈ grants; OnNode node p := wp_NodeName p = node
}.
Next Obligation.
  intros req w. unfold wp, RestClient_Post, fake_workload, fw_post. destruct (fw_authDown w); simpl; split_and!; try done.
  - intros st rsp m [= _ <-]. by intros ?%elem_of_nil.
  - intros st rsp m [= _ <-]. apply answer_granted.
Qed.
Next Obligation. intros w. exists (fw_tick w). simpl. split_and!; [done|lia|done]. Qed.
Next Obligation. by intros w. Qed.
Next Obligation. done. Qed.
Next Obligation. done. Qed.
Next Obligation. done. Qed.
Next Obligation. done. Qed.
Next Obligation.
  intros node w. split; [done|]. intros pods p [= <-] (q & [= <-] & Hq)%list_elem_of_fmap. by apply list_elem_of_filter in Hq as [??].
Qed.
Next Obligation. done. Qed.
Next Obligation. done. Qed.
Next Obligation. by intros key d w. Qed.
Next Obligation. done. Qed.
Next Obligation. done. Qed.
Next Obligation. by intros name w. Qed.
Next Obligation. intros w. by eexists. Qed.
Next Obligation. intros node w. by eexists. Qed.

(** ** Runs *)
Definition account (name gsa : string) : SAObject := mkSAObject "shop" name {[ serviceAccountAnnotationGSAEmail := gsa ]}.
Definition n1 : Node := mkNode "n1" "n1" ∅ {[ LabelTopologyZone := "us-z1"%string ]} (mkSpec EmptyString [] EmptyString []) (mkStatus ∅ []).
Definition shop : fakeWorkload :=
  mkFakeWorkload 0 [] [] [] [account "cart" "cart@p"; account "rogue" "pay@p"]
    [mkWiPod "shop" "p1" "cart" "n1"; mkWiPod "shop" "p2" "rogue" "n1"] {[ "n1"%string := n1 ]} None false.
Definition shop_events : list wevent := [SAEvent "shop/cart"; SAEvent "shop/rogue"; PodEvent "shop/p1"; NodeEvent "n1"; CMEvent "kube-system/verified-ksa-to-gsa"].

Definition shop_run : nodeMap * (saMap * fakeWorkload) := handleAll true shop_events (∅, (∅, shop)).

(** The run remembers one pair, sends it to the node and publishes it; the
    account the other pod asks for is refused. *)
Lemma only_granted_pairs_witness :
  (map_to_list shop_run.2.1 = [(mkSA "shop" "cart", "cart@p"%string)] ∧
   List.last (fw_sent shop_run.2.2) (0, authorizeSAMappingRequest []) = (3, authorizeSAMappingRequest [mkMapping "shop" "rogue" "pay@p"]) ∧
   nth 3 (fw_sent shop_run.2.2) (0, authorizeSAMappingRequest []) = (2, syncNodeRequest "us-z1" "n1" ["cart@p"%string]) ∧
   fw_published shop_run.2.2 = [{[ verifiedSAConfigMapKey := serialize {[ mkSA "shop" "cart" := "cart@p"%string ]} ]}]) ∧
  let '(_, (m, w')) := shop_run in
  map_Forall (λ ksa gsa, Granted (mkMapping (sa_Namespace ksa) (sa_Name ksa) gsa)) m ∧
  Forall (request_granted ∘ snd) (sent w') ∧ Forall data_granted (published w').
Proof. split; [by_eval|]. exact (only_granted_pairs true shop shop_events eq_refl eq_refl). Defined.

(** The Auth service answers with an error: the pair is kept, the event is
    forgotten, and the nodes are notified of a change that is none. *)
Definition shop_down : fakeWorkload :=
  mkFakeWorkload 0 [] [] [] (fw_accounts shop) (fw_pods shop) (fw_nodes shop) None true.
Definition cart : ServiceAccount := mkSA "shop" "cart".
Definition cart_queue : workqueue := q_Add (sa_Key cart) newQueue.
Definition cart_taken : workqueue := match q_Get cart_queue with Item _ q => q | _ => cart_queue end.
Definition cart_known : saMap := {[ cart := "cart@p"%string ]}.

Lemma sa_event_effect_witness :
  verdict_of true cart shop_down = Failed ∧
  let key := sa_Key cart in
  let v := verdict_of true cart shop_down in
  ∃ w' w2 (nodes : gset string),
    processNext (saHandler_process true) (cart_queue, (cart_known, shop_down)) =
      (Ret (Some true), (q_Done key (if decide (v = Denied) then q_AddRateLimited key cart_taken else q_Forget key cart_taken),
                         (verdict_map v cart cart_known, w'))) ∧
    notes w' = notes shop_down ++ (if decide (v = Denied ∨ verdict_gsa v = default EmptyString (cart_known !! cart)) then []
                           else ConfigmapNote :: (NodeNote <$> elements nodes)) ∧
    ∀ node, node ∈ nodes ↔ ∃ pods pod, (podIndexer_ByKSA key w2).1 = Ret pods ∧
      Some pod ∈ pods ∧ pod_ksa pod = cart ∧ wp_NodeName pod = node.
Proof.
  split; [by vm_compute|].
  assert (q_Get cart_queue = Item (sa_Key cart) cart_taken) as Hq by (vm_compute; reflexivity).
  exact (sa_event_effect true cart cart_queue cart_taken cart_known shop_down eq_refl eq_refl (λ w, eq_refl) Hq).
Defined.

(** Three attempts within ten seconds of a successful one; and one that is due. *)
Definition sent_before : nodeGSAs := mkNodeGSAs ["cart@p"%string] (Some 0).
Lemma node_sync_rate_witness :
  (let s' := foldl (λ s a, sync_step true "n1" a s) (sent_before, shop) [("us-z1", ["cart@p"]); ("us-z1", ["pay@p"; "cart@p"]); ("us-z1", ["cart@p"])]%string in
   sent s'.2 = sent shop ∧ s'.1 = sent_before) ∧
  (let '(ng', w') := sync_step true "n1" ("us-z1", ["pay@p"; "cart@p"])%string (mkNodeGSAs [] None, shop) in
   ∃ now l, l ≡ₚ ["pay@p"; "cart@p"]%string ∧ sent w' = sent shop ++ [(now, sync_request true "n1" "us-z1" l)] ∧
     (ng' = mkNodeGSAs [] None ∨ lastGSAs ng' ≡ₚ ["pay@p"; "cart@p"]%string ∧ ∃ t, lastSent ng' = Some t ∧ now ≤ t)).
Proof.
  split.
  - apply (proj1 (node_sync_rate true "n1" sent_before shop) [("us-z1", ["cart@p"]); ("us-z1", ["pay@p"; "cart@p"]); ("us-z1", ["cart@p"])]%string).
    by_eval.
  - by apply (proj2 (node_sync_rate true "n1" (mkNodeGSAs [] None) shop) "us-z1"%string ["pay@p"; "cart@p"]%string).
Defined.
