(* ===== verification/NodeInstances.v ===== *)
(** * NodeInstances: the instances behind nodes

    The rest of [gce_instances.go] and [gce_zones.go]: the interfaces [Instances],
    [InstancesV2] and [Zones] that the node controllers call (addresses, provider
    IDs, existence, type, zone), over the compute API and the metadata server, and
    the zones that have nodes, which the informer handlers of [gce.go] maintain. *)

From S2P Require Import Prelude Bits GoNet GoNetText GoStrings NetUtils K8s GceInstances NodeIpamConfig AddressManager LoadBalancer GceHosts.
Local Open Scope Z_scope.

(** ** Objects *)

(** An interface with the NAT addresses of its access configs. *)
Record accessNic : Type := mkAccessNic { an_nic : NetworkInterface; an_NatIPs : list string }.
Record computeInstance : Type := mkComputeInstance {
  ci_Name : string; ci_Zone : string; ci_ID : Z; ci_MachineType : string; ci_Disks : list string; ci_Interfaces : list accessNic
}.
Inductive NodeAddressType : Type := NodeInternalIP | NodeExternalIP | NodeInternalDNS | NodeHostName.
Record NodeAddress : Type := mkNodeAddress { na_Type : NodeAddressType; na_Address : string }.
#[global] Instance NodeAddressType_eq_dec : EqDecision NodeAddressType. Proof. solve_decision. Defined.
#[global] Instance NodeAddress_eq_dec : EqDecision NodeAddress. Proof. solve_decision. Defined.
Record InstanceMetadata_ : Type := mkInstanceMetadata {
  im_ProviderID : string; im_InstanceType : string; im_NodeAddresses : list NodeAddress; im_Zone : string; im_Region : string
}.
(** [cloudprovider.Zone] *)
Record Zone : Type := mkZone { FailureDomain : string; zone_Region : string }.
(** An item of the project's metadata; [Value] is a pointer. *)
Record MetadataItem : Type := mkItem { item_Key : string; item_Value : option string }.

(** The compute API, keyed by zone and name, and the metadata server. *)
Class InstancesAPI (W : Type) : Type := {
  Instances_GetFull : string → string → io W computeInstance;
  Instances_Insert : string → string → computeInstance → io W unit;
  Instances_Delete : string → string → io W unit;
  Projects_GetMetadata : string → io W (list MetadataItem);
  Projects_SetMetadata : string → list MetadataItem → io W unit
}.
Class MetadataServer (W : Type) : Type := {
  metadata_Get : string → io W string;
  metadata_ProjectID : io W string
}.

(** The fields of the cloud this file reads besides [gceConfig]. *)
Record nodeConfig : Type := mkNodeConfig { nc_stackType : string; nc_localZone : string; nc_useMetadataServer : bool }.
Definition clusterStackIPV6 : string := "IPV6".
Definition NotImplemented : error := ErrSentinel "unimplemented".

Definition GetGCERegion (zone : string) : outcome string :=
  match cut_last (chr 45) zone with Some (region, _) => Ret region | None => Err (Errorf "unexpected zone: %s") end.
Definition mapNodeNameToInstanceName (nodeName : string) : string := nodeName.

(** ** Addresses *)
Definition parsedIP (a : NodeAddress) : list Z := ParseIP (na_Address a).
Definition isIPv6 (ip : list Z) : bool := bool_decide (IPFamilyOf ip = IPv6).

Definition orderAddresses (stackType : string) (addresses : list NodeAddress) : list NodeAddress :=
  let preferIPv6 := bool_decide (stackType = clusterStackIPV6) in
  filter (λ a, parsedIP a = [] ∨ isIPv6 (parsedIP a) = preferIPv6) addresses ++
  filter (λ a, parsedIP a ≠ [] ∧ isIPv6 (parsedIP a) ≠ preferIPv6) addresses.

Definition interfaceAddresses (nic : accessNic) : list NodeAddress :=
  (if bool_decide (NetworkIP (an_nic nic) ≠ EmptyString) then [mkNodeAddress NodeInternalIP (NetworkIP (an_nic nic))] else []) ++
  (mkNodeAddress NodeExternalIP <$> an_NatIPs nic) ++
  (let ipv6Addr := getIPV6AddressFromInterface (an_nic nic) in
   if bool_decide (ipv6Addr ≠ EmptyString) then [mkNodeAddress NodeInternalIP ipv6Addr] else []).

Definition nodeAddressesFromInstance (stackType : string) (inst : computeInstance) : outcome (list NodeAddress) :=
  match ci_Interfaces inst with
  | [] => Err (Errorf "could not find network interfaces for instanceID %q")
  | nics => Ret (orderAddresses stackType (nics ≫= interfaceAddresses))
  end.

(** [v, err := m()] with the error formatted, its cause dropped. *)
Definition formatted {W A} (fmt : string) (m : io W A) : io W A :=
  r ← try m; match r with inl _ => fail (Errorf fmt) | inr a => mret a end.

(** The names of the nodes of each zone: a nil set is the empty one. *)
Abbreviation nodeZones := (gmap string (gset string)).

Section instances.
Context {W : Type} `{InstancesAPI W} `{MetadataServer W}.
Variable g : gceConfig.
Variable nc : nodeConfig.

(** ** The metadata server *)
Definition getInstanceIDViaMetadata : io W string :=
  result ← metadata_Get "instance/hostname";
  match split_on dot result with [] => fail (Errorf "unexpected response: %s") | part :: _ => mret part end.

Definition getCurrentMachineTypeViaMetadata : io W string :=
  mType ← formatted "couldn't get machine type: %v" (metadata_Get "instance/machine-type");
  match split_on slash mType with [_; _; _; t] => mret t | _ => fail (Errorf "unexpected response for machine type: %s") end.

Definition getProjectAndZone : io W (string * string) :=
  result ← metadata_Get "instance/zone";
  match split_on slash result with
  | [_; _; _; zone] => projectID ← metadata_ProjectID; mret (projectID, zone)
  | _ => fail (Errorf "unexpected response: %s")
  end.

Definition isCurrentInstance (instanceID : string) : io W bool :=
  r ← try getInstanceIDViaMetadata;
  match r with
  | inl _ => mret false
  | inr currentInstanceID => mret (bool_decide (currentInstanceID = canonicalizeInstanceName instanceID))
  end.

(** The lines of a listing: each ends with a slash. *)
Definition lines (s : string) : list string := split_str (String slash (String (chr 10) EmptyString)) s.

Fixpoint externalIPs (nic : string) (acs : list string) : io W (list NodeAddress) :=
  match acs with
  | [] => mret []
  | ac :: acs =>
      if bool_decide (ac = EmptyString) then externalIPs nic acs
      else
        externalIP ← formatted "couldn't get external IP: %v" (metadata_Get ("instance/network-interfaces/" +:+ nic +:+ "/access-configs/" +:+ ac +:+ "/external-ip")%string);
        rest ← externalIPs nic acs;
        mret ((if bool_decide (externalIP ≠ EmptyString) then [mkNodeAddress NodeExternalIP externalIP] else []) ++ rest)
  end.

Definition nicAddresses (nic : string) : io W (list NodeAddress) :=
  internalIP ← formatted "couldn't get internal IP: %v" (metadata_Get ("instance/network-interfaces/" +:+ nic +:+ "/ip")%string);
  ipv6s ← try (metadata_Get ("instance/network-interfaces/" +:+ nic +:+ "/ipv6s")%string);
  let internalIPV6 := match ipv6s with
    | inl _ => EmptyString
    | inr ipv6s => default EmptyString (head (filter (λ ip, ip ≠ EmptyString) (lines ipv6s)))
    end in
  acs ← formatted "couldn't get access configs: %v" (metadata_Get ("instance/network-interfaces/" +:+ nic +:+ "/access-configs")%string);
  external ← externalIPs nic (lines acs);
  mret ((if bool_decide (internalIP ≠ EmptyString) then [mkNodeAddress NodeInternalIP internalIP] else []) ++
        (if bool_decide (internalIPV6 ≠ EmptyString) then [mkNodeAddress NodeInternalIP internalIPV6] else []) ++ external).

Fixpoint nicsAddresses (nics : list string) : io W (list NodeAddress) :=
  match nics with
  | [] => mret []
  | nic :: nics =>
      if bool_decide (nic = EmptyString) then nicsAddresses nics
      else addresses ← nicAddresses nic; rest ← nicsAddresses nics; mret (addresses ++ rest)
  end.

Definition metadataAddresses : io W (list NodeAddress) :=
  nics ← formatted "couldn't get network interfaces: %v" (metadata_Get "instance/network-interfaces/");
  nodeAddresses ← nicsAddresses (lines nics);
  r ← try (metadata_Get "instance/hostname");
  mret (orderAddresses (nc_stackType nc) (nodeAddresses ++
    match r with inl _ => [] | inr dns => [mkNodeAddress NodeInternalDNS dns; mkNodeAddress NodeHostName dns] end)).

(** ** Instances by name *)
Definition getInstanceFromProjectInZoneByName (project zone name : string) : io W gceInstance :=
  res ← Instances_GetFull zone (canonicalizeInstanceName name);
  mret (mkGceInstance (lastComponent (ci_Zone res)) (ci_Name res) (ci_ID res) (ci_Disks res) (lastComponent (ci_MachineType res))).

Fixpoint findInstance (zones : list string) (name : string) : io W gceInstance :=
  match zones with
  | [] => fail InstanceNotFound
  | zone :: zones =>
      r ← try (getInstanceFromProjectInZoneByName (g_projectID g) zone name);
      match r with
      | inr inst => mret inst
      | inl err => if isHTTPErrorCode err StatusNotFound then findInstance zones name else fail err
      end
  end.
Definition getInstanceByName (name : string) : io W gceInstance := findInstance (g_managedZones g) name.

Definition instanceByProviderID (providerID : string) : io W gceInstance :=
  '(project, zone, name) ← lift (splitProviderID providerID);
  r ← try (getInstanceFromProjectInZoneByName project zone name);
  match r with
  | inr inst => mret inst
  | inl err => if isHTTPErrorCode err StatusNotFound then fail InstanceNotFound else fail err
  end.

(** The metadata server answers for the instance the code runs on. *)
Definition onCurrent (instanceName : string) : io W bool :=
  if nc_useMetadataServer nc then isCurrentInstance instanceName else mret false.

Definition NodeAddresses (nodeName : string) : io W (list NodeAddress) :=
  current ← onCurrent nodeName;
  if (current : bool) then metadataAddresses
  else
    instanceObj ← formatted "couldn't get instance details: %v" (getInstanceByName nodeName);
    inst ← formatted "error while querying for instance: %v" (Instances_GetFull (gi_Zone instanceObj) (canonicalizeInstanceName (gi_Name instanceObj)));
    lift (nodeAddressesFromInstance (nc_stackType nc) inst).

Definition NodeAddressesByProviderID (providerID : string) : io W (list NodeAddress) :=
  '(_, zone, name) ← lift (splitProviderID providerID);
  inst ← formatted "error while querying for providerID %q: %v" (Instances_GetFull zone (canonicalizeInstanceName name));
  lift (nodeAddressesFromInstance (nc_stackType nc) inst).

Definition InstanceShutdownByProviderID (providerID : string) : io W bool := fail NotImplemented.
Definition InstanceShutdown (node : Node) : io W bool := fail NotImplemented.

Definition InstanceTypeByProviderID (providerID : string) : io W string :=
  inst ← instanceByProviderID providerID; mret (gi_Type inst).

Definition InstanceExistsByProviderID (providerID : string) : io W bool :=
  r ← try (instanceByProviderID providerID);
  match r with
  | inr _ => mret true
  | inl err => if bool_decide (err = InstanceNotFound) then mret false else fail err
  end.

Definition InstanceID (nodeName : string) : io W string :=
  let instanceName := mapNodeNameToInstanceName nodeName in
  current ← onCurrent instanceName;
  fromMetadata ← (if (current : bool) then
      r ← try getProjectAndZone;
      mret match r with
           | inl _ => None
           | inr (projectID, zone) => Some (projectID +:+ "/" +:+ zone +:+ "/" +:+ canonicalizeInstanceName instanceName)%string
           end
    else mret None);
  match (fromMetadata : option string) with
  | Some id => mret id
  | None =>
      inst ← getInstanceByName instanceName;
      mret (g_projectID g +:+ "/" +:+ gi_Zone inst +:+ "/" +:+ gi_Name inst)%string
  end.

Definition GetInstanceProviderID (nodeName : string) : io W string :=
  r ← try (InstanceID nodeName);
  match r with
  | inl err =>
      if bool_decide (err = NotImplemented) then fail err
      else if bool_decide (err = InstanceNotFound) then fail err
      else fail (ErrorfW "failed to get instance ID from cloud provider: %w" err)
  | inr instanceID => mret ("gce://" +:+ instanceID)%string
  end.

Definition InstanceExists (node : Node) : io W bool :=
  if bool_decide (ProviderID (Spec node) = EmptyString) then
    r ← try (GetInstanceProviderID (node_Name node));
    match r with
    | inl err => if bool_decide (err = InstanceNotFound) then mret false else fail err
    | inr providerID => InstanceExistsByProviderID providerID
    end
  else InstanceExistsByProviderID (ProviderID (Spec node)).

Definition InstanceMetadata (node : Node) : io W InstanceMetadata_ :=
  providerID ← (if bool_decide (ProviderID (Spec node) = EmptyString) then GetInstanceProviderID (node_Name node) else mret (ProviderID (Spec node)));
  '(_, zone, name) ← lift (splitProviderID providerID);
  region ← lift (GetGCERegion zone);
  inst ← formatted "error while querying for providerID %q: %v" (Instances_GetFull zone (canonicalizeInstanceName name));
  addresses ← lift (nodeAddressesFromInstance (nc_stackType nc) inst);
  mret (mkInstanceMetadata providerID (lastComponent (ci_MachineType inst)) addresses zone region).

Definition InstanceType (nodeName : string) : io W string :=
  let instanceName := mapNodeNameToInstanceName nodeName in
  current ← onCurrent instanceName;
  fromMetadata ← (if (current : bool) then r ← try getCurrentMachineTypeViaMetadata; mret match r with inl _ => None | inr t => Some t end else mret None);
  match (fromMetadata : option string) with
  | Some t => mret t
  | None => inst ← getInstanceByName instanceName; mret (gi_Type inst)
  end.

Definition InsertInstance (project zone : string) (i : computeInstance) : io W unit := Instances_Insert zone (ci_Name i) i.
Definition DeleteInstance (project zone name : string) : io W unit := Instances_Delete zone name.
Definition ListInstanceNames `{InstanceLister W} (project zone : string) : io W string :=
  l ← ComputeInstances_List zone None; mret (join_with " " (li_Name <$> l)).
Definition CurrentNodeName (hostname : string) : io W string := mret hostname.

(** ** Keys of the project *)

(** Stops at the first item of the key: no change, or the new items. *)
Fixpoint addKey (keyString : string) (items : list MetadataItem) : outcome (option (list MetadataItem)) :=
  match items with
  | [] => Ret (Some [mkItem "sshKeys" (Some keyString)])
  | item :: items =>
      if bool_decide (item_Key item = "sshKeys"%string) then
        match item_Value item with
        | None => Panic
        | Some value => if Contains value keyString then Ret None
                        else Ret (Some (mkItem "sshKeys" (Some (value +:+ String (chr 10) keyString)%string) :: items))
        end
      else match addKey keyString items with
           | Ret (Some items) => Ret (Some (item :: items))
           | r => r
           end
  end.

(** One round of the poll: done, or try again. *)
Definition addSSHKeyOnce (user keyData : string) : io W bool :=
  r ← try (Projects_GetMetadata (g_projectID g));
  match r with
  | inl _ => mret false
  | inr items =>
      let keyString := (user +:+ ":" +:+ TrimSpace keyData +:+ " " +:+ user +:+ "@" +:+ user)%string in
      change ← lift (addKey keyString items);
      match change with
      | None => mret true
      | Some items =>
          r ← try (Projects_SetMetadata (g_projectID g) items);
          mret match r with inl _ => false | inr _ => true end
      end
  end.
(** [wait.Poll]: as many rounds, two seconds apart, as fit in thirty seconds, at least one. *)
Fixpoint poll (rounds : nat) (m : io W bool) : io W unit :=
  match rounds with
  | O => fail (ErrSentinel "timed out waiting for the condition")
  | S rounds => b ← m; if (b : bool) then mret tt else poll rounds m
  end.
Definition AddSSHKeyToAllInstances (rounds : nat) (user keyData : string) : io W unit := poll (S rounds) (addSSHKeyOnce user keyData).

(** ** Zones *)
Definition GetZone : io W Zone := mret (mkZone (nc_localZone nc) (g_region g)).
Definition GetZoneByProviderID (providerID : string) : io W Zone :=
  '(_, zone, _) ← lift (splitProviderID providerID);
  region ← lift (GetGCERegion zone);
  mret (mkZone zone region).
Definition GetZoneByNodeName (nodeName : string) : io W Zone :=
  inst ← getInstanceByName (mapNodeNameToInstanceName nodeName);
  region ← lift (GetGCERegion (gi_Zone inst));
  mret (mkZone (gi_Zone inst) region).

Fixpoint zonesWithInstances `{InstanceLister W} (managed : list string) (zones : gset string) : io W (gset string) :=
  match managed with
  | [] => mret zones
  | zone :: managed =>
      insts ← ComputeInstances_List zone None;
      zonesWithInstances managed (if (0 <? length insts)%nat then {[ zone ]} ∪ zones else zones)
  end.
Definition GetAllZonesFromCloudProvider `{InstanceLister W} : io W (gset string) := zonesWithInstances (g_managedZones g) ∅.

(** ** The zones of the nodes *)

(** [nodeInformerSynced]: nil, or its answer. *)
Definition GetAllCurrentZones `{InstanceLister W} (synced : option bool) (zones : nodeZones) : io W (gset string) :=
  match synced with
  | None => GetAllZonesFromCloudProvider
  | Some false => fail (Errorf "node informer is not synced when trying to GetAllCurrentZones")
  | Some true => mret (dom (filter (λ kv, kv.2 ≠ ∅) zones))
  end.
End instances.

Definition removeNode (node : Node) (zones : nodeZones) : nodeZones :=
  let prevZone := getZone node in
  if bool_decide (prevZone ≠ EmptyString)
  then <[ prevZone := default ∅ (zones !! prevZone) ∖ {[ node_Name node ]} ]> zones else zones.
Definition insertNode (node : Node) (zones : nodeZones) : nodeZones :=
  let newZone := getZone node in
  if bool_decide (newZone ≠ EmptyString)
  then <[ newZone := {[ node_Name node ]} ∪ default ∅ (zones !! newZone) ]> zones else zones.
Definition updateNodeZones (prevNode newNode : option Node) (zones : nodeZones) : nodeZones :=
  let zones := match prevNode with Some node => removeNode node zones | None => zones end in
  match newNode with Some node => insertNode node zones | None => zones end.

(** What a delete handler is given. *)
Inductive deletedObject : Type := DeletedNode (node : Node) | FinalStateUnknown (obj : option Node) | OtherObject.
Definition zones_AddFunc (node : Node) (zones : nodeZones) : nodeZones := updateNodeZones None (Some node) zones.
Definition zones_UpdateFunc (prevNode newNode : Node) (zones : nodeZones) : nodeZones :=
  if bool_decide (getZone newNode = getZone prevNode) then zones else updateNodeZones (Some prevNode) (Some newNode) zones.
Definition zones_DeleteFunc (obj : deletedObject) (zones : nodeZones) : nodeZones :=
  match obj with
  | DeletedNode node | FinalStateUnknown (Some node) => updateNodeZones (Some node) None zones
  | FinalStateUnknown None | OtherObject => zones
  end.
