(* ===== verification/NodeInstancesProps.v ===== *)
(** * NodeInstancesProps: addresses, existence and zones of nodes

    The order of addresses, when an instance is reported missing, and that the
    zones the informer handlers keep are exactly the zones of the nodes. *)

From S2P Require Import Prelude Bits GoNet GoNetText GoStrings NetUtils K8s IoLogic GceInstances NodeIpamConfig AddressManager LoadBalancer GceHosts NodeInstances.
Local Open Scope Z_scope.

(** ** The zones of the nodes *)

(** The objects the informer has, by name, and the zones kept for them. *)
Abbreviation zoneState := (gmap string Node * nodeZones)%type.

(** An event and its handler.  A delete gives the node as the informer had it,
    plain or in a tombstone. *)
Inductive zones_step : zoneState → zoneState → Prop :=
| zs_add nodes zones node :
    nodes !! node_Name node = None →
    zones_step (nodes, zones) (<[ node_Name node := node ]> nodes, zones_AddFunc node zones)
| zs_update nodes zones prev node :
    nodes !! node_Name node = Some prev →
    zones_step (nodes, zones) (<[ node_Name node := node ]> nodes, zones_UpdateFunc prev node zones)
| zs_delete nodes zones node obj :
    nodes !! node_Name node = Some node → obj = DeletedNode node ∨ obj = FinalStateUnknown (Some node) →
    zones_step (nodes, zones) (delete (node_Name node) nodes, zones_DeleteFunc obj zones).

(** [zones] lists, for each zone, the names of its nodes. *)
Definition zones_exact (s : zoneState) : Prop :=
  (∀ name node, s.1 !! name = Some node → node_Name node = name) ∧
  ∀ zone name, name ∈ default ∅ (s.2 !! zone) ↔ zone ≠ EmptyString ∧ ∃ node, s.1 !! name = Some node ∧ getZone node = zone.

Lemma elem_removeNode node zones zone name :
  name ∈ default ∅ (removeNode node zones !! zone) ↔
  name ∈ default ∅ (zones !! zone) ∧ ¬ (zone ≠ EmptyString ∧ getZone node = zone ∧ name = node_Name node).
Proof.
  unfold removeNode. case_bool_decide as Hne; [|naive_solver].
  destruct (decide (getZone node = zone)) as [<-|Hd]; [rewrite lookup_insert_eq; simpl; set_solver|].
  rewrite lookup_insert_ne by done. naive_solver.
Qed.
Lemma elem_insertNode node zones zone name :
  name ∈ default ∅ (insertNode node zones !! zone) ↔
  name ∈ default ∅ (zones !! zone) ∨ (zone ≠ EmptyString ∧ getZone node = zone ∧ name = node_Name node).
Proof.
  unfold insertNode. case_bool_decide as Hne; [|naive_solver].
  destruct (decide (getZone node = zone)) as [<-|Hd]; [rewrite lookup_insert_eq; simpl; set_solver|].
  rewrite lookup_insert_ne by done. naive_solver.
Qed.

Lemma names_insert (nodes : gmap string Node) node :
  (∀ name n, nodes !! name = Some n → node_Name n = name) →
  ∀ name n, <[ node_Name node := node ]> nodes !! name = Some n → node_Name n = name.
Proof. intros Hn name n [[<- ->]|[_ ?]]%lookup_insert_Some; [done|by apply Hn]. Qed.

Lemma zones_step_exact s s' : zones_step s s' → zones_exact s → zones_exact s'.
Proof.
  intros [nodes zones node Hnew|nodes zones prev node Hold|nodes zones node obj Hold Hobj] [Hn Hz]; simpl in *; split; simpl.
  - by apply names_insert.
  - intros zone name. unfold zones_AddFunc, updateNodeZones. rewrite elem_insertNode, Hz.
    setoid_rewrite lookup_insert_Some. naive_solver.
  - by apply names_insert.
  - intros zone name. pose proof (Hn _ _ Hold) as Hname. unfold zones_UpdateFunc. case_bool_decide as Hsame.
    + rewrite Hz. setoid_rewrite lookup_insert_Some. destruct (decide (name = node_Name node)) as [->|]; naive_solver.
    + unfold updateNodeZones. rewrite elem_insertNode, elem_removeNode, Hz. setoid_rewrite lookup_insert_Some.
      destruct (decide (name = node_Name node)) as [->|]; naive_solver.
  - intros name n [_ ?]%lookup_delete_Some. by apply Hn.
  - intros zone name.
    assert (zones_DeleteFunc obj zones = removeNode node zones) as -> by (destruct Hobj as [->| ->]; done).
    rewrite elem_removeNode, Hz. setoid_rewrite lookup_delete_Some. naive_solver.
Qed.

Lemma zones_exact_run s : rtc zones_step (∅, ∅) s → zones_exact s.
Proof.
  intros Hrun. assert (zones_exact (∅, ∅)) as H0.
  { split; simpl; [by setoid_rewrite lookup_empty|]. intros zone name. setoid_rewrite lookup_empty. set_solver. }
  clear - Hrun H0. induction Hrun as [|s1 s2 s3 Hs _ IH]; [done|]. apply IH. by eapply zones_step_exact.
Qed.

(** What the handlers kept is what a synced informer reports. *)
Lemma current_zones_run {W} `{InstancesAPI W, MetadataServer W, InstanceLister W} (g : gceConfig) (nodes : gmap string Node) (zones : nodeZones) (w : W) :
  zones_exact (nodes, zones) →
  ∃ current, GetAllCurrentZones g (Some true) zones w = (Ret current, w) ∧
    ∀ zone, zone ∈ current ↔ zone ≠ EmptyString ∧ ∃ name node, nodes !! name = Some node ∧ getZone node = zone.
Proof.
  intros [_ Hz]. simpl in Hz. eexists. split; [done|]. intros zone. rewrite elem_of_dom. split.
  - intros [names [Hl Hn]%map_lookup_filter_Some]. simpl in Hn. apply set_choose_L in Hn as [name Hname].
    destruct (Hz zone name) as [[? ?] _]; [by rewrite Hl|]. eauto.
  - intros (Hne & name & Hnode). specialize (Hz zone name) as [_ Hz]. specialize (Hz (conj Hne Hnode)).
    destruct (zones !! zone) as [names|] eqn:Hl; [|set_solver].
    exists names. apply map_lookup_filter_Some. simpl in *. set_solver.
Qed.

(** C21: after any sequence of node events the informer can deliver, with
    tombstones and nodes that change or lose their zone, and once the informer
    has synced, [GetAllCurrentZones] returns exactly the zones that some node of
    the cluster has. *)
Theorem current_zones_exact {W} `{InstancesAPI W, MetadataServer W, InstanceLister W} (g : gceConfig) (nodes : gmap string Node) (zones : nodeZones) (w : W) :
  rtc zones_step (∅, ∅) (nodes, zones) →
  ∃ current, GetAllCurrentZones g (Some true) zones w = (Ret current, w) ∧
    ∀ zone, zone ∈ current ↔ zone ≠ EmptyString ∧ ∃ name node, nodes !! name = Some node ∧ getZone node = zone.
Proof. intros Hrun%zones_exact_run. by apply current_zones_run. Qed.

(** ** Existence *)

(** The reads leave the world, and an instance is found under its own key. *)
Class InstancesWorld (W : Type) `{InstancesAPI W} : Prop := {
  get_reads zone name w : (Instances_GetFull zone name w).2 = w;
  get_errors zone name w : (Instances_GetFull zone name w).1 ≠ Panic ∧ (Instances_GetFull zone name w).1 ≠ Err InstanceNotFound;
  get_key zone name w i : (Instances_GetFull zone name w).1 = Ret i → lastComponent (ci_Zone i) = zone ∧ ci_Name i = name
}.

Lemma cut_on_head c s a b : cut_on c s = Some (a, b) → has_char c a = false.
Proof.
  revert a. induction s as [|d s IH]; intros a; simpl; [done|]. case_decide; [by intros [= <- <-]|].
  destruct (cut_on c s) as [[a' b']|]; [|done]. intros [= <- <-]. simpl. rewrite bool_decide_eq_false_2 by done. by apply IH.
Qed.
Lemma canonicalize_idemp name : canonicalizeInstanceName (canonicalizeInstanceName name) = canonicalizeInstanceName name.
Proof.
  unfold canonicalizeInstanceName at 2 3. destruct (cut_on dot name) as [[a b]|] eqn:Hc.
  - apply cut_on_head in Hc. unfold canonicalizeInstanceName. by rewrite cut_on_none.
  - unfold canonicalizeInstanceName. by rewrite Hc.
Qed.

Section existence.
Context {W : Type} `{InstancesWorld W} `{MetadataServer W}.
Variable g : gceConfig.
Variable nc : nodeConfig.

(** What the API says of an instance in a zone. *)
Definition lookup (name zone : string) (w : W) : outcome computeInstance := (Instances_GetFull zone (canonicalizeInstanceName name) w).1.
Definition absent (name : string) (w : W) (zone : string) : Prop := ∃ e, lookup name zone w = Err e ∧ isHTTPErrorCode e StatusNotFound = true.

Lemma run_get zone name w : Instances_GetFull zone (canonicalizeInstanceName name) w = (lookup name zone w, w).
Proof. unfold lookup. rewrite (surjective_pairing (Instances_GetFull _ _ _)) at 1. by rewrite get_reads. Qed.

Definition found (i : computeInstance) : gceInstance :=
  mkGceInstance (lastComponent (ci_Zone i)) (ci_Name i) (ci_ID i) (ci_Disks i) (lastComponent (ci_MachineType i)).
Lemma run_getInstance project zone name w :
  getInstanceFromProjectInZoneByName project zone name w = (found <$> lookup name zone w, w).
Proof. unfold getInstanceFromProjectInZoneByName. rewrite io_bind_eq, run_get. by destruct (lookup name zone w). Qed.

(** The zones are tried in order until one answers other than not found. *)
Lemma findInstance_cases zones name w :
  (Forall (absent name w) zones ∧ findInstance g zones name w = (Err InstanceNotFound, w)) ∨
  (∃ before zone after, zones = before ++ zone :: after ∧ Forall (absent name w) before ∧ ¬ absent name w zone ∧
     findInstance g zones name w = (found <$> lookup name zone w, w)).
Proof.
  induction zones as [|zone zones IH]; [by left|]. simpl. rewrite io_bind_eq. unfold try. rewrite run_getInstance.
  destruct (lookup name zone w) as [i|e|] eqn:Hl; simpl.
  - right. exists [], zone, zones. split_and!; [done|constructor| |by rewrite Hl]. intros (e & He & _). congruence.
  - destruct (isHTTPErrorCode e StatusNotFound) eqn:He.
    + destruct IH as [[Hall ->]|(before & z & after & -> & Hb & Hz & ->)].
      * left. split; [constructor; [by exists e|done]|done].
      * right. exists (zone :: before), z, after. split_and!; [done|constructor; [by exists e|done]|done..].
    + right. exists [], zone, zones. split_and!; [done|constructor| |by rewrite Hl]. intros (e' & He' & ?). congruence.
  - by destruct (get_errors zone (canonicalizeInstanceName name) w).
Qed.

Lemma exists_by_provider_id id w project zone name : splitProviderID id = Ret (project, zone, name) →
  InstanceExistsByProviderID id w =
    (match lookup name zone w with
     | Ret _ => Ret true
     | Err e => if isHTTPErrorCode e StatusNotFound then Ret false else Err e
     | Panic => Panic
     end, w).
Proof.
  intros Hs. unfold InstanceExistsByProviderID. rewrite io_bind_eq. unfold try, instanceByProviderID. rewrite io_bind_eq.
  rewrite Hs. cbn [lift]. rewrite io_bind_eq. unfold try. rewrite run_getInstance.
  destruct (get_errors zone (canonicalizeInstanceName name) w) as [Hp Hn]. fold (lookup name zone w) in Hp, Hn.
  destruct (lookup name zone w) as [i|e|]; simpl; [done| |done].
  destruct (isHTTPErrorCode e StatusNotFound); [done|]. cbn. by rewrite bool_decide_eq_false_2 by congruence.
Qed.

Definition plain (s : string) : Prop := s ≠ EmptyString ∧ has_char slash s = false.

Lemma lookup_canonical name zone w : lookup (canonicalizeInstanceName name) zone w = lookup name zone w.
Proof. unfold lookup. by rewrite canonicalize_idemp. Qed.

(** The provider ID of a node, without the metadata server. *)
Lemma provider_id_run name w : nc_useMetadataServer nc = false →
  GetInstanceProviderID g nc name w =
    match findInstance g (g_managedZones g) name w with
    | (Ret inst, w') => (Ret ("gce://" +:+ g_projectID g +:+ "/" +:+ gi_Zone inst +:+ "/" +:+ gi_Name inst)%string, w')
    | (Err e, w') => (Err (if decide (e = NotImplemented ∨ e = InstanceNotFound) then e else ErrorfW "failed to get instance ID from cloud provider: %w" e), w')
    | (Panic, w') => (Panic, w')
    end.
Proof.
  intros Hm. unfold GetInstanceProviderID. rewrite io_bind_eq. unfold try.
  assert (InstanceID g nc name w =
    (inst ← getInstanceByName g name; mret (g_projectID g +:+ "/" +:+ gi_Zone inst +:+ "/" +:+ gi_Name inst)%string) w) as ->.
  { unfold InstanceID, onCurrent. by rewrite Hm. }
  rewrite io_bind_eq. unfold getInstanceByName. destruct (findInstance g _ name w) as [[inst|e|] w']; [done| |done].
  case_decide; repeat case_bool_decide; try done; naive_solver.
Qed.

Lemma exists_found name zone w i : plain (g_projectID g) → plain zone → plain (canonicalizeInstanceName name) → lookup name zone w = Ret i →
  InstanceExistsByProviderID ("gce://" +:+ g_projectID g +:+ "/" +:+ gi_Zone (found i) +:+ "/" +:+ gi_Name (found i))%string w = (Ret true, w).
Proof.
  intros [Np Hp] [Nz Hz] [Nn Hn] Hl. destruct (get_key _ _ _ _ Hl) as [Hzone Hname].
  rewrite (exists_by_provider_id _ _ (g_projectID g) zone (canonicalizeInstanceName name)); [by rewrite lookup_canonical, Hl|].
  simpl. rewrite Hzone, Hname. by apply splitProviderID_join.
Qed.

(** The first element without a property is unique. *)
Lemma first_unique {A} (P : A → Prop) l1 x r1 l2 y r2 :
  l1 ++ x :: r1 = l2 ++ y :: r2 → Forall P l1 → Forall P l2 → ¬ P x → ¬ P y → x = y.
Proof.
  revert l2. induction l1 as [|a l1 IH]; intros [|b l2]; simpl; intros [= -> Heq] Hl1 Hl2 Hx Hy; [done|..].
  - by apply Forall_inv in Hl2.
  - by apply Forall_inv in Hl1.
  - apply Forall_cons in Hl1 as [_ Hl1], Hl2 as [_ Hl2]. by apply (IH l2).
Qed.

End existence.

(** ** The order of addresses *)

(** An address of the family that is not preferred; a host name is of none. *)
Definition otherFamily (stackType : string) (a : NodeAddress) : Prop :=
  parsedIP a ≠ [] ∧ isIPv6 (parsedIP a) ≠ bool_decide (stackType = clusterStackIPV6).

(** The addresses of the preferred family and the host names come first, in an
    IPv6 cluster the IPv6 addresses, otherwise the IPv4 ones; nothing is lost, and
    each part keeps its order. *)
Theorem addresses_ordered (stackType : string) (addresses : list NodeAddress) :
  orderAddresses stackType addresses ≡ₚ addresses ∧
  ∃ first second, orderAddresses stackType addresses = first ++ second ∧
    first `sublist_of` addresses ∧ second `sublist_of` addresses ∧
    Forall (λ a, ¬ otherFamily stackType a) first ∧ Forall (otherFamily stackType) second.
Proof.
  unfold orderAddresses. set (p := bool_decide (stackType = clusterStackIPV6)). split.
  - induction addresses as [|a l IH]; [done|]. rewrite !filter_cons. case_decide as H1; case_decide as H2.
    + destruct H2, H1; congruence.
    + simpl. by rewrite IH.
    + by rewrite <- Permutation_middle, IH.
    + exfalso. apply H1. destruct (decide (parsedIP a = [])); [by left|]. right. apply dec_stable. tauto.
  - eexists _, _. split; [done|]. split_and!; [apply sublist_filter|apply sublist_filter|..]; apply Forall_forall.
    + intros a [Ha _]%list_elem_of_filter [H1 H2]. by destruct Ha as [?|?].
    + by intros a [Ha _]%list_elem_of_filter.
Qed.
