(* ===== verification/GceStartup.v ===== *)
(** * GceStartup: building the provider

    [gce.go]: from the configuration file and the metadata server to the [Cloud]
    that all other operations read, the lazy lookup of its subnetwork, and the
    routes of [gce_routes.go]. *)

From S2P Require Import Prelude Bits GoNet GoNetText GoStrings NetUtils K8s GceInstances NodeIpamConfig AddressManager LoadBalancer GceHosts NodeInstances.
Local Open Scope Z_scope.

(** ** Text *)
Definition ReplaceAll (s old new : string) : string := join_with new (split_str old s).
(** [strconv.ParseUint(s, 10, 64)] *)
Definition ParseUint64 (s : string) : option Z :=
  if bool_decide (s = EmptyString) then None
  else match dec_value s 0 with Some v => if v <? 2 ^ 64 then Some v else None | None => None end.

(** ** Configuration *)

(** nil, the metadata server, or another URL. *)
Inductive TokenSource : Type := NoTokenSource | ComputeTokenSource | AltTokenSource (tokenURL tokenBody : string).
Record ConfigGlobal : Type := mkConfigGlobal {
  cg_TokenURL : string; cg_TokenBody : string; cg_ProjectID : string; cg_NetworkProjectID : string;
  cg_NetworkName : string; cg_SubnetworkName : string; cg_StackType : string; cg_SecondaryRangeName : string;
  cg_NodeTags : list string; cg_NodeInstancePrefix : string; cg_Regional : bool; cg_Multizone : bool;
  cg_APIEndpoint : string; cg_ContainerAPIEndpoint : string; cg_LocalZone : string;
  cg_AlphaFeatures : list string; cg_ExternalInstanceGroupsPrefix : string
}.
(** [AlphaFeatureGate]: the features that are set. *)
Definition AlphaFeatureGate : Type := gset string.
Definition NewAlphaFeatureGate (features : list string) : AlphaFeatureGate := list_to_set features.
Definition Enabled (af : AlphaFeatureGate) (key : string) : bool := bool_decide (key ∈ af).
Definition AlphaFeatureILBSubsets : string := "ILBSubsets".
Definition AlphaFeatureSkipIGsManagement : string := "SkipIGsManagement".

Record CloudConfig : Type := mkCloudConfig {
  cc_APIEndpoint : string; cc_ContainerAPIEndpoint : string; cc_ProjectID : string; cc_NetworkProjectID : string;
  cc_Region : string; cc_Regional : bool; cc_Zone : string; cc_ManagedZones : list string;
  cc_NetworkName : string; cc_NetworkURL : string; cc_SubnetworkName : string; cc_SubnetworkURL : string;
  cc_SecondaryRangeName : string; cc_NodeTags : list string; cc_NodeInstancePrefix : string; cc_TokenSource : TokenSource;
  cc_UseMetadataServer : bool; cc_AlphaFeatureGate : AlphaFeatureGate; cc_StackType : string; cc_ExternalInstanceGroupsPrefix : string
}.

(** [compute.Network] and [compute.Subnetwork] *)
Record gceNetwork : Type := mkGceNetwork { gn_IPv4Range : string; gn_AutoCreateSubnetworks : bool }.
Record gceSubnet : Type := mkGceSubnet { gs_Name : string; gs_IpCidrRange : string; gs_SelfLink : string }.
(** A zone of a listing: its name and the link of its region. *)
Record listedZone : Type := mkListedZone { lz_Name : string; lz_Region : string }.

(** The services as they are before the provider's own stubs: each [NewService]
    gives the base path; listings come in pages. *)
Class StartupAPI (W : Type) : Type := {
  compute_NewService : TokenSource → io W string;
  computebeta_NewService : TokenSource → io W string;
  computealpha_NewService : TokenSource → io W string;
  container_NewService : TokenSource → io W string;
  newTPUService : io W unit;
  google_DefaultTokenSource : io W TokenSource;
  TokenSource_Token : TokenSource → io W unit;
  svc_Projects_Get : string → io W string;
  svc_Networks_Get : string → string → io W gceNetwork;
  svc_Subnetworks_List : string → string → string → io W (list (list gceSubnet));
  svc_Zones_List : string → io W (list (list listedZone))
}.

(** What [CreateGCECloud] fills in: the configuration the other files read, the
    base paths of the services, and the guard of the lazy fields. *)
Record Cloud : Type := mkCloud {
  c_gce : gceConfig; c_node : nodeConfig; c_regional : bool; c_secondaryRangeName : string; c_nodeTags : list string;
  c_BasePath : string; c_BetaBasePath : string; c_AlphaBasePath : string; c_ContainerBasePath : string;
  c_once : bool
}.

Definition gceComputeAPIEndpoint : string := "https://www.googleapis.com/compute/v1/".

(** ** URLs *)
Definition getProjectsBasePath (basePath : string) : string :=
  let basePath := if HasSuffix basePath "/" then basePath else (basePath +:+ "/")%string in
  if HasSuffix basePath "/projects/" then basePath else (basePath +:+ "projects/")%string.
Definition isProjectNumber (idOrNumber : string) : bool := bool_decide (is_Some (ParseUint64 idOrNumber)).
Definition endpointOrDefault (apiEndpoint : string) : string :=
  if bool_decide (apiEndpoint = EmptyString) then gceComputeAPIEndpoint else apiEndpoint.
Definition gceNetworkURL (apiEndpoint project network : string) : string :=
  (endpointOrDefault apiEndpoint +:+ join_with "/" ["projects"; project; "global"; "networks"; network])%string.
Definition gceSubnetworkURL (apiEndpoint project region subnetwork : string) : string :=
  (endpointOrDefault apiEndpoint +:+ join_with "/" ["projects"; project; "regions"; region; "subnetworks"; subnetwork])%string.

Fixpoint afterRegions (fields : list string) : string :=
  match fields with
  | v :: (next :: _) as rest => if bool_decide (v = "regions"%string) then next else afterRegions rest
  | _ => EmptyString
  end.
Definition getRegionInURL (urlStr : string) : string := afterRegions (split_on slash urlStr).
Definition findSubnetForRegion (subnetURLs : list string) (region : string) : string :=
  default EmptyString (List.find (λ url, bool_decide (getRegionInURL url = region)) subnetURLs).

(** ** Networks and subnetworks *)
Inductive netType : Type := netTypeLegacy | netTypeAuto | netTypeCustom.
Definition typeOfNetwork (network : gceNetwork) : netType :=
  if bool_decide (gn_IPv4Range network ≠ EmptyString) then netTypeLegacy
  else if gn_AutoCreateSubnetworks network then netTypeAuto else netTypeCustom.

Definition autoSubnetIPRange : IPNet := mkIPNet (v4InV6Prefix ++ [10; 128; 0; 0]) (CIDRMask 9 32).
Definition firstIPInRange (ipNet : IPNet) : list Z := IP_Mask (net_IP ipNet) (net_Mask ipNet).
(** A mask longer than the address panics. *)
Definition lastIPInRange (cidr : IPNet) : outcome (list Z) :=
  let ip := net_IP cidr in let m := net_Mask cidr in
  if (length ip <? length m)%nat then Panic
  else Ret (zip_with (λ x b, Z.lor x (go_not 8 b)) ip m ++ drop (length m) ip).
Definition containsCIDR (outer inner : IPNet) : outcome bool :=
  if IPNet_Contains outer (firstIPInRange inner) then last ← lastIPInRange inner; Ret (IPNet_Contains outer last) else Ret false.

Fixpoint subnetsInCIDR (subnets : list gceSubnet) (cidr : IPNet) : outcome (list gceSubnet) :=
  match subnets with
  | [] => Ret []
  | subnet :: subnets =>
      match ParseCIDRSloppy (gs_IpCidrRange subnet) with
      | Err _ => Err (Errorf "unable to parse CIDR %q for subnet %q: %v")
      | Panic => Panic
      | Ret subnetRange =>
          b ← containsCIDR cidr subnetRange;
          res ← subnetsInCIDR subnets cidr;
          Ret (if (b : bool) then subnet :: res else res)
      end
  end.

Section startup.
Context {W : Type} `{MetadataServer W} `{StartupAPI W}.

Definition getNetworkNameViaMetadata : io W string :=
  result ← metadata_Get "instance/network-interfaces/0/network";
  match split_on slash result with [_; _; _; name] => mret name | _ => fail (Errorf "unexpected response: %s") end.
Definition getNetwork (networkProjectID networkID : string) : io W gceNetwork := svc_Networks_Get networkProjectID networkID.
Definition listSubnetworksOfNetwork (networkProjectID networkID region : string) : io W (list gceSubnet) :=
  pages ← svc_Subnetworks_List networkProjectID region ("network eq .*/" +:+ networkID +:+ "$")%string; mret (concat pages).
Definition getProjectID (projectNumberOrID : string) : io W string := svc_Projects_Get projectNumberOrID.
Definition getZonesForRegion (projectID region : string) : io W (list string) :=
  r ← try (svc_Zones_List projectID);
  match r with
  | inl _ => fail (Errorf "unexpected response listing zones: %v")
  | inr pages => mret (lz_Name <$> filter (λ z, lastComponent (lz_Region z) = region) (concat pages))
  end.

Definition determineSubnetURL (networkProjectID networkName region : string) : io W string :=
  subnets ← listSubnetworksOfNetwork networkProjectID networkName region;
  autoSubnets ← lift (subnetsInCIDR subnets autoSubnetIPRange);
  match autoSubnets with
  | [] => fail (Errorf "no subnet exists in auto CIDR")
  | [subnet] => mret (gs_SelfLink subnet)
  | _ => fail (Errorf "multiple subnetworks in the same region exist in auto CIDR")
  end.

(** The name of a project number; a failed lookup leaves the number. *)
Definition projectName (id : string) : io W string :=
  if isProjectNumber id then r ← try (getProjectID id); mret match r with inl _ => id | inr name => name end
  else mret id.
Definition tryConvertToProjectNames (configProject configNetworkProject : string) : io W (string * string) :=
  projID ← projectName configProject;
  let netProjID := if bool_decide (configNetworkProject ≠ configProject) then configNetworkProject else projID in
  netProjID ← projectName netProjID;
  mret (projID, netProjID).

(** Ten attempts for a first token. *)
Definition firstToken (ts : TokenSource) : io W bool := r ← try (TokenSource_Token ts); mret match r with inl _ => false | inr _ => true end.
Definition newOauthClient (tokenSource : TokenSource) : io W unit :=
  ts ← match tokenSource with NoTokenSource => google_DefaultTokenSource | ts => mret ts end;
  poll 10 (firstToken ts).

(** ** The configuration of the cloud *)
Definition fileTokenSource (configFile : option ConfigGlobal) : TokenSource :=
  match configFile with
  | Some f => if bool_decide (cg_TokenURL f = EmptyString) then ComputeTokenSource
              else if bool_decide (cg_TokenURL f = "nil"%string) then NoTokenSource else AltTokenSource (cg_TokenURL f) (cg_TokenBody f)
  | None => ComputeTokenSource
  end.
(** A field of the file: the empty string without a file. *)
Definition fileField (f : ConfigGlobal → string) (configFile : option ConfigGlobal) : string := from_option f EmptyString configFile.
Definition orElse (s other : string) : string := if bool_decide (s = EmptyString) then other else s.

Definition projectAndZone (configFile : option ConfigGlobal) : io W (string * string) :=
  let project := fileField cg_ProjectID configFile in
  let zone := fileField cg_LocalZone configFile in
  '(metaProject, metaZone) ← (if bool_decide (project = EmptyString) || bool_decide (zone = EmptyString) then getProjectAndZone else mret (EmptyString, EmptyString));
  mret (orElse project metaProject, orElse zone metaZone).

(** The name and the URL of the network. *)
Definition fileNetwork (configFile : option ConfigGlobal) : io W (string * string) :=
  let network := fileField cg_NetworkName configFile in
  if bool_decide (network = EmptyString) then name ← getNetworkNameViaMetadata; mret (name, EmptyString)
  else mret (if Contains network "/" then (EmptyString, network) else (network, EmptyString)).
Definition fileSubnetwork (configFile : option ConfigGlobal) : string * string :=
  let subnetwork := fileField cg_SubnetworkName configFile in
  if Contains subnetwork "/" then (EmptyString, subnetwork) else (subnetwork, EmptyString).

Definition generateCloudConfig (configFile : option ConfigGlobal) : io W CloudConfig :=
  '(projectID, zone) ← projectAndZone configFile;
  region ← lift (GetGCERegion zone);
  let regional := from_option cg_Regional false configFile in
  let managedZones := if from_option cg_Multizone false configFile || regional then [] else [zone] in
  '(networkName, networkURL) ← fileNetwork configFile;
  let '(subnetworkName, subnetworkURL) := fileSubnetwork configFile in
  mret (mkCloudConfig (fileField cg_APIEndpoint configFile) (fileField cg_ContainerAPIEndpoint configFile) projectID
    (fileField cg_NetworkProjectID configFile) region regional zone managedZones networkName networkURL subnetworkName subnetworkURL
    (fileField cg_SecondaryRangeName configFile) (from_option cg_NodeTags [] configFile) (fileField cg_NodeInstancePrefix configFile)
    (fileTokenSource configFile) true (NewAlphaFeatureGate (from_option cg_AlphaFeatures [] configFile)) (fileField cg_StackType configFile)
    (fileField cg_ExternalInstanceGroupsPrefix configFile)).

(** ** The cloud *)

(** The base paths of the three versions. *)
Definition basePaths (apiEndpoint v1 beta alpha : string) : string * string * string :=
  if bool_decide (apiEndpoint = EmptyString) then (v1, beta, alpha)
  else
    let beta := ReplaceAll apiEndpoint "v1" "beta" in let alpha := ReplaceAll apiEndpoint "v1" "alpha" in
    if HasSuffix v1 "/projects/" then (getProjectsBasePath apiEndpoint, getProjectsBasePath beta, getProjectsBasePath alpha)
    else (apiEndpoint, beta, alpha).

Definition cloudNetworkURL (config : CloudConfig) (netProjID : string) : string :=
  if bool_decide (cc_NetworkURL config ≠ EmptyString) then cc_NetworkURL config
  else if bool_decide (cc_NetworkName config ≠ EmptyString) then gceNetworkURL (cc_APIEndpoint config) netProjID (cc_NetworkName config)
  else EmptyString.
Definition cloudSubnetworkURL (config : CloudConfig) (netProjID : string) : string :=
  if bool_decide (cc_SubnetworkURL config ≠ EmptyString) then cc_SubnetworkURL config
  else if bool_decide (cc_SubnetworkName config ≠ EmptyString) then gceSubnetworkURL (cc_APIEndpoint config) netProjID (cc_Region config) (cc_SubnetworkName config)
  else EmptyString.

(** [l4LbSrcRngs] is the flag of the load balancers. *)
Definition CreateGCECloud (l4LbSrcRngs : gset string) (config : CloudConfig) : io W Cloud :=
  let networkProjectID := orElse (cc_NetworkProjectID config) (cc_ProjectID config) in
  v1 ← compute_NewService (cc_TokenSource config);
  beta ← computebeta_NewService (cc_TokenSource config);
  alpha ← computealpha_NewService (cc_TokenSource config);
  let '(v1, beta, alpha) := basePaths (cc_APIEndpoint config) v1 beta alpha in
  containerPath ← container_NewService (cc_TokenSource config);
  let containerPath := orElse (cc_ContainerAPIEndpoint config) containerPath in
  _ ← newOauthClient (cc_TokenSource config);
  _ ← newTPUService;
  '(projID, netProjID) ← tryConvertToProjectNames (cc_ProjectID config) networkProjectID;
  let onXPN := bool_decide (projID ≠ netProjID) in
  let networkURL := cloudNetworkURL config netProjID in
  let subnetURL := cloudSubnetworkURL config netProjID in
  managedZones ← (if bool_decide (cc_ManagedZones config = []) then getZonesForRegion (cc_ProjectID config) (cc_Region config)
                  else mret (cc_ManagedZones config));
  let features := cc_AlphaFeatureGate config in
  mret (mkCloud
    (mkGceConfig projID netProjID (cc_Region config) (getProjectsBasePath v1) networkURL subnetURL false onXPN managedZones
       (cc_NodeInstancePrefix config) (cc_ExternalInstanceGroupsPrefix config) l4LbSrcRngs
       (Enabled features AlphaFeatureILBSubsets) (Enabled features AlphaFeatureSkipIGsManagement))
    (mkNodeConfig (cc_StackType config) (cc_Zone config) (cc_UseMetadataServer config))
    (cc_Regional config) (cc_SecondaryRangeName config) (cc_NodeTags config) v1 beta alpha containerPath false).

(** No file, or what reading it gave. *)
Definition newGCECloud (l4LbSrcRngs : gset string) (config : option (outcome ConfigGlobal)) : io W Cloud :=
  configFile ← match config with None => mret None | Some r => f ← lift r; mret (Some f) end;
  cloudConfig ← generateCloudConfig configFile;
  CreateGCECloud l4LbSrcRngs cloudConfig.

(** ** The subnetwork, looked up once *)
Definition setSubnetwork (url : string) (legacy : bool) (c : Cloud) : Cloud :=
  let g := c_gce c in
  mkCloud (mkGceConfig (g_projectID g) (g_networkProjectID g) (g_region g) (g_projectsBasePath g) (g_networkURL g) url legacy (g_onXPN g)
             (g_managedZones g) (g_nodeInstancePrefix g) (g_externalInstanceGroupsPrefix g) (g_l4LbSrcRngs g) (g_ILBSubsets g) (g_SkipIGsManagement g))
    (c_node c) (c_regional c) (c_secondaryRangeName c) (c_nodeTags c) (c_BasePath c) (c_BetaBasePath c) (c_AlphaBasePath c) (c_ContainerBasePath c) (c_once c).
Definition setOnce (c : Cloud) : Cloud :=
  mkCloud (c_gce c) (c_node c) (c_regional c) (c_secondaryRangeName c) (c_nodeTags c) (c_BasePath c) (c_BetaBasePath c) (c_AlphaBasePath c) (c_ContainerBasePath c) true.

(** The subnetwork of the region and whether the network is a legacy one. *)
Definition discoverSubnetwork (g : gceConfig) : io W (string * bool) :=
  let networkName := lastComponent (g_networkURL g) in
  if bool_decide (networkName = EmptyString) then mret (EmptyString, false)
  else
    r ← try (getNetwork (g_networkProjectID g) networkName);
    match r with
    | inl _ => mret (EmptyString, false)
    | inr n =>
        match typeOfNetwork n with
        | netTypeLegacy => mret (EmptyString, true)
        | netTypeCustom => mret (EmptyString, false)
        | netTypeAuto =>
            r ← try (determineSubnetURL (g_networkProjectID g) networkName (g_region g));
            mret match r with inl _ => (EmptyString, false) | inr subnetURL => (subnetURL, false) end
        end
    end.
Definition initializeSubnetworkURLAndIsLegacyNetwork (c : Cloud) : io W Cloud :=
  if bool_decide (g_subnetworkURL (c_gce c) ≠ EmptyString) then mret c
  else '(subnetURL, isLegacyNetwork) ← discoverSubnetwork (c_gce c); mret (setSubnetwork subnetURL isLegacyNetwork c).
(** [sync.Once] *)
Definition initOnce (c : Cloud) : io W Cloud :=
  if c_once c then mret c else c ← initializeSubnetworkURLAndIsLegacyNetwork c; mret (setOnce c).
Definition SubnetworkURL (c : Cloud) : io W (string * Cloud) := c ← initOnce c; mret (g_subnetworkURL (c_gce c), c).
Definition IsLegacyNetwork (c : Cloud) : io W (bool * Cloud) := c ← initOnce c; mret (g_isLegacyNetwork (c_gce c), c).
End startup.

(** ** Routes *)

(** [compute.Route] and [cloudprovider.Route] *)
Record gceRoute : Type := mkGceRoute {
  gr_Name : string; gr_DestRange : string; gr_NextHopInstance : string; gr_Network : string; gr_Priority : Z; gr_Description : string
}.
Record Route : Type := mkRoute { route_Name : string; TargetNode : string; DestinationCIDR : string }.
(** The list takes regular expressions for the name, the network and the description. *)
Class RoutesAPI (W : Type) : Type := {
  Routes_List : string → string → string → io W (list gceRoute);
  Routes_Insert : string → gceRoute → io W unit;
  Routes_Delete : string → io W unit
}.
Definition k8sNodeRouteTag : string := "k8s-node-route".
Fixpoint take_string (n : nat) (s : string) : string :=
  match n, s with S n, String c s => String c (take_string n s) | _, _ => EmptyString end.
Definition truncateClusterName (clusterName : string) : string :=
  if (26 <? String.length clusterName)%nat then take_string 26 clusterName else clusterName.

Section routes.
Context {W : Type} `{RoutesAPI W} `{InstancesAPI W}.
Variable g : gceConfig.

Definition toRoute (r : gceRoute) : Route := mkRoute (gr_Name r) (path_Base (gr_NextHopInstance r)) (gr_DestRange r).
Definition ListRoutes (clusterName : string) : io W (list Route) :=
  routes ← Routes_List (truncateClusterName clusterName +:+ "-.*")%string (g_networkURL g) k8sNodeRouteTag;
  mret (toRoute <$> routes).
Definition routeFor (clusterName nameHint : string) (route : Route) (target : gceInstance) : gceRoute :=
  mkGceRoute (truncateClusterName clusterName +:+ "-" +:+ nameHint)%string (DestinationCIDR route)
    ("zones/" +:+ gi_Zone target +:+ "/instances/" +:+ gi_Name target)%string (g_networkURL g) 1000 k8sNodeRouteTag.
Definition CreateRoute (clusterName nameHint : string) (route : Route) : io W unit :=
  targetInstance ← getInstanceByName g (mapNodeNameToInstanceName (TargetNode route));
  let cr := routeFor clusterName nameHint route targetInstance in
  r ← try (Routes_Insert (gr_Name cr) cr);
  match r with
  | inl err => if isHTTPErrorCode err StatusConflict then mret tt else fail err
  | inr _ => mret tt
  end.
Definition DeleteRoute (clusterName : string) (route : Route) : io W unit := Routes_Delete (route_Name route).
End routes.
