(* ===== verification/CaCache.v ===== *)
(** * CaCache: certificate authorities and the configuration of gcp-controller-manager

    [ca_cache.go]: the cache of CA certificates and revocation lists against
    which endorsement certificates are verified, with the steps that other
    goroutines take between the read lock and the write lock.  [gcp_config.go]:
    the project, the zones and the services of the controllers. *)
From S2P Require Import Prelude GoNetText K8s GceInstances GoStrings IoLogic AddressManager GceHosts WorkloadId NodeInstances GceStartup.
Local Open Scope Z_scope.

(** ** Certificates *)

(** The fields of [x509.Certificate] and of a revocation list that are read. *)
Record caCert : Type := mkCaCert {
  IssuingCertificateURL : list string; CRLDistributionPoints : list string; SerialNumber : Z; cert_Key : string
}.
Record CertificateList : Type := mkCRL { RevokedCertificates : list Z; crl_Signature : string }.
#[global] Instance caCert_eq_dec : EqDecision caCert. Proof. solve_decision. Defined.
#[global] Instance CertificateList_eq_dec : EqDecision CertificateList. Proof. solve_decision. Defined.

Record cachedCRL : Type := mkCachedCRL { crl : CertificateList; fetchedAt : Z }.
Record caCache : Type := mkCaCache {
  rootCertURL : string; interPrefix : string; certs : gmap string caCert; crls : gmap string cachedCRL
}.
Definition set_certs (f : gmap string caCert → gmap string caCert) (c : caCache) : caCache :=
  mkCaCache (rootCertURL c) (interPrefix c) (f (certs c)) (crls c).
Definition set_crls (f : gmap string cachedCRL → gmap string cachedCRL) (c : caCache) : caCache :=
  mkCaCache (rootCertURL c) (interPrefix c) (certs c) (f (crls c)).

Definition crlCacheDuration : Z := 10 * 60 * second.

(** HTTP, the clock and [crypto/x509].  [http_Get] is the body; [cert_Verify] is
    given the only root and the only intermediate certificate. *)
Class Pki (W : Type) : Type := {
  http_Get : string → io W string;
  pki_Now : io W Z;
  x509_ParseCertificate : string → outcome caCert;
  x509_ParseDERCRL : string → outcome CertificateList;
  cert_Verify : caCert → caCert → caCert → io W unit;
  CheckCRLSignature : caCert → CertificateList → outcome unit
}.

Section cache.
Context {W : Type} `{Pki W}.
(** What other goroutines do to the cache while this one holds no lock. *)
Variable others : caCache * W → caCache * W.

Definition cacheOf : io (caCache * W) caCache := λ s, (Ret s.1, s).

Definition fetchCert (url : string) : io W caCert := raw ← http_Get url; lift (x509_ParseCertificate raw).
Definition fetchCRL (url : string) : io W CertificateList := raw ← http_Get url; lift (x509_ParseDERCRL raw).

(** Under the write lock. *)
Definition getCertLocked (url : string) : io (caCache * W) caCert :=
  c ← cacheOf;
  match certs c !! url with
  | Some crt => mret crt
  | None =>
      crt ← on_snd (fetchCert url);
      _ ← put (λ '(c, w), (set_certs <[ url := crt ]> c, w));
      mret crt
  end.
Definition getCert (url : string) : io (caCache * W) caCert :=
  c ← cacheOf;
  _ ← put others;
  match certs c !! url with Some crt => mret crt | None => getCertLocked url end.

(** The list that is cached for the URL, unless it is too old. *)
Definition cachedFor (url : string) : io (caCache * W) (option CertificateList) :=
  c ← cacheOf;
  match crls c !! url with
  | None => mret None
  | Some cached => now ← on_snd pki_Now; mret (if now - fetchedAt cached <? crlCacheDuration then Some (crl cached) else None)
  end.
Definition getCRLLocked (url : string) (cert : caCert) : io (caCache * W) CertificateList :=
  cached ← cachedFor url;
  match cached with
  | Some crl => mret crl
  | None =>
      r ← try (on_snd (fetchCRL url));
      match r with
      | inl _ => fail (Errorf "fetching %q: %v")
      | inr crlRaw =>
          match CheckCRLSignature cert crlRaw with
          | Ret _ =>
              now ← on_snd pki_Now;
              _ ← put (λ '(c, w), (set_crls <[ url := mkCachedCRL crlRaw now ]> c, w));
              mret crlRaw
          | Err _ => fail (Errorf "verifying CRL signature for %q: %v")
          | Panic => lift Panic
          end
      end
  end.
Definition getCRL (url : string) (cert : caCert) : io (caCache * W) CertificateList :=
  cached ← cachedFor url;
  _ ← put others;
  match cached with Some crl => mret crl | None => getCRLLocked url cert end.

Fixpoint checkPoints (parent child : caCert) (urls : list string) : io (caCache * W) unit :=
  match urls with
  | [] => mret tt
  | url :: urls =>
      crl ← getCRL url parent;
      if bool_decide (SerialNumber child ∈ RevokedCertificates crl) then fail (Errorf "certificate serial number %s was revoked")
      else checkPoints parent child urls
  end.
Definition checkCRLs (parent child : caCert) : io (caCache * W) unit :=
  if bool_decide (CRLDistributionPoints child = []) then fail (Errorf "CRLDistributionPoints empty in child certificate")
  else checkPoints parent child (CRLDistributionPoints child).

Definition caCache_verify (cert : caCert) : io (caCache * W) unit :=
  c ← cacheOf;
  match List.find (λ url, HasPrefix url (interPrefix c)) (IssuingCertificateURL cert) with
  | None | Some EmptyString => fail (Errorf "none of the CAs %q in leaf cert start with %q")
  | Some interCertURL =>
      interCert ← getCert interCertURL;
      rootCert ← getCert (rootCertURL c);
      _ ← on_snd (cert_Verify cert rootCert interCert);
      _ ← formatted "checking intermediate CA CRL: %v" (checkCRLs interCert cert);
      formatted "checking root CA CRL: %v" (checkCRLs rootCert interCert)
  end.
End cache.

(** ** The configuration *)
Record gcpConfig : Type := mkGcpConfig {
  gcp_ClusterName : string; gcp_ProjectID : string; gcp_Location : string; gcp_Zones : list string;
  gcp_TPMEndorsementCACache : caCache; gcp_ComputePath : string; gcp_BetaComputePath : string; gcp_ContainerPath : string
}.
Definition rootCertURL_ : string := "https://pki.goog/cloud_integrity/tpm_ek_root_1.crt".
Definition intermediateCAPrefix : string := "http://pki.goog/cloud_integrity/tpm_ek_intermediate_".

Fixpoint count_char (c : Ascii.ascii) (s : string) : nat :=
  match s with EmptyString => O | String d s => ((if bool_decide (d = c) then 1 else 0) + count_char c s)%nat end.
Definition getRegionFromLocation (loc : string) : outcome string :=
  match count_char dash loc with
  | 1%nat => Ret loc
  | 2%nat => Ret match cut_last dash loc with Some (region, _) => region | None => loc end
  | _ => Err (Errorf "invalid gcp location %q")
  end.

(** [gce.conf], the clients and the metadata server, whose answer may be that a
    value is not defined. *)
Definition NotDefinedError : error := ErrSentinel "metadata: GCE metadata not defined".
Record gceConf : Type := mkGceConf { conf_ProjectID : string; conf_TokenURL : string; conf_TokenBody : string }.
Class GcpServices (W : Type) : Type := {
  gcfg_ReadFileInto : string → io W gceConf;
  compute_New : TokenSource → io W string;
  betacompute_New : TokenSource → io W string;
  container_New : TokenSource → io W string;
  zones_ListPages : string → string → io W (list (list string))
}.
(** [sort.Slice].  The comparison below holds between an element and itself,
    which the package does not allow for: all that is kept is that nothing is lost. *)
Class SliceSort : Type := {
  sort_Slice : (string → string → bool) → list string → list string;
  sort_Slice_perm less l : sort_Slice less l ≡ₚ l
}.

Section config.
Context {W : Type} `{GcpServices W} `{MetadataServer W} `{SliceSort}.

Definition containerEndpoint : io W string :=
  r ← try (metadata_Get "instance/attributes/gke-api-endpoint");
  match r with
  | inr e => mret e
  | inl err => if bool_decide (err = NotDefinedError) then mret EmptyString else fail err
  end.

Definition loadGCPConfig (gceConfigPath gceAPIEndpointOverride : string) : io W gcpConfig :=
  conf ← gcfg_ReadFileInto gceConfigPath;
  let tokenSource := AltTokenSource (conf_TokenURL conf) (conf_TokenBody conf) in
  v1 ← formatted "creating GCE API client: %v" (compute_New tokenSource);
  let v1 := orElse gceAPIEndpointOverride v1 in
  beta ← formatted "creating GCE Beta API client: %v" (betacompute_New tokenSource);
  let beta := if bool_decide (gceAPIEndpointOverride = EmptyString) then beta else ReplaceAll gceAPIEndpointOverride "v1" "beta" in
  containerPath ← formatted "creating GKE API client: %v" (container_New tokenSource);
  endpoint ← containerEndpoint;
  let containerPath := orElse endpoint containerPath in
  location ← metadata_Get "instance/attributes/cluster-location";
  region ← lift (getRegionFromLocation location);
  pages ← zones_ListPages v1 (conf_ProjectID conf);
  let zones := filter (λ z, HasPrefix z region = true) (concat pages) in
  if bool_decide (zones = []) then fail (Errorf "can't find zones for region %q")
  else
    let zones := sort_Slice (λ a _, bool_decide (a = location)) zones in
    clusterName ← metadata_Get "instance/attributes/cluster-name";
    mret (mkGcpConfig clusterName (conf_ProjectID conf) location zones (mkCaCache rootCertURL_ intermediateCAPrefix ∅ ∅) v1 beta containerPath).
End config.

(** ** Properties: what a verified certificate means

    A certificate that the cache accepts has a verified chain and is on none of
    its revocation lists, which are recent and signed, whatever other goroutines
    do to the cache meanwhile; and the zones of the configuration. *)

(** What servers answered and when; the clock goes forward. *)
Class PkiWorld (W : Type) `{Pki W} : Type := {
  pki_clock : W → Z;
  Served : Z → string → string → Prop;
  Chained : caCert → caCert → caCert → Prop;
  get_served url w : let '(r, w') := http_Get url w in
    pki_clock w ≤ pki_clock w' ∧ ∀ body, r = Ret body → ∃ t, t ≤ pki_clock w' ∧ Served t url body;
  now_clock w : ∃ w', pki_Now w = (Ret (pki_clock w'), w') ∧ pki_clock w ≤ pki_clock w';
  verify_chained cert root inter w : let '(r, w') := cert_Verify cert root inter w in
    pki_clock w ≤ pki_clock w' ∧ (r = Ret tt → Chained cert root inter)
}.

Section cache.
Context {W : Type} `{PkiWorld W}.

(** A list that a server answered at or before [until], signed by some certificate. *)
Definition servedCRL (url : string) (l : CertificateList) (until : Z) : Prop :=
  ∃ t body signer, Served t url body ∧ t ≤ until ∧ x509_ParseDERCRL body = Ret l ∧ CheckCRLSignature signer l = Ret tt.
Definition servedCert (url : string) (crt : caCert) : Prop :=
  ∃ t body, Served t url body ∧ x509_ParseCertificate body = Ret crt.

(** Everything in the cache was served; it is no earlier than [T0]. *)
Definition cache_inv (root prefix : string) (T0 : Z) (s : caCache * W) : Prop :=
  rootCertURL s.1 = root ∧ interPrefix s.1 = prefix ∧
  map_Forall servedCert (certs s.1) ∧
  map_Forall (λ url cached, servedCRL url (crl cached) (fetchedAt cached)) (crls s.1) ∧
  T0 ≤ pki_clock s.2.

(** A list read while verifying: fetched less than ten minutes before some moment
    of the verification. *)
Definition freshCRL (T0 : Z) (url : string) (l : CertificateList) : Prop :=
  ∃ fetched now, servedCRL url l fetched ∧ T0 ≤ now ∧ now - fetched < crlCacheDuration.

Section verification.
Variable others : caCache * W → caCache * W.
Variables (root prefix : string) (T0 : Z).
Abbreviation inv := (cache_inv root prefix T0).
Hypothesis others_keep : ∀ s, inv s → inv (others s).

Lemma keeps_others : keeps inv (put others) (λ _, True).
Proof. intros s Hs. wp_step. split; [by apply others_keep|done]. Qed.
Lemma keeps_cacheOf : keeps inv (cacheOf (W := W)) (λ c, rootCertURL c = root ∧ interPrefix c = prefix ∧ map_Forall servedCert (certs c)
  ∧ map_Forall (λ url cached, servedCRL url (crl cached) (fetchedAt cached)) (crls c)).
Proof. intros s Hs. unfold wp, cacheOf. cbn. split; [done|]. intros c [= <-]. by destruct Hs as (? & ? & ? & ? & ?). Qed.
Lemma keeps_fetchCert url : keeps inv (on_snd (fetchCert url)) (servedCert url).
Proof.
  intros [c w] (H1 & H2 & H3 & H4 & H5). unfold wp, on_snd, fetchCert. cbn in *. rewrite io_bind_eq.
  pose proof (get_served url w) as Hg. destruct (http_Get url w) as [[body|e|] w1]; destruct Hg as [Hc Hs]; cbn.
  - split; [split_and!; cbn; try done; lia|]. intros crt Hp. destruct (Hs body) as (t & _ & ?); [done|]. by exists t, body.
  - split; [split_and!; cbn; try done; lia|done].
  - split; [split_and!; cbn; try done; lia|done].
Qed.
(** The clock read after a step that was served. *)
Lemma keeps_pkiNow : keeps inv (on_snd pki_Now) (λ now, T0 ≤ now).
Proof.
  intros [c w] (H1 & H2 & H3 & H4 & H5). unfold wp, on_snd. cbn in *. destruct (now_clock w) as (w' & -> & Hc). cbn.
  split; [split_and!; cbn; try done; lia|]. intros now [= <-]. lia.
Qed.
Lemma keeps_setCert url crt : servedCert url crt → keeps inv (put (λ '(c, w), (set_certs <[ url := crt ]> c, w))) (λ _, True).
Proof.
  intros Hcrt [c w] (H1 & H2 & H3 & H4 & H5). wp_step. split; [|done]. split_and!; cbn; try done. by apply map_Forall_insert_2.
Qed.

Lemma keeps_getCertLocked url : keeps inv (getCertLocked url) (servedCert url).
Proof.
  unfold getCertLocked. eapply keeps_bind; [apply keeps_cacheOf|]. intros c (_ & _ & Hc & _).
  destruct (certs c !! url) eqn:Hl; [apply keeps_ret; by apply Hc|].
  eapply keeps_bind; [apply keeps_fetchCert|]. intros crt Hcrt. eapply keeps_bind; [by apply keeps_setCert|]. intros _ _. by apply keeps_ret.
Qed.
Lemma keeps_getCert url : keeps inv (getCert others url) (servedCert url).
Proof.
  unfold getCert. eapply keeps_bind; [apply keeps_cacheOf|]. intros c (_ & _ & Hc & _).
  eapply keeps_bind; [apply keeps_others|]. intros _ _. destruct (certs c !! url) eqn:Hl; [apply keeps_ret; by apply Hc|apply keeps_getCertLocked].
Qed.

Lemma keeps_cachedFor url : keeps inv (cachedFor url) (λ o, match o with Some l => freshCRL T0 url l | None => True end).
Proof.
  unfold cachedFor. eapply keeps_bind; [apply keeps_cacheOf|]. intros c (_ & _ & _ & Hc).
  destruct (crls c !! url) as [cached|] eqn:Hl; [|by apply keeps_ret].
  eapply keeps_bind; [apply keeps_pkiNow|]. intros now Hnow. apply keeps_ret.
  destruct (Z.ltb_spec (now - fetchedAt cached) crlCacheDuration); [|done].
  exists (fetchedAt cached), now. split_and!; [by apply Hc|done..].
Qed.

(** Under the write lock: the list, its signature, the time, the entry. *)
Lemma keeps_getCRLLocked url cert : keeps inv (getCRLLocked url cert) (freshCRL T0 url).
Proof.
  unfold getCRLLocked. eapply keeps_bind; [apply keeps_cachedFor|]. intros [l|] Ho; [by apply keeps_ret|]. clear Ho.
  intros [c w] (H1 & H2 & H3 & H4 & H5). cbn in *. wp_step. wp_step. unfold wp at 1, on_snd, fetchCRL. cbn. rewrite io_bind_eq.
  pose proof (get_served url w) as Hg. destruct (http_Get url w) as [[body|e|] w1]; destruct Hg as [Hc Hs]; cbn.
  - destruct (x509_ParseDERCRL body) as [l|e|] eqn:Hp.
    + destruct (CheckCRLSignature cert l) as [[]|e|] eqn:Hsig; [|split; [split_and!; cbn; try done; lia|done]..].
      wp_step. unfold wp at 1. cbn. destruct (now_clock w1) as (w2 & -> & Hc2). cbn. wp_steps.
      destruct (Hs body eq_refl) as (t & Ht & Hserved). assert (servedCRL url l (pki_clock w2)) as Hl by (exists t, body, cert; split_and!; done || lia).
      split; [split_and!; cbn; try done; [by apply map_Forall_insert_2|lia]|]. intros l' [= <-].
      exists (pki_clock w2), (pki_clock w2). assert (0 < crlCacheDuration) by done. split_and!; [done|lia|lia].
    + split; [split_and!; cbn; try done; lia|done].
    + split; [split_and!; cbn; try done; lia|done].
  - split; [split_and!; cbn; try done; lia|done].
  - split; [split_and!; cbn; try done; lia|done].
Qed.
Lemma keeps_getCRL url cert : keeps inv (getCRL others url cert) (freshCRL T0 url).
Proof.
  unfold getCRL. eapply keeps_bind; [apply keeps_cachedFor|]. intros o Ho. eapply keeps_bind; [apply keeps_others|]. intros _ _.
  destruct o; [by apply keeps_ret|apply keeps_getCRLLocked].
Qed.

(** On none of the lists of its distribution points. *)
Definition notRevoked (child : caCert) : Prop :=
  CRLDistributionPoints child ≠ [] ∧
  Forall (λ url, ∃ l, freshCRL T0 url l ∧ SerialNumber child ∉ RevokedCertificates l) (CRLDistributionPoints child).
Lemma keeps_checkPoints parent child urls :
  keeps inv (checkPoints others parent child urls) (λ _, Forall (λ url, ∃ l, freshCRL T0 url l ∧ SerialNumber child ∉ RevokedCertificates l) urls).
Proof.
  induction urls as [|url urls IH]; cbn [checkPoints]; [by apply keeps_ret|].
  eapply keeps_bind; [apply keeps_getCRL|]. intros l Hl. case_bool_decide; [apply keeps_fail|].
  eapply keeps_mono, IH. intros [] ?. constructor; [by exists l|done].
Qed.
Lemma keeps_checkCRLs parent child : keeps inv (checkCRLs others parent child) (λ _, notRevoked child).
Proof.
  unfold checkCRLs. case_bool_decide; [apply keeps_fail|]. eapply keeps_mono, keeps_checkPoints. by intros [] ?.
Qed.
Lemma keeps_formatted {A} fmt (m : io (caCache * W) A) P : keeps inv m P → keeps inv (formatted fmt m) P.
Proof.
  intros Hm. unfold formatted. eapply keeps_bind; [by apply keeps_try|]. intros [e|a] Ha; [apply keeps_fail|by apply keeps_ret].
Qed.
Lemma keeps_verifyChain cert rt inter : keeps inv (on_snd (cert_Verify cert rt inter)) (λ _, Chained cert rt inter).
Proof.
  intros [c w] (H1 & H2 & H3 & H4 & H5). unfold wp, on_snd. cbn in *. pose proof (verify_chained cert rt inter w) as Hv.
  destruct (cert_Verify cert rt inter w) as [r w1]. destruct Hv as [Hc Hr]. cbn. split; [split_and!; cbn; try done; lia|]. intros [] ?. by apply Hr.
Qed.

End verification.
End cache.

(** ** Zones of the configuration *)
Section config.
Context {W : Type} `{GcpServices W} `{MetadataServer W} `{SliceSort}.

(** The configuration has all zones whose name starts with the region of the
    cluster's location, at least one, each as often as the listing has it. *)
Theorem config_zones path override (a : gcpConfig) (w w' : W) :
  loadGCPConfig path override w = (Ret a, w') →
  ∃ region pages w1, getRegionFromLocation (gcp_Location a) = Ret region ∧
    (zones_ListPages (gcp_ComputePath a) (gcp_ProjectID a) w1).1 = Ret pages ∧
    gcp_Zones a ≡ₚ filter (λ z, HasPrefix z region = true) (concat pages) ∧ gcp_Zones a ≠ [] ∧
    (override ≠ EmptyString → gcp_ComputePath a = override ∧ gcp_BetaComputePath a = ReplaceAll override "v1" "beta").
Proof.
  unfold loadGCPConfig. intros (conf & w1 & _ & Hr)%io_bind_Ret. apply io_bind_Ret in Hr as (v1 & w2 & _ & Hr).
  apply io_bind_Ret in Hr as (beta & w3 & _ & Hr). apply io_bind_Ret in Hr as (cont & w4 & _ & Hr). apply io_bind_Ret in Hr as (ep & w5 & _ & Hr).
  apply io_bind_Ret in Hr as (loc & w6 & _ & Hr). apply io_bind_Ret in Hr as (region & w7 & [= Hreg <-] & Hr).
  apply io_bind_Ret in Hr as (pages & w8 & Hpages & Hr). case_bool_decide as Hz; [done|].
  apply io_bind_Ret in Hr as (name & w9 & _ & [= <- _]). cbn. exists region, pages, w6. split_and!.
  - done.
  - by rewrite Hpages.
  - apply sort_Slice_perm.
  - intros Hn. apply Hz. apply Permutation_nil. rewrite <- Hn. apply sort_Slice_perm.
  - intros Hne. unfold orElse. by rewrite !bool_decide_eq_false_2.
Qed.
End config.

(** ** A PKI in memory

    What each URL answers from when on; the state is the clock. *)
Definition minute : Z := 60 * second.
Definition pages : gmap string (list (Z * string)) :=
  {[ "http://pki/inter_1"%string := [(0, "inter"%string)]; "https://root"%string := [(0, "root"%string)];
     "http://crl/root"%string := [(0, "crl root"%string)];
     "http://crl/inter"%string := [(5 * minute, "crl inter 7"%string); (0, "crl inter"%string)] ]}.
Definition page (url : string) (t : Z) : option string := snd <$> List.find (λ v, v.1 <=? t) (default [] (pages !! url)).
Record fakePki : Type := mkFakePki { fp_clock : Z }.
Definition tick (n : Z) (w : fakePki) : fakePki := mkFakePki (fp_clock w + n).
(** Bodies name what they hold. *)
Definition interCA : caCert := mkCaCert [] ["http://crl/root"%string] 2 "inter".
Definition rootCA : caCert := mkCaCert [] [] 1 "root".
Definition leaf : caCert := mkCaCert ["http://other"; "http://pki/inter_1"]%string ["http://crl/inter"%string] 7 "leaf".
Definition parseFakeCert (s : string) : outcome caCert :=
  if bool_decide (s = "inter"%string) then Ret interCA else if bool_decide (s = "root"%string) then Ret rootCA else Err (Errorf "x509").
Definition parseFakeCRL (s : string) : outcome CertificateList :=
  if bool_decide (s = "crl root"%string) then Ret (mkCRL [] "root")
  else if bool_decide (s = "crl inter"%string) then Ret (mkCRL [5] "inter")
  else if bool_decide (s = "crl inter 7"%string) then Ret (mkCRL [5; 7] "inter") else Err (Errorf "asn1").
#[global] Instance fake_pki : Pki fakePki := {
  http_Get url w := let w := tick 1 w in match page url (fp_clock w) with Some s => (Ret s, w) | None => (Err (Errorf "404"), w) end;
  pki_Now w := (Ret (fp_clock w), w);
  x509_ParseCertificate := parseFakeCert;
  x509_ParseDERCRL := parseFakeCRL;
  cert_Verify cert root inter w := if bool_decide (cert_Key root = "root"%string ∧ cert_Key inter = "inter"%string) then (Ret tt, w) else (Err (Errorf "unknown authority"), w);
  CheckCRLSignature cert l := if bool_decide (cert_Key cert = crl_Signature l) then Ret tt else Err (Errorf "signature")
}.
#[global] Program Instance fake_pki_world : PkiWorld fakePki := {
  pki_clock := fp_clock;
  Served t url body := page url t = Some body;
  Chained cert root inter := cert_Key root = "root"%string ∧ cert_Key inter = "inter"%string
}.
Next Obligation. intros url w. cbn. destruct (page url (fp_clock w + 1)) eqn:Hp; cbn; split; try lia; [|done]. intros body [= <-]. exists (fp_clock w + 1). by split. Qed.
Next Obligation. intros w. exists w. split; [done|lia]. Qed.
Next Obligation. intros cert root inter w. cbn. case_bool_decide; (split; [lia|done]). Qed.

(** The leaf is revoked after five minutes. *)
Definition pki0 : fakePki := mkFakePki 0.
Definition emptyCache : caCache := mkCaCache "https://root" "http://pki/inter_" ∅ ∅.
(** Another goroutine fetches the root certificate meanwhile. *)
Definition other (s : caCache * fakePki) : caCache * fakePki := (getCertLocked "https://root" s).2.
Definition accepted : caCache * fakePki := (caCache_verify other leaf (emptyCache, pki0)).2.
Lemma other_keeps s : cache_inv "https://root" "http://pki/inter_" 0 s → cache_inv "https://root" "http://pki/inter_" 0 (other s).
Proof.
  intros Hs. exact (proj1 (keeps_getCertLocked "https://root" "http://pki/inter_" 0 "https://root" s Hs)).
Qed.
