(* ===== verification/AuthPlugin.v ===== *)
(** * AuthPlugin: the credential plugin of kubectl

    [cmd/gke-gcloud-auth-plugin]: the three token providers, the token cache kept
    beside the kubeconfig file, and the credential that is printed.  Times are
    nanoseconds since the zero time. *)
From S2P Require Import Prelude GoNetText K8s GoStrings IoLogic Json WorkloadId.
Local Open Scope Z_scope.

Definition zeroTime : Z := 0.
Definition time_IsZero (t : Z) : bool := t =? zeroTime.

Record cache : Type := mkCache { CurrentContext : string; AccessToken : string; TokenExpiry : string; ExtraArgs : string }.
Definition cacheFields : list string := ["current_context"; "access_token"; "token_expiry"; "extra_args"]%string.
Definition cacheFileName : string := "gke_gcloud_auth_plugin_cache".
Definition cloudsdkAuthAccessEnvVar : string := "CLOUDSDK_AUTH_ACCESS_TOKEN".

(** [formatToJSON] of a cache, and [json.Unmarshal] into one. *)
Definition formatToJSON (c : cache) : string := marshal_indent (zip cacheFields [CurrentContext c; AccessToken c; TokenExpiry c; ExtraArgs c]).
Definition unmarshalCache (content : string) : outcome cache :=
  match unmarshal_struct cacheFields content with
  | ([ctx; token; expiry; args], None) => Ret (mkCache ctx token expiry args)
  | _ => Err (Errorf "cache file unmarshal resulted in error: %w")
  end.

(** What gcloud's config helper prints. *)
Record gcloudConfiguration : Type := mkGcloudConfig { gc_AccessToken : string; gc_TokenExpiry : Z; gc_AuthorizationTokenFile : string }.
(** [ExecCredential], of which the expiry is optional. *)
Record ExecCredential : Type := mkExec { ec_Kind : string; ec_APIVersion : string; ec_Token : string; ec_ExpirationTimestamp : option Z }.

(** Files, processes, the environment and the clock; [Format] and [Parse] of
    times in RFC 3339; the two decoders of gcloud's output. *)
Class AuthEnv (W : Type) : Type := {
  k8sStartingConfig : io W string;
  GetDefaultFilename : io W string;
  filepath_Dir : string → string;
  filepath_Join : string → string → string;
  os_ReadFile : string → io W string;
  atomic_WriteFile : string → string → io W unit;
  auth_timeNow : io W Z;
  os_Getenv : string → io W string;
  exec_Run : string → list string → io W string;
  googleDefaultTokenSource : list string → io W unit;
  default_Token : io W (string * Z);
  time_Format : Z → string;
  time_Parse : string → outcome Z;
  unmarshalGcloud : string → outcome gcloudConfiguration;
  unmarshalEdgeToken : string → outcome (string * Z);
  fmt_Print : ExecCredential → io W unit
}.

(** ** Token providers *)
Inductive tokenProvider : Type :=
| gcloudTokenProvider (account project impersonateServiceAccount : string)
| gcloudEdgeCloudTokenProvider (project location clusterName impersonateServiceAccount : string)
| defaultCredentialsTokenProvider.

(** [--name=value], if there is a value. *)
Definition option_arg (name value : string) : list string :=
  if bool_decide (value = EmptyString) then [] else [("--" +:+ name +:+ "=" +:+ value)%string].
Definition getExtraArgs (p : tokenProvider) : list string :=
  match p with
  | gcloudTokenProvider account project impersonate =>
      option_arg "project" project ++ option_arg "account" account ++ option_arg "impersonate-service-account" impersonate
  | gcloudEdgeCloudTokenProvider project location clusterName impersonate =>
      [clusterName; ("--project=" +:+ project)%string; ("--location=" +:+ location)%string; "--format=json"%string] ++
      option_arg "impersonate-service-account" impersonate
  | defaultCredentialsTokenProvider => []
  end.
Definition getGcloudArgs (p : tokenProvider) : list string :=
  match p with
  | gcloudTokenProvider _ _ _ => ["config"; "config-helper"; "--format=json"]%string ++ getExtraArgs p
  | gcloudEdgeCloudTokenProvider _ _ _ _ => ["edge-cloud"; "container"; "clusters"; "print-access-token"]%string ++ getExtraArgs p
  | defaultCredentialsTokenProvider => []
  end.

Section plugin.
Context {W : Type} `{AuthEnv W}.

Definition executeCommand (name : string) (arg : list string) : io W string :=
  r ← try (exec_Run name arg); match r with inl err => fail (ErrorfW "failure while executing %s, with args %v: %w (err: %s)" err) | inr out => mret out end.

Definition readGcloudConfig (args : list string) : io W gcloudConfiguration :=
  out ← executeCommand "gcloud" args;
  match unmarshalGcloud out with Ret gc => mret gc | Err err => fail (ErrorfW "error parsing gcloud output: %w" err) | Panic => lift Panic end.

Definition gcloud_token (p : tokenProvider) : io W (string * Z) :=
  env ← os_Getenv cloudsdkAuthAccessEnvVar;
  if bool_decide (env ≠ EmptyString) then mret (env, zeroTime)
  else
    gc ← readGcloudConfig (getGcloudArgs p);
    if bool_decide (gc_AccessToken gc = EmptyString) then fail (Errorf "gcloud config config-helper returned an empty access token")
    else
      token ← (if bool_decide (gc_AuthorizationTokenFile gc = EmptyString) then mret (gc_AccessToken gc)
               else
                 r ← try (os_ReadFile (gc_AuthorizationTokenFile gc));
                 match r with
                 | inl err => fail (ErrorfW "gcloud config sets property auth/authorization_token_file, but can't read file at %s: %w" err)
                 | inr bytes => mret ("iam-" +:+ gc_AccessToken gc +:+ "^" +:+ bytes)%string
                 end);
      mret (token, gc_TokenExpiry gc).

Definition edge_token (p : tokenProvider) : io W (string * Z) :=
  out ← executeCommand "gcloud" (getGcloudArgs p);
  match unmarshalEdgeToken out with Ret t => mret t | Err err => fail (ErrorfW "error parsing gcloud output: %w" err) | Panic => lift Panic end.

Definition defaultScopes : list string :=
  ["https://www.googleapis.com/auth/cloud-platform"; "https://www.googleapis.com/auth/userinfo.email"]%string.
(** [retry.OnError] with every error retriable: the last error. *)
Fixpoint retryOnError {A} (steps : nat) (m : io W A) : io W A :=
  r ← try m;
  match r with
  | inr a => mret a
  | inl err => match steps with O | 1%nat => fail err | S steps => retryOnError steps m end
  end.
Definition defaultTokenOnce : io W (string * Z) :=
  r ← try (googleDefaultTokenSource defaultScopes);
  match r with
  | inl err => fail (ErrorfW "cannot construct google default token source: %w" err)
  | inr _ =>
      r ← try default_Token;
      match r with inl err => fail (ErrorfW "cannot retrieve default token from google default token source: %w" err) | inr tok => mret tok end
  end.
Definition default_token : io W (string * Z) :=
  r ← try (retryOnError 4 defaultTokenOnce);
  match r with inl err => fail (ErrorfW "getting google default token failed after multiple retries: %w" err) | inr tok => mret tok end.

Definition provider_token (p : tokenProvider) : io W (string * Z) :=
  match p with
  | gcloudTokenProvider _ _ _ => gcloud_token p
  | gcloudEdgeCloudTokenProvider _ _ _ _ => edge_token p
  | defaultCredentialsTokenProvider => default_token
  end.
Definition useCache (p : tokenProvider) : io W bool :=
  match p with
  | gcloudTokenProvider _ _ _ => env ← os_Getenv cloudsdkAuthAccessEnvVar; mret (bool_decide (env = EmptyString))
  | gcloudEdgeCloudTokenProvider _ _ _ _ => mret true
  | defaultCredentialsTokenProvider => mret false
  end.

(** ** The cache *)
Definition getCacheFilePath : io W string :=
  kubeconfig ← GetDefaultFilename; mret (filepath_Join (filepath_Dir kubeconfig) cacheFileName).
Definition writeCacheFile (content : string) : io W unit :=
  cacheFilePath ← getCacheFilePath; atomic_WriteFile cacheFilePath content.

Definition writeGcloudAccessTokenToCache (p : tokenProvider) (accessToken : string) (expiry : Z) : io W unit :=
  r ← try k8sStartingConfig;
  match r with
  | inl err => fail (ErrorfW "error getting starting config: %w" err)
  | inr context =>
      let extraArgsString := join_with " " (getExtraArgs p) in
      writeCacheFile (formatToJSON (mkCache context accessToken (time_Format expiry) extraArgsString))
  end.

Definition getCachedGcloudAccessToken (p : tokenProvider) : io W (string * Z) :=
  cacheFilePath ← getCacheFilePath;
  content ← os_ReadFile cacheFilePath;
  c ← lift (unmarshalCache content);
  if bool_decide (AccessToken c = EmptyString) then fail (Errorf "cached token is empty")
  else
    expiryTimeStamp ← lift match time_Parse (TokenExpiry c) with Err err => Err (ErrorfW "error parsing timestamp %s, %w" err) | r => r end;
    now ← auth_timeNow;
    if expiryTimeStamp - 10 * second <? now then fail (Errorf "cached token is expiring in 10 seconds")
    else
      context ← (r ← try k8sStartingConfig; match r with inl err => fail (ErrorfW "error retrieving starting config: %w" err) | inr context => mret context end);
      if bool_decide (CurrentContext c ≠ context) then fail (Errorf "cache is invalid as the k8s starting config changed")
      else if bool_decide (ExtraArgs c ≠ join_with " " (getExtraArgs p)) then fail (Errorf "cache is invalid as the passed in args have changed")
      else mret (AccessToken c, expiryTimeStamp).

Definition accessToken (p : tokenProvider) : io W (string * Z) :=
  useCache ← useCache p;
  cached ← (if (useCache : bool) then r ← try (getCachedGcloudAccessToken p); mret match r with inl _ => None | inr t => Some t end else mret None);
  match (cached : option (string * Z)) with
  | Some t => mret t
  | None =>
      r ← try (provider_token p);
      match r with
      | inl err => fail (ErrorfW "Failed to retrieve access token:: %w" err)
      | inr (token, expiry) =>
          _ ← (if useCache && negb (time_IsZero expiry) then _ ← try (writeGcloudAccessTokenToCache p token expiry); mret tt else mret tt);
          mret (token, expiry)
      end
  end.

Definition execCredential (p : tokenProvider) : io W ExecCredential :=
  '(token, expiry) ← accessToken p;
  mret (mkExec "ExecCredential" "client.authentication.k8s.io/v1beta1" token (if time_IsZero expiry then None else Some expiry)).
Definition PrintCred (p : tokenProvider) : io W unit :=
  ec ← execCredential p;
  r ← try (fmt_Print ec);
  match r with inl err => fail (ErrorfW "unable to write ExecCredential to stdout: %w" err) | inr _ => mret tt end.

(** The flags; the checks of [main]. *)
Record pluginFlags : Type := mkPluginFlags {
  useApplicationDefaultCredentials : bool; useEdgeCloud : bool; flag_project : string; flag_account : string; flag_location : string;
  flag_cluster : string; flag_impersonate : string
}.
Definition chooseProvider (f : pluginFlags) : outcome tokenProvider :=
  if useEdgeCloud f then
    if bool_decide (flag_project f = EmptyString) || bool_decide (flag_location f = EmptyString) || bool_decide (flag_cluster f = EmptyString)
    then Err (Errorf "for --use_edge_cloud: --project, --location and --cluster are required")
    else Ret (gcloudEdgeCloudTokenProvider (flag_project f) (flag_location f) (flag_cluster f) (flag_impersonate f))
  else if useApplicationDefaultCredentials f then Ret defaultCredentialsTokenProvider
  else Ret (gcloudTokenProvider (flag_account f) (flag_project f) (flag_impersonate f)).
(** [main]: an error ends the process. *)
Definition plugin_main (f : pluginFlags) : io W unit := p ← lift (chooseProvider f); PrintCred p.
End plugin.

(** ** Properties: which token is handed out

    A cached token is used only while it is valid and for the context and the
    arguments it was fetched with, what was cached is read back, and a token that
    was not cached comes from the provider. *)

(** Reads leave the world; a written file is read back. *)
Class AuthWorld (W : Type) `{AuthEnv W} : Type := {
  auth_files : W → gmap string string;
  auth_context : W → option string;
  auth_clock : W → Z;
  auth_kubeconfig : W → string;
  config_read w : k8sStartingConfig w = (match auth_context w with Some c => Ret c | None => Err (Errorf "no config") end, w);
  filename_read w : GetDefaultFilename w = (Ret (auth_kubeconfig w), w);
  file_read path w : os_ReadFile path w = (match auth_files w !! path with Some c => Ret c | None => Err (Errorf "no such file") end, w);
  clock_read w : auth_timeNow w = (Ret (auth_clock w), w);
  file_write path content w : let '(r, w') := atomic_WriteFile path content w in
    r ≠ Panic ∧ (r = Ret tt → auth_files w' = <[ path := content ]> (auth_files w));
  parse_no_panic s : time_Parse s ≠ Panic;
  parse_format t : time_Parse (time_Format t) = Ret t;
  format_ascii t : is_ascii (time_Format t) = true
}.

Section plugin.
Context {W : Type} `{AuthWorld W}.

Definition cachePath (w : W) : string := filepath_Join (filepath_Dir (auth_kubeconfig w)) cacheFileName.

(** The cache that serves [p] in [w]: valid for ten seconds more, of the current
    context and of the same arguments. *)
Definition serves (p : tokenProvider) (w : W) (c : cache) (expiry : Z) : Prop :=
  AccessToken c ≠ EmptyString ∧ time_Parse (TokenExpiry c) = Ret expiry ∧ auth_clock w + 10 * second ≤ expiry ∧
  auth_context w = Some (CurrentContext c) ∧ ExtraArgs c = join_with " " (getExtraArgs p).

Lemma run_path w : getCacheFilePath w = (Ret (cachePath w), w).
Proof. unfold getCacheFilePath. by rewrite io_bind_eq, filename_read. Qed.

Lemma unmarshalCache_no_panic content : unmarshalCache content ≠ Panic.
Proof. unfold unmarshalCache. destruct (unmarshal_struct _ _) as [[|? [|? [|? [|? [|? ?]]]]] [?|]]; done. Qed.

(** The cache answers exactly when it holds a token that serves. *)
Lemma cached_iff p w :
  (getCachedGcloudAccessToken p w).2 = w ∧ (getCachedGcloudAccessToken p w).1 ≠ Panic ∧
  ∀ token expiry, (getCachedGcloudAccessToken p w).1 = Ret (token, expiry) ↔
    ∃ content c, auth_files w !! cachePath w = Some content ∧ unmarshalCache content = Ret c ∧ token = AccessToken c ∧ serves p w c expiry.
Proof.
  unfold getCachedGcloudAccessToken. rewrite io_bind_eq, run_path, io_bind_eq, file_read.
  destruct (auth_files w !! cachePath w) as [content|]; [|split_and!; [done|done|intros token expiry; cbn; split; [done|]; by intros (? & ? & [=] & _)]].
  rewrite io_bind_eq. change (lift (unmarshalCache content) w) with (unmarshalCache content, w). destruct (unmarshalCache content) as [c|e|] eqn:Hc; [|split_and!; [done|done|intros token expiry; cbn; split; [done|]; intros (? & ? & [= <-] & ? & _); congruence]|by apply unmarshalCache_no_panic in Hc].
  assert (∀ token expiry, (∃ content0 c0, Some content = Some content0 ∧ unmarshalCache content0 = Ret c0 ∧ token = AccessToken c0 ∧ serves p w c0 expiry) ↔
    token = AccessToken c ∧ serves p w c expiry) as Hex by (intros token expiry; split; [intros (? & ? & [= <-] & Hu & -> & ?); rewrite Hc in Hu; by injection Hu as <-|intros [-> ?]; by exists content, c]).
  setoid_rewrite Hex. unfold serves. cbv beta iota. case_bool_decide as Hne; [split_and!; [done|done|intros token expiry; cbn; split; [done|]; by intros (_ & ? & _)]|].
  rewrite io_bind_eq. unfold lift. pose proof (parse_no_panic (TokenExpiry c)) as Hnp.
  destruct (time_Parse (TokenExpiry c)) as [x|e|]; [|split_and!; [done|done|intros token expiry; cbn; split; [done|]; by intros (_ & _ & [=] & _)]|done].
  cbv beta iota. rewrite io_bind_eq, clock_read. cbv beta iota. destruct (Z.ltb_spec (x - 10 * second) (auth_clock w)); [split_and!; [done|done|]; intros; split; [done|]; intros (_ & _ & [= <-] & ? & _); lia|].
  rewrite !io_bind_eq. unfold try. rewrite config_read. destruct (auth_context w) as [context|]; [|split_and!; [done|done|intros token expiry; cbn; split; [done|]; by intros (_ & _ & _ & _ & [=] & _)]].
  cbn. case_bool_decide as Hctx; [split_and!; [done|done|]; intros; split; [done|]; intros (_ & _ & _ & _ & [= ?] & _); congruence|].
  case_bool_decide as Hargs; [split_and!; [done|done|intros token expiry; cbn; split; [done|]; by intros (_ & _ & _ & _ & _ & ?)]|]. split_and!; [done|done|].
  intros token expiry. split; [intros [= <- <-]; split_and!; try done; [lia|congruence]|]. by intros (-> & _ & [= <-] & _).
Qed.

Lemma run_cached p w w1 t : useCache p w = (Ret true, w1) → getCachedGcloudAccessToken p w1 = (Ret t, w1) → accessToken p w = (Ret t, w1).
Proof. intros Huse Hget. unfold accessToken. rewrite io_bind_eq, Huse. cbv beta iota. rewrite !io_bind_eq. unfold try. by rewrite Hget. Qed.
(** What follows a cache that does not serve. *)
Definition freshToken (p : tokenProvider) : io W (string * Z) :=
  r ← try (provider_token p);
  match r with
  | inl err => fail (ErrorfW "Failed to retrieve access token:: %w" err)
  | inr (token, expiry) =>
      _ ← (if true && negb (time_IsZero expiry) then _ ← try (writeGcloudAccessTokenToCache p token expiry); mret tt else mret tt);
      mret (token, expiry)
  end.
Lemma run_fresh p w w1 e : useCache p w = (Ret true, w1) → getCachedGcloudAccessToken p w1 = (Err e, w1) → accessToken p w = freshToken p w1.
Proof.
  intros Huse Hget. unfold accessToken. rewrite io_bind_eq, Huse. cbv beta iota. rewrite io_bind_eq, io_bind_eq. unfold try at 1. rewrite Hget. reflexivity.
Qed.

Lemma write_no_panic p token expiry w : (writeGcloudAccessTokenToCache p token expiry w).1 ≠ Panic.
Proof.
  unfold writeGcloudAccessTokenToCache. rewrite io_bind_eq. unfold try. rewrite config_read. destruct (auth_context w) as [context|]; [|done].
  cbn. unfold writeCacheFile. rewrite io_bind_eq, run_path. set (content := formatToJSON _). pose proof (file_write (cachePath w) content w) as Hw.
  destruct (atomic_WriteFile (cachePath w) content w). apply Hw.
Qed.
Lemma run_freshToken p w :
  match provider_token p w with
  | (Ret (token, expiry), w2) => (freshToken p w).1 = Ret (token, expiry)
  | (Err e, w2) => freshToken p w = (Err (ErrorfW "Failed to retrieve access token:: %w" e), w2)
  | (Panic, w2) => freshToken p w = (Panic, w2)
  end.
Proof.
  unfold freshToken. rewrite !io_bind_eq. assert (try (provider_token p) w = match provider_token p w with
    | (Ret a, w') => (Ret (inr a), w') | (Err e, w') => (Ret (inl e), w') | (Panic, w') => (Panic, w') end) as -> by done.
  destruct (provider_token p w) as [[[token expiry]|e|] w2]; [|done..]. cbv beta iota.
  destruct (negb (time_IsZero expiry)); [|done]. cbn [andb]. rewrite !io_bind_eq. unfold try. pose proof (write_no_panic p token expiry w2).
  by destruct (writeGcloudAccessTokenToCache p token expiry w2) as [[[]|e1|] w3].
Qed.


(** What was cached is read back: as long as the file is left alone, a later
    call gets the same token and expiry if it runs at least ten seconds before the
    expiry, in the same context and with the same arguments, and gets nothing from
    the cache otherwise. *)
Theorem token_cache_roundtrip p p' token expiry context (w w1 w2 : W) :
  writeGcloudAccessTokenToCache p token expiry w = (Ret tt, w1) → auth_context w = Some context →
  token ≠ EmptyString → Forall (λ s, is_ascii s = true) [context; token; join_with " " (getExtraArgs p)] →
  auth_kubeconfig w2 = auth_kubeconfig w → auth_files w2 !! cachePath w2 = auth_files w1 !! cachePath w2 →
  if decide (auth_clock w2 + 10 * second ≤ expiry ∧ auth_context w2 = Some context ∧ join_with " " (getExtraArgs p') = join_with " " (getExtraArgs p))
  then getCachedGcloudAccessToken p' w2 = (Ret (token, expiry), w2)
  else ∃ e, getCachedGcloudAccessToken p' w2 = (Err e, w2).
Proof.
  intros Hwrite Hctx Hne Hascii Hk Hf. revert Hwrite. unfold writeGcloudAccessTokenToCache. rewrite io_bind_eq. unfold try. rewrite config_read, Hctx. cbn.
  unfold writeCacheFile. rewrite io_bind_eq, run_path. set (c := mkCache context token (time_Format expiry) (join_with " " (getExtraArgs p))).
  pose proof (file_write (cachePath w) (formatToJSON c) w) as Hfw. intros Hrun. rewrite Hrun in Hfw. destruct Hfw as [_ Hfiles].
  rewrite Hfiles in Hf by done. assert (cachePath w2 = cachePath w) as Hpath by (unfold cachePath; by rewrite Hk).
  rewrite Hpath, lookup_insert_eq in Hf. assert (unmarshalCache (formatToJSON c) = Ret c) as Hu.
  { unfold unmarshalCache, formatToJSON. rewrite unmarshal_marshal_indent; [done|..].
    - apply (bool_decide_unpack _). by vm_compute.
    - done.
    - by repeat constructor.
    - split; [done|]. apply Forall_cons in Hascii as [? Hascii]. apply Forall_cons in Hascii as [? Hascii]. apply Forall_cons in Hascii as [? _].
      repeat constructor; try done. apply format_ascii. }
  destruct (cached_iff p' w2) as (Hw & Hnp & Hiff). rewrite Hpath, Hf in Hiff.
  destruct (getCachedGcloudAccessToken p' w2) as [r w3]. cbn in *. subst w3.
  assert (∀ tok x, r = Ret (tok, x) ↔ tok = token ∧ x = expiry ∧ (auth_clock w2 + 10 * second ≤ expiry ∧ auth_context w2 = Some context ∧ join_with " " (getExtraArgs p') = join_with " " (getExtraArgs p))) as Hr.
  { intros tok x. rewrite Hiff. unfold serves. split.
    - intros (content & c0 & [= <-] & Hu0 & -> & Hs). rewrite Hu in Hu0. injection Hu0 as <-. cbn in Hs. rewrite parse_format in Hs.
      destruct Hs as (_ & [= <-] & ? & ? & ?). by split_and!.
    - intros (-> & -> & ? & ? & ?). exists (formatToJSON c), c. split_and!; try done. apply parse_format. }
  case_decide as Hd; [f_equal; by apply Hr|]. destruct r as [[tok x]|e|]; [|by exists e|done]. destruct Hd. by apply (Hr tok x).
Qed.
End plugin.

(** ** A home directory

    The files, the context, the clock, and gcloud, which counts its calls and
    gives tokens valid for an hour. *)
Record home : Type := mkHome { h_files : gmap string string; h_context : string; h_clock : Z; h_calls : nat; h_env : string }.
Fixpoint bits_text (p : positive) : string := match p with xH => "." | xO p => String (chr 48) (bits_text p) | xI p => String (chr 49) (bits_text p) end.
Fixpoint bits_of (s : string) : option positive :=
  match s with
  | EmptyString => None
  | String c s => if bool_decide (c = dot) then Some xH else p ← bits_of s; Some (if bool_decide (c = chr 48) then xO p else xI p)
  end.
Definition timeText (t : Z) : string := match t with Z0 => "0" | Zpos p => String (chr 43) (bits_text p) | Zneg p => String (chr 45) (bits_text p) end.
Definition timeOf (s : string) : outcome Z :=
  match s with
  | String c s => match bits_of s with
                  | Some p => Ret (if bool_decide (c = chr 45) then Zneg p else Zpos p)
                  | None => if bool_decide (c = chr 48) then Ret 0 else Err (Errorf "bad time")
                  end
  | EmptyString => Err (Errorf "bad time")
  end.
Lemma bits_of_text p : bits_of (bits_text p) = Some p.
Proof. induction p as [p IH|p IH|]; [..|done]; cbn; by rewrite IH. Qed.
Lemma timeOf_text t : timeOf (timeText t) = Ret t.
Proof. destruct t as [|p|p]; [done|..]; unfold timeText, timeOf; by rewrite bits_of_text. Qed.

Definition hour : Z := 3600 * second.
#[global] Instance home_env : AuthEnv home := {
  k8sStartingConfig w := (Ret (h_context w), w);
  GetDefaultFilename w := (Ret "/home/u/.kube/config"%string, w);
  filepath_Dir s := match cut_last slash s with Some (d, _) => d | None => "."%string end;
  filepath_Join a b := (a +:+ "/" +:+ b)%string;
  os_ReadFile path w := (match h_files w !! path with Some c => Ret c | None => Err (Errorf "no such file") end, w);
  atomic_WriteFile path content w := (Ret tt, mkHome (<[ path := content ]> (h_files w)) (h_context w) (h_clock w) (h_calls w) (h_env w));
  auth_timeNow w := (Ret (h_clock w), w);
  os_Getenv _ w := (Ret (h_env w), w);
  exec_Run _ _ w := (Ret "out"%string, mkHome (h_files w) (h_context w) (h_clock w) (S (h_calls w)) (h_env w));
  googleDefaultTokenSource _ w := (Ret tt, w);
  default_Token w := (Err (Errorf "offline"), w);
  time_Format := timeText;
  time_Parse := timeOf;
  unmarshalGcloud _ := Ret (mkGcloudConfig "ya29" (2 * hour) EmptyString);
  unmarshalEdgeToken _ := Ret ("edge"%string, 2 * hour);
  fmt_Print _ w := (Ret tt, w)
}.
#[global] Program Instance home_world : AuthWorld home := {
  auth_files := h_files; auth_context w := Some (h_context w); auth_clock := h_clock; auth_kubeconfig _ := "/home/u/.kube/config"%string
}.
Next Obligation. done. Qed.
Next Obligation. done. Qed.
Next Obligation. done. Qed.
Next Obligation. done. Qed.
Next Obligation. done. Qed.
Next Obligation. intros [|c s]; [done|]. cbn. destruct (bits_of s); [done|]. by case_bool_decide. Qed.
Next Obligation. apply timeOf_text. Qed.
Next Obligation. intros [|p|p]; [done|..]; cbn; by induction p. Qed.

Definition atHome (clock : Z) : home := mkHome ∅ "gke_shop" clock 0 EmptyString.
Definition me : tokenProvider := gcloudTokenProvider "me@shop" EmptyString EmptyString.
Definition after (t : Z) (w : home) : home := mkHome (h_files w) (h_context w) t (h_calls w) (h_env w).
Definition switched (context : string) (w : home) : home := mkHome (h_files w) context (h_clock w) (h_calls w) (h_env w).
Definition asked : home := (accessToken me (atHome hour)).2.

Definition written : home := (writeGcloudAccessTokenToCache me "ya29" (2 * hour) (atHome hour)).2.
Lemma token_cache_roundtrip_witness :
  (if decide (auth_clock written + 10 * second ≤ 2 * hour ∧ auth_context written = Some "gke_shop"%string ∧ join_with " " (getExtraArgs me) = join_with " " (getExtraArgs me))
   then getCachedGcloudAccessToken me written = (Ret ("ya29"%string, 2 * hour), written)
   else ∃ e, getCachedGcloudAccessToken me written = (Err e, written)) ∧
  auth_clock written + 10 * second ≤ 2 * hour.
Proof.
  split; [|by vm_compute].
  apply (token_cache_roundtrip me me "ya29" (2 * hour) "gke_shop" (atHome hour) written written); try done. by repeat constructor.
Defined.
