(* ===== verification/Disks.v ===== *)
(** * Disks: persistent disks

    [gce_disks.go]: the calls of the disk service manager, the operations of the
    interface [Disks], and the labels of volumes.  Disks are zonal or regional; a
    disk whose zone is not known is searched in all managed zones. *)

From S2P Require Import Prelude Bits GoNet GoNetText GoStrings NetUtils K8s Json GceInstances NodeIpamConfig NodeAnnotator AddressManager LoadBalancer GceHosts NodeInstances WorkloadId.
Local Open Scope Z_scope.

(** ** Data *)
Inductive zoneType : Type := singleZone (zone : string) | multiZone (replicaZones : option (gset string)).
(** [ZoneInfo] is an interface, which may be nil. *)
Record Disk : Type := mkDisk {
  d_ZoneInfo : option zoneType; d_Region : string; d_Name : string; d_Kind : string; d_Type : string; d_SizeGb : Z
}.
(** [compute.Disk] *)
Record apiDisk : Type := mkApiDisk {
  ad_Name : string; ad_SizeGb : Z; ad_Description : string; ad_Type : string; ad_ReplicaZones : list string;
  ad_Zone : string; ad_Region : string; ad_Kind : string
}.
(** [compute.AttachedDisk] *)
Record AttachedDisk : Type := mkAttached { at_DeviceName : string; at_Kind : string; at_Mode : string; at_Source : string; at_Type : string }.

#[global] Instance zoneType_eq_dec : EqDecision zoneType. Proof. solve_decision. Defined.
#[global] Instance Disk_eq_dec : EqDecision Disk. Proof. solve_decision. Defined.
#[global] Instance apiDisk_eq_dec : EqDecision apiDisk. Proof. solve_decision. Defined.
#[global] Instance AttachedDisk_eq_dec : EqDecision AttachedDisk. Proof. solve_decision. Defined.

(** The compute API for disks, by zone or region and name. *)
Class DisksAPI (W : Type) : Type := {
  Disks_Get : string → string → io W apiDisk;
  Disks_Insert : string → string → apiDisk → io W unit;
  Disks_Delete : string → string → io W unit;
  Disks_Resize : string → string → Z → io W unit;
  RegionDisks_Get : string → string → io W apiDisk;
  RegionDisks_Insert : string → string → apiDisk → io W unit;
  RegionDisks_Delete : string → string → io W unit;
  RegionDisks_Resize : string → string → Z → io W unit;
  Instances_AttachDisk : string → string → AttachedDisk → io W unit;
  Instances_DetachDisk : string → string → string → io W unit
}.

Definition DiskTypeSSD : string := "pd-ssd".
Definition DiskTypeStandard : string := "pd-standard".
Definition diskTypeDefault : string := DiskTypeStandard.
Definition diskTypePersistent : string := "PERSISTENT".
Definition diskKind : string := "compute#disk".
Definition DiskNotFound : error := ErrSentinel "disk is not found".

Definition isGCEError (err : error) (reason : string) : bool :=
  match err with ErrGoogleReasons _ reasons => bool_decide (reason ∈ reasons) | _ => false end.

Definition getDiskType (diskType : string) : outcome string :=
  if bool_decide (diskType = DiskTypeSSD) || bool_decide (diskType = DiskTypeStandard) then Ret diskType
  else if bool_decide (diskType = EmptyString) then Ret diskTypeDefault
  else Err (Errorf "invalid GCE disk type %q").

(** [json.Marshal] of a map: the members in the order of the keys. *)
Definition encodeDiskTags (tags : gmap string string) : string :=
  if bool_decide (tags = ∅) then EmptyString
  else marshal_struct ((λ kv, (kv.1, FString kv.2)) <$> merge_sort member_le (map_to_list tags)).

(** ** Zones in labels, [k8s.io/cloud-provider/volume/helpers] *)
Definition LabelMultiZoneDelimiter : string := "__".
Fixpoint trimmedSet (zones : list string) (zonesSet : gset string) : outcome (gset string) :=
  match zones with
  | [] => Ret zonesSet
  | zone :: zones =>
      let trimmedZone := TrimSpace zone in
      if bool_decide (trimmedZone = EmptyString) then Err (Errorf "%q separated list (%q) must not contain an empty string")
      else trimmedSet zones ({[ trimmedZone ]} ∪ zonesSet)
  end.
Definition stringToSet (str delimiter : string) : outcome (gset string) := trimmedSet (split_str delimiter str) ∅.
Definition LabelZonesToSet (labelZonesValue : string) : outcome (gset string) := stringToSet labelZonesValue LabelMultiZoneDelimiter.

(** [UnsortedList] of a set ranges over it. *)
Definition UnsortedList `{MapOrder} (s : gset string) : list string := (range (gset_to_gmap tt s)).*1.
Definition ZonesSetToLabelValue `{MapOrder} (strSet : gset string) : string := join_with LabelMultiZoneDelimiter (UnsortedList strSet).

(** ** Sizes: a quantity is a number of bytes *)
Definition GiB : Z := 1024 * 1024 * 1024.
Definition MaxInt64 : Z := 2 ^ 63 - 1.
Definition roundUpSizeInt64 (size allocationUnitBytes : Z) : outcome Z :=
  if MaxInt64 <=? size then Err (Errorf "quantity %s is too great, overflows int64")
  else
    let roundedUp := Z.quot size allocationUnitBytes in
    Ret (if 0 <? Z.rem size allocationUnitBytes then roundedUp + 1 else roundedUp).
Definition RoundUpToGiB (size : Z) : outcome Z := roundUpSizeInt64 size GiB.

(** ** What is attached *)
Definition verifyDisksAttachedToNode (disksToVerify : list string) (disksActuallyAttached : list string) : gmap string bool :=
  let diskNamesActuallyAttached := list_to_set disksActuallyAttached : gset string in
  foldl (λ m diskName, <[ diskName := bool_decide (diskName ∈ diskNamesActuallyAttached) ]> m) ∅ disksToVerify.

Section disks.
Context {W : Type} `{DisksAPI W} `{InstancesAPI W} `{MetadataServer W} `{InstanceLister W} `{MapOrder}.
Variable g : gceConfig.

(** ** URIs *)

(** The compute service is set: its endpoint with the element projects. *)
Definition getProjectsAPIEndpoint : string := g_projectsBasePath g.

Definition emptyReplicas (replicaZones : option (gset string)) : bool := bool_decide (default ∅ replicaZones = ∅).

Definition getDiskSourceURI (disk : Disk) : outcome string :=
  match d_ZoneInfo disk with
  | Some (singleZone zone) =>
      if bool_decide (zone = EmptyString) || bool_decide (d_Region disk = EmptyString) then Err (Errorf "PD does not have zone/region information: %#v")
      else Ret (getProjectsAPIEndpoint +:+ g_projectID g +:+ "/zones/" +:+ zone +:+ "/disks/" +:+ d_Name disk)%string
  | Some (multiZone replicaZones) =>
      if emptyReplicas replicaZones then Err (Errorf "PD is regional but does not have any replicaZones specified: %v")
      else Ret (getProjectsAPIEndpoint +:+ g_projectID g +:+ "/regions/" +:+ d_Region disk +:+ "/disks/" +:+ d_Name disk)%string
  | None => Err (Errorf "PD did not have ZoneInfo: %v")
  end.

Definition getDiskTypeURI (diskRegion : string) (diskZoneInfo : zoneType) (diskType : string) : outcome string :=
  match diskZoneInfo with
  | singleZone zone =>
      if bool_decide (zone = EmptyString) then Err (Errorf "zone is empty: %v")
      else Ret (getProjectsAPIEndpoint +:+ g_projectID g +:+ "/zones/" +:+ zone +:+ "/diskTypes/" +:+ diskType)%string
  | multiZone replicaZones =>
      if emptyReplicas replicaZones then Err (Errorf "zoneInfo is regional but does not have any replicaZones specified: %v")
      else Ret (getProjectsAPIEndpoint +:+ g_projectID g +:+ "/regions/" +:+ diskRegion +:+ "/diskTypes/" +:+ diskType)%string
  end.

Definition getReplicaZoneURI (zone : string) : string := (getProjectsAPIEndpoint +:+ g_projectID g +:+ "/zones/" +:+ zone)%string.

Definition getRegionFromZone (zoneInfo : zoneType) : outcome string :=
  zone ← match zoneInfo with
         | singleZone zone => if bool_decide (zone = EmptyString) then Err (Errorf "PD is single zone, but zone is not specified: %#v") else Ret zone
         | multiZone replicaZones =>
             if emptyReplicas replicaZones then Err (Errorf "PD is regional but does not have any replicaZones specified: %v")
             else Ret (default EmptyString (head (UnsortedList (default ∅ replicaZones))))
         end;
  Ret match GetGCERegion zone with Ret region => region | _ => g_region g end.

(** ** The disk service manager *)
Definition CreateDiskOnCloudProvider (name : string) (sizeGb : Z) (tagsStr diskType zone : string) : io W Disk :=
  diskTypeURI ← lift (getDiskTypeURI (g_region g) (singleZone zone) diskType);
  _ ← Disks_Insert zone name (mkApiDisk name sizeGb tagsStr diskTypeURI [] EmptyString EmptyString EmptyString);
  mret (mkDisk (Some (singleZone zone)) (g_region g) EmptyString diskKind diskTypeURI sizeGb).

Definition CreateRegionalDiskOnCloudProvider (name : string) (sizeGb : Z) (tagsStr diskType : string) (replicaZones : gset string) : io W Disk :=
  diskTypeURI ← lift (getDiskTypeURI (g_region g) (multiZone (Some replicaZones)) diskType);
  let fullyQualifiedReplicaZones := getReplicaZoneURI <$> UnsortedList replicaZones in
  _ ← RegionDisks_Insert (g_region g) name (mkApiDisk name sizeGb tagsStr diskTypeURI fullyQualifiedReplicaZones EmptyString EmptyString EmptyString);
  mret (mkDisk (Some (multiZone (Some replicaZones))) (g_region g) name diskKind diskTypeURI sizeGb).

Definition AttachDiskOnCloudProvider (disk : Disk) (readWrite instanceZone instanceName : string) : io W unit :=
  source ← lift (getDiskSourceURI disk);
  Instances_AttachDisk instanceZone instanceName (mkAttached (d_Name disk) (d_Kind disk) readWrite source diskTypePersistent).

Definition DetachDiskOnCloudProvider (instanceZone instanceName devicePath : string) : io W unit :=
  Instances_DetachDisk instanceZone instanceName devicePath.

Definition GetDiskFromCloudProvider (zone diskName : string) : io W Disk :=
  if bool_decide (zone = EmptyString) then fail (Errorf "can not fetch disk %q, zone is empty")
  else if bool_decide (diskName = EmptyString) then fail (Errorf "can not fetch disk, zone is specified (%q), but disk name is empty")
  else
    diskStable ← Disks_Get zone diskName;
    let z := TrimSpace (lastComponent (ad_Zone diskStable)) in
    let zoneInfo := if bool_decide (z = EmptyString) then singleZone zone else singleZone z in
    region ← lift (match getRegionFromZone zoneInfo with Err _ => Err (Errorf "failed to extract region from zone for %q/%q err=%v") | r => r end);
    mret (mkDisk (Some zoneInfo) region (ad_Name diskStable) (ad_Kind diskStable) (ad_Type diskStable) (ad_SizeGb diskStable)).

Definition GetRegionalDiskFromCloudProvider (diskName : string) : io W Disk :=
  diskBeta ← RegionDisks_Get (g_region g) diskName;
  let zones := list_to_set (lastComponent <$> ad_ReplicaZones diskBeta) : gset string in
  mret (mkDisk (Some (multiZone (Some zones))) (lastComponent (ad_Region diskBeta)) (ad_Name diskBeta) (ad_Kind diskBeta) (ad_Type diskBeta) (ad_SizeGb diskBeta)).

Definition DeleteDiskOnCloudProvider (zone diskName : string) : io W unit := Disks_Delete zone diskName.
Definition DeleteRegionalDiskOnCloudProvider (diskName : string) : io W unit := RegionDisks_Delete (g_region g) diskName.
Definition ResizeDiskOnCloudProvider (disk : Disk) (sizeGb : Z) (zone : string) : io W unit := Disks_Resize zone (d_Name disk) sizeGb.
Definition RegionalResizeDiskOnCloudProvider (disk : Disk) (sizeGb : Z) : io W unit := RegionDisks_Resize (d_Region disk) (d_Name disk) sizeGb.

(** ** Disks by name *)

(** Not found is no disk. *)
Definition foundOrNil {A} (m : io W A) : io W (option A) :=
  r ← try m;
  match r with
  | inr disk => mret (Some disk)
  | inl err => if negb (isHTTPErrorCode err StatusNotFound) then fail err else mret None
  end.
Definition findDiskByName (diskName zone : string) : io W (option Disk) := foundOrNil (GetDiskFromCloudProvider zone diskName).
Definition getDiskByName (diskName zone : string) : io W Disk :=
  disk ← findDiskByName diskName zone;
  match disk with None => fail (Errorf "GCE persistent disk not found: diskName=%q zone=%q") | Some disk => mret disk end.
Definition findRegionalDiskByName (diskName : string) : io W (option Disk) := foundOrNil (GetRegionalDiskFromCloudProvider diskName).
Definition getRegionalDiskByName (diskName : string) : io W Disk :=
  disk ← findRegionalDiskByName diskName;
  match disk with None => fail (Errorf "GCE regional persistent disk not found: diskName=%q") | Some disk => mret disk end.

Fixpoint scanManagedZones (diskName : string) (zones : list string) (found : option Disk) : io W (option Disk) :=
  match zones with
  | [] => mret found
  | zone :: zones =>
      disk ← findDiskByName diskName zone;
      match disk, found with
      | None, _ => scanManagedZones diskName zones found
      | Some disk, None => scanManagedZones diskName zones (Some disk)
      | Some disk, Some _ =>
          match d_ZoneInfo disk with
          | Some (multiZone replicaZones) =>
              if bool_decide (zone ∈ default ∅ replicaZones) then scanManagedZones diskName zones found
              else fail (Errorf "GCE PD name was found in multiple zones: %q")
          | _ => fail (Errorf "GCE PD name was found in multiple zones: %q")
          end
      end
  end.

Definition GetDiskByNameUnknownZone (diskName : string) : io W Disk :=
  regionalDisk ← try (getRegionalDiskByName diskName);
  match regionalDisk with
  | inr disk => mret disk
  | inl _ =>
      found ← scanManagedZones diskName (g_managedZones g) None;
      match found with Some disk => mret disk | None => fail DiskNotFound end
  end.

Definition getDiskByNameAndOptionalLabelZones (name labelZone : string) : io W Disk :=
  if bool_decide (labelZone = EmptyString) then GetDiskByNameUnknownZone name
  else
    zoneSet ← lift (LabelZonesToSet labelZone);
    if (1 <? size (zoneSet : gset string))%nat then getRegionalDiskByName name else getDiskByName name labelZone.

(** ** Labels of volumes *)
Definition LabelTopologyRegion : string := "topology.kubernetes.io/region".
Definition GetAutoLabelsForPD (disk : Disk) : outcome (gmap string string) :=
  match d_ZoneInfo disk with
  | Some (singleZone zone) =>
      if bool_decide (zone = EmptyString) || bool_decide (d_Region disk = EmptyString) then Err (Errorf "PD did not have zone/region information: %v")
      else Ret {[ GceHosts.LabelTopologyZone := zone; LabelTopologyRegion := d_Region disk ]}
  | Some (multiZone replicaZones) =>
      if emptyReplicas replicaZones then Err (Errorf "PD is regional but does not have any replicaZones specified: %v")
      else Ret {[ GceHosts.LabelTopologyZone := ZonesSetToLabelValue (default ∅ replicaZones); LabelTopologyRegion := d_Region disk ]}
  | None => Err (Errorf "PD did not have ZoneInfo: %v")
  end.

(** A volume: the name of its disk, a pointer, and its labels. *)
Record PersistentVolume : Type := mkPV { pv_PDName : option string; pv_Labels : gmap string string }.
Definition ProvisionedVolumeName : string := "placeholder-for-provisioning".

(** No labels is nil. *)
Definition GetLabelsForVolume (pv : PersistentVolume) : io W (option (gmap string string)) :=
  name ← lift match pv_PDName pv with Some name => Ret name | None => Panic end;
  if bool_decide (name = ProvisionedVolumeName) then mret None
  else
    let zone := default EmptyString (pv_Labels pv !! GceHosts.LabelTopologyZone) in
    let zone := if bool_decide (zone = EmptyString) then default EmptyString (pv_Labels pv !! LabelFailureDomainBetaZone) else zone in
    disk ← getDiskByNameAndOptionalLabelZones name zone;
    labels ← lift (GetAutoLabelsForPD disk);
    mret (Some labels).

(** ** Attaching *)
Definition AttachDisk (diskName nodeName : string) (readOnly regional : bool) : io W unit :=
  inst ← formatted "error getting instance %q" (getInstanceByName g (mapNodeNameToInstanceName nodeName));
  disk ← (if regional then getRegionalDiskByName diskName else getDiskByName diskName (gi_Zone inst));
  let readWrite := (if readOnly then "READ_ONLY" else "READ_WRITE")%string in
  AttachDiskOnCloudProvider disk readWrite (gi_Zone inst) (gi_Name inst).

Definition DetachDisk (devicePath nodeName : string) : io W unit :=
  r ← try (getInstanceByName g (mapNodeNameToInstanceName nodeName));
  match r with
  | inl err => if bool_decide (err = InstanceNotFound) then mret tt else fail (Errorf "error getting instance %q")
  | inr inst => DetachDiskOnCloudProvider (gi_Zone inst) (gi_Name inst) devicePath
  end.

Definition DiskIsAttached (diskName nodeName : string) : io W bool :=
  r ← try (getInstanceByName g (mapNodeNameToInstanceName nodeName));
  match r with
  | inl err => if bool_decide (err = InstanceNotFound) then mret false else fail err
  | inr inst => mret (existsb (λ name, bool_decide (name = diskName)) (gi_Disks inst))
  end.

(** The map, and the error with it. *)
Definition DisksAreAttached (diskNames : list string) (nodeName : string) : io W (gmap string bool * option error) :=
  let attached := foldl (λ m diskName, <[ diskName := false ]> m) ∅ diskNames : gmap string bool in
  r ← try (getInstanceByName g (mapNodeNameToInstanceName nodeName));
  match r with
  | inl err => if bool_decide (err = InstanceNotFound) then mret (attached, None) else mret (attached, Some err)
  | inr inst =>
      mret (foldl (λ m instanceDisk,
              foldl (λ m diskName, if bool_decide (instanceDisk = diskName) then <[ diskName := true ]> m else m) m diskNames)
              attached (gi_Disks inst), None)
  end.

Definition BulkDisksAreAttached (diskByNodes : gmap string (list string)) : io W (gmap string (gmap string bool)) :=
  let instanceNames := (λ kv, mapNodeNameToInstanceName kv.1) <$> range diskByNodes in
  listedInstances ← formatted "error listing instances: %v" (getFoundInstanceByNames g instanceNames);
  let listedInstanceNamesToDisks := foldl (λ m inst, <[ gi_Name inst := gi_Disks inst ]> m) ∅ listedInstances : gmap string (list string) in
  mret (map_imap (λ nodeName disksToVerify,
    let instanceName := canonicalizeInstanceName (mapNodeNameToInstanceName nodeName) in
    Some (verifyDisksAttachedToNode disksToVerify (default [] (listedInstanceNamesToDisks !! instanceName)))) diskByNodes).

(** ** Creating, deleting and resizing *)
Section nodes.
(** The informer of nodes and the zones it keeps. *)
Variable synced : option bool.
Variable zones : nodeZones.

Definition reuse (m again : io W Disk) : io W Disk :=
  r ← try m;
  match r with
  | inr disk => mret disk
  | inl err => if isGCEError err "alreadyExists" then again else fail err
  end.

Definition CreateDisk (name diskType zone : string) (sizeGb : Z) (tags : gmap string string) : io W Disk :=
  curZones ← GetAllCurrentZones g synced zones;
  if negb (bool_decide (zone ∈ curZones)) then fail (Errorf "kubernetes does not have a node in zone %q")
  else
    let tagsStr := encodeDiskTags tags in
    diskType ← lift (getDiskType diskType);
    reuse (CreateDiskOnCloudProvider name sizeGb tagsStr diskType zone) (GetDiskFromCloudProvider zone name).

Definition CreateRegionalDisk (name diskType : string) (replicaZones : gset string) (sizeGb : Z) (tags : gmap string string) : io W Disk :=
  curZones ← GetAllCurrentZones g synced zones;
  if negb (bool_decide (replicaZones ⊆ curZones))
  then fail (Errorf "kubernetes does not have nodes in specified zones: %q. Zones that contain nodes: %q")
  else
    let tagsStr := encodeDiskTags tags in
    diskType ← lift (getDiskType diskType);
    reuse (CreateRegionalDiskOnCloudProvider name sizeGb tagsStr diskType replicaZones) (GetRegionalDiskFromCloudProvider name).
End nodes.

Definition doDeleteDisk (diskToDelete : string) : io W unit :=
  disk ← GetDiskByNameUnknownZone diskToDelete;
  match d_ZoneInfo disk with
  | Some (singleZone zone) => DeleteDiskOnCloudProvider zone (d_Name disk)
  | Some (multiZone _) => DeleteRegionalDiskOnCloudProvider (d_Name disk)
  | None => fail (Errorf "PD has nil ZoneInfo: %v")
  end.

(** [volerr.NewDeletedVolumeInUseError] *)
Definition DeletedVolumeInUseError : error := Errorf "deletedVolumeInUseError".
Definition DeleteDisk (diskToDelete : string) : io W unit :=
  r ← try (doDeleteDisk diskToDelete);
  match r with
  | inl err =>
      if isGCEError err "resourceInUseByAnotherResource" then fail DeletedVolumeInUseError
      else if bool_decide (err = DiskNotFound) then mret tt
      else fail err
  | inr _ => mret tt
  end.

(** The size, and the error with it. *)
Definition ResizeDisk (diskToResize : string) (oldSize newSize : Z) : io W (Z * option error) :=
  r ← try (GetDiskByNameUnknownZone diskToResize);
  match r with
  | inl err => mret (oldSize, Some err)
  | inr disk =>
      match RoundUpToGiB newSize with
      | Err err => mret (oldSize, Some err)
      | Panic => lift Panic
      | Ret requestGIB =>
          let newSizeQuant := requestGIB * GiB in
          if requestGIB <=? d_SizeGb disk then mret (newSizeQuant, None)
          else
            let resized (m : io W unit) : io W (Z * option error) :=
              r ← try m; mret match r with inl err => (oldSize, Some err) | inr _ => (newSizeQuant, None) end in
            match d_ZoneInfo disk with
            | Some (singleZone zone) => resized (ResizeDiskOnCloudProvider disk requestGIB zone)
            | Some (multiZone _) => resized (RegionalResizeDiskOnCloudProvider disk requestGIB)
            | None => mret (oldSize, Some (Errorf "PD has nil ZoneInfo: %v"))
            end
      end
  end.
End disks.
