(* ===== verification/DisksProps.v ===== *)
(** * DisksProps: what the disk operations change

    Deletion and search of a disk by name, the batch checks of attached disks,
    sizes, the labels of volumes, and that disks are created where nodes are. *)
From S2P Require Import Prelude Bits GoNet GoNetText K8s GceInstances NetUtils NodeIpamConfig GoStrings IoLogic AddressManager NodeAnnotator LoadBalancer GceHosts NodeInstances NodeInstancesProps Disks.
Local Open Scope Z_scope.

(** ** The services

    The reads leave the world, and [ops] are the changes that were sent. *)
Inductive diskOp : Type :=
| InsertOp (zone name : string) (d : apiDisk) | InsertRegionalOp (region name : string) (d : apiDisk)
| DeleteOp (zone name : string) | DeleteRegionalOp (region name : string)
| ResizeOp (zone name : string) (sizeGb : Z) | ResizeRegionalOp (region name : string) (sizeGb : Z).

Class DisksWorld (W : Type) `{DisksAPI W} : Type := {
  ops : W → list diskOp;
  disk_get_reads zone name w : (Disks_Get zone name w).2 = w;
  disk_get_no_panic zone name w : (Disks_Get zone name w).1 ≠ Panic ∧ (Disks_Get zone name w).1 ≠ Err DiskNotFound;
  regional_get_reads region name w : (RegionDisks_Get region name w).2 = w;
  regional_get_no_panic region name w : (RegionDisks_Get region name w).1 ≠ Panic;
  disk_get_key zone name w d : (Disks_Get zone name w).1 = Ret d → ad_Name d = name ∧ TrimSpace (lastComponent (ad_Zone d)) = zone;
  regional_get_key region name w d : (RegionDisks_Get region name w).1 = Ret d → ad_Name d = name;
  delete_errors zone name w : (Disks_Delete zone name w).1 ≠ Err DiskNotFound;
  delete_regional_errors region name w : (RegionDisks_Delete region name w).1 ≠ Err DiskNotFound;
  insert_op zone name d w : ops (Disks_Insert zone name d w).2 = ops w ++ [InsertOp zone name d];
  insert_regional_op region name d w : ops (RegionDisks_Insert region name d w).2 = ops w ++ [InsertRegionalOp region name d];
  delete_op zone name w : ops (Disks_Delete zone name w).2 = ops w ++ [DeleteOp zone name];
  delete_regional_op region name w : ops (RegionDisks_Delete region name w).2 = ops w ++ [DeleteRegionalOp region name];
  resize_op zone name s w : ops (Disks_Resize zone name s w).2 = ops w ++ [ResizeOp zone name s];
  resize_regional_op region name s w : ops (RegionDisks_Resize region name s w).2 = ops w ++ [ResizeRegionalOp region name s]
}.

Section disks.
Context {W : Type} `{DisksWorld W} `{!InstancesAPI W} `{!MetadataServer W} `{!InstanceLister W} `{!MapOrder}.
Variable g : gceConfig.

(** ** Reads *)
Definition reads {A} (m : io W A) : Prop := ∀ w, (m w).2 = w ∧ (m w).1 ≠ Panic.
Lemma reads_ret {A} (a : A) : reads (mret a).
Proof. by intros w. Qed.
Lemma reads_fail {A} e : reads (@fail W A e).
Proof. by intros w. Qed.
Lemma reads_lift {A} (o : outcome A) : o ≠ Panic → reads (lift o).
Proof. by intros Ho w. Qed.
Lemma reads_bind {A B} (m : io W A) (f : A → io W B) : reads m → (∀ a, reads (f a)) → reads (m ≫= f).
Proof.
  intros Hm Hf w. rewrite io_bind_eq. destruct (Hm w) as [Hw Hp]. destruct (m w) as [[a| |] w1]; simpl in *; subst; [apply Hf|done..].
Qed.
Lemma reads_try {A} (m : io W A) : reads m → reads (try m).
Proof. intros Hm w. unfold try. destruct (Hm w) as [Hw Hp]. by destruct (m w) as [[] w1]. Qed.

Lemma getRegion_no_panic zi : getRegionFromZone g zi ≠ Panic.
Proof. unfold getRegionFromZone. destruct zi as [z|r]; [by case_bool_decide|by destruct (emptyReplicas r)]. Qed.
Lemma reads_getDisk zone name : reads (GetDiskFromCloudProvider g zone name).
Proof.
  unfold GetDiskFromCloudProvider. do 2 (case_bool_decide; [apply reads_fail|]).
  apply reads_bind; [intros w; split; [apply disk_get_reads|apply disk_get_no_panic]|]. intros d. apply reads_bind; [|intros; apply reads_ret].
  apply reads_lift. destruct (getRegionFromZone g _) eqn:Hr; [done..|]. by apply getRegion_no_panic in Hr.
Qed.
Lemma reads_foundOrNil {A} (m : io W A) : reads m → reads (foundOrNil m).
Proof. intros Hm. unfold foundOrNil. apply reads_bind; [by apply reads_try|]. intros [e|a]; [destruct (isHTTPErrorCode _ _)|]; simpl; by intros w. Qed.
Lemma reads_findDisk name zone : reads (findDiskByName g name zone).
Proof. apply reads_foundOrNil, reads_getDisk. Qed.
Lemma reads_regional name : reads (getRegionalDiskByName g name).
Proof.
  unfold getRegionalDiskByName. apply reads_bind; [|intros []; [apply reads_ret|apply reads_fail]].
  apply reads_foundOrNil. unfold GetRegionalDiskFromCloudProvider.
  apply reads_bind; [intros w; split; [apply regional_get_reads|apply regional_get_no_panic]|intros; apply reads_ret].
Qed.
Lemma reads_scan name zones found : reads (scanManagedZones g name zones found).
Proof.
  revert found. induction zones as [|z zones IH]; intros found; simpl; [apply reads_ret|].
  apply reads_bind; [apply reads_findDisk|]. intros [d|]; [|apply IH]. destruct found as [d'|]; [|apply IH].
  destruct (d_ZoneInfo d) as [[z'|r]|]; [apply reads_fail|case_bool_decide; [apply IH|apply reads_fail]|apply reads_fail].
Qed.
Lemma reads_unknownZone name : reads (GetDiskByNameUnknownZone g name).
Proof.
  unfold GetDiskByNameUnknownZone. apply reads_bind; [apply reads_try, reads_regional|]. intros [e|d]; [|apply reads_ret].
  apply reads_bind; [apply reads_scan|]. intros [d|]; [apply reads_ret|apply reads_fail].
Qed.

Lemma reads_run {A} (m : io W A) w : reads m → m w = ((m w).1, w).
Proof. intros Hm. destruct (Hm w) as [Hw _]. rewrite (surjective_pairing (m w)) at 1. by rewrite Hw. Qed.

(** ** Search *)
Definition zonalDisk (name : string) (w : W) (zone : string) (d : Disk) : Prop := (findDiskByName g name zone w).1 = Ret (Some d).
Definition noDisk (name : string) (w : W) (zone : string) : Prop := (findDiskByName g name zone w).1 = Ret None.

Lemma zonalDisk_key name w zone d : zonalDisk name w zone d → d_Name d = name ∧ d_ZoneInfo d = Some (singleZone zone).
Proof.
  unfold zonalDisk, findDiskByName, foundOrNil. rewrite io_bind_eq. unfold try.
  destruct (GetDiskFromCloudProvider g zone name w) as [[d'|e|] w1] eqn:Hget; [|by destruct (isHTTPErrorCode _ _)|done].
  intros [= <-]. revert Hget. unfold GetDiskFromCloudProvider. case_bool_decide as Hz; [done|]. case_bool_decide; [done|].
  intros (d & w2 & Hd & Hrest)%io_bind_Ret. destruct (disk_get_key zone name w d) as [Hn Hk]; [by rewrite Hd|].
  apply io_bind_Ret in Hrest as (region & w3 & _ & [= <- _]). simpl. rewrite Hk. by rewrite bool_decide_eq_false_2.
Qed.

(** A second disk of the name is an error. *)
Lemma scan_after name zones d w r : (scanManagedZones g name zones (Some d) w).1 = Ret r → r = Some d ∧ Forall (noDisk name w) zones.
Proof.
  induction zones as [|z zones IH]; simpl; [by intros [= <-]|]. rewrite io_bind_eq, (reads_run (findDiskByName g name z)) by apply reads_findDisk.
  destruct (findDiskByName g name z w).1 as [[d'|]|e|] eqn:Hf; try done.
  - destruct (zonalDisk_key name w z d' Hf) as [_ ->]. done.
  - intros [? ?]%IH. split; [done|]. by constructor.
Qed.
Lemma scan_result name zones w r : (scanManagedZones g name zones None w).1 = Ret r →
  match r with
  | None => Forall (noDisk name w) zones
  | Some d => ∃ before zone after, zones = before ++ zone :: after ∧ zonalDisk name w zone d ∧ Forall (noDisk name w) (before ++ after)
  end.
Proof.
  induction zones as [|z zones IH]; simpl; [by intros [= <-]|]. rewrite io_bind_eq, (reads_run (findDiskByName g name z)) by apply reads_findDisk.
  destruct (findDiskByName g name z w).1 as [[d|]|e|] eqn:Hf; try done.
  - intros [-> Hrest]%scan_after. by exists [], z, zones.
  - intros Hr. apply IH in Hr. destruct r as [d|]; [|by constructor].
    destruct Hr as (before & zone & after & -> & ? & ?). exists (z :: before), zone, after. split_and!; [done..|]. by constructor.
Qed.

Lemma getDisk_error zone name w : (GetDiskFromCloudProvider g zone name w).1 ≠ Err DiskNotFound.
Proof.
  unfold GetDiskFromCloudProvider. case_bool_decide; [done|]. case_bool_decide; [done|]. rewrite io_bind_eq.
  destruct (disk_get_no_panic zone name w) as [_ Hne]. destruct (Disks_Get zone name w) as [[d|e|] w1]; simpl in Hne; [|by intros [= ->]|done].
  rewrite io_bind_eq. unfold lift. by destruct (getRegionFromZone g _).
Qed.
Lemma findDisk_error zone name w e : (findDiskByName g name zone w).1 = Err e → e ≠ DiskNotFound.
Proof.
  unfold findDiskByName, foundOrNil. rewrite io_bind_eq. unfold try. pose proof (getDisk_error zone name w) as Hne.
  destruct (GetDiskFromCloudProvider g zone name w) as [[d|e'|] w1]; simpl in Hne; [done| |done].
  destruct (isHTTPErrorCode e' StatusNotFound); [done|]. intros [= <-]. congruence.
Qed.
Lemma scan_error name zones found w e : (scanManagedZones g name zones found w).1 = Err e →
  e ≠ DiskNotFound ∧ ∃ zone, zone ∈ zones ∧ ¬ noDisk name w zone.
Proof.
  revert found. induction zones as [|z zones IH]; intros found; simpl; [done|].
  rewrite io_bind_eq, (reads_run (findDiskByName g name z)) by apply reads_findDisk.
  destruct (findDiskByName g name z w).1 as [[d|]|e1|] eqn:Hf.
  - destruct found as [d'|].
    + destruct (zonalDisk_key name w z d Hf) as [_ ->]. intros [= <-]. split; [done|]. exists z. split; [by left|]. unfold noDisk. by rewrite Hf.
    + intros [? (zone & ? & ?)]%IH. split; [done|]. exists zone. split; [by right|done].
  - intros [? (zone & ? & ?)]%IH. split; [done|]. exists zone. split; [by right|done].
  - intros [= <-]. split; [by eapply findDisk_error|]. exists z. split; [by left|]. unfold noDisk. by rewrite Hf.
  - by destruct (reads_findDisk name z w).
Qed.

Lemma regional_cases name w :
  (∃ a d, (RegionDisks_Get (g_region g) name w).1 = Ret a ∧ (getRegionalDiskByName g name w).1 = Ret d ∧ d_Name d = name ∧ ∃ zs, d_ZoneInfo d = Some (multiZone zs)) ∨
  ((∃ e, (RegionDisks_Get (g_region g) name w).1 = Err e) ∧ ∃ e, (getRegionalDiskByName g name w).1 = Err e).
Proof.
  unfold getRegionalDiskByName, findRegionalDiskByName, foundOrNil, GetRegionalDiskFromCloudProvider.
  rewrite !io_bind_eq. unfold try. rewrite !io_bind_eq. pose proof (regional_get_no_panic (g_region g) name w) as Hp. pose proof (regional_get_key (g_region g) name w) as Hk.
  destruct (RegionDisks_Get (g_region g) name w) as [[a|e|] w1]; simpl in *; [left|right|done].
  - exists a. eexists. split_and!; [done|done|by apply Hk|by eexists].
  - split; [by exists e|]. destruct (isHTTPErrorCode e StatusNotFound); by eexists.
Qed.

(** Why a search ends: a regional disk, the only zonal one, or none. *)
Definition regionalAnswer (name : string) (w : W) : outcome apiDisk := (RegionDisks_Get (g_region g) name w).1.
Lemma unknownZone_cases name w :
  let r := (GetDiskByNameUnknownZone g name w).1 in
  (∃ a d, regionalAnswer name w = Ret a ∧ r = Ret d ∧ d_Name d = name ∧ ∃ zs, d_ZoneInfo d = Some (multiZone zs)) ∨
  ((∃ e, regionalAnswer name w = Err e) ∧
   ((∃ d before zone after, r = Ret d ∧ d_Name d = name ∧ d_ZoneInfo d = Some (singleZone zone) ∧
       g_managedZones g = before ++ zone :: after ∧ zonalDisk name w zone d ∧ Forall (noDisk name w) (before ++ after)) ∨
    (r = Err DiskNotFound ∧ Forall (noDisk name w) (g_managedZones g)) ∨
    (∃ e zone, r = Err e ∧ e ≠ DiskNotFound ∧ zone ∈ g_managedZones g ∧ ¬ noDisk name w zone))).
Proof.
  cbv zeta. unfold GetDiskByNameUnknownZone. rewrite io_bind_eq. unfold try. rewrite (reads_run (getRegionalDiskByName g name)) by apply reads_regional.
  destruct (regional_cases name w) as [(a & d & Ha & -> & Hd)|([e He] & e' & ->)]; [left; eauto 8|]. right. split; [eauto|].
  rewrite io_bind_eq, (reads_run (scanManagedZones g name (g_managedZones g) None)) by apply reads_scan.
  destruct (scanManagedZones g name (g_managedZones g) None w).1 as [[d|]|e1|] eqn:Hs.
  - apply scan_result in Hs as (before & zone & after & Hz & Hd & Hrest). destruct (zonalDisk_key name w zone d Hd) as [??].
    left. by exists d, before, zone, after.
  - apply scan_result in Hs. right. by left.
  - right. right. apply scan_error in Hs as (Hne & zone & ? & ?). by exists e1, zone.
  - by destruct (reads_scan name (g_managedZones g) None w).
Qed.

(** ** Deletion *)

(** C18: [DeleteDisk] sends at most one change, the deletion of a disk of that
    name: of the regional disk if there is one, otherwise of the zonal disk if
    exactly one managed zone has it.  It reports success only when that deletion
    succeeded or when nothing was found: the regional lookup failed, with any
    error at all, and no managed zone has the disk. *)
Theorem delete_disk_sound (name : string) (w : W) :
  let '(r, w') := DeleteDisk g name w in
  (ops w' = ops w ++ [DeleteRegionalOp (g_region g) name] ∧ (∃ a, regionalAnswer name w = Ret a) ∧
     (r = Ret tt → (RegionDisks_Delete (g_region g) name w).1 = Ret tt)) ∨
  (∃ before zone after d, ops w' = ops w ++ [DeleteOp zone name] ∧ (∃ e, regionalAnswer name w = Err e) ∧
     g_managedZones g = before ++ zone :: after ∧ zonalDisk name w zone d ∧ Forall (noDisk name w) (before ++ after) ∧
     (r = Ret tt → (Disks_Delete zone name w).1 = Ret tt)) ∨
  (w' = w ∧ (∃ e, regionalAnswer name w = Err e) ∧ (r = Ret tt ↔ Forall (noDisk name w) (g_managedZones g))).
Proof.
  unfold DeleteDisk. rewrite io_bind_eq. unfold try, doDeleteDisk. rewrite io_bind_eq, (reads_run (GetDiskByNameUnknownZone g name)) by apply reads_unknownZone.
  destruct (unknownZone_cases name w) as [(a & d & Ha & -> & Hn & zs & Hz)|(Hreg & [(d & before & zone & after & -> & Hn & Hz & Hzs & Hd & Hrest)|[[-> Hall]|(e & zone & -> & Hne & Hin & Hno)]])].
  - rewrite Hz, Hn. unfold DeleteRegionalDiskOnCloudProvider. pose proof (delete_regional_op (g_region g) name w) as Hop.
    pose proof (delete_regional_errors (g_region g) name w) as Herr. destruct (RegionDisks_Delete (g_region g) name w) as [[[]|e|] w1]; simpl in *.
    + left. split_and!; [done|by exists a|done].
    + destruct (isGCEError e _); [left; by split_and!; [|exists a|]|]. case_bool_decide; [congruence|]. left. by split_and!; [|exists a|].
    + left. by split_and!; [|exists a|].
  - rewrite Hz, Hn. unfold DeleteDiskOnCloudProvider. pose proof (delete_op zone name w) as Hop.
    pose proof (delete_errors zone name w) as Herr. destruct (Disks_Delete zone name w) as [[[]|e|] w1] eqn:Hdel; simpl in *.
    + right. left. exists before, zone, after, d. rewrite Hdel. by split_and!.
    + destruct (isGCEError e _); [right; left; exists before, zone, after, d; rewrite Hdel; by split_and!|].
      case_bool_decide; [congruence|]. right. left. exists before, zone, after, d. rewrite Hdel. by split_and!.
    + right. left. exists before, zone, after, d. rewrite Hdel. by split_and!.
  - right. right. by split_and!.
  - assert (¬ Forall (noDisk name w) (g_managedZones g)) by (rewrite Forall_forall; auto).
    destruct (isGCEError e _); [right; right; by split_and!|]. rewrite bool_decide_eq_false_2 by done. right. right. by split_and!.
Qed.

(** ** Sizes *)

Lemma RoundUpToGiB_spec size gib : 0 ≤ size → RoundUpToGiB size = Ret gib → size ≤ gib * GiB < size + GiB.
Proof.
  intros Hs. unfold RoundUpToGiB, roundUpSizeInt64. case_match; [done|]. intros [= <-].
  assert (0 < GiB) as Hg by done. pose proof (Z.quot_rem' size GiB) as Hq. pose proof (Z.rem_bound_pos size GiB Hs Hg).
  case_match; propify; nia.
Qed.
Lemma unknownZone_name name w d : (GetDiskByNameUnknownZone g name w).1 = Ret d → d_Name d = name.
Proof.
  destruct (unknownZone_cases name w) as [(a & d' & _ & -> & Hn & _)|(_ & [(d' & ? & ? & ? & -> & Hn & _)|[[-> _]|(? & ? & -> & _)]])]; congruence.
Qed.


(** ** Attached disks *)
Lemma lookup_foldl_insert {A} (f : string → A) names (m : gmap string A) k :
  foldl (λ m name, <[ name := f name ]> m) m names !! k = if decide (k ∈ names) then Some (f k) else m !! k.
Proof.
  revert m. induction names as [|n names IH]; intros m; simpl; [done|]. rewrite IH. repeat case_decide; try set_solver.
  - assert (k = n) as -> by set_solver. by rewrite lookup_insert_eq.
  - rewrite lookup_insert_ne; [done|set_solver].
Qed.
Lemma lookup_marks d names (m : gmap string bool) k :
  foldl (λ m name, if bool_decide (d = name) then <[ name := true ]> m else m) m names !! k =
  if decide (k = d ∧ k ∈ names) then Some true else m !! k.
Proof.
  revert m. induction names as [|n names IH]; intros m; simpl; [case_decide; set_solver|]. rewrite IH.
  case_bool_decide as Hd; repeat case_decide; try set_solver.
  - subst n. assert (k = d) as -> by set_solver. by rewrite lookup_insert_eq.
  - rewrite lookup_insert_ne; [done|set_solver].
Qed.
Lemma lookup_all_marks disks names (m : gmap string bool) k :
  foldl (λ m d, foldl (λ m name, if bool_decide (d = name) then <[ name := true ]> m else m) m names) m disks !! k =
  if decide (k ∈ disks ∧ k ∈ names) then Some true else m !! k.
Proof.
  revert m. induction disks as [|d disks IH]; intros m; [by rewrite decide_False by set_solver|]. simpl foldl. rewrite IH, lookup_marks.
  repeat case_decide; set_solver.
Qed.

(** The batch check of the disks of a node agrees, disk by disk, with the
    check of a single disk, with the set-based check that serves many nodes at
    once, and in its error. *)
Theorem attached_checks_agree (names : list string) (nodeName : string) (w : W) :
  reads (getInstanceByName g nodeName) →
  ∃ m err, DisksAreAttached g names nodeName w = (Ret (m, err), w) ∧
    (∀ inst, (getInstanceByName g nodeName w).1 = Ret inst → m = verifyDisksAttachedToNode names (gi_Disks inst)) ∧
    ∀ name, name ∈ names →
      match (DiskIsAttached g name nodeName w).1 with
      | Ret b => err = None ∧ m !! name = Some b
      | Err e => err = Some e ∧ m !! name = Some false
      | Panic => False
      end.
Proof.
  intros Hread. unfold DisksAreAttached, DiskIsAttached, mapNodeNameToInstanceName. rewrite io_bind_eq. unfold try.
  setoid_rewrite io_bind_eq. unfold try. rewrite (reads_run (getInstanceByName g nodeName)) by done.
  destruct (getInstanceByName g nodeName w).1 as [inst|e|] eqn:Hi; [..|by destruct (Hread w)].
  - eexists _, _. split; [done|]. split.
    + intros ? [= <-]. apply map_eq. intros k. unfold verifyDisksAttachedToNode.
      rewrite lookup_all_marks, (lookup_foldl_insert (λ _, false)), (lookup_foldl_insert (λ name, bool_decide (name ∈ _))).
      repeat case_decide; try set_solver; f_equal; symmetry; first [apply bool_decide_eq_true_2; set_solver|apply bool_decide_eq_false_2; set_solver].
    + intros name Hname. simpl. split; [done|]. rewrite lookup_all_marks, (lookup_foldl_insert (λ _, false)).
      destruct (existsb _ (gi_Disks inst)) eqn:He.
      * apply existsb_exists in He as (d & Hd%list_elem_of_In & ->%bool_decide_eq_true). by rewrite decide_True.
      * rewrite decide_False, decide_True; [done..|]. intros [Hd _]. assert (existsb (λ n, bool_decide (n = name)) (gi_Disks inst) = true); [|congruence].
        apply existsb_exists. exists name. rewrite <- list_elem_of_In. split; [done|]. by apply bool_decide_eq_true_2.
  - eexists _, (if decide (e = InstanceNotFound) then None else Some e). split; [by repeat case_bool_decide; case_decide|]. split; [done|].
    intros name Hname. case_bool_decide; case_decide; try done; simpl; (split; [done|]); by rewrite (lookup_foldl_insert (λ _, false)), decide_True.
Qed.

(** ** Creation *)
Lemma reuse_insert (o : outcome string) (ins : string → io W unit) (mk : string → Disk) (again : io W Disk) (op : string → diskOp) w :
  reads again → (∀ uri w, ops (ins uri w).2 = ops w ++ [op uri]) →
  let w' := (reuse (uri ← lift o; _ ← ins uri; mret (mk uri)) again w).2 in ops w' = ops w ∨ ∃ uri, ops w' = ops w ++ [op uri].
Proof.
  intros Hr Hins. cbv zeta. unfold reuse. rewrite io_bind_eq. unfold try. rewrite io_bind_eq. unfold lift.
  destruct o as [uri|e|]; [|left|by left].
  - right. exists uri. rewrite io_bind_eq. specialize (Hins uri w). destruct (ins uri w) as [[[]|e|] w1]; simpl in *; [done| |done].
    destruct (isGCEError e _); [|done]. by rewrite (reads_run again) by done.
  - destruct (isGCEError e _); [|done]. by rewrite (reads_run again) by done.
Qed.
Lemma reads_getRegional name : reads (GetRegionalDiskFromCloudProvider g name).
Proof.
  unfold GetRegionalDiskFromCloudProvider.
  apply reads_bind; [intros w; split; [apply regional_get_reads|apply regional_get_no_panic]|intros; apply reads_ret].
Qed.

(** With the zones kept by the node informer, a zonal disk is requested
    only in a zone in which the cluster has a node, and a regional one only if
    every replica zone has one; the request carries the name, the size and the
    tags that were asked for, and no other change is sent. *)
Theorem disks_created_with_nodes (nodes : gmap string Node) (zones : nodeZones) name diskType zone (replicas : gset string) sizeGb tags (w : W) :
  rtc zones_step (∅, ∅) (nodes, zones) →
  let has_node z := ∃ n node, nodes !! n = Some node ∧ getZone node = z in
  (let w' := (CreateDisk g (Some true) zones name diskType zone sizeGb tags w).2 in
   ops w' = ops w ∨ has_node zone ∧ ∃ uri, ops w' = ops w ++ [InsertOp zone name (mkApiDisk name sizeGb (encodeDiskTags tags) uri [] EmptyString EmptyString EmptyString)]) ∧
  (let w' := (CreateRegionalDisk g (Some true) zones name diskType replicas sizeGb tags w).2 in
   ops w' = ops w ∨ set_Forall has_node replicas ∧ ∃ uri, ops w' = ops w ++ [InsertRegionalOp (g_region g) name
     (mkApiDisk name sizeGb (encodeDiskTags tags) uri (getReplicaZoneURI g <$> UnsortedList replicas) EmptyString EmptyString EmptyString)]).
Proof.
  intros Hrun has_node. destruct (current_zones_run g nodes zones w (zones_exact_run _ Hrun)) as (current & Hcur & Hex). split; cbv zeta.
  - unfold CreateDisk. rewrite io_bind_eq, Hcur. case_bool_decide as Hz; [|by left]. cbn [negb].
    rewrite io_bind_eq. unfold lift. destruct (getDiskType diskType) as [ty|e|]; [|by left..].
    destruct (reuse_insert (getDiskTypeURI g (g_region g) (singleZone zone) ty) (λ uri, Disks_Insert zone name (mkApiDisk name sizeGb (encodeDiskTags tags) uri [] EmptyString EmptyString EmptyString))
      (λ uri, mkDisk (Some (singleZone zone)) (g_region g) EmptyString diskKind uri sizeGb) (GetDiskFromCloudProvider g zone name) _ w
      (reads_getDisk zone name) (λ uri, insert_op zone name _)) as [Ho|[uri Ho]]; [by left|].
    right. split; [by apply Hex|]. by exists uri.
  - unfold CreateRegionalDisk. rewrite io_bind_eq, Hcur. case_bool_decide as Hz; [|by left]. cbn [negb].
    rewrite io_bind_eq. unfold lift. destruct (getDiskType diskType) as [ty|e|]; [|by left..].
    destruct (reuse_insert (getDiskTypeURI g (g_region g) (multiZone (Some replicas)) ty)
      (λ uri, RegionDisks_Insert (g_region g) name (mkApiDisk name sizeGb (encodeDiskTags tags) uri (getReplicaZoneURI g <$> UnsortedList replicas) EmptyString EmptyString EmptyString))
      (λ uri, mkDisk (Some (multiZone (Some replicas))) (g_region g) name diskKind uri sizeGb) (GetRegionalDiskFromCloudProvider g name) _ w
      (reads_getRegional name) (λ uri, insert_regional_op (g_region g) name _)) as [Ho|[uri Ho]]; [by left|].
    right. split; [|by exists uri]. intros z Hz'. by apply Hex, Hz.
Qed.

(** ** Labels *)
Lemma elem_UnsortedList (s : gset string) x : x ∈ UnsortedList s ↔ x ∈ s.
Proof.
  unfold UnsortedList. rewrite range_perm, list_elem_of_fmap. split.
  - intros ([y []] & -> & [Hy _]%elem_of_map_to_list%lookup_gset_to_gmap_Some). done.
  - intros Hx. exists (x, tt). split; [done|]. by apply elem_of_map_to_list, lookup_gset_to_gmap_Some.
Qed.
(** The name of a zone as GCE has them: no underscore, no space around it. *)
Definition zone_name (z : string) : Prop := z ≠ EmptyString ∧ has_char (chr 95) z = false ∧ TrimSpace z = z.

Lemma trimmedSet_names l acc : Forall zone_name l → trimmedSet l acc = Ret (list_to_set l ∪ acc).
Proof.
  revert acc. induction l as [|z l IH]; intros acc Hl; simpl; [f_equal; set_solver|].
  apply Forall_cons in Hl as [(Hne & _ & Ht) Hl]. rewrite Ht, bool_decide_eq_false_2 by done. rewrite IH by done. f_equal. set_solver.
Qed.
Lemma LabelZones_join l : l ≠ [] → Forall zone_name l → LabelZonesToSet (join_with LabelMultiZoneDelimiter l) = Ret (list_to_set l).
Proof.
  intros Hne Hl. unfold LabelZonesToSet, stringToSet, LabelMultiZoneDelimiter.
  change "__"%string with (String (chr 95) (String (chr 95) EmptyString)). rewrite split_str_join; [|done|].
  - rewrite trimmedSet_names by done. f_equal. set_solver.
  - eapply Forall_impl; [exact Hl|]. by intros z (_ & ? & _).
Qed.

(** A volume labelled with the labels of its disk is found again where the
    disk is: a zonal disk in its zone, a regional disk of several zones as the
    regional disk, whatever order the zones were written in; and the label reads
    back as exactly the zones of the disk. *)
Theorem volume_labels_roundtrip (disk : Disk) (labels : gmap string string) (name : string) (w : W) :
  GetAutoLabelsForPD disk = Ret labels →
  let label := default EmptyString (labels !! GceHosts.LabelTopologyZone) in
  match d_ZoneInfo disk with
  | Some (singleZone zone) => zone_name zone →
      LabelZonesToSet label = Ret {[ zone ]} ∧ getDiskByNameAndOptionalLabelZones g name label w = getDiskByName g name zone w
  | Some (multiZone zones) => set_Forall zone_name (default ∅ zones) →
      LabelZonesToSet label = Ret (default ∅ zones) ∧
      ((1 < size (default ∅ zones))%nat → getDiskByNameAndOptionalLabelZones g name label w = getRegionalDiskByName g name w)
  | None => True
  end.
Proof.
  unfold GetAutoLabelsForPD. destruct (d_ZoneInfo disk) as [[zone|zones]|]; [| |done].
  - case_bool_decide as Hz; [done|]. case_bool_decide; [done|]. intros [= <-] Hzn. rewrite lookup_insert_eq. change (default EmptyString (Some zone)) with zone.
    assert (LabelZonesToSet zone = Ret {[ zone ]}) as Hl.
    { change zone with (join_with LabelMultiZoneDelimiter [zone]) at 1. rewrite LabelZones_join; [f_equal; set_solver|done|].
      apply Forall_cons. split; [done|constructor]. }
    split; [done|].
    unfold getDiskByNameAndOptionalLabelZones. rewrite bool_decide_eq_false_2 by done. rewrite io_bind_eq, Hl. unfold lift.
    by rewrite size_singleton.
  - unfold emptyReplicas. case_bool_decide as Hz; [done|]. intros [= <-] Hzn. rewrite lookup_insert_eq. change (default EmptyString (Some ?z)) with z.
    set (s := default ∅ zones) in *. assert (LabelZonesToSet (ZonesSetToLabelValue s) = Ret s) as Hl.
    { unfold ZonesSetToLabelValue. rewrite LabelZones_join.
      - f_equal. apply set_eq. intros x. by rewrite elem_of_list_to_set, elem_UnsortedList.
      - intros Hnil. apply Hz. apply set_eq. intros x. rewrite <- elem_UnsortedList, Hnil. set_solver.
      - apply Forall_forall. intros x Hx%elem_UnsortedList. by apply Hzn. }
    split; [done|]. intros Hsize. unfold getDiskByNameAndOptionalLabelZones. case_bool_decide as He; [by rewrite He in Hl|].
    rewrite io_bind_eq, Hl. unfold lift. by rewrite (proj2 (Nat.ltb_lt _ _) Hsize).
Qed.
End disks.

(** ** Runs: instances and disks in memory

    A compute API for instances and disks as a function of tables: the witnesses
    of the theorems on node instances and on disks run in it. *)

(** A zone or region that is down answers 503. *)
Record fakeCompute : Type := mkFakeCompute {
  fc_instances : list computeInstance; fc_disks : list apiDisk; fc_regionDisks : list apiDisk;
  fc_down : list string; fc_ops : list diskOp
}.
#[global] Instance diskOp_eq_dec : EqDecision diskOp. Proof. solve_decision. Defined.
#[global] Instance map_order : MapOrder := {| range A m := map_to_list m; range_perm A m := reflexivity _ |}.

Definition answerOf {A} (place : string) (found : option A) (w : fakeCompute) : outcome A * fakeCompute :=
  if bool_decide (place ∈ fc_down w) then (Err (ErrGoogleAPI 503), w)
  else match found with Some a => (Ret a, w) | None => (Err (ErrGoogleAPI 404), w) end.
Definition instanceAt (zone name : string) (w : fakeCompute) : option computeInstance :=
  List.find (λ i, bool_decide (ci_Name i = name ∧ lastComponent (ci_Zone i) = zone)) (fc_instances w).
Definition diskAt (zone name : string) (w : fakeCompute) : option apiDisk :=
  List.find (λ d, bool_decide (ad_Name d = name ∧ TrimSpace (lastComponent (ad_Zone d)) = zone)) (fc_disks w).
Definition regionDiskAt (region name : string) (w : fakeCompute) : option apiDisk :=
  List.find (λ d, bool_decide (ad_Name d = name ∧ lastComponent (ad_Region d) = region)) (fc_regionDisks w).
(** A change is recorded; deletions take effect. *)
Definition record (op : diskOp) (w : fakeCompute) : outcome unit * fakeCompute :=
  let remaining := match op with DeleteOp zone name => filter (λ d, ¬ (ad_Name d = name ∧ TrimSpace (lastComponent (ad_Zone d)) = zone)) (fc_disks w) | _ => fc_disks w end in
  (Ret tt, mkFakeCompute (fc_instances w) remaining (fc_regionDisks w) (fc_down w) (fc_ops w ++ [op])).

#[global] Instance fake_instances : InstancesAPI fakeCompute := {
  Instances_GetFull zone name w := answerOf zone (instanceAt zone name w) w;
  Instances_Insert _ _ _ w := (Ret tt, w);
  Instances_Delete _ _ w := (Ret tt, w);
  Projects_GetMetadata _ w := (Ret [], w);
  Projects_SetMetadata _ _ w := (Ret tt, w)
}.
#[global] Instance no_metadata : MetadataServer fakeCompute := {
  metadata_Get _ w := (Err (Errorf "not on GCE"), w);
  metadata_ProjectID w := (Err (Errorf "not on GCE"), w)
}.
#[global] Instance fake_lister : InstanceLister fakeCompute := {
  ComputeInstances_List zone _ w := (Ret [], w)
}.
#[global] Instance fake_disks : DisksAPI fakeCompute := {
  Disks_Get zone name w := answerOf zone (diskAt zone name w) w;
  Disks_Insert zone name d := record (InsertOp zone name d);
  Disks_Delete zone name := record (DeleteOp zone name);
  Disks_Resize zone name s := record (ResizeOp zone name s);
  RegionDisks_Get region name w := answerOf region (regionDiskAt region name w) w;
  RegionDisks_Insert region name d := record (InsertRegionalOp region name d);
  RegionDisks_Delete region name := record (DeleteRegionalOp region name);
  RegionDisks_Resize region name s := record (ResizeRegionalOp region name s);
  Instances_AttachDisk _ _ _ w := (Ret tt, w);
  Instances_DetachDisk _ _ _ w := (Ret tt, w)
}.

Lemma answerOf_reads {A} place (found : option A) w : (answerOf place found w).2 = w.
Proof. unfold answerOf. case_bool_decide; [done|]. by destruct found. Qed.
Lemma answerOf_errors {A} place (found : option A) w : ∀ r, (answerOf place found w).1 = r → match r with Ret a => found = Some a | Err e => ∃ n, e = ErrGoogleAPI n | Panic => False end.
Proof. intros r <-. unfold answerOf. case_bool_decide; [by eexists|]. destruct found; [done|by eexists]. Qed.

#[global] Instance fake_instances_world : InstancesWorld fakeCompute.
Proof.
  split.
  - intros. apply answerOf_reads.
  - intros zone name w. split; intros Hr%answerOf_errors; [done|]. by destruct Hr.
  - intros zone name w i Hr%answerOf_errors. apply List.find_some in Hr as [_ [<- <-]%bool_decide_eq_true]. done.
Qed.
#[global] Program Instance fake_disks_world : DisksWorld fakeCompute := { ops := fc_ops }.
Next Obligation. intros. apply answerOf_reads. Qed.
Next Obligation. intros zone name w. split; intros Hr%answerOf_errors; [done|]. by destruct Hr. Qed.
Next Obligation. intros. apply answerOf_reads. Qed.
Next Obligation. by intros region name w Hr%answerOf_errors. Qed.
Next Obligation. intros zone name w d Hr%answerOf_errors. by apply List.find_some in Hr as [_ [<- <-]%bool_decide_eq_true]. Qed.
Next Obligation. intros region name w d Hr%answerOf_errors. by apply List.find_some in Hr as [_ [<- _]%bool_decide_eq_true]. Qed.
Next Obligation. done. Qed.
Next Obligation. done. Qed.
Next Obligation. done. Qed.
Next Obligation. done. Qed.
Next Obligation. done. Qed.
Next Obligation. done. Qed.
Next Obligation. done. Qed.
Next Obligation. done. Qed.

(** ** A cluster *)
Definition fakeCloud : gceConfig :=
  mkGceConfig "p" "p" "us-east1" "https://compute/v1/projects/" "net" "sub" false false ["us-east1-b"; "us-east1-c"]%string EmptyString EmptyString ∅ false false.
Definition zonedNode (name zone id : string) : Node :=
  mkNode name name ∅ (if bool_decide (zone = EmptyString) then ∅ else {[ GceHosts.LabelTopologyZone := zone ]}) (mkSpec EmptyString [] id []) (mkStatus ∅ []).
Definition machine (name zone : string) (disks : list string) : computeInstance :=
  mkComputeInstance name ("https://compute/v1/projects/p/zones/" +:+ zone)%string 7 "zones/z/machineTypes/n1" disks [].
Definition zoneDisk (name zone : string) (sizeGb : Z) : apiDisk :=
  mkApiDisk name sizeGb EmptyString "pd-standard" [] ("https://compute/v1/projects/p/zones/" +:+ zone)%string EmptyString diskKind.
Definition regionDisk (name : string) (zones : list string) (sizeGb : Z) : apiDisk :=
  mkApiDisk name sizeGb EmptyString "pd-standard" zones EmptyString "https://compute/v1/projects/p/regions/us-east1" diskKind.

Definition compute0 : fakeCompute :=
  mkFakeCompute [machine "n1" "us-east1-c" ["data"; "logs"]%string]
    [zoneDisk "data" "us-east1-c" 10; zoneDisk "twin" "us-east1-b" 5; zoneDisk "twin" "us-east1-c" 5]
    [regionDisk "ha" ["us-east1-b"; "us-east1-c"]%string 20] [] [].
Definition compute_down (places : list string) : fakeCompute :=
  mkFakeCompute (fc_instances compute0) (fc_disks compute0) (fc_regionDisks compute0) places [].
Definition noServer : nodeConfig := mkNodeConfig "IPV4" "us-east1-b" false.

(** ** Zones of the nodes *)

(** A node moves to another zone, a node without a zone comes, and a node is
    deleted by a tombstone. *)
Definition a_b : Node := zonedNode "a" "us-east1-b" EmptyString.
Definition a_c : Node := zonedNode "a" "us-east1-c" EmptyString.
Definition b_b : Node := zonedNode "b" "us-east1-b" EmptyString.
Definition c_none : Node := zonedNode "c" EmptyString EmptyString.
Definition zones1 : nodeZones := zones_AddFunc c_none (zones_AddFunc b_b (zones_AddFunc a_b ∅)).
Definition zones2 : nodeZones := zones_DeleteFunc (FinalStateUnknown (Some b_b)) (zones_UpdateFunc a_b a_c zones1).
Definition nodes2 : gmap string Node :=
  delete (node_Name b_b) (<[ node_Name a_c := a_c ]> (<[ node_Name c_none := c_none ]> (<[ node_Name b_b := b_b ]> (<[ node_Name a_b := a_b ]> ∅)))).

Lemma zones_run : rtc zones_step (∅, ∅) (nodes2, zones2).
Proof.
  eapply rtc_l; [apply (zs_add _ _ a_b); by vm_compute|].
  eapply rtc_l; [apply (zs_add _ _ b_b); by vm_compute|].
  eapply rtc_l; [apply (zs_add _ _ c_none); by vm_compute|].
  eapply rtc_l; [apply (zs_update _ _ a_b a_c); by vm_compute|].
  eapply rtc_l; [apply (zs_delete _ _ b_b (FinalStateUnknown (Some b_b))); [by vm_compute|by right]|]. apply rtc_refl.
Qed.

Lemma current_zones_exact_witness :
  (GetAllCurrentZones fakeCloud (Some true) zones2 compute0).1 = Ret {[ "us-east1-c"%string ]} ∧
  ∃ current, GetAllCurrentZones fakeCloud (Some true) zones2 compute0 = (Ret current, compute0) ∧
    ∀ zone, zone ∈ current ↔ zone ≠ EmptyString ∧ ∃ name node, nodes2 !! name = Some node ∧ getZone node = zone.
Proof. split; [by_eval|]. exact (current_zones_exact fakeCloud nodes2 zones2 compute0 zones_run). Defined.


(** ** Disks *)

(** With the region down the regional disk is not found, and its deletion
    reports success although nothing was deleted. *)
Lemma delete_disk_sound_witness :
  (DeleteDisk fakeCloud "data" compute0).1 = Ret tt ∧ ops (DeleteDisk fakeCloud "data" compute0).2 = [DeleteOp "us-east1-c" "data"] ∧
  ops (DeleteDisk fakeCloud "ha" compute0).2 = [DeleteRegionalOp "us-east1" "ha"] ∧
  (DeleteDisk fakeCloud "twin" compute0).1 = Err (Errorf "GCE PD name was found in multiple zones: %q") ∧
  DeleteDisk fakeCloud "ha" (compute_down ["us-east1"%string]) = (Ret tt, compute_down ["us-east1"%string]) ∧
  let '(r, w') := DeleteDisk fakeCloud "ha" (compute_down ["us-east1"%string]) in
  let w := compute_down ["us-east1"%string] in
  (ops w' = ops w ++ [DeleteRegionalOp (g_region fakeCloud) "ha"] ∧ (∃ a, regionalAnswer fakeCloud "ha" w = Ret a) ∧
     (r = Ret tt → (RegionDisks_Delete (g_region fakeCloud) "ha" w).1 = Ret tt)) ∨
  (∃ before zone after d, ops w' = ops w ++ [DeleteOp zone "ha"] ∧ (∃ e, regionalAnswer fakeCloud "ha" w = Err e) ∧
     g_managedZones fakeCloud = before ++ zone :: after ∧ zonalDisk fakeCloud "ha" w zone d ∧ Forall (noDisk fakeCloud "ha" w) (before ++ after) ∧
     (r = Ret tt → (Disks_Delete zone "ha" w).1 = Ret tt)) ∨
  (w' = w ∧ (∃ e, regionalAnswer fakeCloud "ha" w = Err e) ∧ (r = Ret tt ↔ Forall (noDisk fakeCloud "ha" w) (g_managedZones fakeCloud))).
Proof.
  split; [by vm_compute|]. split; [by vm_compute|]. split; [by vm_compute|]. split; [by vm_compute|]. split; [by vm_compute|].
  exact (delete_disk_sound fakeCloud "ha" (compute_down ["us-east1"%string])).
Defined.


Lemma reads_findInstance zones name : reads (findInstance fakeCloud zones name).
Proof.
  induction zones as [|zone zones IH]; intros w; simpl; [done|]. rewrite io_bind_eq. unfold try. rewrite run_getInstance.
  destruct (NodeInstancesProps.lookup name zone w) as [i|e|] eqn:Hl; simpl; [done| |].
  - destruct (isHTTPErrorCode e StatusNotFound); [apply IH|done].
  - by apply answerOf_errors in Hl.
Qed.
Lemma attached_checks_agree_witness :
  let names := ["data"; "other"]%string in
  (DisksAreAttached fakeCloud names "n1" compute0).1 = Ret ({[ "data"%string := true; "other"%string := false ]}, None) ∧
  ∃ m err, DisksAreAttached fakeCloud names "n1" compute0 = (Ret (m, err), compute0) ∧
    (∀ inst, (getInstanceByName fakeCloud "n1" compute0).1 = Ret inst → m = verifyDisksAttachedToNode names (gi_Disks inst)) ∧
    ∀ name, name ∈ names →
      match (DiskIsAttached fakeCloud name "n1" compute0).1 with
      | Ret b => err = None ∧ m !! name = Some b
      | Err e => err = Some e ∧ m !! name = Some false
      | Panic => False
      end.
Proof.
  cbv zeta. split; [by_eval|].
  exact (attached_checks_agree fakeCloud ["data"; "other"]%string "n1" compute0 (reads_findInstance _ _)).
Defined.

(** The cluster has a node in one zone: a disk there, and none in the other. *)
Lemma disks_created_with_nodes_witness :
  ops (CreateDisk fakeCloud (Some true) zones2 "new" "pd-ssd" "us-east1-c" 30 {[ "k"%string := "v"%string ]} compute0).2 =
    [InsertOp "us-east1-c" "new" (mkApiDisk "new" 30 (encodeDiskTags {[ "k"%string := "v"%string ]}) "https://compute/v1/projects/p/zones/us-east1-c/diskTypes/pd-ssd" [] EmptyString EmptyString EmptyString)] ∧
  ops (CreateDisk fakeCloud (Some true) zones2 "new" "pd-ssd" "us-east1-b" 30 ∅ compute0).2 = [] ∧
  let has_node z := ∃ n node, nodes2 !! n = Some node ∧ getZone node = z in
  let replicas := {[ "us-east1-b"; "us-east1-c" ]}%string : gset string in
  (let w' := (CreateDisk fakeCloud (Some true) zones2 "new" "pd-ssd" "us-east1-c" 30 ∅ compute0).2 in
   ops w' = ops compute0 ∨ has_node "us-east1-c"%string ∧ ∃ uri, ops w' = ops compute0 ++ [InsertOp "us-east1-c" "new" (mkApiDisk "new" 30 (encodeDiskTags ∅) uri [] EmptyString EmptyString EmptyString)]) ∧
  (let w' := (CreateRegionalDisk fakeCloud (Some true) zones2 "new" "pd-ssd" replicas 30 ∅ compute0).2 in
   ops w' = ops compute0 ∨ set_Forall has_node replicas ∧ ∃ uri, ops w' = ops compute0 ++ [InsertRegionalOp (g_region fakeCloud) "new"
     (mkApiDisk "new" 30 (encodeDiskTags ∅) uri (getReplicaZoneURI fakeCloud <$> UnsortedList replicas) EmptyString EmptyString EmptyString)]).
Proof.
  split; [by vm_compute|]. split; [by vm_compute|].
  exact (disks_created_with_nodes fakeCloud nodes2 zones2 "new" "pd-ssd" "us-east1-c" {[ "us-east1-b"; "us-east1-c" ]}%string 30 ∅ compute0 zones_run).
Defined.

Definition haZones : gset string := {[ "us-east1-b"; "us-east1-c" ]}%string.
Definition haDisk : Disk := mkDisk (Some (multiZone (Some haZones))) "us-east1" "ha" diskKind "pd-standard" 20.
Definition haLabels : gmap string string := match GetAutoLabelsForPD haDisk with Ret l => l | _ => ∅ end.
Lemma volume_labels_roundtrip_witness :
  (LabelZonesToSet (default EmptyString (haLabels !! GceHosts.LabelTopologyZone)) = Ret haZones ∧
   ((1 < size haZones)%nat → getDiskByNameAndOptionalLabelZones fakeCloud "ha" (default EmptyString (haLabels !! GceHosts.LabelTopologyZone)) compute0 = getRegionalDiskByName fakeCloud "ha" compute0)) ∧
  (∃ d, (getRegionalDiskByName fakeCloud "ha" compute0).1 = Ret d ∧ d_ZoneInfo d = d_ZoneInfo haDisk).
Proof.
  split; [|eexists; split; [by vm_compute|by vm_compute]].
  apply (volume_labels_roundtrip fakeCloud haDisk haLabels "ha" compute0); [reflexivity|].
  simpl. intros z Hz. unfold haZones in Hz. apply elem_of_union in Hz as [->%elem_of_singleton| ->%elem_of_singleton]; by vm_compute.
Defined.
