(* ===== verification/GceStartupProps.v ===== *)
(** * GceStartupProps: the provider that is built

    What holds of every [Cloud] that start-up returns, the subnetwork it selects,
    and that routes are listed as they were created. *)
From S2P Require Import Prelude Bits GoNet GoNetText K8s GceInstances NetUtils NodeIpamConfig GoStrings IoLogic AddressManager LoadBalancer GceHosts NodeInstances NodeInstancesProps GceStartup Disks DisksProps.
Local Open Scope Z_scope.

(** ** URLs *)
Lemma getProjectsBasePath_suffix base : ∃ p, getProjectsBasePath base = (p +:+ "/projects/")%string.
Proof.
  unfold getProjectsBasePath. set (b := if HasSuffix base "/" then base else (base +:+ "/")%string).
  assert (∃ p, b = (p +:+ "/")%string) as [p Hp].
  { subst b. destruct (HasSuffix base "/") eqn:Hs; [by apply HasSuffix_spec in Hs|by exists base]. }
  destruct (HasSuffix b "/projects/") eqn:Hs; [by apply HasSuffix_spec in Hs|].
  exists p. rewrite Hp. by rewrite string_app_assoc.
Qed.

Section startup.
Context {W : Type} `{MetadataServer W} `{StartupAPI W}.

(** ** The parts of the configuration *)
Lemma projectAndZone_file f w project zone w' :
  projectAndZone f w = (Ret (project, zone), w') →
  (fileField cg_ProjectID f ≠ EmptyString → project = fileField cg_ProjectID f) ∧
  (fileField cg_LocalZone f ≠ EmptyString → zone = fileField cg_LocalZone f).
Proof.
  intros ([mp mz] & w1 & _ & [= <- <- _])%io_bind_Ret. unfold orElse. split; intros Hne; by rewrite bool_decide_eq_false_2.
Qed.
Lemma fileNetwork_file f w name url w' :
  fileNetwork f w = (Ret (name, url), w') →
  (url = EmptyString ∨ url = fileField cg_NetworkName f ∧ Contains url "/" = true) ∧
  (fileField cg_NetworkName f ≠ EmptyString → Contains (fileField cg_NetworkName f) "/" = false → name = fileField cg_NetworkName f ∧ url = EmptyString) ∧
  (fileField cg_NetworkName f ≠ EmptyString → Contains (fileField cg_NetworkName f) "/" = true → url = fileField cg_NetworkName f).
Proof.
  unfold fileNetwork. case_bool_decide as Hn.
  - intros (nm & w1 & _ & [= <- <- _])%io_bind_Ret. split; [by left|]. by split.
  - destruct (Contains _ _) eqn:Hc; intros [= <- <- _]; (split; [auto|]); by split.
Qed.

(** The configuration [CreateGCECloud] is called with. *)
Definition config_ok (f : option ConfigGlobal) (cc : CloudConfig) : Prop :=
  GetGCERegion (cc_Zone cc) = Ret (cc_Region cc) ∧
  (fileField cg_ProjectID f ≠ EmptyString → cc_ProjectID cc = fileField cg_ProjectID f) ∧
  (fileField cg_LocalZone f ≠ EmptyString → cc_Zone cc = fileField cg_LocalZone f) ∧
  cc_NetworkProjectID cc = fileField cg_NetworkProjectID f ∧
  cc_ManagedZones cc = (if from_option cg_Multizone false f || from_option cg_Regional false f then [] else [cc_Zone cc]) ∧
  cc_AlphaFeatureGate cc = NewAlphaFeatureGate (from_option cg_AlphaFeatures [] f) ∧
  (fileField cg_NetworkName f ≠ EmptyString →
     if Contains (fileField cg_NetworkName f) "/" then cc_NetworkURL cc = fileField cg_NetworkName f
     else cc_NetworkName cc = fileField cg_NetworkName f ∧ cc_NetworkURL cc = EmptyString) ∧
  cc_APIEndpoint cc = fileField cg_APIEndpoint f.
Lemma generateCloudConfig_ok f w cc w' : generateCloudConfig f w = (Ret cc, w') → config_ok f cc.
Proof.
  unfold generateCloudConfig. intros ([project zone] & w1 & Hpz & Hrest)%io_bind_Ret.
  apply io_bind_Ret in Hrest as (region & w2 & Hreg & Hrest). unfold lift in Hreg. injection Hreg as Hreg <-.
  apply io_bind_Ret in Hrest as ([name url] & w3 & Hnet & Hrest).
  destruct (fileSubnetwork f) as [sn su]. injection Hrest as <- _.
  destruct (projectAndZone_file f w project zone w1 Hpz) as [Hp Hz].
  destruct (fileNetwork_file f w1 name url w3 Hnet) as (_ & Hn1 & Hn2).
  split_and!; simpl; auto. intros Hne. destruct (Contains _ _) eqn:Hc; auto.
Qed.

Lemma projectName_plain id w r w' : isProjectNumber id = false → projectName id w = (r, w') → r = Ret id.
Proof. unfold projectName. by intros -> [= <- _]. Qed.
Lemma tryConvert_names p np w projID netProjID w' :
  tryConvertToProjectNames p np w = (Ret (projID, netProjID), w') →
  (isProjectNumber p = false → projID = p) ∧ (isProjectNumber np = false → np ≠ p → netProjID = np) ∧
  (np = p → isProjectNumber projID = false → netProjID = projID).
Proof.
  unfold tryConvertToProjectNames. intros (pid & w1 & Hp & Hrest)%io_bind_Ret.
  apply io_bind_Ret in Hrest as (nid & w2 & Hn & [= <- <- _]). split_and!.
  - intros Hnum. by pose proof (projectName_plain p w _ _ Hnum Hp) as [= ->].
  - intros Hnum Hne. rewrite bool_decide_eq_true_2 in Hn by done. by pose proof (projectName_plain np w1 _ _ Hnum Hn) as [= ->].
  - intros -> Hnum. rewrite bool_decide_eq_false_2 in Hn by naive_solver. by pose proof (projectName_plain pid w1 _ _ Hnum Hn) as [= ->].
Qed.
Lemma getZonesForRegion_list p region w zones w' :
  getZonesForRegion p region w = (Ret zones, w') →
  ∃ pages, (svc_Zones_List p w).1 = Ret pages ∧
    ∀ z, z ∈ zones ↔ ∃ lz, lz ∈ concat pages ∧ lz_Name lz = z ∧ lastComponent (lz_Region lz) = region.
Proof.
  unfold getZonesForRegion. rewrite io_bind_eq. unfold try.
  destruct (svc_Zones_List p w) as [[pages|e|] w1]; [|done..]. intros [= <- _]. exists pages. split; [done|].
  intros z. rewrite list_elem_of_fmap. setoid_rewrite list_elem_of_filter. naive_solver.
Qed.

End startup.

(** ** The selected subnetwork *)
Lemma byte_fill x b : byte_ok x → byte_ok b → Z.land x b = x → Z.lor x (go_not 8 b) = x + (255 - b).
Proof.
  unfold byte_ok, go_not. intros Hx Hb Hxb. change (2 ^ 8 - 1 - b) with (255 - b).
  assert (Z.ldiff b 255 = 0) as Hd.
  { change 255 with (Z.ones 8). apply Z.bits_inj'. intros i Hi. rewrite Z.ldiff_spec, Z.bits_0.
    destruct (Z_lt_le_dec i 8); [by rewrite Z.ones_spec_low, andb_false_r by lia|]. by rewrite (byte_high b). }
  assert (Z.land x (255 - b) = 0) as Hl.
  { rewrite Z.sub_nocarry_ldiff by done. apply Z.bits_inj'. intros i Hi.
    rewrite Z.land_spec, Z.ldiff_spec, Z.bits_0, <- Hxb, Z.land_spec. by destruct (Z.testbit x i), (Z.testbit b i), (Z.testbit 255 i). }
  by rewrite <- Z.lxor_lor, <- Z.add_nocarry_lxor by done.
Qed.
(** Setting the bits outside the mask of an address that has none of them. *)
Lemma be_decode_fill l m : bytes_ok l → bytes_ok m → length l = length m → zip_with Z.land l m = l →
  let last := zip_with (λ x b, Z.lor x (go_not 8 b)) l m in
  bytes_ok last ∧ length last = length l ∧ be_decode last = be_decode l + (2 ^ (8 * Z.of_nat (length l)) - 1 - be_decode m).
Proof.
  intros Hl. revert m. induction Hl as [|x l Hx Hl IH]; intros [|b m] Hm Hlen Hz; [done..|].
  apply Forall_cons in Hm as [Hb Hm]. cbn in Hlen, Hz. injection Hlen as Hlen. injection Hz as Hxb Hz. cbn. destruct (IH m Hm) as (Hok & Hlen' & Heq); [lia|done|].
  rewrite byte_fill by done. split; [constructor; [|done]|split; [lia|]].
  - unfold byte_ok in *. split; [lia|]. assert (0 ≤ x ≤ b); [|lia].
    apply Z.ldiff_le; [lia|]. apply Z.bits_inj'. intros i Hi. rewrite Z.ldiff_spec, Z.bits_0, <- Hxb, Z.land_spec.
    by destruct (Z.testbit x i), (Z.testbit b i).
  - rewrite Heq, Hlen', <- Hlen. replace (8 * Z.of_nat (S (length l))) with (8 + 8 * Z.of_nat (length l)) by lia.
    rewrite Z.pow_add_r by lia. change (2 ^ 8) with 256. lia.
Qed.

Lemma net_masked w k n : net_wf w k n → IP_Mask (net_IP n) (net_Mask n) = net_IP n ∧ zip_with Z.land (net_IP n) (net_Mask n) = net_IP n.
Proof.
  intros [Hw Hk Ha Hal Hm]. destruct (IP_Mask_spec w k (net_IP n)) as [Haw Hd]; [done..|]. rewrite Hal, Z.sub_0_r, <- Hm in Hd. rewrite <- Hm in Haw.
  assert (IP_Mask (net_IP n) (net_Mask n) = net_IP n) as Heq.
  { apply be_decode_inj; [apply Haw|apply Ha|rewrite (aw_len _ _ Haw), (aw_len _ _ Ha); done|done]. }
  split; [done|]. rewrite <- Heq at 2. symmetry. apply IP_Mask_same. rewrite Hm.
  destruct (CIDRMask_spec w k Hw Hk) as (-> & _). apply Ha.
Qed.
Lemma lastIPInRange_spec k n : net_wf 32 k n → ∃ last, lastIPInRange n = Ret last ∧ addr_wf 32 last ∧ be_decode last = be_decode (net_IP n) + 2 ^ (32 - k) - 1.
Proof.
  intros Hn. destruct (net_masked 32 k n Hn) as [_ Hz]. pose proof Hn as [Hw Hk Ha _ Hm].
  destruct (CIDRMask_spec 32 k Hw Hk) as (Hml & Hmok & Hmd & _). rewrite <- Hm in Hml, Hmok, Hmd.
  pose proof (aw_len _ _ Ha) as Hl. destruct (be_decode_fill (net_IP n) (net_Mask n)) as (Hok & Hlen & Heq); [apply Ha|done|congruence|done|].
  eexists. unfold lastIPInRange. rewrite Hl, Hml, Nat.ltb_irrefl. split; [reflexivity|]. rewrite drop_ge, app_nil_r by lia. split.
  - split; [congruence|done|done].
  - rewrite Heq, Hmd, Hl. change (8 * Z.of_nat (bytes_of 32)) with 32. lia.
Qed.

(** One network lies in another when its first and its last address do. *)
Lemma containsCIDR_exact k k' outer inner : net_wf 32 k outer → net_wf 32 k' inner →
  ∃ b, containsCIDR outer inner = Ret b ∧
    (b = true ↔ ∀ ip, addr_wf 32 ip → IPNet_Contains inner ip = true → IPNet_Contains outer ip = true).
Proof.
  intros Ho Hi. destruct (net_masked 32 k' inner Hi) as [Hfirst _]. destruct (lastIPInRange_spec k' inner Hi) as (last & Hlast & Hlw & Hld).
  unfold containsCIDR, firstIPInRange. rewrite Hfirst, Hlast.
  pose proof Hi as [Hw Hk' Ha Hal _]. pose proof Ho as [_ Hk Hoa Hoal _]. set (x := be_decode (net_IP inner)) in *. set (p := 2 ^ (32 - k')) in *.
  pose proof (pow2_pos (32 - k') ltac:(lia)) as Hp. fold p in Hp.
  assert (∀ ip, addr_wf 32 ip → IPNet_Contains inner ip = true ↔ x ≤ be_decode ip < x + p) as Hin.
  { intros ip Hip. rewrite (IPNet_Contains_spec 32 k' inner ip Hi Hip). unfold same_prefix. fold x p.
    pose proof (Z.div_mod x p ltac:(lia)). pose proof (Z.div_mod (be_decode ip) p ltac:(lia)). pose proof (Z.mod_pos_bound (be_decode ip) p Hp). nia. }
  assert (IPNet_Contains inner (net_IP inner) = true) as Hself by (rewrite Hin by done; lia).
  assert (IPNet_Contains inner last = true) as Hselfl by (rewrite Hin by done; lia).
  assert ((IPNet_Contains outer (net_IP inner) = true ∧ IPNet_Contains outer last = true) ↔
    ∀ ip, addr_wf 32 ip → IPNet_Contains inner ip = true → IPNet_Contains outer ip = true) as Hiff.
  { split; [|auto]. intros [H1 H2] ip Hip Hc. rewrite Hin in Hc by done. rewrite (IPNet_Contains_spec 32 k outer) in H1, H2 |- * by done.
    unfold same_prefix in *. fold x in H1. pose proof (pow2_pos (32 - k) ltac:(lia)) as Hq. set (q := 2 ^ (32 - k)) in *.
    pose proof (Z.div_le_mono x (be_decode ip) q Hq ltac:(lia)). pose proof (Z.div_le_mono (be_decode ip) (be_decode last) q Hq ltac:(lia)). lia. }
  destruct (IPNet_Contains outer (net_IP inner)) eqn:H1; cbn; eexists; (split; [reflexivity|]); rewrite <- Hiff; naive_solver.
Qed.

Definition autoRange : IPNet := mkIPNet [10; 128; 0; 0] (CIDRMask 9 32).
Lemma autoRange_wf : net_wf 32 9 autoRange.
Proof. split; [by left|lia|split; [done|by repeat constructor|done]|done|done]. Qed.
Lemma containsCIDR_auto n : containsCIDR autoSubnetIPRange n = containsCIDR autoRange n.
Proof. reflexivity. Qed.

(** All addresses of the subnetwork are in 10.128.0.0/9. *)
Definition inAutoRange (s : gceSubnet) : Prop :=
  ∃ k n, ParseCIDRSloppy (gs_IpCidrRange s) = Ret n ∧ net_wf 32 k n ∧
    ∀ ip, addr_wf 32 ip → IPNet_Contains n ip = true → same_prefix 32 9 (be_decode [10; 128; 0; 0]) (be_decode ip).
Definition ipv4Subnet (s : gceSubnet) : Prop := ∃ k n, ParseCIDRSloppy (gs_IpCidrRange s) = Ret n ∧ net_wf 32 k n.

Lemma subnetsInCIDR_auto subnets : Forall ipv4Subnet subnets →
  ∃ res, subnetsInCIDR subnets autoSubnetIPRange = Ret res ∧ res `sublist_of` subnets ∧ ∀ s, s ∈ subnets → s ∈ res ↔ inAutoRange s.
Proof.
  induction 1 as [|s subnets (k & n & Hp & Hn) _ (res & Hres & Hsub & Hiff)]; [exists []; split_and!; [done|done|set_solver]|].
  destruct (containsCIDR_exact 9 k autoRange n autoRange_wf Hn) as (b & Hb & Hbiff).
  simpl. rewrite Hp, containsCIDR_auto, Hb. simpl. rewrite Hres. simpl.
  assert (b = true ↔ inAutoRange s) as Hs.
  { rewrite Hbiff. split.
    - intros Hall. exists k, n. split_and!; [done..|]. intros ip Hip Hc. apply (IPNet_Contains_spec 32 9 autoRange ip autoRange_wf Hip). auto.
    - intros (k2 & n2 & Hp2 & _ & Hall) ip Hip Hc. replace n with n2 in Hc by congruence.
      apply (IPNet_Contains_spec 32 9 autoRange ip autoRange_wf Hip). by apply Hall. }
  eexists. split; [reflexivity|]. destruct b; (split; [by constructor|]); intros s' Hs'.
  - rewrite elem_of_cons. apply elem_of_cons in Hs' as [->|Hin]; [naive_solver|]. rewrite Hiff by done. split; [|auto]. intros [->|]; naive_solver.
  - apply elem_of_cons in Hs' as [->|Hin]; [|by apply Hiff]. split; [|naive_solver].
    intros Hr. apply Hiff; [|done]. by apply (elem_of_sublist res subnets s).
Qed.

Section lookup.
Context {W : Type} `{MetadataServer W} `{StartupAPI W}.

(** C24: in a network with automatic subnetworks the one that is selected is the
    only one of the region whose addresses all lie in 10.128.0.0/9; if there is
    none or more than one, the lookup fails. *)
Theorem auto_subnet_exact project network region pages (w w' : W) :
  svc_Subnetworks_List project region ("network eq .*/" +:+ network +:+ "$")%string w = (Ret pages, w') →
  Forall ipv4Subnet (concat pages) → NoDup (concat pages) →
  match determineSubnetURL project network region w with
  | (Ret url, w2) => w2 = w' ∧ ∃ s, s ∈ concat pages ∧ inAutoRange s ∧ gs_SelfLink s = url ∧ ∀ s', s' ∈ concat pages → inAutoRange s' → s' = s
  | (Err _, w2) => w2 = w' ∧ ((∀ s, s ∈ concat pages → ¬ inAutoRange s) ∨
      ∃ s s', s ≠ s' ∧ s ∈ concat pages ∧ s' ∈ concat pages ∧ inAutoRange s ∧ inAutoRange s')
  | (Panic, _) => False
  end.
Proof.
  intros Hlist Hv4 Hnd. unfold determineSubnetURL, listSubnetworksOfNetwork. rewrite !io_bind_eq, Hlist. cbn.
  destruct (subnetsInCIDR_auto (concat pages) Hv4) as (res & -> & Hsub & Hiff). cbn.
  pose proof (λ s Hs, elem_of_sublist res (concat pages) s Hs Hsub) as Hin. pose proof (sublist_NoDup res (concat pages) Hnd Hsub) as Hnd'.
  destruct res as [|s [|s' res]]; cbn; (split; [done|]).
  - left. intros s Hs Ha. apply Hiff in Ha; [|done]. by apply elem_of_nil in Ha.
  - exists s. assert (s ∈ concat pages) as Hs by (apply Hin; by left). split_and!; [done|apply Hiff; [done|by left]|done|].
    intros s' Hs' Ha. apply Hiff in Ha; [|done]. by apply list_elem_of_singleton in Ha.
  - right. assert (s ∈ concat pages) by (apply Hin; by left). assert (s' ∈ concat pages) by (apply Hin; right; by left).
    apply NoDup_cons in Hnd' as [Hne _]. exists s, s'. split_and!; [intros ->; apply Hne; by left|done|done|apply Hiff; [done|by left]|apply Hiff; [done|right; by left]].
Qed.

(** ** Once *)
Lemma initOnce_done c w c' w' : initOnce c w = (Ret c', w') → c_once c' = true.
Proof.
  unfold initOnce. destruct (c_once c) eqn:Ho; [by intros [= <- _]|].
  by intros (c1 & w1 & _ & [= <- _])%io_bind_Ret.
Qed.
(** The lookup happens at most once: what the first call answered is what every
    later one answers, without a request; and none is sent at all if the file
    named the subnetwork. *)
Theorem subnetwork_once (c c1 : Cloud) url (w w1 : W) :
  SubnetworkURL c w = (Ret (url, c1), w1) →
  (∀ w2, SubnetworkURL c1 w2 = (Ret (url, c1), w2) ∧ IsLegacyNetwork c1 w2 = (Ret (g_isLegacyNetwork (c_gce c1), c1), w2)) ∧
  (g_subnetworkURL (c_gce c) ≠ EmptyString → c_once c = false → w1 = w ∧ url = g_subnetworkURL (c_gce c)).
Proof.
  intros (c2 & w2 & Hinit & [= <- <- <-])%io_bind_Ret. pose proof (initOnce_done c w c2 w2 Hinit) as Ho. split.
  - intros w3. unfold SubnetworkURL, IsLegacyNetwork, initOnce. by rewrite Ho.
  - intros Hne Hf. revert Hinit. unfold initOnce, initializeSubnetworkURLAndIsLegacyNetwork. rewrite Hf, io_bind_eq.
    rewrite bool_decide_eq_true_2 by done. by intros [= <- <-].
Qed.
End lookup.

(** ** Routes *)

(** The routes of the service: a route is listed when its three fields match the
    expressions; a stored next hop keeps its last component; a name that is
    taken is a conflict. *)
Class RoutesWorld (W : Type) `{RoutesAPI W} : Type := {
  stored : W → gmap string gceRoute;
  regexp_match : string → string → bool;
  list_routes name network description w : Routes_List name network description w =
    (Ret (filter (λ r, regexp_match name (gr_Name r) && regexp_match network (gr_Network r) && regexp_match description (gr_Description r) = true) (map_to_list (stored w)).*2), w);
  insert_route name r w :
    match stored w !! name with
    | Some _ => Routes_Insert name r w = (Err (ErrGoogleAPI StatusConflict), w)
    | None => ∃ w' hop, Routes_Insert name r w = (Ret tt, w') ∧ path_Base hop = path_Base (gr_NextHopInstance r) ∧
        stored w' = <[ name := mkGceRoute (gr_Name r) (gr_DestRange r) hop (gr_Network r) (gr_Priority r) (gr_Description r) ]> (stored w)
    end
}.

Section routes.
Context {W : Type} `{RoutesWorld W} `{!InstancesAPI W}.
Variable g : gceConfig.

Lemma strip_trailing_app s t : t ≠ EmptyString → has_char slash t = false → strip_trailing slash (s +:+ t) = (s +:+ t)%string.
Proof.
  intros Hne Ht. assert (strip_trailing slash t = t) as Hst.
  { clear Hne. induction t as [|d t IH]; [done|]. simpl in *. apply orb_false_iff in Ht as [Hd Ht]. rewrite IH by done.
    apply bool_decide_eq_false_1 in Hd. destruct t; [by rewrite decide_False by congruence|done]. }
  induction s as [|d s IH]; [done|]. change (String d s +:+ t)%string with (String d (s +:+ t)). cbn [strip_trailing]. rewrite IH.
  destruct s, t; done.
Qed.
Lemma path_Base_last s name : name ≠ EmptyString → has_char slash name = false → path_Base (s +:+ String slash name) = name.
Proof.
  intros Hne Hn. unfold path_Base. rewrite bool_decide_eq_false_2 by (by destruct s).
  assert (strip_trailing slash (s +:+ String slash name) = (s +:+ String slash name)%string) as ->.
  { change (String slash name) with ("/" +:+ name)%string. rewrite <- string_app_assoc. by apply strip_trailing_app. }
  destruct (s +:+ String slash name)%string as [|c q] eqn:Hq; [by destruct s|]. rewrite <- Hq. by apply lastComponent_after.
Qed.

Lemma filter_insert_new (P : gceRoute → Prop) `{!∀ r, Decision (P r)} name r (m : gmap string gceRoute) : m !! name = None → P r →
  filter P (map_to_list (<[ name := r ]> m)).*2 ≡ₚ r :: filter P (map_to_list m).*2.
Proof. intros Hm Hr. rewrite (map_to_list_insert m name r) by done. rewrite fmap_cons. cbn [snd]. by rewrite filter_cons_True by done. Qed.

(** A route that was created for a node is among the routes of its cluster,
    with the node and the range it was created with, and no other route is lost
    or added; a route of that name that exists already is a success that changes
    nothing. *)
Theorem route_roundtrip cluster hint (route : Route) (inst : gceInstance) (w : W) :
  getInstanceByName g (TargetNode route) w = (Ret inst, w) → gi_Name inst = TargetNode route →
  TargetNode route ≠ EmptyString → has_char slash (TargetNode route) = false →
  let name := (truncateClusterName cluster +:+ "-" +:+ hint)%string in
  regexp_match (truncateClusterName cluster +:+ "-.*") name = true → regexp_match (g_networkURL g) (g_networkURL g) = true →
  regexp_match k8sNodeRouteTag k8sNodeRouteTag = true →
  if decide (is_Some (stored w !! name)) then CreateRoute g cluster hint route w = (Ret tt, w)
  else ∃ w' before after, CreateRoute g cluster hint route w = (Ret tt, w') ∧
    ListRoutes g cluster w = (Ret before, w) ∧ ListRoutes g cluster w' = (Ret after, w') ∧
    after ≡ₚ mkRoute name (TargetNode route) (DestinationCIDR route) :: before.
Proof.
  intros Hinst Hname Hne Hsl name Hm1 Hm2 Hm3. unfold CreateRoute, mapNodeNameToInstanceName. rewrite io_bind_eq, Hinst.
  set (cr := routeFor g cluster hint route inst). change (gr_Name cr) with name. rewrite io_bind_eq. unfold try.
  pose proof (insert_route name cr w) as Hins. case_decide as Hs.
  - destruct Hs as [r Hr]. rewrite Hr in Hins. by rewrite Hins.
  - apply eq_None_not_Some in Hs. rewrite Hs in Hins. destruct Hins as (w' & hop & -> & Hhop & Hst).
    eexists w', _, _. split; [done|]. unfold ListRoutes. rewrite !io_bind_eq, !list_routes. split; [reflexivity|]. split; [reflexivity|].
    rewrite Hst, filter_insert_new; [|done|]; cbn.
    + assert (path_Base hop = TargetNode route) as Hb; [|by rewrite <- Hb].
      assert (gr_NextHopInstance cr = (("zones/" +:+ gi_Zone inst +:+ "/instances") +:+ String slash (TargetNode route))%string) as Hcr.
      { unfold cr, routeFor, gr_NextHopInstance. rewrite Hname, !string_app_assoc. reflexivity. }
      rewrite Hhop, Hcr. by apply path_Base_last.
    + subst name. by rewrite Hm1, Hm2, Hm3.
Qed.
End routes.

(** ** Runs: a project to start in

    A metadata server and compute services with fixed answers, and a table of
    routes: the theorems of [GceStartupProps] are applied to runs in it. *)

(** ** Start-up *)

(** The tokens that fail before the first one that does not. *)
Record project : Type := mkProject { p_badTokens : nat; p_meta : gmap string string; p_subnets : list (list gceSubnet) }.
Definition answerMeta (path : string) : io project string := λ w,
  match p_meta w !! path with Some s => (Ret s, w) | None => (Err (Errorf "not defined"), w) end.
#[global] Instance project_metadata : MetadataServer project := {
  metadata_Get := answerMeta;
  metadata_ProjectID := answerMeta "project-id"
}.
#[global] Instance project_services : StartupAPI project := {
  compute_NewService _ w := (Ret "https://compute/v1/"%string, w);
  computebeta_NewService _ w := (Ret "https://compute/beta/"%string, w);
  computealpha_NewService _ w := (Ret "https://compute/alpha/"%string, w);
  container_NewService _ w := (Ret "https://container/"%string, w);
  newTPUService w := (Ret tt, w);
  google_DefaultTokenSource w := (Err (Errorf "no credentials"), w);
  TokenSource_Token _ w := match p_badTokens w with
                           | O => (Ret tt, w)
                           | S n => (Err (Errorf "no token yet"), mkProject n (p_meta w) (p_subnets w))
                           end;
  svc_Projects_Get id w := if bool_decide (id = "12345"%string) then (Ret "named"%string, w) else (Err (ErrGoogleAPI 404), w);
  svc_Networks_Get _ _ w := (Ret (mkGceNetwork EmptyString true), w);
  svc_Subnetworks_List _ _ _ w := (Ret (p_subnets w), w);
  svc_Zones_List _ w := (Ret [[mkListedZone "us-east1-b" "v1/regions/us-east1"; mkListedZone "eu-west1-a" "v1/regions/eu-west1"];
                              [mkListedZone "us-east1-c" "v1/regions/us-east1"]], w)
}.

Definition onGCE (badTokens : nat) : project :=
  mkProject badTokens {[ "instance/zone"%string := "projects/12345/zones/us-east1-b"%string; "project-id"%string := "12345"%string;
                         "instance/network-interfaces/0/network"%string := "projects/12345/networks/default"%string ]}
    [[mkGceSubnet "a" "10.128.0.0/20" "link-a"; mkGceSubnet "b" "192.168.0.0/24" "link-b"]; [mkGceSubnet "c" "10.0.0.0/8" "link-c"]].
Definition regionalFile : ConfigGlobal :=
  mkConfigGlobal EmptyString EmptyString "shop" "hub" "lan" EmptyString "IPV4" EmptyString [] "gke" true false
    EmptyString EmptyString "us-east1-b" ["ILBSubsets"%string] EmptyString.
Definition started (config : option (outcome ConfigGlobal)) : option Cloud :=
  match newGCECloud ∅ config (onGCE 3) with (Ret c, _) => Some c | _ => None end.

(** A regional cluster on a shared network; a zonal one that the metadata server
    describes, with its project number turned into its name; and ten failed
    tokens are too many. *)
Definition regionalCloud : Cloud := default (mkCloud (mkGceConfig EmptyString EmptyString EmptyString EmptyString EmptyString EmptyString false false [] EmptyString EmptyString ∅ false false)
  (mkNodeConfig EmptyString EmptyString false) false EmptyString [] EmptyString EmptyString EmptyString EmptyString false) (started (Some (Ret regionalFile))).

(** One of the three subnetworks is in the range; 10.0.0.0/8 is not. *)
Lemma net_wf_4 k a b c d : 0 ≤ k ≤ 32 → Forall byte_ok [a; b; c; d] → be_decode [a; b; c; d] mod 2 ^ (32 - k) = 0 → net_wf 32 k (mkIPNet [a; b; c; d] (CIDRMask k 32)).
Proof. intros Hk Hb Ha. split; [by left|done|split; done|done|done]. Qed.
Lemma auto_subnet_exact_witness :
  determineSubnetURL "hub" "lan" "us-east1" (onGCE 0) = (Ret "link-a"%string, onGCE 0) ∧
  let pages := p_subnets (onGCE 0) in
  ∃ s, s ∈ concat pages ∧ inAutoRange s ∧ gs_SelfLink s = "link-a"%string ∧ ∀ s', s' ∈ concat pages → inAutoRange s' → s' = s.
Proof.
  assert (determineSubnetURL "hub" "lan" "us-east1" (onGCE 0) = (Ret "link-a"%string, onGCE 0)) as Hrun by (vm_compute; reflexivity).
  split; [done|]. cbv zeta.
  pose proof (auto_subnet_exact "hub" "lan" "us-east1" (p_subnets (onGCE 0)) (onGCE 0) (onGCE 0) eq_refl) as Hex.
  rewrite Hrun in Hex. apply Hex.
  - repeat constructor.
    + exists 20, (mkIPNet [10; 128; 0; 0] (CIDRMask 20 32)). split; [by vm_compute|]. by apply net_wf_4; [lia|repeat constructor|].
    + exists 24, (mkIPNet [192; 168; 0; 0] (CIDRMask 24 32)). split; [by vm_compute|]. by apply net_wf_4; [lia|repeat constructor|].
    + exists 8, (mkIPNet [10; 0; 0; 0] (CIDRMask 8 32)). split; [by vm_compute|]. by apply net_wf_4; [lia|repeat constructor|].
  - apply (NoDup_fmap_1 gs_Name). by_eval.
Defined.

(** ** Routes *)
Abbreviation routed := (fakeCompute * gmap string gceRoute)%type.
#[global] Instance routed_instances : InstancesAPI routed := {
  Instances_GetFull zone name '(w, r) := let '(o, w) := Instances_GetFull zone name w in (o, (w, r));
  Instances_Insert _ _ _ w := (Ret tt, w);
  Instances_Delete _ _ w := (Ret tt, w);
  Projects_GetMetadata _ w := (Ret [], w);
  Projects_SetMetadata _ _ w := (Ret tt, w)
}.
(** Expressions without operators, and a prefix. *)
Definition fakeMatch (pattern s : string) : bool :=
  match cut_str ".*" pattern with Some (prefix, _) => HasPrefix s prefix | None => bool_decide (pattern = s) end.
#[global] Instance fake_routes : RoutesAPI routed := {
  Routes_List name network description w :=
    (Ret (filter (λ r, fakeMatch name (gr_Name r) && fakeMatch network (gr_Network r) && fakeMatch description (gr_Description r) = true) (map_to_list w.2).*2), w);
  Routes_Insert name r w := match w.2 !! name with
                            | Some _ => (Err (ErrGoogleAPI 409), w)
                            | None => (Ret tt, (w.1, <[ name := r ]> w.2))
                            end;
  Routes_Delete name w := (Ret tt, (w.1, delete name w.2))
}.

#[global] Program Instance fake_routes_world : RoutesWorld routed := { stored := snd; regexp_match := fakeMatch }.
Next Obligation. done. Qed.
Next Obligation. intros name [? ? hop ? ? ?] [w t]. cbn. destruct (t !! name); [done|]. by eexists _, hop. Qed.

Definition routes0 : routed := (compute0, ∅).
Lemma route_roundtrip_witness :
  let route := mkRoute EmptyString "n1" "10.4.0.0/24" in
  let created := (CreateRoute fakeCloud "a-cluster-with-a-name-of-more-than-26" "hint" route routes0).2 in
  (* a second creation is a conflict, which is a success *)
  CreateRoute fakeCloud "a-cluster-with-a-name-of-more-than-26" "hint" route created = (Ret tt, created) ∧
  (ListRoutes fakeCloud "a-cluster-with-a-name-of-more-than-26" created).1 = Ret [mkRoute "a-cluster-with-a-name-of-m-hint" "n1" "10.4.0.0/24"] ∧
  if decide (is_Some (stored routes0 !! "a-cluster-with-a-name-of-m-hint"%string)) then CreateRoute fakeCloud "a-cluster-with-a-name-of-more-than-26" "hint" route routes0 = (Ret tt, routes0)
  else ∃ w' before after, CreateRoute fakeCloud "a-cluster-with-a-name-of-more-than-26" "hint" route routes0 = (Ret tt, w') ∧
    ListRoutes fakeCloud "a-cluster-with-a-name-of-more-than-26" routes0 = (Ret before, routes0) ∧
    ListRoutes fakeCloud "a-cluster-with-a-name-of-more-than-26" w' = (Ret after, w') ∧
    after ≡ₚ mkRoute "a-cluster-with-a-name-of-m-hint" "n1" "10.4.0.0/24" :: before.
Proof.
  cbv zeta. split; [vm_compute; reflexivity|]. split; [vm_compute; reflexivity|].
  assert (getInstanceByName fakeCloud "n1" routes0 = (Ret (mkGceInstance "us-east1-c" "n1" 7 ["data"; "logs"]%string "n1"), routes0)) as Hinst by (vm_compute; reflexivity).
  assert ("n1"%string ≠ EmptyString) as Hne by done.
  exact (route_roundtrip fakeCloud "a-cluster-with-a-name-of-more-than-26" "hint" (mkRoute EmptyString "n1" "10.4.0.0/24")
    _ routes0 Hinst eq_refl Hne eq_refl eq_refl eq_refl eq_refl).
Defined.
