(* ===== verification/DockerConfig.v ===== *)
(** * DockerConfig: docker credentials

    [pkg/credentialconfig] (configuration files and entries, the caching
    provider), [pkg/gcpcredential] (the three providers that read the metadata
    server) and [cmd/auth-provider-gcp] (the credential provider of the kubelet).
    [encoding/base64] and the JSON of the files are concrete; HTTP, files, the
    environment and the clock are the class [CredEnv].  A nil map of entries is
    the empty one: the code only ranges over it. *)
From S2P Require Import Prelude Bits GoNet GoNetText GoStrings Json K8s NodeIpamConfig.
Local Open Scope Z_scope.

(** ** [encoding/base64] *)
Definition b64_char (n : Z) : Ascii.ascii :=
  ch (if n <? 26 then 65 + n else if n <? 52 then 71 + n else if n <? 62 then n - 4 else if n =? 62 then 43 else 47).
Definition b64_value (c : Ascii.ascii) : option Z :=
  if between 65 90 c then Some (code c - 65)
  else if between 97 122 c then Some (code c - 71)
  else if between 48 57 c then Some (code c + 4)
  else if is_byte 43 c then Some 62
  else if is_byte 47 c then Some 63
  else None.
Definition b64_pad : Ascii.ascii := ch 61.

(** [k] characters for the highest sextets of a group of three bytes, and [k]
    bytes of a group of four sextets. *)
Definition sextet (val i : Z) : Ascii.ascii := b64_char (val / 64 ^ i mod 64).
Definition group_byte (val i : Z) : Ascii.ascii := ch (val / 256 ^ i mod 256).

(** [StdEncoding.EncodeToString] *)
Fixpoint b64_encode (s : string) : string :=
  match s with
  | EmptyString => EmptyString
  | String a EmptyString =>
      let val := code a * 65536 in String (sextet val 3) (String (sextet val 2) (String b64_pad (String b64_pad EmptyString)))
  | String a (String b EmptyString) =>
      let val := code a * 65536 + code b * 256 in
      String (sextet val 3) (String (sextet val 2) (String (sextet val 1) (String b64_pad EmptyString)))
  | String a (String b (String c s)) =>
      let val := code a * 65536 + code b * 256 + code c in
      String (sextet val 3) (String (sextet val 2) (String (sextet val 1) (String (sextet val 0) (b64_encode s))))
  end.

(** The decoders skip line breaks wherever they are. *)
Fixpoint drop_breaks (s : string) : string :=
  match s with
  | EmptyString => EmptyString
  | String c s => if is_byte 10 c || is_byte 13 c then drop_breaks s else String c (drop_breaks s)
  end.
Definition one_byte (a b : Ascii.ascii) : option string :=
  x ← b64_value a; y ← b64_value b; Some (String (group_byte (x * 262144 + y * 4096) 2) EmptyString).
Definition two_bytes (a b c : Ascii.ascii) : option string :=
  x ← b64_value a; y ← b64_value b; z ← b64_value c;
  let val := x * 262144 + y * 4096 + z * 64 in Some (String (group_byte val 2) (String (group_byte val 1) EmptyString)).
(** [StdEncoding] wants the padding of the last group, [RawStdEncoding] refuses
    it; neither checks the bits that are left over. *)
Fixpoint b64_groups (padded : bool) (s : string) : option string :=
  match s with
  | EmptyString => Some EmptyString
  | String a (String b EmptyString) => if padded then None else one_byte a b
  | String a (String b (String c EmptyString)) => if padded then None else two_bytes a b c
  | String a (String b (String c (String d rest))) =>
      if padded && bool_decide (d = b64_pad) then
        match rest with
        | EmptyString => if bool_decide (c = b64_pad) then one_byte a b else two_bytes a b c
        | _ => None
        end
      else
        x ← b64_value a; y ← b64_value b; z ← b64_value c; t ← b64_value d;
        let val := x * 262144 + y * 4096 + z * 64 + t in
        rest ← b64_groups padded rest;
        Some (String (group_byte val 2) (String (group_byte val 1) (String (group_byte val 0) rest)))
  | _ => None
  end.
Definition b64_DecodeString (padded : bool) (s : string) : outcome string :=
  match b64_groups padded (drop_breaks s) with Some d => Ret d | None => Err (Errorf "illegal base64 data at input byte") end.

(** ** Entries *)

(** The field [Provider] is never set. *)
Record DockerConfigEntry : Type := mkEntry { Username : string; Password : string; Email : string }.
Definition DockerConfig : Type := gmap string DockerConfigEntry.
#[global] Instance DockerConfigEntry_eq_dec : EqDecision DockerConfigEntry.
Proof. solve_decision. Defined.

Definition dockerConfigEntryWithAuth : list string := ["username"; "password"; "email"; "auth"]%string.

Definition decodeDockerConfigFieldAuth (field : string) : outcome (string * string) :=
  decoded ← (if HasSuffix (TrimSpace field) "=" then b64_DecodeString true field else b64_DecodeString false field);
  match splitN2 colon decoded with
  | [username; password] => Ret (username, password)
  | _ => Err (Errorf "unable to parse auth field, must be formatted as base64(username:password)")
  end.
Definition encodeDockerConfigFieldAuth (username password : string) : string := b64_encode (username +:+ ":" +:+ password)%string.

(** From the parsed value of the entry; [decode_struct] gives as many values as
    there are fields. *)
Definition entry_of_json (v : json) : outcome DockerConfigEntry :=
  match decode_struct dockerConfigEntryWithAuth v None with
  | ([username; password; email; auth], None) =>
      if (String.length auth =? 0)%nat then Ret (mkEntry username password email)
      else '(username, password) ← decodeDockerConfigFieldAuth auth; Ret (mkEntry username password email)
  | (_, Some err) => Err err
  | _ => Panic
  end.
Definition entry_UnmarshalJSON (data : string) : outcome DockerConfigEntry :=
  match json_of data with Some v => entry_of_json v | None => Err (Errorf "invalid JSON") end.

(** Empty fields are left out. *)
Definition entry_MarshalJSON (ident : DockerConfigEntry) : string :=
  let auth := encodeDockerConfigFieldAuth (Username ident) (Password ident) in
  let fields := zip dockerConfigEntryWithAuth [Username ident; Password ident; Email ident; auth] in
  marshal_struct (map (λ kv, (kv.1, FString kv.2)) (filter (λ kv, kv.2 ≠ EmptyString) fields)).

(** ** Files of entries *)

(** A later entry of the same name replaces the earlier one. *)
Fixpoint entries_of_json (ms : list (string * json)) (cfg : DockerConfig) : outcome DockerConfig :=
  match ms with
  | [] => Ret cfg
  | (k, v) :: ms => e ← entry_of_json v; entries_of_json ms (<[ k := e ]> cfg)
  end.
Definition config_of_json (v : json) (cfg : DockerConfig) : outcome DockerConfig :=
  match v with
  | JObject ms => entries_of_json ms cfg
  | JNull => Ret ∅
  | _ => Err (Errorf "json: cannot unmarshal %s into Go value of type %s")
  end.
Definition unmarshalError : error := Errorf "error occurred while trying to unmarshal json".
Definition ReadDockerConfigFileFromBytes (contents : string) : outcome DockerConfig :=
  match json_of contents with
  | Some v => match config_of_json v ∅ with Err _ => Err unmarshalError | r => r end
  | None => Err unmarshalError
  end.

(** [map[string]string]: the headers, which nothing reads. *)
Definition headers_ok (v : json) : bool :=
  match v with
  | JObject ms => forallb (λ kv : string * json, match kv.2 with JString _ | JNull => true | _ => false end) ms
  | JNull => true
  | _ => false
  end.
(** A repeated [auths] adds to the map. *)
Fixpoint configJSON_members (ms : list (string * json)) (cfg : DockerConfig) : outcome DockerConfig :=
  match ms with
  | [] => Ret cfg
  | (k, v) :: ms =>
      cfg ← match field_of ["auths"; "HttpHeaders"]%string k with
            | Some 0%nat => config_of_json v cfg
            | Some _ => if headers_ok v then Ret cfg else Err (Errorf "json: cannot unmarshal %s into Go value of type %s")
            | None => Ret cfg
            end;
      configJSON_members ms cfg
  end.
Definition readDockerConfigJSONFileFromBytes (contents : string) : outcome DockerConfig :=
  match json_of contents with
  | Some (JObject ms) => match configJSON_members ms ∅ with Err _ => Err unmarshalError | r => r end
  | Some JNull => Ret ∅
  | _ => Err unmarshalError
  end.

(** ** The environment *)

(** A response: its status, its body, and the error that ends the body. *)
Record httpResponse : Type := mkResponse { StatusCode : Z; Body : string; body_err : option error }.
Record AuthConfig : Type := mkAuthConfig { auth_Username : string; auth_Password : string }.
Inductive PluginCacheKeyType : Type := ImagePluginCacheKeyType | RegistryPluginCacheKeyType | GlobalPluginCacheKeyType.
Record CredentialProviderResponse : Type := mkCredResponse {
  cr_Kind : string; cr_APIVersion : string; CacheKeyType : PluginCacheKeyType; CacheDuration : Z; Auth : gmap string AuthConfig
}.

Class CredEnv (W : Type) : Type := {
  http_NewRequest : string → outcome unit;
  (** the request with or without the header of the metadata server *)
  client_Do : string → bool → io W httpResponse;
  homeDirPath : string;
  fs_Join : string → string → string;
  fs_Abs : string → io W string;
  fs_ReadFile : string → io W string;
  on_windows : bool;
  exec_wmic : io W string;
  cred_Sleep : Z → io W unit;
  cred_Now : io W Z;
  cred_Getenv : string → io W string;
  time_ParseDuration : string → outcome Z;
  stdin_ReadAll : io W string;
  fmt_Println : CredentialProviderResponse → io W unit
}.

Section env.
Context {W : Type} `{CredEnv W}.

(** ** Search of the files *)
Definition configFileName : string := ".dockercfg".
Definition configJSONFileName : string := "config.json".
Definition rootDirPath : string := "/".
Definition homeJSONDirPath : string := fs_Join homeDirPath ".docker".
Definition rootJSONDirPath : string := fs_Join rootDirPath ".docker".

(** The preferred path is a package variable: the first half of the state. *)
Definition SetPreferredDockercfgPath (path : string) : io (string * W) unit := put (λ '(_, w), (path, w)).
Definition GetPreferredDockercfgPath : io (string * W) string := λ s, (Ret s.1, s).
Definition DefaultDockercfgPaths : io (string * W) (list string) :=
  preferred ← GetPreferredDockercfgPath; mret [preferred; EmptyString; homeDirPath; rootDirPath].
Definition DefaultDockerConfigJSONPaths : io (string * W) (list string) :=
  preferred ← GetPreferredDockercfgPath; mret [preferred; EmptyString; homeJSONDirPath; rootJSONDirPath].

(** The file of the first path that can be read and decoded. *)
Fixpoint firstConfig (name : string) (read : string → io W DockerConfig) (paths : list string) : io W (option DockerConfig) :=
  match paths with
  | [] => mret None
  | path :: paths =>
      r ← try (location ← fs_Abs (fs_Join path name); read location);
      match r with inr cfg => mret (Some cfg) | inl _ => firstConfig name read paths end
  end.
Definition ReadDockercfgFile (searchPaths : list string) : io (string * W) DockerConfig :=
  searchPaths ← (if (length searchPaths =? 0)%nat then DefaultDockercfgPaths else mret searchPaths);
  r ← on_snd (firstConfig configFileName (λ location, contents ← fs_ReadFile location; lift (ReadDockerConfigFileFromBytes contents)) searchPaths);
  match r with Some cfg => mret cfg | None => fail (Errorf "couldn't find valid .dockercfg after checking in %v") end.
Definition ReadSpecificDockerConfigJSONFile (filePath : string) : io W DockerConfig :=
  contents ← fs_ReadFile filePath; lift (readDockerConfigJSONFileFromBytes contents).
Definition ReadDockerConfigJSONFile (searchPaths : list string) : io (string * W) DockerConfig :=
  searchPaths ← (if (length searchPaths =? 0)%nat then DefaultDockerConfigJSONPaths else mret searchPaths);
  r ← on_snd (firstConfig configJSONFileName ReadSpecificDockerConfigJSONFile searchPaths);
  match r with Some cfg => mret cfg | None => fail (Errorf "couldn't find valid %s after checking in %v") end.
Definition ReadDockerConfigFile : io (string * W) DockerConfig :=
  r ← try (ReadDockerConfigJSONFile []);
  match r with inr cfg => mret cfg | inl _ => ReadDockercfgFile [] end.

(** ** URLs *)
Definition maxReadLength : Z := Z.shiftl 10 20.
Definition StatusOK : Z := 200.
(** The limited reader ends at the limit, before the error of the body. *)
Definition ReadURL (url : string) (header : bool) : io W string :=
  _ ← lift (http_NewRequest url);
  resp ← client_Do url header;
  if negb (StatusCode resp =? StatusOK) then fail (Errorf "http status code: %d while fetching url %s")
  else if maxReadLength <=? Z.of_nat (String.length (Body resp)) then fail (Errorf "the read limit is reached")
  else match body_err resp with Some err => fail err | None => mret (Body resp) end.
(** The error of [ReadURL] is in a variable of an inner scope: the result is a
    nil map and a nil error. *)
Definition ReadDockerConfigFileFromURL (url : string) (header : bool) : io W DockerConfig :=
  r ← try (ReadURL url header);
  match r with inr contents => lift (ReadDockerConfigFileFromBytes contents) | inl _ => mret ∅ end.

(** ** Providers *)
Definition metadataURL : string := "http://metadata.google.internal./computeMetadata/v1/".
Definition metadataAttributes : string := (metadataURL +:+ "instance/attributes/")%string.
Definition DockerConfigKey : string := (metadataAttributes +:+ "google-dockercfg")%string.
Definition DockerConfigURLKey : string := (metadataAttributes +:+ "google-dockercfg-url")%string.
Definition serviceAccounts : string := (metadataURL +:+ "instance/service-accounts/")%string.
Definition metadataScopes : string := (serviceAccounts +:+ "default/scopes")%string.
Definition metadataToken : string := (serviceAccounts +:+ "default/token")%string.
Definition metadataEmail : string := (serviceAccounts +:+ "default/email")%string.
Definition StorageScopePrefix : string := "https://www.googleapis.com/auth/devstorage".
Definition cloudPlatformScopePrefix : string := "https://www.googleapis.com/auth/cloud-platform".
Definition defaultServiceAccount : string := "default/".
Definition GCEProductNameFile : string := "/sys/class/dmi/id/product_name".
Definition containerRegistryUrls : list string := ["container.cloud.google.com"; "gcr.io"; "*.gcr.io"; "*.pkg.dev"]%string.
Definition crlf : string := String (ch 13) (String (ch 10) EmptyString).

Definition onGCEVM : io W bool :=
  name ← (if on_windows then
            r ← try exec_wmic;
            mret match r with
            | inl _ => None
            | inr data => match split_str crlf (TrimSpace data) with [_; name] => Some name | _ => None end
            end
          else r ← try (fs_ReadFile GCEProductNameFile); mret match r with inl _ => None | inr data => Some (TrimSpace data) end);
  mret match name with Some name => bool_decide (name = "Google"%string) || bool_decide (name = "Google Compute Engine"%string) | None => false end.

Inductive provider : Type := DockerConfigKeyProvider | DockerConfigURLKeyProvider | ContainerRegistryProvider.

Definition orEmpty (m : io W DockerConfig) : io W DockerConfig := r ← try m; mret match r with inl _ => ∅ | inr cfg => cfg end.
Definition DockerConfigKeyProvider_Provide : io W DockerConfig := orEmpty (ReadDockerConfigFileFromURL DockerConfigKey true).
Definition DockerConfigURLKeyProvider_Provide : io W DockerConfig :=
  r ← try (ReadURL DockerConfigURLKey true);
  match r with
  | inl _ => mret ∅
  | inr url => if HasPrefix url "http" then orEmpty (ReadDockerConfigFileFromURL url false) else mret ∅
  end.

Definition registryConfig (entry : DockerConfigEntry) : DockerConfig := list_to_map ((λ url, (url, entry)) <$> containerRegistryUrls).
Definition ContainerRegistryProvider_Provide : io W DockerConfig :=
  r ← try (ReadURL metadataToken true);
  match r with
  | inl _ => mret ∅
  | inr tokenJSONBlob =>
      r ← try (ReadURL metadataEmail true);
      match r with
      | inl _ => mret ∅
      | inr email =>
          match unmarshal_struct ["access_token"%string] tokenJSONBlob with
          | ([accessToken], None) => mret (registryConfig (mkEntry "_token" accessToken email))
          | _ => mret ∅
          end
      end
  end.
(** The image is ignored. *)
Definition Provide (p : provider) (image : string) : io W DockerConfig :=
  match p with
  | DockerConfigKeyProvider => DockerConfigKeyProvider_Provide
  | DockerConfigURLKeyProvider => DockerConfigURLKeyProvider_Provide
  | ContainerRegistryProvider => ContainerRegistryProvider_Provide
  end.

Definition maxBackoff : Z := 60 * 1000 * millisecond.
(** The loop has no bound; [None] is a loop that is still running after [fuel]
    attempts. *)
Fixpoint runWithBackoff (fuel : nat) (backoff : Z) (f : io W string) : io W (option string) :=
  match fuel with
  | O => mret None
  | S fuel =>
      r ← try f;
      match r with
      | inr value => mret (Some value)
      | inl _ =>
          _ ← cred_Sleep backoff;
          let backoff := backoff * 2 in
          runWithBackoff fuel (if maxBackoff <? backoff then maxBackoff else backoff) f
      end
  end.

(** [json.Unmarshal] into a slice of strings; a null element is the zero value. *)
Fixpoint strings_of_json (l : list json) : option (list string) :=
  match l with
  | [] => Some []
  | JString s :: l => (s ::.) <$> strings_of_json l
  | JNull :: l => (EmptyString ::.) <$> strings_of_json l
  | _ :: _ => None
  end.
Definition unmarshalStrings (value : string) : option (list string) :=
  match json_of value with
  | Some (JArray l) => strings_of_json l
  | Some JNull => Some []
  | _ => None
  end.
Definition accountListed (value : string) : bool :=
  existsb (λ sa, bool_decide (TrimSpace sa = defaultServiceAccount)) (split_on (ch 10) value).
Definition scopeGranted (value : string) : bool :=
  match unmarshalStrings value with
  | None => false
  | Some scopes => existsb (λ v, HasPrefix v StorageScopePrefix || HasPrefix v cloudPlatformScopePrefix) scopes
  end.
Definition ContainerRegistryProvider_Enabled (fuel : nat) : io W (option bool) :=
  value ← runWithBackoff fuel (100 * millisecond) (ReadURL serviceAccounts true);
  match value with
  | None => mret None
  | Some value =>
      if negb (accountListed value) then mret (Some false)
      else
        value ← runWithBackoff fuel (100 * millisecond) (ReadURL (metadataScopes +:+ "?alt=json") true);
        mret (scopeGranted <$> value)
  end.
Definition provider_Enabled (fuel : nat) (p : provider) : io W (option bool) :=
  match p with ContainerRegistryProvider => ContainerRegistryProvider_Enabled fuel | _ => b ← onGCEVM; mret (Some b) end.

(** ** The caching provider *)
Record CachingDockerConfigProvider : Type := mkCaching {
  Lifetime : Z; ShouldCache : option (DockerConfig → bool); cacheDockerConfig : DockerConfig; expiration : Z
}.
Definition setCached (config : DockerConfig) (exp : Z) (d : CachingDockerConfigProvider) : CachingDockerConfigProvider :=
  mkCaching (Lifetime d) (ShouldCache d) config exp.
Definition caching_Provide (inner : string → io W DockerConfig) (image : string) : io (CachingDockerConfigProvider * W) DockerConfig :=
  s ← ask;
  now ← on_snd cred_Now;
  if now <? expiration s.1 then mret (cacheDockerConfig s.1)
  else
    config ← on_snd (inner image);
    if from_option (λ f, f config) true (ShouldCache s.1)
    then now ← on_snd cred_Now; _ ← put (λ '(d, w), (setCached config (now + Lifetime d) d, w)); mret config
    else mret config.

(** ** The credential provider of the kubelet *)
Definition cacheDurationKey : string := "KUBE_SIDECAR_CACHE_DURATION".
Definition cacheTypeKey : string := "KUBE_SIDECAR_CACHE_TYPE".
Definition getCacheDuration : io W Z :=
  unparsedCacheDuration ← cred_Getenv cacheDurationKey;
  if bool_decide (unparsedCacheDuration = EmptyString) then mret 0 else lift (time_ParseDuration unparsedCacheDuration).
Definition getCacheKeyType : io W PluginCacheKeyType :=
  keyType ← cred_Getenv cacheTypeKey;
  if bool_decide (keyType = EmptyString) then mret ImagePluginCacheKeyType
  else if bool_decide (keyType = "image"%string) then mret ImagePluginCacheKeyType
  else if bool_decide (keyType = "registry"%string) then mret RegistryPluginCacheKeyType
  else if bool_decide (keyType = "global"%string) then mret GlobalPluginCacheKeyType
  else fail (Errorf "Unknown cache key %q").
Definition authConfig (e : DockerConfigEntry) : AuthConfig := mkAuthConfig (Username e) (Password e).
Definition GetResponse (image : string) (p : provider) : io W CredentialProviderResponse :=
  cfg ← Provide p image;
  cacheDuration ← getCacheDuration;
  cacheKey ← getCacheKeyType;
  mret (mkCredResponse "CredentialProviderResponse" "credentialprovider.kubelet.k8s.io/v1" cacheKey cacheDuration (authConfig <$> cfg)).

Definition gcrAuthFlow : string := "gcr".
Definition dockerConfigAuthFlow : string := "dockercfg".
Definition dockerConfigURLAuthFlow : string := "dockercfg-url".
Definition providerFromFlow (flow : string) : outcome provider :=
  if bool_decide (flow = gcrAuthFlow) then Ret ContainerRegistryProvider
  else if bool_decide (flow = dockerConfigAuthFlow) then Ret DockerConfigKeyProvider
  else if bool_decide (flow = dockerConfigURLAuthFlow) then Ret DockerConfigURLKeyProvider
  else Err (Errorf "unrecognized auth flow %q").
Definition validateFlags (authFlow : string) : outcome unit :=
  if bool_decide (authFlow ≠ gcrAuthFlow) && bool_decide (authFlow ≠ dockerConfigAuthFlow) && bool_decide (authFlow ≠ dockerConfigURLAuthFlow)
  then Err (Errorf "invalid value %q for authFlow (must be one of %q, %q, or %q)") else Ret tt.
Definition requestFields : list string := ["kind"; "apiVersion"; "image"]%string.
Definition getCredentials (authFlow : string) : io W unit :=
  authProvider ← lift (providerFromFlow authFlow);
  unparsedRequest ← stdin_ReadAll;
  match unmarshal_struct requestFields unparsedRequest with
  | ([_; _; image], None) =>
      r ← try (GetResponse image authProvider);
      match r with
      | inl err => fail (ErrorfW "error getting authentication response from provider: %w" err)
      | inr authCredentials => fmt_Println authCredentials
      end
  | (_, Some err) => fail (ErrorfW "error unmarshaling auth credential request: %w" err)
  | _ => lift Panic
  end.
(** The flags are checked before they are parsed: the default is what is checked. *)
Definition NewGetCredentialsCommand : outcome (string → io W unit) := _ ← validateFlags gcrAuthFlow; Ret getCredentials.
End env.
