(* ===== verification/DockerConfigProps.v ===== *)
(** * DockerConfigProps: docker credentials

    What is written is read back ([entry_roundtrip], over base64 and JSON), the
    caching provider hands out nothing older than its lifetime
    ([cached_config_fresh]), and the registry provider decides once the metadata
    server answers ([registry_enabled_decides]). *)
From S2P Require Import Prelude Bits GoNet GoNetText GoStrings Json K8s IoLogic NodeIpamConfig DockerConfig.
Local Open Scope Z_scope.

(** ** Base64 *)
Lemma b64_char_facts n : 0 ≤ n < 64 →
  b64_value (b64_char n) = Some n ∧ b64_char n ≠ b64_pad ∧ between 33 126 (b64_char n) = true ∧ (is_byte 10 (b64_char n) || is_byte 13 (b64_char n)) = false.
Proof.
  intros Hn.
  assert (Forall (λ n, b64_value (b64_char n) = Some n ∧ b64_char n ≠ b64_pad ∧ between 33 126 (b64_char n) = true ∧
    (is_byte 10 (b64_char n) || is_byte 13 (b64_char n)) = false) (seqZ 0 64)) as Ha by by_eval.
  rewrite Forall_forall in Ha. apply Ha. apply elem_of_seqZ. lia.
Qed.
Lemma sextet_value val i : b64_value (sextet val i) = Some (val / 64 ^ i mod 64).
Proof. apply b64_char_facts. by apply Z.mod_pos_bound. Qed.
Lemma sextet_not_pad val i : bool_decide (sextet val i = b64_pad) = false.
Proof. apply bool_decide_eq_false. apply b64_char_facts. by apply Z.mod_pos_bound. Qed.
Lemma sextet_char val i : between 33 126 (sextet val i) = true ∧ (is_byte 10 (sextet val i) || is_byte 13 (sextet val i)) = false.
Proof. apply b64_char_facts. by apply Z.mod_pos_bound. Qed.

Lemma code_range c : 0 ≤ code c < 256.
Proof. unfold code. pose proof (Ascii.N_ascii_bounded c). lia. Qed.
Lemma ch_code c : ch (code c) = c.
Proof. unfold ch, code. rewrite N2Z.id. apply Ascii.ascii_N_embedding. Qed.

(** The four sextets of a group give the group back. *)
Lemma sextets_val val : 0 ≤ val < 16777216 →
  val / 64 ^ 3 mod 64 * 262144 + val / 64 ^ 2 mod 64 * 4096 + val / 64 ^ 1 mod 64 * 64 + val / 64 ^ 0 mod 64 = val.
Proof. change (64 ^ 3) with 262144. change (64 ^ 2) with 4096. change (64 ^ 1) with 64. change (64 ^ 0) with 1. intros. Z.to_euclidean_division_equations. lia. Qed.
Lemma group_bytes a b c : let val := code a * 65536 + code b * 256 + code c in
  group_byte val 2 = a ∧ group_byte val 1 = b ∧ group_byte val 0 = c.
Proof.
  intros val. subst val. pose proof (code_range a). pose proof (code_range b). pose proof (code_range c).
  unfold group_byte. change (256 ^ 2) with 65536. change (256 ^ 1) with 256. change (256 ^ 0) with 1.
  split; [|split]; [transitivity (ch (code a))|transitivity (ch (code b))|transitivity (ch (code c))]; try apply ch_code;
    f_equal; Z.to_euclidean_division_equations; lia.
Qed.

(** Induction by groups. *)
Lemma string_ind3 (P : string → Prop) : P EmptyString → (∀ a, P (String a EmptyString)) → (∀ a b, P (String a (String b EmptyString))) →
  (∀ a b c s, P s → P (String a (String b (String c s)))) → ∀ s, P s.
Proof.
  intros H0 H1 H2 H3. refine (fix go s := _). destruct s as [|a [|b [|c s]]]; [exact H0|apply H1|apply H2|apply H3, go].
Qed.

(** A whole group, and the two kinds of padded ones. *)
Lemma b64_groups_full padded val rest : 0 ≤ val < 16777216 →
  b64_groups padded (String (sextet val 3) (String (sextet val 2) (String (sextet val 1) (String (sextet val 0) rest)))) =
  rest ← b64_groups padded rest; Some (String (group_byte val 2) (String (group_byte val 1) (String (group_byte val 0) rest))).
Proof.
  intros Hv. cbn [b64_groups]. rewrite sextet_not_pad, andb_false_r, !sextet_value. cbn [mbind option_bind].
  by rewrite sextets_val.
Qed.
Lemma b64_groups_two val : 0 ≤ val < 16777216 → val mod 256 = 0 →
  b64_groups true (String (sextet val 3) (String (sextet val 2) (String (sextet val 1) (String b64_pad EmptyString)))) =
  Some (String (group_byte val 2) (String (group_byte val 1) EmptyString)).
Proof.
  intros Hv Hm. cbn [b64_groups]. rewrite (bool_decide_eq_true_2 (b64_pad = b64_pad)), sextet_not_pad by done. cbn [andb].
  unfold two_bytes. rewrite !sextet_value. cbn [mbind option_bind].
  assert (val / 64 ^ 0 mod 64 = 0) as H0 by (change (64 ^ 0) with 1; Z.to_euclidean_division_equations; lia).
  pose proof (sextets_val val Hv) as Hs. rewrite H0, Z.add_0_r in Hs. by rewrite Hs.
Qed.
Lemma b64_groups_one val : 0 ≤ val < 16777216 → val mod 65536 = 0 →
  b64_groups true (String (sextet val 3) (String (sextet val 2) (String b64_pad (String b64_pad EmptyString)))) =
  Some (String (group_byte val 2) EmptyString).
Proof.
  intros Hv Hm. cbn [b64_groups]. rewrite (bool_decide_eq_true_2 (b64_pad = b64_pad)) by done. cbn [andb].
  unfold one_byte. rewrite !sextet_value. cbn [mbind option_bind].
  assert (val / 64 ^ 0 mod 64 = 0) as H0 by (change (64 ^ 0) with 1; Z.to_euclidean_division_equations; lia).
  assert (val / 64 ^ 1 mod 64 = 0) as H1 by (change (64 ^ 1) with 64; Z.to_euclidean_division_equations; lia).
  pose proof (sextets_val val Hv) as Hs. rewrite H0, H1, Z.mul_0_l, !Z.add_0_r in Hs. by rewrite Hs.
Qed.

(** What is encoded is decoded: with the padding always, without it when none
    was needed. *)
Lemma b64_groups_encode s : b64_groups true (b64_encode s) = Some s ∧
  (last_char (b64_encode s) = Some b64_pad ∨ b64_groups false (b64_encode s) = Some s).
Proof.
  induction s as [|a|a b|a b c s IH] using string_ind3.
  - split; [done|by right].
  - split; [|by left]. pose proof (group_bytes a (ch 0) (ch 0)) as (Ha&_). change (code (ch 0)) with 0 in Ha.
    rewrite Z.mul_0_l, !Z.add_0_r in Ha. pose proof (code_range a). cbn [b64_encode]. cbv zeta.
    rewrite b64_groups_one, Ha; [done|lia|Z.to_euclidean_division_equations; lia].
  - split; [|by left]. pose proof (group_bytes a b (ch 0)) as (Ha&Hb&_). change (code (ch 0)) with 0 in Ha, Hb.
    rewrite Z.add_0_r in Ha, Hb. pose proof (code_range a). pose proof (code_range b). cbn [b64_encode]. cbv zeta.
    rewrite b64_groups_two, Ha, Hb; [done|lia|Z.to_euclidean_division_equations; lia].
  - pose proof (group_bytes a b c) as (Ha&Hb&Hc). pose proof (code_range a). pose proof (code_range b). pose proof (code_range c).
    destruct IH as [IH1 IH2]. cbn [b64_encode]. cbv zeta. rewrite !b64_groups_full, Ha, Hb, Hc, IH1 by lia. split; [done|].
    destruct IH2 as [IH2|IH2]; [left|right; by rewrite IH2]. destruct (b64_encode s); [done|exact IH2].
Qed.

(** The encoding has printable characters only. *)
Definition printable (c : Ascii.ascii) : bool := between 33 126 c.
Lemma b64_encode_chars s : all_chars printable (b64_encode s) = true.
Proof.
  induction s as [|a|a b|a b c s IH] using string_ind3; [done|..]; cbn [b64_encode all_chars]; unfold printable in *;
    rewrite ?(proj1 (sextet_char _ _)), ?IH; done.
Qed.
Lemma printable_facts c : printable c = true → (code c <? 128) = true ∧ (is_byte 10 c || is_byte 13 c) = false.
Proof. unfold printable, between, is_byte. intros Hp. propify. split; [apply Z.ltb_lt; lia|]. apply orb_false_iff. split; apply Z.eqb_neq; lia. Qed.
Lemma printable_ascii s : all_chars printable s = true → is_ascii s = true.
Proof.
  induction s as [|c s IH]; [done|]. cbn [all_chars is_ascii]. intros [Hc Hs]%andb_true_iff. by rewrite IH, (proj1 (printable_facts c Hc)).
Qed.
Lemma drop_breaks_id s : all_chars printable s = true → drop_breaks s = s.
Proof.
  induction s as [|c s IH]; [done|]. cbn [all_chars drop_breaks]. intros [Hc Hs]%andb_true_iff. by rewrite IH, (proj2 (printable_facts c Hc)).
Qed.

(** Nothing is trimmed from printable text. *)
Definition starts_unprintable (sp : string) : bool := match sp with String c _ => negb (printable c) | EmptyString => false end.
Lemma cut_space_printable sps s : Forall (λ sp, starts_unprintable sp = true) sps → all_chars printable s = true → cut_space sps s = None.
Proof.
  intros Hs Hp. unfold cut_space. enough (list_find (λ sp, String.prefix sp s = true) sps = None) as -> by done.
  apply list_find_None. eapply Forall_impl; [exact Hs|]. intros sp Hsp. destruct sp as [|c sp]; [done|]. destruct s as [|d s]; [done|].
  cbn [String.prefix]. destruct (Ascii.ascii_dec c d) as [<-|]; [|done]. cbn [all_chars starts_unprintable] in *.
  apply andb_true_iff in Hp as [Hc _]. by rewrite Hc in Hsp.
Qed.
Lemma trim_with_printable sps n s : Forall (λ sp, starts_unprintable sp = true) sps → all_chars printable s = true → trim_with sps n s = s.
Proof. intros. destruct n; [done|]. cbn [trim_with]. by rewrite cut_space_printable. Qed.
Lemma string_rev_app s : ∀ acc, string_rev s acc = (string_rev s EmptyString +:+ acc)%string.
Proof.
  induction s as [|c s IH]; intros acc; [done|]. cbn [string_rev]. rewrite IH, (IH (String c EmptyString)). by rewrite string_app_assoc.
Qed.
Lemma string_rev_rev s : ∀ acc, string_rev (string_rev s acc) EmptyString = string_rev acc s.
Proof. induction s as [|c s IH]; intros acc; [done|]. cbn [string_rev]. by rewrite IH. Qed.
Lemma all_chars_rev P s : ∀ acc, all_chars P (string_rev s acc) = all_chars P s && all_chars P acc.
Proof.
  induction s as [|c s IH]; intros acc; [done|]. cbn [string_rev all_chars]. rewrite IH. cbn [all_chars]. destruct (P c), (all_chars P s); done.
Qed.
Lemma TrimSpace_printable s : all_chars printable s = true → TrimSpace s = s.
Proof.
  intros Hp. unfold TrimSpace. cbv zeta. rewrite (trim_with_printable spaces) by (done || by_eval).
  unfold rev_str at 1. rewrite (trim_with_printable (rev_str <$> spaces)); [apply (string_rev_rev s EmptyString)|by_eval|].
  unfold rev_str. by rewrite all_chars_rev, Hp.
Qed.
Lemma HasSuffix_last s c : last_char s = Some c → HasSuffix s (String c EmptyString) = true.
Proof.
  induction s as [|d s IH]; [done|]. intros Hl. cbn [HasSuffix]. apply orb_true_iff. destruct s as [|e s]; [|right; by apply IH].
  left. cbn in Hl. injection Hl as ->. by apply bool_decide_eq_true_2.
Qed.

(** The field survives: the user name ends at the first colon. *)
Lemma auth_field_roundtrip username password : has_char colon username = false →
  decodeDockerConfigFieldAuth (encodeDockerConfigFieldAuth username password) = Ret (username, password).
Proof.
  intros Hu. unfold decodeDockerConfigFieldAuth, encodeDockerConfigFieldAuth.
  set (field := (username +:+ ":" +:+ password)%string). pose proof (b64_encode_chars field) as Hp.
  destruct (b64_groups_encode field) as [Ht Hf]. rewrite TrimSpace_printable by done. unfold b64_DecodeString. rewrite drop_breaks_id, Ht by done.
  assert (splitN2 colon field = [username; password]) as Hsplit by (unfold splitN2, field; rewrite colon_app, cut_on_app; done).
  destruct (HasSuffix (b64_encode field) "=") eqn:Hs.
  - cbn [mbind outcome_bind]. by rewrite Hsplit.
  - destruct Hf as [Hf|Hf]; [apply HasSuffix_last in Hf; change (String b64_pad EmptyString) with "="%string in Hf; congruence|]. rewrite Hf. cbn [mbind outcome_bind]. by rewrite Hsplit.
Qed.

(** ** Entries *)
Lemma json_of_marshal_struct ms : Forall member_ok ms → ms ≠ [] →
  json_of (marshal_struct (map (λ kv, (kv.1, FString kv.2)) ms)) = Some (JObject (map (λ kv, json_member kv) ms)).
Proof.
  intros Hok Hne. unfold json_of. pose proof (marshal_struct_length ms) as Hl.
  rewrite <-(string_app_nil (marshal_struct _)) at 2. rewrite parse_marshalled_struct; [done|done|done|lia|done].
Qed.

(** The members of the text, decoded: empty fields are left out and come back
    empty. *)
Lemma decode_nonempty username password email auth :
  decode_struct dockerConfigEntryWithAuth
    (JObject (map (λ kv, json_member kv) (filter (λ kv, kv.2 ≠ EmptyString) (zip dockerConfigEntryWithAuth [username; password; email; auth])))) None
  = ([username; password; email; auth], None).
Proof.
  cbn [zip zip_with dockerConfigEntryWithAuth]. rewrite !filter_cons, filter_nil. cbn [snd].
  destruct (decide (username ≠ EmptyString)) as [|Hu], (decide (password ≠ EmptyString)) as [|Hp], (decide (email ≠ EmptyString)) as [|He],
    (decide (auth ≠ EmptyString)) as [|Ha]; try apply dec_stable in Hu; try apply dec_stable in Hp; try apply dec_stable in He; try apply dec_stable in Ha;
    subst; reflexivity.
Qed.

Definition ascii_entry (e : DockerConfigEntry) : Prop := is_ascii (Username e) = true ∧ is_ascii (Password e) = true ∧ is_ascii (Email e) = true.

(** C26: an entry of a docker configuration survives being written and read: its
    user name, password and email are those it had, whether they are empty or
    not, for every ASCII entry whose user name has no colon.  The [auth] field
    that carries the name and the password is base64 with padding or without. *)
Theorem entry_roundtrip (e : DockerConfigEntry) : ascii_entry e → has_char colon (Username e) = false →
  entry_UnmarshalJSON (entry_MarshalJSON e) = Ret e.
Proof.
  intros (Hu&Hp&He) Hc. unfold entry_UnmarshalJSON, entry_MarshalJSON. set (auth := encodeDockerConfigFieldAuth _ _).
  assert (is_ascii auth = true) as Ha by (apply printable_ascii, b64_encode_chars).
  assert (auth ≠ EmptyString) as Hne.
  { intros Heq. pose proof (auth_field_roundtrip (Username e) (Password e) Hc) as Hr. fold auth in Hr. by rewrite Heq in Hr. }
  rewrite json_of_marshal_struct.
  - unfold entry_of_json. rewrite decode_nonempty. destruct auth eqn:Hd; [done|]. cbn [String.length Nat.eqb]. rewrite <-Hd.
    subst auth. rewrite auth_field_roundtrip by done. by destruct e.
  - apply Forall_forall. intros kv [_ Hkv]%list_elem_of_filter. repeat (apply elem_of_cons in Hkv as [->|Hkv]; [done|]). by apply elem_of_nil in Hkv.
  - cbn [zip zip_with dockerConfigEntryWithAuth]. rewrite !filter_cons, filter_nil. cbn [snd]. rewrite (decide_True (P := auth ≠ EmptyString)) by done. repeat case_decide; done.
Qed.

Lemma entry_roundtrip_witness :
  let e := mkEntry "_json_key" "p:ss+w/rd" "me@example.com" in
  ascii_entry e ∧ has_char colon (Username e) = false ∧ entry_UnmarshalJSON (entry_MarshalJSON e) = Ret e.
Proof.
  intros e. split; [by vm_compute|]. split; [reflexivity|]. apply (entry_roundtrip e); [by vm_compute|reflexivity].
Defined.

(** ** The caching provider *)
Section caching.
Context {W : Type} `{CredEnv W} (inner : string → io W DockerConfig).

(** The states of a provider that starts with an empty cache: calls one after
    the other, between which the rest of the world may change. *)
Inductive cachingReach (L : Z) (f : option (DockerConfig → bool)) : CachingDockerConfigProvider * W → Prop :=
| caching_start w : cachingReach L f (mkCaching L f ∅ 0, w)
| caching_call s image : cachingReach L f s → cachingReach L f (caching_Provide inner image s).2
| caching_world d w w' : cachingReach L f (d, w) → cachingReach L f (d, w').

(** The provider gave the configuration, and the clock then read [t]. *)
Definition answeredAt (cfg : DockerConfig) (t : Z) : Prop :=
  ∃ image w w1, inner image w = (Ret cfg, w1) ∧ (cred_Now w1).1 = Ret t.

Definition cache_ok (L : Z) (f : option (DockerConfig → bool)) (d : CachingDockerConfigProvider) : Prop :=
  Lifetime d = L ∧ ShouldCache d = f ∧
  (expiration d = 0 ∨ ∃ t, answeredAt (cacheDockerConfig d) t ∧ from_option (λ f, f (cacheDockerConfig d)) true f = true ∧ expiration d = t + L).

(** What a call does: the cached configuration before it expires; else the
    provider's answer, which is cached when it may be. *)
Lemma caching_Provide_cases image d (w : W) r s : caching_Provide inner image (d, w) = (r, s) →
  (∃ now, (cred_Now w).1 = Ret now ∧ now < expiration d ∧ r = Ret (cacheDockerConfig d) ∧ s.1 = d) ∨
  (∃ cfg w2, r = Ret cfg ∧ inner image (cred_Now w).2 = (Ret cfg, w2) ∧
     (s.1 = d ∨ ∃ t, (cred_Now w2).1 = Ret t ∧ from_option (λ f, f cfg) true (ShouldCache d) = true ∧ s.1 = setCached cfg (t + Lifetime d) d)) ∨
  (is_ret r = false ∧ s.1 = d).
Proof.
  unfold caching_Provide, ask. rewrite io_bind_eq, io_bind_eq. unfold on_snd. cbn [fst snd].
  destruct (cred_Now w) as [[now|e|] w1] eqn:Hnow; cbn [fst snd].
  2, 3: intros [= <- <-]; right; right; done.
  destruct (Z.ltb_spec now (expiration d)).
  { intros [= <- <-]. left. by exists now. }
  rewrite io_bind_eq. cbn [fst snd]. destruct (inner image w1) as [[cfg|e|] w2] eqn:Hin; cbn [fst snd].
  2, 3: intros [= <- <-]; right; right; done.
  destruct (from_option (λ f, f cfg) true (ShouldCache d)) eqn:Hsc.
  2: { intros [= <- <-]. right. left. exists cfg, w2. eauto. }
  rewrite io_bind_eq. cbn [fst snd]. destruct (cred_Now w2) as [[t|e|] w3] eqn:Ht; cbn [fst snd].
  2, 3: intros [= <- <-]; right; right; done.
  intros [= <- <-]. right. left. exists cfg, w2. split; [done|]. split; [done|]. right. exists t. by rewrite Ht.
Qed.

Lemma caching_invariant L f s : cachingReach L f s → cache_ok L f s.1.
Proof.
  induction 1 as [w|[d w] image Hr (HL&Hf&Hc)|d w w' Hr IH]; [by repeat split; left| |exact IH].
  cbn [fst] in *. destruct (caching_Provide inner image (d, w)) as [r s] eqn:Hp. cbn [snd].
  destruct (caching_Provide_cases _ _ _ _ _ Hp) as [(now&_&_&_&->)|[(cfg&w2&_&Hin&[->|(t&Ht&Hsc&->)])|[_ ->]]]; [by split|by split| |by split].
  split; [done|]. split; [done|]. right. exists t. rewrite <-Hf, <-HL. split; [|done]. by exists image, (cred_Now w).2, w2.
Qed.

(** A call of the caching provider returns what the provider answers to
    this call, or a configuration the provider gave for some image at a time
    [t] with less than the lifetime since, and that may be cached; nothing else
    is ever handed out, whatever calls came before. *)
Theorem cached_config_fresh L f s image cfg s' now : cachingReach L f s →
  caching_Provide inner image s = (Ret cfg, s') → (cred_Now s.2).1 = Ret now → 0 ≤ now →
  (∃ w2, inner image (cred_Now s.2).2 = (Ret cfg, w2)) ∨
  (∃ t, answeredAt cfg t ∧ from_option (λ f, f cfg) true f = true ∧ now < t + L).
Proof.
  intros Hr Hp Hnow Hpos. destruct (caching_invariant L f s Hr) as (HL&Hf&Hc). destruct s as [d w]. cbn [fst snd] in *.
  destruct (caching_Provide_cases _ _ _ _ _ Hp) as [(now'&Hn&Hlt&[= ->]&_)|[(cfg'&w2&[= <-]&Hin&_)|[? _]]]; [|left; eauto|done].
  right. rewrite Hnow in Hn. injection Hn as <-. destruct Hc as [Hc|(t&Ha&Hs&He)]; [lia|]. exists t. rewrite <-He. done.
Qed.
End caching.

(** ** The registry provider *)
Section registry.
Context {W : Type} `{CredEnv W}.

(** A metadata server that has [outage w] failures ahead: it refuses requests
    only while there are some, each sleep of the caller takes one away, and the
    texts it serves do not change. *)
Record recovering (outage : W → nat) (accounts scopes : string) : Prop := mkRecovering {
  recovers url text w : (url, text) ∈ [(serviceAccounts, accounts); ((metadataScopes +:+ "?alt=json")%string, scopes)] →
    (∃ w1, ReadURL url true w = (Ret text, w1) ∧ (outage w1 ≤ outage w)%nat) ∨
    (∃ e w1, ReadURL url true w = (Err e, w1) ∧ (0 < outage w)%nat ∧ (outage w1 ≤ outage w)%nat);
  sleep_helps d w : 0 < d → ∃ w1, cred_Sleep d w = (Ret tt, w1) ∧ (outage w1 ≤ pred (outage w))%nat
}.

Lemma runWithBackoff_returns outage accounts scopes url text : recovering outage accounts scopes →
  (url, text) ∈ [(serviceAccounts, accounts); ((metadataScopes +:+ "?alt=json")%string, scopes)] →
  ∀ fuel backoff w, (outage w < fuel)%nat → 0 < backoff →
  ∃ w1, runWithBackoff fuel backoff (ReadURL url true) w = (Ret (Some text), w1) ∧ (outage w1 ≤ outage w)%nat.
Proof.
  intros Hrec Hin. induction fuel as [|fuel IH]; intros backoff w Hlt Hb; [lia|]. cbn [runWithBackoff]. rewrite io_bind_eq. unfold try.
  destruct (recovers _ _ _ Hrec url text w Hin) as [(w1&Hr&Hle)|(e&w1&Hr&Hpos&Hle)]; rewrite Hr; [by exists w1|].
  rewrite io_bind_eq. destruct (sleep_helps _ _ _ Hrec backoff w1 Hb) as (w2&Hs&Hle2). rewrite Hs. cbv zeta.
  edestruct (IH (if maxBackoff <? backoff * 2 then maxBackoff else backoff * 2) w2) as (w3&Hw3&Hle3); [lia|case_match; unfold maxBackoff, millisecond; lia|].
  exists w3. split; [exact Hw3|lia].
Qed.

(** C25: once the metadata server answers, after any number of failures,
    [Enabled] of the registry provider returns: true exactly when the default
    account is among the accounts and one of its scopes covers storage.  More
    attempts do not change the answer. *)
Theorem registry_enabled_decides outage accounts scopes fuel w : recovering outage accounts scopes → (outage w < fuel)%nat →
  ∃ w', ContainerRegistryProvider_Enabled fuel w = (Ret (Some (accountListed accounts && scopeGranted scopes)), w').
Proof.
  intros Hrec Hf. unfold ContainerRegistryProvider_Enabled. rewrite io_bind_eq.
  destruct (runWithBackoff_returns _ _ _ serviceAccounts accounts Hrec ltac:(left) fuel (100 * millisecond) w Hf ltac:(done)) as (w1&Hr&Hle).
  rewrite Hr. destruct (accountListed accounts); cbn [negb andb]; [|by eexists]. rewrite io_bind_eq.
  destruct (runWithBackoff_returns _ _ _ _ scopes Hrec ltac:(right; left) fuel (100 * millisecond) w1 ltac:(lia) ltac:(done)) as (w2&Hr2&_).
  rewrite Hr2. by eexists.
Qed.
End registry.

(** ** A machine with a metadata server *)
Record machine : Type := mkMachine { vm_clock : Z; vm_outage : nat; vm_printed : list CredentialProviderResponse }.
Definition set_clock (t : Z) (m : machine) : machine := mkMachine t (vm_outage m) (vm_printed m).
(** Its texts, with single quotes for the double ones. *)
Definition served (url : string) : string :=
  if bool_decide (url = metadataToken) then dq "{'access_token': 'ya29.token', 'expires_in': 3599}"
  else if bool_decide (url = metadataEmail) then "default@example.iam.gserviceaccount.com"
  else if bool_decide (url = serviceAccounts) then ("default/" +:+ newline +:+ "other@example.com/" +:+ newline)%string
  else dq "['https://www.googleapis.com/auth/logging.write', 'https://www.googleapis.com/auth/devstorage.read_only']".
#[local] Instance machine_env : CredEnv machine := {
  http_NewRequest _ := Ret tt;
  client_Do url _ := λ m, match vm_outage m with O => (Ret (mkResponse StatusOK (served url) None), m) | S _ => (Err (Errorf "connection refused"), m) end;
  homeDirPath := "/root";
  fs_Join a b := (a +:+ "/" +:+ b)%string;
  fs_Abs s := mret s;
  fs_ReadFile s := if bool_decide (s = GCEProductNameFile) then mret ("Google Compute Engine" +:+ newline)%string else fail (Errorf "no such file");
  on_windows := false;
  exec_wmic := fail (Errorf "no wmic");
  cred_Sleep d := put (λ m, mkMachine (vm_clock m + d) (pred (vm_outage m)) (vm_printed m));
  cred_Now := λ m, (Ret (vm_clock m), m);
  cred_Getenv _ := mret EmptyString;
  time_ParseDuration _ := Err (Errorf "time: invalid duration");
  stdin_ReadAll := mret (dq "{'kind': 'CredentialProviderRequest', 'image': 'gcr.io/project/image'}");
  fmt_Println r := put (λ m, mkMachine (vm_clock m) (vm_outage m) (r :: vm_printed m))
}.

Definition noon : machine := mkMachine (1000 * maxBackoff) 0 [].
Definition vmProvider : string → io machine DockerConfig := Provide ContainerRegistryProvider.
(** One call fills the cache; the second comes thirty seconds later. *)
Definition vmCached : CachingDockerConfigProvider * machine :=
  let s := (caching_Provide vmProvider "gcr.io/project/image" (mkCaching maxBackoff None ∅ 0, noon)).2 in
  (s.1, set_clock (vm_clock s.2 + 30000 * millisecond) s.2).
Definition vmConfig : DockerConfig := registryConfig (mkEntry "_token" "ya29.token" "default@example.iam.gserviceaccount.com").

Lemma vm_second_call : (caching_Provide vmProvider "eu.gcr.io/other" vmCached).1 = Ret vmConfig.
Proof. by_eval. Qed.

Lemma cached_config_fresh_witness :
  (caching_Provide vmProvider "eu.gcr.io/other" vmCached).1 = Ret vmConfig ∧
  ((∃ w2, vmProvider "eu.gcr.io/other" (cred_Now vmCached.2).2 = (Ret vmConfig, w2)) ∨
   (∃ t, answeredAt vmProvider vmConfig t ∧ true = true ∧ 1000 * maxBackoff + 30000 * millisecond < t + maxBackoff)).
Proof.
  split; [exact vm_second_call|].
  apply (cached_config_fresh vmProvider maxBackoff None vmCached "eu.gcr.io/other" vmConfig (caching_Provide vmProvider "eu.gcr.io/other" vmCached).2
    (1000 * maxBackoff + 30000 * millisecond)); [|by rewrite <-vm_second_call, <-surjective_pairing|reflexivity|by vm_compute].
  refine (caching_world vmProvider maxBackoff None _ (caching_Provide vmProvider "gcr.io/project/image" (mkCaching maxBackoff None ∅ 0, noon)).2.2 _ _).
  rewrite <-surjective_pairing. apply caching_call, caching_start.
Defined.

Lemma machine_recovers : recovering vm_outage (served serviceAccounts) (served (metadataScopes +:+ "?alt=json")).
Proof.
  split.
  - intros url text m Hin. assert (served url = text) as Ht by (repeat (apply elem_of_cons in Hin as [[= -> ->]|Hin]; [reflexivity|]); by apply elem_of_nil in Hin).
    assert ((maxReadLength <=? Z.of_nat (String.length text)) = false) as Hlen
      by (repeat (apply elem_of_cons in Hin as [[= _ ->]|Hin]; [reflexivity|]); by apply elem_of_nil in Hin).
    unfold ReadURL. rewrite !io_bind_eq. cbn [lift http_NewRequest machine_env]. rewrite io_bind_eq. cbn [client_Do machine_env].
    destruct (vm_outage m) eqn:Ho; [left|right]; [|by exists (Errorf "connection refused"), m; rewrite Ho; repeat split; lia].
    exists m. cbn [StatusCode Body body_err]. rewrite Ht, Hlen. split; [reflexivity|lia].
  - intros d m _. eexists. split; [reflexivity|done].
Qed.

Lemma registry_enabled_decides_witness :
  let m := mkMachine 0 3 [] in
  recovering vm_outage (served serviceAccounts) (served (metadataScopes +:+ "?alt=json")) ∧
  ∃ w', ContainerRegistryProvider_Enabled 4 m = (Ret (Some true), w').
Proof.
  intros m. split; [exact machine_recovers|].
  apply (registry_enabled_decides vm_outage (served serviceAccounts) (served (metadataScopes +:+ "?alt=json")) 4 m); [exact machine_recovers|cbn; lia].
Defined.

(** The whole command, on that machine. *)
Example credentials_printed :
  vm_printed (getCredentials gcrAuthFlow noon).2 =
  [mkCredResponse "CredentialProviderResponse" "credentialprovider.kubelet.k8s.io/v1" ImagePluginCacheKeyType 0 (authConfig <$> vmConfig)].
Proof. by vm_compute. Qed.
