(* ===== verification/ClientAuth.v ===== *)
(** * ClientAuth: the auth provider of client-go

    [pkg/clientauthplugin/gcp/gcp.go]: the token source chosen by the
    configuration, the command whose output holds the token, the cached token
    with the configuration it is persisted in, and the transport that adds the
    token to requests; with the parts of [golang.org/x/oauth2] they call. *)
From S2P Require Import Prelude Bits GoNet GoNetText K8s GoStrings IoLogic Json NodeIpamConfig.
Local Open Scope Z_scope.

(** ** [strings.Fields] *)
Definition word (cur : string) : list string := if bool_decide (cur = EmptyString) then [] else [cur].
Fixpoint fields_from (fuel : nat) (cur s : string) : list string :=
  match fuel with
  | O => word cur
  | S fuel =>
      match cut_space spaces s, s with
      | Some r, _ => word cur ++ fields_from fuel EmptyString r
      | None, String c s => fields_from fuel (cur +:+ String c EmptyString) s
      | None, EmptyString => word cur
      end
  end.
Definition strings_Fields (s : string) : list string := fields_from (S (String.length s)) EmptyString s.

(** ** Tokens *)

(** The zero time is 0. *)
Record Token : Type := mkToken { tok_AccessToken : string; tok_TokenType : string; tok_Expiry : Z }.
#[global] Instance Token_eq_dec : EqDecision Token. Proof. solve_decision. Defined.
Definition EqualFold (s t : string) : bool := bool_decide (foldName s = foldName t).
Definition token_Type (t : Token) : string :=
  if EqualFold (tok_TokenType t) "bearer" then "Bearer"
  else if EqualFold (tok_TokenType t) "mac" then "MAC"
  else if EqualFold (tok_TokenType t) "basic" then "Basic"
  else if bool_decide (tok_TokenType t = EmptyString) then "Bearer" else tok_TokenType t.
Definition defaultExpiryDelta : Z := 10000 * millisecond.
Definition token_expired (now : Z) (t : Token) : bool :=
  if tok_Expiry t =? 0 then false else tok_Expiry t - defaultExpiryDelta <? now.
Definition token_Valid (now : Z) (t : Token) : bool := bool_decide (tok_AccessToken t ≠ EmptyString) && negb (token_expired now t).

(** ** The environment *)
Record authReq : Type := mkAuthReq { Authorization : string; req_rest : string }.
Abbreviation gcpConf := (gmap string string).
Definition at_key (c : gcpConf) (k : string) : string := default EmptyString (c !! k).

(** Processes, the decoder of their output with JSONPath, Google's token source,
    times, the persister and the transport below. *)
Class AuthWorld (W : Type) : Type := {
  cmdData : Type;
  cmd_Output : string → list string → io W string;
  yaml_Data : string → outcome cmdData;
  jsonpath_String : cmdData → string → outcome string;
  google_NewSource : list string → io W unit;
  google_SourceToken : list string → io W Token;
  time_ParseIn : string → string → outcome Z;
  time_FormatNano : Z → string;
  aw_Now : io W Z;
  aw_Persist : gcpConf → io W unit;
  base_RoundTrip : authReq → io W Z
}.

Section auth.
Context {W : Type} `{AuthWorld W}.

(** ** Token sources *)
Definition RFC3339Nano : string := "2006-01-02T15:04:05.999999999Z07:00".
Definition auth_defaultScopes : list string :=
  ["https://www.googleapis.com/auth/cloud-platform"; "https://www.googleapis.com/auth/userinfo.email"]%string.
Record commandTokenSource : Type := mkCmdSource { cts_cmd : string; cts_args : list string; tokenKey : string; expiryKey : string; timeFmt : string }.
Inductive oauthSource : Type := CmdSource (c : commandTokenSource) | GoogleSource (scopes : list string).

Definition or_default (s d : string) : string := if (String.length s =? 0)%nat then d else s.
Definition newCmdTokenSource (cmd : string) (args : list string) (tokenKey expiryKey timeFmt : string) : commandTokenSource :=
  mkCmdSource cmd args (or_default tokenKey "{.access_token}") (or_default expiryKey "{.token_expiry}") (or_default timeFmt RFC3339Nano).
Definition isCmdTokenSource (gcpConfig : gcpConf) : bool := bool_decide (is_Some (gcpConfig !! "cmd-path"%string)).
Definition parseScopes (gcpConfig : gcpConf) : list string :=
  match gcpConfig !! "scopes"%string with
  | None => auth_defaultScopes
  | Some scopes => if bool_decide (scopes = EmptyString) then [] else split_on (ch 44) scopes
  end.
Definition tokenSource (isCmd : bool) (gcpConfig : gcpConf) : io W oauthSource :=
  if isCmd then
    let cmd := at_key gcpConfig "cmd-path" in
    if (String.length cmd =? 0)%nat then fail (Errorf "missing access token cmd")
    else if bool_decide (at_key gcpConfig "scopes" ≠ EmptyString)
    then fail (Errorf "scopes can only be used when kubectl is using a gcp service account key")
    else
      let source cmd args := CmdSource (newCmdTokenSource cmd args (at_key gcpConfig "token-key") (at_key gcpConfig "expiry-key") (at_key gcpConfig "time-fmt")) in
      match gcpConfig !! "cmd-args"%string with
      | Some cmdArgs => mret (source cmd (strings_Fields cmdArgs))
      | None => match strings_Fields cmd with c :: args => mret (source c args) | [] => lift Panic end
      end
  else
    let scopes := parseScopes gcpConfig in
    r ← try (google_NewSource scopes);
    match r with inl _ => fail (Errorf "cannot construct google default token source: %v") | inr _ => mret (GoogleSource scopes) end.

Definition parseTokenCmdOutput (c : commandTokenSource) (output : string) : outcome Token :=
  data ← yaml_Data output;
  accessToken ← match jsonpath_String data (tokenKey c) with Err _ => Err (Errorf "error parsing token-key %q from %q: %v") | r => r end;
  expiryStr ← match jsonpath_String data (expiryKey c) with Err _ => Err (Errorf "error parsing expiry-key %q from %q: %v") | r => r end;
  match time_ParseIn (timeFmt c) expiryStr with
  | Ret t => Ret (mkToken accessToken "Bearer" t)
  | Err _ => Ret (mkToken accessToken "Bearer" 0)
  | Panic => Panic
  end.
Definition command_Token (c : commandTokenSource) : io W Token :=
  r ← try (cmd_Output (cts_cmd c) (cts_args c));
  match r with
  | inl _ => fail (Errorf "error executing access token command %q: err=%v output=%s stderr=%s")
  | inr output => lift match parseTokenCmdOutput c output with Err _ => Err (Errorf "error parsing output for access token command %q: %v") | r => r end
  end.
Definition source_Token (s : oauthSource) : io W Token :=
  match s with CmdSource c => command_Token c | GoogleSource scopes => google_SourceToken scopes end.

(** ** The cached token *)
Record cachedTokenSource : Type := mkCachedSource {
  cs_source : oauthSource; cs_accessToken : string; cs_expiry : Z; cs_persister : bool; cs_cache : gcpConf
}.
Definition newCachedTokenSource (accessToken expiry : string) (persister : bool) (ts : oauthSource) (cache : gcpConf) : cachedTokenSource :=
  mkCachedSource ts accessToken match time_ParseIn RFC3339Nano expiry with Ret t => t | _ => 0 end persister cache.
Definition cachedToken (t : cachedTokenSource) : Token := mkToken (cs_accessToken t) "Bearer" (cs_expiry t).
Definition token_update (tok : Token) (t : cachedTokenSource) : gcpConf * cachedTokenSource :=
  (<[ "expiry"%string := time_FormatNano (tok_Expiry tok) ]> (<[ "access-token"%string := tok_AccessToken tok ]> (cs_cache t)),
   mkCachedSource (cs_source t) (tok_AccessToken tok) (tok_Expiry tok) (cs_persister t) (cs_cache t)).
Definition baseCache (t : cachedTokenSource) : gcpConf := delete "expiry"%string (delete "access-token"%string (cs_cache t)).
Definition cached_Token : io (cachedTokenSource * W) Token :=
  s ← ask;
  let tok := cachedToken s.1 in
  now ← on_snd aw_Now;
  if token_Valid now tok && negb (tok_Expiry tok =? 0) then mret tok
  else
    tok ← on_snd (source_Token (cs_source s.1));
    s ← ask;
    let '(cache, t) := token_update tok s.1 in
    _ ← put (λ s, (t, s.2));
    _ ← (if cs_persister t then _ ← try (on_snd (aw_Persist cache)); mret tt else mret tt);
    mret tok.

Definition newGCPAuthProvider (gcpConfig : gcpConf) (persister : bool) : io W cachedTokenSource :=
  ts ← tokenSource (isCmdTokenSource gcpConfig) gcpConfig;
  mret (newCachedTokenSource (at_key gcpConfig "access-token") (at_key gcpConfig "expiry") persister ts gcpConfig).

(** ** The transport *)

(** [oauth2.Transport] *)
Definition oauth_RoundTrip (req : authReq) : io (cachedTokenSource * W) Z :=
  token ← cached_Token;
  on_snd (base_RoundTrip (mkAuthReq (token_Type token +:+ " " +:+ tok_AccessToken token)%string (req_rest req))).
(** [resetCache] is computed when the transport is made; a persister that is nil
    is called all the same. *)
Definition conditional_RoundTrip (resetCache : gcpConf) (req : authReq) : io (cachedTokenSource * W) Z :=
  if negb (String.length (Authorization req) =? 0)%nat then on_snd (base_RoundTrip req)
  else
    status ← oauth_RoundTrip req;
    s ← ask;
    if status =? 401
    then (if cs_persister s.1 then _ ← try (on_snd (aw_Persist resetCache)); mret status else lift Panic)
    else mret status.
Definition WrapTransport (t : cachedTokenSource) : authReq → io (cachedTokenSource * W) Z := conditional_RoundTrip (baseCache t).
End auth.

(** ** Properties: the token that is kept

    When the cached token is used, that a token survives in the configuration it
    is persisted in, and what is left of it after a refusal. *)

Section auth.
Context {W : Type} `{AuthWorld W}.

(** A token of the cache that may be used: not empty, and with an expiry that is
    at least ten seconds away. *)
Definition usable (now : Z) (t : cachedTokenSource) : Prop :=
  cs_accessToken t ≠ EmptyString ∧ cs_expiry t ≠ 0 ∧ now ≤ cs_expiry t - defaultExpiryDelta.
Lemma usable_spec now t : token_Valid now (cachedToken t) && negb (tok_Expiry (cachedToken t) =? 0) = true ↔ usable now t.
Proof.
  unfold token_Valid, token_expired, usable. cbn [cachedToken tok_AccessToken tok_Expiry].
  rewrite !andb_true_iff, !negb_true_iff, bool_decide_eq_true, Z.eqb_neq. destruct (Z.eqb_spec (cs_expiry t) 0); [naive_solver|].
  rewrite Z.ltb_ge. naive_solver.
Qed.

Lemma cached_Token_eq t (w w1 : W) now : aw_Now w = (Ret now, w1) →
  cached_Token (t, w) =
  if token_Valid now (cachedToken t) && negb (tok_Expiry (cachedToken t) =? 0) then (Ret (cachedToken t), (t, w1))
  else match source_Token (cs_source t) w1 with
       | (Ret tok, w2) =>
           if cs_persister t
           then match aw_Persist (token_update tok t).1 w2 with
                | (Panic, w3) => (Panic, ((token_update tok t).2, w3))
                | (_, w3) => (Ret tok, ((token_update tok t).2, w3))
                end
           else (Ret tok, ((token_update tok t).2, w2))
       | (Err e, w2) => (Err e, (t, w2))
       | (Panic, w2) => (Panic, (t, w2))
       end.
Proof.
  intros Hnow. unfold cached_Token. rewrite io_bind_eq. cbn [ask fst snd]. cbv zeta. rewrite io_bind_eq. unfold on_snd at 1. cbn [fst snd]. rewrite Hnow.
  case_match; [done|]. rewrite io_bind_eq. unfold on_snd at 1. cbn [fst snd].
  destruct (source_Token (cs_source t) w1) as [[tok|e|] w2]; [|done..]. rewrite io_bind_eq. cbn [ask token_update fst snd]. rewrite io_bind_eq.
  cbn [put fst snd cs_persister]. rewrite io_bind_eq. destruct (cs_persister t); [|done].
  rewrite io_bind_eq. unfold try, on_snd. cbn [fst snd]. by destruct (aw_Persist _ w2) as [[u|e|] w3].
Qed.

(** [Token] answers from the cache exactly while the cached token may be used,
    and then asks nobody and persists nothing.  Otherwise it asks the source;
    the answer is what the next call finds in the cache, whether or not it could
    be persisted, and an error of the source leaves the cache as it is. *)
Theorem cached_token_policy t (w w1 : W) now : aw_Now w = (Ret now, w1) →
  (usable now t → cached_Token (t, w) = (Ret (cachedToken t), (t, w1))) ∧
  (¬ usable now t →
   match source_Token (cs_source t) w1 with
   | (Ret tok, w2) => (aw_Persist (token_update tok t).1 w2).1 ≠ Panic →
       ∃ w3, cached_Token (t, w) = (Ret tok, ((token_update tok t).2, w3)) ∧ (cs_persister t = false → w3 = w2)
   | (Err e, w2) => cached_Token (t, w) = (Err e, (t, w2))
   | (Panic, w2) => cached_Token (t, w) = (Panic, (t, w2))
   end).
Proof.
  intros Hnow. rewrite (cached_Token_eq _ _ _ _ Hnow). pose proof (usable_spec now t) as Hu.
  destruct (token_Valid now (cachedToken t) && negb (tok_Expiry (cachedToken t) =? 0)); [split; [done|naive_solver]|].
  split; [naive_solver|]. intros _. destruct (source_Token (cs_source t) w1) as [[tok|e|] w2]; [|done..]. intros Hp.
  destruct (cs_persister t); [|by exists w2]. destruct (aw_Persist _ w2) as [[u|e|] w3]; [by exists w3..|done].
Qed.

(** ** The configuration that is persisted *)

(** The source is chosen by the other keys. *)
Lemma tokenSource_ext (c1 c2 : gcpConf) b (w : W) :
  (∀ k, k ≠ "access-token"%string → k ≠ "expiry"%string → c1 !! k = c2 !! k) → tokenSource b c1 w = tokenSource b c2 w.
Proof.
  intros Hk. unfold tokenSource, at_key, parseScopes.
  by rewrite (Hk "cmd-path"%string), (Hk "scopes"%string), (Hk "token-key"%string), (Hk "expiry-key"%string), (Hk "time-fmt"%string), (Hk "cmd-args"%string) by done.
Qed.
Lemma isCmd_ext (c1 c2 : gcpConf) : c1 !! "cmd-path"%string = c2 !! "cmd-path"%string → isCmdTokenSource c1 = isCmdTokenSource c2.
Proof. unfold isCmdTokenSource. by intros ->. Qed.

Lemma newGCPAuthProvider_eq (c : gcpConf) b (w w' : W) t : newGCPAuthProvider c b w = (Ret t, w') →
  ∃ ts, tokenSource (isCmdTokenSource c) c w = (Ret ts, w') ∧ t = newCachedTokenSource (at_key c "access-token") (at_key c "expiry") b ts c.
Proof.
  unfold newGCPAuthProvider. rewrite io_bind_eq. destruct (tokenSource _ c w) as [[ts|e|] w1]; [|done..]. intros [= <- <-]. by exists ts.
Qed.

(** A token survives a restart of the client: a provider made from the
    configuration that was persisted with the token answers with it, as long as
    it may be used, without asking its source, which is the one the original
    configuration chooses; the part of the configuration that is not the token
    is unchanged. *)
Theorem persisted_token_survives (config : gcpConf) ts tok b b' (w0 w0' w w' wc wc' : W) t now :
  (∀ e, e ≠ 0 → time_ParseIn RFC3339Nano (time_FormatNano e) = Ret e) →
  tokenSource (isCmdTokenSource config) config w0 = (Ret ts, w0') →
  let cached := newCachedTokenSource (at_key config "access-token") (at_key config "expiry") b ts config in
  newGCPAuthProvider (token_update tok cached).1 b' w = (Ret t, w') →
  tok_AccessToken tok ≠ EmptyString → tok_Expiry tok ≠ 0 → aw_Now wc = (Ret now, wc') → now ≤ tok_Expiry tok - defaultExpiryDelta →
  cached_Token (t, wc) = (Ret (mkToken (tok_AccessToken tok) "Bearer" (tok_Expiry tok)), (t, wc')) ∧
  baseCache t = baseCache cached ∧ (w = w0 → cs_source t = ts).
Proof.
  intros Hlaw Hts cached Hnew Hne Hexp Hnow Hle. destruct (newGCPAuthProvider_eq _ _ _ _ _ Hnew) as (ts'&Hts'&->).
  cbn [token_update fst cached newCachedTokenSource cs_cache] in *. set (c2 := <[ "expiry"%string := _ ]> _) in *.
  assert (∀ k, k ≠ "access-token"%string → k ≠ "expiry"%string → c2 !! k = config !! k) as Hk by (intros; subst c2; by rewrite !lookup_insert_ne by done).
  assert (at_key c2 "expiry" = time_FormatNano (tok_Expiry tok)) as He by (unfold at_key, c2; by rewrite lookup_insert_eq).
  assert (at_key c2 "access-token" = tok_AccessToken tok) as Ha by (unfold at_key, c2; by rewrite lookup_insert_ne, lookup_insert_eq).
  rewrite He, Ha. unfold newCachedTokenSource. rewrite Hlaw by done. split; [|split].
  - set (t2 := mkCachedSource _ _ _ _ _). by apply (proj1 (cached_token_policy t2 wc wc' now Hnow)).
  - unfold baseCache. cbn [cs_cache]. apply map_eq. intros k. destruct (decide (k = "expiry"%string)) as [->|]; [by rewrite !lookup_delete_eq|].
    rewrite !(lookup_delete_ne _ "expiry"%string) by done. destruct (decide (k = "access-token"%string)) as [->|]; [by rewrite !lookup_delete_eq|].
    rewrite !lookup_delete_ne by done. by apply Hk.
  - intros ->. cbn [cs_source]. rewrite (isCmd_ext c2 config), (tokenSource_ext c2 config) in Hts' by (done || by apply Hk). congruence.
Qed.

(** After a refusal (401) nothing of the token is left in the configuration: a
    provider made from it answers with what its source gives. *)
Theorem reset_config_forgets (c : cachedTokenSource) b (w w' wc wc' : W) t now : newGCPAuthProvider (baseCache c) b w = (Ret t, w') →
  aw_Now wc = (Ret now, wc') → ¬ usable now t ∧ ∀ tok s, cached_Token (t, wc) = (Ret tok, s) → ∃ w2, source_Token (cs_source t) wc' = (Ret tok, w2).
Proof.
  intros Hnew Hnow. destruct (newGCPAuthProvider_eq _ _ _ _ _ Hnew) as (ts&_&->).
  assert (¬ usable now (newCachedTokenSource (at_key (baseCache c) "access-token") (at_key (baseCache c) "expiry") b ts (baseCache c))) as Hu.
  { intros [Hne _]. apply Hne. cbn. unfold at_key, baseCache. by rewrite lookup_delete_ne, lookup_delete_eq. }
  split; [done|]. intros tok s. rewrite (cached_Token_eq _ _ _ _ Hnow). case_match eqn:Hv; [by apply usable_spec in Hv|].
  destruct (source_Token _ wc') as [[tok'|e|] w2]; [|done..]. intros Heq. exists w2. f_equal. f_equal. repeat case_match; congruence.
Qed.

(** A refused request resets the configuration; with a request that has its own
    header the provider does nothing. *)
Theorem refused_request_resets (reset : gcpConf) req t (w : W) t1 w1 : Authorization req = EmptyString → cs_persister t = true →
  oauth_RoundTrip req (t, w) = (Ret 401, (t1, w1)) → cs_persister t1 = true → (aw_Persist reset w1).1 ≠ Panic →
  conditional_RoundTrip reset req (t, w) = (Ret 401, (t1, (aw_Persist reset w1).2)).
Proof.
  intros Ha Hp Ho Hp1 Hnp. unfold conditional_RoundTrip. rewrite Ha. cbn [String.length Nat.eqb negb]. rewrite io_bind_eq, Ho.
  rewrite io_bind_eq. cbn [ask fst snd]. change (401 =? 401) with true. cbv iota. rewrite Hp1, io_bind_eq. unfold try, on_snd. cbn [fst snd].
  by destruct (aw_Persist reset w1) as [[u|e|] w2].
Qed.
End auth.
