(* ===== verification/GceServices.v ===== *)
(** * GceServices: other services behind the provider

    What the provider asks of services other than the compute API, with the
    counters of its calls: [metrics.go], [gce_tpu.go], [gce_clusters.go],
    [support.go], and the registry credentials of
    [providers/gce/gcpcredential], which repeat [pkg/gcpcredential]. *)
From S2P Require Import Prelude Bits GoNetText GoStrings Json K8s GceInstances IoLogic NodeIpamConfig AddressManager NodeAnnotator LoadBalancer GceHosts ComputeCalls DockerConfig.
Local Open Scope Z_scope.

(** ** Metrics of the calls ([metrics.go])

    Per labels: how many calls were observed, and how many of them failed. *)
Definition unusedMetricLabel : string := "<n/a>".
Definition computeV1Version : string := "v1".
Record metricContext : Type := mkMetricContext { mc_attributes : list string }.
Abbreviation apiMetrics := (gmap (list string) (nat * nat)).

Definition orUnused (label : string) : string := if (String.length label =? 0)%nat then unusedMetricLabel else label.
Definition newGenericMetricContext (prefix request region zone version : string) : metricContext :=
  mkMetricContext [(prefix +:+ "_" +:+ request)%string; orUnused region; orUnused zone; version].

Definition countCall (failed : bool) (n : nat * nat) : nat * nat := (S n.1, if failed then S n.2 else n.2).
Definition observedCalls (mc : metricContext) (m : apiMetrics) : nat * nat := default (0%nat, 0%nat) (m !! mc_attributes mc).
Definition observeResult (mc : metricContext) (failed : bool) (m : apiMetrics) : apiMetrics :=
  <[ mc_attributes mc := countCall failed (observedCalls mc m) ]> m.

Section metrics.
Context {W : Type}.
Abbreviation M := (io (apiMetrics * W)).
(** [mc.Observe(err)] *)
Definition Observe (mc : metricContext) (err : option error) : M unit :=
  _ ← put (λ s, (observeResult mc (bool_decide (is_Some err)) s.1, s.2));
  match err with Some e => fail e | None => mret tt end.
(** [v, err := f(); return v, mc.Observe(err)] *)
Definition observed {A} (mc : metricContext) (f : io W A) : M A :=
  r ← try (on_snd f);
  match r with
  | inl err => _ ← Observe mc (Some err); fail err
  | inr v => _ ← Observe mc None; mret v
  end.
End metrics.

(** ** Cloud TPUs ([gce_tpu.go]) *)
Record tpuOperation : Type := mkTpuOp { op_Name : string; op_Done : bool; op_Error : option string; op_HTTPStatusCode : Z; op_Response : string }.

(** The TPU service, with the clock, the context of the caller and the rate
    limiter of the operations.  A call that fails gives no operation. *)
Class TpuService (W : Type) : Type := {
  tpuNode : Type;
  tpuLocation : Type;
  Nodes_Create : string → string → tpuNode → io W tpuOperation;
  Nodes_Delete : string → io W tpuOperation;
  Nodes_Get : string → io W tpuNode;
  Nodes_List : string → io W (list (list tpuNode));
  Locations_List : string → io W (list (list tpuLocation));
  Operations_Get : string → io W tpuOperation;
  node_Unmarshal : string → outcome tpuNode;
  ctx_Done : io W (option error);
  limiter_Accept : io W unit;
  tpu_Sleep : Z → io W unit
}.

Definition getTPUProjectURL (project : string) : string := ("projects/" +:+ project)%string.
Definition getTPUParentName (project zone : string) : string := ("projects/" +:+ project +:+ "/locations/" +:+ zone)%string.
Definition getTPUName (project zone name : string) : string := ("projects/" +:+ project +:+ "/locations/" +:+ zone +:+ "/nodes/" +:+ name)%string.
Definition newTPUMetricContext (request zone : string) : metricContext := newGenericMetricContext "tpus" request unusedMetricLabel zone "v1".
Definition getErrorFromTPUOp (op : tpuOperation) : outcome unit :=
  match op_Error op with Some _ => Err (ErrGoogleAPI (op_HTTPStatusCode op)) | None => Ret tt end.

Section tpu.
Context {W : Type} `{TpuService W}.
Variable projectID : string.
Abbreviation M := (io (apiMetrics * W)).

(** [wait.PollInfinite]: a round waits, then looks; [None] while no round has
    ended the loop.  The variable of the operation is nil after a lookup that
    failed, and the message of the error reads its name. *)
Fixpoint waitForTPUOp (fuel : nat) (op : tpuOperation) : io W (option tpuOperation) :=
  match fuel with
  | O => mret None
  | S fuel =>
      _ ← tpu_Sleep (30000 * millisecond);
      cancelled ← ctx_Done;
      match cancelled with
      | Some err => fail (Errorf "failed to wait for operation %q: %s")
      | None =>
          _ ← limiter_Accept;
          r ← try (Operations_Get (op_Name op));
          match r with
          | inl err => lift Panic
          | inr op => if op_Done op then mret (Some op) else waitForTPUOp fuel op
          end
      end
  end.

(** [defer mc.Observe(err)]: the argument is evaluated when the statement is
    reached, before the call. *)
Definition deferredObserve {A} (mc : metricContext) (m : M A) : M A := finally m (Observe mc None).

Definition CreateTPU (fuel : nat) (name zone : string) (node : tpuNode) : M (option tpuNode) :=
  deferredObserve (newTPUMetricContext "create" zone) (on_snd
    (op ← Nodes_Create (getTPUParentName projectID zone) name node;
     done ← waitForTPUOp fuel op;
     match done with
     | None => mret None
     | Some op =>
         _ ← lift (getErrorFromTPUOp op);
         match node_Unmarshal (op_Response op) with
         | Ret output => mret (Some output)
         | Err _ => fail (Errorf "failed to unmarshal response from operation %q: response = %v, err = %v")
         | Panic => lift Panic
         end
     end)).
Definition DeleteTPU (fuel : nat) (name zone : string) : M (option unit) :=
  deferredObserve (newTPUMetricContext "delete" zone) (on_snd
    (op ← Nodes_Delete (getTPUName projectID zone name);
     done ← waitForTPUOp fuel op;
     match done with None => mret None | Some op => _ ← lift (getErrorFromTPUOp op); mret (Some tt) end)).
Definition GetTPU (name zone : string) : M tpuNode := observed (newTPUMetricContext "get" zone) (Nodes_Get (getTPUName projectID zone name)).
(** The pages, one after the other. *)
Definition ListTPUs (zone : string) : M (list tpuNode) :=
  observed (newTPUMetricContext "list" zone) (pages ← Nodes_List (getTPUParentName projectID zone); mret (concat pages)).
Definition ListLocations : M (list tpuLocation) :=
  observed (newTPUMetricContext "list_locations" EmptyString) (pages ← Locations_List (getTPUProjectURL projectID); mret (concat pages)).
End tpu.

(** ** GKE clusters ([gce_clusters.go]) *)

(** The container service: the clusters of a location, as far as one page goes,
    and the token of the next page, which is only logged. *)
Class ContainerService (W : Type) : Type := {
  gkeCluster : Type;
  cluster_Name : gkeCluster → string;
  Clusters_List : string → io W (list gkeCluster * string)
}.

Definition getLocationName (project zoneOrRegion : string) : string := ("projects/" +:+ project +:+ "/locations/" +:+ zoneOrRegion)%string.
Definition newClustersMetricContext (request zone : string) : metricContext := newGenericMetricContext "clusters" request unusedMetricLabel zone computeV1Version.

Section clusters.
Context {W : Type} `{ContainerService W}.
Variables (projectID region : string) (regional : bool) (managedZones : list string).
Abbreviation M := (io (apiMetrics * W)).

Definition getClustersInLocation (zoneOrRegion : string) : M (list gkeCluster) :=
  list ← observed (newClustersMetricContext "list_zone" zoneOrRegion) (Clusters_List (getLocationName projectID zoneOrRegion));
  mret list.1.
Definition listClustersInZone (zone : string) : M (list string) :=
  clusters ← getClustersInLocation zone; mret (cluster_Name <$> clusters).

(** The loops over the zones. *)
Fixpoint appendZones {A} (f : string → M (list A)) (zones : list string) (all : list A) : M (list A) :=
  match zones with
  | [] => mret all
  | zone :: zones => clusters ← f zone; appendZones f zones (all ++ clusters)
  end.
Definition ListClusters : M (list string) := appendZones listClustersInZone managedZones [].
Definition GetManagedClusters : M (list gkeCluster) :=
  if regional then getClustersInLocation region
  else if (1 <=? length managedZones)%nat then appendZones getClustersInLocation managedZones []
  else fail (Errorf "no zones associated with this cluster(%s)").
Definition Master (clusterName : string) : M string := mret ("k8s-" +:+ clusterName +:+ "-master.internal")%string.
End clusters.

(** ** Projects and rates of the calls ([support.go]) *)

(** The project that holds a resource. *)
Definition router_ProjectID (g : gceConfig) (service : string) : string :=
  if bool_decide (service ∈ ["Firewalls"; "Routes"; "Subnetworks"; "Networks"]%string) then g_networkProjectID g else g_projectID g.

(** [cloud.MinimumRateLimiter] over the limiter of the operations, of another
    repository, is the argument. *)
Definition operationPollInterval : Z := 1000 * millisecond.
Definition limiter_Accept_key {W} (minimumAccept : Z → io W unit) (operation service : string) : io W unit :=
  if bool_decide (operation = "Get"%string) && bool_decide (service = "Operations"%string) then minimumAccept operationPollInterval else mret tt.

(** ** Registry credentials ([providers/gce/gcpcredential]) *)
Module Registry.
Definition registryConfigEntryWithAuth : list string := ["username"; "password"; "email"; "auth"]%string.
Record RegistryConfigEntry : Type := mkRegistryEntry { reg_Username : string; reg_Password : string; reg_Email : string }.
Abbreviation RegistryConfig := (gmap string RegistryConfigEntry).

Definition metadataURL : string := "http://metadata.google.internal./computeMetadata/v1/".
Definition metadataAttributes : string := (metadataURL +:+ "instance/attributes/")%string.
Definition DockerConfigKey : string := (metadataAttributes +:+ "google-dockercfg")%string.
Definition DockerConfigURLKey : string := (metadataAttributes +:+ "google-dockercfg-url")%string.
Definition metadataToken : string := (metadataURL +:+ "instance/service-accounts/default/token")%string.
Definition metadataEmail : string := (metadataURL +:+ "instance/service-accounts/default/email")%string.
Definition containerRegistryUrls : list string := ["container.cloud.google.com"; "gcr.io"; "*.gcr.io"; "*.pkg.dev"]%string.
Definition maxReadLength : Z := 10 * Z.shiftl 1 20.

Definition decodeRegistryConfigFieldAuth (field : string) : outcome (string * string) :=
  decoded ← b64_DecodeString (HasSuffix (TrimSpace field) "=") field;
  match splitN2 colon decoded with
  | [username; password] => Ret (username, password)
  | _ => Err (Errorf "unable to parse auth field, must be formatted as base64(username:password)")
  end.
Definition encodeRegistryConfigFieldAuth (username password : string) : string := b64_encode (username +:+ ":" +:+ password)%string.

(** [UnmarshalJSON], from the parsed value. *)
Definition unmarshalEntry (v : json) : outcome RegistryConfigEntry :=
  match decode_struct registryConfigEntryWithAuth v None with
  | ([username; password; email; auth], None) =>
      match auth with
      | EmptyString => Ret (mkRegistryEntry username password email)
      | _ => x ← decodeRegistryConfigFieldAuth auth; Ret (mkRegistryEntry x.1 x.2 email)
      end
  | (_, Some err) => Err err
  | _ => Panic
  end.
Definition MarshalJSON (ident : RegistryConfigEntry) : string :=
  let auth := encodeRegistryConfigFieldAuth (reg_Username ident) (reg_Password ident) in
  let fields := zip registryConfigEntryWithAuth [reg_Username ident; reg_Password ident; reg_Email ident; auth] in
  marshal_struct (map (λ kv, (kv.1, FString kv.2)) (filter (λ kv, kv.2 ≠ EmptyString) fields)).

(** [json.Unmarshal] into the map: the members in the order of the text. *)
Definition addEntry (cfg : outcome RegistryConfig) (kv : string * json) : outcome RegistryConfig :=
  cfg ← cfg; e ← unmarshalEntry kv.2; Ret (<[ kv.1 := e ]> cfg).
Definition unmarshalConfig (contents : string) : outcome RegistryConfig :=
  match json_of contents with
  | Some (JObject ms) => foldl addEntry (Ret ∅) ms
  | Some JNull => Ret ∅
  | Some _ => Err (Errorf "json: cannot unmarshal %s into Go value of type %s")
  | None => Err (Errorf "invalid JSON")
  end.

Section env.
Context {W : Type} `{CredEnv W} `{MapOrder}.

(** A new map, filled in the order of the iteration. *)
Definition convertToExternalConfig (i : RegistryConfig) : RegistryConfig :=
  foldl (λ m kv, <[ kv.1 := mkRegistryEntry (reg_Username kv.2) (reg_Password kv.2) (reg_Email kv.2) ]> m) ∅ (range i).
Definition ReadDockerConfigFileFromBytes (contents : string) : outcome RegistryConfig :=
  match unmarshalConfig contents with
  | Ret serializableCfg => Ret (convertToExternalConfig serializableCfg)
  | Err _ => Err (Errorf "error occurred while trying to unmarshal json")
  | Panic => Panic
  end.

(** The reader stops at the limit, before the error of the body. *)
Definition ReadURL (url : string) (header : bool) : io W string :=
  _ ← lift (http_NewRequest url);
  resp ← client_Do url header;
  if bool_decide (StatusCode resp ≠ 200) then fail (Errorf "http status code: %d while fetching url %s")
  else
    let exhausted := maxReadLength <=? Z.of_nat (String.length (Body resp)) in
    match body_err resp with
    | Some err => if exhausted then fail (Errorf "the read limit is reached") else fail err
    | None => if exhausted then fail (Errorf "the read limit is reached") else mret (Body resp)
    end.
(** The inner error is lost. *)
Definition ReadDockerConfigFileFromURL (url : string) (header : bool) : io W RegistryConfig :=
  r ← try (ReadURL url header);
  match r with inr contents => lift (ReadDockerConfigFileFromBytes contents) | inl _ => mret ∅ end.

Definition ProvideConfigKey (image : string) : io W RegistryConfig :=
  r ← try (ReadDockerConfigFileFromURL DockerConfigKey true);
  match r with inl _ => mret ∅ | inr cfg => mret cfg end.
Definition ProvideURLKey (image : string) : io W RegistryConfig :=
  r ← try (ReadURL DockerConfigURLKey true);
  match r with
  | inl _ => mret ∅
  | inr url =>
      if HasPrefix url "http"
      then r ← try (ReadDockerConfigFileFromURL url false); match r with inl _ => mret ∅ | inr cfg => mret cfg end
      else mret ∅
  end.
Definition ProvideContainerRegistry (image : string) : io W RegistryConfig :=
  r ← try (ReadURL metadataToken true);
  match r with
  | inl _ => mret ∅
  | inr tokenJSONBlob =>
      r ← try (ReadURL metadataEmail true);
      match r with
      | inl _ => mret ∅
      | inr email =>
          match unmarshal_struct ["access_token"%string] tokenJSONBlob with
          | ([accessToken], None) => mret (foldl (λ cfg k, <[ k := mkRegistryEntry "_token" accessToken email ]> cfg) ∅ containerRegistryUrls)
          | _ => mret ∅
          end
      end
  end.
End env.
End Registry.

(** ** The copy of the registry credentials *)
Definition toRegistry (e : DockerConfigEntry) : Registry.RegistryConfigEntry := Registry.mkRegistryEntry (Username e) (Password e) (Email e).
Definition sameConfig (o : outcome DockerConfig) : outcome Registry.RegistryConfig := (λ cfg : DockerConfig, toRegistry <$> cfg) <$> o.

Lemma foldl_inserts {A} (l : list (string * A)) (acc : gmap string A) :
  foldl (λ m kv, <[ kv.1 := kv.2 ]> m) acc l = list_to_map (reverse l) ∪ acc.
Proof.
  revert acc. induction l as [|[k v] l IH]; intros acc; cbn [foldl].
  - change (reverse (@nil (string * A))) with (@nil (string * A)). cbn. by rewrite map_empty_union.
  - rewrite IH, reverse_cons, list_to_map_app. cbn. rewrite insert_empty, <- map_union_assoc. by rewrite insert_union_singleton_l.
Qed.
Lemma external_is_internal `{MapOrder} i : Registry.convertToExternalConfig i = i.
Proof.
  unfold Registry.convertToExternalConfig.
  transitivity (foldl (λ m kv, <[ kv.1 := kv.2 ]> m) (∅ : Registry.RegistryConfig) (range i)).
  { generalize (∅ : Registry.RegistryConfig). induction (range i) as [|[k []] l IH]; intros acc; cbn; [done|apply IH]. }
  etrans; [apply foldl_inserts|]. rewrite map_union_empty. transitivity (list_to_map (map_to_list i) : Registry.RegistryConfig); [|apply list_to_map_to_list].
  apply list_to_map_proper; [|by rewrite reverse_Permutation, range_perm]. rewrite reverse_Permutation, range_perm. apply NoDup_fst_map_to_list.
Qed.
Lemma empty_config : sameConfig (Ret ∅) = Ret ∅.
Proof. reflexivity. Qed.
Lemma auth_same field : Registry.decodeRegistryConfigFieldAuth field = decodeDockerConfigFieldAuth field.
Proof. unfold Registry.decodeRegistryConfigFieldAuth, decodeDockerConfigFieldAuth. by destruct (HasSuffix _ _). Qed.
Lemma entry_same v : Registry.unmarshalEntry v = toRegistry <$> entry_of_json v.
Proof.
  unfold Registry.unmarshalEntry, entry_of_json, Registry.registryConfigEntryWithAuth, dockerConfigEntryWithAuth.
  destruct (decode_struct _ v None) as [l [e|]]; [by repeat (destruct l as [|? l]; try done)|].
  do 4 (destruct l as [|? l]; [done|]). destruct l; [|done]. destruct s2 as [|c s2]; [done|].
  rewrite auth_same. change (String.length (String c s2) =? 0)%nat with false. by destruct (decodeDockerConfigFieldAuth _) as [[u p]| |].
Qed.
Lemma entries_same ms cfg : foldl Registry.addEntry (Ret (toRegistry <$> (cfg : DockerConfig))) ms = sameConfig (entries_of_json ms cfg).
Proof.
  revert cfg. induction ms as [|[k v] ms IH]; intros cfg; [done|]. cbn [foldl entries_of_json]. unfold Registry.addEntry at 2. cbn. rewrite entry_same.
  destruct (entry_of_json v) as [e|e|]; cbn; [rewrite <- fmap_insert; apply IH| |]; clear; induction ms as [|? ms IH]; done.
Qed.
Lemma bytes_same `{MapOrder} contents : Registry.ReadDockerConfigFileFromBytes contents = sameConfig (ReadDockerConfigFileFromBytes contents).
Proof.
  unfold Registry.ReadDockerConfigFileFromBytes, Registry.unmarshalConfig, ReadDockerConfigFileFromBytes, config_of_json.
  destruct (json_of contents) as [[]|]; try done; [by rewrite empty_config, external_is_internal|].
  rewrite <- (fmap_empty toRegistry), entries_same.
  destruct (entries_of_json _ _) as [cfg|e|]; cbn; [|done..]. by rewrite external_is_internal.
Qed.
Section same.
Context {W : Type} `{CredEnv W} `{MapOrder}.
Lemma url_same url header (w : W) : Registry.ReadURL url header w = ReadURL url header w.
Proof.
  unfold Registry.ReadURL, ReadURL. rewrite !io_bind_eq. destruct (lift _ w) as [[] w1]; [|done..]. rewrite !io_bind_eq. destruct (client_Do url header w1) as [[resp| |] w2]; [|done..].
  change Registry.maxReadLength with maxReadLength. unfold StatusOK. destruct (Z.eqb_spec (StatusCode resp) 200) as [E|E]; [rewrite bool_decide_false by naive_solver|by rewrite bool_decide_true by done].
  cbn. by destruct (maxReadLength <=? _), (body_err resp).
Qed.
Lemma try_url_same url header (w : W) : try (Registry.ReadURL url header) w = try (ReadURL url header) w.
Proof. unfold try. by rewrite url_same. Qed.
Lemma file_same url header (w : W) :
  Registry.ReadDockerConfigFileFromURL url header w = (sameConfig (ReadDockerConfigFileFromURL url header w).1, (ReadDockerConfigFileFromURL url header w).2).
Proof.
  unfold Registry.ReadDockerConfigFileFromURL, ReadDockerConfigFileFromURL. rewrite !io_bind_eq. unfold try. rewrite url_same.
  destruct (ReadURL url header w) as [[contents|e|] w1]; [cbn; by rewrite bytes_same|reflexivity|done].
Qed.
Lemma orEmpty_same url header (w : W) :
  (r ← try (Registry.ReadDockerConfigFileFromURL url header); match r with inl _ => mret ∅ | inr cfg => mret cfg end) w =
  (sameConfig (orEmpty (ReadDockerConfigFileFromURL url header) w).1, (orEmpty (ReadDockerConfigFileFromURL url header) w).2).
Proof.
  unfold orEmpty. rewrite !io_bind_eq. unfold try. rewrite file_same.
  destruct (ReadDockerConfigFileFromURL url header w) as [[cfg|e|] w1]; [done|reflexivity|done].
Qed.
End same.

Definition registry_Provide {W} `{CredEnv W} `{MapOrder} (p : provider) : string → io W Registry.RegistryConfig :=
  match p with
  | DockerConfigKeyProvider => Registry.ProvideConfigKey
  | DockerConfigURLKeyProvider => Registry.ProvideURLKey
  | ContainerRegistryProvider => Registry.ProvideContainerRegistry
  end.

(** C27: the credentials of the provider library are those of the credential
    package: in every environment, for each of the three flows, they make the
    same requests and return the same registries with the same user names,
    passwords and addresses, malformed answers, encodings of the authentication
    field and the read limit included, although one decodes through an internal
    map that it copies in the order of an iteration. *)
Theorem registry_copy_agrees {W} `{CredEnv W} `{MapOrder} p image (w : W) :
  registry_Provide p image w = (sameConfig (Provide p image w).1, (Provide p image w).2).
Proof.
  destruct p; cbn [registry_Provide Provide]; [apply orEmpty_same|..].
  - unfold Registry.ProvideURLKey, DockerConfigURLKeyProvider_Provide. change Registry.DockerConfigURLKey with DockerConfigURLKey. rewrite !io_bind_eq, try_url_same.
    destruct (try (ReadURL _ _) w) as [[[e|url]|e|] w1]; [reflexivity| |done..]. destruct (HasPrefix url "http"); [apply orEmpty_same|reflexivity].
  - unfold Registry.ProvideContainerRegistry, ContainerRegistryProvider_Provide.
    change Registry.metadataToken with metadataToken. change Registry.metadataEmail with metadataEmail. rewrite !io_bind_eq, try_url_same.
    destruct (try (ReadURL _ _) w) as [[[e|blob]|e|] w1]; [reflexivity| |done..]. rewrite !io_bind_eq, try_url_same.
    destruct (try (ReadURL _ _) w1) as [[[e|email]|e|] w2]; [reflexivity| |done..].
    destruct (unmarshal_struct _ blob) as [[|token [|]] [e|]]; try reflexivity.
Qed.

(** ** Waiting for an operation *)
Section waiting.
Context {W : Type} `{TpuService W}.

(** One round: the context is cancelled, or the answer of the lookup. *)
Definition pollRound (op : tpuOperation) : io W (error + (error + tpuOperation)) :=
  _ ← tpu_Sleep (30000 * millisecond);
  cancelled ← ctx_Done;
  match cancelled with
  | Some err => mret (inl err)
  | None => _ ← limiter_Accept; r ← try (Operations_Get (op_Name op)); mret (inr r)
  end.
(** Rounds that find the operation still running. *)
Inductive pending : nat → tpuOperation → W → tpuOperation → W → Prop :=
| pending_O op w : pending 0 op w op w
| pending_S n op w op1 w1 op2 w2 : pollRound op w = (Ret (inr (inr op1)), w1) → op_Done op1 = false → pending n op1 w1 op2 w2 → pending (S n) op w op2 w2.

Lemma wait_round fuel op w :
  waitForTPUOp (S fuel) op w =
  match pollRound op w with
  | (Ret (inl _), w') => (Err (Errorf "failed to wait for operation %q: %s"), w')
  | (Ret (inr (inl _)), w') => (Panic, w')
  | (Ret (inr (inr op')), w') => if op_Done op' then (Ret (Some op'), w') else waitForTPUOp fuel op' w'
  | (Err e, w') => (Err e, w')
  | (Panic, w') => (Panic, w')
  end.
Proof.
  cbn [waitForTPUOp]. unfold pollRound. rewrite !io_bind_eq. destruct (tpu_Sleep _ w) as [[[]| |] w1]; [|done..].
  rewrite !io_bind_eq. destruct (ctx_Done w1) as [[[e|]| |] w2]; [done| |done..].
  rewrite !io_bind_eq. destruct (limiter_Accept w2) as [[[]| |] w3]; [|done..].
  rewrite !io_bind_eq. unfold try. destruct (Operations_Get _ w3) as [[op'| |] w4]; [|done..]. cbn. by destruct (op_Done op').
Qed.
Lemma wait_pending n op w op1 w1 fuel : pending n op w op1 w1 → (n <= fuel)%nat → waitForTPUOp fuel op w = waitForTPUOp (fuel - n) op1 w1.
Proof.
  intros Hp. revert fuel. induction Hp as [op w|n op w op1 w1 op2 w2 Er Hd Hp IH]; intros fuel Hf; [by rewrite Nat.sub_0_r|].
  destruct fuel as [|fuel]; [lia|]. rewrite wait_round, Er, Hd, IH by lia. done.
Qed.
End waiting.

(** Waiting for a TPU operation.  After any number of rounds that find it
    running, the next round settles the result, whatever the bound on the rounds
    is from there on: a cancelled context is an error, an operation that is done
    is returned, and one that is still running is asked for again.  A lookup that
    fails makes the code read the name of a nil operation for its error message:
    it panics, and the error is never returned. *)
Theorem tpu_wait_settles {W} `{TpuService W} n op (w : W) op1 w1 x w2 fuel :
  pending n op w op1 w1 → pollRound op1 w1 = (Ret x, w2) → (n < fuel)%nat →
  waitForTPUOp fuel op w =
  match x with
  | inl _ => (Err (Errorf "failed to wait for operation %q: %s"), w2)
  | inr (inl _) => (Panic, w2)
  | inr (inr op2) => if op_Done op2 then (Ret (Some op2), w2) else waitForTPUOp (fuel - S n) op2 w2
  end.
Proof.
  intros Hp Er Hf. rewrite (wait_pending n op w op1 w1) by (done || lia). destruct (fuel - n)%nat as [|k] eqn:Ek; [lia|].
  rewrite wait_round, Er. replace (fuel - S n)%nat with k by lia. by destruct x as [|[|]].
Qed.

(** ** Counting *)
Lemma observed_counts {W A} mc (f : io W A) m w r m' w' : observed mc f (m, w) = (r, (m', w')) →
  r ≠ Panic → observedCalls mc m' = countCall (match r with Err _ => true | _ => false end) (observedCalls mc m) ∧ (∀ k, k ≠ mc_attributes mc → m' !! k = m !! k).
Proof.
  unfold observed, Observe. rewrite io_bind_eq. unfold try, on_snd. cbn. destruct (f w) as [[v|e|] w1]; cbn.
  - intros [= <- <- <-] _. unfold observedCalls, observeResult. rewrite lookup_insert_eq. split; [done|]. intros k Hk. by rewrite lookup_insert_ne.
  - intros [= <- <- <-] _. unfold observedCalls, observeResult. rewrite lookup_insert_eq. split; [done|]. intros k Hk. by rewrite lookup_insert_ne.
  - intros [= <- <- <-]. done.
Qed.
Lemma deferred_counts {W A} mc (f : io W A) m w r m' w' : deferredObserve mc (on_snd f) (m, w) = (r, (m', w')) →
  observedCalls mc m' = countCall false (observedCalls mc m).
Proof.
  unfold deferredObserve, finally, on_snd, Observe. cbn. destruct (f w) as [o w1]. cbn. intros E.
  assert (m' = observeResult mc false m) as -> by (by injection E). unfold observedCalls at 1, observeResult. by rewrite lookup_insert_eq.
Qed.

(** The counters of the TPU calls.  A lookup counts one call and, when it is an
    error, one failure.  Creations and deletions count one call and never a
    failure, however they end, since the deferred call is given the error of
    before the request. *)
Theorem tpu_failures_counted {W} `{TpuService W} projectID fuel name zone node m (w : W) :
  (∀ r m' w', GetTPU projectID name zone (m, w) = (r, (m', w')) → r ≠ Panic →
     observedCalls (newTPUMetricContext "get" zone) m' = countCall (match r with Err _ => true | _ => false end) (observedCalls (newTPUMetricContext "get" zone) m)) ∧
  (∀ r m' w', CreateTPU projectID fuel name zone node (m, w) = (r, (m', w')) →
     observedCalls (newTPUMetricContext "create" zone) m' = countCall false (observedCalls (newTPUMetricContext "create" zone) m)) ∧
  (∀ r m' w', DeleteTPU projectID fuel name zone (m, w) = (r, (m', w')) →
     observedCalls (newTPUMetricContext "delete" zone) m' = countCall false (observedCalls (newTPUMetricContext "delete" zone) m)).
Proof.
  split_and!; intros r m' w' E; [intros Hr; by eapply observed_counts|by eapply deferred_counts..].
Qed.

(** ** A service in memory: the answers to the lookups, in their order *)
Definition demo_op (done : bool) : tpuOperation := mkTpuOp "op-1" done None 200 "{}".
#[local] Instance scripted_tpu : TpuService (list (outcome tpuOperation)) := {|
  tpuNode := string;
  tpuLocation := string;
  Nodes_Create _ _ _ := mret (demo_op false);
  Nodes_Delete _ := mret (demo_op false);
  Nodes_Get _ := fail (ErrGoogleAPI 404);
  Nodes_List _ := mret [];
  Locations_List _ := mret [];
  Operations_Get _ := λ l, match l with r :: l => (r, l) | [] => (Err (ErrGoogleAPI 503), []) end;
  node_Unmarshal s := Ret s;
  ctx_Done := mret None;
  limiter_Accept := mret tt;
  tpu_Sleep _ := mret tt
|}.

(** One round finds the operation running, the next one fails. *)
Lemma tpu_wait_settles_witness :
  waitForTPUOp 5 (demo_op false) [Ret (demo_op false); Err (ErrGoogleAPI 503)] = (Panic, []) ∧
  waitForTPUOp 5 (demo_op false) [Ret (demo_op false); Ret (demo_op true)] = (Ret (Some (demo_op true)), []).
Proof.
  split.
  - apply (tpu_wait_settles 1 (demo_op false) [Ret (demo_op false); Err (ErrGoogleAPI 503)] (demo_op false) [Err (ErrGoogleAPI 503)] (inr (inl (ErrGoogleAPI 503))) [] 5);
      [apply (pending_S 0 _ _ (demo_op false) [Err (ErrGoogleAPI 503)]); [reflexivity|reflexivity|constructor]|reflexivity|lia].
  - apply (tpu_wait_settles 1 (demo_op false) [Ret (demo_op false); Ret (demo_op true)] (demo_op false) [Ret (demo_op true)] (inr (inr (demo_op true))) [] 5);
      [apply (pending_S 0 _ _ (demo_op false) [Ret (demo_op true)]); [reflexivity|reflexivity|constructor]|reflexivity|lia].
Defined.

(** A creation whose operation fails. *)
Definition demo_node : @tpuNode _ scripted_tpu := "{}"%string.
Definition failed_creation : outcome (option string) * (apiMetrics * list (outcome tpuOperation)) :=
  CreateTPU "p" 5 "t" "z" demo_node (∅, [Ret (mkTpuOp "op-1" true (Some "no capacity"%string) 429 EmptyString)]).
Lemma tpu_failures_counted_witness :
  failed_creation.1 = Err (ErrGoogleAPI 429) ∧ observedCalls (newTPUMetricContext "create" "z") failed_creation.2.1 = (1, 0)%nat ∧
  observedCalls (newTPUMetricContext "get" "z") (GetTPU "p" "t" "z" (∅ : apiMetrics, [])).2.1 = (1, 1)%nat.
Proof.
  split; [vm_compute; reflexivity|]. split.
  - destruct (tpu_failures_counted "p" 5 "t" "z" demo_node ∅ [Ret (mkTpuOp "op-1" true (Some "no capacity"%string) 429 EmptyString)]) as (_ & Hc & _).
    apply (Hc failed_creation.1 _ failed_creation.2.2). vm_compute. reflexivity.
  - destruct (tpu_failures_counted "p" 5 "t" "z" demo_node ∅ []) as (Hg & _).
    refine (Hg (Err (ErrGoogleAPI 404)) _ [] _ _); [vm_compute; reflexivity|done].
Defined.
