(* ===== verification/ManagerStartup.v ===== *)
(** * ManagerStartup: how the controller managers start

    [cmd/gcp-controller-manager]: the control loops and which of them are
    started ([loops.go], [main.go]), the constructors they call ([csr_signer.go],
    [dpwi/auth], [dpwi/nodesyncer], [dpwi/pods], [dpwi/configmap]), leader
    election, and the health handler ([healthz]).  [cmd/cloud-controller-manager]:
    the flags of the node IPAM controller, the start of the two controllers it
    adds, and the initialization of the cloud provider. *)
From S2P Require Import Prelude Bits GoNet GoNetText GoStrings NetUtils K8s GceInstances WorkQueue IoLogic NetworkAPI RangeAllocator CloudCidrAllocator GnpValidations GnpController NodeIpamConfig AddressManager NodeAnnotator LoadBalancer GceHosts.
Local Open Scope Z_scope.

(** ** What is started

    A controller or handler that a loop starts in a goroutine, with the number of
    its workers and the informers whose caches it waits for. *)
Inductive informer : Type := ServiceAccountInformer | PodInformer | NodeInformer.
#[global] Instance informer_eq_dec : EqDecision informer.
Proof. solve_decision. Defined.
Inductive started : Type :=
| CertificateController (name : string) (workers : nat)
| NodeAnnotatorController (workers : nat)
| EventHandler (name : string) (after : list informer) (workers : nat).
#[global] Instance started_eq_dec : EqDecision started.
Proof. solve_decision. Defined.

(** What the start needs of client-go and the operating system.  A manager waits
    for its context with [ctx_Wait]; the one of [run] never ends. *)
Class ManagerEnv (W : Type) : Type := {
  informerBuilder_Client : string → io W unit;
  builder_Client : string → io W unit;
  webhook_LoadKubeconfig : string → io W unit;
  NewGenericWebhook : io W unit;
  UnversionedRESTClientFor : string → io W unit;
  informers_Start : W → W;
  ctx_Wait : W → W;
  informers_WaitForCacheSync : io W (gmap string bool);
  election_NewForConfig : io W unit;
  os_Hostname : io W string;
  resourcelock_New : string → string → string → string → io W unit;
  NewLeaderElector : Z → Z → Z → io W unit;
  elector_Check : Z → io W unit;
  (** the callbacks for the start and the end of the leadership *)
  elector_Run {S} : io (S * W) unit → io (S * W) unit → io (S * W) unit
}.

(** ** Flags *)
Record LeaderElection : Type := mkElection { LeaderElect : bool; LeaseDuration : Z; RenewDeadline : Z; RetryPeriod : Z; ResourceLock : string }.
Record controllerManager : Type := mkManager {
  cm_clusterSigningGKEKubeconfig : string;
  cm_controllers : list string;
  cm_leaderElectionConfig : LeaderElection;
  cm_authAuthorizeServiceAccountMappingURL : string;
  cm_authSyncNodeURL : string;
  cm_hmsAuthorizeSAMappingURL : string;
  cm_hmsSyncNodeURL : string;
  (** flags of the package *)
  directPath : bool;
  kubeletReadOnlyCSRApprover : bool
}.

(** Whether a controller is enabled: the first entry that names it decides. *)
Fixpoint enabledIn (controllers : list string) (name : string) (star : bool) : bool :=
  match controllers with
  | [] => star
  | controller :: controllers =>
      if bool_decide (controller = name) then true
      else if bool_decide (controller = ("-" +:+ name)%string) then false
      else enabledIn controllers name (star || bool_decide (controller = "*"%string))
  end.
Definition isEnabled (s : controllerManager) (name : string) : bool := enabledIn (cm_controllers s) name false.

(** ** The loops *)
Inductive loop : Type := CertificateLoop (name : string) | SignerLoop | AnnotatorLoop | DirectPathLoop.
Definition loops (s : controllerManager) : gmap string loop :=
  let ll := {[ "node-certificate-approver" := CertificateLoop "node-certificate-approver";
               "istiod-certificate-approver" := CertificateLoop "istiod-certificate-approver";
               "oidc-certificate-approver" := CertificateLoop "oidc-certificate-approver";
               "certificate-signer" := SignerLoop;
               "node-annotator" := AnnotatorLoop ]}%string in
  let ll := if directPath s then <[ "direct-path-with-workload-identity" := DirectPathLoop ]> ll else ll in
  if kubeletReadOnlyCSRApprover s then <[ "kubelet-readonly-approver" := CertificateLoop "kubelet-readonly-approver" ]> ll else ll.

Section start.
Context {W : Type} `{ManagerEnv W} `{MapOrder}.
Variable s : controllerManager.
(** The goroutines, in the order of their start. *)
Abbreviation M := (io (list started * W)).

Definition loopNames : list string := sort_Strings (range (loops s)).*1.

Definition go (x : started) : M unit := put (λ st, (st.1 ++ [x], st.2)).

(** [auth.NewClient]: whether the service of the first URL is used. *)
Definition auth_NewClient (url hmsURL : string) : io W bool :=
  let useAuth := bool_decide (url ≠ EmptyString) in
  r ← try (UnversionedRESTClientFor (if useAuth then url else hmsURL));
  match r with inl _ => fail (Errorf "failed to create REST client for HMS from config %v: %w") | inr _ => mret useAuth end.
Definition nodesyncer_NewEventHandler (authSyncNodeURL hmsSyncNodeURL : string) : io W bool := auth_NewClient authSyncNodeURL hmsSyncNodeURL.
Definition newGKESigner : io W unit := _ ← webhook_LoadKubeconfig (cm_clusterSigningGKEKubeconfig s); NewGenericWebhook.

(** An error of the node syncer is dropped: the loop reports that it started. *)
Definition directPathV2Loop : M unit :=
  _ ← on_snd (auth_NewClient (cm_authAuthorizeServiceAccountMappingURL s) (cm_hmsAuthorizeSAMappingURL s));
  _ ← go (EventHandler "configmap-queue" [ServiceAccountInformer] 1);
  r ← try (on_snd (nodesyncer_NewEventHandler (cm_authSyncNodeURL s) (cm_hmsSyncNodeURL s)));
  match r with
  | inl _ => mret tt
  | inr _ =>
      _ ← go (EventHandler "service-account-verifier-sa-queue" [ServiceAccountInformer; PodInformer] 3);
      _ ← go (EventHandler "pod-event" [ServiceAccountInformer; PodInformer] 20);
      go (EventHandler "node-syncer" [NodeInformer] 30)
  end.

Definition runLoop (l : loop) : M unit :=
  match l with
  | CertificateLoop name => go (CertificateController name 20)
  | SignerLoop => _ ← on_snd newGKESigner; go (CertificateController "signer" 20)
  | AnnotatorLoop => go (NodeAnnotatorController 20)
  | DirectPathLoop => directPathV2Loop
  end.

(** The body of the range over the loops; an error ends the process. *)
Fixpoint startLoops (ll : list (string * loop)) : M unit :=
  match ll with
  | [] => mret tt
  | (name, l) :: ll =>
      if negb (isEnabled s name) then startLoops ll
      else
        r ← try (on_snd (builder_Client ("gcp-" +:+ name)%string));
        match r with
        | inl _ => lift Panic
        | inr _ => r ← try (runLoop l); match r with inl _ => lift Panic | inr _ => startLoops ll end
        end
  end.
Definition startControllers : M unit :=
  _ ← startLoops (range (loops s));
  put (λ st, (st.1, ctx_Wait (informers_Start st.2))).

(** ** Health *)
Definition informersCheck : io W unit :=
  res ← informers_WaitForCacheSync;
  if bool_decide (filter (λ x : string * bool, x.2 = false) (range res) = []) then mret tt else fail (Errorf "cache not synced for watchers: %q").
Definition leaderElectorCheck : io W unit :=
  r ← try (elector_Check (10000 * millisecond));
  match r with inl _ => fail (Errorf "leader election unhealthy: %v") | inr _ => mret tt end.

Definition StatusInternalServerError : Z := 500.
(** The names of the checks that failed, in the order of the iteration. *)
Fixpoint failedChecks (checks : list (string * io W unit)) : io W (list string) :=
  match checks with
  | [] => mret []
  | (name, check) :: checks =>
      r ← try check;
      failed ← failedChecks checks;
      mret match r with inl _ => name :: failed | inr _ => failed end
  end.
(** The status of the answer. *)
Definition ServeHTTP (checks : gmap string (io W unit)) : io W Z :=
  failed ← failedChecks (range checks);
  mret (if (0 <? length failed)%nat then StatusInternalServerError else 200).

(** ** Leader election *)
Definition leaderElectionResourceLockNamespace : string := "kube-system".
Definition leaderElectionResourceLockName : string := "gcp-controller-manager".
Definition makeLeaderElectionConfig (config : LeaderElection) : io W (Z * Z * Z) :=
  r ← try os_Hostname;
  match r with
  | inl _ => fail (Errorf "unable to get hostname: %v")
  | inr hostname =>
      r ← try (resourcelock_New (ResourceLock config) leaderElectionResourceLockNamespace leaderElectionResourceLockName hostname);
      match r with
      | inl _ => fail (Errorf "couldn't create resource lock: %v")
      | inr _ => mret (LeaseDuration config, RenewDeadline config, RetryPeriod config)
      end
  end.

(** The checks of the health handler once the run has set them, and the run.  A
    client that cannot be made and the loss of the leadership end the process. *)
Definition ClientOrDie (f : io W unit) : io W unit := r ← try f; match r with inl _ => lift Panic | inr _ => mret tt end.
Definition run_checks : gmap string (io W unit) :=
  let c := {[ "shared informers"%string := informersCheck ]} in
  if LeaderElect (cm_leaderElectionConfig s) then <[ "leader election"%string := leaderElectorCheck ]> c else c.
Definition run : M unit :=
  _ ← on_snd (ClientOrDie (informerBuilder_Client "gcp-controller-manager-shared-informer"));
  _ ← on_snd (ClientOrDie (builder_Client "gcp-controller-manager"));
  if LeaderElect (cm_leaderElectionConfig s) then
    _ ← on_snd election_NewForConfig;
    '(lease, renew, retry) ← on_snd (makeLeaderElectionConfig (cm_leaderElectionConfig s));
    _ ← on_snd (NewLeaderElector lease renew retry);
    _ ← elector_Run startControllers (lift Panic);
    fail (Errorf "should never reach this point")
  else
    _ ← startControllers;
    fail (Errorf "should never reach this point").
End start.

(** ** The cloud controller manager *)

(** [options.NodeIPAMControllerOptions]: the flags are bound to the configuration
    itself. *)
Definition Validate (o : NodeIPAMControllerConfiguration) : list error :=
  if (2 <? length (split_on comma (cfg_ServiceCIDR o)))%nat
  then [Errorf "--service-cluster-ip-range can not contain more than two entries"] else [].
Definition ApplyTo (o cfg : NodeIPAMControllerConfiguration) : NodeIPAMControllerConfiguration :=
  let serviceCIDRList := split_on comma (cfg_ServiceCIDR o) in
  mkIPAMConfig (default (cfg_ServiceCIDR cfg) (serviceCIDRList !! 0%nat)) (default (cfg_SecondaryServiceCIDR cfg) (serviceCIDRList !! 1%nat))
    (NodeCIDRMaskSize o) (NodeCIDRMaskSizeIPv4 o) (NodeCIDRMaskSizeIPv6 o).
Definition startNodeIpamControllerWrapper {W} `{KubeClient W} (isGCE : bool) (shared : KubeCloudShared) (cfg : NodeIPAMControllerConfiguration) : io W allocator :=
  match Validate cfg with
  | _ :: _ => lift Panic
  | [] => startNodeIpamController isGCE shared (ApplyTo cfg cfg)
  end.

Definition validClusterCIDR (clusterCIDRFromFlag : string) : outcome (list IPNet) :=
  '(clusterCIDRs, dualStack) ← processCIDRs clusterCIDRFromFlag;
  if (1 <? length clusterCIDRs)%nat && negb dualStack
  then Err (Errorf "len of ClusterCIDRs==%v and they are not configured as dual stack (at least one from each IPFamily")
  else if (2 <? length clusterCIDRs)%nat then Err (Errorf "len of clusters is:%v > more than max allowed of 2")
  else Ret clusterCIDRs.

(** The provider, when it is the GCE one; the first argument is
    [networkclientset.NewForConfig]. *)
Definition startGkeNetworkParamsController {W} (newClient : io W unit) (cloud : option gceCloud) (shared : KubeCloudShared) : io W Controller :=
  match cloud with
  | None => fail (Errorf "GkeNetworkParamsController does not support %v provider")
  | Some gceCloud =>
      _ ← newClient;
      clusterCIDRs ← (if bool_decide (CIDRAllocatorType shared = CloudAllocatorType) then lift (validClusterCIDR (ClusterCIDR shared)) else mret []);
      lift (NewGKENetworkParamSetController gceCloud clusterCIDRs)
  end.

(** [cloudprovider.InitCloudProvider] is the first argument; a fatal message ends
    the process. *)
Definition cloudInitializer {W C} (initCloudProvider : string → string → io W (option C)) (hasClusterID : C → bool)
    (name configFile : string) (allowUntaggedCloud : bool) : io W C :=
  r ← try (initCloudProvider name configFile);
  match r with
  | inl _ => lift Panic
  | inr None => lift Panic
  | inr (Some cloud) => if hasClusterID cloud || allowUntaggedCloud then mret cloud else lift Panic
  end.

(** ** Which loops are enabled *)
Lemma enabledIn_spec controllers name star :
  enabledIn controllers name star = true ↔
  (∃ l1 l2, controllers = l1 ++ name :: l2 ∧ ("-" +:+ name)%string ∉ l1) ∨
  ((star = true ∨ "*"%string ∈ controllers) ∧ name ∉ controllers ∧ ("-" +:+ name)%string ∉ controllers).
Proof.
  assert (name ≠ ("-" +:+ name)%string) as Hne.
  { intros E. apply (f_equal String.length) in E. rewrite string_length_app in E. cbn in E. lia. }
  revert star. induction controllers as [|c cs IH]; intros star; cbn [enabledIn].
  - split; [intros ->; right; split_and!; [by left|set_solver..]|]. intros [(l1 & l2 & E & _)|([->|H] & _)]; [by destruct l1|done|set_solver].
  - case_bool_decide as E1; [subst c; split; [intros _; left; exists [], cs; set_solver|done]|].
    case_bool_decide as E2.
    { subst c. split; [done|]. intros [([|x l1] & l2 & E & Hn)|(_ & _ & Hn)]; [injection E as E _; by destruct Hne|injection E as <- _; set_solver|set_solver]. }
    rewrite IH. split.
    + intros [(l1 & l2 & -> & Hn)|(Hs & H1 & H2)]; [left; exists (c :: l1), l2; set_solver|right]. rewrite orb_true_iff, bool_decide_eq_true in Hs. set_solver.
    + intros [([|x l1] & l2 & E & Hn)|(Hs & H1 & H2)].
      * by injection E as -> _.
      * injection E as <- ->. left. exists l1, l2. set_solver.
      * right. rewrite orb_true_iff, bool_decide_eq_true. set_solver.
Qed.

(** ** Which loops are started *)

(** The loop that starts a controller. *)
Definition partOf (x : started) : string :=
  match x with
  | CertificateController name _ => if bool_decide (name = "signer"%string) then "certificate-signer"%string else name
  | NodeAnnotatorController _ => "node-annotator"
  | EventHandler _ _ _ => "direct-path-with-workload-identity"
  end.
Definition nameOf (l : loop) : string :=
  match l with
  | CertificateLoop name => name
  | SignerLoop => "certificate-signer"
  | AnnotatorLoop => "node-annotator"
  | DirectPathLoop => "direct-path-with-workload-identity"
  end.
Lemma loops_named s name l : loops s !! name = Some l → nameOf l = name ∧ l ≠ CertificateLoop "signer".
Proof.
  unfold loops. destruct (directPath s), (kubeletReadOnlyCSRApprover s); rewrite ?lookup_insert_Some, lookup_singleton_Some; naive_solver.
Qed.

Section started.
Context {W : Type} `{ManagerEnv W} `{MapOrder}.
Variable s : controllerManager.

(** A run that starts only parts of the loop, each once, and at least one when it
    returns. *)
Definition starts (name : string) (m : io (list started * W) unit) : Prop :=
  ∀ log w r log' w', m (log, w) = (r, (log', w')) →
    ∃ new, log' = log ++ new ∧ NoDup new ∧ Forall (λ x, partOf x = name) new ∧ (r = Ret tt → new ≠ []).

Lemma starts_loop name l : loops s !! name = Some l → starts name (runLoop s l).
Proof.
  intros [Hn Hs]%loops_named log w r log' w'. destruct l as [name'| | |]; cbn [nameOf runLoop] in *; subst.
  - intros [= <- <- <-]. eexists. split; [done|]. split; [apply NoDup_singleton|]. split; [|done]. constructor; [|done]. cbn. rewrite bool_decide_false; [done|]. by intros ->.
  - rewrite io_bind_eq. unfold on_snd. cbn. destruct (newGKESigner s w) as [[[]|e|] w1]; intros [= <- <- <-].
    + eexists. split; [done|]. split; [apply NoDup_singleton|]. split; [by constructor|done].
    + exists []. rewrite app_nil_r. repeat split; [apply NoDup_nil_2|by constructor|done].
    + exists []. rewrite app_nil_r. repeat split; [apply NoDup_nil_2|by constructor|done].
  - intros [= <- <- <-]. eexists. split; [done|]. split; [apply NoDup_singleton|]. split; [by constructor|done].
  - unfold directPathV2Loop. rewrite io_bind_eq. unfold on_snd at 1. cbn. destruct (auth_NewClient _ _ w) as [[u|e|] w1]; cbn; cycle 1.
    { intros [= <- <- <-]. exists []. rewrite app_nil_r. repeat split; [apply NoDup_nil_2|by constructor|done]. }
    { intros [= <- <- <-]. exists []. rewrite app_nil_r. repeat split; [apply NoDup_nil_2|by constructor|done]. }
    rewrite io_bind_eq. cbn. rewrite io_bind_eq. unfold try, on_snd. cbn. destruct (nodesyncer_NewEventHandler _ _ w1) as [[v|e|] w2]; cbn; intros [= <- <- <-].
    + eexists. rewrite <- !app_assoc. split; [done|]. split; [vm_compute; repeat constructor; set_solver|]. split; [by repeat constructor|done].
    + eexists. split; [done|]. split; [apply NoDup_singleton|]. split; [by constructor|done].
    + eexists. split; [done|]. split; [apply NoDup_singleton|]. split; [by constructor|done].
Qed.

(** Over a list of loops with distinct names. *)
Lemma startLoops_log ll log w r log' w' :
  NoDup ll.*1 → Forall (λ kv, loops s !! kv.1 = Some kv.2) ll → startLoops s ll (log, w) = (r, (log', w')) →
  ∃ new, log' = log ++ new ∧ NoDup new ∧ Forall (λ x, partOf x ∈ ll.*1 ∧ isEnabled s (partOf x) = true) new ∧
    (r = Ret tt → ∀ name, name ∈ ll.*1 → isEnabled s name = true → ∃ x, x ∈ new ∧ partOf x = name) ∧ (∀ e, r ≠ Err e).
Proof.
  assert (∀ l : list started, ∃ new, l = l ++ new ∧ NoDup new ∧ ∀ φ, Forall φ new) as Hnone
    by (intros l; exists []; rewrite app_nil_r; split; [done|split; [apply NoDup_nil_2|by constructor]]).
  revert log w. induction ll as [|[name l] ll IH]; intros log w Hd Hl; cbn [startLoops].
  { intros [= <- <- <-]. destruct (Hnone log) as (new & E & Hn & Hf). exists new. split_and!; try done; intros _ name Hin; by apply elem_of_nil in Hin. }
  apply NoDup_cons in Hd as [Hni Hd]. apply Forall_cons in Hl as [Hl Hls]. cbn in Hni, Hl.
  destruct (isEnabled s name) eqn:En; cbn [negb].
  2: { intros E. destruct (IH _ _ Hd Hls E) as (new & -> & Hn & Hf & Hr & He). exists new. split_and!; try done.
       - eapply Forall_impl; [exact Hf|]. cbn. intros x [Hx ?]. split; [by apply list_elem_of_further|done].
       - intros Hret name' [->|Hin]%elem_of_cons Hen; [cbn in Hen; congruence|]. by apply Hr. }
  rewrite io_bind_eq. unfold try, on_snd. cbn [fst snd]. destruct (builder_Client _ w) as [[[]|e|] w1]; cbn [fst snd].
  2,3: intros [= <- <- <-]; destruct (Hnone log) as (new & E & Hn & Hf); exists new; split_and!; try done; apply Hf.
  rewrite io_bind_eq. destruct (runLoop s l (log, w1)) as [r1 [log1 w2]] eqn:E1.
  destruct (starts_loop name l Hl _ _ _ _ _ E1) as (new1 & -> & Hn1 & Hf1 & Hr1).
  assert (Forall (λ x, partOf x ∈ name :: ll.*1 ∧ isEnabled s (partOf x) = true) new1) as Hp1.
  { eapply Forall_impl; [exact Hf1|]. cbn. intros x ->. split; [apply list_elem_of_here|done]. }
  destruct r1 as [[]|e|].
  2,3: intros [= <- <- <-]; exists new1; split_and!; done.
  intros E. destruct (IH _ _ Hd Hls E) as (new2 & -> & Hn2 & Hf2 & Hr2 & He). exists (new1 ++ new2). rewrite app_assoc. rewrite Forall_forall in Hf1. split_and!; try done.
  - apply NoDup_app. split_and!; [done| |done]. intros x Hx Hx2. rewrite Forall_forall in Hf2. destruct (Hf2 x Hx2) as [Hin _]. by rewrite (Hf1 x Hx) in Hin.
  - apply Forall_app. split; [done|]. eapply Forall_impl; [exact Hf2|]. cbn. intros x [Hx ?]. split; [by apply list_elem_of_further|done].
  - intros Hret name' [->|Hin]%elem_of_cons Hen.
    + destruct new1 as [|x new1]; [by destruct Hr1|]. exists x. split; [set_solver|]. apply Hf1, list_elem_of_here.
    + destruct (Hr2 Hret name' Hin Hen) as (x & Hx & ?). exists x. set_solver.
Qed.
End started.


(** ** The GNP controller *)
Lemma validClusterCIDR_spec flag cidrs : validClusterCIDR flag = Ret cidrs →
  (length cidrs <= 2)%nat ∧ (length cidrs = 2%nat → IsDualStackCIDRs (Some <$> cidrs) = Ret true).
Proof.
  unfold validClusterCIDR, processCIDRs. destruct (ParseCIDRs _) as [l| |]; [|done..].
  change ((if (1 <? length l)%nat && negb match IsDualStackCIDRs (Some <$> l) with Ret b => b | _ => false end
           then Err (Errorf "len of ClusterCIDRs==%v and they are not configured as dual stack (at least one from each IPFamily")
           else if (2 <? length l)%nat then Err (Errorf "len of clusters is:%v > more than max allowed of 2") else Ret l) = Ret cidrs →
          (length cidrs <= 2)%nat ∧ (length cidrs = 2%nat → IsDualStackCIDRs (Some <$> cidrs) = Ret true)).
  destruct (_ && _) eqn:E1; [done|]. destruct (Nat.ltb_spec 2 (length l)) as [|Hl]; [done|]. intros [= <-]. split; [done|].
  intros E2. rewrite E2 in E1. cbn in E1. by destruct (IsDualStackCIDRs _) as [[]| |].
Qed.


(** ** Starts *)
#[local] Instance quiet_env : ManagerEnv (list string) := {|
  informerBuilder_Client _ := mret tt;
  builder_Client name := put (λ l, l ++ [name]);
  webhook_LoadKubeconfig _ := mret tt;
  NewGenericWebhook := mret tt;
  UnversionedRESTClientFor url := if bool_decide (url = EmptyString) then fail (Errorf "host must be a URL or a host:port pair") else mret tt;
  informers_Start w := w;
  ctx_Wait w := w;
  informers_WaitForCacheSync := mret ∅;
  election_NewForConfig := mret tt;
  os_Hostname := mret "master"%string;
  resourcelock_New _ _ _ _ := mret tt;
  NewLeaderElector _ _ _ := mret tt;
  elector_Check _ := mret tt;
  elector_Run S started stopped := _ ← started; stopped
|}.
Definition list_order : MapOrder := {| range A m := map_to_list m; range_perm A m := reflexivity _ |}.
(** Without a URL for the node sync. *)
Definition demo_manager : controllerManager :=
  mkManager "/etc/gke.kubeconfig" ["*"; "-node-annotator"]%string (mkElection true 15 10 2 "leases") "https://auth" EmptyString EmptyString EmptyString true false.
Definition manager_run : outcome unit * (list started * list string) := @startControllers _ quiet_env list_order demo_manager ([], []).


Definition demo_gceCloud : gceCloud := mkGCE "us-central1" "net" "subnet" false.
Definition gnp_started : outcome Controller * unit := startGkeNetworkParamsController (mret tt) (Some demo_gceCloud) (mkShared true "10.0.0.0/14,fd00::/56" CloudAllocatorType) tt.
Definition gnp_refused : outcome Controller * unit := startGkeNetworkParamsController (mret tt) (Some demo_gceCloud) (mkShared true "10.0.0.0/14,fd00::/56" RangeAllocatorType) tt.

